(* ===== verification/_CoqProject ===== *)
-Q . S2P
Prelude.v
BytesCodec.v
Rlp.v
Nibbles.v
Mpt.v
MptInv.v
MptInsert.v
MptDelete.v
MptMap.v
MptHash.v
MptCache.v
MptWire.v
MptProof.v
MptTries.v
MptCover.v
EthState.v
StateShape.v
MptWitness.v
NitroTypes.v
Db.v
Accumulator.v
AccRecovery.v
Merkle.v
Network.v
EventsHash.v
BlobCodec.v
BlobPayload.v
BlobRoundtrip.v
WitnessDb.v
Executor.v
Enclave.v
EnclaveBatch.v
EnclaveEncodings.v
EnclaveLoop.v
EnclaveSafety.v
Sp1.v
Interaction.v
Text.v
RollupClient.v
Rbf.v
RbfSpec.v
RbfTermination.v
Orchestrator.v
Startup.v
OrchestratorLoop.v
OrchestratorSafety.v
OrchestratorRuns.v
L1Listener.v
L1ListenerSpec.v
Hub.v
HubSpec.v
Driver.v
DriverLoop.v
DriverSpec.v
Reader.v
CborSpec.v
Validator.v
NitroVerifier.v
ValidatorSpec.v
Frames.v
ProxyDb.v
Attestation.v
AttestationSpec.v
AttestationRuns.v
ProxyEnclave.v
ProxyEnclaveSpec.v
ProxyServer.v
ChallengeSpec.v
ChallengeInput.v
WitnessCover.v
HostDb.v
HostExecutor.v
HostSpec.v
RpcDb.v
RpcSpec.v
SigningClient.v
SigningSpec.v
Kms.v
Genesis.v
GenesisSpec.v
