(* ===== verification/Prelude.v ===== *)
(** * Fluent STF: a verification development

    The repository is the off-chain half of an optimistic rollup with hardware
    attestation.  An orchestrator ([bin/witness-orchestrator]) follows the L2
    chain, executes every block into a local database and produces a witness for
    it; a proxy ([bin/proxy]) hands the witnesses to a Nitro enclave
    ([bin/client], feature [nitro]) which re-executes and signs blocks, and later
    signs whole batches; the orchestrator sends the batch signatures to the L1
    rollup contract.  Disputed blocks are proved by the SP1 guest ([bin/client],
    feature [sp1]), and the enclave's key is registered on L1 with a proof by a
    second guest ([bin/aws-nitro-validator]) that an AWS attestation names it.

    ** How the files follow the code

    - Shared: [Prelude] (outcomes of fallible code, machine integers, ranges,
      ordered maps, automation), [BytesCodec], [Rlp], [Text], [Interaction]
      (asynchronous code as programs over calls, with an invariant
      rule, a rule for honest environments, and evaluation).
    - [crates/mpt]: [Nibbles], [Mpt], [MptHash], [MptWire], [MptProof],
      [MptTries], [EthState], [MptWitness] are the code; [MptInv],
      [MptInsert], [MptDelete], [MptMap], [MptCache], [MptCover],
      [StateShape] its theory: the invariant, refinement of finite maps,
      canonicity, coherence of the caches, round trip and binding of the root,
      multiproofs that cover what is asked, updates of truncated states.
    - [crates/executor/client]: [EventsHash], [Merkle], [WitnessDb], [WitnessCover]
      (when the witness is accepted), [Executor].
    - [crates/storage/rpc-db], [crates/executor/host]: [HostDb], [HostExecutor],
      [HostSpec] (blocks executed against reth's storage), [RpcDb], [RpcSpec]
      (against a JSON-RPC endpoint).
    - [crates/blob-builder], [bin/client/src/blob.rs]: [BlobCodec],
      [BlobPayload], [BlobRoundtrip].
    - [bin/client]: [NitroTypes], [Network], [Enclave], [EnclaveBatch],
      [EnclaveEncodings], [EnclaveLoop], [EnclaveSafety] for the enclave, [Kms]
      for its source of randomness, [Sp1] for the SP1 guest, [Frames] for the socket of both the enclave and the proxy.
    - [bin/witness-orchestrator]: [Db], [Accumulator], [AccRecovery] (the store
      and what is kept of the batches), [RollupClient] ([crates/l1-rollup-client]),
      [Rbf], [RbfSpec], [RbfTermination] (one dispatch worker), [Orchestrator],
      [OrchestratorLoop], [OrchestratorSafety], [OrchestratorRuns] (the main
      loop), [Startup] (how the process starts and ends), [L1Listener], [L1ListenerSpec], [Hub], [HubSpec] (the cold
      store), [Driver], [DriverLoop], [DriverSpec] (the embedded
      node and the witness server), [SigningClient] (execution and signing over
      HTTP), [SigningSpec] (the whole pipeline: worker, proxy, enclave).
    - [bin/aws-nitro-validator]: [Reader], [CborSpec], [Validator],
      [ValidatorSpec], and [NitroVerifier] for the L1 contract it serves.
    - [bin/proxy]: [ProxyDb], [Attestation], [AttestationSpec],
      [AttestationRuns] (the attestation of a key, until L1 confirmed it),
      [ProxyEnclave], [ProxyEnclaveSpec] (requests to the enclave and the
      handshake, against the model of the enclave itself),
      [ProxyServer] (start, routes, handlers, the task of a challenge),
      [ChallengeSpec], [ChallengeInput] (that task, and what the handlers prepare
      for the SP1 guest).
    - [crates/primitives/build.rs]: [Genesis], and in [GenesisSpec] a reader of the
      Rust text it writes.
    Files ending in [Spec], [Safety], [Runs] and the like hold theorems only.
    Functions keep the names of the code; records are structs, inductive types
    are enums.  Bytes, hashes and addresses are lists of [Z]; an integer of the
    code is a [Z] whose wrap-around or saturation is written where it happens.
    [Ok], [Err] and [Panic] are the outcomes of fallible code.

    ** How stateful code is modelled

    Data structures and stores are values passed along.  Every SQL statement of
    the orchestrator may fail, as an argument of the operation says; the theorems
    say which failures they tolerate.  The enclave and the orchestrator's main
    loop are step relations over their whole state, with queues, workers and
    spawned tasks in it; their theorems are by induction on reachable states.
    Code that talks to L1, L2, reth, SP1 or a socket is a program over typed
    calls: theorems quantify over every trace of answers, or over those an honest
    environment gives, and honesty is spelled out for each kind of call.

    ** Parameters

    Libraries are classes of functions with the laws the code relies on:
    [Keccak] (32 bytes out), [AlloyRlp] and [RlpReader] (writing and reading RLP
    agree), [AccountCodec], [ChainTypes] and [Reth] (the EVM and consensus rules,
    which see the state through [WitnessDb] only), [Brotli], [Zstd] (inverse
    pairs), [EnclaveCrypto], [KzgRs], [NitroCrypto] (no laws), [NodeTypes],
    [RollupAbi], [VerifierAbi], [HostParsers], [Bincode], [EnclaveBincode],
    [ServerCodec], [KzgHost], [HostLibs], [Evm], [RawTypes],
    [GenesisLibs], [EnvLibs].  On the host the EVM
    is a program over its four reads; [HostSpec.EvmLaws] says that the guest's EVM
    is that program run on the witness.  Nothing is assumed about
    collisions: theorems that depend on them end in an explicit collision.  Each
    property with hypotheses has a witness with the parameters instantiated.

    ** What the theorems show

    - The trie refines a finite map, depends on it only, and its memoised root is
      a function of the contents; encoding and decoding are inverse up to hashed
      children; equal roots mean equal contents or a collision; truncated tries
      answer like full ones ([MptMap], [MptCache], [MptWire], [MptTries]).
    - A block the executor accepts has the state root of the specified update of
      the parent state, and every read the EVM made was of that state
      ([EthState], [WitnessDb], [Executor]).
    - What the host accepts, the guest accepts: with honest providers the
      witness of a successful run answers every read of the guest's run, which
      ends with the block's header ([HostSpec], on [MptCover] and [WitnessCover]);
      over an execution witness the one exception is an account without a storage
      trie ([RpcSpec]).  A state stays well formed under updates ([StateShape]).
    - A batch the enclave signs consists of blocks it executed, and its blobs
      carry those blocks; signatures stand for one message; its queues, store and
      key are bounded and fixed ([EnclaveSafety], [EnclaveBatch],
      [EnclaveEncodings]); what a hostile parent host feeds the KMS client cannot
      change a request beyond its own header, nor let a truncated response pass
      ([Kms]).  Blobs written are blobs read ([BlobRoundtrip]).
    - From a witness to a signed batch, across worker, HTTP, handler, frames and
      enclave, nothing is lost and nothing changed ([SigningSpec]).
    - The orchestrator's state machine keeps its invariants under every
      interleaving, recovers after restarts, a worker neither skips a nonce nor
      exceeds its cap and gives up, the listener loses no event, the store serves
      what was pushed, and the driver feeds witnesses without gaps; the gas limit sent to L1
      is the estimate and a quarter, saturated ([RollupClient]), and the process
      flushes the cold store on every path to its exit ([Startup]).
    - The validator guest vouches exactly for attested keys, and the proxy only
      ever submits proofs for the key they attest, until L1 has confirmed it.
    - The first block sent to an enclave without a key leaves exactly that key
      registered; the input of an accepted challenge passes every check of the SP1
      guest, which commits the hashes the enclave signs; the status of a challenge
      is what became of it ([ProxyEnclaveSpec], [ChallengeInput], [ChallengeSpec]).
    - The Rust file the build script generates means the genesis objects it built,
      mainnet's being the one whose hash it checked ([GenesisSpec]).
    - Several theorems exhibit behaviour the code does not intend: they are listed
      as findings ([WitnessDb.unvalidated_node_forges], the runs of
      [OrchestratorRuns] and [DriverSpec]).

    ** Bounds and fuel

    Recursion over tries, RLP and CBOR is bounded by the length of the input,
    which is enough (each such function has a lemma that more fuel changes
    nothing or that the bound suffices).  Loops that wait for a network run for a
    given number of rounds and answer [None] when it is used up; safety is proved
    for every number, and [RbfTermination.worker_gives_up] and
    [AttestationRuns.attestation_completes] give numbers that suffice.

    ** Not modelled

    - Logs, [metrics.rs], and the construction of clients, databases and channels
      in the [main.rs] files (their configuration and the order of their steps
      are: [Startup], [ProxyServer]).
    - Glue around libraries whose content is theirs: [evm.rs] and [tracking] of
      the client executor (delegation to revm and reth), [provider] (an RPC retry
      layer).
    - The TLS connection and the JSON of the KMS exchange; reth's own
      construction of multiproofs, which is an hypothesis of [HostSpec]; the
      completeness of the proofs [BasicRpcDb] collects. *)
From stdpp Require Export base list gmap sets sorting.
From Stdlib Require Export ZArith Lia.

#[export] Set Default Goal Selector "!".
#[global] Open Scope Z_scope.

(** ** Outcomes of fallible Rust code

    [Ok] and [Err] are the two sides of [Result]; [Panic] is an unwinding
    [panic!], [unwrap] on [None], [unreachable!] or out-of-range index. *)
Inductive outcome (E A : Type) : Type :=
  | Ok (a : A)
  | Err (e : E)
  | Panic.
Arguments Ok {E A} a.
Arguments Err {E A} e.
Arguments Panic {E A}.

#[export] Instance outcome_ret {E} : MRet (outcome E) := fun A => @Ok E A.
#[export] Instance outcome_bind {E} : MBind (outcome E) := fun A B f c =>
  match c with
  | Ok a => f a
  | Err e => Err e
  | Panic => Panic
  end.
#[export] Instance outcome_fmap {E} : FMap (outcome E) := fun A B f c =>
  match c with
  | Ok a => Ok (f a)
  | Err e => Err e
  | Panic => Panic
  end.

#[export] Instance outcome_eq_dec {E A} `{EqDecision E, EqDecision A} :
  EqDecision (outcome E A).
Proof. solve_decision. Defined.

(** The outcome of a function that returns no [Result], where errors are possible. *)
Definition infallible {E A} (o : outcome Empty_set A) : outcome E A :=
  match o with Ok a => Ok a | Err e => match e with end | Panic => Panic end.

(** [Option::unwrap] / [expect]. *)
Definition unwrap {E A} (o : option A) : outcome E A :=
  match o with Some a => Ok a | None => Panic end.

(** [assert!]. *)
Definition ensure {E} (b : bool) : outcome E unit := if b then Ok tt else Panic.

(** [Result::map_err]. *)
Definition map_err {E F A} (f : E -> F) (c : outcome E A) : outcome F A :=
  match c with Ok a => Ok a | Err e => Err (f e) | Panic => Panic end.

Lemma bind_Ok {E A B} (c : outcome E A) (f : A -> outcome E B) b :
  (c ≫= f) = Ok b <-> exists a, c = Ok a /\ f a = Ok b.
Proof. destruct c; cbn; naive_solver. Qed.

Lemma infallible_Ok {E A} (o : outcome Empty_set A) (a : A) : @infallible E A o = Ok a <-> o = Ok a.
Proof. destruct o as [|[]|]; cbn; naive_solver. Qed.

Lemma Ok_inj {E A} (a b : A) : @Ok E A a = Ok b -> a = b.
Proof. by intros [= ->]. Qed.

Lemma unwrap_Ok {E A} (o : option A) (a : A) : @unwrap E A o = Ok a <-> o = Some a.
Proof. destruct o; cbn; naive_solver. Qed.

Lemma ensure_Ok {E} b u : @ensure E b = Ok u <-> b = true.
Proof. destruct b, u; cbn; naive_solver. Qed.

(** [inv_ok] takes a successful monadic computation apart. *)
Ltac inv_ok :=
  repeat match goal with
  | H : Ok _ = Ok _ |- _ => injection H as H; try subst
  | H : Err _ = Ok _ |- _ => discriminate H
  | H : Panic = Ok _ |- _ => discriminate H
  | H : Ok _ = Err _ |- _ => discriminate H
  | H : Ok _ = Panic |- _ => discriminate H
  | H : (_ ≫= _) = Ok _ |- _ =>
      apply bind_Ok in H; let a := fresh "a" in let Ha := fresh "Ha" in
      destruct H as (a & Ha & H)
  | H : unwrap _ = Ok _ |- _ => apply unwrap_Ok in H
  | H : ensure _ = Ok _ |- _ => apply ensure_Ok in H
  end.

(** A successful traversal is a successful step on every element. *)
Lemma mapM_Ok {E A B} (f : A -> outcome E B) (l : list A) (k : list B) :
  mapM f l = Ok k <-> Forall2 (fun x y => f x = Ok y) l k.
Proof.
  split.
  - revert k. induction l as [|x l IH]; intros k E'; cbn in E'; inv_ok.
    + injection E' as <-. constructor.
    + injection E' as <-. constructor; auto.
  - induction 1 as [|x y l k Hx _ IH]; cbn; [done|]. rewrite Hx. cbn. by rewrite IH.
Qed.

(** A traversal whose every step succeeds succeeds. *)
Lemma mapM_total {E A B} (f : A -> outcome E B) (l : list A) :
  Forall (fun x => exists y, f x = Ok y) l -> exists k, mapM f l = Ok k.
Proof.
  induction 1 as [|x l [y Hy] _ [k Hk]]; [by exists []|]. exists (y :: k).
  apply mapM_Ok. constructor; [done|by apply mapM_Ok].
Qed.

Lemma mapM_known {E A B} (g : A -> outcome E B) (h : A -> B) l : (forall x, x ∈ l -> g x = Ok (h x)) -> mapM g l = Ok (map h l).
Proof.
  induction l as [|x l IH]; intros Hl; [done|]. cbn. rewrite (Hl x) by by left. cbn.
  rewrite IH by (intros y Hy; apply Hl; by right). done.
Qed.

(** [lia] on goals with [/] and [mod] by constants. *)
Ltac dlia := Z.to_euclidean_division_equations; lia.

(** Case analysis on the comparisons of a cascade, arithmetic deciding the
    impossible ones. *)
Ltac ltb_cases :=
  repeat match goal with
  | |- context [?a <? ?b] => destruct (Z.ltb_spec a b); try lia
  end.

(** ** Bytes *)

Abbreviation bytes := (list Z) (only parsing).

Definition is_byte (b : Z) : Prop := 0 <= b < 256.
Definition is_nib (b : Z) : Prop := 0 <= b < 16.
Abbreviation Bytes := (Forall is_byte).
Abbreviation Nibs := (Forall is_nib).

#[export] Instance is_byte_dec b : Decision (is_byte b).
Proof. unfold is_byte. apply _. Defined.
#[export] Instance is_nib_dec b : Decision (is_nib b).
Proof. unfold is_nib. apply _. Defined.

(** Wrap-around of the machine integers. *)
Definition u8 (z : Z) : Z := z mod 2 ^ 8.
Definition u64 (z : Z) : Z := z mod 2 ^ 64.
Definition u64_max : Z := 2 ^ 64 - 1.
Definition u128_max : Z := 2 ^ 128 - 1.
Definition is_u64 (z : Z) : Prop := 0 <= z <= u64_max.
Definition is_u128 (z : Z) : Prop := 0 <= z <= u128_max.

(** Saturating arithmetic of the machine integers. *)
Definition sat_add64 (a b : Z) : Z := Z.min (a + b) u64_max.
Definition sat_sub (a b : Z) : Z := Z.max (a - b) 0.
Definition sat_mul64 (a b : Z) : Z := Z.min (a * b) u64_max.
Definition sat_mul128 (a b : Z) : Z := Z.min (a * b) u128_max.

(** ** Inclusive ranges [a..=b] *)
Definition range_incl (a b : Z) : list Z := seqZ a (b - a + 1).

Lemma elem_of_range_incl a b x : x ∈ range_incl a b <-> a <= x <= b.
Proof. unfold range_incl. rewrite elem_of_seqZ. lia. Qed.

Lemma NoDup_range_incl a b : NoDup (range_incl a b).
Proof. apply NoDup_seqZ. Qed.

Lemma length_range_incl a b : a <= b -> Z.of_nat (length (range_incl a b)) = b - a + 1.
Proof. intros. unfold range_incl. rewrite length_seqZ. lia. Qed.

(** ** Ordered maps: [BTreeMap] as [gmap Z], iterated in key order *)
Definition sorted_keys {V} (m : gmap Z V) : list Z :=
  merge_sort Z.le (map_to_list m).*1.

Definition btree_values {V} (m : gmap Z V) : list V :=
  omap (fun k => m !! k) (sorted_keys m).

Lemma elem_of_sorted_keys {V} (m : gmap Z V) k : k ∈ sorted_keys m <-> is_Some (m !! k).
Proof.
  unfold sorted_keys. rewrite merge_sort_Permutation, list_elem_of_fmap.
  split.
  - intros ([k' v] & -> & H%elem_of_map_to_list). by exists v.
  - intros [v H]. exists (k, v). by rewrite elem_of_map_to_list.
Qed.

Lemma sorted_keys_sorted {V} (m : gmap Z V) : StronglySorted Z.le (sorted_keys m).
Proof. apply StronglySorted_merge_sort; [intros ???; lia | intros ??; lia]. Qed.

Lemma NoDup_sorted_keys {V} (m : gmap Z V) : NoDup (sorted_keys m).
Proof. unfold sorted_keys. rewrite merge_sort_Permutation. apply NoDup_fst_map_to_list. Qed.

Lemma elem_of_btree_values {V} (m : gmap Z V) v :
  v ∈ btree_values m <-> exists k, m !! k = Some v.
Proof.
  unfold btree_values. rewrite list_elem_of_omap. split; [naive_solver|].
  intros [k Hk]. exists k. split; [|done]. apply elem_of_sorted_keys. eauto.
Qed.

(** ** Automation shared by the components *)
Create HintDb stf.
Create Rewrite HintDb stf.
#[export] Hint Resolve NoDup_range_incl NoDup_sorted_keys sorted_keys_sorted : stf.
#[export] Hint Rewrite @elem_of_range_incl @elem_of_sorted_keys @elem_of_btree_values : stf.
