(* ===== verification/BytesCodec.v ===== *)
(** * Big-endian integers and fixed-size slices of byte strings

    The conversions every wire format of the program uses: [to_be_bytes] at a
    fixed width, its inverse, the minimal big-endian form of RLP, and cutting a
    byte string at fixed offsets. *)
From S2P Require Import Prelude.

(** The low [k] bytes of [n], most significant first ([n.to_be_bytes()]). *)
Fixpoint be_encode (k : nat) (n : Z) : list Z :=
  match k with
  | O => []
  | S k' => n / 2 ^ (8 * Z.of_nat k') mod 256 :: be_encode k' n
  end.

(** [from_be_bytes]. *)
Definition be_decode (bs : list Z) : Z := foldl (fun acc b => acc * 256 + b) 0 bs.

(** The number of bytes of the minimal form, and that form. *)
Definition be_width (n : Z) : nat := if n =? 0 then 0%nat else Z.to_nat (Z.log2 n / 8 + 1).
Definition be_minimal (n : Z) : list Z := be_encode (be_width n) n.

(** [&bytes[from..to]]: a panic when out of range. *)
Definition slice {E} (from to : nat) (bs : list Z) : outcome E (list Z) :=
  if decide (from <= to /\ to <= length bs)%nat then Ok (take (to - from) (drop from bs)) else Panic.

Lemma length_be_encode k n : length (be_encode k n) = k.
Proof. induction k as [|k IH]; cbn; congruence. Qed.

Lemma be_encode_bytes k n : Bytes (be_encode k n).
Proof.
  induction k as [|k IH]; cbn [be_encode]; constructor; [|done].
  unfold is_byte. apply Z.mod_pos_bound. lia.
Qed.

Lemma be_decode_app_aux acc l :
  foldl (fun a b => a * 256 + b) acc l = acc * 2 ^ (8 * Z.of_nat (length l)) + be_decode l.
Proof.
  unfold be_decode. revert acc. induction l as [|b l IH]; intros acc; [cbn; lia|].
  cbn [foldl length]. rewrite IH, (IH (0 * 256 + b)).
  replace (8 * Z.of_nat (S (length l))) with (8 + 8 * Z.of_nat (length l)) by lia.
  rewrite Z.pow_add_r by lia. lia.
Qed.

Lemma be_decode_cons b l : be_decode (b :: l) = b * 2 ^ (8 * Z.of_nat (length l)) + be_decode l.
Proof. unfold be_decode at 1. cbn [foldl]. apply (be_decode_app_aux (0 * 256 + b)). Qed.

Lemma be_decode_bound l : Bytes l -> 0 <= be_decode l < 2 ^ (8 * Z.of_nat (length l)).
Proof.
  induction 1 as [|b l Hb _ IH]; [cbn; lia|]. rewrite be_decode_cons. cbn [length].
  replace (8 * Z.of_nat (S (length l))) with (8 + 8 * Z.of_nat (length l)) by lia.
  rewrite Z.pow_add_r by lia. unfold is_byte in Hb. nia.
Qed.

Lemma be_decode_encode k n :
  0 <= n -> be_decode (be_encode k n) = n mod 2 ^ (8 * Z.of_nat k).
Proof.
  intros Hn. induction k as [|k IH]; [cbn; by rewrite Z.mod_1_r|].
  cbn [be_encode]. rewrite be_decode_cons, length_be_encode, IH.
  replace (8 * Z.of_nat (S k)) with (8 * Z.of_nat k + 8) by lia.
  rewrite Z.pow_add_r, (Z.rem_mul_r n (2 ^ (8 * Z.of_nat k)) (2 ^ 8)) by lia.
  change (2 ^ 8) with 256. ring.
Qed.

Lemma be_round_trip k n :
  0 <= n < 2 ^ (8 * Z.of_nat k) -> be_decode (be_encode k n) = n.
Proof. intros H. rewrite be_decode_encode by lia. apply Z.mod_small. lia. Qed.

Lemma be_encode_inj k n m :
  0 <= n < 2 ^ (8 * Z.of_nat k) -> 0 <= m < 2 ^ (8 * Z.of_nat k) ->
  be_encode k n = be_encode k m -> n = m.
Proof. intros Hn Hm E. rewrite <- (be_round_trip k n), <- (be_round_trip k m) by done. by rewrite E. Qed.

Lemma be_decode_inj l : forall k, Bytes l -> Bytes k -> length l = length k -> be_decode l = be_decode k -> l = k.
Proof.
  induction l as [|b l IH]; intros [|c k] Hl Hk Hn E; [done..|]. rewrite !be_decode_cons in E. injection Hn as Hn.
  inversion_clear Hl as [|? ? Hb Hl']. inversion_clear Hk as [|? ? Hc Hk'].
  assert (B1 := be_decode_bound l Hl'). assert (B2 := be_decode_bound k Hk'). rewrite Hn in *.
  assert (b = c) as -> by nia. f_equal. apply IH; [done..|lia].
Qed.

Lemma be_encode_decode l : Bytes l -> be_encode (length l) (be_decode l) = l.
Proof.
  intros Hl. apply be_decode_inj; [apply be_encode_bytes|done|apply length_be_encode|]. by apply be_round_trip, be_decode_bound.
Qed.

Lemma be_width_spec n : 0 <= n -> n < 2 ^ (8 * Z.of_nat (be_width n)).
Proof.
  intros Hn. unfold be_width. destruct (n =? 0) eqn:E; [apply Z.eqb_eq in E; cbn; lia|].
  apply Z.eqb_neq in E. destruct (Z.log2_spec n) as [_ H]; [lia|].
  pose proof (Z.log2_nonneg n). eapply Z.lt_le_trans; [exact H|]. apply Z.pow_le_mono_r; dlia.
Qed.

Lemma be_width_le n k : 0 <= n < 2 ^ (8 * Z.of_nat k) -> (be_width n <= k)%nat.
Proof.
  intros [Hn H]. unfold be_width. destruct (n =? 0) eqn:E; [lia|]. apply Z.eqb_neq in E.
  assert (Z.log2 n < 8 * Z.of_nat k) by (apply Z.log2_lt_pow2; lia). dlia.
Qed.

Lemma be_width_pos n : 0 < n -> (0 < be_width n)%nat.
Proof.
  intros Hn. unfold be_width. destruct (n =? 0) eqn:E; [lia|]. pose proof (Z.log2_nonneg n). dlia.
Qed.

Lemma be_minimal_round_trip n : 0 <= n -> be_decode (be_minimal n) = n.
Proof. intros Hn. apply be_round_trip. split; [done|]. by apply be_width_spec. Qed.

Lemma slice_app {E} (a b c : list Z) :
  @slice E (length a) (length a + length b) (a ++ b ++ c) = Ok b.
Proof.
  unfold slice. rewrite decide_True by (rewrite !length_app; lia).
  rewrite drop_app_length. replace (length a + length b - length a)%nat with (length b) by lia.
  by rewrite take_app_length.
Qed.

#[export] Hint Resolve be_encode_bytes : stf.
#[export] Hint Rewrite length_be_encode : stf.
