(* ===== verification/Rlp.v ===== *)
(** * The RLP libraries and the hash function, as interfaces

    The program encodes with [alloy_rlp], decodes trie nodes with the older
    [rlp] crate, and hashes with [alloy_primitives::keccak256]; none of them is
    part of this repository.  Each is a class of operations; a second class
    states what the callers rely on, in terms of the RLP format itself (Ethereum
    yellow paper, appendix B).  [RefRlp] is a direct implementation of that
    format which satisfies every law, so that no law is vacuous and the
    theorems can be applied to concrete inputs. *)
From S2P Require Import Prelude BytesCodec.

(** [keccak256], with the one property no proof may assume away: the width of
    its result. *)
Class Keccak := {
  keccak256 : list Z -> list Z;
  keccak256_length : forall b, length (keccak256 b) = 32%nat;
  keccak256_bytes : forall b, Bytes (keccak256 b) }.

Lemma elem_of_concat {A} (x : A) (l : list A) ls : x ∈ l -> l ∈ ls -> x ∈ concat ls.
Proof. intros Hx Hl. apply list_elem_of_In, in_concat. exists l. split; by apply list_elem_of_In. Qed.

Lemma sub_cons {A} (x : A) k l : k ⊆ l -> k ⊆ x :: l.
Proof. intros Hk y Hy. right. by apply Hk. Qed.
Lemma sub_app_l {A} (k l l' : list A) : k ⊆ l -> k ⊆ l ++ l'.
Proof. intros Hk y Hy. apply elem_of_app. left. by apply Hk. Qed.
Lemma sub_app_r {A} (k l l' : list A) : k ⊆ l' -> k ⊆ l ++ l'.
Proof. intros Hk y Hy. apply elem_of_app. right. by apply Hk. Qed.

(** No two of the byte strings [l] have the same hash: what is assumed of
    Keccak-256, always for the finite list of inputs a statement is about. *)
Definition coll_free `{Keccak} (l : list (list Z)) : Prop :=
  Forall (fun x => Forall (fun y => keccak256 x = keccak256 y -> x = y) l) l.
#[export] Instance coll_free_dec `{Keccak} l : Decision (coll_free l).
Proof. unfold coll_free. apply _. Defined.

Lemma coll_free_inj `{Keccak} l x y :
  coll_free l -> x ∈ l -> y ∈ l -> keccak256 x = keccak256 y -> x = y.
Proof. unfold coll_free. rewrite Forall_forall. intros Hf Hx. specialize (Hf x Hx). rewrite Forall_forall in Hf. auto. Qed.

Lemma coll_free_subset `{Keccak} k l : k ⊆ l -> coll_free l -> coll_free k.
Proof. intros Hs Hl. apply Forall_forall. intros x Hx. apply Forall_forall. intros y Hy. apply (coll_free_inj l); auto. Qed.

(** Operations of [alloy_rlp]: [Header{list,payload_length}.encode],
    [<[u8] as Encodable>::{encode,length}], [length_of_length] and
    [Header::decode] (header and the bytes that follow it). *)
Class AlloyRlp := {
  header_encode : bool -> nat -> list Z;
  string_encode : list Z -> list Z;
  string_length : list Z -> nat;
  length_of_length : nat -> nat;
  header_decode : list Z -> option (bool * nat * list Z) }.

(** A list item with the given (already encoded) elements. *)
Definition list_encode `{AlloyRlp} (es : list (list Z)) : list Z :=
  header_encode true (length (concat es)) ++ concat es.

(** Everything RLP can encode. *)
Inductive rlp_item `{AlloyRlp} : list Z -> Prop :=
  | item_string b : Bytes b -> Z.of_nat (length b) < 2 ^ 64 -> rlp_item (string_encode b)
  | item_list es :
      Forall rlp_item es -> Z.of_nat (length (concat es)) < 2 ^ 64 -> rlp_item (list_encode es).

Class AlloyRlpLaws `{AlloyRlp} : Prop := {
  header_encode_length l n : length (header_encode l n) = length_of_length n;
  length_of_length_short n : (n < 56)%nat -> length_of_length n = 1%nat;
  string_encode_length b : length (string_encode b) = string_length b;
  string_length_ge b : (length b <= string_length b)%nat;
  string_encode_empty : string_encode [] = [128];
  string_encode_32 b : length b = 32%nat -> string_encode b = (128 + 32) :: b;
  header_decode_list n rest :
    Z.of_nat n < 2 ^ 64 -> (n <= length rest)%nat ->
    header_decode (header_encode true n ++ rest) = Some (true, n, rest);
  header_decode_bounds b l n rest :
    header_decode b = Some (l, n, rest) ->
    exists pre, b = pre ++ rest /\ (l = true -> pre <> []) /\ (n <= length rest)%nat }.

(** [rlp::Prototype]. *)
Inductive Prototype : Type :=
  | PNull
  | PData (n : nat)
  | PList (n : nat).

(** Operations of the [rlp] crate on a raw item: [prototype], [at(i)] and
    [as_val::<Vec<u8>>]; [None] is a [DecoderError]. *)
Class RlpReader := {
  prototype : list Z -> option Prototype;
  rlp_at : list Z -> nat -> option (list Z);
  rlp_as_val : list Z -> option (list Z) }.

Class RlpReaderLaws `{AlloyRlp, RlpReader} : Prop := {
  prototype_string b : Bytes b -> Z.of_nat (length b) < 2 ^ 64 ->
    prototype (string_encode b) = Some (PData (length b));
  prototype_list es : Forall rlp_item es -> Z.of_nat (length (concat es)) < 2 ^ 64 ->
    prototype (list_encode es) = Some (PList (length es));
  rlp_at_list es i : Forall rlp_item es -> Z.of_nat (length (concat es)) < 2 ^ 64 ->
    (i < length es)%nat -> rlp_at (list_encode es) i = es !! i;
  rlp_at_shorter r i e : rlp_at r i = Some e -> (length e < length r)%nat;
  rlp_as_val_string b : Bytes b -> Z.of_nat (length b) < 2 ^ 64 ->
    rlp_as_val (string_encode b) = Some b }.

(** ** A reference implementation of the format *)
Module RefRlp.

Definition header (off : Z) (n : nat) : list Z :=
  if decide (n < 56)%nat then [off + Z.of_nat n]
  else (off + 55 + Z.of_nat (be_width (Z.of_nat n))) :: be_minimal (Z.of_nat n).

Definition encode_string (b : list Z) : list Z :=
  match b with
  | [x] => if x <? 128 then [x] else [129; x]
  | _ => header 128 (length b) ++ b
  end.

(** Kind, header length and payload length of the first item. *)
Definition parse (bs : list Z) : option (bool * nat * nat) :=
  match bs with
  | [] => None
  | b :: rest =>
      if b <? 128 then Some (false, 0%nat, 1%nat)
      else if b <? 184 then Some (false, 1%nat, Z.to_nat (b - 128))
      else if b <? 192 then
        let k := Z.to_nat (b - 183) in Some (false, S k, Z.to_nat (be_decode (take k rest)))
      else if b <? 248 then Some (true, 1%nat, Z.to_nat (b - 192))
      else
        let k := Z.to_nat (b - 247) in Some (true, S k, Z.to_nat (be_decode (take k rest)))
  end.

Fixpoint split (fuel : nat) (bs : list Z) : option (list (list Z)) :=
  match bs, fuel with
  | [], _ => Some []
  | _, O => None
  | _, S fuel' =>
      '(_, hl, pl) ← parse bs;
      if decide (hl + pl <= length bs)%nat
      then rest ← split fuel' (drop (hl + pl) bs); Some (take (hl + pl) bs :: rest)
      else None
  end.

Definition items (bs : list Z) : option (list (list Z)) :=
  '(l, hl, pl) ← parse bs; if l : bool then split pl (drop hl bs) else None.

#[local] Instance alloy : AlloyRlp := {|
  header_encode l n := header (if l then 192 else 128) n;
  string_encode := encode_string;
  string_length b := length (encode_string b);
  length_of_length n := length (header 0 n);
  header_decode bs :=
    '(l, hl, pl) ← parse bs;
    if decide (pl <= length (drop hl bs))%nat then Some (l, pl, drop hl bs) else None |}.

#[local] Instance reader : RlpReader := {|
  prototype bs :=
    match parse bs with
    | None => Some PNull
    | Some (false, hl, pl) => Some (PData pl)
    | Some (true, hl, pl) => (fun l => PList (length l)) <$> items bs
    end;
  rlp_at bs i := items bs ≫= fun l => l !! i;
  rlp_as_val bs :=
    '(l, hl, pl) ← parse bs;
    if l : bool then None else Some (take pl (drop hl bs)) |}.

Lemma parse_header (l : bool) n rest :
  Z.of_nat n < 2 ^ 64 ->
  parse (header (if l then 192 else 128) n ++ rest) =
  Some (l, length (header (if l then 192 else 128) n), n).
Proof.
  intros Hn. unfold header. destruct (decide (n < 56)%nat) as [H|H]; cbn [app parse].
  - destruct l; ltb_cases; do 2 f_equal; lia.
  - assert (Hw : (0 < be_width (Z.of_nat n) <= 8)%nat).
    { split; [apply be_width_pos; lia|apply be_width_le; change (8 * Z.of_nat 8) with 64; lia]. }
    assert (T : forall k, k = be_width (Z.of_nat n) ->
      Z.to_nat (be_decode (take k (be_minimal (Z.of_nat n) ++ rest))) = n).
    { intros k ->. unfold be_minimal. rewrite take_app_length' by (symmetry; apply length_be_encode).
      fold (be_minimal (Z.of_nat n)). rewrite be_minimal_round_trip by lia. lia. }
    assert (L : length (be_minimal (Z.of_nat n)) = be_width (Z.of_nat n)).
    { apply length_be_encode. }
    destruct l; ltb_cases; cbv zeta;
      rewrite T by lia; cbn [length]; rewrite L; do 2 f_equal; f_equal; lia.
Qed.

Lemma parse_list es rest :
  Z.of_nat (length (concat es)) < 2 ^ 64 ->
  parse (list_encode es ++ rest) =
  Some (true, length (header 192 (length (concat es))), length (concat es)).
Proof. intros H. unfold list_encode. rewrite <- app_assoc. by apply (parse_header true). Qed.

Lemma parse_string b rest :
  Bytes b -> Z.of_nat (length b) < 2 ^ 64 ->
  exists hl, parse (encode_string b ++ rest) = Some (false, hl, length b) /\
    drop hl (encode_string b) = b /\ length (encode_string b) = (hl + length b)%nat.
Proof.
  intros Hb Hn.
  assert (G : exists hl, parse ((header 128 (length b) ++ b) ++ rest) = Some (false, hl, length b) /\
    drop hl (header 128 (length b) ++ b) = b /\
    length (header 128 (length b) ++ b) = (hl + length b)%nat).
  { exists (length (header 128 (length b))). rewrite <- app_assoc.
    rewrite (parse_header false) by done. split_and!; [done| |apply length_app].
    apply drop_app_length. }
  destruct b as [|x [|y b]]; [exact G| |exact G]. cbn [encode_string].
  inversion_clear Hb as [|?? Hx _]. unfold is_byte in Hx.
  destruct (x <? 128) eqn:E; cbn [app parse].
  - rewrite E. by exists 0%nat.
  - exists 1%nat. done.
Qed.

Lemma parse_item e rest :
  rlp_item e -> exists l hl pl, parse (e ++ rest) = Some (l, hl, pl) /\ length e = (hl + pl)%nat.
Proof.
  intros [b Hb Hn|es _ Hn].
  - destruct (parse_string b rest Hb Hn) as (hl & Hp & _ & Hl). eauto.
  - rewrite parse_list by done. eexists _, _, _. split; [done|].
    unfold list_encode. apply length_app.
Qed.

Lemma length_header_pos off n : (0 < length (header off n))%nat.
Proof. unfold header. case_decide; cbn; lia. Qed.

Lemma item_nonempty e : rlp_item e -> (0 < length e)%nat.
Proof.
  intros [b _ _|es _ _].
  - change (0 < length (encode_string b))%nat. destruct b as [|x [|y b]]; cbn [encode_string].
    + rewrite length_app. pose proof (length_header_pos 128 (length (@nil Z))). lia.
    + case_match; cbn; lia.
    + rewrite length_app. pose proof (length_header_pos 128 (length (x :: y :: b))). lia.
  - unfold list_encode. rewrite length_app. cbn [header_encode alloy].
    pose proof (length_header_pos 192 (length (concat es))). lia.
Qed.

Lemma split_items es fuel :
  Forall rlp_item es -> (length (concat es) <= fuel)%nat -> split fuel (concat es) = Some es.
Proof.
  intros H. revert fuel. induction H as [|e es He _ IH]; intros fuel Hf; [by destruct fuel|].
  cbn [concat] in *. rewrite length_app in Hf. pose proof (item_nonempty e He) as Hpos.
  destruct (parse_item e (concat es) He) as (l & hl & pl & Hp & Hl).
  destruct fuel as [|fuel]; [lia|]. destruct (e ++ concat es) as [|x xs] eqn:E.
  { apply app_eq_nil in E as [-> _]. cbn in Hpos. lia. }
  cbn [split]. rewrite Hp. cbn [mbind option_bind]. rewrite <- E, <- Hl.
  rewrite decide_True by (rewrite length_app; lia).
  rewrite drop_app_length, take_app_length, IH by lia. done.
Qed.

Lemma items_list es :
  Forall rlp_item es -> Z.of_nat (length (concat es)) < 2 ^ 64 ->
  items (list_encode es) = Some es.
Proof.
  intros Hes Hn. unfold items. rewrite <- (app_nil_r (list_encode es)), parse_list by done.
  cbn [mbind option_bind]. rewrite app_nil_r. unfold list_encode. cbn [header_encode alloy].
  rewrite drop_app_length. by apply split_items.
Qed.

Lemma split_shorter fuel bs l i e :
  split fuel bs = Some l -> l !! i = Some e -> (length e <= length bs)%nat.
Proof.
  revert bs l i. induction fuel as [|fuel IH]; intros bs l i E He.
  { destruct bs; cbn in E; [|done]. by injection E as <-. }
  destruct bs as [|b bs]; [by injection E as <-|]. cbn [split] in E.
  destruct (parse (b :: bs)) as [[[k hl] pl]|]; [|done]. cbn [mbind option_bind] in E.
  case_decide; [|done]. destruct (split fuel _) as [rest|] eqn:Es; [|done]. injection E as <-.
  destruct i as [|i]; cbn [lookup list_lookup] in He.
  - injection He as <-. rewrite length_take. lia.
  - pose proof (IH _ _ _ Es He) as Hl. rewrite length_drop in Hl. lia.
Qed.

Lemma items_shorter bs l i e :
  items bs = Some l -> l !! i = Some e -> (length e < length bs)%nat.
Proof.
  intros E He. unfold items in E. destruct (parse bs) as [[[k hl] pl]|] eqn:Ep; [|done].
  cbn [mbind option_bind] in E. destruct k; [|done]. pose proof (split_shorter _ _ _ _ _ E He) as Hl.
  rewrite length_drop in Hl. destruct bs as [|b bs]; [done|]. cbn [parse] in Ep.
  repeat case_match; simplify_eq; cbn [length] in *; lia.
Qed.

Lemma alloy_laws : AlloyRlpLaws.
Proof.
  split.
  - intros l n. cbn. unfold header. by case_decide.
  - intros n Hn. cbn [length_of_length alloy]. unfold header. by rewrite decide_True.
  - done.
  - intros b. cbn [string_length alloy]. destruct b as [|x [|y b]]; cbn [encode_string].
    + cbn. lia.
    + case_match; cbn; lia.
    + rewrite length_app. lia.
  - done.
  - intros b Hb. change (encode_string b = 160 :: b). destruct b as [|x [|y b]]; [done..|].
    cbn [encode_string]. by rewrite Hb.
  - intros n rest Hn Hr. cbn [header_decode header_encode alloy].
    rewrite (parse_header true) by done. cbn [mbind option_bind].
    rewrite drop_app_length. by rewrite decide_True.
  - intros b l n rest E. cbn [header_decode alloy] in E. unfold mbind, option_bind in E.
    destruct (parse b) as [[[k hl] pl]|] eqn:Ep; [|done]. case_decide as Hl; [|done].
    injection E as -> -> <-. exists (take hl b). split_and!; [by rewrite take_drop| |done].
    intros ->. destruct b as [|x b]; [done|]. cbn [parse] in Ep. destruct hl as [|hl]; [|done].
    repeat case_match; simplify_eq.
Qed.

Lemma reader_laws : RlpReaderLaws.
Proof.
  split.
  - intros b Hb Hn. destruct (parse_string b [] Hb Hn) as (hl & Hp & _).
    rewrite app_nil_r in Hp. cbn [prototype reader string_encode alloy]. by rewrite Hp.
  - intros es Hes Hn. cbn [prototype reader]. rewrite items_list by done.
    rewrite <- (app_nil_r (list_encode es)), parse_list by done. done.
  - intros es i Hes Hn Hi. cbn [rlp_at reader]. by rewrite items_list.
  - intros r i e He. cbn [rlp_at reader] in He. destruct (items r) as [l|] eqn:El; [|done].
    by eapply items_shorter.
  - intros b Hb Hn. destruct (parse_string b [] Hb Hn) as (hl & Hp & Hd & _).
    rewrite app_nil_r in Hp. cbn [rlp_as_val reader string_encode alloy]. rewrite Hp.
    cbn [mbind option_bind]. by rewrite Hd, take_ge.
Qed.

(** A stand-in for Keccak-256 with the same interface (32 bytes): the
    big-endian form of the input's length and a checksum. *)
#[local] Instance toy_keccak : Keccak.
Proof.
  refine {| keccak256 b := be_encode 32 (be_decode (1 :: b) mod (2 ^ 256 - 189)) |}.
  - intros b. apply length_be_encode.
  - intros b. apply be_encode_bytes.
Defined.

End RefRlp.
