(* ===== verification/Nibbles.v ===== *)
(** * Nibble paths of the Merkle Patricia trie ([crates/mpt/src/mpt.rs])

    Keys are walked as lists of nibbles; leaves and extensions store them in
    hex-prefix form.  The file models the four conversions of the source
    ([to_nibs], [to_encoded_path], [prefix_nibs], [lcp]) and the slice
    operations they use, with the round trips between them. *)
From S2P Require Import Prelude.

(** [byte >> 4] and [byte & 0xf], one pair per byte. *)
Definition to_nibs (slice : list Z) : list Z :=
  slice ≫= fun byte => [Z.shiftr byte 4; Z.land byte 15].

(** [nibs.chunks_exact(2).map(|byte| (byte[0] << 4) + byte[1])] on [u8]. *)
Fixpoint pack_pairs (nibs : list Z) : list Z :=
  match nibs with
  | a :: b :: nibs' => u8 (u8 (Z.shiftl a 4) + b) :: pack_pairs nibs'
  | _ => []
  end.

(** Hex-prefix encoding: flag nibble, parity bit, then packed pairs. *)
Definition to_encoded_path (nibs : list Z) (is_leaf : bool) : list Z :=
  let prefix := (if is_leaf then 1 else 0) * 32 in
  if Nat.odd (length nibs) then
    match nibs with
    | n0 :: nibs' => u8 (prefix + (16 + n0)) :: pack_pairs nibs'
    | [] => [prefix]
    end
  else prefix :: pack_pairs nibs.

(** [prefix_nibs]; the [split_first().unwrap()] panics on an empty path. *)
Definition prefix_nibs (prefix : list Z) : option (list Z) :=
  match prefix with
  | [] => None
  | extension :: tail =>
      let is_odd := negb (Z.land extension 16 =? 0) in
      Some ((if is_odd then [Z.land extension 15] else []) ++ to_nibs tail)
  end.

(** Length of the common prefix. *)
Fixpoint lcp (a b : list Z) : nat :=
  match a, b with
  | x :: a', y :: b' => if x =? y then S (lcp a' b') else 0
  | _, _ => 0
  end.

(** [slice::strip_prefix]. *)
Fixpoint strip_prefix (p l : list Z) : option (list Z) :=
  match p, l with
  | [], _ => Some l
  | x :: p', y :: l' => if x =? y then strip_prefix p' l' else None
  | _ :: _, [] => None
  end.

(** ** Lemmas *)

Lemma nib_range n : is_nib n -> n ∈ seqZ 0 16.
Proof. unfold is_nib. rewrite elem_of_seqZ. lia. Qed.

(** Facts about one or two nibbles are decided by enumeration. *)
Lemma nib_forall (P : Z -> bool) :
  forallb P (seqZ 0 16) = true -> forall n, is_nib n -> P n = true.
Proof.
  intros H n Hn. rewrite forallb_forall in H. apply H, list_elem_of_In, nib_range, Hn.
Qed.

Lemma nib_forall2 (P : Z -> Z -> bool) :
  forallb (fun a => forallb (P a) (seqZ 0 16)) (seqZ 0 16) = true ->
  forall a b, is_nib a -> is_nib b -> P a b = true.
Proof.
  intros H a b Ha Hb.
  apply (nib_forall (P a)); [|done].
  apply (nib_forall (fun a => forallb (P a) (seqZ 0 16)) H a Ha).
Qed.

Lemma byte_forall (P : Z -> bool) :
  forallb P (seqZ 0 256) = true -> forall n, is_byte n -> P n = true.
Proof.
  intros H n Hn. rewrite forallb_forall in H. apply H, list_elem_of_In.
  unfold is_byte in Hn. rewrite elem_of_seqZ. lia.
Qed.

Lemma pack_byte a b :
  is_nib a -> is_nib b -> u8 (u8 (Z.shiftl a 4) + b) = 16 * a + b.
Proof.
  intros Ha Hb. apply Z.eqb_eq. revert a b Ha Hb. apply nib_forall2. vm_compute. reflexivity.
Qed.

Lemma unpack_byte a b :
  is_nib a -> is_nib b -> Z.shiftr (16 * a + b) 4 = a /\ Z.land (16 * a + b) 15 = b.
Proof.
  intros Ha Hb. rewrite <- !Z.eqb_eq, <- andb_true_iff.
  revert a b Ha Hb.
  apply (nib_forall2 (fun a b => (Z.shiftr (16*a+b) 4 =? a) && (Z.land (16*a+b) 15 =? b))).
  vm_compute. reflexivity.
Qed.

Lemma byte_nibs b :
  is_byte b ->
  is_nib (Z.shiftr b 4) /\ is_nib (Z.land b 15) /\ 16 * Z.shiftr b 4 + Z.land b 15 = b.
Proof.
  intros Hb. unfold is_nib.
  pose proof (byte_forall (fun b => (0 <=? Z.shiftr b 4) && (Z.shiftr b 4 <? 16)
    && (0 <=? Z.land b 15) && (Z.land b 15 <? 16)
    && (16 * Z.shiftr b 4 + Z.land b 15 =? b)) ltac:(vm_compute; reflexivity) b Hb) as H.
  cbn in H. rewrite !andb_true_iff, !Z.leb_le, !Z.ltb_lt, Z.eqb_eq in H. lia.
Qed.

Lemma to_nibs_cons b l : to_nibs (b :: l) = Z.shiftr b 4 :: Z.land b 15 :: to_nibs l.
Proof. reflexivity. Qed.

Lemma length_to_nibs l : length (to_nibs l) = (2 * length l)%nat.
Proof. induction l as [|b l IH]; [done|]. rewrite to_nibs_cons. cbn. lia. Qed.

Lemma to_nibs_nibs l : Bytes l -> Nibs (to_nibs l).
Proof.
  induction 1 as [|b l Hb _ IH]; [constructor|].
  rewrite to_nibs_cons. pose proof (byte_nibs b Hb) as (?&?&?). by rewrite !Forall_cons.
Qed.

Lemma to_nibs_inj l1 l2 : Bytes l1 -> Bytes l2 -> to_nibs l1 = to_nibs l2 -> l1 = l2.
Proof.
  intros H1; revert l2; induction H1 as [|b l Hb _ IH]; intros l2 H2 Heq.
  - destruct l2; [done|discriminate].
  - destruct H2 as [|b' l' Hb' H2]; [discriminate|].
    rewrite !to_nibs_cons in Heq. injection Heq as E1 E2 E3.
    pose proof (byte_nibs b Hb) as (_&_&?). pose proof (byte_nibs b' Hb') as (_&_&?).
    f_equal; [congruence|]. by apply IH.
Qed.

Lemma to_nibs_pack_pairs nibs :
  Nibs nibs -> Nat.odd (length nibs) = false -> to_nibs (pack_pairs nibs) = nibs.
Proof.
  induction nibs as [nibs IH] using (induction_ltof1 _ length); unfold ltof in IH.
  destruct nibs as [|a [|b nibs]]; intros Hn Hl; [done|discriminate|].
  inversion_clear Hn as [|?? Ha Hn']. inversion_clear Hn' as [|?? Hb Hn''].
  change (pack_pairs (a :: b :: nibs)) with (u8 (u8 (Z.shiftl a 4) + b) :: pack_pairs nibs).
  rewrite to_nibs_cons, pack_byte by done.
  destruct (unpack_byte a b Ha Hb) as [-> ->].
  rewrite IH; [done|cbn; lia|done|].
  rewrite <- Hl. cbn. by rewrite Nat.odd_succ, Nat.even_succ.
Qed.

Lemma odd_prefix_byte (leaf : bool) n0 :
  is_nib n0 ->
  let e := u8 ((if leaf then 1 else 0) * 32 + (16 + n0)) in
  negb (Z.land e 16 =? 0) = true /\ Z.land e 15 = n0 /\
  negb (Z.land e 32 =? 0) = leaf /\ is_byte e.
Proof.
  intros Hn. cbn zeta.
  pose proof (nib_forall (fun n0 =>
    let e := u8 ((if leaf then 1 else 0) * 32 + (16 + n0)) in
    negb (Z.land e 16 =? 0) && (Z.land e 15 =? n0) &&
    eqb (negb (Z.land e 32 =? 0)) leaf && (0 <=? e) && (e <? 256))
    ltac:(destruct leaf; vm_compute; reflexivity) n0 Hn) as H.
  cbv beta zeta in H.
  rewrite !andb_true_iff, Z.eqb_eq, eqb_true_iff, Z.leb_le, Z.ltb_lt in H.
  unfold is_byte. naive_solver lia.
Qed.

(** [prefix_nibs] inverts [to_encoded_path], for leaves and extensions. *)
Lemma prefix_nibs_to_encoded_path nibs leaf :
  Nibs nibs -> prefix_nibs (to_encoded_path nibs leaf) = Some nibs.
Proof.
  intros Hn. unfold to_encoded_path. destruct (Nat.odd (length nibs)) eqn:Hodd.
  - destruct nibs as [|n0 nibs]; [done|]. inversion_clear Hn as [|?? H0 Hn'].
    destruct (odd_prefix_byte leaf n0 H0) as (E1 & E2 & _). cbn [prefix_nibs].
    rewrite E1, E2, to_nibs_pack_pairs; [done|done|].
    cbn [length] in Hodd. rewrite Nat.odd_succ in Hodd. by rewrite <- Nat.negb_even, Hodd.
  - cbn [prefix_nibs]. rewrite to_nibs_pack_pairs by done. by destruct leaf.
Qed.

(** The leaf flag (bit [2 << 4] of the first byte) survives encoding. *)
Lemma encoded_path_flag nibs leaf :
  Nibs nibs ->
  exists b tl, to_encoded_path nibs leaf = b :: tl /\ negb (Z.land b (Z.shiftl 2 4) =? 0) = leaf.
Proof.
  intros Hn. change (Z.shiftl 2 4) with 32. unfold to_encoded_path.
  destruct (Nat.odd (length nibs)).
  - destruct nibs as [|n0 nibs]; [do 2 eexists; split; [done|by destruct leaf]|].
    inversion_clear Hn. destruct (odd_prefix_byte leaf n0) as (_&_&?&_); eauto.
  - do 2 eexists; split; [done|]. by destruct leaf.
Qed.

Lemma pack_pairs_bytes nibs : Bytes (pack_pairs nibs).
Proof.
  induction nibs as [nibs IH] using (induction_ltof1 _ length); unfold ltof in IH.
  destruct nibs as [|a [|b nibs]]; cbn; [constructor|constructor|].
  constructor; [|apply IH; cbn; lia].
  unfold is_byte, u8. apply Z.mod_pos_bound. lia.
Qed.

Lemma to_encoded_path_bytes nibs leaf : Bytes (to_encoded_path nibs leaf).
Proof.
  assert (is_byte ((if leaf then 1 else 0) * 32)) by (destruct leaf; unfold is_byte; lia).
  unfold to_encoded_path. destruct (Nat.odd _).
  - destruct nibs; constructor; auto using pack_pairs_bytes.
    unfold is_byte, u8. apply Z.mod_pos_bound. lia.
  - constructor; auto using pack_pairs_bytes.
Qed.

Lemma to_encoded_path_inj n1 n2 leaf :
  Nibs n1 -> Nibs n2 -> to_encoded_path n1 leaf = to_encoded_path n2 leaf -> n1 = n2.
Proof.
  intros H1 H2 E. apply (f_equal prefix_nibs) in E.
  rewrite !prefix_nibs_to_encoded_path in E by done. congruence.
Qed.

Lemma strip_prefix_Some p l t : strip_prefix p l = Some t <-> l = p ++ t.
Proof.
  revert l. induction p as [|x p IH]; intros [|y l]; cbn; try naive_solver.
  destruct (Z.eqb_spec x y) as [->|Hne].
  - rewrite IH. naive_solver.
  - naive_solver.
Qed.

Lemma strip_prefix_app p t : strip_prefix p (p ++ t) = Some t.
Proof. by apply strip_prefix_Some. Qed.

Lemma strip_prefix_None p l : strip_prefix p l = None <-> forall t, l <> p ++ t.
Proof.
  rewrite eq_None_not_Some. split.
  - intros H t ->. apply H. rewrite strip_prefix_app. eauto.
  - intros H [t Ht]. by apply strip_prefix_Some, H in Ht.
Qed.

Lemma strip_prefix_app_l p q l :
  strip_prefix (p ++ q) l = strip_prefix p l ≫= strip_prefix q.
Proof.
  revert l. induction p as [|x p IH]; intros [|y l]; cbn; try done.
  destruct (x =? y); [apply IH|done].
Qed.

(** [lcp] splits two paths at their first difference. *)
Lemma lcp_spec a b :
  exists c ra rb, a = c ++ ra /\ b = c ++ rb /\ lcp a b = length c /\
    match ra, rb with x :: _, y :: _ => x <> y | _, _ => True end.
Proof.
  revert b. induction a as [|x a IH]; intros [|y b]; cbn.
  - by exists [], [], [].
  - by exists [], [], (y :: b).
  - by exists [], (x :: a), [].
  - destruct (Z.eqb_spec x y) as [->|Hne].
    + destruct (IH b) as (c & ra & rb & -> & -> & -> & ?).
      by exists (y :: c), ra, rb.
    + by exists [], (x :: a), (y :: b).
Qed.

#[export] Hint Resolve to_nibs_nibs to_encoded_path_bytes : stf.
#[export] Hint Rewrite @length_to_nibs strip_prefix_app : stf.
