(* ===== verification/Mpt.v ===== *)
(** * The sparse Merkle Patricia trie ([crates/mpt/src/mpt.rs])

    Data model and the structural operations of [MptNode]: lookup
    ([get_internal]), insertion ([insert_internal]), deletion
    ([delete_internal]), with the reference cache every node carries.

    A node is the source's struct: its [data] and its [cached_reference]
    (the content of the [Mutex]).  Every operation that rewrites [self.data]
    ends in [invalidate_ref_cache], i.e. builds [mkNode data' None]; an
    operation that returns [Ok(false)] leaves the node, cache included, as it
    was.  All errors are raised before the first mutation, on every level of
    the recursion, so an [Err] result carries no state.  [children[i]] on the
    16-element array is a lookup whose out-of-range case panics. *)
From S2P Require Import Prelude Nibbles.

(** [enum Error]; the texts of the two RLP error payloads are not modelled. *)
Inductive Error : Type :=
  | NodeNotResolved (digest : list Z)
  | ValueInBranch
  | Rlp
  | LegacyRlp.

#[export] Instance Error_eq_dec : EqDecision Error.
Proof. solve_decision. Defined.

Inductive MptNodeReference : Type :=
  | RefBytes (b : list Z)
  | RefDigest (d : list Z).

#[export] Instance MptNodeReference_eq_dec : EqDecision MptNodeReference.
Proof. solve_decision. Defined.

Inductive MptNode : Type :=
  | mkNode (data : MptNodeData) (cached_reference : option MptNodeReference)
with MptNodeData : Type :=
  | Null
  | Branch (children : list (option MptNode))
  | Leaf (prefix value : list Z)
  | Extension (prefix : list Z) (child : MptNode)
  | Digest (digest : list Z).

Definition as_data (n : MptNode) : MptNodeData := let 'mkNode d _ := n in d.
Definition cached_reference (n : MptNode) : option MptNodeReference := let 'mkNode _ c := n in c.

(** [impl From<MptNodeData> for MptNode]. *)
Definition from_data (d : MptNodeData) : MptNode := mkNode d None.

(** [MptNode::default()]. *)
Definition default_node : MptNode := from_data Null.

Definition clear (n : MptNode) : MptNode := from_data Null.

Definition is_empty (n : MptNode) : bool :=
  match as_data n with Null => true | _ => false end.

Definition is_digest (n : MptNode) : bool :=
  match as_data n with Digest _ => true | _ => false end.

(** [matches!(data, Branch(_) | Digest(_))]: what an extension may point to. *)
Definition is_branch_or_digest (n : MptNode) : bool :=
  match as_data n with Branch _ | Digest _ => true | _ => false end.

(** [EMPTY_ROOT]: the root hash of an empty trie, and [B256::ZERO]. *)
Definition EMPTY_ROOT : list Z :=
  [86; 232; 31; 23; 27; 204; 85; 166; 255; 131; 69; 230; 146; 192; 248; 110;
   91; 72; 224; 27; 153; 108; 173; 192; 1; 98; 47; 181; 227; 99; 180; 33].

Definition B256_ZERO : list Z := replicate 32 0.

(** [node_from_digest]. *)
Definition node_from_digest (digest : list Z) : MptNode :=
  if decide (digest = EMPTY_ROOT \/ digest = B256_ZERO) then default_node
  else from_data (Digest digest).

(** [match &children[i] { Some(node) => f(node), None => none }], the
    recursive call happening on the child in place. *)
Section OnChild.
Context {A : Type} (f : MptNode -> A) (none oob : A).
Fixpoint on_child (children : list (option MptNode)) (i : nat) {struct children} : A :=
  match children with
  | [] => oob
  | o :: children' =>
      match i with
      | O => match o with Some node => f node | None => none end
      | S i' => on_child children' i'
      end
  end.
End OnChild.

(** [get_internal]. *)
Fixpoint get_internal (n : MptNode) (key_nibs : list Z) {struct n}
  : outcome Error (option (list Z)) :=
  match n with
  | mkNode Null _ => Ok None
  | mkNode (Branch nodes) _ =>
      match key_nibs with
      | i :: tail =>
          on_child (fun node => get_internal node tail) (Ok None) Panic nodes (Z.to_nat i)
      | [] => Ok None
      end
  | mkNode (Leaf prefix value) _ =>
      p ← unwrap (prefix_nibs prefix);
      if decide (p = key_nibs) then Ok (Some value) else Ok None
  | mkNode (Extension prefix node) _ =>
      p ← unwrap (prefix_nibs prefix);
      match strip_prefix p key_nibs with
      | Some tail => get_internal node tail
      | None => Ok None
      end
  | mkNode (Digest digest) _ => Err (NodeNotResolved digest)
  end.

Definition get (n : MptNode) (key : list Z) : outcome Error (option (list Z)) :=
  get_internal n (to_nibs key).

(** [children[i] = child] on the 16-element array. *)
Definition set_child (children : list (option MptNode)) (i : Z) (child : MptNode)
  : outcome Error (list (option MptNode)) :=
  if decide (0 <= i < Z.of_nat (length children))
  then Ok (<[Z.to_nat i := Some child]> children) else Panic.

Definition no_children : list (option MptNode) := replicate 16 None.

(** The branch that replaces a leaf or an extension at the first nibble where
    the stored path and the key differ ([common_len]); [old] is what the
    stored node becomes below the branch. *)
Definition split_node (self_nibs key_nibs : list Z) (common_len : nat)
    (old : MptNode) (value : list Z) : outcome Error MptNodeData :=
  let split_point := S common_len in
  i ← unwrap (self_nibs !! common_len);
  children ← set_child no_children i old;
  j ← unwrap (key_nibs !! common_len);
  children ← set_child children j
    (from_data (Leaf (to_encoded_path (drop split_point key_nibs) true) value));
  let branch := Branch children in
  if decide (0 < common_len)%nat
  then Ok (Extension (to_encoded_path (take common_len self_nibs) false) (from_data branch))
  else Ok branch.

(** [insert_internal]: the flag tells whether the trie changed. *)
Fixpoint insert_internal (n : MptNode) (key_nibs value : list Z) {struct n}
  : outcome Error (bool * MptNode) :=
  match n with
  | mkNode Null _ =>
      Ok (true, mkNode (Leaf (to_encoded_path key_nibs true) value) None)
  | mkNode (Branch children) _ =>
      match key_nibs with
      | i :: tail =>
          let k := Z.to_nat i in
          on_child
            (fun node =>
               '(changed, node') ← insert_internal node tail value;
               if changed : bool
               then Ok (true, mkNode (Branch (<[k := Some node']> children)) None)
               else Ok (false, n))
            (let node' := from_data (Leaf (to_encoded_path tail true) value) in
             Ok (true, mkNode (Branch (<[k := Some node']> children)) None))
            Panic children k
      | [] => Err ValueInBranch
      end
  | mkNode (Leaf prefix old_value) _ =>
      self_nibs ← unwrap (prefix_nibs prefix);
      let common_len := lcp self_nibs key_nibs in
      if decide (common_len = length self_nibs /\ common_len = length key_nibs) then
        if decide (old_value = value) then Ok (false, n)
        else Ok (true, mkNode (Leaf prefix value) None)
      else if decide (common_len = length self_nibs \/ common_len = length key_nibs) then
        Err ValueInBranch
      else
        let old := from_data
          (Leaf (to_encoded_path (drop (S common_len) self_nibs) true) old_value) in
        data ← split_node self_nibs key_nibs common_len old value;
        Ok (true, mkNode data None)
  | mkNode (Extension prefix existing_child) _ =>
      self_nibs ← unwrap (prefix_nibs prefix);
      let common_len := lcp self_nibs key_nibs in
      if decide (common_len = length self_nibs) then
        '(changed, child') ← insert_internal existing_child (drop common_len key_nibs) value;
        if changed : bool then Ok (true, mkNode (Extension prefix child') None)
        else Ok (false, n)
      else if decide (common_len = length key_nibs) then Err ValueInBranch
      else
        let old :=
          if decide (S common_len < length self_nibs)%nat
          then from_data
                 (Extension (to_encoded_path (drop (S common_len) self_nibs) false) existing_child)
          else existing_child in
        data ← split_node self_nibs key_nibs common_len old value;
        Ok (true, mkNode data None)
  | mkNode (Digest digest) _ => Err (NodeNotResolved digest)
  end.

(** [insert]: the empty value is refused by a panic. *)
Definition insert (n : MptNode) (key value : list Z) : outcome Error (bool * MptNode) :=
  if decide (value = []) then Panic else insert_internal n (to_nibs key) value.

(** [children.iter_mut().enumerate().filter(|(_, n)| n.is_some())]. *)
Definition remaining (children : list (option MptNode)) : list (nat * MptNode) :=
  omap id (imap (fun i o => pair i <$> o) children).

(** What a branch becomes after a child was removed: with exactly one child
    left, that orphan absorbs the nibble that led to it. *)
Definition collapse_branch (children : list (option MptNode)) : outcome Error MptNodeData :=
  match remaining children with
  | [] => Panic
  | [(index, orphan)] =>
      match as_data orphan with
      | Leaf prefix orphan_value =>
          p ← unwrap (prefix_nibs prefix);
          Ok (Leaf (to_encoded_path (Z.of_nat index :: p) true) orphan_value)
      | Extension prefix orphan_child =>
          p ← unwrap (prefix_nibs prefix);
          Ok (Extension (to_encoded_path (Z.of_nat index :: p) false) orphan_child)
      | Branch _ | Digest _ =>
          Ok (Extension (to_encoded_path [Z.of_nat index] false) orphan)
      | Null => Panic
      end
  | _ => Ok (Branch children)
  end.

(** What an extension becomes after its child was modified. *)
Definition merge_extension (prefix self_nibs : list Z) (child : MptNode)
  : outcome Error MptNodeData :=
  match as_data child with
  | Null => Ok Null
  | Leaf prefix' value =>
      p ← unwrap (prefix_nibs prefix');
      Ok (Leaf (to_encoded_path (self_nibs ++ p) true) value)
  | Extension prefix' node =>
      p ← unwrap (prefix_nibs prefix');
      Ok (Extension (to_encoded_path (self_nibs ++ p) false) node)
  | Branch _ | Digest _ => Ok (Extension prefix child)
  end.

(** [delete_internal]: the flag tells whether the key was present. *)
Fixpoint delete_internal (n : MptNode) (key_nibs : list Z) {struct n}
  : outcome Error (bool * MptNode) :=
  match n with
  | mkNode Null _ => Ok (false, n)
  | mkNode (Branch children) _ =>
      match key_nibs with
      | i :: tail =>
          let k := Z.to_nat i in
          on_child
            (fun node =>
               '(removed, node') ← delete_internal node tail;
               if removed : bool then
                 data ← collapse_branch
                   (<[k := if is_empty node' then None else Some node']> children);
                 Ok (true, mkNode data None)
               else Ok (false, n))
            (Ok (false, n)) Panic children k
      | [] => Err ValueInBranch
      end
  | mkNode (Leaf prefix _) _ =>
      p ← unwrap (prefix_nibs prefix);
      if decide (p = key_nibs) then Ok (true, mkNode Null None) else Ok (false, n)
  | mkNode (Extension prefix child) _ =>
      self_nibs ← unwrap (prefix_nibs prefix);
      match strip_prefix self_nibs key_nibs with
      | Some tail =>
          '(removed, child') ← delete_internal child tail;
          if removed : bool then
            data ← merge_extension prefix self_nibs child';
            Ok (true, mkNode data None)
          else Ok (false, n)
      | None => Ok (false, n)
      end
  | mkNode (Digest digest) _ => Err (NodeNotResolved digest)
  end.

Definition delete (n : MptNode) (key : list Z) : outcome Error (bool * MptNode) :=
  delete_internal n (to_nibs key).

(** [nibs]. *)
Definition nibs (n : MptNode) : outcome Error (list Z) :=
  match as_data n with
  | Null | Branch _ | Digest _ => Ok []
  | Leaf prefix _ | Extension prefix _ => unwrap (prefix_nibs prefix)
  end.

(** [size]: the number of traversable nodes. *)
Fixpoint size (n : MptNode) : nat :=
  match n with
  | mkNode Null _ => 0
  | mkNode (Branch children) _ =>
      S (list_sum ((fun o => match o with Some c => size c | None => 0%nat end) <$> children))
  | mkNode (Leaf _ _) _ => 1
  | mkNode (Extension _ child) _ => S (size child)
  | mkNode (Digest _) _ => 0
  end.

(** [shorten_node_path]: every suffix of a leaf's or extension's path. *)
Definition shorten_node_path (n : MptNode) : outcome Error (list MptNode) :=
  nibs ← nibs n;
  match as_data n with
  | Null | Branch _ | Digest _ => Ok []
  | Leaf _ value =>
      Ok ((fun i => from_data (Leaf (to_encoded_path (drop i nibs) true) value))
            <$> seq 0 (S (length nibs)))
  | Extension _ child =>
      Ok ((fun i => from_data (Extension (to_encoded_path (drop i nibs) false) child))
            <$> seq 0 (S (length nibs)))
  end.
