(* ===== verification/MptInv.v ===== *)
(** * Well-formed tries: the invariant of [MptNode] and its lookup laws

    [wf] is the shape [insert] and [delete] maintain and the wire format
    assumes: hex-prefix paths with the right flag, sixteen-way branches with
    at least two live children, extensions that point to a branch or a digest.
    [depth_ok L] says every key below a node has exactly [L] nibbles (64 in the
    state and storage tries).  [resolved] tries have no truncated part. *)
From S2P Require Import Prelude Nibbles Mpt.

Definition is_null (n : MptNode) : Prop := as_data n = Null.

Definition child_at (cs : list (option MptNode)) (i : nat) (c : MptNode) : Prop :=
  cs !! i = Some (Some c).

Definition two_children (cs : list (option MptNode)) : Prop :=
  exists i j ci cj, i <> j /\ child_at cs i ci /\ child_at cs j cj.

Inductive wf : MptNode -> Prop :=
  | wf_Null cache : wf (mkNode Null cache)
  | wf_Leaf p v cache :
      Nibs p -> wf (mkNode (Leaf (to_encoded_path p true) v) cache)
  | wf_Extension p child cache :
      Nibs p -> p <> [] -> wf child -> is_branch_or_digest child = true ->
      wf (mkNode (Extension (to_encoded_path p false) child) cache)
  | wf_Branch cs cache :
      length cs = 16%nat -> two_children cs ->
      (forall i c, child_at cs i c -> wf c) ->
      (forall i c, child_at cs i c -> ~ is_null c) ->
      wf (mkNode (Branch cs) cache)
  | wf_Digest d cache : wf (mkNode (Digest d) cache).

Inductive depth_ok : nat -> MptNode -> Prop :=
  | depth_Null L cache : depth_ok L (mkNode Null cache)
  | depth_Leaf p v cache :
      Nibs p -> depth_ok (length p) (mkNode (Leaf (to_encoded_path p true) v) cache)
  | depth_Extension p L child cache :
      Nibs p -> depth_ok L child ->
      depth_ok (length p + L) (mkNode (Extension (to_encoded_path p false) child) cache)
  | depth_Branch L cs cache :
      (forall i c, child_at cs i c -> depth_ok L c) ->
      depth_ok (S L) (mkNode (Branch cs) cache)
  | depth_Digest L d cache : depth_ok L (mkNode (Digest d) cache).

Inductive resolved : MptNode -> Prop :=
  | resolved_Null cache : resolved (mkNode Null cache)
  | resolved_Leaf p v cache : resolved (mkNode (Leaf p v) cache)
  | resolved_Extension p child cache :
      resolved child -> resolved (mkNode (Extension p child) cache)
  | resolved_Branch cs cache :
      (forall i c, child_at cs i c -> resolved c) -> resolved (mkNode (Branch cs) cache).

(** The node without its caches: what [PartialEq for MptNode] compares. *)
Fixpoint erase (n : MptNode) : MptNode :=
  match n with
  | mkNode (Branch cs) _ => from_data (Branch (option_map erase <$> cs))
  | mkNode (Extension p c) _ => from_data (Extension p (erase c))
  | mkNode d _ => from_data d
  end.

(** [PartialEq for MptNode]: equality up to the caches. *)
#[export] Instance MptNode_equiv : Equiv MptNode := fun a b => erase a = erase b.

#[export] Instance MptNode_equivalence : Equivalence (≡@{MptNode}).
Proof. split; repeat intro; unfold equiv, MptNode_equiv in *; congruence. Qed.

(** ** Children arrays *)

Lemma on_child_lookup {A} (f : MptNode -> A) none oob cs i :
  on_child f none oob cs i =
  match cs !! i with Some (Some c) => f c | Some None => none | None => oob end.
Proof. revert i; induction cs as [|o cs IH]; intros [|i]; cbn; auto; by destruct o. Qed.

Lemma elem_of_remaining cs i c : (i, c) ∈ remaining cs <-> child_at cs i c.
Proof.
  unfold remaining, child_at. rewrite list_elem_of_omap. split.
  - intros (o & (j & o' & -> & Hj)%elem_of_lookup_imap & Ho).
    destruct o'; cbn in Ho; congruence.
  - intros H. exists (Some (i, c)). split; [|done].
    apply elem_of_lookup_imap. exists i, (Some c). done.
Qed.

Lemma NoDup_remaining_keys cs : NoDup (remaining cs).*1.
Proof.
  unfold remaining.
  assert (H : forall k, NoDup (omap id (imap (fun i o => pair (k + i)%nat <$> o) cs)).*1 /\
    forall i c, (i, c) ∈ omap id (imap (fun i o => pair (k + i)%nat <$> o) cs) -> (k <= i)%nat).
  { induction cs as [|o cs IH]; intros k; [split; [constructor|set_solver]|].
    cbn [imap]. destruct (IH (S k)) as [IH1 IH2].
    rewrite (imap_ext _ (fun i o => pair (S k + i)%nat <$> o)).
    2:{ intros ???; cbn. by rewrite Nat.add_succ_r. }
    destruct o as [c|]; cbn.
    - rewrite Nat.add_0_r. split.
      + constructor; [|done]. intros ([i c'] & -> & Hin)%list_elem_of_fmap.
        apply IH2 in Hin. cbn in Hin. lia.
      + intros i c' [[= -> ->]|Hin%IH2]%elem_of_cons; lia.
    - split; [done|]. intros i c' Hin%IH2. lia. }
  apply (H 0%nat).
Qed.

Lemma remaining_nil cs : remaining cs = [] <-> forall i c, ~ child_at cs i c.
Proof.
  split.
  - intros E i c H. apply elem_of_remaining in H. rewrite E in H. set_solver.
  - intros H. destruct (remaining cs) as [|[i c] l] eqn:E; [done|].
    exfalso. apply (H i c), elem_of_remaining. rewrite E. set_solver.
Qed.

Lemma remaining_one cs i c :
  remaining cs = [(i, c)] -> child_at cs i c /\ forall j d, child_at cs j d -> j = i /\ d = c.
Proof.
  intros E. split.
  - apply elem_of_remaining. rewrite E. set_solver.
  - intros j d H%elem_of_remaining. rewrite E in H.
    apply list_elem_of_singleton in H. naive_solver.
Qed.

Lemma remaining_two cs a b l : remaining cs = a :: b :: l -> two_children cs.
Proof.
  intros E. destruct a as [i ci], b as [j cj]. exists i, j, ci, cj.
  pose proof (NoDup_remaining_keys cs) as Hnd. rewrite E in Hnd. cbn in Hnd.
  apply NoDup_cons in Hnd as [Hnin _].
  split; [set_solver|]. rewrite <- !elem_of_remaining, E. set_solver.
Qed.

Lemma child_at_insert cs k o i c :
  (k < length cs)%nat ->
  child_at (<[k := o]> cs) i c <-> (i = k /\ o = Some c) \/ (i <> k /\ child_at cs i c).
Proof.
  intros Hk. unfold child_at. destruct (decide (i = k)) as [->|Hne].
  - rewrite list_lookup_insert_eq by done. naive_solver.
  - rewrite list_lookup_insert_ne by done. naive_solver.
Qed.

Lemma child_at_lt cs i c : child_at cs i c -> (i < length cs)%nat.
Proof. apply lookup_lt_Some. Qed.

(** A child different from position [k] always exists in a branch. *)
Lemma two_children_other cs k :
  two_children cs -> exists i c, i <> k /\ child_at cs i c.
Proof.
  intros (i & j & ci & cj & Hij & Hi & Hj).
  destruct (decide (i = k)) as [->|]; eauto.
Qed.

(** ** Lookup, one constructor at a time *)

Lemma get_Branch cs cache i tail :
  get_internal (mkNode (Branch cs) cache) (i :: tail) =
  match cs !! Z.to_nat i with
  | Some (Some c) => get_internal c tail
  | Some None => Ok None
  | None => Panic
  end.
Proof. cbn [get_internal]. apply on_child_lookup. Qed.

Lemma get_Leaf p v cache key :
  Nibs p ->
  get_internal (mkNode (Leaf (to_encoded_path p true) v) cache) key =
  if decide (p = key) then Ok (Some v) else Ok None.
Proof. intros Hp. cbn [get_internal]. by rewrite prefix_nibs_to_encoded_path. Qed.

Lemma get_Extension p child cache key :
  Nibs p ->
  get_internal (mkNode (Extension (to_encoded_path p false) child) cache) key =
  match strip_prefix p key with Some tail => get_internal child tail | None => Ok None end.
Proof. intros Hp. cbn [get_internal]. by rewrite prefix_nibs_to_encoded_path. Qed.

Lemma get_cache_irrel d c1 c2 key :
  get_internal (mkNode d c1) key = get_internal (mkNode d c2) key.
Proof. by destruct d. Qed.

(** [get] never panics on a well-formed trie and a nibble key, and its only
    error is an unresolved digest. *)
Lemma get_result n key :
  wf n -> Nibs key ->
  (exists o, get_internal n key = Ok o) \/
  (exists d, get_internal n key = Err (NodeNotResolved d)).
Proof.
  intros H. revert key. induction H as [|p v cache Hp|p child cache Hp Hne Hch IH Hbd
    |cs cache Hlen H2 Hch IH Hnn|]; intros key Hk.
  - left. eexists. reflexivity.
  - rewrite get_Leaf by done. case_decide; eauto.
  - rewrite get_Extension by done. destruct (strip_prefix p key) as [tail|] eqn:E; [|eauto].
    apply strip_prefix_Some in E as ->. apply Forall_app in Hk as [_ Hk]. auto.
  - destruct key as [|i tail]; [cbn; eauto|]. inversion_clear Hk as [|?? Hi Ht].
    rewrite get_Branch. destruct (cs !! Z.to_nat i) as [[c|]|] eqn:E; [|eauto|].
    + by apply (IH _ _ E).
    + apply lookup_ge_None in E. unfold is_nib in Hi. lia.
  - right. eexists. reflexivity.
Qed.

Lemma wf_Extension_inv p child cache :
  Nibs p -> wf (mkNode (Extension (to_encoded_path p false) child) cache) ->
  p <> [] /\ wf child /\ is_branch_or_digest child = true.
Proof.
  intros Hp H. inversion H as [| |q c ? Hq Hne Hch Hbd E| |]; subst.
  by apply to_encoded_path_inj in E as <-.
Qed.

Lemma wf_Branch_inv cs cache :
  wf (mkNode (Branch cs) cache) ->
  length cs = 16%nat /\ two_children cs /\
  (forall i c, child_at cs i c -> wf c) /\ (forall i c, child_at cs i c -> ~ is_null c).
Proof. by inversion 1. Qed.

#[export] Hint Constructors wf : stf.
#[export] Hint Resolve child_at_lt : stf.
