(* ===== verification/MptInsert.v ===== *)
(** * Insertion into the trie: functional correctness

    [insert_internal] refines map insertion: on a well-formed trie it binds
    the key, keeps every other lookup (unresolved parts included), keeps the
    trie well formed, and reports whether anything changed. *)
From S2P Require Import Prelude Nibbles Mpt MptInv.

(** The lookups of a branch made of two children at distinct nibbles. *)
Definition two_way (x : Z) (cx : MptNode) (y : Z) (cy : MptNode) : list (option MptNode) :=
  <[Z.to_nat y := Some cy]> (<[Z.to_nat x := Some cx]> no_children).

Lemma length_no_children : length no_children = 16%nat.
Proof. reflexivity. Qed.

Lemma length_two_way x cx y cy : length (two_way x cx y cy) = 16%nat.
Proof. unfold two_way. by rewrite !length_insert. Qed.

Lemma child_at_no_children i c : ~ child_at no_children i c.
Proof. unfold child_at, no_children. intros [[=] _]%lookup_replicate. Qed.

Lemma nib_to_nat_lt x : is_nib x -> (Z.to_nat x < 16)%nat.
Proof. unfold is_nib. lia. Qed.

Lemma nib_to_nat_inj x y : is_nib x -> is_nib y -> Z.to_nat x = Z.to_nat y -> x = y.
Proof. unfold is_nib. lia. Qed.

Lemma child_at_two_way x cx y cy i c :
  is_nib x -> is_nib y -> x <> y ->
  child_at (two_way x cx y cy) i c <->
  (i = Z.to_nat y /\ c = cy) \/ (i = Z.to_nat x /\ c = cx).
Proof.
  intros Hx Hy Hxy. pose proof (nib_to_nat_lt x Hx). pose proof (nib_to_nat_lt y Hy).
  pose proof (nib_to_nat_inj x y Hx Hy). pose proof (child_at_no_children i c).
  unfold two_way. rewrite !child_at_insert by (rewrite ?length_insert; cbn; lia).
  naive_solver.
Qed.

Lemma lookup_two_way x cx y cy z :
  is_nib x -> is_nib y -> is_nib z -> x <> y ->
  two_way x cx y cy !! Z.to_nat z =
  Some (if decide (z = y) then Some cy else if decide (z = x) then Some cx else None).
Proof.
  intros Hx Hy Hz Hxy. pose proof (nib_to_nat_lt x Hx). pose proof (nib_to_nat_lt y Hy).
  pose proof (nib_to_nat_lt z Hz). unfold two_way.
  pose proof (nib_to_nat_inj y z Hy Hz). pose proof (nib_to_nat_inj x z Hx Hz).
  destruct (decide (z = y)) as [->|]; [|destruct (decide (z = x)) as [->|]].
  - apply list_lookup_insert_eq. by rewrite length_insert.
  - rewrite list_lookup_insert_ne by naive_solver. by apply list_lookup_insert_eq.
  - rewrite !list_lookup_insert_ne by naive_solver. by apply lookup_replicate.
Qed.

Lemma wf_two_way x cx y cy cache :
  is_nib x -> is_nib y -> x <> y ->
  wf cx -> wf cy -> ~ is_null cx -> ~ is_null cy ->
  wf (mkNode (Branch (two_way x cx y cy)) cache).
Proof.
  intros Hx Hy Hxy Hcx Hcy Hnx Hny. constructor.
  - apply length_two_way.
  - exists (Z.to_nat x), (Z.to_nat y), cx, cy. rewrite !child_at_two_way by done.
    pose proof (nib_to_nat_inj x y Hx Hy). naive_solver.
  - intros i c. rewrite child_at_two_way by done. naive_solver.
  - intros i c. rewrite child_at_two_way by done. naive_solver.
Qed.

Lemma get_two_way x cx y cy cache k :
  is_nib x -> is_nib y -> x <> y -> Nibs k ->
  get_internal (mkNode (Branch (two_way x cx y cy)) cache) k =
  match k with
  | [] => Ok None
  | z :: tail =>
      if decide (z = y) then get_internal cy tail
      else if decide (z = x) then get_internal cx tail else Ok None
  end.
Proof.
  intros Hx Hy Hxy Hk. destruct k as [|z tail]; [done|]. inversion_clear Hk.
  rewrite get_Branch, lookup_two_way by done. repeat case_decide; done.
Qed.

(** The parent extension of a split, when the paths share a prefix. *)
Lemma wf_opt_extension (c : list Z) b cache :
  Nibs c -> wf b -> is_branch_or_digest b = true ->
  wf (mkNode (if decide (0 < length c)%nat
              then Extension (to_encoded_path c false) b else as_data b) cache).
Proof.
  intros Hc Hb Hbd. case_decide.
  - constructor; try done. intros ->. cbn in *. lia.
  - destruct b as [d cb]. cbn. inversion Hb; subst; constructor; auto.
Qed.

Lemma get_opt_extension (c : list Z) b cache k :
  Nibs c ->
  get_internal (mkNode (if decide (0 < length c)%nat
     then Extension (to_encoded_path c false) b else as_data b) cache) k =
  match strip_prefix c k with Some tail => get_internal b tail | None => Ok None end.
Proof.
  intros Hc. case_decide.
  - by rewrite get_Extension.
  - destruct c; [|cbn in *; lia]. destruct b as [d cb]. cbn [as_data strip_prefix].
    by rewrite (get_cache_irrel d cache cb).
Qed.

Lemma set_child_Ok cs i c :
  0 <= i < Z.of_nat (length cs) -> set_child cs i c = Ok (<[Z.to_nat i := Some c]> cs).
Proof. intros H. unfold set_child. by rewrite decide_True. Qed.

(** The result of [split_node] in closed form. *)
Lemma split_node_eq c x ra y rb old v :
  is_nib x -> is_nib y ->
  split_node (c ++ x :: ra) (c ++ y :: rb) (length c) old v =
  let b := from_data (Branch (two_way x old y (from_data (Leaf (to_encoded_path rb true) v)))) in
  Ok (if decide (0 < length c)%nat then Extension (to_encoded_path c false) b else as_data b).
Proof.
  intros Hx Hy. unfold split_node, mbind, outcome_bind, unwrap.
  rewrite !list_lookup_middle by done.
  replace (drop (S (length c)) (c ++ y :: rb)) with rb.
  2:{ change (y :: rb) with ([y] ++ rb). rewrite app_assoc, drop_app_length'; [done|].
      rewrite length_app. cbn. lia. }
  rewrite take_app_length.
  unfold is_nib in *. rewrite set_child_Ok by (cbn; lia).
  rewrite set_child_Ok by (rewrite length_insert; cbn; lia).
  unfold two_way. by case_decide.
Qed.

Definition below (p : list Z) (n : MptNode) (k : list Z) : outcome Error (option (list Z)) :=
  match strip_prefix p k with Some tail => get_internal n tail | None => Ok None end.

Lemma split_node_spec c x ra y rb old v :
  Nibs (c ++ x :: ra) -> Nibs (c ++ y :: rb) -> x <> y -> wf old -> ~ is_null old ->
  exists d, split_node (c ++ x :: ra) (c ++ y :: rb) (length c) old v = Ok d /\
    wf (mkNode d None) /\ ~ is_null (mkNode d None) /\
    forall k, Nibs k ->
      get_internal (mkNode d None) k =
      if decide (k = c ++ y :: rb) then Ok (Some v) else below (c ++ [x]) old k.
Proof.
  rewrite !Forall_app, !Forall_cons. intros (Hc & Hx & Hra) (_ & Hy & Hrb) Hxy Hold Hnn.
  rewrite split_node_eq by done. eexists; split; [reflexivity|].
  set (leaf := from_data (Leaf (to_encoded_path rb true) v)).
  assert (wf leaf) by (by constructor). assert (~ is_null leaf) by done.
  set (b := from_data (Branch (two_way x old y leaf))).
  assert (wf b) by (by apply wf_two_way).
  split_and!.
  - by apply wf_opt_extension.
  - case_decide; done.
  - intros k Hk. rewrite get_opt_extension by done. unfold below.
    rewrite strip_prefix_app_l.
    destruct (strip_prefix c k) as [tl|] eqn:E; cbn [mbind option_bind].
    2:{ rewrite decide_False; [done|]. intros ->. by rewrite strip_prefix_app in E. }
    apply strip_prefix_Some in E as ->. apply Forall_app in Hk as [_ Htl].
    unfold b, from_data. rewrite get_two_way by done. destruct tl as [|z tl]; cbn [strip_prefix].
    + rewrite decide_False; [done|]. intros ?%app_inv_head. done.
    + subst leaf. unfold from_data.
      destruct (decide (z = y)) as [->|Hzy].
      * rewrite get_Leaf by done. destruct (Z.eqb_spec x y); [done|].
        destruct (decide (rb = tl)) as [->|Hne]; [by rewrite decide_True|].
        rewrite decide_False; [done|]. intros ?%app_inv_head. congruence.
      * rewrite (decide_False (P := c ++ z :: tl = _)).
        2:{ intros ?%app_inv_head. congruence. }
        destruct (Z.eqb_spec x z), (decide (z = x)); congruence.
Qed.

(** A leaf or extension with path [p ++ q] is one with path [q], below [p]. *)
Lemma get_Leaf_below p q v cache cache' k :
  Nibs (p ++ q) ->
  get_internal (mkNode (Leaf (to_encoded_path (p ++ q) true) v) cache) k =
  below p (mkNode (Leaf (to_encoded_path q true) v) cache') k.
Proof.
  intros Hp. rewrite get_Leaf by done. apply Forall_app in Hp as [_ Hq]. unfold below.
  destruct (strip_prefix p k) as [tl|] eqn:E.
  - apply strip_prefix_Some in E as ->. rewrite get_Leaf by done.
    destruct (decide (q = tl)) as [->|Hne]; [by rewrite decide_True|].
    rewrite decide_False; [done|]. by intros ?%app_inv_head.
  - rewrite decide_False; [done|]. intros <-. by rewrite strip_prefix_app in E.
Qed.

Lemma get_Extension_below p q child cache cache' k :
  Nibs (p ++ q) ->
  get_internal (mkNode (Extension (to_encoded_path (p ++ q) false) child) cache) k =
  below p (mkNode (Extension (to_encoded_path q false) child) cache') k.
Proof.
  intros Hp. rewrite get_Extension by done. apply Forall_app in Hp as [_ Hq].
  unfold below. rewrite strip_prefix_app_l.
  destruct (strip_prefix p k) as [tl|]; [cbn [mbind option_bind]|done].
  by rewrite get_Extension.
Qed.

Lemma get_Extension_split c x ra child cache k :
  Nibs (c ++ x :: ra) ->
  get_internal (mkNode (Extension (to_encoded_path (c ++ x :: ra) false) child) cache) k =
  below (c ++ [x])
    (if decide (0 < length ra)%nat
     then from_data (Extension (to_encoded_path ra false) child) else child) k.
Proof.
  intros Hp. change (x :: ra) with ([x] ++ ra) in *. rewrite app_assoc in *.
  case_decide as Hl; [by apply get_Extension_below|].
  destruct ra; [|cbn in Hl; lia]. rewrite app_nil_r in *. by rewrite get_Extension.
Qed.

(** ** The specification of one insertion *)

(** [t'] is [t] with [key] bound to [value]. *)
Definition binds (t t' : MptNode) (key value : list Z) : Prop :=
  forall k, Nibs k ->
    get_internal t' k = if decide (k = key) then Ok (Some value) else get_internal t k.

Record insert_post (t : MptNode) (key value : list Z) (changed : bool) (t' : MptNode) : Prop := {
  ip_wf : wf t';
  ip_nonnull : ~ is_null t';
  ip_binds : binds t t' key value;
  ip_flag : changed = false <-> get_internal t key = Ok (Some value);
  ip_same : changed = false -> t' = t }.

Lemma insert_post_unchanged t key value :
  wf t -> ~ is_null t -> get_internal t key = Ok (Some value) ->
  insert_post t key value false t.
Proof. intros ?? Hg. split; try done. intros k _. case_decide; congruence. Qed.

Lemma insert_post_changed t key value t' :
  wf t' -> ~ is_null t' -> binds t t' key value -> get_internal t key <> Ok (Some value) ->
  insert_post t key value true t'.
Proof. intros ????. by split. Qed.

Lemma binds_Branch cs cache i tail v (o : option MptNode) c' cache' :
  is_nib i -> cs !! Z.to_nat i = Some o ->
  (forall k, Nibs k -> get_internal c' k =
     if decide (k = tail) then Ok (Some v)
     else match o with Some c => get_internal c k | None => Ok None end) ->
  binds (mkNode (Branch cs) cache) (mkNode (Branch (<[Z.to_nat i := Some c']> cs)) cache')
    (i :: tail) v.
Proof.
  intros Hi Ho Hc k Hk. destruct k as [|j k]; [cbn; by rewrite decide_False|].
  inversion_clear Hk as [|?? Hj Hk']. rewrite !get_Branch.
  destruct (decide (j = i)) as [->|Hne].
  - rewrite list_lookup_insert_eq by (by eapply lookup_lt_Some).
    rewrite Ho, Hc by done.
    destruct (decide (k = tail)) as [->|]; [by rewrite decide_True|].
    rewrite decide_False by congruence. by destruct o.
  - rewrite list_lookup_insert_ne by (unfold is_nib in *; lia).
    by rewrite (decide_False (P := j :: k = i :: tail)) by congruence.
Qed.

Lemma binds_Extension p child child' cache cache' key v :
  Nibs p ->
  binds child child' key v ->
  binds (mkNode (Extension (to_encoded_path p false) child) cache)
        (mkNode (Extension (to_encoded_path p false) child') cache') (p ++ key) v.
Proof.
  intros Hp Hb k Hk. rewrite !get_Extension by done.
  destruct (strip_prefix p k) as [tl|] eqn:E.
  - apply strip_prefix_Some in E as ->. apply Forall_app in Hk as [_ Hk].
    rewrite Hb by done. destruct (decide (tl = key)) as [->|]; [by rewrite decide_True|].
    rewrite decide_False; [done|]. by intros ?%app_inv_head.
  - rewrite decide_False; [done|]. intros ->. by rewrite strip_prefix_app in E.
Qed.

(** The branch case keeps the invariant when a live child is set. *)
Lemma wf_Branch_insert cs cache i c' cache' :
  wf (mkNode (Branch cs) cache) -> (i < length cs)%nat -> wf c' -> ~ is_null c' ->
  wf (mkNode (Branch (<[i := Some c']> cs)) cache').
Proof.
  intros H Hi Hc' Hnn'. inversion H as [| | |?? Hlen H2 Hch Hnn|]; subst.
  destruct (two_children_other cs i H2) as (j & cj & Hji & Hj).
  constructor.
  - by rewrite length_insert.
  - exists i, j, c', cj. rewrite !child_at_insert by done. naive_solver.
  - intros k c. rewrite child_at_insert by done. naive_solver.
  - intros k c. rewrite child_at_insert by done. naive_solver.
Qed.

(** Insertion of a different path into a leaf or extension, after the split. *)
Lemma insert_post_split t c x ra y rb old v :
  Nibs (c ++ x :: ra) -> Nibs (c ++ y :: rb) -> x <> y -> wf old -> ~ is_null old ->
  (forall k, get_internal t k = below (c ++ [x]) old k) ->
  exists d, split_node (c ++ x :: ra) (c ++ y :: rb) (length c) old v = Ok d /\
    insert_post t (c ++ y :: rb) v true (mkNode d None).
Proof.
  intros Hs Hk Hxy Hold Hnn Ht.
  destruct (split_node_spec c x ra y rb old v) as (d & -> & Hwf & Hd & Hget); try done.
  exists d. split; [done|]. apply insert_post_changed; try done.
  - intros k Hk'. rewrite Hget, Ht by done. done.
  - rewrite Ht. unfold below. rewrite strip_prefix_app_l, strip_prefix_app. cbn.
    destruct (Z.eqb_spec x y); done.
Qed.

(** ** Insertion, constructor by constructor *)

Lemma insert_Branch cs cache i tail v :
  insert_internal (mkNode (Branch cs) cache) (i :: tail) v =
  match cs !! Z.to_nat i with
  | Some (Some node) =>
      '(changed, node') ← insert_internal node tail v;
      if changed : bool
      then Ok (true, mkNode (Branch (<[Z.to_nat i := Some node']> cs)) None)
      else Ok (false, mkNode (Branch cs) cache)
  | Some None =>
      Ok (true, mkNode (Branch
        (<[Z.to_nat i := Some (from_data (Leaf (to_encoded_path tail true) v))]> cs)) None)
  | None => Panic
  end.
Proof. cbn [insert_internal]. by rewrite on_child_lookup. Qed.

Lemma insert_Extension p child cache key v :
  Nibs p ->
  insert_internal (mkNode (Extension (to_encoded_path p false) child) cache) key v =
  (if decide (lcp p key = length p) then
     '(changed, child') ← insert_internal child (drop (lcp p key) key) v;
     if changed : bool
     then Ok (true, mkNode (Extension (to_encoded_path p false) child') None)
     else Ok (false, mkNode (Extension (to_encoded_path p false) child) cache)
   else if decide (lcp p key = length key) then Err ValueInBranch
   else
     data ← split_node p key (lcp p key)
       (if decide (S (lcp p key) < length p)%nat
        then from_data (Extension (to_encoded_path (drop (S (lcp p key)) p) false) child)
        else child) v;
     Ok (true, mkNode data None)).
Proof. intros Hp. cbn [insert_internal]. by rewrite prefix_nibs_to_encoded_path. Qed.

Lemma insert_Leaf p old cache key v :
  Nibs p ->
  insert_internal (mkNode (Leaf (to_encoded_path p true) old) cache) key v =
  (if decide (lcp p key = length p /\ lcp p key = length key) then
     if decide (old = v) then Ok (false, mkNode (Leaf (to_encoded_path p true) old) cache)
     else Ok (true, mkNode (Leaf (to_encoded_path p true) v) None)
   else if decide (lcp p key = length p \/ lcp p key = length key) then Err ValueInBranch
   else
     data ← split_node p key (lcp p key)
       (from_data (Leaf (to_encoded_path (drop (S (lcp p key)) p) true) old)) v;
     Ok (true, mkNode data None)).
Proof. intros Hp. cbn [insert_internal]. by rewrite prefix_nibs_to_encoded_path. Qed.

Lemma drop_split (c : list Z) x ra : drop (S (length c)) (c ++ x :: ra) = ra.
Proof.
  change (x :: ra) with ([x] ++ ra). rewrite app_assoc, drop_app_length'; [done|].
  rewrite length_app. cbn. lia.
Qed.

(** A key and a stored path are comparable when one is a prefix of the other;
    [ValueInBranch] reports exactly such a pair. *)
Definition comparable (a b : list Z) : Prop := a `prefix_of` b \/ b `prefix_of` a.

(** Everything one insertion can do: succeed as a map update, meet the
    unresolved digest that [get] would meet, or find that the key ends inside
    the trie or runs past a stored key (impossible when all keys have the
    same length). *)
Definition insert_spec (n : MptNode) (key v : list Z) : Prop :=
  match insert_internal n key v with
  | Ok (changed, n') => insert_post n key v changed n'
  | Err (NodeNotResolved d) => get_internal n key = Err (NodeNotResolved d)
  | Err ValueInBranch =>
      get_internal n key = Ok None /\ forall L, depth_ok L n -> length key <> L
  | Err _ | Panic => False
  end.

Lemma depth_Leaf_inv L p v cache :
  Nibs p -> depth_ok L (mkNode (Leaf (to_encoded_path p true) v) cache) -> L = length p.
Proof.
  intros Hp H. inversion H as [|p' v' cache' Hp' HL E| | |]; subst.
  by apply to_encoded_path_inj in E as ->.
Qed.

Lemma depth_Extension_inv L p child cache :
  Nibs p -> depth_ok L (mkNode (Extension (to_encoded_path p false) child) cache) ->
  exists L', L = (length p + L')%nat /\ depth_ok L' child.
Proof.
  intros Hp H. inversion H as [| |p' L' child' cache' Hp' HL E Ep| |]; subst.
  apply to_encoded_path_inj in Ep as ->; eauto.
Qed.

Lemma insert_spec_Leaf p old cache key v :
  Nibs p -> Nibs key -> insert_spec (mkNode (Leaf (to_encoded_path p true) old) cache) key v.
Proof.
  intros Hp Hk. unfold insert_spec. rewrite insert_Leaf by done.
  destruct (lcp_spec p key) as (c & ra & rb & -> & -> & -> & Hdiff).
  rewrite !length_app.
  assert (Herr : forall rb' ra', length ra' <> length rb' -> Nibs (c ++ ra') ->
    get_internal (mkNode (Leaf (to_encoded_path (c ++ ra') true) old) cache) (c ++ rb') = Ok None /\
    forall L, depth_ok L (mkNode (Leaf (to_encoded_path (c ++ ra') true) old) cache) ->
      (length c + length rb')%nat <> L).
  { intros rb' ra' Hl Hp'. split.
    - rewrite get_Leaf by done. rewrite decide_False; [done|]. intros ->%app_inv_head. done.
    - intros L ->%depth_Leaf_inv; [|done]. rewrite length_app. lia. }
  destruct ra as [|x ra], rb as [|y rb]; cbn [length].
  - rewrite decide_True by lia. rewrite !app_nil_r in *. case_decide; [subst|].
    + apply insert_post_unchanged; [by constructor|done|].
      rewrite get_Leaf by done. by rewrite decide_True.
    + apply insert_post_changed; [by constructor|done| |].
      * intros k _. rewrite !get_Leaf by done. repeat case_decide; congruence.
      * rewrite get_Leaf, decide_True by done. congruence.
  - rewrite decide_False, decide_True by lia. by apply (Herr (y :: rb) []).
  - rewrite decide_False, decide_True by lia. by apply (Herr [] (x :: ra)).
  - rewrite !decide_False by lia. rewrite drop_split.
    apply Forall_app in Hp as Hp'. destruct Hp' as [Hc Hxra]. inversion_clear Hxra as [|?? Hx Hra].
    destruct (insert_post_split (mkNode (Leaf (to_encoded_path (c ++ x :: ra) true) old) cache)
      c x ra y rb (from_data (Leaf (to_encoded_path ra true) old)) v) as (d & -> & Hpost);
      [done|done|done|by constructor|done| |exact Hpost].
    intros k. change (x :: ra) with ([x] ++ ra). rewrite app_assoc.
    apply get_Leaf_below. by rewrite <- app_assoc.
Qed.

(** A branch stays a branch. *)
Lemma insert_Branch_shape cs cache key v changed n' :
  insert_internal (mkNode (Branch cs) cache) key v = Ok (changed, n') ->
  is_branch_or_digest n' = true.
Proof.
  destruct key as [|i tail]; [done|]. rewrite insert_Branch.
  destruct (cs !! Z.to_nat i) as [[node|]|]; [|by intros [= <- <-]|done].
  destruct (insert_internal node tail v) as [[[|] ?]| |]; cbn; by intros [= <- <-].
Qed.

Lemma insert_shape n key v changed n' :
  is_branch_or_digest n = true -> insert_internal n key v = Ok (changed, n') ->
  is_branch_or_digest n' = true.
Proof.
  destruct n as [[|cs| | |] cache]; try done. intros _. apply insert_Branch_shape.
Qed.

Lemma get_Extension_app p child cache key :
  Nibs p ->
  get_internal (mkNode (Extension (to_encoded_path p false) child) cache) (p ++ key) =
  get_internal child key.
Proof. intros Hp. rewrite get_Extension by done. by rewrite strip_prefix_app. Qed.

(** The key continues below the extension. *)
Lemma insert_spec_Extension_down p child cache key v :
  Nibs p -> p <> [] -> is_branch_or_digest child = true ->
  insert_spec child key v -> lcp p (p ++ key) = length p -> wf child ->
  insert_spec (mkNode (Extension (to_encoded_path p false) child) cache) (p ++ key) v.
Proof.
  intros Hp Hne Hbd IH Hlcp Hch. unfold insert_spec in *.
  rewrite insert_Extension, Hlcp by done. rewrite decide_True, drop_app_length by done.
  rewrite get_Extension_app by done.
  destruct (insert_internal child key v) as [[[|] child']|[d| | |]|] eqn:E;
    cbn [mbind outcome_bind]; try done.
  - apply (insert_shape _ _ _ _ _ Hbd) in E. destruct IH as [Hwf' Hnn' Hb Hfl _].
    apply insert_post_changed; [by constructor|done|by apply binds_Extension|].
    rewrite get_Extension_app by done. intros Hg. by apply Hfl in Hg.
  - destruct IH as [_ _ _ Hfl _]. apply insert_post_unchanged; [by constructor|done|].
    rewrite get_Extension_app by done. by apply Hfl.
  - destruct IH as [IHg IHd]. split; [done|].
    intros L (L' & -> & HL')%depth_Extension_inv; [|done].
    specialize (IHd _ HL'). rewrite length_app. lia.
Qed.

(** The key leaves the extension's path: the extension is split. *)
Lemma insert_spec_Extension_split c x ra child cache rb v :
  Nibs (c ++ x :: ra) -> Nibs (c ++ rb) ->
  match rb with y :: _ => x <> y | [] => True end ->
  lcp (c ++ x :: ra) (c ++ rb) = length c ->
  wf child -> is_branch_or_digest child = true ->
  insert_spec (mkNode (Extension (to_encoded_path (c ++ x :: ra) false) child) cache) (c ++ rb) v.
Proof.
  intros Hp Hk Hdiff Hlcp Hch Hbd. unfold insert_spec.
  rewrite insert_Extension, Hlcp, !length_app by done. cbn [length].
  rewrite decide_False by lia. rewrite drop_split.
  destruct rb as [|y rb]; cbn [length].
  - rewrite decide_True by lia. split.
    + rewrite get_Extension by done. rewrite strip_prefix_app_l, strip_prefix_app. done.
    + intros L (L' & -> & _)%depth_Extension_inv; [|done]. rewrite !length_app. cbn. lia.
  - rewrite decide_False by lia.
    apply Forall_app in Hp as Hp'. destruct Hp' as [Hc Hxra]. inversion_clear Hxra as [|?? Hx Hra].
    destruct (insert_post_split (mkNode (Extension (to_encoded_path (c ++ x :: ra) false) child) cache)
      c x ra y rb
      (if decide (0 < length ra)%nat
       then from_data (Extension (to_encoded_path ra false) child) else child) v)
      as (d & E & Hpost); try done.
    + case_decide as Hl; [|done]. constructor; try done. intros ->. cbn in Hl. lia.
    + case_decide; [done|]. by destruct child as [[] ?].
    + intros k. by apply get_Extension_split.
    + rewrite (decide_ext _ (0 < length ra)%nat) by lia. rewrite E. exact Hpost.
Qed.

Lemma insert_spec_Branch cs cache key v :
  wf (mkNode (Branch cs) cache) -> Nibs key ->
  (forall i c tail, child_at cs i c -> Nibs tail -> insert_spec c tail v) ->
  insert_spec (mkNode (Branch cs) cache) key v.
Proof.
  intros Hwf Hk IH. inversion Hwf as [| | |?? Hlen _ _ _|]; subst. unfold insert_spec.
  destruct key as [|i tail].
  { split; [done|]. intros L HL. by inversion HL. }
  inversion_clear Hk as [|?? Hi Ht]. pose proof (nib_to_nat_lt i Hi) as Hlt.
  rewrite insert_Branch, get_Branch.
  destruct (cs !! Z.to_nat i) as [[c|]|] eqn:Ec.
  - specialize (IH _ c tail Ec Ht). unfold insert_spec in IH.
    destruct (insert_internal c tail v) as [[[|] c']|[d| | |]|]; cbn [mbind outcome_bind]; try done.
    + destruct IH as [Hwf' Hnn' Hb Hfl _]. apply insert_post_changed; [|done| |].
      * apply wf_Branch_insert with cache; auto. lia.
      * by apply binds_Branch with (o := Some c).
      * rewrite get_Branch, Ec. intros Hg. by apply Hfl in Hg.
    + destruct IH as [_ _ _ Hfl _]. apply insert_post_unchanged; [done|done|].
      rewrite get_Branch, Ec. by apply Hfl.
    + destruct IH as [IHg IHd]. split; [done|]. intros L HL.
      inversion HL as [| | |L' ?? Hcs|]; subst. specialize (IHd _ (Hcs _ _ Ec)). cbn. lia.
  - apply insert_post_changed.
    + apply wf_Branch_insert with cache; [done|lia|by constructor|done].
    + done.
    + apply binds_Branch with (o := None); try done. intros k _. unfold from_data.
      rewrite get_Leaf by done. repeat case_decide; congruence.
    + by rewrite get_Branch, Ec.
  - apply lookup_ge_None in Ec. lia.
Qed.

Lemma insert_internal_spec n key v : wf n -> Nibs key -> insert_spec n key v.
Proof.
  intros H. revert key. induction H as [cache|p old cache Hp|p child cache Hp Hne Hch IH Hbd
    |cs cache Hlen H2 Hch IH Hnn|d cache]; intros key Hk.
  - apply insert_post_changed; [by constructor|done| |done].
    intros k _. rewrite get_Leaf by done. repeat case_decide; subst; done.
  - by apply insert_spec_Leaf.
  - destruct (lcp_spec p key) as (c & ra & rb & -> & -> & Hl & Hdiff).
    apply Forall_app in Hk as Hk'. destruct Hk' as [_ Hrb].
    destruct ra as [|x ra].
    + rewrite app_nil_r in *. apply insert_spec_Extension_down; auto.
    + by apply insert_spec_Extension_split.
  - apply insert_spec_Branch; [by constructor|done|]. intros; eauto.
  - done.
Qed.

(** The error that [get] reports and the one insertion reports agree, and
    insertion has no other error on keys of the trie's length. *)
Lemma insert_internal_total L n key v :
  wf n -> depth_ok L n -> Nibs key -> length key = L ->
  (exists d, get_internal n key = Err (NodeNotResolved d) /\
             insert_internal n key v = Err (NodeNotResolved d)) \/
  (exists changed n', insert_internal n key v = Ok (changed, n') /\
                      insert_post n key v changed n').
Proof.
  intros Hwf Hd Hk HL. pose proof (insert_internal_spec n key v Hwf Hk) as H.
  unfold insert_spec in H.
  destruct (insert_internal n key v) as [[changed n']|[d| | |]|]; try done; [by eauto| |].
  - left. eauto.
  - destruct H as [_ H]. by apply H in Hd.
Qed.

(** Insertion keeps the uniform key length. *)
Lemma depth_ok_split c x ra y rb old v d L :
  Nibs (c ++ x :: ra) -> Nibs (c ++ y :: rb) ->
  split_node (c ++ x :: ra) (c ++ y :: rb) (length c) old v = Ok d -> x <> y ->
  L = length (c ++ y :: rb) -> depth_ok (length rb) old -> depth_ok L (mkNode d None).
Proof.
  rewrite !Forall_app, !Forall_cons. intros (Hc & Hx & Hra) (_ & Hy & Hrb) E Hxy -> Hold.
  rewrite split_node_eq in E by done. injection E as <-.
  assert (Hb : forall cache, depth_ok (S (length rb)) (mkNode
    (Branch (two_way x old y (from_data (Leaf (to_encoded_path rb true) v)))) cache)).
  { intros cache. constructor. intros i ch [[_ ->]|[_ ->]]%child_at_two_way; [|done..].
    by constructor. }
  case_decide as Hl.
  - rewrite length_app. apply depth_Extension; [done|]. apply Hb.
  - destruct c; [|cbn in Hl; lia]. apply Hb.
Qed.

Lemma insert_internal_depth L n key v changed n' :
  wf n -> depth_ok L n -> Nibs key -> length key = L ->
  insert_internal n key v = Ok (changed, n') -> depth_ok L n'.
Proof.
  intros Hwf Hd. revert key changed n' Hwf.
  induction Hd as [L cache|p old cache Hp|p L child cache Hp Hd IH|L cs cache Hcs IH|L d cache];
    intros key changed n' Hwf Hk HL HE.
  - injection HE as <- <-. subst L. by constructor.
  - rewrite insert_Leaf in HE by done. repeat case_decide; try discriminate.
    + injection HE as <- <-. by constructor.
    + injection HE as <- <-. by constructor.
    + destruct (lcp_spec p key) as (c & ra & rb & -> & -> & Hl & Hdiff). rewrite Hl in *.
      rewrite !length_app in *.
      destruct ra as [|x ra], rb as [|y rb]; cbn [length] in *; try lia.
      rewrite drop_split in HE. inv_ok.
      eapply depth_ok_split; [exact Hp|exact Hk|done|done|rewrite length_app; cbn; lia|].
      replace (length rb) with (length ra) by lia. constructor.
      by apply Forall_app in Hp as [_ [_ ?]%Forall_cons].
  - inversion Hwf as [| |p' child' cache' Hp' Hne Hch Hbd Ep| |]; subst.
    rewrite insert_Extension in HE by done.
    destruct (lcp_spec p key) as (c & ra & rb & -> & -> & Hl & Hdiff). rewrite Hl in *.
    rewrite !length_app in *. apply Forall_app in Hk as Hk'. destruct Hk' as [_ Hrb].
    destruct ra as [|x ra]; cbn [length] in *; rewrite ?app_nil_r in *.
    + rewrite decide_True, drop_app_length in HE by lia. inv_ok. destruct a as [[|] ch']; inv_ok;
        rewrite Nat.add_0_r.
      * apply depth_Extension; [done|]. apply (IH rb true); try done. lia.
      * by apply depth_Extension.
    + rewrite !decide_False in HE by lia. inv_ok. rewrite drop_split in *.
      destruct rb as [|y rb]; cbn [length] in *; [lia|].
      eapply depth_ok_split; [exact Hp|exact Hk|exact Ha|done|rewrite length_app; cbn; lia|].
      case_decide as Hra.
      * replace (length rb) with (length ra + L)%nat by lia. constructor; [|done].
        by apply Forall_app in Hp as [_ [_ ?]%Forall_cons].
      * by replace (length rb) with L by lia.
  - destruct key as [|i tail]; [discriminate|]. inversion_clear Hk as [|?? Hi Ht].
    inversion Hwf as [| | |?? Hlen _ Hch _|]; subst. rewrite insert_Branch in HE.
    injection HL as HL.
    assert (Hset : forall c', depth_ok L c' -> forall cache',
      depth_ok (S L) (mkNode (Branch (<[Z.to_nat i := Some c']> cs)) cache')).
    { intros c' Hc' cache'. constructor. intros j c.
      rewrite child_at_insert by (rewrite Hlen; by apply nib_to_nat_lt). naive_solver. }
    destruct (cs !! Z.to_nat i) as [[c|]|] eqn:Ec; [| |discriminate].
    + inv_ok. destruct a as [[|] c']; inv_ok; [|by apply depth_Branch].
      apply Hset. by eapply IH; eauto.
    + inv_ok. apply Hset. subst. by constructor.
  - discriminate.
Qed.
