(* ===== verification/MptDelete.v ===== *)
(** * Deletion from the trie: functional correctness

    [delete_internal] refines map deletion on well-formed tries: the key is
    unbound, every other lookup keeps its result (unresolved parts included),
    the branch/extension shape is restored by [collapse_branch] and
    [merge_extension], and neither [unwrap] nor [unreachable!] is reached. *)
From S2P Require Import Prelude Nibbles Mpt MptInv MptInsert.

(** [t'] is [t] without [key]. *)
Definition unbinds (t t' : MptNode) (key : list Z) : Prop :=
  forall k, Nibs k ->
    get_internal t' k = if decide (k = key) then Ok None else get_internal t k.

Record delete_post (t : MptNode) (key : list Z) (removed : bool) (t' : MptNode) : Prop := {
  dp_wf : wf t';
  dp_unbinds : unbinds t t' key;
  dp_flag : removed = true <-> exists v, get_internal t key = Ok (Some v);
  dp_same : removed = false -> t' = t;
  dp_depth : forall L, depth_ok L t -> depth_ok L t' }.

(** Everything one deletion can do. *)
Definition delete_spec (n : MptNode) (key : list Z) : Prop :=
  match delete_internal n key with
  | Ok (removed, n') => delete_post n key removed n'
  | Err (NodeNotResolved d) => get_internal n key = Err (NodeNotResolved d)
  | Err ValueInBranch =>
      get_internal n key = Ok None /\ forall L, depth_ok L n -> length key <> L
  | Err _ | Panic => False
  end.

Lemma delete_post_unchanged t key :
  wf t -> get_internal t key = Ok None -> delete_post t key false t.
Proof.
  intros ? Hg. split; try done.
  - intros k _. case_decide; congruence.
  - rewrite Hg. split; [done|]. by intros [v [=]].
Qed.

(** ** Collapsing a branch *)

(** A branch whose only child sits at [i] looks up as that child below [i]. *)
Lemma get_only_child cs cache i c k :
  length cs = 16%nat -> child_at cs i c -> (forall j d, child_at cs j d -> j = i) -> Nibs k ->
  get_internal (mkNode (Branch cs) cache) k = below [Z.of_nat i] c k.
Proof.
  intros Hlen Hi Honly Hk. unfold below. destruct k as [|z tl]; [done|].
  inversion_clear Hk as [|?? Hz Htl]. pose proof (nib_to_nat_lt z Hz).
  pose proof (child_at_lt _ _ _ Hi). rewrite get_Branch. cbn [strip_prefix].
  destruct (Z.eqb_spec (Z.of_nat i) z) as [<-|Hne].
  - rewrite Nat2Z.id. by rewrite Hi.
  - destruct (cs !! Z.to_nat z) as [[d|]|] eqn:E; [|done|].
    + apply Honly in E. unfold is_nib in Hz. lia.
    + apply lookup_ge_None in E. lia.
Qed.

Lemma child_index_nib cs i c : length cs = 16%nat -> child_at cs i c -> is_nib (Z.of_nat i).
Proof. intros Hlen Hi%child_at_lt. unfold is_nib. lia. Qed.

(** One orphan absorbs its nibble. *)
Lemma collapse_orphan cs i c :
  remaining cs = [(i, c)] -> is_nib (Z.of_nat i) -> wf c -> ~ is_null c ->
  exists d, collapse_branch cs = Ok d /\ wf (mkNode d None) /\ ~ is_null (mkNode d None) /\
    (forall k, get_internal (mkNode d None) k = below [Z.of_nat i] c k) /\
    (forall L, depth_ok L c -> depth_ok (S L) (mkNode d None)).
Proof.
  intros Hr Hi Hwf Hnn. unfold collapse_branch. rewrite Hr.
  inversion Hwf as [cache|p v cache Hp|p child cache Hp Hne Hch Hbd|cs' cache Hl H2 Hc Hn|d cache];
    subst; cbn [as_data].
  - by destruct Hnn.
  - rewrite prefix_nibs_to_encoded_path by done. cbn [unwrap mbind outcome_bind].
    eexists; split_and!; [done|by constructor; apply Forall_cons|done| |].
    + intros k. apply (get_Leaf_below [Z.of_nat i] p). by constructor.
    + intros L ->%depth_Leaf_inv; [|done]. apply depth_Leaf with (p := Z.of_nat i :: p).
      by constructor.
  - rewrite prefix_nibs_to_encoded_path by done. cbn [unwrap mbind outcome_bind].
    eexists; split_and!; [done|by constructor; [apply Forall_cons|..]|done| |].
    + intros k. apply (get_Extension_below [Z.of_nat i] p). by constructor.
    + intros L (L' & -> & HL')%depth_Extension_inv; [|done].
      apply (depth_Extension (Z.of_nat i :: p)); [by constructor|done].
  - eexists; split_and!; [done| |done| |].
    + constructor; [by apply Forall_singleton|done|done|done].
    + intros k. apply get_Extension. by apply Forall_singleton.
    + intros L HL. apply (depth_Extension [Z.of_nat i]); [by apply Forall_singleton|done].
  - eexists; split_and!; [done| |done| |].
    + constructor; [by apply Forall_singleton|done|done|done].
    + intros k. apply get_Extension. by apply Forall_singleton.
    + intros L HL. apply (depth_Extension [Z.of_nat i]); [by apply Forall_singleton|done].
Qed.

Lemma collapse_branch_spec cs :
  length cs = 16%nat -> (exists i c, child_at cs i c) ->
  (forall i c, child_at cs i c -> wf c) -> (forall i c, child_at cs i c -> ~ is_null c) ->
  exists d, collapse_branch cs = Ok d /\ wf (mkNode d None) /\ ~ is_null (mkNode d None) /\
    (forall k, Nibs k -> get_internal (mkNode d None) k = get_internal (mkNode (Branch cs) None) k) /\
    (forall L, (forall i c, child_at cs i c -> depth_ok L c) -> depth_ok (S L) (mkNode d None)).
Proof.
  intros Hlen (i0 & c0 & H0) Hwf Hnn.
  destruct (remaining cs) as [|[i c] [|b l]] eqn:E.
  - rewrite remaining_nil in E. by destruct (E i0 c0).
  - apply remaining_one in E as E'. destruct E' as [Hi Honly].
    destruct (collapse_orphan cs i c E) as (d & -> & ? & ? & Hg & Hd); eauto using child_index_nib.
    exists d. split_and!; auto.
    + intros k Hk. rewrite Hg. symmetry. apply get_only_child; auto. intros ???; by eapply Honly.
    + intros L HL. eauto.
  - apply remaining_two in E as H2. exists (Branch cs). unfold collapse_branch. rewrite E.
    split_and!; [by destruct b|by constructor|done|done|]. intros L HL. by constructor.
Qed.

(** ** Merging an extension with its modified child *)

Lemma merge_extension_spec p child :
  Nibs p -> p <> [] -> wf child ->
  exists d, merge_extension (to_encoded_path p false) p child = Ok d /\ wf (mkNode d None) /\
    (forall k, get_internal (mkNode d None) k = below p child k) /\
    (forall L, depth_ok L child -> depth_ok (length p + L) (mkNode d None)).
Proof.
  intros Hp Hne Hwf. unfold merge_extension.
  inversion Hwf as [cache|q v cache Hq|q ch cache Hq Hqne Hch Hbd|cs' cache Hl H2 Hc Hn|d cache];
    subst; cbn [as_data].
  - eexists; split_and!; [done|constructor| |constructor].
    intros k. unfold below. by destruct (strip_prefix p k).
  - rewrite prefix_nibs_to_encoded_path by done. cbn [unwrap mbind outcome_bind].
    assert (Nibs (p ++ q)) by (by apply Forall_app).
    eexists; split_and!; [done|by constructor| |].
    + intros k. by apply get_Leaf_below.
    + intros L ->%depth_Leaf_inv; [|done]. rewrite <- length_app. by constructor.
  - rewrite prefix_nibs_to_encoded_path by done. cbn [unwrap mbind outcome_bind].
    assert (Nibs (p ++ q)) by (by apply Forall_app).
    eexists; split_and!; [done| | |].
    + constructor; try done. by destruct p.
    + intros k. by apply get_Extension_below.
    + intros L (L' & -> & HL')%depth_Extension_inv; [|done].
      rewrite Nat.add_assoc, <- length_app. by apply depth_Extension.
  - eexists; split_and!; [done|by constructor| |].
    + intros k. by apply get_Extension.
    + intros L HL. by apply depth_Extension.
  - eexists; split_and!; [done|by constructor| |].
    + intros k. by apply get_Extension.
    + intros L HL. by apply depth_Extension.
Qed.

(** ** Deletion, constructor by constructor *)

Lemma delete_Branch cs cache i tail :
  delete_internal (mkNode (Branch cs) cache) (i :: tail) =
  match cs !! Z.to_nat i with
  | Some (Some node) =>
      '(removed, node') ← delete_internal node tail;
      if removed : bool then
        data ← collapse_branch
          (<[Z.to_nat i := if is_empty node' then None else Some node']> cs);
        Ok (true, mkNode data None)
      else Ok (false, mkNode (Branch cs) cache)
  | Some None => Ok (false, mkNode (Branch cs) cache)
  | None => Panic
  end.
Proof. cbn [delete_internal]. by rewrite on_child_lookup. Qed.

Lemma is_empty_spec n : if is_empty n then is_null n else ~ is_null n.
Proof. by destruct n as [[] ?]. Qed.

Lemma get_null n k : is_null n -> get_internal n k = Ok None.
Proof. destruct n as [d c]. unfold is_null. cbn. by intros ->. Qed.

Lemma delete_spec_Leaf p v cache key :
  Nibs p -> Nibs key -> delete_spec (mkNode (Leaf (to_encoded_path p true) v) cache) key.
Proof.
  intros Hp Hk. unfold delete_spec. cbn [delete_internal].
  rewrite prefix_nibs_to_encoded_path by done. cbn [unwrap mbind outcome_bind].
  case_decide as E; [subst p|].
  - split; [apply wf_Null| | |done|].
    + intros k _. rewrite get_Leaf by done. cbn [get_internal]. repeat case_decide; congruence.
    + split; [|done]. intros _. exists v. rewrite get_Leaf by done. by rewrite decide_True.
    + intros L _. constructor.
  - apply delete_post_unchanged; [by constructor|].
    rewrite get_Leaf by done. by rewrite decide_False.
Qed.

(** The array after the child at [i] was replaced by [c'], or dropped. *)
Definition replaced (cs : list (option MptNode)) (i : nat) (c' : MptNode) : list (option MptNode) :=
  <[i := if is_empty c' then None else Some c']> cs.

Lemma get_replaced cs cache cache' i tl c' z k :
  is_nib i -> is_nib z -> cs !! Z.to_nat i = Some tl ->
  get_internal (mkNode (Branch (replaced cs (Z.to_nat i) c')) cache) (z :: k) =
  if decide (z = i) then get_internal c' k else get_internal (mkNode (Branch cs) cache') (z :: k).
Proof.
  intros Hi Hz Htl. unfold replaced. rewrite !get_Branch. case_decide as E.
  - subst. rewrite list_lookup_insert_eq by (by eapply lookup_lt_Some).
    pose proof (is_empty_spec c'). destruct (is_empty c'); [by rewrite get_null|done].
  - rewrite list_lookup_insert_ne; [done|]. by intros ?%nib_to_nat_inj.
Qed.

Lemma child_at_replaced cs i c' j d :
  (i < length cs)%nat -> child_at (replaced cs i c') j d ->
  (j = i /\ d = c' /\ ~ is_null c') \/ (j <> i /\ child_at cs j d).
Proof.
  intros Hi. unfold replaced. rewrite child_at_insert by done.
  pose proof (is_empty_spec c'). destruct (is_empty c'); naive_solver.
Qed.

Lemma delete_spec_Branch cs cache key :
  wf (mkNode (Branch cs) cache) -> Nibs key ->
  (forall i c tail, child_at cs i c -> Nibs tail -> delete_spec c tail) ->
  delete_spec (mkNode (Branch cs) cache) key.
Proof.
  intros Hwf Hk IH. inversion Hwf as [| | |?? Hlen H2 Hch Hnn|]; subst. unfold delete_spec.
  destruct key as [|i tail].
  { split; [done|]. intros L HL. by inversion HL. }
  inversion_clear Hk as [|?? Hi Ht]. pose proof (nib_to_nat_lt i Hi) as Hlt.
  rewrite delete_Branch, get_Branch.
  destruct (cs !! Z.to_nat i) as [[c|]|] eqn:Ec.
  - specialize (IH _ c tail Ec Ht). unfold delete_spec in IH.
    destruct (delete_internal c tail) as [[[|] c']|[d| | |]|]; cbn [mbind outcome_bind]; try done.
    + destruct IH as [Hwf' Hub Hfl _ Hdep].
      assert (Hca := child_at_replaced cs (Z.to_nat i) c').
      destruct (collapse_branch_spec (replaced cs (Z.to_nat i) c'))
        as (d & E & Hd1 & Hd2 & Hd3 & Hd4).
      * unfold replaced. by rewrite length_insert.
      * destruct (two_children_other cs (Z.to_nat i) H2) as (j & cj & Hj & Hcj).
        exists j, cj. apply child_at_insert; [lia|]. by right.
      * intros j cj [(-> & -> & _)|[_ ?]]%Hca; [done|eauto|lia].
      * intros j cj [(-> & -> & ?)|[_ ?]]%Hca; [done|eauto|lia].
      * unfold replaced in E. rewrite E. split; [done| | |done|].
        -- intros k Hk. rewrite Hd3 by done. destruct k as [|z k]; [by rewrite decide_False|].
           inversion_clear Hk as [|?? Hz Hk']. rewrite (get_replaced cs None cache i (Some c)) by done.
           destruct (decide (z = i)) as [->|Hzi]; [|by rewrite decide_False by congruence].
           rewrite Hub by done. rewrite get_Branch, Ec.
           destruct (decide (k = tail)) as [->|]; [by rewrite decide_True|].
           by rewrite decide_False by congruence.
        -- rewrite get_Branch, Ec. exact Hfl.
        -- intros L HL. inversion HL as [| | |L' ?? Hcs|]; subst. apply Hd4.
           intros j cj [(-> & -> & _)|[_ ?]]%Hca; [|eauto|lia]. eapply Hdep, Hcs, Ec.
    + destruct IH as [_ Hub Hfl Hsame _]. rewrite Hsame in Hub by done.
      apply delete_post_unchanged; [done|]. rewrite get_Branch, Ec.
      specialize (Hub tail Ht). by rewrite decide_True in Hub.
    + destruct IH as [IHg IHd]. split; [done|]. intros L HL.
      inversion HL as [| | |L' ?? Hcs|]; subst. specialize (IHd _ (Hcs _ _ Ec)). cbn. lia.
  - apply delete_post_unchanged; [done|]. by rewrite get_Branch, Ec.
  - apply lookup_ge_None in Ec. lia.
Qed.

Lemma unbinds_below p t child child' key :
  (forall k, get_internal t k = below p child k) -> unbinds child child' key ->
  forall t', (forall k, get_internal t' k = below p child' k) -> unbinds t t' (p ++ key).
Proof.
  intros Ht Hub t' Ht' k Hk. rewrite Ht, Ht'. unfold below.
  destruct (strip_prefix p k) as [tl|] eqn:E.
  - apply strip_prefix_Some in E as ->. apply Forall_app in Hk as [_ Hk].
    rewrite Hub by done. destruct (decide (tl = key)) as [->|]; [by rewrite decide_True|].
    rewrite decide_False; [done|]. by intros ?%app_inv_head.
  - by case_decide.
Qed.

Lemma delete_spec_Extension p child cache key :
  Nibs p -> p <> [] -> wf child -> is_branch_or_digest child = true -> Nibs key ->
  (forall tail, Nibs tail -> delete_spec child tail) ->
  delete_spec (mkNode (Extension (to_encoded_path p false) child) cache) key.
Proof.
  intros Hp Hne Hch Hbd Hk IH. unfold delete_spec. cbn [delete_internal].
  rewrite prefix_nibs_to_encoded_path by done. cbn [unwrap mbind outcome_bind].
  destruct (strip_prefix p key) as [tail|] eqn:Es.
  2:{ apply delete_post_unchanged; [by constructor|]. rewrite get_Extension by done. by rewrite Es. }
  apply strip_prefix_Some in Es as ->. apply Forall_app in Hk as [_ Ht].
  specialize (IH tail Ht). unfold delete_spec in IH. rewrite get_Extension_app by done.
  destruct (delete_internal child tail) as [[[|] child']|[d| | |]|]; cbn [mbind outcome_bind];
    try done.
  - destruct IH as [Hwf' Hub Hfl _ Hdep].
    destruct (merge_extension_spec p child') as (d & -> & Hd1 & Hd2 & Hd3); try done.
    split; [done| | |done|].
    + eapply unbinds_below; [intros k; by apply get_Extension|exact Hub|done].
    + rewrite get_Extension_app by done. exact Hfl.
    + intros L (L' & -> & HL')%depth_Extension_inv; [|done]. eauto.
  - destruct IH as [_ Hub _ Hsame _]. rewrite Hsame in Hub by done.
    apply delete_post_unchanged; [by constructor|]. rewrite get_Extension_app by done.
    specialize (Hub tail Ht). by rewrite decide_True in Hub.
  - destruct IH as [IHg IHd]. split; [done|].
    intros L (L' & -> & HL')%depth_Extension_inv; [|done].
    specialize (IHd _ HL'). rewrite length_app. lia.
Qed.

Lemma delete_internal_spec n key : wf n -> Nibs key -> delete_spec n key.
Proof.
  intros H. revert key. induction H as [cache|p v cache Hp|p child cache Hp Hne Hch IH Hbd
    |cs cache Hlen H2 Hch IH Hnn|d cache]; intros key Hk.
  - apply delete_post_unchanged; [apply wf_Null|done].
  - by apply delete_spec_Leaf.
  - by apply delete_spec_Extension.
  - apply delete_spec_Branch; [by constructor|done|]. intros; eauto.
  - done.
Qed.

(** On keys of the trie's length deletion succeeds unless the path meets an
    unresolved digest, which it then reports. *)
Lemma delete_internal_total L n key :
  wf n -> depth_ok L n -> Nibs key -> length key = L ->
  (exists d, get_internal n key = Err (NodeNotResolved d) /\
             delete_internal n key = Err (NodeNotResolved d)) \/
  (exists removed n', delete_internal n key = Ok (removed, n') /\ delete_post n key removed n').
Proof.
  intros Hwf Hd Hk HL. pose proof (delete_internal_spec n key Hwf Hk) as H.
  unfold delete_spec in H.
  destruct (delete_internal n key) as [[removed n']|[d| | |]|]; try done; [by eauto| |].
  - left. eauto.
  - destruct H as [_ H]. by apply H in Hd.
Qed.
