(* ===== verification/MptMap.v ===== *)
(** * The trie as a finite map: refinement and canonicity

    The abstract specification of a fully resolved trie over [n]-byte keys is
    a finite map.  [trie_refines_map] shows that any sequence of [insert]s and
    [delete]s behaves like the same sequence on the map, with no error and no
    panic; [trie_canonical] shows that the resulting node depends, caches
    apart, only on the map and not on the history.  The second part shows that
    the caches are invisible to every operation. *)
From S2P Require Import Prelude Nibbles Mpt MptInv MptInsert MptDelete.

(** One mutation of a trie, as callers issue them. *)
Inductive mpt_op : Type :=
  | OpInsert (key value : list Z)
  | OpDelete (key : list Z).

Definition run_op (t : MptNode) (op : mpt_op) : outcome Error MptNode :=
  match op with
  | OpInsert key value => snd <$> insert t key value
  | OpDelete key => snd <$> delete t key
  end.

Fixpoint run_ops (ops : list mpt_op) (t : MptNode) : outcome Error MptNode :=
  match ops with
  | [] => Ok t
  | op :: ops' => t' ← run_op t op; run_ops ops' t'
  end.

(** The same mutations on the abstract map. *)
Definition map_op (m : gmap (list Z) (list Z)) (op : mpt_op) : gmap (list Z) (list Z) :=
  match op with
  | OpInsert key value => <[key := value]> m
  | OpDelete key => base.delete key m
  end.

Definition map_ops (ops : list mpt_op) (m : gmap (list Z) (list Z)) : gmap (list Z) (list Z) :=
  foldl map_op m ops.

(** Keys of [n] bytes; inserted values are not empty. *)
Definition op_ok (n : nat) (op : mpt_op) : Prop :=
  match op with
  | OpInsert key value => Bytes key /\ length key = n /\ value <> []
  | OpDelete key => Bytes key /\ length key = n
  end.

#[export] Instance op_ok_dec n op : Decision (op_ok n op).
Proof. destruct op; apply _. Defined.

(** The representation invariant. *)
Record repr (n : nat) (t : MptNode) (m : gmap (list Z) (list Z)) : Prop := {
  repr_wf : wf t;
  repr_resolved : resolved t;
  repr_depth : depth_ok (2 * n) t;
  repr_dom : forall key, is_Some (m !! key) -> Bytes key /\ length key = n;
  repr_get : forall key, Bytes key -> length key = n -> get t key = Ok (m !! key) }.

(** ** Canonicity of resolved tries *)

Lemma resolved_Branch_inv cs cache i c :
  resolved (mkNode (Branch cs) cache) -> child_at cs i c -> resolved c.
Proof. inversion 1; eauto. Qed.

Lemma resolved_Extension_inv p c cache : resolved (mkNode (Extension p c) cache) -> resolved c.
Proof. by inversion 1. Qed.

Lemma branch_or_digest_nonnull c : is_branch_or_digest c = true -> ~ is_null c.
Proof. by destruct c as [[] ?]. Qed.

Lemma child_key_nib cs i c : length cs = 16%nat -> child_at cs i c -> is_nib (Z.of_nat i).
Proof. intros Hl Hi%child_at_lt. unfold is_nib. lia. Qed.

Lemma get_child cs cache i c k :
  child_at cs i c -> get_internal (mkNode (Branch cs) cache) (Z.of_nat i :: k) = get_internal c k.
Proof. intros Hi. rewrite get_Branch, Nat2Z.id. by rewrite Hi. Qed.

(** Every nonempty resolved trie stores something. *)
Lemma some_key n :
  wf n -> resolved n -> ~ is_null n -> exists k v, Nibs k /\ get_internal n k = Ok (Some v).
Proof.
  induction 1 as [|p v cache Hp|p child cache Hp Hne Hch IH Hbd|cs cache Hlen H2 Hch IH Hnn|];
    intros Hr Hn.
  - by destruct Hn.
  - exists p, v. split; [done|]. rewrite get_Leaf by done. by rewrite decide_True.
  - destruct IH as (k & v & Hk & Hg); eauto using resolved_Extension_inv, branch_or_digest_nonnull.
    exists (p ++ k), v. rewrite get_Extension_app by done. split; [by apply Forall_app|done].
  - destruct H2 as (i & j & ci & cj & Hij & Hi & Hj).
    destruct (IH i ci Hi) as (k & v & Hk & Hg); eauto using resolved_Branch_inv.
    exists (Z.of_nat i :: k), v. rewrite (get_child _ _ _ ci) by done.
    split; [|done]. constructor; eauto using child_key_nib.
  - inversion Hr.
Qed.

(** A branch stores two keys that differ in their first nibble. *)
Lemma branch_keys cs cache :
  wf (mkNode (Branch cs) cache) -> resolved (mkNode (Branch cs) cache) ->
  exists x y kx ky vx vy, x <> y /\ Nibs (x :: kx) /\ Nibs (y :: ky) /\
    get_internal (mkNode (Branch cs) cache) (x :: kx) = Ok (Some vx) /\
    get_internal (mkNode (Branch cs) cache) (y :: ky) = Ok (Some vy).
Proof.
  intros Hwf Hr. inversion Hwf as [| | |?? Hlen (i & j & ci & cj & Hij & Hi & Hj) Hch Hnn|]; subst.
  destruct (some_key ci) as (kx & vx & Hkx & Hgx); eauto using resolved_Branch_inv.
  destruct (some_key cj) as (ky & vy & Hky & Hgy); eauto using resolved_Branch_inv.
  exists (Z.of_nat i), (Z.of_nat j), kx, ky, vx, vy.
  rewrite (get_child _ _ i ci), (get_child _ _ j cj) by done.
  split_and!; try done; [lia|constructor; eauto using child_key_nib..].
Qed.

(** A branch or an extension stores two keys below a common path [p], empty
    for a branch, nonempty for an extension. *)
Definition forks (n : MptNode) (p : list Z) : Prop :=
  exists x y kx ky vx vy, x <> y /\ Nibs (p ++ x :: kx) /\ Nibs (p ++ y :: ky) /\
    get_internal n (p ++ x :: kx) = Ok (Some vx) /\ get_internal n (p ++ y :: ky) = Ok (Some vy).

Lemma forks_Branch cs cache :
  wf (mkNode (Branch cs) cache) -> resolved (mkNode (Branch cs) cache) ->
  forks (mkNode (Branch cs) cache) [].
Proof. apply branch_keys. Qed.

Lemma forks_Extension p child cache :
  wf (mkNode (Extension (to_encoded_path p false) child) cache) ->
  resolved (mkNode (Extension (to_encoded_path p false) child) cache) -> Nibs p ->
  forks (mkNode (Extension (to_encoded_path p false) child) cache) p.
Proof.
  intros Hwf Hr%resolved_Extension_inv Hp.
  apply wf_Extension_inv in Hwf as (_ & Hch & Hbd); [|done].
  destruct child as [[|cs| | |] cc]; try discriminate; [|by inversion Hr].
  destruct (branch_keys cs cc Hch Hr) as (x & y & kx & ky & vx & vy & Hxy & Hx & Hy & Hgx & Hgy).
  exists x, y, kx, ky, vx, vy. rewrite !get_Extension_app by done. rewrite !Forall_app. done.
Qed.

(** All keys of an extension carry its path. *)
Lemma extension_key p child cache k v :
  Nibs p ->
  get_internal (mkNode (Extension (to_encoded_path p false) child) cache) k = Ok (Some v) ->
  p `prefix_of` k.
Proof.
  intros Hp. rewrite get_Extension by done.
  destruct (strip_prefix p k) as [tl|] eqn:E; [|done]. apply strip_prefix_Some in E. by exists tl.
Qed.

Lemma leaf_key p v cache k w :
  Nibs p -> get_internal (mkNode (Leaf (to_encoded_path p true) v) cache) k = Ok (Some w) -> k = p.
Proof. intros Hp. rewrite get_Leaf by done. case_decide; congruence. Qed.

Lemma prefix_of_fork p q x y (kx ky : list Z) :
  x <> y -> q `prefix_of` p ++ x :: kx -> q `prefix_of` p ++ y :: ky -> q `prefix_of` p.
Proof.
  intros Hxy. revert q. induction p as [|z p IH]; intros q Hx Hy; cbn in *.
  - destruct q as [|w q]; [done|]. apply prefix_cons_inv_1 in Hx, Hy. congruence.
  - destruct q as [|w q]; [apply prefix_nil|].
    apply prefix_cons_inv_1 in Hx as E. subst w. apply prefix_cons_inv_2 in Hx, Hy.
    apply prefix_cons. auto.
Qed.

Definition same_lookups (n1 n2 : MptNode) : Prop :=
  forall k, Nibs k -> get_internal n1 k = get_internal n2 k.

Lemma same_forks n1 n2 p : same_lookups n1 n2 -> forks n1 p -> forks n2 p.
Proof.
  intros H (x & y & kx & ky & vx & vy & Hxy & Hx & Hy & Hgx & Hgy).
  exists x, y, kx, ky, vx, vy. rewrite <- !H by done. done.
Qed.

Lemma forks_not_leaf p v cache q :
  Nibs p -> ~ forks (mkNode (Leaf (to_encoded_path p true) v) cache) q.
Proof.
  intros Hp (x & y & kx & ky & vx & vy & Hxy & _ & _ & Hx%leaf_key & Hy%leaf_key); [|done..].
  rewrite <- Hy in Hx. apply app_inv_head in Hx. congruence.
Qed.

Lemma forks_not_null n q : is_null n -> ~ forks n q.
Proof.
  intros Hn (x & y & kx & ky & vx & vy & _ & _ & _ & Hx & _). by rewrite get_null in Hx.
Qed.

(** The path of an extension is the longest one all its keys share. *)
Lemma forks_extension_prefix p child cache q :
  Nibs p -> forks (mkNode (Extension (to_encoded_path p false) child) cache) q -> p `prefix_of` q.
Proof.
  intros Hp (x & y & kx & ky & vx & vy & Hxy & _ & _ & Hx%extension_key & Hy%extension_key);
    [|done..]. eapply prefix_of_fork; eauto.
Qed.

Lemma prefix_antisym (p q : list Z) : p `prefix_of` q -> q `prefix_of` p -> p = q.
Proof.
  intros [a ->] [b E]. rewrite <- app_assoc in E. symmetry in E.
  rewrite <- (app_nil_r p) in E at 2. apply app_inv_head, app_eq_nil in E as [-> _].
  by rewrite app_nil_r.
Qed.

(** A path is the path of an extension when the extension forks there. *)
Lemma same_extension_path p q c d cc dc :
  Nibs p -> Nibs q ->
  wf (mkNode (Extension (to_encoded_path p false) c) cc) ->
  resolved (mkNode (Extension (to_encoded_path p false) c) cc) ->
  wf (mkNode (Extension (to_encoded_path q false) d) dc) ->
  resolved (mkNode (Extension (to_encoded_path q false) d) dc) ->
  same_lookups (mkNode (Extension (to_encoded_path p false) c) cc)
    (mkNode (Extension (to_encoded_path q false) d) dc) -> p = q.
Proof.
  intros Hp Hq Hw1 Hr1 Hw2 Hr2 Hs.
  pose proof (forks_Extension _ _ _ Hw1 Hr1 Hp) as F1.
  pose proof (forks_Extension _ _ _ Hw2 Hr2 Hq) as F2.
  apply prefix_antisym.
  - eapply forks_extension_prefix, same_forks; [done| |exact F2]. intros k Hk. by rewrite Hs.
  - eapply forks_extension_prefix, same_forks; [done|exact Hs|exact F1].
Qed.

Lemma erase_children cs ds :
  length cs = length ds ->
  (forall i, (i < length cs)%nat ->
    match cs !! i, ds !! i with
    | Some (Some c), Some (Some d) => erase c = erase d
    | Some None, Some None => True
    | _, _ => False
    end) ->
  option_map erase <$> cs = option_map erase <$> ds.
Proof.
  intros Hl H. apply list_eq. intros i. rewrite !list_lookup_fmap.
  destruct (decide (i < length cs)%nat) as [Hi|Hi].
  - specialize (H i Hi). destruct (cs !! i) as [[c|]|], (ds !! i) as [[d|]|]; try done.
    cbn. by rewrite H.
  - rewrite !(proj2 (lookup_ge_None _ _)) by lia. done.
Qed.

Lemma same_lookups_child cs ds cc dc i c :
  length cs = 16%nat -> length ds = 16%nat ->
  same_lookups (mkNode (Branch cs) cc) (mkNode (Branch ds) dc) ->
  (i < 16)%nat -> child_at cs i c -> wf c -> resolved c -> ~ is_null c ->
  exists d, child_at ds i d /\ same_lookups c d.
Proof.
  intros Hlc Hld Hs Hi Hc Hw Hr Hn.
  assert (Hnib : is_nib (Z.of_nat i)) by (unfold is_nib; lia).
  assert (Hlook : forall k, Nibs k -> get_internal c k =
     get_internal (mkNode (Branch ds) dc) (Z.of_nat i :: k)).
  { intros k Hk. rewrite <- Hs by by constructor. symmetry. by apply get_child. }
  destruct (some_key c Hw Hr Hn) as (k & v & Hk & Hg).
  rewrite Hlook in Hg by done. rewrite get_Branch, Nat2Z.id in Hg.
  destruct (ds !! i) as [[d|]|] eqn:Ed; try discriminate.
  exists d. split; [done|]. intros k' Hk'. rewrite Hlook by done. by apply get_child.
Qed.

Lemma same_lookups_sym n1 n2 : same_lookups n1 n2 -> same_lookups n2 n1.
Proof. intros H k Hk. symmetry. by apply H. Qed.

(** Case analysis on a resolved well-formed trie. *)
Lemma resolved_cases (P : MptNode -> Prop) n :
  wf n -> resolved n ->
  (forall c, P (mkNode Null c)) ->
  (forall p v c, Nibs p -> P (mkNode (Leaf (to_encoded_path p true) v) c)) ->
  (forall p ch c, Nibs p -> P (mkNode (Extension (to_encoded_path p false) ch) c)) ->
  (forall cs c, P (mkNode (Branch cs) c)) -> P n.
Proof. intros [] Hr ????; eauto. inversion Hr. Qed.

Lemma canonical_Null c1 n2 :
  wf n2 -> resolved n2 -> same_lookups (mkNode Null c1) n2 -> mkNode Null c1 ≡ n2.
Proof.
  intros Hw Hr Hs. pose proof (is_empty_spec n2) as He. destruct (is_empty n2).
  - destruct n2 as [d c2]. unfold is_null in He. cbn in He. by subst d.
  - destruct (some_key n2 Hw Hr He) as (k & v & Hk & Hg). by rewrite <- Hs in Hg by done.
Qed.

Lemma canonical_Leaf p v c1 n2 :
  Nibs p -> wf n2 -> resolved n2 ->
  same_lookups (mkNode (Leaf (to_encoded_path p true) v) c1) n2 ->
  mkNode (Leaf (to_encoded_path p true) v) c1 ≡ n2.
Proof.
  intros Hp Hw Hr. generalize Hw Hr.
  apply (resolved_cases (fun n2 => wf n2 -> resolved n2 -> _ -> _ ≡ n2) n2 Hw Hr); clear n2 Hw Hr.
  - intros c2 _ _ Hs. specialize (Hs p Hp). by rewrite get_Leaf, decide_True in Hs by done.
  - intros q w c2 Hq _ _ Hs. specialize (Hs p Hp). rewrite !get_Leaf, decide_True in Hs by done.
    case_decide; [|done]. injection Hs as ->. by subst.
  - intros q ch c2 Hq Hw Hr Hs%same_lookups_sym. exfalso.
    eapply (forks_not_leaf p v c1 q Hp), same_forks; [exact Hs|by apply forks_Extension].
  - intros cs c2 Hw Hr Hs%same_lookups_sym. exfalso.
    eapply (forks_not_leaf p v c1 [] Hp), same_forks; [exact Hs|by apply forks_Branch].
Qed.

Lemma extension_not_branch p ch c1 cs c2 :
  Nibs p -> p <> [] -> wf (mkNode (Branch cs) c2) -> resolved (mkNode (Branch cs) c2) ->
  ~ same_lookups (mkNode (Branch cs) c2) (mkNode (Extension (to_encoded_path p false) ch) c1).
Proof.
  intros Hp Hne Hw Hr Hs. pose proof (same_forks _ _ _ Hs (forks_Branch _ _ Hw Hr)) as F.
  apply forks_extension_prefix in F; [|done]. by apply prefix_nil_inv in F.
Qed.

Lemma canonical_Extension p ch c1 n2 :
  Nibs p -> wf (mkNode (Extension (to_encoded_path p false) ch) c1) -> resolved ch ->
  (forall m, wf m -> resolved m -> same_lookups ch m -> ch ≡ m) ->
  wf n2 -> resolved n2 ->
  same_lookups (mkNode (Extension (to_encoded_path p false) ch) c1) n2 ->
  mkNode (Extension (to_encoded_path p false) ch) c1 ≡ n2.
Proof.
  intros Hp Hw1 Hrc IH Hw Hr Hs.
  assert (Hr1 : resolved (mkNode (Extension (to_encoded_path p false) ch) c1)) by by constructor.
  pose proof (same_forks _ _ _ Hs (forks_Extension _ _ _ Hw1 Hr1 Hp)) as F.
  apply wf_Extension_inv in Hw1 as Hi; [|done]. destruct Hi as (Hne & _ & _).
  revert Hw Hr Hs F. 
  destruct n2 as [[|cs|pp v|pp ch2|d] c2]; intros Hw Hr Hs F.
  - by apply forks_not_null in F.
  - by apply same_lookups_sym, extension_not_branch in Hs.
  - inversion Hw; subst. by apply forks_not_leaf in F.
  - inversion Hw as [| |q ch' ? Hq Hne2 Hch2 Hbd2| |]; subst.
    assert (p = q) as <- by (eapply same_extension_path; eauto).
    unfold equiv, MptNode_equiv. cbn [erase]. do 2 f_equal.
    apply IH; eauto using resolved_Extension_inv. intros k Hk.
    rewrite <- (get_Extension_app p ch c1), Hs by (try apply Forall_app; done).
    by rewrite get_Extension_app.
  - by inversion Hr.
Qed.

Lemma canonical_children cs c1 ds c2 :
  wf (mkNode (Branch cs) c1) -> resolved (mkNode (Branch cs) c1) ->
  wf (mkNode (Branch ds) c2) -> resolved (mkNode (Branch ds) c2) ->
  (forall i c m, child_at cs i c -> wf m -> resolved m -> same_lookups c m -> c ≡ m) ->
  same_lookups (mkNode (Branch cs) c1) (mkNode (Branch ds) c2) ->
  mkNode (Branch cs) c1 ≡ mkNode (Branch ds) c2.
Proof.
  intros Hw1 Hr1 Hw2 Hr2 IH Hs.
  apply wf_Branch_inv in Hw1 as (Hlen & _ & Hch & Hnn).
  apply wf_Branch_inv in Hw2 as (Hlen2 & _ & Hch2 & Hnn2).
  unfold equiv, MptNode_equiv. cbn [erase]. do 2 f_equal. apply erase_children; [congruence|].
  intros i Hi. rewrite Hlen in Hi.
  destruct (cs !! i) as [[c|]|] eqn:Ec.
  - destruct (same_lookups_child cs ds c1 c2 i c) as (d & Ed & Hcd);
      eauto using resolved_Branch_inv.
    rewrite Ed. eapply IH; eauto using resolved_Branch_inv.
  - destruct (ds !! i) as [[d|]|] eqn:Ed; [|done|].
    + apply same_lookups_sym in Hs.
      destruct (same_lookups_child ds cs c2 c1 i d) as (c & Ec' & _);
        eauto using resolved_Branch_inv.
      unfold child_at in Ec'. congruence.
    + apply lookup_ge_None in Ed. lia.
  - apply lookup_ge_None in Ec. lia.
Qed.

Lemma canonical_Branch cs c1 n2 :
  wf (mkNode (Branch cs) c1) -> resolved (mkNode (Branch cs) c1) ->
  (forall i c m, child_at cs i c -> wf m -> resolved m -> same_lookups c m -> c ≡ m) ->
  wf n2 -> resolved n2 -> same_lookups (mkNode (Branch cs) c1) n2 ->
  mkNode (Branch cs) c1 ≡ n2.
Proof.
  intros Hw1 Hr1 IH Hw Hr Hs.
  pose proof (same_forks _ _ _ Hs (forks_Branch _ _ Hw1 Hr1)) as F.
  revert Hw Hr Hs F. destruct n2 as [[|ds|pp v|pp ch2|d] c2]; intros Hw Hr Hs F.
  - by apply forks_not_null in F.
  - by apply canonical_children.
  - inversion Hw; subst. by apply forks_not_leaf in F.
  - inversion Hw; subst. by apply extension_not_branch in Hs.
  - by inversion Hr.
Qed.

(** Two resolved well-formed tries with the same lookups are equal up to
    their caches. *)
Lemma canonical n1 n2 :
  wf n1 -> resolved n1 -> wf n2 -> resolved n2 -> same_lookups n1 n2 -> n1 ≡ n2.
Proof.
  intros H. revert n2. induction H; intros n2 Hr1 Hw2 Hr2 Hs.
  - by apply canonical_Null.
  - by apply canonical_Leaf.
  - apply canonical_Extension; eauto using wf, resolved_Extension_inv.
  - apply canonical_Branch; eauto using wf, resolved_Branch_inv.
  - inversion Hr1.
Qed.

(** A trie on which every lookup succeeds has no unresolved part. *)
Lemma resolved_of_lookups n :
  wf n -> (forall k, Nibs k -> exists o, get_internal n k = Ok o) -> resolved n.
Proof.
  induction 1 as [|p v cache Hp|p child cache Hp Hne Hch IH Hbd|cs cache Hlen H2 Hch IH Hnn|];
    intros Hg; try by constructor.
  - constructor. apply IH. intros k Hk. rewrite <- (get_Extension_app p child cache) by done.
    apply Hg. by apply Forall_app.
  - constructor. intros i c Hi. apply (IH i c Hi). intros k Hk.
    rewrite <- (get_child cs cache i) by done. apply Hg. constructor; eauto using child_key_nib.
  - destruct (Hg []) as [o [=]]. constructor.
Qed.

(** ** Keys of nibbles and keys of bytes *)

(** Every nibble key of even length is the expansion of a byte key. *)
Lemma to_nibs_surj n k :
  Nibs k -> length k = (2 * n)%nat -> exists key, Bytes key /\ length key = n /\ to_nibs key = k.
Proof.
  intros Hk Hl. exists (pack_pairs k).
  assert (E : to_nibs (pack_pairs k) = k).
  { apply to_nibs_pack_pairs; [done|]. rewrite Hl. apply Nat.odd_even. }
  split_and!; [apply pack_pairs_bytes| |done].
  apply (f_equal length) in E. rewrite length_to_nibs in E. lia.
Qed.

(** On a trie of uniform depth, keys of any other length are absent. *)
Lemma depth_ok_other_length L n k :
  wf n -> resolved n -> depth_ok L n -> Nibs k -> length k <> L -> get_internal n k = Ok None.
Proof.
  intros Hwf Hr Hd. revert k Hwf Hr.
  induction Hd as [L cache|p v cache Hp|p L child cache Hp Hd IH|L cs cache Hcs IH|L d cache];
    intros k Hwf Hr Hk Hl.
  - done.
  - rewrite get_Leaf by done. case_decide; congruence.
  - rewrite get_Extension by done. destruct (strip_prefix p k) as [tl|] eqn:E; [|done].
    apply strip_prefix_Some in E as ->. rewrite length_app in Hl.
    apply wf_Extension_inv in Hwf as (_ & ? & _); [|done].
    apply Forall_app in Hk as [_ ?]. apply IH; eauto using resolved_Extension_inv.
  - destruct k as [|i k]; [done|]. inversion_clear Hk as [|?? Hi Hk'].
    apply wf_Branch_inv in Hwf as (Hlen & _ & Hch & _). rewrite get_Branch.
    destruct (cs !! Z.to_nat i) as [[c|]|] eqn:Ec; [|done|].
    + apply (IH _ c Ec); eauto using resolved_Branch_inv. cbn in Hl. lia.
    + apply lookup_ge_None in Ec. unfold is_nib in Hi. lia.
  - inversion Hr.
Qed.

Lemma resolved_lookups n k :
  wf n -> resolved n -> Nibs k -> exists o, get_internal n k = Ok o.
Proof.
  intros H. revert k. induction H as [|p v cache Hp|p child cache Hp Hne Hch IH Hbd
    |cs cache Hlen H2 Hch IH Hnn|]; intros k Hr Hk.
  - by eexists.
  - rewrite get_Leaf by done. case_decide; eauto.
  - rewrite get_Extension by done. destruct (strip_prefix p k) as [tl|] eqn:E; [|eauto].
    apply strip_prefix_Some in E as ->. apply Forall_app in Hk as [_ ?].
    eauto using resolved_Extension_inv.
  - destruct k as [|i k]; [by eexists|]. inversion_clear Hk as [|?? Hi Hk']. rewrite get_Branch.
    destruct (cs !! Z.to_nat i) as [[c|]|] eqn:Ec; [|by eexists|].
    + apply (IH _ c Ec); eauto using resolved_Branch_inv.
    + apply lookup_ge_None in Ec. unfold is_nib in Hi. lia.
  - inversion Hr.
Qed.

(** ** The representation relation *)

Section Repr.
Context {n : nat}.
Implicit Types (t : MptNode) (m : gmap (list Z) (list Z)).

Lemma repr_default : repr n default_node ∅.
Proof. split; [by constructor..| |done]. intros key. rewrite lookup_empty. by intros [? [=]]. Qed.

Lemma key_nibs (key : list Z) : Bytes key -> length key = n -> length (to_nibs key) = (2 * n)%nat.
Proof. intros _ <-. apply length_to_nibs. Qed.

Lemma repr_insert t m key v :
  repr n t m -> op_ok n (OpInsert key v) ->
  exists changed t', insert t key v = Ok (changed, t') /\ repr n t' (<[key := v]> m) /\
    (changed = false <-> m !! key = Some v).
Proof.
  intros [Hwf Hr Hd Hdom Hget] (Hb & Hl & Hv). unfold insert. rewrite decide_False by done.
  destruct (insert_internal_total (2 * n) t (to_nibs key) v) as [(d & E & _)|(c & t' & E & Hpost)];
    eauto using to_nibs_nibs, key_nibs.
  { unfold get in Hget. by rewrite Hget in E by done. }
  exists c, t'. rewrite E. split; [done|]. destruct Hpost as [Hwf' Hnn Hbind Hflag _]. split.
  - split; [done| | | |].
    + apply resolved_of_lookups; [done|]. intros k Hk. rewrite Hbind by done.
      case_decide; eauto using resolved_lookups.
    + apply (insert_internal_depth _ t (to_nibs key) v c); auto using to_nibs_nibs, key_nibs.
    + intros key'. rewrite lookup_insert. case_decide; [naive_solver|apply Hdom].
    + intros key' Hb' Hl'. unfold get. rewrite Hbind by auto using to_nibs_nibs.
      rewrite lookup_insert. case_decide as Hk; case_decide as Hk'; subst; try congruence.
      { apply to_nibs_inj in Hk; congruence. }
      exact (Hget key' Hb' Hl').
  - rewrite Hflag. specialize (Hget key Hb Hl). unfold get in Hget. rewrite Hget. split; congruence.
Qed.

Lemma repr_delete t m key :
  repr n t m -> op_ok n (OpDelete key) ->
  exists removed t', delete t key = Ok (removed, t') /\ repr n t' (base.delete key m) /\
    (removed = true <-> is_Some (m !! key)).
Proof.
  intros [Hwf Hr Hd Hdom Hget] (Hb & Hl). unfold delete.
  destruct (delete_internal_total (2 * n) t (to_nibs key)) as [(d & E & _)|(c & t' & E & Hpost)];
    eauto using to_nibs_nibs, key_nibs.
  { unfold get in Hget. by rewrite Hget in E by done. }
  exists c, t'. rewrite E. split; [done|]. destruct Hpost as [Hwf' Hub Hflag _ Hdep]. split.
  - split; [done| |by apply Hdep| |].
    + apply resolved_of_lookups; [done|]. intros k Hk. rewrite Hub by done.
      case_decide; eauto using resolved_lookups.
    + intros key' [w Hw]. apply lookup_delete_Some in Hw as [_ Hw]. eauto.
    + intros key' Hb' Hl'. unfold get. rewrite Hub by auto using to_nibs_nibs.
      rewrite lookup_delete. case_decide as Hk; case_decide as Hk'; subst; try congruence.
      { apply to_nibs_inj in Hk; congruence. }
      exact (Hget key' Hb' Hl').
  - rewrite Hflag. specialize (Hget key Hb Hl). unfold get in Hget. rewrite Hget.
    split; [intros [w [= ->]]; eauto|intros [w ->]; eauto].
Qed.

Lemma repr_op t m op :
  repr n t m -> op_ok n op -> exists t', run_op t op = Ok t' /\ repr n t' (map_op m op).
Proof.
  intros Hr Hop. destruct op as [key v|key]; cbn [run_op map_op].
  - destruct (repr_insert t m key v Hr Hop) as (c & t' & -> & ? & _). by exists t'.
  - destruct (repr_delete t m key Hr Hop) as (c & t' & -> & ? & _). by exists t'.
Qed.

Lemma repr_ops ops t m :
  repr n t m -> Forall (op_ok n) ops ->
  exists t', run_ops ops t = Ok t' /\ repr n t' (map_ops ops m).
Proof.
  intros Hr Hops. revert t m Hr. induction Hops as [|op ops Hop _ IH]; intros t m Hr; [by eexists|].
  destruct (repr_op t m op Hr Hop) as (t' & E & Hr'). cbn [run_ops]. rewrite E. cbn.
  apply IH. done.
Qed.

(** Two tries that represent the same map are equal up to caches. *)
Lemma repr_inj t1 t2 m : repr n t1 m -> repr n t2 m -> t1 ≡ t2.
Proof.
  intros [Hw1 Hr1 Hd1 _ Hg1] [Hw2 Hr2 Hd2 _ Hg2]. apply canonical; auto. intros k Hk.
  destruct (decide (length k = (2 * n)%nat)) as [Hl|Hl].
  - destruct (to_nibs_surj n k Hk Hl) as (key & Hb & Hlk & <-).
    unfold get in *. rewrite Hg1, Hg2; done.
  - by rewrite !(depth_ok_other_length (2 * n)).
Qed.
End Repr.

(** ** The theorems *)

(** C1: from the empty trie, any sequence of insertions (of nonempty values)
    and deletions at [n]-byte keys succeeds, without error or panic, and the
    trie it leaves answers every lookup as the finite map the same sequence
    produces. *)
Theorem trie_refines_map n ops :
  Forall (op_ok n) ops ->
  exists t, run_ops ops default_node = Ok t /\
    (forall key, Bytes key -> length key = n -> get t key = Ok (map_ops ops ∅ !! key)) /\
    wf t /\ resolved t.
Proof.
  intros Hops. destruct (repr_ops ops default_node ∅ repr_default Hops) as (t & E & Hr).
  exists t. split; [done|]. split; [apply Hr|]. split; apply Hr.
Qed.

(** C5: the trie is a function of its contents: two histories of insertions
    and deletions that end in the same map leave the same nodes, caches
    apart. *)
Theorem trie_canonical n ops1 ops2 t1 t2 :
  Forall (op_ok n) ops1 -> Forall (op_ok n) ops2 ->
  map_ops ops1 ∅ = map_ops ops2 ∅ ->
  run_ops ops1 default_node = Ok t1 -> run_ops ops2 default_node = Ok t2 ->
  t1 ≡ t2.
Proof.
  intros H1 H2 E E1 E2.
  destruct (repr_ops ops1 default_node ∅ repr_default H1) as (t1' & E1' & Hr1).
  destruct (repr_ops ops2 default_node ∅ repr_default H2) as (t2' & E2' & Hr2).
  rewrite E1 in E1'. rewrite E2 in E2'. injection E1' as <-. injection E2' as <-.
  rewrite <- E in Hr2. by eapply repr_inj.
Qed.

(** ** The theorems at concrete tries *)

Definition sample_ops1 : list mpt_op :=
  [OpInsert [1; 35] [7]; OpInsert [1; 36] [8]; OpInsert [2; 0] [9]; OpDelete [1; 36]].
Definition sample_ops2 : list mpt_op :=
  [OpInsert [2; 0] [9]; OpInsert [1; 35] [6]; OpInsert [1; 35] [7]; OpDelete [9; 9]].

Lemma sample_ops1_ok : Forall (op_ok 2) sample_ops1.
Proof. apply (bool_decide_unpack _). by vm_compute. Qed.
Lemma sample_ops2_ok : Forall (op_ok 2) sample_ops2.
Proof. apply (bool_decide_unpack _). by vm_compute. Qed.

Lemma trie_refines_map_witness :
  exists t, run_ops sample_ops1 default_node = Ok t /\
    (forall key, Bytes key -> length key = 2%nat -> get t key = Ok (map_ops sample_ops1 ∅ !! key)) /\
    wf t /\ resolved t.
Proof. apply (trie_refines_map 2 sample_ops1), sample_ops1_ok. Defined.

Lemma trie_canonical_witness :
  exists t1 t2, run_ops sample_ops1 default_node = Ok t1 /\
    run_ops sample_ops2 default_node = Ok t2 /\ t1 ≡ t2.
Proof.
  eexists _, _. split; [vm_compute; reflexivity|]. split; [vm_compute; reflexivity|].
  apply (trie_canonical 2 sample_ops1 sample_ops2);
    [apply sample_ops1_ok|apply sample_ops2_ok|vm_compute; reflexivity..].
Defined.

(** ** Caches do not matter to the structure

    Equality up to caches ([≡], the source's [PartialEq for MptNode])
    preserves lookups and every invariant of the trie, so an operation that
    only fills caches can be interposed anywhere. *)

(** Induction on a node with hypotheses for its children. *)
Section NodeInd.
Context (P : MptNode -> Prop).
Context (HNull : forall cache, P (mkNode Null cache))
  (HBranch : forall cs cache, (forall i c, child_at cs i c -> P c) -> P (mkNode (Branch cs) cache))
  (HLeaf : forall p v cache, P (mkNode (Leaf p v) cache))
  (HExt : forall p c cache, P c -> P (mkNode (Extension p c) cache))
  (HDigest : forall d cache, P (mkNode (Digest d) cache)).

Fixpoint node_ind (n : MptNode) : P n.
Proof.
  destruct n as [[|cs|p v|p c|d] cache].
  - apply HNull.
  - apply HBranch. revert cs. fix IH 1. intros [|o cs] i c Hi.
    + discriminate Hi.
    + destruct i as [|i].
      * destruct o as [c'|]; [|discriminate Hi]. injection Hi as <-. apply node_ind.
      * exact (IH cs i c Hi).
  - apply HLeaf.
  - apply HExt, node_ind.
  - apply HDigest.
Qed.
End NodeInd.

(** Parallel inversion of [n ≡ m]. *)
Lemma equiv_Branch cs cache m :
  mkNode (Branch cs) cache ≡ m ->
  exists ds cache', m = mkNode (Branch ds) cache' /\ length ds = length cs /\
    (forall i c, child_at cs i c -> exists d, child_at ds i d /\ c ≡ d) /\
    (forall i d, child_at ds i d -> exists c, child_at cs i c /\ c ≡ d) /\
    (forall i, cs !! i = Some None -> ds !! i = Some None).
Proof.
  unfold equiv, MptNode_equiv. destruct m as [[|ds|q w|q e|f] cm]; cbn [erase]; try discriminate.
  unfold from_data. intros [= E]. exists ds, cm. split; [done|].
  assert (L : forall i, option_map erase <$> cs !! i = option_map erase <$> ds !! i).
  { intros i. rewrite <- !list_lookup_fmap. by rewrite E. }
  split; [|split_and!].
  - apply (f_equal length) in E. rewrite !length_fmap in E. done.
  - intros i c Hc. specialize (L i). unfold child_at in *. rewrite Hc in L.
    destruct (ds !! i) as [[d|]|]; cbn in L; try discriminate. injection L as L. eauto.
  - intros i d Hd. specialize (L i). unfold child_at in *. rewrite Hd in L.
    destruct (cs !! i) as [[c|]|]; cbn in L; try discriminate. injection L as L. eauto.
  - intros i Hi. specialize (L i). rewrite Hi in L.
    destruct (ds !! i) as [[d|]|]; cbn in L; try discriminate. done.
Qed.

Lemma equiv_Extension p c cache m :
  mkNode (Extension p c) cache ≡ m ->
  exists d cache', m = mkNode (Extension p d) cache' /\ c ≡ d.
Proof.
  unfold equiv, MptNode_equiv. destruct m as [[|ds|q w|q e|f] cm]; cbn [erase]; try discriminate.
  intros [= <- E]. eauto.
Qed.

Lemma equiv_Leaf p v cache m :
  mkNode (Leaf p v) cache ≡ m -> exists cache', m = mkNode (Leaf p v) cache'.
Proof.
  unfold equiv, MptNode_equiv. destruct m as [[|ds|q w|q e|f] cm]; cbn [erase]; try discriminate.
  intros [= <- <-]. eauto.
Qed.

Lemma equiv_Null cache m : mkNode Null cache ≡ m -> exists cache', m = mkNode Null cache'.
Proof.
  unfold equiv, MptNode_equiv. destruct m as [[|ds|q w|q e|f] cm]; cbn [erase]; try discriminate.
  eauto.
Qed.

Lemma equiv_Digest d cache m :
  mkNode (Digest d) cache ≡ m -> exists cache', m = mkNode (Digest d) cache'.
Proof.
  unfold equiv, MptNode_equiv. destruct m as [[|ds|q w|q e|f] cm]; cbn [erase]; try discriminate.
  intros [= <-]. eauto.
Qed.

(** The data constructor survives, so the shape tests do. *)
#[export] Instance is_branch_or_digest_proper : Proper ((≡) ==> (=)) is_branch_or_digest.
Proof.
  intros [d1 c1] [d2 c2] E. unfold equiv, MptNode_equiv in E.
  by destruct d1, d2; cbn [erase] in E.
Qed.

#[export] Instance is_null_proper : Proper ((≡) ==> iff) is_null.
Proof.
  intros [d1 c1] [d2 c2] E. unfold equiv, MptNode_equiv, is_null in *.
  by destruct d1, d2; cbn [erase] in E.
Qed.

(** Lookups. *)
Lemma get_equiv n m k : n ≡ m -> get_internal n k = get_internal m k.
Proof.
  revert m k. induction n as [cache|cs cache IH|p v cache|p c cache IH|d cache] using node_ind;
    intros m k E.
  - by apply equiv_Null in E as [? ->].
  - apply equiv_Branch in E as (ds & c' & -> & Hlen & H1 & H2 & H3).
    destruct k as [|i k]; [done|]. rewrite !get_Branch.
    destruct (cs !! Z.to_nat i) as [[c|]|] eqn:Ec.
    + destruct (H1 _ _ Ec) as (d & Ed & Hcd). rewrite Ed. by apply (IH _ _ Ec).
    + by rewrite H3.
    + apply lookup_ge_None in Ec. rewrite <- Hlen in Ec. apply lookup_ge_None in Ec. by rewrite Ec.
  - by apply equiv_Leaf in E as [? ->].
  - apply equiv_Extension in E as (d & ? & -> & E). cbn [get_internal].
    destruct (prefix_nibs p); cbn [unwrap mbind outcome_bind]; [|done].
    case_match; [by apply IH|done].
  - by apply equiv_Digest in E as [? ->].
Qed.

#[export] Instance get_proper : Proper ((≡) ==> (=) ==> (=)) get.
Proof. intros n m E k ? <-. by apply get_equiv. Qed.

(** Invariants. *)
Lemma wf_equiv n m : n ≡ m -> wf n -> wf m.
Proof.
  intros E H. revert m E. induction H as [|p v cache Hp|p child cache Hp Hne Hch IH Hbd
    |cs cache Hlen H2 Hch IH Hnn|d cache]; intros m E.
  - apply equiv_Null in E as [? ->]. constructor.
  - apply equiv_Leaf in E as [? ->]. by constructor.
  - apply equiv_Extension in E as (d & ? & -> & E). constructor; auto. by rewrite <- E.
  - apply equiv_Branch in E as (ds & c' & -> & Hl & H1 & H3 & _). constructor.
    + congruence.
    + destruct H2 as (i & j & ci & cj & Hij & Hi & Hj).
      destruct (H1 _ _ Hi) as (di & ? & _), (H1 _ _ Hj) as (dj & ? & _). by exists i, j, di, dj.
    + intros i d Hd. destruct (H3 _ _ Hd) as (c & Hc & E). eauto.
    + intros i d Hd. destruct (H3 _ _ Hd) as (c & Hc & E). rewrite <- E. eauto.
  - apply equiv_Digest in E as [? ->]. constructor.
Qed.

Lemma resolved_equiv n m : n ≡ m -> resolved n -> resolved m.
Proof.
  intros E H. revert m E. induction H as [| |p child cache Hch IH|cs cache Hch IH]; intros m E.
  - apply equiv_Null in E as [? ->]. constructor.
  - apply equiv_Leaf in E as [? ->]. constructor.
  - apply equiv_Extension in E as (d & ? & -> & E). constructor; auto.
  - apply equiv_Branch in E as (ds & c' & -> & Hl & _ & H3 & _). constructor.
    intros i d Hd. destruct (H3 _ _ Hd) as (c & Hc & E). eauto.
Qed.

Lemma depth_ok_equiv L n m : n ≡ m -> depth_ok L n -> depth_ok L m.
Proof.
  intros E H. revert m E.
  induction H as [L cache|p v cache Hp|p L child cache Hp Hd IH|L cs cache Hcs IH|L d cache];
    intros m E.
  - apply equiv_Null in E as [? ->]. constructor.
  - apply equiv_Leaf in E as [? ->]. by constructor.
  - apply equiv_Extension in E as (d & ? & -> & E). apply depth_Extension; auto.
  - apply equiv_Branch in E as (ds & c' & -> & Hl & _ & H3 & _). constructor.
    intros i d Hd. destruct (H3 _ _ Hd) as (c & Hc & E). eauto.
  - apply equiv_Digest in E as [? ->]. constructor.
Qed.

(** The representation of a map. *)
Lemma repr_equiv n t t' m : t ≡ t' -> repr n t m -> repr n t' m.
Proof.
  intros E [Hw Hr Hd Hdom Hget]. split.
  - by eapply wf_equiv.
  - by eapply resolved_equiv.
  - by eapply depth_ok_equiv.
  - done.
  - intros key Hb Hl. rewrite <- E. auto.
Qed.

#[export] Hint Resolve wf_equiv resolved_equiv depth_ok_equiv repr_equiv : stf.
