(* ===== verification/MptHash.v ===== *)
(** * Node references, the reference cache and the root hash

    [reference] is computed from the node's RLP encoding and memoised in the
    node: every call, [&self] though it is, fills the caches of the node and of
    the nodes below it.  The definitions therefore thread the node.  [ref_of]
    is the same function without any cache; the invariant [cache_ok] says every
    filled cache holds [ref_of] of its node, and [insert] and [delete] keep it
    because they invalidate the caches on the path they rewrite. *)
From S2P Require Import Prelude Nibbles Mpt MptInv MptInsert MptDelete MptMap Rlp.

Definition EMPTY_STRING_CODE : Z := 128.

Section Hash.
Context `{Keccak, AlloyRlp}.

(** [reference_encode] and [reference_length], given the reference. *)
Definition reference_encode (r : MptNodeReference) : list Z :=
  match r with
  | RefBytes bytes => bytes
  | RefDigest digest => (EMPTY_STRING_CODE + 32) :: digest
  end.

Definition reference_length (r : MptNodeReference) : nat :=
  match r with RefBytes bytes => length bytes | RefDigest _ => 1 + 32 end.

(** What the branch encoder writes and counts for one child. *)
Definition child_encode (o : option MptNodeReference) : list Z :=
  match o with Some r => reference_encode r | None => [EMPTY_STRING_CODE] end.
Definition child_length (o : option MptNodeReference) : nat :=
  match o with Some r => reference_length r | None => 1 end.

(** The payload lengths of the three list-shaped nodes. *)
Definition branch_payload_length (refs : list (option MptNodeReference)) : nat :=
  1 + list_sum (child_length <$> refs).
Definition leaf_payload_length (prefix value : list Z) : nat :=
  string_length prefix + string_length value.
Definition extension_payload_length (prefix : list Z) (r : MptNodeReference) : nat :=
  string_length prefix + reference_length r.

(** The encodings of the three list-shaped nodes. *)
Definition encode_branch (refs : list (option MptNodeReference)) : list Z :=
  header_encode true (branch_payload_length refs) ++
  concat (child_encode <$> refs) ++ [EMPTY_STRING_CODE].
Definition encode_leaf (prefix value : list Z) : list Z :=
  header_encode true (leaf_payload_length prefix value) ++
  string_encode prefix ++ string_encode value.
Definition encode_extension (prefix : list Z) (r : MptNodeReference) : list Z :=
  header_encode true (extension_payload_length prefix r) ++
  string_encode prefix ++ reference_encode r.

(** The last step of [calc_reference]. *)
Definition reference_of_encoding (encoded : list Z) : MptNodeReference :=
  if decide (length encoded < 32)%nat then RefBytes encoded else RefDigest (keccak256 encoded).

(** [reference]: the cached reference, computed and stored on a miss. *)
Fixpoint reference (n : MptNode) : MptNodeReference * MptNode :=
  match n with
  | mkNode _ (Some r) => (r, n)
  | mkNode Null None =>
      let r := RefBytes [EMPTY_STRING_CODE] in (r, mkNode Null (Some r))
  | mkNode (Digest d) None => let r := RefDigest d in (r, mkNode (Digest d) (Some r))
  | mkNode (Leaf prefix value) None =>
      let r := reference_of_encoding (encode_leaf prefix value) in
      (r, mkNode (Leaf prefix value) (Some r))
  | mkNode (Branch nodes) None =>
      let visited := (fun o => match o with Some c => Some (reference c) | None => None end)
                       <$> nodes in
      let r := reference_of_encoding (encode_branch (option_map fst <$> visited)) in
      (r, mkNode (Branch (option_map snd <$> visited)) (Some r))
  | mkNode (Extension prefix node) None =>
      let '(rc, node') := reference node in
      let r := reference_of_encoding (encode_extension prefix rc) in
      (r, mkNode (Extension prefix node') (Some r))
  end.

(** One pass over the children of a branch, calling [reference] on each. *)
Definition reference_all (nodes : list (option MptNode))
  : list (option MptNodeReference) * list (option MptNode) :=
  let visited := option_map reference <$> nodes in
  (option_map fst <$> visited, option_map snd <$> visited).

(** [payload_length]. *)
Definition payload_length (n : MptNode) : nat * MptNode :=
  match n with
  | mkNode Null _ => (0%nat, n)
  | mkNode (Branch nodes) cache =>
      let '(refs, nodes') := reference_all nodes in
      (branch_payload_length refs, mkNode (Branch nodes') cache)
  | mkNode (Leaf prefix value) _ => (leaf_payload_length prefix value, n)
  | mkNode (Extension prefix node) cache =>
      let '(r, node') := reference node in
      (extension_payload_length prefix r, mkNode (Extension prefix node') cache)
  | mkNode (Digest _) _ => (32%nat, n)
  end.

(** [Encodable::encode]: the payload length first, which visits the children
    once, then the header, then the children a second time. *)
Definition encode (n : MptNode) : list Z * MptNode :=
  let '(len, n1) := payload_length n in
  match n1 with
  | mkNode Null _ => ([EMPTY_STRING_CODE], n1)
  | mkNode (Branch nodes) cache =>
      let '(refs, nodes') := reference_all nodes in
      (header_encode true len ++ concat (child_encode <$> refs) ++ [EMPTY_STRING_CODE],
       mkNode (Branch nodes') cache)
  | mkNode (Leaf prefix value) _ =>
      (header_encode true len ++ string_encode prefix ++ string_encode value, n1)
  | mkNode (Extension prefix node) cache =>
      let '(r, node') := reference node in
      (header_encode true len ++ string_encode prefix ++ reference_encode r,
       mkNode (Extension prefix node') cache)
  | mkNode (Digest digest) _ => (string_encode digest, n1)
  end.

(** [Encodable::length]. *)
Definition node_length (n : MptNode) : nat :=
  let '(len, _) := payload_length n in len + length_of_length len.

(** [calc_reference]. *)
Definition calc_reference (n : MptNode) : MptNodeReference * MptNode :=
  match n with
  | mkNode Null _ => (RefBytes [EMPTY_STRING_CODE], n)
  | mkNode (Digest d) _ => (RefDigest d, n)
  | _ => let '(encoded, n') := encode n in (reference_of_encoding encoded, n')
  end.

(** [hash]. *)
Definition hash (n : MptNode) : list Z * MptNode :=
  match n with
  | mkNode Null _ => (EMPTY_ROOT, n)
  | _ =>
      let '(r, n') := reference n in
      match r with
      | RefDigest digest => (digest, n')
      | RefBytes bytes => (keccak256 bytes, n')
      end
  end.

(** The reference as a function of the data alone. *)
Fixpoint ref_of (n : MptNode) : MptNodeReference :=
  match n with
  | mkNode Null _ => RefBytes [EMPTY_STRING_CODE]
  | mkNode (Digest d) _ => RefDigest d
  | mkNode (Leaf prefix value) _ => reference_of_encoding (encode_leaf prefix value)
  | mkNode (Branch nodes) _ =>
      reference_of_encoding
        (encode_branch ((fun o => match o with Some c => Some (ref_of c) | None => None end)
                          <$> nodes))
  | mkNode (Extension prefix node) _ =>
      reference_of_encoding (encode_extension prefix (ref_of node))
  end.

Definition hash_of (n : MptNode) : list Z :=
  match as_data n with
  | Null => EMPTY_ROOT
  | _ => match ref_of n with RefDigest d => d | RefBytes b => keccak256 b end
  end.

(** ** The cache invariant *)

Definition child_of (c n : MptNode) : Prop :=
  match as_data n with
  | Branch cs => exists i, child_at cs i c
  | Extension _ d => c = d
  | _ => False
  end.

Inductive cache_ok (n : MptNode) : Prop :=
  | CacheOk :
      (forall r, cached_reference n = Some r -> r = ref_of n) ->
      (forall c, child_of c n -> cache_ok c) -> cache_ok n.

Lemma ref_of_cache_irrel d c1 c2 : ref_of (mkNode d c1) = ref_of (mkNode d c2).
Proof. by destruct d. Qed.

Lemma cache_ok_fresh d cache :
  (forall c, child_of c (mkNode d cache) -> cache_ok c) -> cache_ok (mkNode d None).
Proof. intros Hc. constructor; [done|exact Hc]. Qed.

Lemma cache_ok_child n c : cache_ok n -> child_of c n -> cache_ok c.
Proof. intros [_ Hc]. apply Hc. Qed.

Lemma cache_ok_leaf p v : cache_ok (from_data (Leaf p v)).
Proof. by apply (cache_ok_fresh _ None). Qed.

Lemma cache_ok_null : cache_ok default_node.
Proof. by apply (cache_ok_fresh _ None). Qed.

(** ** [reference] against [ref_of] *)

(** What a memoising call leaves behind. *)
Record memo_post (n : MptNode) (res : MptNodeReference * MptNode) : Prop := {
  memo_ref : res.1 = ref_of n;
  memo_equiv : res.2 ≡ n;
  memo_ok : cache_ok res.2;
  memo_filled : cached_reference res.2 = Some (ref_of n) }.

Lemma visited_refs nodes :
  (forall i c, child_at nodes i c -> cache_ok c) ->
  (forall i c, child_at nodes i c -> memo_post c (reference c)) ->
  reference_all nodes =
    ((fun o => match o with Some c => Some (ref_of c) | None => None end) <$> nodes,
     option_map snd <$> (option_map reference <$> nodes)).
Proof.
  intros Hok IH. unfold reference_all. f_equal. apply list_eq. intros i.
  rewrite !list_lookup_fmap. destruct (nodes !! i) as [[c|]|] eqn:E; [|done..].
  cbn. f_equal. f_equal. apply (IH i c E).
Qed.

Lemma visited_equiv nodes c1 c2 :
  (forall i c, child_at nodes i c -> memo_post c (reference c)) ->
  mkNode (Branch (option_map snd <$> (option_map reference <$> nodes))) c1 ≡
  mkNode (Branch nodes) c2.
Proof.
  intros IH. unfold equiv, MptNode_equiv. cbn [erase]. do 2 f_equal. apply list_eq. intros i.
  rewrite !list_lookup_fmap. destruct (nodes !! i) as [[c|]|] eqn:E; [|done..].
  cbn. f_equal. f_equal. apply (IH i c E).
Qed.

Lemma visited_child nodes i c' :
  child_at (option_map snd <$> (option_map reference <$> nodes)) i c' ->
  exists c, child_at nodes i c /\ c' = (reference c).2.
Proof.
  unfold child_at. rewrite !list_lookup_fmap.
  destruct (nodes !! i) as [[c|]|] eqn:E; cbn; intros E'; try discriminate.
  injection E' as <-. eauto.
Qed.

#[export] Instance ref_of_proper : Proper ((≡) ==> (=)) ref_of.
Proof.
  intros n. induction n as [cache|cs cache IH|p v cache|p c cache IH|d cache] using node_ind;
    intros m E.
  - by apply equiv_Null in E as [? ->].
  - apply equiv_Branch in E as (ds & c' & -> & Hlen & H1 & _ & H3). cbn [ref_of].
    do 2 f_equal. apply list_eq. intros i. rewrite !list_lookup_fmap.
    destruct (cs !! i) as [[c|]|] eqn:Ec.
    + destruct (H1 _ _ Ec) as (d & Ed & Hcd). rewrite Ed. cbn. do 2 f_equal. by apply (IH _ _ Ec).
    + by rewrite H3.
    + apply lookup_ge_None in Ec. rewrite <- Hlen in Ec. apply lookup_ge_None in Ec. by rewrite Ec.
  - by apply equiv_Leaf in E as [? ->].
  - apply equiv_Extension in E as (d & ? & -> & E). cbn [ref_of]. by rewrite (IH _ E).
  - by apply equiv_Digest in E as [? ->].
Qed.

Lemma hash_of_equiv n m : n ≡ m -> hash_of n = hash_of m.
Proof.
  intros E. unfold hash_of. rewrite (ref_of_proper n m E).
  destruct n as [d1 c1], m as [d2 c2]. unfold equiv, MptNode_equiv in E.
  by destruct d1, d2; cbn [erase] in E.
Qed.

Lemma memo_post_filled d cache r :
  cache_ok (mkNode d cache) -> cache = Some r -> memo_post (mkNode d cache) (r, mkNode d cache).
Proof. intros Hok ->. assert (r = ref_of (mkNode d (Some r))) as E by (by apply Hok). by split; rewrite <- ?E. Qed.

Lemma memo_post_computed d d' r :
  r = ref_of (mkNode d None) -> mkNode d' (Some r) ≡ mkNode d None ->
  (forall c, child_of c (mkNode d' None) -> cache_ok c) ->
  memo_post (mkNode d None) (r, mkNode d' (Some r)).
Proof.
  intros Hr E Hc. split; [done|done| |cbn; by rewrite Hr]. constructor; [|exact Hc].
  intros r' [= <-]. rewrite Hr. symmetry. by apply ref_of_proper.
Qed.

Lemma reference_spec n : cache_ok n -> memo_post n (reference n).
Proof.
  induction n as [cache|cs cache IH|p v cache|p c cache IH|d cache] using node_ind; intros Hok;
    destruct cache as [r|]; try (by apply memo_post_filled).
  - by apply memo_post_computed.
  - assert (Hch : forall i c, child_at cs i c -> cache_ok c).
    { intros i c Hc. apply (cache_ok_child _ _ Hok). by exists i. }
    assert (Hm : forall i c, child_at cs i c -> memo_post c (reference c)) by eauto.
    pose proof (visited_refs cs Hch Hm) as [= Hrefs].
    cbn [reference]. apply memo_post_computed.
    + cbn [ref_of]. do 2 f_equal. exact Hrefs.
    + by apply visited_equiv.
    + intros c' [i (c & Hc & ->)%visited_child]. by apply (Hm i).
  - by apply memo_post_computed.
  - destruct (IH (cache_ok_child _ c Hok eq_refl)) as [Hr E Hc Hf]. cbn [reference].
    destruct (reference c) as [rc c'] eqn:Ec. cbn in *. subst rc. apply memo_post_computed.
    + done.
    + unfold equiv, MptNode_equiv. cbn [erase]. by rewrite E.
    + by intros ? ->.
  - by apply memo_post_computed.
Qed.

(** A second call is a cache hit. *)
Lemma reference_again n : cache_ok n -> reference (reference n).2 = reference n.
Proof.
  intros Hok. destruct (reference_spec n Hok) as [Hr _ _ Hf].
  destruct (reference n) as [r [d c]] eqn:E. cbn in *. subst c r. by destruct d.
Qed.

Lemma reference_all_again nodes :
  (forall i c, child_at nodes i c -> cache_ok c) ->
  reference_all (reference_all nodes).2 = reference_all nodes.
Proof.
  intros Hok. unfold reference_all. cbn [snd].
  assert (E : option_map reference <$> (option_map snd <$> (option_map reference <$> nodes)) =
              option_map reference <$> nodes).
  { apply list_eq. intros i. rewrite !list_lookup_fmap.
    destruct (nodes !! i) as [[c|]|] eqn:E; [|done..]. cbn. do 2 f_equal.
    apply reference_again. by apply (Hok i). }
  by rewrite E.
Qed.

(** [reference] on a miss is [calc_reference], which encodes the node. *)
Lemma reference_miss d :
  cache_ok (mkNode d None) ->
  reference (mkNode d None) =
  let '(r, n') := calc_reference (mkNode d None) in (r, mkNode (as_data n') (Some r)).
Proof.
  intros Hok. destruct d as [|cs|p v|p c|d]; [done| |done| |done].
  - assert (Hch : forall i c, child_at cs i c -> cache_ok c).
    { intros i c Hc. apply (cache_ok_child _ _ Hok). by exists i. }
    pose proof (reference_all_again cs Hch) as HA. unfold calc_reference, encode, payload_length.
    destruct (reference_all cs) as [refs cs'] eqn:E. cbn [snd] in HA. rewrite HA.
    cbn [as_data]. unfold reference_all in E. injection E as <- <-. reflexivity.
  - pose proof (reference_again c (cache_ok_child _ c Hok eq_refl)) as HA.
    unfold calc_reference, encode, payload_length. cbn [reference].
    destruct (reference c) as [r c'] eqn:E. cbn [snd] in HA. by rewrite HA.
Qed.

(** [hash] computes [hash_of] and leaves an equal trie. *)
Lemma hash_spec n :
  cache_ok n -> (hash n).1 = hash_of n /\ (hash n).2 ≡ n /\ cache_ok (hash n).2.
Proof.
  intros Hok. destruct (reference_spec n Hok) as [Hr E Hc _].
  destruct n as [d c]. unfold hash, hash_of. cbn [as_data].
  destruct d; [done|..]; destruct (reference _) as [r n'] eqn:Er; cbn [fst snd] in *;
    subst r; by destruct (ref_of _).
Qed.
End Hash.
