(* ===== verification/MptCache.v ===== *)
(** * Mutation keeps the reference caches coherent

    [insert] and [delete] rewrite one path and drop the caches on it; every
    other cache still describes its node.  With that, the root hash a history
    of insertions, deletions and [hash] calls ends with is a function of the
    final contents: memoisation is invisible. *)
From S2P Require Import Prelude Nibbles Mpt MptInv MptInsert MptDelete MptMap Rlp MptHash.

Section Cache.
Context `{Keccak, AlloyRlp}.

Lemma cache_ok_branch cs :
  (forall i c, child_at cs i c -> cache_ok c) -> cache_ok (mkNode (Branch cs) None).
Proof. intros Hc. apply (cache_ok_fresh _ None). intros c [i Hi]. eauto. Qed.

Lemma cache_ok_branch_inv cs cache i c :
  cache_ok (mkNode (Branch cs) cache) -> child_at cs i c -> cache_ok c.
Proof. intros Hok Hc. apply (cache_ok_child _ _ Hok). by exists i. Qed.

Lemma cache_ok_extension p c : cache_ok c -> cache_ok (mkNode (Extension p c) None).
Proof. intros Hc. apply (cache_ok_fresh _ None). by intros ? ->. Qed.

Lemma cache_ok_extension_inv p c cache : cache_ok (mkNode (Extension p c) cache) -> cache_ok c.
Proof. intros Hok. by apply (cache_ok_child _ c Hok). Qed.

Lemma cache_ok_branch_set cs cache k o :
  cache_ok (mkNode (Branch cs) cache) -> (k < length cs)%nat ->
  (forall c, o = Some c -> cache_ok c) -> cache_ok (mkNode (Branch (<[k := o]> cs)) None).
Proof.
  intros Hok Hk Ho. apply cache_ok_branch. intros i c.
  rewrite child_at_insert by done. intros [[_ ->]|[_ Hi]]; eauto using cache_ok_branch_inv.
Qed.

Lemma split_node_cache_ok self key n old v d :
  cache_ok old -> split_node self key n old v = Ok d -> cache_ok (mkNode d None).
Proof.
  intros Hold E. unfold split_node in E. inv_ok.
  assert (B : cache_ok (mkNode (Branch a2) None)).
  { clear E. unfold set_child in *. repeat case_decide; inv_ok. subst. apply (cache_ok_branch_set _ None).
    - apply (cache_ok_branch_set _ None); [|lia|by intros ? [= <-]].
      apply cache_ok_branch. intros i c Hc. by apply child_at_no_children in Hc.
    - lia.
    - intros ? [= <-]. apply cache_ok_leaf. }
  case_decide; inv_ok; [by apply cache_ok_extension|done].
Qed.

Lemma insert_internal_cache_ok n key v changed n' :
  cache_ok n -> insert_internal n key v = Ok (changed, n') -> cache_ok n'.
Proof.
  revert key changed n'.
  induction n as [cache|cs cache IH|p w cache|p c cache IH|d cache] using node_ind;
    intros key changed n' Hok E; cbn [insert_internal] in E.
  - injection E as <- <-. apply cache_ok_leaf.
  - destruct key as [|i tail]; [discriminate|]. rewrite on_child_lookup in E.
    destruct (cs !! Z.to_nat i) as [[c|]|] eqn:Ec; [|injection E as <- <-|discriminate].
    + inv_ok. destruct a as [ch c']. destruct ch; injection E as <- <-; [|done].
      apply (cache_ok_branch_set _ cache); [done|by apply lookup_lt_Some in Ec|].
      intros ? [= <-]. eapply IH; eauto using cache_ok_branch_inv.
    + apply (cache_ok_branch_set _ cache); [done|by apply lookup_lt_Some in Ec|].
      intros ? [= <-]. apply cache_ok_leaf.
  - inv_ok. repeat case_decide; inv_ok; [done|apply cache_ok_leaf|].
    eapply split_node_cache_ok; [|done]. apply cache_ok_leaf.
  - apply cache_ok_extension_inv in Hok as Hc. inv_ok. repeat case_decide; inv_ok.
    + destruct a0 as [ch c']. destruct ch; injection E as <- <-; [|done].
      eapply cache_ok_extension, IH; eauto.
    + eapply split_node_cache_ok; [|done]. by apply cache_ok_extension.
    + by eapply split_node_cache_ok.
  - discriminate.
Qed.

Lemma collapse_branch_cache_ok cs d :
  (forall i c, child_at cs i c -> cache_ok c) -> collapse_branch cs = Ok d ->
  cache_ok (mkNode d None).
Proof.
  intros Hcs E. unfold collapse_branch in E.
  destruct (remaining cs) as [|[i c] [|[j e] l]] eqn:R; [discriminate| |].
  - apply remaining_one in R as [Hi _]. apply Hcs in Hi.
    destruct c as [[|ds|p w|p g|x] cache]; cbn [as_data] in E.
    + discriminate.
    + injection E as <-. by apply cache_ok_extension.
    + inv_ok. apply cache_ok_leaf.
    + inv_ok. eapply cache_ok_extension, cache_ok_extension_inv, Hi.
    + injection E as <-. by apply cache_ok_extension.
  - inv_ok. by apply cache_ok_branch.
Qed.

Lemma merge_extension_cache_ok p q c d :
  cache_ok c -> merge_extension p q c = Ok d -> cache_ok (mkNode d None).
Proof.
  intros Hc E. unfold merge_extension in E.
  destruct c as [[|ds|r w|r g|x] cache]; cbn [as_data] in E.
  - injection E as <-. apply cache_ok_null.
  - injection E as <-. by apply cache_ok_extension.
  - inv_ok. apply cache_ok_leaf.
  - inv_ok. eapply cache_ok_extension, cache_ok_extension_inv, Hc.
  - injection E as <-. by apply cache_ok_extension.
Qed.

Lemma delete_internal_cache_ok n key removed n' :
  cache_ok n -> delete_internal n key = Ok (removed, n') -> cache_ok n'.
Proof.
  revert key removed n'.
  induction n as [cache|cs cache IH|p w cache|p c cache IH|d cache] using node_ind;
    intros key removed n' Hok E; cbn [delete_internal] in E.
  - by injection E as <- <-.
  - destruct key as [|i tail]; [discriminate|]. rewrite on_child_lookup in E.
    destruct (cs !! Z.to_nat i) as [[c|]|] eqn:Ec; [|by injection E as <- <-|discriminate].
    inv_ok. destruct a as [ch c']. destruct ch; [|by injection E as <- <-]. inv_ok.
    eapply collapse_branch_cache_ok; [|done]. intros j e.
    rewrite child_at_insert by (by apply lookup_lt_Some in Ec).
    intros [[_ He]|[_ He]]; [|by eapply cache_ok_branch_inv].
    destruct (is_empty c'); [discriminate|]. injection He as <-.
    eapply IH; eauto using cache_ok_branch_inv.
  - inv_ok. case_decide; injection E as <- <-; [apply cache_ok_null|done].
  - apply cache_ok_extension_inv in Hok as Hc. inv_ok. destruct (strip_prefix a key) as [tl|];
      [|by injection E as <- <-].
    inv_ok. destruct a0 as [ch c']. destruct ch; [|by injection E as <- <-]. inv_ok.
    eapply merge_extension_cache_ok; [|done]. eauto.
  - discriminate.
Qed.

(** ** Histories that also read the hash *)

Inductive cmd : Type :=
  | Mutate (op : mpt_op)
  | ReadHash.

Definition run_cmd (t : MptNode) (c : cmd) : outcome Error MptNode :=
  match c with
  | Mutate op => run_op t op
  | ReadHash => Ok (hash t).2
  end.

Fixpoint run_cmds (cs : list cmd) (t : MptNode) : outcome Error MptNode :=
  match cs with
  | [] => Ok t
  | c :: cs' => t' ← run_cmd t c; run_cmds cs' t'
  end.

(** The mutations of a history. *)
Definition mutations (cs : list cmd) : list mpt_op :=
  omap (fun c => match c with Mutate op => Some op | ReadHash => None end) cs.

Lemma run_op_cache_ok t op t' : cache_ok t -> run_op t op = Ok t' -> cache_ok t'.
Proof.
  intros Hok E. destruct op as [key v|key]; cbn [run_op] in E.
  - unfold insert in E. case_decide; [discriminate|].
    destruct (insert_internal _ _ _) as [[ch n]| |] eqn:Ei; try discriminate.
    injection E as <-. by eapply insert_internal_cache_ok.
  - unfold delete in E. destruct (delete_internal _ _) as [[ch n]| |] eqn:Ei; try discriminate.
    injection E as <-. by eapply delete_internal_cache_ok.
Qed.

Lemma run_cmds_repr n cs t m :
  repr n t m -> cache_ok t -> Forall (op_ok n) (mutations cs) ->
  exists t', run_cmds cs t = Ok t' /\ repr n t' (map_ops (mutations cs) m) /\ cache_ok t'.
Proof.
  revert t m. induction cs as [|[op|] cs IH]; intros t m Hr Hc Hops; [by eexists| |].
  - inversion_clear Hops as [|?? Hop Hops'].
    destruct (repr_op t m op Hr Hop) as (t1 & E & Hr1). cbn [run_cmds run_cmd]. rewrite E.
    cbn [mbind outcome_bind]. apply IH; [done|by eapply run_op_cache_ok|done].
  - cbn [run_cmds run_cmd mbind outcome_bind]. destruct (hash_spec t Hc) as (_ & Heq & Hc').
    apply IH; [by eapply repr_equiv|done|done].
Qed.

(** C8: the state root is a function of the contents.  Two histories of
    insertions, deletions and hash reads over [n]-byte keys that end in the
    same map succeed, and the next [hash] call returns the same root for both:
    neither the order of the mutations nor the memoised references can be
    observed in it. *)
Theorem hash_of_contents n cs1 cs2 :
  Forall (op_ok n) (mutations cs1) -> Forall (op_ok n) (mutations cs2) ->
  map_ops (mutations cs1) ∅ = map_ops (mutations cs2) ∅ ->
  exists t1 t2, run_cmds cs1 default_node = Ok t1 /\ run_cmds cs2 default_node = Ok t2 /\
    (hash t1).1 = (hash t2).1.
Proof.
  intros H1 H2 E.
  destruct (run_cmds_repr n cs1 default_node ∅ repr_default cache_ok_null H1) as (t1 & E1 & R1 & C1).
  destruct (run_cmds_repr n cs2 default_node ∅ repr_default cache_ok_null H2) as (t2 & E2 & R2 & C2).
  exists t1, t2. split_and!; [done..|].
  rewrite (proj1 (hash_spec t1 C1)), (proj1 (hash_spec t2 C2)).
  apply hash_of_equiv. rewrite <- E in R2. by eapply repr_inj.
Qed.

(** ** The encoder's buffer length *)

(** Digests and digest references of 32 bytes. *)
Inductive digests32 : MptNode -> Prop :=
  | digests32_intro n :
      (forall d, as_data n = Digest d -> length d = 32%nat) ->
      (forall c, child_of c n -> digests32 c) -> digests32 n.

Definition ref32 (r : MptNodeReference) : Prop :=
  match r with RefBytes _ => True | RefDigest d => length d = 32%nat end.

Lemma ref32_length r : ref32 r -> length (reference_encode r) = reference_length r.
Proof. destruct r; cbn; [done|by intros ->]. Qed.

Lemma ref_of_32 n : digests32 n -> ref32 (ref_of n).
Proof.
  intros H32. inversion_clear H32 as [? Hd _].
  destruct n as [[|cs|p v|p c|d] cache]; cbn [ref_of]; [done| | | |by apply Hd];
    unfold reference_of_encoding; case_decide; cbn [ref32]; auto using keccak256_length.
Qed.

Lemma concat_child_length refs :
  Forall (fun o => forall r, o = Some r -> ref32 r) refs ->
  length (concat (child_encode <$> refs)) = list_sum (child_length <$> refs).
Proof.
  induction 1 as [|o refs Hr _ IH]; [done|].
  rewrite !fmap_cons. cbn [concat]. rewrite length_app, IH.
  change (list_sum (child_length o :: (child_length <$> refs)))
    with (child_length o + list_sum (child_length <$> refs))%nat.
  f_equal. destruct o as [r|]; [|done]. apply ref32_length. auto.
Qed.

Lemma child_refs32 cs cache :
  digests32 (mkNode (Branch cs) cache) ->
  Forall (fun o => forall r, o = Some r -> ref32 r)
    ((fun o => match o with Some c => Some (ref_of c) | None => None end) <$> cs).
Proof.
  intros H32. inversion_clear H32 as [? _ Hc]. apply Forall_lookup. intros i o.
  rewrite list_lookup_fmap. destruct (cs !! i) as [[c|]|] eqn:E; [| |done]; intros [= <-] r Hr;
    [|done]. injection Hr as <-. apply ref_of_32, Hc. by exists i.
Qed.

(** The encoding of a list-shaped node is a header that announces exactly the
    bytes that follow it. *)
Definition announces (encoded : list Z) (len : nat) : Prop :=
  exists payload, encoded = header_encode true len ++ payload /\ length payload = len.

Definition list_shaped (n : MptNode) : bool :=
  match as_data n with Null | Digest _ => false | _ => true end.

Context {laws : AlloyRlpLaws}.

Lemma encode_announces n :
  cache_ok n -> digests32 n -> list_shaped n = true ->
  announces (encode n).1 (payload_length n).1.
Proof.
  intros Hok H32 Hs. pose proof H32 as H32'. inversion_clear H32' as [? _ Hc32].
  destruct n as [[|cs|p v|p c|d] cache]; try discriminate; unfold encode, payload_length.
  - assert (Hch : forall i c, child_at cs i c -> cache_ok c).
    { intros i c. by eapply cache_ok_branch_inv. }
    assert (Hm : forall i c, child_at cs i c -> memo_post c (reference c)).
    { intros i c Hi. apply reference_spec. eauto. }
    pose proof (visited_refs cs Hch Hm) as E. pose proof (reference_all_again cs Hch) as HA.
    rewrite E in *. cbn [snd] in HA. rewrite HA. cbn [fst].
    eexists. split; [reflexivity|]. rewrite length_app, concat_child_length.
    + unfold branch_payload_length. cbn. lia.
    + by eapply child_refs32.
  - eexists. split; [reflexivity|]. rewrite length_app, !string_encode_length. done.
  - pose proof (cache_ok_extension_inv _ _ _ Hok) as Hc.
    pose proof (reference_again c Hc) as HA. pose proof (memo_ref _ _ (reference_spec c Hc)) as Hr.
    destruct (reference c) as [r c']. cbn [fst snd] in *. subst r. rewrite HA. cbn [fst].
    eexists. split; [reflexivity|]. rewrite length_app, string_encode_length, ref32_length; [done|].
    apply ref_of_32. by apply Hc32.
Qed.

(** The buffer [alloy_rlp::encode] allocates from [length()] is filled
    exactly: for every node with coherent caches, [encode] writes
    [length()] bytes, and the header of a branch, leaf or extension announces
    exactly the payload that follows. *)
Theorem encode_length n :
  cache_ok n -> digests32 n ->
  length (encode n).1 = node_length n /\
  (list_shaped n = true -> announces (encode n).1 (payload_length n).1).
Proof.
  intros Hok H32. split; [|by apply encode_announces]. unfold node_length.
  destruct (list_shaped n) eqn:Hs.
  - destruct (encode_announces n Hok H32 Hs) as (pl & -> & Hl).
    destruct (payload_length n) as [len n'] eqn:E. cbn [fst] in *.
    rewrite length_app, header_encode_length. lia.
  - inversion_clear H32 as [? Hd _]. destruct n as [[|cs|p v|p c|d] cache]; try discriminate Hs.
    + cbn. by rewrite length_of_length_short by lia.
    + specialize (Hd d eq_refl). cbn. rewrite string_encode_32 by done.
      rewrite length_of_length_short by lia. cbn. lia.
Qed.
End Cache.

(** ** The theorems at concrete tries *)
Section Samples.
#[local] Existing Instance RefRlp.alloy.
#[local] Existing Instance RefRlp.toy_keccak.

Definition sample_cmds1 : list cmd :=
  [Mutate (OpInsert [1; 35] [7]); ReadHash; Mutate (OpInsert [1; 36] [8]); ReadHash;
   Mutate (OpInsert [2; 0] [9]); Mutate (OpDelete [1; 36])].
Definition sample_cmds2 : list cmd :=
  [Mutate (OpInsert [2; 0] [9]); Mutate (OpInsert [1; 35] [7]); ReadHash].

Lemma hash_of_contents_witness :
  exists t1 t2, run_cmds sample_cmds1 default_node = Ok t1 /\
    run_cmds sample_cmds2 default_node = Ok t2 /\ (hash t1).1 = (hash t2).1.
Proof.
  apply (hash_of_contents 2 sample_cmds1 sample_cmds2);
    [apply (bool_decide_unpack _); by vm_compute..|by vm_compute].
Defined.

Definition sample_leaf : MptNode := from_data (Leaf [32; 171] (replicate 40 5)).

Lemma encode_length_witness :
  length (encode sample_leaf).1 = node_length sample_leaf /\
  (list_shaped sample_leaf = true ->
   announces (encode sample_leaf).1 (payload_length sample_leaf).1).
Proof.
  apply (encode_length (laws := RefRlp.alloy_laws) sample_leaf).
  - apply cache_ok_leaf.
  - constructor; [discriminate|by intros ?].
Defined.
End Samples.
