(* ===== verification/MptWire.v ===== *)
(** * The wire format of trie nodes: decoding, round trip, binding

    [decode] reads one node from RLP; children the encoder replaced by a hash
    come back as digests.  A decoded encoding is therefore the node with its
    large children cut off ([stub]), which has the same reference.  The second
    result of the file is the reason the root hash may stand for the contents:
    two tries with the same root are equal, or a collision of the hash
    function is at hand. *)
From S2P Require Import Prelude BytesCodec Nibbles Mpt MptInv MptInsert MptDelete MptMap.
From S2P Require Import Rlp MptHash MptCache.

(** A [DecoderError] of the [rlp] crate, converted by [Error::from]. *)
Definition of_reader {A} (o : option A) : outcome Error A :=
  match o with Some a => Ok a | None => Err LegacyRlp end.

(** [Vec::try_into::<[_; 16]>().unwrap()] and [B256::from_slice]. *)
Definition exactly {A} (n : nat) (l : list A) : outcome Error (list A) :=
  if decide (length l = n) then Ok l else Panic.

Section Decode.
Context `{RlpReader}.

(** [rlp.val_at::<Vec<u8>>(i)]. *)
Definition val_at (rlp : list Z) (i : nat) : outcome Error (list Z) :=
  item ← of_reader (rlp_at rlp i); of_reader (rlp_as_val item).

(** One child of a branch. *)
Definition decode_child (dec : list Z -> outcome Error MptNode) (item : list Z)
  : outcome Error (option MptNode) :=
  proto ← of_reader (prototype item);
  match proto with
  | PNull | PData O => Ok None
  | _ => Some <$> dec item
  end.

(** [for node_rlp in rlp.iter().take(16)]: the iterator ends at the first
    index [at] refuses. *)
Fixpoint decode_children (dec : list Z -> outcome Error MptNode) (rlp : list Z) (idxs : list nat)
  : outcome Error (list (option MptNode)) :=
  match idxs with
  | [] => Ok []
  | i :: idxs' =>
      match rlp_at rlp i with
      | None => Ok []
      | Some item =>
          o ← decode_child dec item;
          os ← decode_children dec rlp idxs';
          Ok (o :: os)
      end
  end.

(** [impl Decodable for MptNode], the recursive calls being [dec]. *)
Definition decode_step (dec : list Z -> outcome Error MptNode) (rlp : list Z)
  : outcome Error MptNode :=
  proto ← of_reader (prototype rlp);
  match proto with
  | PNull | PData O => Ok (from_data Null)
  | PList 2 =>
      path ← val_at rlp 0;
      prefix ← unwrap (head path);
      if Z.land prefix (Z.shiftl 2 4) =? 0 then
        item ← of_reader (rlp_at rlp 1);
        node ← dec item;
        Ok (from_data (Extension path node))
      else
        value ← val_at rlp 1;
        Ok (from_data (Leaf path value))
  | PList 17 =>
      node_list ← decode_children dec rlp (seq 0 16);
      value ← val_at rlp 16;
      match value with
      | [] => children ← exactly 16 node_list; Ok (from_data (Branch children))
      | _ => Err LegacyRlp
      end
  | PData 32 =>
      bytes ← of_reader (rlp_as_val rlp);
      digest ← exactly 32 bytes;
      Ok (from_data (Digest digest))
  | _ => Err LegacyRlp
  end.

(** The recursion, [fuel] bounding the nesting depth. *)
Fixpoint decode_rlp (fuel : nat) (rlp : list Z) : outcome Error MptNode :=
  match fuel with
  | O => Panic
  | S fuel' => decode_step (decode_rlp fuel') rlp
  end.

(** [MptNode::decode]: nesting is bounded by the length of the input. *)
Definition decode (rlp : list Z) : outcome Error MptNode := decode_rlp (S (length rlp)) rlp.
End Decode.

Section Wire.
Context `{Keccak, AlloyRlp, RlpReader}.

(** The children's references, the list items of an encoding, and the
    encoding itself. *)
Definition child_refs (cs : list (option MptNode)) : list (option MptNodeReference) :=
  (fun o => match o with Some c => Some (ref_of c) | None => None end) <$> cs.

Definition payload_items (n : MptNode) : list (list Z) :=
  match as_data n with
  | Branch cs => (child_encode <$> child_refs cs) ++ [[EMPTY_STRING_CODE]]
  | Leaf p v => [string_encode p; string_encode v]
  | Extension p c => [string_encode p; reference_encode (ref_of c)]
  | _ => []
  end.

Definition enc_of (n : MptNode) : list Z :=
  match as_data n with
  | Null => [EMPTY_STRING_CODE]
  | Digest d => string_encode d
  | _ => list_encode (payload_items n)
  end.

(** A child as it reads back: its digest if it was encoded by hash. *)
Definition stub_child (stub : MptNode -> MptNode) (c : MptNode) : MptNode :=
  match ref_of c with
  | RefDigest d => from_data (Digest d)
  | RefBytes _ => stub c
  end.

Fixpoint stub (n : MptNode) : MptNode :=
  match n with
  | mkNode (Branch cs) _ =>
      from_data (Branch ((fun o => match o with
        | Some c => Some (match ref_of c with RefDigest d => from_data (Digest d) | RefBytes _ => stub c end)
        | None => None end) <$> cs))
  | mkNode (Extension p c) _ =>
      from_data (Extension p
        (match ref_of c with RefDigest d => from_data (Digest d) | RefBytes _ => stub c end))
  | mkNode d _ => from_data d
  end.

(** Nodes that fit the wire: hex-prefix paths, byte values, 32-byte digests,
    lengths below 2^64. *)
Inductive wire_ok : MptNode -> Prop :=
  | wire_Null cache : wire_ok (mkNode Null cache)
  | wire_Digest d cache : Bytes d -> length d = 32%nat -> wire_ok (mkNode (Digest d) cache)
  | wire_Leaf p v cache :
      Nibs p -> Bytes v ->
      Z.of_nat (string_length (to_encoded_path p true) + string_length v) < 2 ^ 64 ->
      wire_ok (mkNode (Leaf (to_encoded_path p true) v) cache)
  | wire_Extension p c cache :
      Nibs p -> wire_ok c -> ~ is_null c ->
      Z.of_nat (string_length (to_encoded_path p false) + 33) < 2 ^ 64 ->
      wire_ok (mkNode (Extension (to_encoded_path p false) c) cache)
  | wire_Branch cs cache :
      length cs = 16%nat -> (forall i c, child_at cs i c -> wire_ok c) ->
      (forall i c, child_at cs i c -> ~ is_null c) ->
      wire_ok (mkNode (Branch cs) cache).

Context {laws : AlloyRlpLaws}.

Lemma wire_ok_digests32 n : wire_ok n -> digests32 n.
Proof.
  induction 1 as [|d cache Hd Hl|p v cache|p c cache Hp Hc IH|cs cache Hl Hc IH]; constructor.
  - intros d E. discriminate E.
  - intros c Hc. destruct Hc.
  - intros d' E. injection E as <-. exact Hl.
  - intros c Hc. destruct Hc.
  - intros d E. discriminate E.
  - intros c Hc. destruct Hc.
  - intros d E. discriminate E.
  - intros c' E. change (c' = c) in E. subst c'. exact IH.
  - intros d E. discriminate E.
  - intros c [i Hi]. exact (IH i c Hi).
Qed.

Lemma reference_of_encoding_length e : (reference_length (reference_of_encoding e) <= 33)%nat.
Proof. unfold reference_of_encoding. destruct (decide _); cbn [reference_length]; lia. Qed.

Lemma reference_length_le n : (reference_length (ref_of n) <= 33)%nat.
Proof.
  destruct n as [[|cs|p v|p c|d] cache]; try apply reference_of_encoding_length; cbn; lia.
Qed.

Lemma child_refs_32 cs :
  (forall i c, child_at cs i c -> digests32 c) ->
  Forall (fun o => forall r, o = Some r -> ref32 r) (child_refs cs).
Proof.
  intros Hc. apply (child_refs32 cs None). constructor; [discriminate|]. intros c [i Hi]. eauto.
Qed.

(** The encoders of [MptHash] write a list of items. *)
Lemma ref_of_enc n :
  digests32 n -> list_shaped n = true -> ref_of n = reference_of_encoding (enc_of n).
Proof.
  intros H32 Hs. inversion_clear H32 as [? _ Hc].
  destruct n as [[|cs|p v|p c|d] cache]; try discriminate; cbn [ref_of]; f_equal;
    unfold enc_of, payload_items, list_encode; cbn [as_data].
  - unfold encode_branch. f_equal; [|by rewrite concat_app].
    f_equal. rewrite concat_app, length_app. unfold branch_payload_length.
    rewrite concat_child_length by (apply child_refs_32; intros i c Hi; apply Hc; by exists i).
    cbn. unfold child_refs. lia.
  - unfold encode_leaf. cbn [concat]. rewrite app_nil_r. f_equal. f_equal.
    unfold leaf_payload_length. by rewrite length_app, !string_encode_length.
  - unfold encode_extension. cbn [concat]. rewrite app_nil_r. f_equal. f_equal.
    unfold extension_payload_length. rewrite length_app, string_encode_length, ref32_length; [done|].
    by apply ref_of_32, Hc.
Qed.

(** Every reference, and every list item of a node, is an RLP item. *)
Lemma empty_item : rlp_item [EMPTY_STRING_CODE].
Proof.
  unfold EMPTY_STRING_CODE. rewrite <- string_encode_empty. constructor; [constructor|cbn; lia].
Qed.

Lemma digest_item d : Bytes d -> length d = 32%nat -> rlp_item (reference_encode (RefDigest d)).
Proof.
  intros Hb Hl. cbn [reference_encode]. unfold EMPTY_STRING_CODE.
  rewrite <- string_encode_32 by done. constructor; [done|lia].
Qed.

Lemma string_item b : Bytes b -> Z.of_nat (string_length b) < 2 ^ 64 -> rlp_item (string_encode b).
Proof. intros Hb Hl. constructor; [done|]. pose proof (string_length_ge b). lia. Qed.

Definition items_ok (n : MptNode) : Prop :=
  Forall rlp_item (payload_items n) /\ Z.of_nat (length (concat (payload_items n))) < 2 ^ 64.

Lemma reference_item n : wire_ok n -> items_ok n -> rlp_item (reference_encode (ref_of n)).
Proof.
  intros Hw [Hi Hl]. destruct (list_shaped n) eqn:Hs.
  - rewrite ref_of_enc by auto using wire_ok_digests32. unfold reference_of_encoding.
    case_decide as Hd; [|by apply digest_item; auto using keccak256_length, keccak256_bytes].
    cbn [reference_encode]. destruct n as [[|cs|p v|p c|d] cache]; try discriminate;
      by apply item_list.
  - destruct Hw; try discriminate; [apply empty_item|by apply digest_item].
Qed.

Lemma concat_child_bound refs :
  Forall (fun o => (child_length o <= 33)%nat) refs ->
  (list_sum (child_length <$> refs) <= 33 * length refs)%nat.
Proof.
  induction 1 as [|o refs Ho _ IH]; [done|]. rewrite fmap_cons.
  change (list_sum (child_length o :: (child_length <$> refs)))
    with (child_length o + list_sum (child_length <$> refs))%nat. cbn [length]. lia.
Qed.

Lemma wire_items n : wire_ok n -> items_ok n.
Proof.
  induction 1 as [|d cache Hd Hl|p v cache Hp Hv Hl|p c cache Hp Hc IH Hn Hl|cs cache Hl Hc IH Hn];
    unfold items_ok, payload_items; cbn [as_data].
  - split; [constructor|cbn; lia].
  - split; [constructor|cbn; lia].
  - split.
    + apply Forall_cons; split; [|apply Forall_singleton];
        apply string_item; auto using to_encoded_path_bytes; lia.
    + cbn [concat]. rewrite app_nil_r, length_app, !string_encode_length. lia.
  - split.
    + apply Forall_cons; split; [|by apply Forall_singleton, reference_item].
      apply string_item; [apply to_encoded_path_bytes|lia].
    + cbn [concat]. rewrite app_nil_r, length_app, string_encode_length.
      rewrite ref32_length by auto using ref_of_32, wire_ok_digests32.
      pose proof (reference_length_le c). lia.
  - split.
    + apply Forall_app. split; [|apply Forall_singleton, empty_item].
      apply Forall_fmap, Forall_fmap, Forall_lookup. intros i [c|] Hi; cbn; [|apply empty_item].
      apply reference_item; eauto.
    + rewrite concat_app, length_app, concat_child_length.
      2:{ apply child_refs_32. intros i c Hi. eauto using wire_ok_digests32. }
      assert (B : (list_sum (child_length <$> child_refs cs) <= 33 * length (child_refs cs))%nat).
      { apply concat_child_bound, Forall_fmap, Forall_true. intros [c|]; cbn; [|lia].
        apply reference_length_le. }
      unfold child_refs in B at 2. rewrite length_fmap, Hl in B. cbn [concat length app] in *. lia.
Qed.

(** The shape does not depend on the caches. *)
Lemma wire_ok_equiv n : forall m, n ≡ m -> wire_ok n -> wire_ok m.
Proof.
  induction n as [cache|cs cache IH|p v cache|p c cache IH|d cache] using node_ind; intros m E Hw.
  - apply equiv_Null in E as [cache' ->]. constructor.
  - apply equiv_Branch in E as (ds & cache' & -> & Hl & _ & Hc & _).
    inversion Hw as [| | | |? ? Hlen Hch Hnull]; subst. constructor; [congruence|..].
    + intros i d Hd. destruct (Hc i d Hd) as (c & Hi & E). eauto.
    + intros i d Hd. destruct (Hc i d Hd) as (c & Hi & E). rewrite <- E. eauto.
  - apply equiv_Leaf in E as [cache' ->]. inversion Hw; subst. by constructor.
  - apply equiv_Extension in E as (d & cache' & -> & E). inversion Hw; subst.
    constructor; [done|by apply IH| |done]. by rewrite <- E.
  - apply equiv_Digest in E as [cache' ->]. inversion Hw; subst. by constructor.
Qed.

(** ** Round trip *)
Context {rlaws : RlpReaderLaws}.

Lemma prototype_digest d : Bytes d -> length d = 32%nat ->
  prototype ((EMPTY_STRING_CODE + 32) :: d) = Some (PData 32).
Proof.
  intros Hb Hl. unfold EMPTY_STRING_CODE. rewrite <- string_encode_32 by done.
  rewrite prototype_string by (done || lia). by rewrite Hl.
Qed.

Lemma decode_digest fuel d : Bytes d -> length d = 32%nat ->
  decode_rlp (S fuel) ((EMPTY_STRING_CODE + 32) :: d) = Ok (from_data (Digest d)).
Proof.
  intros Hb Hl. change (decode_rlp (S fuel)) with (decode_step (decode_rlp fuel)).
  unfold decode_step. rewrite prototype_digest by done. cbn [of_reader mbind outcome_bind].
  unfold EMPTY_STRING_CODE. rewrite <- string_encode_32 by done.
  rewrite rlp_as_val_string by (done || lia). cbn [of_reader mbind outcome_bind]. unfold exactly.
  by rewrite decide_True.
Qed.

Lemma prototype_empty : prototype [EMPTY_STRING_CODE] = Some (PData 0).
Proof.
  unfold EMPTY_STRING_CODE. rewrite <- string_encode_empty.
  rewrite prototype_string; [done|constructor|cbn; lia].
Qed.

Lemma decode_children_spec dec rlp idxs (f : nat -> option MptNode) :
  (forall i, i ∈ idxs -> exists item, rlp_at rlp i = Some item /\ decode_child dec item = Ok (f i)) ->
  decode_children dec rlp idxs = Ok (f <$> idxs).
Proof.
  induction idxs as [|i idxs IH]; intros Hi; [done|]. cbn [decode_children].
  destruct (Hi i) as (item & -> & ->); [set_solver|]. cbn [mbind outcome_bind].
  rewrite IH by set_solver. done.
Qed.

(** How a child's reference reads back. *)
Lemma decode_child_reference fuel c :
  wire_ok c -> ~ is_null c ->
  (list_shaped c = true -> (length (enc_of c) < 32)%nat ->
   decode_rlp (S fuel) (enc_of c) = Ok (stub c)) ->
  decode_rlp (S fuel) (reference_encode (ref_of c)) = Ok (stub_child stub c) /\
  exists p, prototype (reference_encode (ref_of c)) = Some p /\ p <> PNull /\ p <> PData 0.
Proof.
  intros Hw Hn IH. unfold stub_child. destruct (list_shaped c) eqn:Hs.
  - rewrite ref_of_enc by auto using wire_ok_digests32. unfold reference_of_encoding.
    case_decide as Hd; cbn [reference_encode].
    + split; [by apply IH|]. destruct (wire_items c Hw) as [Hi Hl].
      exists (PList (length (payload_items c))). split; [|done].
      destruct c as [[|cs|p v|p c|d] cache]; try discriminate; by apply prototype_list.
    + split; [by apply decode_digest; auto using keccak256_length, keccak256_bytes|].
      eexists. split; [by apply prototype_digest; auto using keccak256_length, keccak256_bytes|done].
  - destruct Hw as [|d cache Hd Hl| | |]; try discriminate; [by destruct Hn|]. cbn [ref_of reference_encode].
    split; [by apply decode_digest|]. eexists. split; [by apply prototype_digest|done].
Qed.

Lemma decode_list_items fuel n :
  wire_ok n -> list_shaped n = true ->
  (forall c, child_of c n -> list_shaped c = true -> (length (enc_of c) < 32)%nat ->
   decode_rlp (S fuel) (enc_of c) = Ok (stub c)) ->
  decode_rlp (S (S fuel)) (enc_of n) = Ok (stub n).
Proof.
  intros Hw Hs IH. destruct (wire_items n Hw) as [Hi Hl].
  assert (E : enc_of n = list_encode (payload_items n)) by (by destruct n as [[] ?]).
  assert (P : prototype (enc_of n) = Some (PList (length (payload_items n)))).
  { rewrite E. by apply prototype_list. }
  assert (A : forall i, (i < length (payload_items n))%nat -> rlp_at (enc_of n) i = payload_items n !! i).
  { intros i Hi'. rewrite E. by apply rlp_at_list. }
  change (decode_rlp (S (S fuel))) with (decode_step (decode_rlp (S fuel))).
  unfold decode_step. rewrite P. cbn [of_reader mbind outcome_bind].
  destruct Hw as [| |p v cache Hp Hv HL|p c cache Hp Hc Hn HL|cs cache Hlen Hc Hn]; try discriminate;
    unfold val_at; cbn [payload_items as_data length] in *.
  - rewrite !A by lia. cbn [lookup list_lookup of_reader mbind outcome_bind].
    pose proof (string_length_ge v). pose proof (string_length_ge (to_encoded_path p true)).
    rewrite !rlp_as_val_string by (auto using to_encoded_path_bytes || lia).
    cbn [of_reader mbind outcome_bind].
    destruct (encoded_path_flag p true Hp) as (b & tl & -> & Hf). cbn [head unwrap mbind outcome_bind].
    by rewrite (negb_true_iff _) in Hf; rewrite Hf.
  - rewrite !A by lia. cbn [lookup list_lookup of_reader mbind outcome_bind].
    pose proof (string_length_ge (to_encoded_path p false)).
    rewrite rlp_as_val_string by (auto using to_encoded_path_bytes || lia).
    cbn [of_reader mbind outcome_bind].
    destruct (encoded_path_flag p false Hp) as (b & tl & Ep & Hf). rewrite Ep.
    cbn [head unwrap mbind outcome_bind]. rewrite negb_false_iff in Hf. rewrite Hf.
    cbn [of_reader mbind outcome_bind].
    destruct (decode_child_reference fuel c Hc Hn) as [-> _]; [by apply IH|]. done.
  - assert (L : length ((child_encode <$> child_refs cs) ++ [[EMPTY_STRING_CODE]]) = 17%nat).
    { unfold child_refs. by rewrite length_app, !length_fmap, Hlen. }
    assert (L16 : length (child_encode <$> child_refs cs) = 16%nat).
    { unfold child_refs. by rewrite !length_fmap. }
    rewrite L in A |- *.
    rewrite (decode_children_spec _ _ _ (fun i => match cs !! i with
      | Some (Some c) => Some (stub_child stub c) | _ => None end)).
    + cbn [mbind outcome_bind]. rewrite A by lia.
      rewrite lookup_app_r, L16 by lia.
      cbn [lookup list_lookup Nat.sub of_reader mbind outcome_bind].
      unfold EMPTY_STRING_CODE. rewrite <- string_encode_empty.
      rewrite rlp_as_val_string by (constructor || (cbn; lia)). cbn [of_reader mbind outcome_bind].
      unfold exactly. rewrite decide_True by (by rewrite length_fmap, length_seq).
      cbn [mbind outcome_bind stub]. do 3 f_equal. apply list_eq. intros i.
      rewrite !list_lookup_fmap. destruct (decide (i < 16)%nat) as [Hlt|Hge].
      * rewrite lookup_seq_lt by done. cbn.
        destruct (cs !! i) as [[c|]|] eqn:Ei; [done..|]. apply lookup_ge_None in Ei. lia.
      * rewrite lookup_ge_None_2 by (rewrite length_seq; lia).
        by rewrite lookup_ge_None_2 by lia.
    + intros i [_ Hlt]%elem_of_seq.
      assert (Ai : rlp_at (enc_of (mkNode (Branch cs) cache)) i =
                   child_encode <$> child_refs cs !! i).
      { rewrite A by lia. rewrite lookup_app_l by lia. apply list_lookup_fmap. }
      unfold child_refs in Ai. rewrite list_lookup_fmap in Ai.
      destruct (cs !! i) as [[c|]|] eqn:Ei; [| |apply lookup_ge_None in Ei; lia];
        cbn in Ai; eexists; (split; [exact Ai|]); unfold decode_child.
      * destruct (decode_child_reference fuel c) as [Hd (pt & Hp & Hp1 & Hp2)]; eauto.
        { apply IH. by exists i. }
        rewrite Hp. cbn [of_reader mbind outcome_bind]. rewrite Hd. by destruct pt as [|[|k]|].
      * by rewrite prototype_empty.
Qed.

(** A child small enough to be embedded is a proper part of the encoding. *)
Lemma child_item c n :
  child_of c n -> exists i, payload_items n !! i = Some (reference_encode (ref_of c)).
Proof.
  unfold child_of, payload_items. destruct n as [[|cs|p v|p e|d] cache]; cbn [as_data]; try done.
  - intros [i Hi]. exists i. apply lookup_app_l_Some. unfold child_refs.
    rewrite !list_lookup_fmap. by rewrite Hi.
  - intros <-. by exists 1%nat.
Qed.

Lemma child_enc_shorter c n :
  wire_ok n -> child_of c n -> wire_ok c -> list_shaped c = true -> (length (enc_of c) < 32)%nat ->
  (length (enc_of c) < length (enc_of n))%nat.
Proof.
  intros Hw Hc Hwc Hs Hl. destruct (child_item c n Hc) as [i Hi]. destruct (wire_items n Hw) as [Hit Hlen].
  rewrite ref_of_enc in Hi by auto using wire_ok_digests32. unfold reference_of_encoding in Hi.
  rewrite decide_True in Hi by done. cbn [reference_encode] in Hi.
  apply (rlp_at_shorter _ i). assert (E : enc_of n = list_encode (payload_items n)).
  { destruct n as [[] ?]; done. }
  rewrite E, rlp_at_list; [done..|]. by eapply lookup_lt_Some.
Qed.

Lemma wire_ok_child c n : wire_ok n -> child_of c n -> wire_ok c.
Proof.
  destruct 1 as [|d cache|p v cache|p e cache Hp He|cs cache Hl Hcs]; unfold child_of; cbn [as_data];
    try done; [by intros ->|intros [i Hi]; eauto].
Qed.

Lemma decode_enc fuel n :
  wire_ok n -> (length (enc_of n) < fuel)%nat -> decode_rlp fuel (enc_of n) = Ok (stub n).
Proof.
  revert n. induction fuel as [|fuel IH]; intros n Hw Hf; [lia|].
  destruct (list_shaped n) eqn:Hs.
  - assert (Hpos : (0 < length (enc_of n))%nat).
    { destruct (wire_items n Hw) as [Hit Hlen]. destruct (payload_items n) as [|e es] eqn:Ep.
      - destruct n as [[|cs|p v|p c|d] cache]; try discriminate.
        unfold payload_items in Ep. cbn [as_data] in Ep. by destruct (child_encode <$> child_refs cs).
      - assert (E : rlp_at (enc_of n) 0 = Some e).
        { replace (enc_of n) with (list_encode (payload_items n)) by (by destruct n as [[] ?]).
          rewrite Ep, rlp_at_list; [done|done|done|cbn; lia]. }
        apply rlp_at_shorter in E. lia. }
    destruct fuel as [|fuel]; [lia|]. apply decode_list_items; [done..|].
    intros c Hc Hcs Hlt. pose proof (wire_ok_child _ _ Hw Hc) as Hwc.
    apply IH; [done|]. pose proof (child_enc_shorter c n Hw Hc Hwc Hcs Hlt). lia.
  - destruct Hw as [cache|d cache Hd Hl| | |]; try discriminate Hs.
    + change (decode_rlp (S fuel)) with (decode_step (decode_rlp fuel)). unfold decode_step, enc_of.
      cbn [as_data]. by rewrite prototype_empty.
    + unfold enc_of. cbn [as_data]. rewrite string_encode_32 by done. by apply decode_digest.
Qed.

(** The stub has the node's reference and hash. *)
Lemma ref_of_stub_child c :
  ref_of (stub c) = ref_of c -> ref_of (stub_child stub c) = ref_of c.
Proof. unfold stub_child. by destruct (ref_of c) eqn:E. Qed.

Lemma ref_of_stub n : ref_of (stub n) = ref_of n.
Proof.
  induction n as [cache|cs cache IH|p v cache|p c cache IH|d cache] using node_ind; try done.
  - cbn [stub from_data ref_of]. do 2 f_equal. apply list_eq. intros i. rewrite !list_lookup_fmap.
    destruct (cs !! i) as [[c|]|] eqn:Ei; [|done..]. cbn. do 2 f_equal.
    apply (ref_of_stub_child c), (IH i c Ei).
  - cbn [stub from_data ref_of]. do 2 f_equal. apply (ref_of_stub_child c), IH.
Qed.

Lemma hash_of_stub n : hash_of (stub n) = hash_of n.
Proof. unfold hash_of. rewrite ref_of_stub. by destruct n as [[] ?]. Qed.

(** [encode] writes [enc_of]. *)
Lemma encode_enc_of n : cache_ok n -> digests32 n -> (encode n).1 = enc_of n.
Proof.
  intros Hok H32. destruct (list_shaped n) eqn:Hs; [|by destruct n as [[] ?]].
  destruct (encode_announces n Hok H32 Hs) as (pl & E & Hl). rewrite E.
  destruct n as [[|cs|p v|p c|d] cache]; try discriminate; unfold encode, payload_length in *;
    unfold enc_of, payload_items; cbn [as_data].
  - assert (Hch : forall i c, child_at cs i c -> cache_ok c).
    { intros i c. by eapply cache_ok_branch_inv. }
    assert (Hm : forall i c, child_at cs i c -> memo_post c (reference c)).
    { intros i c Hi. apply reference_spec. eauto. }
    pose proof (visited_refs cs Hch Hm) as Ev. pose proof (reference_all_again cs Hch) as HA.
    rewrite Ev in *. cbn [snd fst] in *. rewrite HA in E. cbn [fst] in E.
    apply app_inv_head in E. subst pl. unfold list_encode. rewrite concat_app.
    change (concat [[EMPTY_STRING_CODE]]) with [EMPTY_STRING_CODE]. unfold child_refs. by rewrite Hl.
  - cbn [fst] in *. apply app_inv_head in E. subst pl. unfold list_encode. cbn [concat].
    by rewrite app_nil_r, Hl.
  - pose proof (cache_ok_extension_inv _ _ _ Hok) as Hc.
    pose proof (reference_again c Hc) as HA. pose proof (memo_ref _ _ (reference_spec c Hc)) as Hr.
    destruct (reference c) as [r c']. cbn [fst snd] in *. subst r. rewrite HA in E. cbn [fst] in *.
    apply app_inv_head in E. subst pl. unfold list_encode. cbn [concat]. by rewrite app_nil_r, Hl.
Qed.

(** C23: decoding inverts encoding up to the children that were replaced by
    their hash: [decode] of what [encode] writes returns the node with its large
    children cut off, whose reference and hash are the node's. *)
Theorem decode_encode n :
  wire_ok n -> cache_ok n ->
  decode (encode n).1 = Ok (stub n) /\ ref_of (stub n) = ref_of n /\ hash_of (stub n) = hash_of n.
Proof.
  intros Hw Hok. rewrite encode_enc_of by auto using wire_ok_digests32.
  split_and!; [apply decode_enc; [done|lia]|apply ref_of_stub|apply hash_of_stub].
Qed.

(** ** Binding *)

(** The encodings of a trie's nodes, embedded ones included; a truncated node
    has none. *)
Fixpoint node_encodings (n : MptNode) : list (list Z) :=
  match n with
  | mkNode (Digest _) _ => []
  | mkNode (Branch cs) _ =>
      enc_of n :: concat ((fun o => match o with Some c => node_encodings c | None => [] end) <$> cs)
  | mkNode (Extension _ c) _ => enc_of n :: node_encodings c
  | _ => [enc_of n]
  end.

Lemma node_encodings_here n : is_digest n = false -> enc_of n ∈ node_encodings n.
Proof. destruct n as [[] ?]; try done; intros _; apply list_elem_of_here. Qed.

Lemma node_encodings_child c n : child_of c n -> node_encodings c ⊆ node_encodings n.
Proof.
  destruct n as [[|cs|p v|p d|d] cache]; cbn [child_of as_data]; try done.
  - intros [i Hi] e He. cbn [node_encodings]. apply list_elem_of_further.
    apply (elem_of_concat _ (node_encodings c)); [done|]. apply list_elem_of_fmap. exists (Some c). split; [done|].
    by eapply list_elem_of_lookup_2.
  - intros -> e He. by apply list_elem_of_further.
Qed.

Lemma encodings_child {K} c n : node_encodings n ⊆ K -> child_of c n -> node_encodings c ⊆ K.
Proof. intros Hn Hc. etrans; [by apply node_encodings_child|done]. Qed.

(** Caches do not matter. *)
Lemma equiv_children cs ds c1 c2 : mkNode (Branch cs) c1 ≡ mkNode (Branch ds) c2 ->
  forall i, match cs !! i, ds !! i with
    | Some (Some c), Some (Some e) => c ≡ e
    | Some None, Some None | None, None => True
    | _, _ => False
    end.
Proof.
  unfold equiv, MptNode_equiv. cbn [erase from_data]. intros [= E] i. apply (f_equal (lookup i)) in E.
  rewrite !list_lookup_fmap in E. destruct (cs !! i) as [[c|]|], (ds !! i) as [[e|]|]; cbn in E; try discriminate; try done.
  by injection E.
Qed.

#[export] Instance enc_of_proper : Proper ((≡) ==> (=)) enc_of.
Proof.
  intros [[|cs|p v|p c|d] cn] [[|ds|q w|q e|d'] cm] E; try (unfold equiv, MptNode_equiv in E; cbn in E; discriminate E).
  - done.
  - unfold enc_of, payload_items. cbn [as_data]. do 3 f_equal. apply list_eq. intros i. unfold child_refs.
    rewrite !list_lookup_fmap. pose proof (equiv_children _ _ _ _ E i) as Hi.
    destruct (cs !! i) as [[c|]|], (ds !! i) as [[e|]|]; try done. cbn. by rewrite Hi.
  - by injection E as -> ->.
  - injection E as -> E. change (c ≡ e) in E. unfold enc_of, payload_items. cbn [as_data]. by rewrite E.
  - by injection E as ->.
Qed.

Lemma node_encodings_equiv n : forall m, n ≡ m -> node_encodings n = node_encodings m.
Proof.
  induction n as [cache|cs cache IH|p v cache|p c cache IH|d cache] using node_ind;
    intros [[|ds|q w|q e|d'] cm] E; try (unfold equiv, MptNode_equiv in E; cbn in E; discriminate E).
  - done.
  - cbn [node_encodings]. rewrite (enc_of_proper _ _ E). do 2 f_equal. apply list_eq. intros i. rewrite !list_lookup_fmap.
    pose proof (equiv_children _ _ _ _ E i) as Hi. destruct (cs !! i) as [[c|]|] eqn:Ec, (ds !! i) as [[e|]|]; try done.
    cbn. f_equal. by apply (IH i c Ec).
  - by injection E as -> ->.
  - cbn [node_encodings]. rewrite (enc_of_proper _ _ E). f_equal. injection E as _ E. by apply IH.
  - done.
Qed.

Lemma reference_of_encoding_inj K e1 e2 : coll_free K -> e1 ∈ K -> e2 ∈ K ->
  reference_of_encoding e1 = reference_of_encoding e2 -> e1 = e2.
Proof.
  intros HK H1' H2. unfold reference_of_encoding. repeat case_decide; intros [= E]; [done|].
  by apply (coll_free_inj K).
Qed.

Lemma resolved_ref_enc n : wire_ok n -> resolved n -> ref_of n = reference_of_encoding (enc_of n).
Proof.
  intros Hw Hr. destruct (list_shaped n) eqn:Hs; [by apply ref_of_enc; auto using wire_ok_digests32|].
  destruct n as [[|cs|p v|p c|d] cache]; try discriminate; [|by inversion Hr].
  unfold reference_of_encoding. by rewrite decide_True by (cbn; lia).
Qed.

Lemma enc_stub_inj n1 n2 : wire_ok n1 -> wire_ok n2 -> enc_of n1 = enc_of n2 -> stub n1 = stub n2.
Proof.
  intros H1' H2 E. pose proof (decode_enc (S (length (enc_of n1))) n1 H1') as D1.
  pose proof (decode_enc (S (length (enc_of n1))) n2 H2) as D2. rewrite <- E in D2.
  rewrite D1 in D2 by lia. assert (D : Ok (E := Error) (stub n1) = Ok (stub n2)) by (apply D2; lia).
  by injection D.
Qed.

Lemma resolved_nondigest t : resolved t -> is_digest t = false.
Proof. by destruct 1. Qed.

Lemma nondigest_ref_enc n :
  wire_ok n -> is_digest n = false -> ref_of n = reference_of_encoding (enc_of n).
Proof.
  intros Hw Hd. destruct (list_shaped n) eqn:Hs; [by apply ref_of_enc; auto using wire_ok_digests32|].
  destruct n as [[|cs|p v|p c|d] cache]; try discriminate.
  unfold reference_of_encoding. by rewrite decide_True by (cbn; lia).
Qed.

Lemma hash_of_nondigest m : keccak256 [EMPTY_STRING_CODE] = EMPTY_ROOT ->
  wire_ok m -> is_digest m = false -> hash_of m = keccak256 (enc_of m).
Proof.
  intros He Hm Hd. pose proof (nondigest_ref_enc m Hm Hd) as Hre. unfold hash_of. rewrite Hre.
  unfold reference_of_encoding. destruct m as [[] ?]; cbn [as_data]; try (by case_decide).
  by rewrite <- He.
Qed.

Lemma ref_binds K n1 : coll_free K -> forall n2,
  wire_ok n1 -> resolved n1 -> wire_ok n2 -> resolved n2 -> node_encodings n1 ⊆ K -> node_encodings n2 ⊆ K ->
  ref_of n1 = ref_of n2 -> n1 ≡ n2.
Proof.
  intros HK. induction n1 as [cache|cs cache IH|p v cache|p c cache IH|d cache] using node_ind;
    intros n2 Hw1 Hr1 Hw2 Hr2 Hk1 Hk2 E; [..|by inversion Hr1].
  all: rewrite (resolved_ref_enc _ Hw1 Hr1), (resolved_ref_enc _ Hw2 Hr2) in E.
  all: apply (reference_of_encoding_inj K) in E;
    [|done|by apply Hk1, node_encodings_here|by apply Hk2, node_encodings_here; destruct Hr2].
  all: apply (enc_stub_inj _ _ Hw1 Hw2) in E.
  all: destruct n2 as [[|ds|q w|q e|d2] cache2]; cbn [stub from_data] in E; try discriminate E.
  - done.
  - injection E as E.
    assert (Hi : forall i, option_map erase <$> cs !! i = option_map erase <$> ds !! i).
    { intros i. apply (f_equal (lookup i)) in E. rewrite !list_lookup_fmap in E.
      destruct (cs !! i) as [[c|]|] eqn:Ei, (ds !! i) as [[e|]|] eqn:Ei'; cbn in E; try discriminate; try done.
      injection E as E. fold (stub_child stub c) in E. fold (stub_child stub e) in E.
      apply (f_equal ref_of) in E. rewrite !ref_of_stub_child in E by apply ref_of_stub.
      cbn. do 2 f_equal. apply (IH i c Ei e); [| | | | | |done].
      - apply (wire_ok_child _ _ Hw1). by exists i.
      - inversion Hr1; subst. eauto.
      - apply (wire_ok_child _ _ Hw2). by exists i.
      - inversion Hr2; subst. eauto.
      - apply (encodings_child _ _ Hk1). by exists i.
      - apply (encodings_child _ _ Hk2). by exists i. }
    unfold equiv, MptNode_equiv. cbn [erase].
    do 2 f_equal. apply list_eq. intros i. by rewrite !list_lookup_fmap.
  - by injection E as -> ->.
  - injection E as -> E. fold (stub_child stub c) in E. fold (stub_child stub e) in E.
    apply (f_equal ref_of) in E. rewrite !ref_of_stub_child in E by apply ref_of_stub.
    unfold equiv, MptNode_equiv. cbn [erase]. do 2 f_equal. apply (IH e); [..|done].
    + by apply (wire_ok_child _ _ Hw1).
    + by inversion Hr1.
    + by apply (wire_ok_child _ _ Hw2).
    + by inversion Hr2.
    + by apply (encodings_child _ _ Hk1).
    + by apply (encodings_child _ _ Hk2).
Qed.

(** C20: the root hash binds the contents.  If two fully resolved tries have
    the same root hash, and no two of the encodings of their nodes collide
    under Keccak-256, then they are equal (caches apart), hence answer every
    lookup alike.  [EMPTY_ROOT] is the hash of the empty trie's encoding. *)
Theorem root_binds_contents n1 n2 :
  keccak256 [EMPTY_STRING_CODE] = EMPTY_ROOT ->
  wire_ok n1 -> resolved n1 -> wire_ok n2 -> resolved n2 ->
  coll_free (node_encodings n1 ++ node_encodings n2) ->
  hash_of n1 = hash_of n2 ->
  n1 ≡ n2 /\ forall key, get n1 key = get n2 key.
Proof.
  intros He Hw1 Hr1 Hw2 Hr2 HK E.
  rewrite !hash_of_nondigest in E by (done || by apply resolved_nondigest).
  assert (Ee : enc_of n1 = enc_of n2).
  { apply (coll_free_inj _ _ _ HK); [..|done]; apply elem_of_app;
      [left|right]; by apply node_encodings_here, resolved_nondigest. }
  assert (Heq : n1 ≡ n2).
  { apply (ref_binds _ n1 HK n2); [done..| | |by rewrite !resolved_ref_enc, Ee]; intros e; rewrite elem_of_app; auto. }
  split; [done|]. intros key. unfold get. by apply get_equiv.
Qed.

(** ** A partial trie with the right root does not lie *)

Lemma stub_child_refs c e :
  stub_child stub c = stub_child stub e -> ref_of c = ref_of e.
Proof.
  intros E. apply (f_equal ref_of) in E. by rewrite !ref_of_stub_child in E by apply ref_of_stub.
Qed.

Lemma stub_branch_refs cs ds c1 c2 :
  stub (mkNode (Branch cs) c1) = stub (mkNode (Branch ds) c2) ->
  forall i, match cs !! i, ds !! i with
    | Some (Some c), Some (Some e) => ref_of c = ref_of e
    | Some None, Some None | None, None => True
    | _, _ => False
    end.
Proof.
  cbn [stub from_data]. intros [= E] i. apply (f_equal (lookup i)) in E.
  rewrite !list_lookup_fmap in E.
  destruct (cs !! i) as [[c|]|], (ds !! i) as [[e|]|]; cbn in E; try discriminate; try done.
  injection E as E. by apply stub_child_refs.
Qed.

Definition answers_agree (n t : MptNode) : Prop :=
  forall k o, get_internal n k = Ok o -> get_internal t k = Ok o.

Lemma ref_agree K n : coll_free K -> forall t,
  wire_ok n -> wire_ok t -> resolved t -> node_encodings n ⊆ K -> node_encodings t ⊆ K ->
  ref_of n = ref_of t -> answers_agree n t.
Proof.
  intros HK. induction n as [cache|cs cache IH|p v cache|p c cache IH|d cache] using node_ind;
    intros t Hw Hwt Hrt Hkn Hkt E; [..|by intros k o].
  all: rewrite (nondigest_ref_enc _ Hw) in E by done; rewrite (resolved_ref_enc _ Hwt Hrt) in E.
  all: apply (reference_of_encoding_inj K) in E;
    [|done|by apply Hkn, node_encodings_here|by apply Hkt, node_encodings_here, resolved_nondigest].
  all: apply (enc_stub_inj _ _ Hw Hwt) in E.
  all: destruct t as [[|ds|q w|q e|d2] cache2]; try discriminate E.
  - by intros k o.
  - pose proof (stub_branch_refs _ _ _ _ E) as Hrefs. intros [|x k] o; [done|].
    rewrite !get_Branch. specialize (Hrefs (Z.to_nat x)).
    destruct (cs !! Z.to_nat x) as [[c|]|] eqn:Ec, (ds !! Z.to_nat x) as [[e|]|] eqn:Ee; try done.
    apply (IH _ c Ec e); [| | | | |exact Hrefs].
    + apply (wire_ok_child _ _ Hw). by exists (Z.to_nat x).
    + apply (wire_ok_child _ _ Hwt). by exists (Z.to_nat x).
    + inversion Hrt; subst. eauto.
    + apply (encodings_child _ _ Hkn). by exists (Z.to_nat x).
    + apply (encodings_child _ _ Hkt). by exists (Z.to_nat x).
  - injection E as <- <-. by intros k o.
  - injection E as <- E. fold (stub_child stub c) in E. fold (stub_child stub e) in E.
    apply stub_child_refs in E.
    assert (Hce : answers_agree c e).
    { apply (IH e); [| | | | |exact E].
      - by apply (wire_ok_child _ _ Hw).
      - by apply (wire_ok_child _ _ Hwt).
      - by inversion Hrt.
      - by apply (encodings_child _ _ Hkn).
      - by apply (encodings_child _ _ Hkt). }
    intros k o. cbn [get_internal]. destruct (prefix_nibs p); [|done].
    cbn [unwrap mbind outcome_bind]. destruct (strip_prefix _ _); [apply Hce|done].
Qed.

Lemma get_sparse K n t key o :
  keccak256 [EMPTY_STRING_CODE] = EMPTY_ROOT -> coll_free K ->
  wire_ok n -> wire_ok t -> resolved t -> node_encodings n ⊆ K -> node_encodings t ⊆ K -> hash_of n = hash_of t ->
  get n key = Ok o -> get t key = Ok o.
Proof.
  intros He HK Hw Hwt Hrt Hkn Hkt E Hg.
  destruct (is_digest n) eqn:Hd; [destruct n as [[] ?]; try discriminate; by cbn in Hg|].
  assert (Hdt : is_digest t = false) by by apply resolved_nondigest.
  rewrite !hash_of_nondigest in E by done.
  assert (Ee : enc_of n = enc_of t)
    by (apply (coll_free_inj _ _ _ HK); [apply Hkn|apply Hkt|done]; by apply node_encodings_here).
  unfold get in *. apply (ref_agree K n HK t); [done..|by rewrite !nondigest_ref_enc, Ee|done].
Qed.

(** A sparse trie cannot lie.  If a trie, however much of it is truncated,
    has the root hash of the full trie, and no two encodings of their nodes
    collide, then every lookup that succeeds on it, present or absent, gives the
    full trie's answer. *)
Theorem sparse_lookup_sound n t key o :
  keccak256 [EMPTY_STRING_CODE] = EMPTY_ROOT ->
  wire_ok n -> wire_ok t -> resolved t -> coll_free (node_encodings n ++ node_encodings t) -> hash_of n = hash_of t ->
  get n key = Ok o -> get t key = Ok o.
Proof.
  intros He Hw Ht Hr HK. apply (get_sparse _ n t key o He HK Hw Ht Hr); intros e; rewrite elem_of_app; auto.
Qed.

(** ** Termination and the empty path *)

Lemma decode_step_ext d1 d2 rlp :
  (forall item, (length item < length rlp)%nat -> d1 item = d2 item) ->
  decode_step d1 rlp = decode_step d2 rlp.
Proof.
  intros Hd. unfold decode_step.
  assert (Hc : forall idxs, decode_children d1 rlp idxs = decode_children d2 rlp idxs).
  { induction idxs as [|i idxs IH]; [done|]. cbn [decode_children].
    destruct (rlp_at rlp i) as [item|] eqn:Ei; [|done]. apply rlp_at_shorter in Ei.
    unfold decode_child. rewrite Hd by done. by rewrite IH. }
  destruct (prototype rlp) as [[|n|n]|]; cbn [of_reader mbind outcome_bind];
    [reflexivity..| |reflexivity].
  destruct (decide (n = 2%nat)) as [->|H2].
  - destruct (val_at rlp 0) as [path| |]; [|done..]. cbn [mbind outcome_bind].
    destruct (head path); [|done]. cbn [unwrap mbind outcome_bind]. case_match; [|done].
    destruct (rlp_at rlp 1) as [item|] eqn:Ei; [|done]. apply rlp_at_shorter in Ei.
    cbn [of_reader mbind outcome_bind]. by rewrite Hd.
  - destruct (decide (n = 17%nat)) as [->|H17]; [by rewrite Hc|].
    do 18 (destruct n as [|n];
      [first [exfalso; lia | cbv iota; reflexivity]|]). reflexivity.
Qed.

(** Decoding terminates.  The recursion depth is bounded by the length of
    the input, so [decode] is the fixed point of the source's recursive
    function: any larger bound gives the same result, and unfolding it once
    gives the source's equation. *)
Theorem decode_terminates rlp fuel :
  (length rlp < fuel)%nat ->
  decode_rlp fuel rlp = decode rlp /\ decode rlp = decode_step decode rlp.
Proof.
  assert (St : forall f1 f2 r, (length r < f1)%nat -> (length r < f2)%nat ->
    decode_rlp f1 r = decode_rlp f2 r).
  { induction f1 as [|f1 IH]; intros [|f2] r Hf1 Hf2; [lia..|]. cbn [decode_rlp].
    apply decode_step_ext. intros item Hi. apply IH; lia. }
  intros Hf. unfold decode. split; [apply (St fuel (S (length rlp))); lia|].
  change (decode_rlp (S (length rlp)) rlp) with (decode_step (decode_rlp (length rlp)) rlp).
  apply decode_step_ext. intros item Hi. apply (St (length rlp) (S (length item))); lia.
Qed.

(** A two-element list whose first element is the empty string, which is
    valid RLP, makes the decoder index [path[0]] out of range: it panics instead
    of returning a [DecoderError]. *)
Theorem decode_empty_path_panics x :
  rlp_item x -> Z.of_nat (length x) < 2 ^ 32 -> decode (list_encode [string_encode []; x]) = Panic.
Proof.
  intros Hx Hl. assert (He : rlp_item (string_encode [])) by (constructor; [constructor|cbn; lia]).
  assert (HI : Forall rlp_item [string_encode []; x]) by (apply Forall_cons; split; [done|by apply Forall_singleton]).
  assert (HL : Z.of_nat (length (concat [string_encode []; x])) < 2 ^ 64).
  { cbn [concat]. rewrite !length_app, string_encode_empty. cbn [length]. lia. }
  unfold decode. generalize (length (list_encode [string_encode []; x])). intros fuel.
  change (decode_rlp (S fuel)) with (decode_step (decode_rlp fuel)).
  unfold decode_step. rewrite prototype_list by done.
  cbn [of_reader mbind outcome_bind length]. unfold val_at. rewrite !rlp_at_list by (done || (cbn; lia)).
  cbn [lookup list_lookup of_reader mbind outcome_bind].
  rewrite rlp_as_val_string by (constructor || (cbn; lia)). reflexivity.
Qed.
End Wire.

(** ** The theorems at concrete inputs *)
Section Samples.
#[local] Existing Instance RefRlp.alloy.
#[local] Existing Instance RefRlp.reader.

(** A stand-in hash function with the right value on the empty trie. *)
#[local] Instance sample_keccak : Keccak.
Proof.
  refine {| keccak256 b := if decide (b = [EMPTY_STRING_CODE]) then EMPTY_ROOT
    else be_encode 32 (be_decode (1 :: b) mod (2 ^ 256 - 189)) |}.
  - intros b. case_decide; [done|apply length_be_encode].
  - intros b. case_decide; [|apply be_encode_bytes]. apply (bool_decide_unpack _). by vm_compute.
Defined.

Definition sample_children : list (option MptNode) :=
  Some (from_data (Leaf (to_encoded_path [1; 2] true) [7])) ::
  Some (from_data (Leaf (to_encoded_path [3; 4] true) (replicate 40 9))) :: replicate 14 None.

(** A branch with an embedded and a hashed child. *)
Definition sample_branch : MptNode := from_data (Branch sample_children).

Lemma sample_child_ok i c : child_at sample_children i c ->
  (wire_ok c /\ ~ is_null c) /\ cache_ok c /\ resolved c.
Proof.
  assert (L : forall p v, Forall is_nib p -> Bytes v -> (length v < 100)%nat -> (length p < 10)%nat ->
    Z.of_nat (string_length (to_encoded_path p true) + string_length v) < 2 ^ 64 ->
    let c := from_data (Leaf (to_encoded_path p true) v) in
    (wire_ok c /\ ~ is_null c) /\ cache_ok c /\ resolved c).
  { intros p v Hp Hv _ _ Hl. split_and!; [by apply wire_Leaf|done|apply cache_ok_leaf|constructor]. }
  unfold child_at, sample_children. intros Hi.
  destruct i as [|[|i]]; cbn [lookup list_lookup] in Hi.
  - injection Hi as <-. apply L; try (by vm_compute); apply (bool_decide_unpack _); by vm_compute.
  - injection Hi as <-. apply L; try (by vm_compute); apply (bool_decide_unpack _); by vm_compute.
  - apply lookup_replicate in Hi as [? _]. done.
Qed.

Lemma sample_branch_ok : wire_ok sample_branch /\ cache_ok sample_branch /\ resolved sample_branch.
Proof.
  split_and!.
  - apply wire_Branch; [done|intros i c Hi; by apply (sample_child_ok i)..].
  - apply cache_ok_branch. intros i c Hi. by apply (sample_child_ok i).
  - constructor. intros i c Hi. by apply (sample_child_ok i).
Qed.

Lemma decode_encode_witness :
  decode (encode sample_branch).1 = Ok (stub sample_branch) /\
  ref_of (stub sample_branch) = ref_of sample_branch /\
  hash_of (stub sample_branch) = hash_of sample_branch.
Proof.
  apply (decode_encode (laws := RefRlp.alloy_laws) (rlaws := RefRlp.reader_laws) sample_branch);
    apply sample_branch_ok.
Defined.

Definition sample_branch_cached : MptNode :=
  mkNode (Branch sample_children) (Some (ref_of sample_branch)).

Lemma root_binds_contents_witness :
  sample_branch ≡ sample_branch_cached /\
  forall key, get sample_branch key = get sample_branch_cached key.
Proof.
  apply (root_binds_contents (laws := RefRlp.alloy_laws) (rlaws := RefRlp.reader_laws)
           sample_branch sample_branch_cached); [by vm_compute|apply sample_branch_ok..| | | |].
  - apply wire_Branch; [done|intros i c Hi; by apply (sample_child_ok i)..].
  - constructor. intros i c Hi. by apply (sample_child_ok i).
  - apply (bool_decide_unpack _). by vm_compute.
  - by vm_compute.
Defined.

Definition sample_large_leaf : MptNode :=
  from_data (Leaf (to_encoded_path [3; 4] true) (replicate 40 9)).

(** The same branch with the large child cut off. *)
Definition sample_sparse : MptNode :=
  from_data (Branch (Some (from_data (Leaf (to_encoded_path [1; 2] true) [7])) ::
    Some (from_data (Digest (hash_of sample_large_leaf))) :: replicate 14 None)).

Lemma sample_sparse_ok : wire_ok sample_sparse.
Proof.
  apply wire_Branch; [done| |]; intros [|[|i]] c Hi; unfold child_at in Hi;
    cbn [lookup list_lookup] in Hi.
  - apply (sample_child_ok 0%nat). exact Hi.
  - injection Hi as <-. apply wire_Digest; [|done]. apply (bool_decide_unpack _). by vm_compute.
  - apply lookup_replicate in Hi as [? _]. done.
  - apply (sample_child_ok 0%nat). exact Hi.
  - by injection Hi as <-.
  - apply lookup_replicate in Hi as [? _]. done.
Qed.

Lemma sparse_lookup_sound_witness :
  get sample_sparse [32] = Ok None /\ get sample_branch [32] = Ok None.
Proof.
  split; [by vm_compute|].
  apply (sparse_lookup_sound (laws := RefRlp.alloy_laws) (rlaws := RefRlp.reader_laws)
           sample_sparse sample_branch [32] None);
    [by vm_compute|apply sample_sparse_ok|apply sample_branch_ok..| |by vm_compute|by vm_compute].
  apply (bool_decide_unpack _). by vm_compute.
Defined.

Lemma decode_terminates_witness :
  decode_rlp 100 [192] = decode [192] /\ decode [192] = decode_step decode [192].
Proof. apply (decode_terminates (rlaws := RefRlp.reader_laws) [192] 100). cbn. lia. Defined.

Lemma decode_empty_path_panics_witness : decode (list_encode [string_encode []; [5]]) = Panic.
Proof.
  apply (decode_empty_path_panics (laws := RefRlp.alloy_laws) (rlaws := RefRlp.reader_laws) [5]).
  - change (rlp_item (string_encode [5])). apply (item_string [5]); [apply (bool_decide_unpack _); by vm_compute|cbn; lia].
  - cbn. lia.
Defined.
End Samples.
