(* ===== verification/MptProof.v ===== *)
(** * Building tries from proofs ([crates/mpt/src/mpt.rs], proof half)

    A proof is a list of encoded nodes.  [mpt_from_proof] chains them into one
    trie; [resolve_nodes] replaces every digest whose node is in a store.  Both
    rewrite the trie without changing any reference, so the root hash the
    caller checks afterwards covers the nodes that were plugged in. *)
From S2P Require Import Prelude BytesCodec Nibbles Mpt MptInv MptInsert MptDelete MptMap.
From S2P Require Import Rlp MptHash MptCache MptWire.

(** [enum FromProofError] ([crates/mpt/src/lib.rs]). *)
Inductive FromProofError : Type :=
  | NodeNotFoundByHash (i : nat)
  | NodeHasInvalidSuccessor (i : nat)
  | NodeCannotHaveChildren (i : nat)
  | MismatchedStorageRoot (address found expected : list Z)
  | MismatchedStateRoot (found expected : list Z)
  | DecodingError (e : Error).

#[export] Instance MptNodeReference_countable : Countable MptNodeReference.
Proof.
  refine (inj_countable' (fun r => match r with RefBytes b => inl b | RefDigest d => inr d end)
    (fun s => match s with inl b => RefBytes b | inr d => RefDigest d end) _).
  by intros [].
Defined.

(** [HashMap<MptNodeReference, MptNode>]. *)
Abbreviation node_store := (gmap MptNodeReference MptNode).

Section Proofs.
Context `{Keccak, AlloyRlp, RlpReader}.

(** [store.insert(node.reference(), node)]. *)
Definition store_insert (node : MptNode) (store : node_store) : node_store :=
  let '(r, node') := reference node in <[r := node']> store.

(** [store.entry(node.reference()).or_insert(node)]. *)
Definition store_or_insert (node : MptNode) (store : node_store) : node_store :=
  let '(r, node') := reference node in
  match store !! r with Some _ => store | None => <[r := node']> store end.

(** [parse_proof]. *)
Definition parse_proof (proof : list (list Z)) : outcome Error (list MptNode) := mapM decode proof.

(** [matches!(child.as_data(), Digest(d) if d == child_ref)]. *)
Definition is_digest_of (child_ref : list Z) (child : MptNode) : bool :=
  match as_data child with Digest d => bool_decide (d = child_ref) | _ => false end.

(** The first child that is the digest [d]. *)
Fixpoint find_digest (children : list (option MptNode)) (d : list Z) : option nat :=
  match children with
  | [] => None
  | Some child :: children' =>
      if is_digest_of d child then Some 0%nat else S <$> find_digest children' d
  | None :: children' => S <$> find_digest children' d
  end.

(** One iteration of [mpt_from_proof]: node [i] with its successor plugged in. *)
Definition attach (i : nat) (node replacement : MptNode) : outcome FromProofError MptNode :=
  let '(r, replacement) := reference replacement in
  match r with
  | RefBytes _ => Err (NodeNotFoundByHash (i + 1))
  | RefDigest child_ref =>
      match as_data node with
      | Branch children =>
          match find_digest children child_ref with
          | Some k => Ok (from_data (Branch (<[k := Some replacement]> children)))
          | None => Err (NodeHasInvalidSuccessor i)
          end
      | Extension prefix child =>
          if is_digest_of child_ref child
          then Ok (from_data (Extension prefix replacement))
          else Err (NodeHasInvalidSuccessor i)
      | Null | Leaf _ _ | Digest _ => Err (NodeCannotHaveChildren i)
      end
  end.

Fixpoint from_proof_loop (i : nat) (proof_nodes : list MptNode)
  : outcome FromProofError (option MptNode) :=
  match proof_nodes with
  | [] => Ok None
  | node :: rest =>
      next ← from_proof_loop (S i) rest;
      match next with
      | None => Ok (Some node)
      | Some replacement => Some <$> attach i node replacement
      end
  end.

(** [mpt_from_proof]. *)
Definition mpt_from_proof (proof_nodes : list MptNode) : outcome FromProofError MptNode :=
  next ← from_proof_loop 0 proof_nodes; Ok (default default_node next).

(** [from_account_proof]. *)
Definition from_account_proof (account_proof : list (list Z)) : outcome FromProofError MptNode :=
  nodes ← map_err DecodingError (parse_proof account_proof); mpt_from_proof nodes.

(** [.unwrap()] on a [Result]. *)
Definition unwrap_res {E F A} (c : outcome E A) : outcome F A :=
  match c with Ok a => Ok a | Err _ | Panic => Panic end.

(** [is_not_included]. *)
Definition is_not_included (key : list Z) (proof_nodes : list MptNode)
  : outcome FromProofError bool :=
  proof_trie ← unwrap_res (mpt_from_proof proof_nodes);
  value ← unwrap_res (get proof_trie key);
  Ok (match value with None => true | Some _ => false end).

(** [resolve_nodes]; [fuel] bounds the recursion. *)
Fixpoint resolve_nodes {E} (fuel : nat) (root : MptNode) (store : node_store)
  : outcome E MptNode :=
  match fuel with
  | O => Panic
  | S fuel' =>
      match as_data root with
      | Null | Leaf _ _ => Ok root
      | Branch children =>
          children' ← mapM (fun child => match child with
            | Some node => Some <$> resolve_nodes fuel' node store
            | None => Ok None end) children;
          Ok (from_data (Branch children'))
      | Extension prefix target =>
          target' ← resolve_nodes fuel' target store;
          Ok (from_data (Extension prefix target'))
      | Digest digest =>
          match store !! RefDigest digest with
          | Some node => resolve_nodes fuel' node store
          | None => Ok root
          end
      end
  end.

(** [add_orphaned_leafs]. *)
Definition add_orphaned_leafs (key : list Z) (proof : list (list Z)) (store : node_store)
  : outcome FromProofError node_store :=
  if decide (proof = []) then Ok store
  else
    proof_nodes ← map_err DecodingError (parse_proof proof);
    absent ← is_not_included (keccak256 key) proof_nodes;
    if absent : bool then
      leaf ← unwrap (last proof_nodes);
      shortened ← unwrap_res (shorten_node_path leaf);
      Ok (foldl (fun s n => store_insert n s) store shortened)
    else Ok store.

(** ** Coherent stores *)

(** Every node is filed under its own reference, with coherent caches. *)
Definition store_ok (store : node_store) : Prop :=
  forall r n, store !! r = Some n -> ref_of n = r /\ cache_ok n.

Lemma store_ok_empty : store_ok ∅.
Proof. intros r n Hn. by rewrite lookup_empty in Hn. Qed.

Lemma store_insert_ok n store : cache_ok n -> store_ok store -> store_ok (store_insert n store).
Proof.
  intros Hn Hs r m. unfold store_insert. destruct (reference_spec n Hn) as [Hr Heq Hok _].
  destruct (reference n) as [r0 n']. cbn in *. rewrite lookup_insert. case_decide as Hd; [|apply Hs].
  intros [= <-]. split; [|done]. rewrite <- Hd, Hr. by apply ref_of_proper.
Qed.

Lemma store_or_insert_ok n store :
  cache_ok n -> store_ok store -> store_ok (store_or_insert n store).
Proof.
  intros Hn Hs. pose proof (store_insert_ok n store Hn Hs) as Hi.
  unfold store_or_insert, store_insert in *. destruct (reference n). by case_match.
Qed.

(** Decoded nodes carry no caches at all. *)
Lemma decode_children_cache_ok dec rlp idxs cs :
  (forall item n, dec item = Ok n -> cache_ok n) ->
  decode_children dec rlp idxs = Ok cs -> forall i c, child_at cs i c -> cache_ok c.
Proof.
  intros Hd. revert cs. induction idxs as [|i0 idxs IH]; intros cs E i c Hc; cbn [decode_children] in E.
  - injection E as <-. done.
  - destruct (rlp_at rlp i0) as [item|]; [|by injection E as <-]. inv_ok.
    destruct i as [|i]; [|exact (IH a0 Ha0 i c Hc)]. unfold child_at in Hc. cbn in Hc.
    injection Hc as ->. unfold decode_child in Ha. inv_ok.
    assert (Hda : Some <$> dec item = Ok (Some c)) by (by destruct a as [|[|k]|]).
    destruct (dec item) as [m| |] eqn:Em; try discriminate. injection Hda as ->. eauto.
Qed.

Lemma decode_rlp_cache_ok fuel rlp n : decode_rlp fuel rlp = Ok n -> cache_ok n.
Proof.
  revert rlp n. induction fuel as [|fuel IH]; intros rlp n E; [discriminate|].
  change (decode_step (decode_rlp fuel) rlp = Ok n) in E. unfold decode_step in E.
  apply bind_Ok in E as (pt & _ & E).
  destruct pt as [|k|k].
  - injection E as <-. apply cache_ok_null.
  - destruct (decide (k = 0%nat)) as [->|Hk0]; [injection E as <-; apply cache_ok_null|].
    destruct (decide (k = 32%nat)) as [->|Hk32].
    + inv_ok. by apply (cache_ok_fresh _ None).
    + do 33 (destruct k as [|k]; [first [exfalso; lia | discriminate E]|]). discriminate E.
  - destruct (decide (k = 2%nat)) as [->|Hk2]; [|destruct (decide (k = 17%nat)) as [->|Hk17]].
    + inv_ok. case_match; inv_ok; [by eapply cache_ok_extension, IH|apply cache_ok_leaf].
    + inv_ok. case_match; [|discriminate]. inv_ok. unfold exactly in *. case_decide; inv_ok. subst.
      apply cache_ok_branch. by eapply decode_children_cache_ok.
    + do 18 (destruct k as [|k]; [first [exfalso; lia | discriminate E]|]). discriminate E.
Qed.

Lemma decode_cache_ok rlp n : decode rlp = Ok n -> cache_ok n.
Proof. apply decode_rlp_cache_ok. Qed.

Lemma parse_proof_cache_ok proof nodes : parse_proof proof = Ok nodes -> Forall cache_ok nodes.
Proof.
  unfold parse_proof. revert nodes. induction proof as [|b proof IH]; intros nodes E; cbn in E.
  - by injection E as <-.
  - inv_ok. injection E as <-. constructor; [exact (decode_cache_ok b a Ha)|auto].
Qed.

(** ** [mpt_from_proof] keeps the root *)

Lemma is_digest_of_ref d c : is_digest_of d c = true -> ref_of c = RefDigest d.
Proof.
  destruct c as [[|ds|p v|p e|d'] cache]; cbn; try discriminate.
  by intros ->%bool_decide_eq_true.
Qed.

Lemma find_digest_Some cs d k :
  find_digest cs d = Some k -> exists c, child_at cs k c /\ ref_of c = RefDigest d.
Proof.
  revert k. induction cs as [|[c|] cs IH]; intros k E; [discriminate|..]; cbn [find_digest] in E.
  - destruct (is_digest_of d c) eqn:Ed.
    + injection E as <-. exists c. split; [done|by apply is_digest_of_ref].
    + destruct (find_digest cs d) as [k'|]; [|discriminate]. injection E as <-. by apply IH.
  - destruct (find_digest cs d) as [k'|]; [|discriminate]. injection E as <-. by apply IH.
Qed.

Lemma child_refs_insert cs k c c' :
  child_at cs k c -> ref_of c = ref_of c' ->
  child_refs (<[k := Some c']> cs) = child_refs cs.
Proof.
  intros Hk E. unfold child_refs. apply list_eq. intros i. rewrite !list_lookup_fmap.
  rewrite list_lookup_insert. case_decide as Hd; [|done]. destruct Hd as [-> Hl].
  unfold child_at in Hk. rewrite Hk. cbn. by rewrite E.
Qed.

Lemma attach_spec i node replacement t :
  cache_ok node -> cache_ok replacement -> attach i node replacement = Ok t ->
  ref_of t = ref_of node /\ cache_ok t /\ ~ is_null t /\ ~ is_null node.
Proof.
  intros Hn Hc E. unfold attach in E. destruct (reference_spec replacement Hc) as [Hr Heq Hok _].
  destruct (reference replacement) as [r rep]. cbn in *.
  assert (Hrep : ref_of rep = ref_of replacement) by (by apply ref_of_proper).
  destruct r as [|d]; [discriminate|]. destruct node as [[|cs|p v|p c|d'] cache];
    cbn [as_data] in E; try discriminate.
  - destruct (find_digest cs d) as [k|] eqn:Ek; [|discriminate]. injection E as <-.
    apply find_digest_Some in Ek as (c & Hk & Hcd). split_and!; [| |done..].
    + cbn [from_data ref_of]. do 2 f_equal. apply (child_refs_insert cs k c rep Hk). congruence.
    + apply (cache_ok_branch_set _ cache); [done|by eapply child_at_lt|by intros ? [= <-]].
  - destruct (is_digest_of d c) eqn:Hd; [|discriminate]. injection E as <-.
    apply is_digest_of_ref in Hd. split_and!; [|by apply cache_ok_extension|done..].
    cbn [from_data ref_of]. do 2 f_equal. congruence.
Qed.

Lemma from_proof_loop_spec i nodes o :
  Forall cache_ok nodes -> from_proof_loop i nodes = Ok o ->
  match o with
  | None => nodes = []
  | Some t => exists n, head nodes = Some n /\ ref_of t = ref_of n /\ cache_ok t /\
                        (is_null t <-> is_null n)
  end.
Proof.
  intros Hok. revert i o. induction Hok as [|n nodes Hn _ IH]; intros i o E; cbn [from_proof_loop] in E.
  - by injection E as <-.
  - inv_ok. specialize (IH _ _ Ha). destruct a as [rep|].
    + destruct IH as (m & _ & _ & Hrep & _).
      destruct (attach i n rep) as [t| |] eqn:Ea; try discriminate. injection E as <-.
      destruct (attach_spec i n rep t Hn Hrep Ea) as (Hr & Hc & ? & ?). by exists n.
    + inv_ok. by exists n.
Qed.

Lemma hash_of_same a b : ref_of a = ref_of b -> (is_null a <-> is_null b) -> hash_of a = hash_of b.
Proof.
  unfold hash_of, is_null. intros -> Hn. destruct a as [da ca], b as [db cb]. cbn [as_data] in *.
  destruct da, db; try done; exfalso; naive_solver.
Qed.

(** A trie built from a proof has the hash of the proof's first node: a
    successor is only plugged in where its own hash stood, so the check of the
    root hash vouches for every node of the proof. *)
Theorem mpt_from_proof_root n nodes t :
  Forall cache_ok (n :: nodes) -> mpt_from_proof (n :: nodes) = Ok t ->
  hash_of t = hash_of n /\ ref_of t = ref_of n /\ cache_ok t.
Proof.
  intros Hok E. unfold mpt_from_proof in E. inv_ok.
  pose proof (from_proof_loop_spec _ _ _ Hok Ha) as Hs.
  destruct a as [t'|]; [|discriminate]. cbn [default from_option id].
  destruct Hs as (n' & [= <-] & Hr & Hc & Hnull). split_and!; [|done..].
  by apply hash_of_same.
Qed.
End Proofs.
