(* ===== verification/MptTries.v ===== *)
(** * State and storage tries from proofs ([crates/mpt/src/{mpt,lib}.rs])

    [resolve_nodes] plugs a store of nodes into a trie, keeping its root; on
    top of it, the builders of an [EthereumState] from EIP-1186 proofs and from
    multiproofs.  Every builder ends in a comparison of the rebuilt roots with
    the declared ones, which is the content of [multiproofs_sound] and
    [proofs_sound].  A [HashMap] iterated over is a list of its entries in the
    order the iterator visits them. *)
From S2P Require Import Prelude BytesCodec Nibbles Mpt MptInv MptInsert MptDelete MptMap.
From S2P Require Import Rlp MptHash MptCache MptWire MptProof.

(** [struct EthereumState]. *)
Record EthereumState : Type := {
  state_trie : MptNode;
  storage_tries : gmap (list Z) MptNode }.

(** [reth_trie::{StorageMultiProof, MultiProof}]: [subtree] lists paths and
    encoded nodes. *)
Record StorageMultiProof : Type := {
  smp_root : list Z;
  smp_subtree : list (list Z * list Z) }.
Record MultiProof : Type := {
  account_subtree : list (list Z * list Z);
  storages : list (list Z * StorageMultiProof) }.

(** [reth_trie::{StorageProof, AccountProof}]. *)
Record StorageProof : Type := {
  sp_key : list Z;
  sp_proof : list (list Z) }.
Record AccountProof : Type := {
  ap_proof : list (list Z);
  ap_storage_root : list Z;
  ap_storage_proofs : list StorageProof }.

(** A loop whose body may fail. *)
Fixpoint for_each {E S A} (body : S -> A -> outcome E S) (s : S) (l : list A) : outcome E S :=
  match l with
  | [] => Ok s
  | x :: l' => s' ← body s x; for_each body s' l'
  end.

Section Tries.
Context `{Keccak, AlloyRlp, RlpReader}.

(** ** Multiproofs *)

(** One node of a before-proof: the root is recognised by its hash. *)
Definition collect_before (root : list Z) (s : node_store * MptNode) (entry : list Z * list Z)
  : outcome FromProofError (node_store * MptNode) :=
  let '(nodes, root_node) := s in
  node ← map_err DecodingError (decode entry.2);
  let '(h, node) := hash node in
  let root_node := if decide (h = root) then node else root_node in
  Ok (store_insert node nodes, root_node).

(** One node of an after-proof, with its shortened variants. *)
Definition collect_after (nodes : node_store) (entry : list Z * list Z)
  : outcome FromProofError node_store :=
  node ← map_err DecodingError (decode entry.2);
  let nodes := store_or_insert node nodes in
  shortened ← unwrap_res (shorten_node_path (reference node).2);
  Ok (foldl (fun s n => store_or_insert n s) nodes shortened).

(** The storage trie of one account. *)
Definition storage_from_multiproof (fuel : nat) (after : gmap (list Z) StorageMultiProof)
    (tries : gmap (list Z) MptNode) (entry : list Z * StorageMultiProof)
  : outcome FromProofError (gmap (list Z) MptNode) :=
  let '(hashed_address, before_storage) := entry in
  let storage_root := smp_root before_storage in
  if decide (smp_subtree before_storage = [])
  then Ok (<[hashed_address := node_from_digest storage_root]> tries)
  else
    '(storage_nodes, storage_root_node) ←
      for_each (collect_before storage_root) (∅, default_node) (smp_subtree before_storage);
    storage_nodes ←
      match after !! hashed_address with
      | Some after_storage => for_each collect_after storage_nodes (smp_subtree after_storage)
      | None => Ok storage_nodes
      end;
    storage_trie ← resolve_nodes fuel storage_root_node storage_nodes;
    let '(storage_trie_hash, storage_trie) := hash storage_trie in
    if decide (storage_trie_hash = storage_root)
    then Ok (<[hashed_address := storage_trie]> tries)
    else Err (MismatchedStorageRoot (replicate 20 0) storage_trie_hash storage_root).

(** [transition_multiproofs_to_tries]. *)
Definition transition_multiproofs_to_tries (fuel : nat) (state_root : list Z)
    (before_multiproof after_multiproof : MultiProof) : outcome FromProofError EthereumState :=
  if decide (account_subtree before_multiproof = [])
  then Ok {| state_trie := node_from_digest state_root; storage_tries := ∅ |}
  else
    '(state_nodes, state_root_node) ←
      for_each (collect_before state_root) (∅, default_node) (account_subtree before_multiproof);
    state_nodes ← for_each collect_after state_nodes (account_subtree after_multiproof);
    tries ←
      for_each (storage_from_multiproof fuel (list_to_map (storages after_multiproof))) ∅
        (storages before_multiproof);
    state_trie ← resolve_nodes fuel state_root_node state_nodes;
    let '(state_trie_hash, state_trie) := hash state_trie in
    if decide (state_trie_hash = state_root)
    then Ok {| state_trie := state_trie; storage_tries := tries |}
    else Err (MismatchedStateRoot state_trie_hash state_root).

(** ** Account proofs *)

(** [parse_proof(..).unwrap(); mpt_from_proof(..).unwrap()], then the nodes
    filed by reference and the first one kept as the root. *)
Definition collect_proof (s : node_store * MptNode) (proof : list (list Z))
  : outcome FromProofError (node_store * MptNode) :=
  let '(nodes, root_node) := s in
  proof_nodes ← unwrap_res (parse_proof proof);
  _ ← @unwrap_res _ FromProofError _ (mpt_from_proof proof_nodes);
  let root_node := default root_node (head proof_nodes) in
  Ok (foldl (fun st n => store_insert n st) nodes proof_nodes, root_node).

(** The storage trie of one account; [extra] are the proofs after the
    transition whose orphaned leaves are added. *)
Definition storage_from_proofs (fuel : nat) (address : list Z) (proof : AccountProof)
    (extra : list StorageProof) : outcome FromProofError MptNode :=
  let storage_root := ap_storage_root proof in
  if decide (ap_storage_proofs proof = []) then Ok (node_from_digest storage_root)
  else
    '(storage_nodes, storage_root_node) ←
      for_each (fun s sp => collect_proof s (sp_proof sp)) (∅, default_node) (ap_storage_proofs proof);
    storage_nodes ←
      for_each (fun st sp => add_orphaned_leafs (sp_key sp) (sp_proof sp) st) storage_nodes extra;
    storage_trie ← resolve_nodes fuel storage_root_node storage_nodes;
    let '(storage_trie_hash, storage_trie) := hash storage_trie in
    if decide (storage_trie_hash = storage_root) then Ok storage_trie
    else Err (MismatchedStorageRoot address storage_trie_hash storage_root).

(** Loop state of the two builders: state nodes, state root node, storage. *)
Record tries_acc : Type := {
  acc_nodes : node_store;
  acc_root : MptNode;
  acc_storage : gmap (list Z) MptNode }.

Definition finish_state (fuel : nat) (state_root : list Z) (acc : tries_acc)
  : outcome FromProofError EthereumState :=
  state_trie ← resolve_nodes fuel (acc_root acc) (acc_nodes acc);
  let '(state_trie_hash, state_trie) := hash state_trie in
  if decide (state_trie_hash = state_root)
  then Ok {| state_trie := state_trie; storage_tries := acc_storage acc |}
  else Err (MismatchedStateRoot state_trie_hash state_root).

Definition empty_acc : tries_acc :=
  {| acc_nodes := ∅; acc_root := default_node; acc_storage := ∅ |}.

(** The body of [proofs_to_tries]. *)
Definition add_account_proof (fuel : nat) (acc : tries_acc) (entry : list Z * AccountProof)
  : outcome FromProofError tries_acc :=
  let '(address, proof) := entry in
  '(nodes, root) ← collect_proof (acc_nodes acc, acc_root acc) (ap_proof proof);
  storage_trie ← storage_from_proofs fuel address proof [];
  Ok {| acc_nodes := nodes; acc_root := root;
        acc_storage := <[keccak256 address := storage_trie]> (acc_storage acc) |}.

(** [proofs_to_tries]. *)
Definition proofs_to_tries (fuel : nat) (state_root : list Z) (proofs : list (list Z * AccountProof))
  : outcome FromProofError EthereumState :=
  if decide (proofs = [])
  then Ok {| state_trie := node_from_digest state_root; storage_tries := ∅ |}
  else
    acc ← for_each (add_account_proof fuel) empty_acc proofs;
    finish_state fuel state_root acc.

(** The body of [transition_proofs_to_tries]. *)
Definition add_transition_proof (fuel : nat) (proofs : gmap (list Z) AccountProof)
    (acc : tries_acc) (entry : list Z * AccountProof) : outcome FromProofError tries_acc :=
  let '(address, proof) := entry in
  '(nodes, root) ← collect_proof (acc_nodes acc, acc_root acc) (ap_proof proof);
  fini_proofs ← unwrap (proofs !! address);
  nodes ← add_orphaned_leafs address (ap_proof fini_proofs) nodes;
  storage_trie ← storage_from_proofs fuel address proof (ap_storage_proofs fini_proofs);
  Ok {| acc_nodes := nodes; acc_root := root;
        acc_storage := <[keccak256 address := storage_trie]> (acc_storage acc) |}.

(** [transition_proofs_to_tries]. *)
Definition transition_proofs_to_tries (fuel : nat) (state_root : list Z)
    (parent_proofs : list (list Z * AccountProof)) (proofs : gmap (list Z) AccountProof)
  : outcome FromProofError EthereumState :=
  if decide (parent_proofs = [])
  then Ok {| state_trie := node_from_digest state_root; storage_tries := ∅ |}
  else
    acc ← for_each (add_transition_proof fuel proofs) empty_acc parent_proofs;
    finish_state fuel state_root acc.

(** ** [resolve_nodes] keeps the root and every answer *)

Record resolve_post (root t : MptNode) : Prop := {
  rp_ref : ref_of t = ref_of root;
  rp_ok : cache_ok t;
  rp_null : is_null t <-> is_null root;
  rp_get : forall k o, get_internal root k = Ok o -> get_internal t k = Ok o }.

Lemma resolve_post_refl n : cache_ok n -> resolve_post n n.
Proof. by split. Qed.

Lemma resolve_children {E} fuel (store : node_store) cs cs' :
  (forall c t, cache_ok c -> @resolve_nodes E fuel c store = Ok t -> resolve_post c t) ->
  (forall i c, child_at cs i c -> cache_ok c) ->
  mapM (fun child => match child with
    | Some node => Some <$> @resolve_nodes E fuel node store | None => Ok None end) cs = Ok cs' ->
  length cs' = length cs /\
  (forall i, cs !! i = Some None -> cs' !! i = Some None) /\
  (forall i c, child_at cs i c -> exists t, child_at cs' i t /\ resolve_post c t) /\
  (forall i t, child_at cs' i t -> exists c, child_at cs i c /\ resolve_post c t).
Proof.
  intros IH Hok E'. apply mapM_Ok in E'. split_and!.
  - symmetry. by eapply Forall2_length.
  - intros i Hi. destruct (Forall2_lookup_l _ _ _ _ _ E' Hi) as (y & Hy & [= <-]). done.
  - intros i c Hi. destruct (Forall2_lookup_l _ _ _ _ _ E' Hi) as (y & Hy & Ey).
    destruct (resolve_nodes fuel c store) as [t| |] eqn:Er; try discriminate. injection Ey as <-.
    exists t. eauto.
  - intros i t Hi. destruct (Forall2_lookup_r _ _ _ _ _ E' Hi) as ([c|] & Hc & Ey); [|discriminate].
    destruct (resolve_nodes fuel c store) as [t'| |] eqn:Er; try discriminate. injection Ey as <-.
    exists c. eauto.
Qed.

Lemma resolve_spec {E} fuel root (store : node_store) t :
  store_ok store -> cache_ok root -> @resolve_nodes E fuel root store = Ok t -> resolve_post root t.
Proof.
  intros Hs. revert root t. induction fuel as [|fuel IH]; intros root t Hok E'; [discriminate|].
  destruct root as [[|cs|p v|p c|d] cache]; cbn [resolve_nodes as_data] in E'.
  - injection E' as <-. by apply resolve_post_refl.
  - assert (Hcs : forall i c, child_at cs i c -> cache_ok c).
    { intros i c. by eapply cache_ok_branch_inv. }
    apply bind_Ok in E' as (cs' & Ecs & E'). injection E' as <-.
    destruct (resolve_children fuel store cs cs' IH Hcs Ecs) as (Hl & Hnone & Hsome & Hback).
    split; [| |done|].
    + cbn [from_data ref_of]. do 2 f_equal. apply list_eq. intros i. rewrite !list_lookup_fmap.
      destruct (cs !! i) as [[c|]|] eqn:Ei.
      * destruct (Hsome i c Ei) as (t & -> & Ht). cbn. do 2 f_equal. apply Ht.
      * by rewrite (Hnone i Ei).
      * apply lookup_ge_None in Ei. by rewrite lookup_ge_None_2 by lia.
    + apply cache_ok_branch. intros i c Hi. destruct (Hback i c Hi) as (c0 & _ & Hc0). apply Hc0.
    + intros k o. destruct k as [|i k]; [done|]. unfold from_data. rewrite !get_Branch.
      destruct (cs !! Z.to_nat i) as [[c|]|] eqn:Ei; [|by rewrite (Hnone _ Ei)|done].
      destruct (Hsome _ c Ei) as (t & -> & Ht). apply Ht.
  - injection E' as <-. by apply resolve_post_refl.
  - apply bind_Ok in E' as (c' & Ec & E'). injection E' as <-.
    destruct (IH _ _ (cache_ok_extension_inv _ _ _ Hok) Ec) as [Hr Hc _ Hg]. split; [| |done|].
    + cbn [from_data ref_of]. by rewrite Hr.
    + by apply cache_ok_extension.
    + intros k o. cbn [get_internal from_data]. destruct (prefix_nibs p); [|done].
      cbn [unwrap mbind outcome_bind]. destruct (strip_prefix _ _); [apply Hg|done].
  - destruct (store !! RefDigest d) as [n|] eqn:En; [|injection E' as <-; by apply resolve_post_refl].
    destruct (Hs _ _ En) as [Hrn Hcn]. destruct (IH _ _ Hcn E') as [Hr Hc Hn Hg]. split.
    + cbn [ref_of]. congruence.
    + done.
    + rewrite Hn. split; [|done]. unfold is_null. destruct n as [dn cn]. cbn [as_data]. intros ->.
      cbn [ref_of] in Hrn. done.
    + intros k o. discriminate.
Qed.

(** ** Termination of [resolve_nodes] *)

(** The digests a node still contains. *)
Inductive digest_in (d : list Z) (n : MptNode) : Prop :=
  | digest_here : as_data n = Digest d -> digest_in d n
  | digest_below c : child_of c n -> digest_in d c -> digest_in d n.

(** Nodes only refer to digests of smaller rank; hashing makes every store
    acyclic, the rank being the height of the trie below a digest. *)
Definition ranked (rank : list Z -> nat) (store : node_store) : Prop :=
  forall d n d', store !! RefDigest d = Some n -> digest_in d' n -> (rank d' < rank d)%nat.

Lemma resolve_more {E} fuel fuel' root (store : node_store) t :
  (fuel <= fuel')%nat -> @resolve_nodes E fuel root store = Ok t ->
  @resolve_nodes E fuel' root store = Ok t.
Proof.
  revert fuel' root t. induction fuel as [|fuel IH]; intros fuel' root t Hle E'; [discriminate|].
  destruct fuel' as [|fuel']; [lia|].
  destruct root as [[|cs|p v|p c|d] cache]; cbn [resolve_nodes as_data] in *; try done.
  - apply bind_Ok in E' as (cs' & Ecs & E'). apply mapM_Ok in Ecs.
    assert (Ecs' : mapM (fun child => match child with
      | Some node => Some <$> @resolve_nodes E fuel' node store | None => Ok None end) cs = Ok cs').
    { apply mapM_Ok. eapply Forall2_impl; [exact Ecs|]. intros [c|] y Hy; [|done].
      destruct (resolve_nodes fuel c store) as [t'| |] eqn:Er; try discriminate.
      rewrite (IH fuel' c t') by (lia || done). done. }
    rewrite Ecs'. done.
  - apply bind_Ok in E' as (c' & Ec & E'). rewrite (IH fuel' c c') by (lia || done). done.
  - destruct (store !! RefDigest d); [apply IH; [lia|done]|done].
Qed.

(** Fuel for all the children of a branch. *)
Lemma resolve_children_exist {E} (store : node_store) (cs : list (option MptNode)) :
  (forall c, Some c ∈ cs -> exists fuel t, @resolve_nodes E fuel c store = Ok t) ->
  exists fuel cs', mapM (fun child => match child with
    | Some node => Some <$> @resolve_nodes E fuel node store | None => Ok None end) cs = Ok cs'.
Proof.
  induction cs as [|o cs IH]; intros Hcs; [exists 0%nat; by eexists|].
  destruct IH as (f1 & l' & E1); [intros c Hc; apply Hcs; by right|].
  assert (exists f2 y, match o with
    | Some node => Some <$> @resolve_nodes E f2 node store | None => Ok None end = Ok y) as (f2 & y & E2).
  { destruct o as [c|]; [|exists 0%nat; by eexists]. destruct (Hcs c (list_elem_of_here _ _)) as (f2 & t & Ht).
    exists f2. rewrite Ht. by eexists. }
  exists (f1 `max` f2)%nat, (y :: l'). apply mapM_Ok. apply mapM_Ok in E1. constructor.
  - destruct o as [c|]; [|done]. destruct (resolve_nodes f2 c store) as [t| |] eqn:Et; try discriminate.
    rewrite (resolve_more f2 _ c store t) by (lia || done). done.
  - eapply Forall2_impl; [exact E1|]. intros [c|] z Hz; [|done].
    destruct (resolve_nodes f1 c store) as [t| |] eqn:Et; try discriminate.
    rewrite (resolve_more f1 _ c store t) by (lia || done). done.
Qed.

Lemma resolve_exists {E} rank (store : node_store) R n :
  ranked rank store -> (forall d, digest_in d n -> (rank d < R)%nat) ->
  exists fuel t, @resolve_nodes E fuel n store = Ok t.
Proof.
  intros Hrk. revert n. induction R as [R IHR] using lt_wf_ind. intros n.
  induction n as [cache|cs cache IH|p v cache|p c cache IH|d cache] using node_ind; intros Hd.
  - exists 1%nat. by eexists.
  - destruct (@resolve_children_exist E store cs) as (f & cs' & Ecs).
    { intros c [i Hi]%list_elem_of_lookup. apply (IH i c Hi). intros d Hdc. apply Hd. apply (digest_below _ _ c); [by exists i|done]. }
    exists (S f). cbn [resolve_nodes as_data]. rewrite Ecs. by eexists.
  - exists 1%nat. by eexists.
  - destruct IH as (f & t & Et).
    { intros d Hdc. apply Hd. by apply (digest_below _ _ c). }
    exists (S f). cbn [resolve_nodes as_data]. rewrite Et. by eexists.
  - destruct (store !! RefDigest d) as [n|] eqn:En.
    + destruct (IHR (rank d)) with (n := n) as (f & t & Et).
      * apply Hd. by apply digest_here.
      * intros d' Hd'. by eapply Hrk.
      * exists (S f). cbn [resolve_nodes as_data]. rewrite En. by eexists.
    + exists 1%nat. cbn [resolve_nodes as_data]. rewrite En. by eexists.
Qed.

Lemma digest_rank_bound (rank : list Z -> nat) n :
  exists R, forall d, digest_in d n -> (rank d < R)%nat.
Proof.
  induction n as [cache|cs cache IH|p v cache|p c cache IH|d cache] using node_ind.
  - exists 0%nat. intros d [E|c Hc]; [discriminate E|destruct Hc].
  - assert (Hall : forall l : list (option MptNode), (forall c, Some c ∈ l -> exists i, child_at cs i c) ->
      exists R, forall c d, Some c ∈ l -> digest_in d c -> (rank d < R)%nat).
    { induction l as [|o l IHl]; intros Hl; [exists 0%nat; set_solver|].
      destruct IHl as [R1 HR1].
      { intros c Hc. apply Hl. by apply elem_of_cons; right. }
      destruct o as [c|]; [|exists R1; intros c d Hc; apply HR1; set_solver].
      destruct (Hl c (list_elem_of_here _ _)) as [i Hi]. destruct (IH i c Hi) as [R2 HR2].
      exists (R1 `max` R2)%nat. intros c' d Hc' Hd.
      apply elem_of_cons in Hc' as [[= ->]|Hc']; [specialize (HR2 d Hd)|specialize (HR1 c' d Hc' Hd)]; lia. }
    destruct (Hall cs) as [R HR].
    { intros c [i Hi]%list_elem_of_lookup. by exists i. }
    exists R. intros d [E|c [i Hi] Hd]; [done|]. apply (HR c); [|done].
    apply list_elem_of_lookup. by exists i.
  - exists 0%nat. intros d [E|c Hc]; [discriminate E|destruct Hc].
  - destruct IH as [R HR]. exists R. intros d [E|c' Hc Hd]; [done|]. change (c' = c) in Hc. subst. auto.
  - exists (S (rank d)). intros d' [E|c Hc]; [|destruct Hc]. injection E as ->. lia.
Qed.

(** C33: [resolve_nodes] terminates on every acyclic store and changes neither
    the root hash nor any answer: the trie it returns has the hash of the trie it
    was given, and every lookup that succeeded before gives the same result. *)
Theorem resolve_nodes_sound rank (store : node_store) root :
  ranked rank store -> store_ok store -> cache_ok root ->
  exists fuel0, forall fuel, (fuel0 <= fuel)%nat -> exists t,
    @resolve_nodes FromProofError fuel root store = Ok t /\
    hash_of t = hash_of root /\
    forall key o, get root key = Ok o -> get t key = Ok o.
Proof.
  intros Hrk Hs Hok. destruct (digest_rank_bound rank root) as [R HR].
  destruct (@resolve_exists FromProofError rank store R root Hrk HR) as (fuel0 & t & E).
  exists fuel0. intros fuel Hle. exists t. split; [by eapply resolve_more|].
  destruct (resolve_spec _ _ _ _ Hs Hok E) as [Hr _ Hn Hg].
  split; [by apply hash_of_same|]. intros key o. apply Hg.
Qed.

(** ** The builders only return checked roots *)

Lemma for_each_inv {E S A} (P : S -> Prop) (body : S -> A -> outcome E S) s l s' :
  P s -> (forall s x s', P s -> x ∈ l -> body s x = Ok s' -> P s') ->
  for_each body s l = Ok s' -> P s'.
Proof.
  revert s. induction l as [|x l IH]; intros s Hs Hb E'; cbn [for_each] in E'.
  - by injection E' as <-.
  - apply bind_Ok in E' as (s1 & E1 & E'). apply (IH s1); [|intros s2 y s3 H2 Hy|done].
    + apply (Hb s x s1); [done|apply list_elem_of_here|done].
    + apply Hb; [done|by apply list_elem_of_further].
Qed.

Lemma foldl_insert_ok (ins : MptNode -> node_store -> node_store) ns st :
  (forall n s, cache_ok n -> store_ok s -> store_ok (ins n s)) ->
  Forall cache_ok ns -> store_ok st -> store_ok (foldl (fun s n => ins n s) st ns).
Proof. intros Hi Hn. revert st. induction Hn; intros st Hst; cbn; auto. Qed.

Lemma map_err_decode rlp n : map_err DecodingError (decode rlp) = Ok n -> cache_ok n.
Proof.
  destruct (decode rlp) eqn:E; try discriminate. intros [= <-]. by eapply decode_cache_ok.
Qed.

Definition nodes_ok (s : node_store * MptNode) : Prop := store_ok s.1 /\ cache_ok s.2.

Lemma nodes_ok_empty : nodes_ok (∅, default_node).
Proof. split; [apply store_ok_empty|apply cache_ok_null]. Qed.

Lemma collect_before_ok root s entry s' :
  nodes_ok s -> collect_before root s entry = Ok s' -> nodes_ok s'.
Proof.
  intros [Hs Hr] E. unfold collect_before in E. destruct s as [nodes rn]. cbn in Hs, Hr. inv_ok.
  apply map_err_decode in Ha. destruct (hash_spec a Ha) as (_ & _ & Hc).
  destruct (hash a) as [h n]. cbn in Hc. injection E as <-.
  split; cbn; [by apply store_insert_ok|by case_decide].
Qed.

Lemma shorten_cache_ok n ns :
  cache_ok n -> shorten_node_path n = Ok ns -> Forall cache_ok ns.
Proof.
  intros Hn E. unfold shorten_node_path in E. apply bind_Ok in E as (p & _ & E).
  destruct n as [[|cs|q v|q c|d] cache]; cbn [as_data] in E;
    apply Ok_inj in E as <-.
  - constructor.
  - constructor.
  - apply Forall_forall. intros m (i & -> & _)%list_elem_of_fmap. apply cache_ok_leaf.
  - apply Forall_forall. intros m (i & -> & _)%list_elem_of_fmap.
    by eapply cache_ok_extension, cache_ok_extension_inv.
  - constructor.
Qed.

Lemma unwrap_res_Ok {E F A} (c : outcome E A) (a : A) : @unwrap_res E F A c = Ok a -> c = Ok a.
Proof. by destruct c; intros [= <-]. Qed.

Lemma collect_after_ok nodes entry nodes' :
  store_ok nodes -> collect_after nodes entry = Ok nodes' -> store_ok nodes'.
Proof.
  intros Hs E. unfold collect_after in E. inv_ok. apply map_err_decode in Ha.
  apply unwrap_res_Ok in Ha0. destruct (reference_spec a Ha) as [_ _ Hc _].
  apply (shorten_cache_ok _ _ Hc) in Ha0.
  apply (foldl_insert_ok store_or_insert); [apply store_or_insert_ok|done|].
  by apply store_or_insert_ok.
Qed.

Lemma hash_of_from_digest d :
  cache_ok (node_from_digest d) /\ (hash_of (node_from_digest d) = d \/
    (d = B256_ZERO /\ node_from_digest d = default_node)).
Proof.
  unfold node_from_digest. case_decide as Hd.
  - split; [apply cache_ok_null|]. destruct Hd as [->| ->]; [by left|by right].
  - split; [by apply (cache_ok_fresh _ None)|by left].
Qed.

(** A trie that stands for a declared root: it has that hash, or the root is
    the zero word and the trie is empty. *)
Definition stands_for (t : MptNode) (root : list Z) : Prop :=
  cache_ok t /\ (hash_of t = root \/ (root = B256_ZERO /\ t = default_node)).

Lemma stands_for_digest d : stands_for (node_from_digest d) d.
Proof. apply hash_of_from_digest. Qed.

(** The final check of every builder. *)
Lemma checked_root {A} (t : MptNode) root (k : MptNode -> outcome FromProofError A) e a :
  cache_ok t ->
  (let '(h, t') := hash t in if decide (h = root) then k t' else Err (e h)) = Ok a ->
  exists t', stands_for t' root /\ k t' = Ok a.
Proof.
  intros Hc E. destruct (hash_spec t Hc) as (Hh & Heq & Hc').
  destruct (hash t) as [h t']. cbn in *. case_decide as Hd; [|discriminate].
  exists t'. split; [|done]. split; [done|]. left. rewrite (hash_of_equiv t' t Heq). congruence.
Qed.

(** Every storage trie stands for a root the input declares for its key. *)
Definition storages_from (declared : list (list Z * list Z)) (tries : gmap (list Z) MptNode) : Prop :=
  forall k t, tries !! k = Some t -> exists root, (k, root) ∈ declared /\ stands_for t root.

Lemma storages_from_insert declared tries k t root :
  storages_from declared tries -> (k, root) ∈ declared -> stands_for t root ->
  storages_from declared (<[k := t]> tries).
Proof.
  intros Hs Hin Ht k' t'. rewrite lookup_insert. case_decide as Hd; [|apply Hs].
  intros [= <-]. subst k'. eauto.
Qed.

Lemma storages_from_empty declared : storages_from declared ∅.
Proof. intros k t Hk. by rewrite lookup_empty in Hk. Qed.

Definition declared_roots (mp : MultiProof) : list (list Z * list Z) :=
  (fun e => (e.1, smp_root e.2)) <$> storages mp.

Lemma storage_from_multiproof_ok fuel after before tries entry tries' :
  storages_from (declared_roots before) tries -> entry ∈ storages before ->
  storage_from_multiproof fuel after tries entry = Ok tries' ->
  storages_from (declared_roots before) tries'.
Proof.
  intros Hs Hin E. unfold storage_from_multiproof in E. destruct entry as [k smp].
  assert (Hd : (k, smp_root smp) ∈ declared_roots before).
  { apply list_elem_of_fmap. by exists (k, smp). }
  case_decide; [inv_ok; by eapply storages_from_insert, stands_for_digest|].
  apply bind_Ok in E as ([nodes rn] & E1 & E).
  apply (for_each_inv nodes_ok) in E1 as [Hn Hr]; [|apply nodes_ok_empty|].
  2:{ intros. by eapply collect_before_ok. }
  apply bind_Ok in E as (nodes' & E2 & E).
  assert (Hn' : store_ok nodes').
  { destruct (after !! k); [|by injection E2 as <-].
    apply (for_each_inv store_ok) in E2; [done|done|]. intros. by eapply collect_after_ok. }
  apply bind_Ok in E as (t & E3 & E). destruct (resolve_spec _ _ _ _ Hn' Hr E3) as [_ Ht _ _].
  apply (checked_root t (smp_root smp) (fun t' => Ok (<[k := t']> tries))
           (fun h => MismatchedStorageRoot (replicate 20 0) h (smp_root smp))) in E; [|done].
  destruct E as (t' & Hst & [= <-]). by eapply storages_from_insert.
Qed.

(** What [transition_multiproofs_to_tries] returns has the declared roots:
    the state trie stands for [state_root] and every storage trie stands for the
    root the before-proof declares for its account, whatever nodes the two
    multiproofs contain. *)
Theorem multiproofs_sound fuel state_root before after st :
  transition_multiproofs_to_tries fuel state_root before after = Ok st ->
  stands_for (state_trie st) state_root /\
  storages_from (declared_roots before) (storage_tries st).
Proof.
  intros E. unfold transition_multiproofs_to_tries in E.
  case_decide; [inv_ok; split; [apply stands_for_digest|apply storages_from_empty]|].
  apply bind_Ok in E as ([nodes rn] & E1 & E).
  apply (for_each_inv nodes_ok) in E1 as [Hn Hr]; [|apply nodes_ok_empty|].
  2:{ intros. by eapply collect_before_ok. }
  apply bind_Ok in E as (nodes' & E2 & E).
  apply (for_each_inv store_ok) in E2; [|done|intros; by eapply collect_after_ok].
  apply bind_Ok in E as (tries & E3 & E).
  apply (for_each_inv (storages_from (declared_roots before))) in E3;
    [|apply storages_from_empty|intros; by eapply storage_from_multiproof_ok].
  apply bind_Ok in E as (t & E4 & E). destruct (resolve_spec _ _ _ _ E2 Hr E4) as [_ Ht _ _].
  apply (checked_root t state_root (fun t' => Ok {| state_trie := t'; storage_tries := tries |})
           (fun h => MismatchedStateRoot h state_root)) in E; [|done].
  destruct E as (t' & Hst & [= <-]). done.
Qed.

(** *** Account proofs *)

Lemma collect_proof_ok s proof s' : nodes_ok s -> collect_proof s proof = Ok s' -> nodes_ok s'.
Proof.
  intros [Hs Hr] E. unfold collect_proof in E. destruct s as [nodes rn]. cbn in Hs, Hr. inv_ok.
  apply unwrap_res_Ok, parse_proof_cache_ok in Ha. split; cbn.
  - apply (foldl_insert_ok store_insert); [apply store_insert_ok|done|done].
  - destruct Ha; done.
Qed.

Lemma add_orphaned_leafs_ok key proof st st' :
  store_ok st -> add_orphaned_leafs key proof st = Ok st' -> store_ok st'.
Proof.
  intros Hs E. unfold add_orphaned_leafs in E. case_decide; [by inv_ok|].
  apply bind_Ok in E as (ns & E1 & E). apply bind_Ok in E as (absent & E2 & E).
  destruct absent; [|by inv_ok]. inv_ok. destruct (parse_proof proof) as [ns'| |] eqn:Ep; try discriminate.
  injection E1 as <-. apply parse_proof_cache_ok in Ep. apply unwrap_res_Ok in Ha0.
  apply last_Some in Ha as [l ->]. apply Forall_app in Ep as [_ Ep]. inversion_clear Ep.
  apply (foldl_insert_ok store_insert); [apply store_insert_ok| |done].
  by eapply shorten_cache_ok.
Qed.

Lemma storage_from_proofs_ok fuel address proof extra t :
  storage_from_proofs fuel address proof extra = Ok t -> stands_for t (ap_storage_root proof).
Proof.
  intros E. unfold storage_from_proofs in E.
  destruct (decide (ap_storage_proofs proof = [])); [inv_ok; apply stands_for_digest|].
  apply bind_Ok in E as ([nodes rn] & E1 & E).
  apply (for_each_inv nodes_ok) in E1 as [Hn Hr]; [|apply nodes_ok_empty|].
  2:{ intros. by eapply collect_proof_ok. }
  apply bind_Ok in E as (nodes' & E2 & E).
  apply (for_each_inv store_ok) in E2; [|done|intros; by eapply add_orphaned_leafs_ok].
  apply bind_Ok in E as (t0 & E3 & E). destruct (resolve_spec _ _ _ _ E2 Hr E3) as [_ Ht _ _].
  apply (checked_root t0 (ap_storage_root proof) Ok
           (fun h => MismatchedStorageRoot address h (ap_storage_root proof))) in E; [|done].
  by destruct E as (t' & Hst & [= <-]).
Qed.

Definition declared_by (proofs : list (list Z * AccountProof)) : list (list Z * list Z) :=
  (fun e => (keccak256 e.1, ap_storage_root e.2)) <$> proofs.

Definition acc_ok (proofs : list (list Z * AccountProof)) (acc : tries_acc) : Prop :=
  nodes_ok (acc_nodes acc, acc_root acc) /\ storages_from (declared_by proofs) (acc_storage acc).

Lemma acc_ok_empty proofs : acc_ok proofs empty_acc.
Proof. split; [apply nodes_ok_empty|apply storages_from_empty]. Qed.

Lemma acc_ok_step proofs address proof acc nodes root t :
  acc_ok proofs acc -> (address, proof) ∈ proofs -> nodes_ok (nodes, root) ->
  stands_for t (ap_storage_root proof) ->
  acc_ok proofs {| acc_nodes := nodes; acc_root := root;
                   acc_storage := <[keccak256 address := t]> (acc_storage acc) |}.
Proof.
  intros [_ Hs] Hin Hn Ht. split; [done|]. eapply storages_from_insert; [done| |done].
  apply list_elem_of_fmap. by exists (address, proof).
Qed.

Lemma add_account_proof_ok fuel proofs acc entry acc' :
  acc_ok proofs acc -> entry ∈ proofs -> add_account_proof fuel acc entry = Ok acc' ->
  acc_ok proofs acc'.
Proof.
  intros Ha Hin E. unfold add_account_proof in E. destruct entry as [address proof].
  apply bind_Ok in E as ([nodes root] & E1 & E). apply bind_Ok in E as (t & E2 & E). injection E as <-.
  eapply acc_ok_step; [done|done| |by eapply storage_from_proofs_ok].
  eapply collect_proof_ok; [|exact E1]. apply Ha.
Qed.

Lemma add_transition_proof_ok fuel fini proofs acc entry acc' :
  acc_ok proofs acc -> entry ∈ proofs -> add_transition_proof fuel fini acc entry = Ok acc' ->
  acc_ok proofs acc'.
Proof.
  intros Ha Hin E. unfold add_transition_proof in E. destruct entry as [address proof].
  apply bind_Ok in E as ([nodes root] & E1 & E). apply bind_Ok in E as (fp & _ & E).
  apply bind_Ok in E as (nodes' & E3 & E). apply bind_Ok in E as (t & E2 & E). injection E as <-.
  assert (Hn : nodes_ok (nodes, root)) by (eapply collect_proof_ok; [|exact E1]; apply Ha).
  eapply acc_ok_step; [done|done| |by eapply storage_from_proofs_ok].
  split; [|apply Hn]. eapply add_orphaned_leafs_ok; [apply Hn|done].
Qed.

Lemma finish_state_ok fuel proofs state_root acc st :
  acc_ok proofs acc -> finish_state fuel state_root acc = Ok st ->
  stands_for (state_trie st) state_root /\ storages_from (declared_by proofs) (storage_tries st).
Proof.
  intros [[Hn Hr] Hs] E. unfold finish_state in E. apply bind_Ok in E as (t & E1 & E).
  destruct (resolve_spec _ _ _ _ Hn Hr E1) as [_ Ht _ _].
  apply (checked_root t state_root
           (fun t' => Ok {| state_trie := t'; storage_tries := acc_storage acc |})
           (fun h => MismatchedStateRoot h state_root)) in E; [|done].
  by destruct E as (t' & Hst & [= <-]).
Qed.

(** The same for the builders from account proofs, with or without the
    proofs after the transition: a returned state stands for the declared state
    root, and every storage trie, filed under the hash of its address, for the
    root its account proof declares. *)
Theorem proofs_sound fuel state_root proofs fini st :
  proofs_to_tries fuel state_root proofs = Ok st \/
  transition_proofs_to_tries fuel state_root proofs fini = Ok st ->
  stands_for (state_trie st) state_root /\
  storages_from (declared_by proofs) (storage_tries st).
Proof.
  intros [E|E].
  - unfold proofs_to_tries in E.
    case_decide; [inv_ok; split; [apply stands_for_digest|apply storages_from_empty]|].
    apply bind_Ok in E as (acc & E1 & E). apply (finish_state_ok fuel proofs _ acc); [|exact E].
    eapply (for_each_inv (acc_ok proofs)); [apply acc_ok_empty| |exact E1].
    intros. by eapply add_account_proof_ok.
  - unfold transition_proofs_to_tries in E.
    case_decide; [inv_ok; split; [apply stands_for_digest|apply storages_from_empty]|].
    apply bind_Ok in E as (acc & E1 & E). apply (finish_state_ok fuel proofs _ acc); [|exact E].
    eapply (for_each_inv (acc_ok proofs)); [apply acc_ok_empty| |exact E1].
    intros. by eapply add_transition_proof_ok.
Qed.
End Tries.

(** ** The theorems at concrete inputs *)
Section Samples.
#[local] Existing Instance RefRlp.alloy.
#[local] Existing Instance RefRlp.reader.
#[local] Existing Instance sample_keccak.

Definition branch_rlp : list Z := (encode sample_branch).1.
Definition leaf_rlp : list Z := (encode sample_large_leaf).1.

Lemma mpt_from_proof_root_witness :
  exists t, mpt_from_proof [sample_sparse; sample_large_leaf] = Ok t /\
    hash_of t = hash_of sample_sparse /\ ref_of t = ref_of sample_sparse /\ cache_ok t.
Proof.
  eexists. split; [vm_compute; reflexivity|].
  apply (mpt_from_proof_root sample_sparse [sample_large_leaf]); [|vm_compute; reflexivity].
  apply Forall_cons; split; [|apply Forall_singleton, cache_ok_leaf].
  apply cache_ok_branch. intros [|[|i]] c Hi; unfold child_at in Hi; cbn [lookup list_lookup] in Hi.
  - injection Hi as <-. apply cache_ok_leaf.
  - injection Hi as <-. by apply (cache_ok_fresh _ None).
  - apply lookup_replicate in Hi as [? _]. done.
Defined.

Definition sample_store : node_store := store_insert sample_large_leaf ∅.

Lemma sample_store_ok : store_ok sample_store.
Proof. apply store_insert_ok; [apply cache_ok_leaf|apply store_ok_empty]. Qed.

Lemma sample_store_ranked : ranked (fun _ => 0%nat) sample_store.
Proof.
  intros d n d' Hn [E|c Hc _]; unfold sample_store, store_insert in Hn;
    destruct (reference sample_large_leaf) as [r n'] eqn:Er;
    assert (Hl : as_data n' = as_data sample_large_leaf) by (vm_compute in Er; by injection Er as _ <-);
    apply lookup_insert_Some in Hn as [[_ ->]|[_ Hn]]; try (by rewrite lookup_empty in Hn).
  - by rewrite Hl in E.
  - unfold child_of in Hc. by rewrite Hl in Hc.
Qed.

Lemma resolve_nodes_sound_witness :
  exists fuel0, forall fuel, (fuel0 <= fuel)%nat -> exists t,
    @resolve_nodes FromProofError fuel sample_sparse sample_store = Ok t /\
    hash_of t = hash_of sample_sparse /\
    forall key o, get sample_sparse key = Ok o -> get t key = Ok o.
Proof.
  apply (resolve_nodes_sound (fun _ => 0%nat) sample_store sample_sparse);
    [apply sample_store_ranked|apply sample_store_ok|].
  apply cache_ok_branch. intros [|[|i]] c Hi; unfold child_at in Hi; cbn [lookup list_lookup] in Hi.
  - injection Hi as <-. apply cache_ok_leaf.
  - injection Hi as <-. by apply (cache_ok_fresh _ None).
  - apply lookup_replicate in Hi as [? _]. done.
Defined.

Definition sample_before : MultiProof := {|
  account_subtree := [([], leaf_rlp); ([], branch_rlp)];
  storages := [([1], {| smp_root := hash_of sample_large_leaf; smp_subtree := [([], leaf_rlp)] |});
               ([2], {| smp_root := B256_ZERO; smp_subtree := [] |})] |}.
Definition sample_after : MultiProof := {|
  account_subtree := [([], leaf_rlp)]; storages := [] |}.

Lemma multiproofs_sound_witness :
  exists st,
    transition_multiproofs_to_tries 5 (hash_of sample_branch) sample_before sample_after = Ok st /\
    stands_for (state_trie st) (hash_of sample_branch) /\
    storages_from (declared_roots sample_before) (storage_tries st).
Proof.
  eexists. split; [vm_compute; reflexivity|].
  apply (multiproofs_sound 5 _ sample_before sample_after). vm_compute. reflexivity.
Defined.

Definition sample_proofs : list (list Z * AccountProof) :=
  [([9], {| ap_proof := [branch_rlp; leaf_rlp]; ap_storage_root := hash_of sample_large_leaf;
            ap_storage_proofs := [{| sp_key := [0]; sp_proof := [leaf_rlp] |}] |})].

Lemma proofs_sound_witness :
  exists st,
    transition_proofs_to_tries 5 (hash_of sample_branch) sample_proofs
      (list_to_map sample_proofs) = Ok st /\
    stands_for (state_trie st) (hash_of sample_branch) /\
    storages_from (declared_by sample_proofs) (storage_tries st).
Proof.
  eexists. split; [vm_compute; reflexivity|].
  eapply (proofs_sound 5 _ sample_proofs (list_to_map sample_proofs)). right. vm_compute. reflexivity.
Defined.
End Samples.
