(* ===== verification/MptCover.v ===== *)
(** * Multiproofs that cover a key ([crates/mpt/src/mpt.rs], completeness)

    The builders of [MptTries] refuse tries with wrong roots; here is what they
    return when the multiproof holds the nodes it should: a trie that answers
    every targeted key as the full trie does, provided no two of the nodes'
    encodings collide under Keccak-256. *)
From S2P Require Import Prelude BytesCodec Nibbles Mpt MptInv MptInsert MptDelete MptMap.
From S2P Require Import Rlp MptHash MptCache MptWire MptProof MptTries.

Section Cover.
Context `{Keccak, AlloyRlp, RlpReader} {laws : AlloyRlpLaws} {rlaws : RlpReaderLaws}.

(** The nodes a lookup visits. *)
Inductive on_path : MptNode -> list Z -> MptNode -> Prop :=
  | path_here n k : on_path n k n
  | path_Branch cs cache i k c n :
      child_at cs (Z.to_nat i) c -> on_path c k n -> on_path (mkNode (Branch cs) cache) (i :: k) n
  | path_Extension p q c cache k tail n :
      prefix_nibs p = Some q -> strip_prefix q k = Some tail -> on_path c tail n ->
      on_path (mkNode (Extension p c) cache) k n.

(** Every node on the way that is kept by hash is in the store. *)
Definition covered (store : node_store) (t : MptNode) (k : list Z) : Prop :=
  forall t' d, on_path t k t' -> ref_of t' = RefDigest d -> is_Some (store !! RefDigest d).

(** A store of decoded nodes, each under its reference. *)
Definition store_wire (store : node_store) : Prop :=
  forall r n, store !! r = Some n -> ref_of n = r /\ wire_ok n /\ is_digest n = false.

Lemma covered_child store cs cache i k c :
  child_at cs (Z.to_nat i) c -> covered store (mkNode (Branch cs) cache) (i :: k) -> covered store c k.
Proof. intros Hc Hs t' d Hp. apply (Hs t'). by eapply path_Branch. Qed.

Lemma covered_target store p q c cache k tail :
  prefix_nibs p = Some q -> strip_prefix q k = Some tail -> covered store (mkNode (Extension p c) cache) k ->
  covered store c tail.
Proof. intros Hp Hq Hs t' d Ht. apply (Hs t'). by eapply path_Extension. Qed.

(** Nodes with the same reference read back alike. *)
Lemma same_ref_same_stub K n t : coll_free K -> wire_ok n -> wire_ok t -> is_digest n = false -> is_digest t = false ->
  node_encodings n ⊆ K -> node_encodings t ⊆ K -> ref_of n = ref_of t -> stub n = stub t.
Proof.
  intros HK Hn Ht Hdn Hdt Hkn Hkt E. rewrite !nondigest_ref_enc in E by done. apply enc_stub_inj; [done..|].
  apply (reference_of_encoding_inj K) in E; [done|done|by apply Hkn, node_encodings_here|by apply Hkt, node_encodings_here].
Qed.

(** Every node of the store has its encodings in [K]. *)
Definition store_in (K : list (list Z)) (store : node_store) : Prop :=
  forall r n, store !! r = Some n -> node_encodings n ⊆ K.

(** A node that is not kept by hash, with a given reference: what a digest leads to. *)
Lemma resolve_target {E} K (store : node_store) n : store_wire store -> store_in K store -> wire_ok n -> node_encodings n ⊆ K ->
  (exists t, forall fuel, @resolve_nodes E (S fuel) n store = Ok t) \/
  exists m, wire_ok m /\ is_digest m = false /\ ref_of m = ref_of n /\ node_encodings m ⊆ K /\
    forall fuel t, @resolve_nodes E fuel m store = Ok t -> @resolve_nodes E (S fuel) n store = Ok t.
Proof.
  intros Hs Hin Hn Hk. destruct (is_digest n) eqn:Hd.
  - destruct n as [[| | | |d] cn]; try discriminate Hd. cbn [resolve_nodes as_data].
    destruct (store !! RefDigest d) as [m|] eqn:Em.
    + right. destruct (Hs _ _ Em) as (Hr & Hw & Hdm). exists m. split_and!; [done..|by eapply Hin|]. intros fuel t E'. exact E'.
    + left. by eexists.
  - right. exists n. split_and!; [done..|]. intros fuel t E'. apply (resolve_more fuel); [lia|done].
Qed.

(** Whatever the store holds, resolution ends: the nodes are those of a trie. *)
Lemma resolve_total {E} K (store : node_store) t : coll_free K -> store_wire store -> store_in K store -> forall n,
  wire_ok n -> wire_ok t -> resolved t -> node_encodings n ⊆ K -> node_encodings t ⊆ K ->
  ref_of n = ref_of t -> exists fuel r, @resolve_nodes E fuel n store = Ok r.
Proof.
  intros HK Hs Hin. induction t as [cache|ds cache IH|p v cache|p e cache IH|d cache] using node_ind; intros n Hn Ht Hr Hkn Hkt Href.
  5: by inversion Hr.
  all: destruct (@resolve_target E K store n Hs Hin Hn Hkn) as [(r & E')|(m & Hm & Hdm & Hrm & Hkm & Hstep)];
    [exists 1%nat, r; apply E'|].
  all: rewrite Href in Hrm; enough (G : exists fuel r, @resolve_nodes E fuel m store = Ok r)
    by (destruct G as (fuel & r & E'); exists (S fuel), r; by apply Hstep); clear Hstep Href Hkn Hn n.
  all: pose proof (same_ref_same_stub K m _ HK Hm Ht Hdm (resolved_nondigest _ Hr) Hkm Hkt Hrm) as Es.
  all: destruct m as [[|cs|q w|q c|d2] cm]; try discriminate Es.
  - exists 1%nat. by eexists.
  - destruct (@resolve_children_exist E store cs) as (f & cs' & Ecs).
    + intros c [i Hi]%list_elem_of_lookup. pose proof (stub_branch_refs _ _ _ _ Es i) as Hrefs. rewrite Hi in Hrefs.
      destruct (ds !! i) as [[e|]|] eqn:Ed; [|done..]. apply (IH _ e Ed c); try done.
      * apply (wire_ok_child _ _ Hm). by exists i.
      * apply (wire_ok_child _ _ Ht). by exists i.
      * inversion Hr; subst. eauto.
      * apply (encodings_child _ _ Hkm). by exists i.
      * apply (encodings_child _ _ Hkt). by exists i.
    + exists (S f). cbn [resolve_nodes as_data]. rewrite Ecs. by eexists.
  - exists 1%nat. by eexists.
  - injection Es as -> Es. fold (stub_child stub c) in Es. fold (stub_child stub e) in Es. apply stub_child_refs in Es.
    destruct (IH c) as (f & r & E'); [by apply (wire_ok_child _ _ Hm)|by apply (wire_ok_child _ _ Ht)|by inversion Hr|
      by apply (encodings_child _ _ Hkm)|by apply (encodings_child _ _ Hkt)|done|].
    exists (S f). cbn [resolve_nodes as_data]. rewrite E'. by eexists.
Qed.

(** ** Shapes *)

Lemma is_digest_equiv n m : n ≡ m -> is_digest n = is_digest m.
Proof.
  destruct n as [d1 c1], m as [d2 c2]. unfold equiv, MptNode_equiv. by destruct d1, d2; cbn [erase].
Qed.

Lemma is_null_stub n : is_null (stub n) <-> is_null n.
Proof. by destruct n as [[] ?]. Qed.

Lemma ref_digest_word n d : wire_ok n -> ref_of n = RefDigest d -> Bytes d /\ length d = 32%nat.
Proof.
  destruct 1 as [|d' cache Hb Hl| | |]; cbn [ref_of]; [done|by intros [= <-]|..];
    unfold reference_of_encoding; case_decide; intros [= <-]; auto using keccak256_bytes, keccak256_length.
Qed.

Lemma wire_ok_stub_child c :
  wire_ok c -> wire_ok (stub c) ->
  wire_ok (stub_child stub c) /\ (is_null (stub_child stub c) -> is_null c).
Proof.
  intros Hc Hs. unfold stub_child. destruct (ref_of c) as [b|d] eqn:E.
  - split; [done|by rewrite is_null_stub].
  - split; [by constructor; apply (ref_digest_word c)|done].
Qed.

Lemma wire_ok_stub n : wire_ok n -> wire_ok (stub n).
Proof.
  induction 1 as [|d cache Hd Hl|p v cache Hp Hv Hl|p c cache Hp Hc IH Hn Hl|cs cache Hl Hc IH Hn];
    cbn [stub]; [by constructor..| |].
  - destruct (wire_ok_stub_child c Hc IH) as [Hw Hnn]. apply wire_Extension; [done|exact Hw| |done].
    intros Hnull. by apply Hn, Hnn.
  - assert (Hch : forall i c', child_at ((fun o => match o with
        | Some c => Some (match ref_of c with RefDigest d => from_data (Digest d) | RefBytes _ => stub c end)
        | None => None end) <$> cs) i c' -> exists c, child_at cs i c /\ c' = stub_child stub c).
    { intros i c'. unfold child_at. rewrite list_lookup_fmap.
      destruct (cs !! i) as [[c|]|] eqn:E; [|done..]. intros [= <-]. by exists c. }
    constructor; [by rewrite length_fmap|..]; intros i c' (c & Hi & ->)%Hch;
      destruct (wire_ok_stub_child c (Hc i c Hi) (IH i c Hi)) as [Hw Hnn]; [done|].
    intros Hnull. by apply (Hn i c Hi), Hnn.
Qed.

(** [resolve_nodes] keeps the shape. *)
Lemma resolve_wire {E} fuel (store : node_store) : forall root t,
  store_wire store -> wire_ok root -> @resolve_nodes E fuel root store = Ok t ->
  wire_ok t /\ (is_null t -> is_null root).
Proof.
  induction fuel as [|fuel IH]; intros root t Hs Hw E'; [discriminate|].
  destruct Hw as [cache|d cache Hd Hl|p v cache Hp Hv Hl|p c cache Hp Hc Hn Hl|cs cache Hl Hc Hn];
    cbn [resolve_nodes as_data] in E'.
  - injection E' as <-. split; [constructor|done].
  - destruct (store !! RefDigest d) as [n|] eqn:En.
    + destruct (Hs _ _ En) as (Hr & Hwn & _). destruct (IH n t Hs Hwn E') as [Ht Hnt]. split; [done|].
      intros Hnull%Hnt. destruct n as [[] ?]; by cbn in *.
    + injection E' as <-. split; [by constructor|done].
  - injection E' as <-. split; [by constructor|done].
  - apply bind_Ok in E' as (c' & Ec & E'). injection E' as <-. destruct (IH c c' Hs Hc Ec) as [Hw' Hn'].
    split; [|done]. apply wire_Extension; [done|done| |done]. intros Hnull. by apply Hn, Hn'.
  - apply bind_Ok in E' as (cs' & Ec & E'). injection E' as <-. apply mapM_Ok in Ec.
    assert (Hch : forall i c', child_at cs' i c' -> exists c, child_at cs i c /\ @resolve_nodes E fuel c store = Ok c').
    { intros i c' Hi. destruct (Forall2_lookup_r _ _ _ _ _ Ec Hi) as ([c|] & Hci & Ey); [|discriminate].
      destruct (resolve_nodes fuel c store) as [t'| |] eqn:Er; try discriminate. injection Ey as <-. eauto. }
    split; [|done]. constructor; [apply Forall2_length in Ec; congruence|..];
      intros i c' (c & Hi & Er)%Hch; destruct (IH c c' Hs (Hc i c Hi) Er) as [Hw' Hn']; [done|].
    intros Hnull. by apply (Hn i c Hi), Hn'.
Qed.

Lemma resolve_nondigest {E} fuel (store : node_store) n r :
  is_digest n = false -> @resolve_nodes E fuel n store = Ok r -> is_digest r = false.
Proof.
  destruct fuel as [|fuel], n as [[|cs|p v|p c|d] cache]; try done; intros _ E'; cbn [resolve_nodes as_data] in E'.
  - by injection E' as <-.
  - apply bind_Ok in E' as (cs' & _ & E'). by injection E' as <-.
  - by injection E' as <-.
  - apply bind_Ok in E' as (c' & _ & E'). by injection E' as <-.
Qed.

(** What is resolved along a covered path answers as the trie does. *)
Lemma resolve_covers {E} K (store : node_store) t : coll_free K -> store_wire store -> store_ok store -> forall n k fuel r,
  wire_ok n -> cache_ok n -> wire_ok t -> resolved t -> node_encodings r ⊆ K -> node_encodings t ⊆ K ->
  ref_of n = ref_of t -> covered store t k ->
  @resolve_nodes E fuel n store = Ok r -> get_internal r k = get_internal t k.
Proof.
  intros HK Hs Hok. induction t as [cache|ds cache IH|p v cache|p e cache IH|d cache] using node_ind;
    intros n k fuel r Hn Hcn Ht Hr Hkr Hkt Href Hcov E'.
  5: by inversion Hr.
  all: assert (Hwlog : exists m fuel', wire_ok m /\ cache_ok m /\ is_digest m = false /\ ref_of m = ref_of n /\
    @resolve_nodes E fuel' m store = Ok r).
  1, 3, 5, 7: destruct (is_digest n) eqn:Hd; [|by exists n, fuel];
    destruct n as [[| | | |d] cn]; try discriminate Hd; destruct fuel as [|fuel]; [discriminate|];
    cbn [resolve_nodes as_data] in E';
    destruct (Hcov _ d (path_here _ _) (eq_sym Href)) as [m Hm]; rewrite Hm in E';
    destruct (Hs _ _ Hm) as (Hrm & Hwm & Hdm); destruct (Hok _ _ Hm) as [_ Hcm]; by exists m, fuel.
  all: destruct Hwlog as (m & fuel' & Hm & Hcm & Hdm & Hrm & Em); rewrite Href in Hrm; clear dependent n fuel.
  all: pose proof (rp_ref _ _ (resolve_spec fuel' m store r Hok Hcm Em)) as Hrr; rewrite Hrm in Hrr.
  all: pose proof (proj1 (@resolve_wire E fuel' store m r Hs Hm Em)) as Hwr.
  all: pose proof (same_ref_same_stub K r _ HK Hwr Ht (resolve_nondigest _ _ _ _ Hdm Em) (resolved_nondigest _ Hr) Hkr Hkt Hrr) as Es.
  all: destruct fuel' as [|fuel']; [discriminate|].
  all: destruct m as [[|cs|q w|q c|d2] cm]; try discriminate Hdm; cbn [resolve_nodes as_data] in Em.
  all: first [apply Ok_inj in Em as <- | apply bind_Ok in Em as (x & Ex & Em); apply Ok_inj in Em as <-]; try discriminate Es.
  - done.
  - rename x into cs'. apply mapM_Ok in Ex. destruct k as [|i k]; [done|]. unfold from_data in *. rewrite !get_Branch.
    pose proof (stub_branch_refs _ _ _ _ Es (Z.to_nat i)) as Hi.
    destruct (cs' !! Z.to_nat i) as [[c'|]|] eqn:Ec', (ds !! Z.to_nat i) as [[e|]|] eqn:Ed; try done.
    destruct (Forall2_lookup_r _ _ _ _ _ Ex Ec') as ([c|] & Ec & Ey); [|discriminate Ey].
    destruct (resolve_nodes fuel' c store) as [r'| |] eqn:Er; try discriminate. injection Ey as ->.
    pose proof (cache_ok_branch_inv _ _ _ _ Hcm Ec) as Hcc.
    apply (IH _ e Ed c k fuel' c'); [|done|..|done].
    + apply (wire_ok_child _ _ Hm). by exists (Z.to_nat i).
    + apply (wire_ok_child _ _ Ht). by exists (Z.to_nat i).
    + inversion Hr; subst. eauto.
    + apply (encodings_child _ _ Hkr). by exists (Z.to_nat i).
    + apply (encodings_child _ _ Hkt). by exists (Z.to_nat i).
    + by rewrite <- (rp_ref _ _ (resolve_spec fuel' c store c' Hok Hcc Er)).
    + by eapply covered_child.
  - by injection Es as -> ->.
  - rename x into c'. injection Es as -> Es. fold (stub_child stub c') in Es. fold (stub_child stub e) in Es.
    apply stub_child_refs in Es. cbn [get_internal from_data]. destruct (prefix_nibs p) as [q'|] eqn:Eq; [|done].
    cbn [unwrap mbind outcome_bind]. destruct (strip_prefix q' k) as [tail|] eqn:Et; [|done].
    pose proof (cache_ok_extension_inv _ _ _ Hcm) as Hcc.
    apply (IH c tail fuel' c'); [by apply (wire_ok_child _ _ Hm)|done|by apply (wire_ok_child _ _ Ht)|by inversion Hr|
      by apply (encodings_child _ _ Hkr)|by apply (encodings_child _ _ Hkt)| |by eapply covered_target|done].
    by rewrite <- (rp_ref _ _ (resolve_spec fuel' c store c' Hok Hcc Ex)).
Qed.

(** Resolving only puts together nodes that are there. *)
Lemma resolve_encodings {E} K fuel (store : node_store) : store_ok store -> store_in K store -> forall n r,
  cache_ok n -> node_encodings n ⊆ K -> @resolve_nodes E fuel n store = Ok r -> node_encodings r ⊆ K.
Proof.
  intros Hok Hin. induction fuel as [|fuel IH]; intros n r Hc Hk E'; [discriminate|].
  destruct n as [[|cs|p v|p c|d] cache]; cbn [resolve_nodes as_data] in E'.
  - by injection E' as <-.
  - apply bind_Ok in E' as (cs' & Ecs & E'). injection E' as <-. apply mapM_Ok in Ecs.
    assert (Hrefs : child_refs cs' = child_refs cs).
    { apply list_eq. intros i. unfold child_refs. rewrite !list_lookup_fmap. destruct (cs !! i) as [[c|]|] eqn:Ec.
      - destruct (Forall2_lookup_l _ _ _ _ _ Ecs Ec) as (y & -> & Ey).
        destruct (resolve_nodes fuel c store) as [c'| |] eqn:Er; try discriminate. injection Ey as <-. cbn. do 2 f_equal.
        apply (rp_ref _ _ (resolve_spec fuel c store c' Hok (cache_ok_branch_inv _ _ _ _ Hc Ec) Er)).
      - destruct (Forall2_lookup_l _ _ _ _ _ Ecs Ec) as (y & -> & Ey). by injection Ey as <-.
      - rewrite (proj2 (lookup_ge_None cs' i)); [done|]. apply lookup_ge_None in Ec. apply Forall2_length in Ecs. lia. }
    cbn [node_encodings from_data]. intros x [->|Hx]%elem_of_cons.
    + replace (enc_of (mkNode (Branch cs') None)) with (enc_of (mkNode (Branch cs) cache)); [by apply Hk, list_elem_of_here|].
      unfold enc_of, payload_items. cbn [as_data]. by rewrite Hrefs.
    + apply list_elem_of_In, in_concat in Hx as (l & Hl & Hx). apply list_elem_of_In in Hl, Hx.
      apply list_elem_of_fmap in Hl as (o & -> & Ho). destruct o as [c'|]; [|by apply elem_of_nil in Hx].
      apply list_elem_of_lookup in Ho as [i Hi]. destruct (Forall2_lookup_r _ _ _ _ _ Ecs Hi) as ([c|] & Ec & Ey); [|discriminate].
      destruct (resolve_nodes fuel c store) as [r'| |] eqn:Er; try discriminate. injection Ey as ->.
      apply (IH c c'); [by eapply cache_ok_branch_inv| |done|done]. apply (encodings_child _ _ Hk). by exists i.
  - by injection E' as <-.
  - apply bind_Ok in E' as (c' & Ec & E'). injection E' as <-. pose proof (cache_ok_extension_inv _ _ _ Hc) as Hcc.
    cbn [node_encodings from_data]. intros x [->|Hx]%elem_of_cons.
    + replace (enc_of (mkNode (Extension p c') None)) with (enc_of (mkNode (Extension p c) cache)); [by apply Hk, list_elem_of_here|].
      unfold enc_of, payload_items. cbn [as_data]. by rewrite (rp_ref _ _ (resolve_spec fuel c store c' Hok Hcc Ec)).
    + apply (IH c c'); [done|by apply (encodings_child _ _ Hk)|done|done].
  - destruct (store !! RefDigest d) as [m|] eqn:Em; [|injection E' as <-; intros x []%elem_of_nil].
    destruct (Hok _ _ Em) as [_ Hcm]. apply (IH m r Hcm); [by eapply Hin|done].
Qed.

(** The variants of a node with a shorter path fit the wire as well. *)
Definition shortens (n : MptNode) : Prop := forall q i, nibs n = Ok q ->
  match as_data n with
  | Leaf _ v => Z.of_nat (string_length (to_encoded_path (drop i q) true) + string_length v) < 2 ^ 64
  | Extension _ _ => Z.of_nat (string_length (to_encoded_path (drop i q) false) + 33) < 2 ^ 64
  | _ => True
  end.

Lemma shortens_stub n : shortens n -> shortens (stub n).
Proof. by destruct n as [[] ?]. Qed.

Lemma shortens_equiv n m : n ≡ m -> shortens n -> shortens m.
Proof.
  intros E Hs. destruct n as [[|cs|p v|p c|d] cache].
  - by apply equiv_Null in E as [? ->].
  - by apply equiv_Branch in E as (? & ? & -> & _).
  - by apply equiv_Leaf in E as [? ->].
  - by apply equiv_Extension in E as (? & ? & -> & _).
  - by apply equiv_Digest in E as [? ->].
Qed.

Lemma Nibs_drop i p : Nibs p -> Nibs (drop i p).
Proof. apply Forall_drop. Qed.

Lemma shorten_wire n ns : wire_ok n -> shortens n -> shorten_node_path n = Ok ns ->
  Forall (fun m => wire_ok m /\ is_digest m = false) ns.
Proof.
  intros Hw Hs E. unfold shorten_node_path in E. apply bind_Ok in E as (q & Hq & E).
  destruct Hw as [cache|d cache Hd Hl|p v cache Hp Hv Hl|p c cache Hp Hc Hn Hl|cs cache Hl Hc Hn];
    cbn [as_data] in E; apply Ok_inj in E as <-; [constructor|constructor|..|constructor].
  all: assert (q = p) as -> by (unfold nibs in Hq; cbn [as_data] in Hq;
    rewrite prefix_nibs_to_encoded_path in Hq by done; by injection Hq as ->).
  all: apply Forall_forall; intros m (i & -> & _)%list_elem_of_fmap; split; [|done].
  - apply wire_Leaf; [by apply Nibs_drop|done|exact (Hs p i Hq)].
  - apply wire_Extension; [by apply Nibs_drop|done|done|exact (Hs p i Hq)].
Qed.

(** ** Filing nodes *)

(** [n] is coherent, of the encoder's shape, and not a bare digest. *)
Definition fit (n : MptNode) : Prop := wire_ok n /\ is_digest n = false /\ cache_ok n.

Lemma fit_equiv n m : n ≡ m -> cache_ok m -> fit n -> fit m.
Proof.
  intros E Hm (Hw & Hd & _). split; [by eapply wire_ok_equiv|]. split; [|done]. by rewrite <- (is_digest_equiv n m E).
Qed.

Lemma fit_filed n : fit n -> exists m, reference n = (ref_of n, m) /\ m ≡ n /\ fit m.
Proof.
  intros Hf. destruct (reference_spec n) as [Hr He Hc _]; [apply Hf|]. destruct (reference n) as [r m]. cbn in *.
  exists m. subst r. split; [done|]. split; [done|]. by apply (fit_equiv n).
Qed.

Definition holds_ref (store : node_store) (r : MptNodeReference) : Prop := is_Some (store !! r).

Lemma store_insert_wire n store : fit n -> store_wire store ->
  store_wire (store_insert n store) /\ holds_ref (store_insert n store) (ref_of n) /\
  forall r, holds_ref store r -> holds_ref (store_insert n store) r.
Proof.
  intros Hf Hs. unfold store_insert. destruct (fit_filed n Hf) as (m & -> & Hm & Hfm). split_and!.
  - intros r k. rewrite lookup_insert. case_decide as E; [|apply Hs]. intros [= <-]. subst r.
    split; [by apply ref_of_proper|]. by destruct Hfm as (? & ? & _).
  - exists m. by rewrite lookup_insert_eq.
  - intros r [k Hk]. unfold holds_ref. rewrite lookup_insert. case_decide; [by eexists|by exists k].
Qed.

Lemma store_or_insert_wire n store : fit n -> store_wire store ->
  store_wire (store_or_insert n store) /\ holds_ref (store_or_insert n store) (ref_of n) /\
  forall r, holds_ref store r -> holds_ref (store_or_insert n store) r.
Proof.
  intros Hf Hs. pose proof (store_insert_wire n store Hf Hs) as Hi. unfold store_or_insert, store_insert in *.
  destruct (fit_filed n Hf) as (m & E & _). rewrite E in *.
  destruct (store !! ref_of n) as [k|] eqn:Ek; [|exact Hi]. split; [done|]. split; [by exists k|done].
Qed.

Lemma store_or_insert_all ns : forall store, Forall fit ns -> store_wire store ->
  store_wire (foldl (fun s n => store_or_insert n s) store ns) /\
  forall r, holds_ref store r -> holds_ref (foldl (fun s n => store_or_insert n s) store ns) r.
Proof.
  induction ns as [|n ns IH]; intros store Hn Hs; [done|]. apply Forall_cons in Hn as [Hf Hn].
  destruct (store_or_insert_wire n store Hf Hs) as (Hs1 & _ & H1'). cbn [foldl].
  destruct (IH _ Hn Hs1) as [Hs2 H2']. split; [done|]. auto.
Qed.

(** ** Proofs whose entries are encoded nodes *)

(** What a node of the network writes: encodings of nodes that fit. *)
Definition encodes (entry : list Z * list Z) (n : MptNode) : Prop :=
  wire_ok n /\ is_digest n = false /\ shortens n /\ entry.2 = enc_of n.
Definition encoded_nodes (entries : list (list Z * list Z)) : Prop :=
  Forall (fun e => exists n, encodes e n) entries.

Lemma decode_entry e n : encodes e n -> decode e.2 = Ok (stub n) /\ fit (stub n) /\ shortens (stub n) /\
  ref_of (stub n) = ref_of n /\ hash_of (stub n) = hash_of n.
Proof.
  intros (Hw & Hd & Hs & ->). assert (E : decode (enc_of n) = Ok (stub n)) by (apply decode_enc; [done|lia]).
  split; [exact E|]. split; [|split; [by apply shortens_stub|split; [apply ref_of_stub|apply hash_of_stub]]].
  split; [by apply wire_ok_stub|]. split; [by destruct n as [[] ?]|by eapply decode_cache_ok].
Qed.

(** The root node found so far. *)
Definition root_found (root : list Z) (n : MptNode) : Prop := fit n /\ hash_of n = root.

Lemma collect_before_covers root s e s' n : encodes e n -> store_wire s.1 ->
  collect_before root s e = Ok s' ->
  store_wire s'.1 /\ holds_ref s'.1 (ref_of n) /\ (forall r, holds_ref s.1 r -> holds_ref s'.1 r) /\
  (hash_of n = root \/ root_found root s.2 -> root_found root s'.2) /\
  (s'.2 = s.2 \/ root_found root s'.2).
Proof.
  intros He Hs E. destruct (decode_entry e n He) as (Ed & Hf & _ & Hr & Hh). unfold collect_before in E.
  destruct s as [nodes rn]. cbn [fst snd] in *. rewrite Ed in E. cbn [map_err mbind outcome_bind] in E.
  destruct (hash_spec (stub n)) as (Hhs & Heq & Hc); [apply Hf|]. destruct (hash (stub n)) as [h m].
  cbn [fst snd] in *. injection E as <-. cbn [fst snd].
  assert (Hfm : fit m) by (eapply fit_equiv; [symmetry; exact Heq|done|done]).
  assert (Hm : ref_of m = ref_of n) by (rewrite <- Hr; by apply ref_of_proper).
  assert (Hhm : hash_of m = hash_of n) by (rewrite <- Hh; by apply hash_of_equiv).
  destruct (store_insert_wire m nodes Hfm Hs) as (Hs' & Hin & Hkeep). rewrite Hm in Hin. split; [done|]. split; [done|]. split; [done|].
  assert (Hroot : h = root -> root_found root m) by (intros <-; split; [done|congruence]).
  split.
  - intros [Hn|Ho]; case_decide; [by apply Hroot| |by apply Hroot|done]. exfalso. congruence.
  - case_decide; [right; by apply Hroot|by left].
Qed.

Lemma collect_before_all root entries : forall s s', encoded_nodes entries -> store_wire s.1 ->
  for_each (collect_before root) s entries = Ok s' ->
  store_wire s'.1 /\ (forall r, holds_ref s.1 r -> holds_ref s'.1 r) /\
  (forall e n, e ∈ entries -> encodes e n -> holds_ref s'.1 (ref_of n)) /\
  ((exists e n, e ∈ entries /\ encodes e n /\ hash_of n = root) \/ root_found root s.2 -> root_found root s'.2) /\
  (s'.2 = s.2 \/ root_found root s'.2).
Proof.
  induction entries as [|e entries IH]; intros s s' He Hs E; cbn [for_each] in E.
  { injection E as <-. split_and!; [done|done|by intros e n []%elem_of_nil| |by left].
    intros [(e & n & []%elem_of_nil & _)|Hr]; done. }
  apply Forall_cons in He as [[n Hn] He]. apply bind_Ok in E as (s1 & E1 & E).
  destruct (collect_before_covers root s e s1 n Hn Hs E1) as (Hs1 & Hin & Hkeep & Hroot & Hor).
  destruct (IH s1 s' He Hs1 E) as (Hs2 & Hkeep2 & Hin2 & Hroot2 & Hor2). split_and!; [done|auto|..].
  - intros e' n' [->|Hin']%elem_of_cons Hn'; [|by eapply Hin2]. apply Hkeep2.
    destruct (decode_entry e n Hn) as (Ed & _ & _ & Hr & _). destruct (decode_entry e n' Hn') as (Ed' & _ & _ & Hr' & _).
    rewrite Ed in Ed'. injection Ed' as Ed'. rewrite <- Hr', <- Ed', Hr. done.
  - intros [(e' & n' & [->|Hin']%elem_of_cons & Hn' & Hh)|Hr].
    + apply Hroot2. right. apply Hroot. left.
      destruct (decode_entry e n Hn) as (Ed & _ & _ & _ & Hr). destruct (decode_entry e n' Hn') as (Ed' & _ & _ & _ & Hr').
      rewrite Ed in Ed'. injection Ed' as Ed'. rewrite <- Hr, Ed', Hr'. done.
    + apply Hroot2. left. by exists e', n'.
    + apply Hroot2. right. apply Hroot. by right.
  - destruct Hor2 as [->|]; [exact Hor|by right].
Qed.

Lemma collect_after_covers nodes e nodes' n : encodes e n -> store_wire nodes ->
  collect_after nodes e = Ok nodes' ->
  store_wire nodes' /\ forall r, holds_ref nodes r -> holds_ref nodes' r.
Proof.
  intros He Hs E. destruct (decode_entry e n He) as (Ed & Hf & Hsh & _ & _). unfold collect_after in E.
  rewrite Ed in E. cbn [map_err mbind outcome_bind] in E. apply bind_Ok in E as (ns & Ens & E).
  apply unwrap_res_Ok in Ens. injection E as <-.
  destruct (store_or_insert_wire (stub n) nodes Hf Hs) as (Hs1 & _ & Hkeep).
  destruct (fit_filed _ Hf) as (m & Em & Hm & Hfm). rewrite Em in Ens. cbn [snd] in Ens.
  destruct (store_or_insert_all ns (store_or_insert (stub n) nodes)) as [Hs2 Hkeep2]; [|done|auto].
  pose proof (shorten_wire m ns (proj1 Hfm) (shortens_equiv _ _ (symmetry Hm) Hsh) Ens) as Hw.
  pose proof (shorten_cache_ok m ns (proj2 (proj2 Hfm)) Ens) as Hc. rewrite Forall_forall in *.
  intros x Hx. split; [apply (Hw x Hx)|]. split; [apply (Hw x Hx)|by apply Hc].
Qed.

Lemma collect_after_all entries : forall nodes nodes', encoded_nodes entries -> store_wire nodes ->
  for_each collect_after nodes entries = Ok nodes' ->
  store_wire nodes' /\ forall r, holds_ref nodes r -> holds_ref nodes' r.
Proof.
  induction entries as [|e entries IH]; intros nodes nodes' He Hs E; cbn [for_each] in E; [by injection E as <-|].
  apply Forall_cons in He as [[n Hn] He]. apply bind_Ok in E as (s1 & E1 & E).
  destruct (collect_after_covers nodes e s1 n Hn Hs E1) as [Hs1 Hk1]. destruct (IH s1 nodes' He Hs1 E) as [Hs2 Hk2]. auto.
Qed.

(** ** What the builders return *)
Hypothesis Hempty : keccak256 [EMPTY_STRING_CODE] = EMPTY_ROOT.

(** The root and every node kept by hash on the way of a lookup. *)
Definition covers_key (entries : list (list Z * list Z)) (t : MptNode) (k : list Z) : Prop :=
  forall t', on_path t k t' -> t' = t \/ (exists d, ref_of t' = RefDigest d) ->
    exists e, e ∈ entries /\ encodes e t'.

Lemma same_hash_same_ref K n t : coll_free K -> wire_ok n -> wire_ok t -> is_digest n = false -> is_digest t = false ->
  node_encodings n ⊆ K -> node_encodings t ⊆ K -> hash_of n = hash_of t -> ref_of n = ref_of t.
Proof.
  intros HK Hn Ht Hdn Hdt Hkn Hkt E. rewrite !hash_of_nondigest in E by done. rewrite !nondigest_ref_enc by done.
  f_equal. apply (coll_free_inj K); [done|apply Hkn|apply Hkt|done]; by apply node_encodings_here.
Qed.

Lemma built_covers {E} K fuel nodes rn t r k : coll_free K -> store_wire nodes -> store_ok nodes -> root_found (hash_of t) rn ->
  wire_ok t -> resolved t -> node_encodings r ⊆ K -> node_encodings t ⊆ K -> covered nodes t k ->
  @resolve_nodes E fuel rn nodes = Ok r -> get_internal r k = get_internal t k.
Proof.
  intros HK Hs Hok [(Hw & Hd & Hc) Hh] Ht Hr Hkr Hkt Hcov E'. pose proof (resolved_nondigest t Hr) as Hdt.
  pose proof (resolve_spec fuel rn nodes r Hok Hc E') as [Hrr _ Hnull _].
  destruct (@resolve_wire E fuel nodes rn r Hs Hw E') as [Hwr _].
  apply (@resolve_covers E K nodes t HK Hs Hok rn k fuel r); [done..| |done|done]. rewrite <- Hrr.
  apply (same_hash_same_ref K); [done|done|done| |done|done|done|].
  - by apply (@resolve_nondigest E fuel nodes rn).
  - by rewrite (hash_of_same r rn Hrr Hnull).
Qed.

Lemma root_found_default : root_found EMPTY_ROOT default_node.
Proof. split; [|done]. split; [constructor|split; [done|apply cache_ok_null]]. Qed.

Lemma covered_null nodes t k : is_null t -> covered nodes t k.
Proof. intros Hn t' d Hp Hr. destruct Hp; try (by destruct n as [[] ?]); done. Qed.

Lemma checked_root_same {A} (t : MptNode) root (k : MptNode -> outcome FromProofError A) e a :
  cache_ok t -> (let '(h, t') := hash t in if decide (h = root) then k t' else Err (e h)) = Ok a ->
  exists t', t' ≡ t /\ cache_ok t' /\ hash_of t = root /\ k t' = Ok a.
Proof.
  intros Hc E. destruct (hash_spec t Hc) as (Hh & Heq & Hc'). destruct (hash t) as [h t'].
  cbn in *. case_decide as Hd; [|discriminate]. exists t'. split; [done|]. split; [done|]. split; [congruence|done].
Qed.

(** A trie rebuilt from [entries] stands for [t] where they cover it. *)
Definition stands_in (entries : list (list Z * list Z)) (t r : MptNode) : Prop :=
  wire_ok r /\ cache_ok r /\ hash_of r = hash_of t /\
  forall key, is_null t \/ covers_key entries t (to_nibs key) -> get r key = get t key.

Lemma rebuilt {E} K fuel entries nodes nodes' rn t r r' : coll_free K -> encoded_nodes entries -> wire_ok t -> resolved t ->
  node_encodings r' ⊆ K -> node_encodings t ⊆ K ->
  for_each (collect_before (hash_of t)) (∅, default_node) entries = Ok (nodes, rn) ->
  store_wire nodes' -> store_ok nodes' -> (forall ref, holds_ref nodes ref -> holds_ref nodes' ref) ->
  @resolve_nodes E fuel rn nodes' = Ok r -> r' ≡ r -> cache_ok r' -> hash_of r = hash_of t -> stands_in entries t r'.
Proof.
  intros HK He Ht Hr Hkr Hkt E1 Hs' Hok Hk E2 Heq Hc Hroot'. rewrite (node_encodings_equiv _ _ Heq) in Hkr.
  assert (Hs0 : store_wire (∅ : node_store)) by (intros ref n Hn; by rewrite lookup_empty in Hn).
  destruct (collect_before_all (hash_of t) entries (∅, default_node) _ He Hs0 E1) as (_ & _ & Hin & Hroot & Hor).
  cbn [fst snd] in *. assert (Hrn : wire_ok rn) by (destruct Hor as [->|[(? & _) _]]; [constructor|done]).
  split_and!; [|done|by rewrite (hash_of_equiv _ _ Heq)|].
  - eapply wire_ok_equiv; [symmetry; exact Heq|]. by destruct (@resolve_wire E fuel nodes' rn r Hs' Hrn E2).
  - intros key Hcov. unfold get. rewrite (get_equiv _ _ _ Heq).
    assert (Hn : is_null t -> hash_of t = EMPTY_ROOT) by (by destruct t as [[] ?]).
    assert (Hfound : root_found (hash_of t) rn).
    { destruct Hcov as [Hnull|Hcov].
      - rewrite (Hn Hnull) in *. destruct Hor as [->|]; [apply root_found_default|done].
      - apply Hroot. left. destruct (Hcov t (path_here _ _) (or_introl eq_refl)) as (e & Hine & Hen). by exists e, t. }
    apply (@built_covers E K fuel nodes' rn t r _ HK Hs' Hok Hfound Ht Hr Hkr Hkt); [|done].
    destruct Hcov as [Hnull|Hcov]; [by apply covered_null|].
    intros t' d Hp Hd. destruct (Hcov t' Hp (or_intror (ex_intro _ d Hd))) as (e & Hine & Hen).
    apply Hk. rewrite <- Hd. by eapply Hin.
Qed.

(** ** Multiproofs *)
Context (T : MptNode) (storage_of : list Z -> MptNode).
Context (HT : wire_ok T /\ resolved T) (HS : forall a, wire_ok (storage_of a) /\ resolved (storage_of a)).

(** The before-proof declares the true roots, and both proofs hold nodes. *)
Definition proof_of_state (before : MultiProof) : Prop :=
  encoded_nodes (account_subtree before) /\ NoDup (storages before).*1 /\
  forall a smp, (a, smp) ∈ storages before -> encoded_nodes (smp_subtree smp) /\ smp_root smp = hash_of (storage_of a).
Definition proof_of_nodes (after : MultiProof) : Prop :=
  encoded_nodes (account_subtree after) /\ forall a smp, (a, smp) ∈ storages after -> encoded_nodes (smp_subtree smp).

(** The storage tries are those of the accounts of [l], each related to its part. *)
Definition tries_for (R : list Z -> StorageMultiProof -> MptNode -> Prop) (l : list (list Z * StorageMultiProof))
    (tries : gmap (list Z) MptNode) : Prop :=
  forall a, match tries !! a with
            | Some t => exists smp, (a, smp) ∈ l /\ R a smp t
            | None => a ∉ l.*1
            end.
Definition storages_stand_in : list (list Z * StorageMultiProof) -> gmap (list Z) MptNode -> Prop :=
  tries_for (fun a smp t => smp_root smp <> B256_ZERO -> stands_in (smp_subtree smp) (storage_of a) t).

(** [K] has the encodings of the state's tries and of the rebuilt ones. *)
Record state_in (K : list (list Z)) (st : EthereumState) : Prop := {
  si_full : node_encodings T ⊆ K;
  si_trie : node_encodings (state_trie st) ⊆ K;
  si_tries : forall a t, storage_tries st !! a = Some t -> node_encodings t ⊆ K /\ node_encodings (storage_of a) ⊆ K }.

Lemma digest_stands_in a smp : smp_subtree smp = [] -> smp_root smp = hash_of (storage_of a) -> smp_root smp <> B256_ZERO ->
  stands_in (smp_subtree smp) (storage_of a) (node_from_digest (smp_root smp)).
Proof.
  intros He Hr Hz. destruct (HS a) as [Hw Hres].
  assert (Hb : Bytes (smp_root smp) /\ length (smp_root smp) = 32%nat).
  { rewrite Hr, hash_of_nondigest by (done || by apply resolved_nondigest). auto using keccak256_bytes, keccak256_length. }
  split_and!.
  - unfold node_from_digest. case_decide; [exact (wire_Null None)|exact (wire_Digest _ None (proj1 Hb) (proj2 Hb))].
  - apply hash_of_from_digest.
  - rewrite <- Hr. by destruct (hash_of_from_digest (smp_root smp)) as [_ [|[? _]]].
  - intros key [Hn|Hc].
    + assert (E : smp_root smp = EMPTY_ROOT) by (rewrite Hr; by destruct (storage_of a) as [[] ?]).
      rewrite E. unfold node_from_digest. rewrite decide_True by auto.
      unfold get. destruct (storage_of a) as [d c]. unfold is_null in Hn. cbn in Hn. by subst d.
    + destruct (Hc _ (path_here _ _) (or_introl eq_refl)) as (e & Hin & _). rewrite He in Hin. by apply elem_of_nil in Hin.
Qed.

Section InSet.
Context (K : list (list Z)) (HK : coll_free K).

(** What is known of a rebuilt storage trie whose nodes are in [K]. *)
Definition storage_rebuilt (a : list Z) (smp : StorageMultiProof) (t : MptNode) : Prop :=
  smp_root smp <> B256_ZERO -> node_encodings t ⊆ K -> node_encodings (storage_of a) ⊆ K ->
  stands_in (smp_subtree smp) (storage_of a) t.

Lemma storage_stands_in fuel after tries a smp tries' :
  (forall smp', after !! a = Some smp' -> encoded_nodes (smp_subtree smp')) ->
  encoded_nodes (smp_subtree smp) -> smp_root smp = hash_of (storage_of a) ->
  storage_from_multiproof fuel after tries (a, smp) = Ok tries' ->
  exists t, tries' = <[a := t]> tries /\ storage_rebuilt a smp t.
Proof.
  intros Hafter Henc Hr E. unfold storage_from_multiproof in E.
  case_decide as He; [injection E as <-; eexists; split; [done|intros ? _ _; by apply digest_stands_in]|].
  apply bind_Ok in E as ([nodes rn] & E1 & E). apply bind_Ok in E as (nodes' & E2 & E). apply bind_Ok in E as (t & E3 & E).
  pose proof E1 as Ew. rewrite Hr in Ew.
  assert (Hs0 : store_wire (∅ : node_store)) by (intros ref n Hn; by rewrite lookup_empty in Hn).
  destruct (collect_before_all _ _ (∅, default_node) _ Henc Hs0 E1) as (Hsw & _). cbn [fst] in Hsw.
  assert (Hs' : store_wire nodes' /\ forall r, holds_ref nodes r -> holds_ref nodes' r).
  { destruct (after !! a) as [smp'|] eqn:Ea; [|by injection E2 as <-]. eapply collect_after_all; [by apply Hafter|done|exact E2]. }
  assert (Hct : store_ok nodes' /\ cache_ok t).
  { apply (for_each_inv nodes_ok) in E1 as [Hn Hrn]; [|apply nodes_ok_empty|intros; by eapply collect_before_ok].
    assert (Hn' : store_ok nodes').
    { destruct (after !! a); [|by injection E2 as <-]. apply (for_each_inv store_ok) in E2; [done|done|].
      intros. by eapply collect_after_ok. }
    split; [done|]. by destruct (resolve_spec _ _ _ _ Hn' Hrn E3). }
  apply (checked_root_same t (smp_root smp) (fun t' => Ok (<[a := t']> tries))
           (fun h => MismatchedStorageRoot (replicate 20 0) h (smp_root smp))) in E; [|apply Hct].
  destruct E as (t' & Heq & Hc' & Hh & [= <-]). exists t'. split; [done|]. intros _ Hkt Hka. rewrite Hr in Hh.
  destruct (HS a) as [Hwa Hra]. destruct Hs' as [Hsw' Hk], Hct as [Hok _].
  exact (@rebuilt FromProofError K fuel (smp_subtree smp) nodes nodes' rn (storage_of a) t t' HK Henc Hwa Hra Hkt Hka Ew Hsw' Hok Hk E3 Heq Hc' Hh).
Qed.

Lemma storages_all fuel after l : forall tries tries' done_,
  (forall a smp, after !! a = Some smp -> encoded_nodes (smp_subtree smp)) -> NoDup (done_ ++ l).*1 ->
  (forall a smp, (a, smp) ∈ l -> encoded_nodes (smp_subtree smp) /\ smp_root smp = hash_of (storage_of a)) ->
  tries_for storage_rebuilt done_ tries -> for_each (storage_from_multiproof fuel after) tries l = Ok tries' ->
  tries_for storage_rebuilt (done_ ++ l) tries'.
Proof.
  induction l as [|[a smp] l IH]; intros tries tries' dn Hafter Hnd Hl Hs E; cbn [for_each] in E.
  { injection E as <-. by rewrite app_nil_r. }
  apply bind_Ok in E as (t1 & E1 & E). destruct (Hl a smp (list_elem_of_here _ _)) as [He Hr].
  destruct (storage_stands_in fuel after tries a smp t1 (Hafter a) He Hr E1) as (t & -> & Ht).
  change (dn ++ (a, smp) :: l) with (dn ++ [(a, smp)] ++ l) in *. rewrite app_assoc in *.
  apply (IH (<[a := t]> tries)); [done|done| | |done].
  { intros b smp' Hb. apply Hl. by apply list_elem_of_further. }
  intros b. rewrite lookup_insert. case_decide as Hd.
  - subst b. exists smp. split; [set_solver|done].
  - specialize (Hs b). destruct (tries !! b) as [t'|].
    + destruct Hs as (smp' & Hin & Hst). exists smp'. split; [set_solver|done].
    + rewrite fmap_app, not_elem_of_app. split; [done|]. cbn. set_solver.
Qed.

Lemma tries_stand_in l tries :
  (forall a t, tries !! a = Some t -> node_encodings t ⊆ K /\ node_encodings (storage_of a) ⊆ K) ->
  tries_for storage_rebuilt l tries -> storages_stand_in l tries.
Proof.
  intros Hk Hl a. specialize (Hl a). destruct (tries !! a) as [t|] eqn:Et; [|done]. destruct Hl as (smp & Hin & Hr).
  exists smp. split; [done|]. intros Hz. by apply Hr; [|apply (Hk a t Et)..].
Qed.

Lemma multiproofs_stand_in fuel before after st :
  proof_of_state before -> proof_of_nodes after -> account_subtree before <> [] -> state_in K st ->
  transition_multiproofs_to_tries fuel (hash_of T) before after = Ok st ->
  stands_in (account_subtree before) T (state_trie st) /\ storages_stand_in (storages before) (storage_tries st).
Proof.
  intros (He & Hnd & Hst) (Hea & Hsta) Hne [HkT Hkr Hks] E. unfold transition_multiproofs_to_tries in E. rewrite decide_False in E by done.
  apply bind_Ok in E as ([nodes rn] & E1 & E). apply bind_Ok in E as (nodes' & E2 & E).
  apply bind_Ok in E as (tries & E3 & E). apply bind_Ok in E as (t & E4 & E).
  assert (Hs0 : store_wire (∅ : node_store)) by (intros ref n Hn; by rewrite lookup_empty in Hn).
  destruct (collect_before_all _ _ (∅, default_node) _ He Hs0 E1) as (Hsw & _). cbn [fst] in Hsw.
  destruct (collect_after_all _ _ _ Hea Hsw E2) as [Hsw' Hk].
  assert (Hct : store_ok nodes' /\ cache_ok t).
  { apply (for_each_inv nodes_ok) in E1 as [Hn Hrn]; [|apply nodes_ok_empty|intros; by eapply collect_before_ok].
    apply (for_each_inv store_ok) in E2; [|done|intros; by eapply collect_after_ok].
    split; [done|]. by destruct (resolve_spec _ _ _ _ E2 Hrn E4). }
  apply (checked_root_same t (hash_of T) (fun t' => Ok {| state_trie := t'; storage_tries := tries |})
           (fun h => MismatchedStateRoot h (hash_of T))) in E; [|apply Hct].
  destruct E as (t' & Heq & Hc' & Hh & [= <-]). cbn [state_trie storage_tries] in *. split.
  - destruct HT as [HwT HrT], Hct as [Hok _].
    exact (@rebuilt FromProofError K fuel (account_subtree before) nodes nodes' rn T t t' HK He HwT HrT Hkr HkT E1 Hsw' Hok Hk E4 Heq Hc' Hh).
  - apply tries_stand_in; [done|].
    apply (storages_all fuel (list_to_map (storages after)) (storages before) ∅ tries []); [|done|done| |done].
    + intros a smp Ha. apply (Hsta a). by apply elem_of_list_to_map_2.
    + intros a. rewrite lookup_empty. apply not_elem_of_nil.
Qed.
End InSet.

(** ** The builders succeed *)

(** Some node of the proof is the root. *)
Definition rooted (entries : list (list Z * list Z)) (t : MptNode) : Prop :=
  is_null t \/ exists e, e ∈ entries /\ encodes e t.

Lemma covers_rooted entries t k : covers_key entries t k -> rooted entries t.
Proof. intros Hc. right. apply (Hc t (path_here _ _)). by left. Qed.

Lemma for_each_runs {E S A} (body : S -> A -> outcome E S) l : (forall s x, x ∈ l -> exists s', body s x = Ok s') ->
  forall s, exists s', for_each body s l = Ok s'.
Proof.
  induction l as [|x l IH]; intros Hb s; [by exists s|]. destruct (Hb s x (list_elem_of_here _ _)) as (s1 & E1).
  destruct (IH (fun s y Hy => Hb s y (list_elem_of_further _ _ _ Hy)) s1) as (s' & E'). exists s'. cbn [for_each]. by rewrite E1.
Qed.

Lemma encoded_entry entries e : encoded_nodes entries -> e ∈ entries -> exists n, encodes e n.
Proof. intros He Hin. by apply (proj1 (Forall_forall _ _) He). Qed.

Lemma collect_before_runs root entries s : encoded_nodes entries -> exists s', for_each (collect_before root) s entries = Ok s'.
Proof.
  intros He. apply for_each_runs. intros [nodes rn] e Hin. destruct (encoded_entry _ _ He Hin) as [n Hn].
  destruct (decode_entry e n Hn) as (Ed & _). unfold collect_before. rewrite Ed. cbn [map_err mbind outcome_bind].
  destruct (hash (stub n)) as [h m]. by eexists.
Qed.

Lemma shorten_runs n : wire_ok n -> exists ns, shorten_node_path n = Ok ns.
Proof.
  destruct 1 as [cache|d cache Hd Hl|p v cache Hp Hv Hl|p c cache Hp Hc Hn Hl|cs cache Hl Hc Hn]; unfold shorten_node_path, nibs;
    cbn [as_data]; try rewrite prefix_nibs_to_encoded_path by done; by eexists.
Qed.

Lemma collect_after_runs entries nodes : encoded_nodes entries -> exists nodes', for_each collect_after nodes entries = Ok nodes'.
Proof.
  intros He. apply for_each_runs. intros st e Hin. destruct (encoded_entry _ _ He Hin) as [n Hn].
  destruct (decode_entry e n Hn) as (Ed & Hf & _). destruct (fit_filed _ Hf) as (m & Em & _ & Hfm).
  destruct (shorten_runs m (proj1 Hfm)) as (ns & Ens). unfold collect_after. rewrite Ed. cbn [map_err mbind outcome_bind].
  rewrite Em. cbn [snd]. rewrite Ens. by eexists.
Qed.

Lemma check_passes {A} (t : MptNode) root (k : MptNode -> outcome FromProofError A) e : cache_ok t -> hash_of t = root ->
  (let '(h, t') := hash t in if decide (h = root) then k t' else Err (e h)) = k (hash t).2.
Proof. intros Hc Hh. destruct (hash_spec t Hc) as (Eh & _ & _). destruct (hash t) as [h t']. cbn [fst snd] in *. subst. by rewrite decide_True. Qed.

Lemma storage_more fuel fuel' after tries entry tries' : (fuel <= fuel')%nat ->
  storage_from_multiproof fuel after tries entry = Ok tries' -> storage_from_multiproof fuel' after tries entry = Ok tries'.
Proof.
  intros Hle E. destruct entry as [a smp]. unfold storage_from_multiproof in *. case_decide; [done|].
  apply bind_Ok in E as ([nodes rn] & -> & E). cbn [mbind outcome_bind] in *. apply bind_Ok in E as (nodes' & -> & E).
  cbn [mbind outcome_bind]. apply bind_Ok in E as (t & E3 & E). by rewrite (resolve_more fuel fuel' _ _ _ Hle E3).
Qed.

Lemma for_each_more {E S A} (body body' : S -> A -> outcome E S) l : (forall s x s', body s x = Ok s' -> body' s x = Ok s') ->
  forall s s', for_each body s l = Ok s' -> for_each body' s l = Ok s'.
Proof.
  intros Hb. induction l as [|x l IH]; intros s s' Es; [done|]. cbn [for_each] in *. apply bind_Ok in Es as (s1 & E1 & Es).
  rewrite (Hb _ _ _ E1). by apply IH.
Qed.


(** The storage roots of the proof are found in it. *)
Definition storages_rooted (l : list (list Z * StorageMultiProof)) : Prop :=
  forall a smp, (a, smp) ∈ l -> smp_subtree smp <> [] -> rooted (smp_subtree smp) (storage_of a).

Lemma transition_more fuel fuel' root before after st : (fuel <= fuel')%nat ->
  transition_multiproofs_to_tries fuel root before after = Ok st -> transition_multiproofs_to_tries fuel' root before after = Ok st.
Proof.
  intros Hle E. unfold transition_multiproofs_to_tries in *. case_decide; [done|].
  apply bind_Ok in E as ([nodes rn] & -> & E). cbn [mbind outcome_bind] in *. apply bind_Ok in E as (nodes' & -> & E).
  cbn [mbind outcome_bind] in *. apply bind_Ok in E as (tries & E3 & E). apply bind_Ok in E as (t & E4 & E).
  rewrite (for_each_more _ (storage_from_multiproof fuel' (list_to_map (storages after))) _
    (fun s x s' => storage_more fuel fuel' _ s x s' Hle) _ _ E3). cbn [mbind outcome_bind].
  by rewrite (resolve_more fuel fuel' _ _ _ Hle E4).
Qed.

(** ** The encodings of the nodes the builders handle *)

(** The node of an entry of a before-proof, and the nodes an entry of an
    after-proof adds to the store: its own and the shortened ones. *)
Definition decoded_encodings (entry : list Z * list Z) : list (list Z) :=
  match decode entry.2 with Ok n => node_encodings n | _ => [] end.
Definition filed_encodings (entry : list Z * list Z) : list (list Z) :=
  match decode entry.2 with
  | Ok n => node_encodings n ++
      match shorten_node_path (reference n).2 with Ok ns => concat (node_encodings <$> ns) | _ => [] end
  | _ => []
  end.
Definition all_encodings {A} (f : A -> list (list Z)) (l : list A) : list (list Z) := concat (f <$> l).

(** The encodings of every node of the state's tries and of the two proofs. *)
Definition multiproof_encodings (before after : MultiProof) : list (list Z) :=
  [EMPTY_STRING_CODE] :: node_encodings T ++
  all_encodings decoded_encodings (account_subtree before) ++ all_encodings filed_encodings (account_subtree after) ++
  all_encodings (fun e => node_encodings (storage_of e.1) ++ all_encodings decoded_encodings (smp_subtree e.2)) (storages before) ++
  all_encodings (fun e => all_encodings filed_encodings (smp_subtree e.2)) (storages after).

Section InSet.
Context (K : list (list Z)) (HK : coll_free K) (Hnull : [EMPTY_STRING_CODE] ∈ K).

Definition entries_in (f : list Z * list Z -> list (list Z)) (entries : list (list Z * list Z)) : Prop :=
  forall e, e ∈ entries -> f e ⊆ K.

Lemma store_insert_in n store : cache_ok n -> node_encodings n ⊆ K -> store_in K store -> store_in K (store_insert n store).
Proof.
  intros Hc Hn Hs r m. unfold store_insert. destruct (reference_spec n Hc) as [_ Heq _ _]. destruct (reference n) as [r' n']. cbn in *.
  rewrite lookup_insert. case_decide; [|apply Hs]. intros [= <-]. by rewrite (node_encodings_equiv _ _ Heq).
Qed.

Lemma store_or_insert_in n store : cache_ok n -> node_encodings n ⊆ K -> store_in K store -> store_in K (store_or_insert n store).
Proof.
  intros Hc Hn Hs. pose proof (store_insert_in n store Hc Hn Hs) as Hi. unfold store_or_insert, store_insert in *.
  destruct (reference n) as [r n']. by destruct (store !! r).
Qed.

Definition nodes_in (s : node_store * MptNode) : Prop := store_in K s.1 /\ node_encodings s.2 ⊆ K.

Lemma nodes_in_empty : nodes_in (∅, default_node).
Proof.
  split; [intros r n Hn; cbn [fst] in Hn; by rewrite lookup_empty in Hn|]. intros x Hx. by apply list_elem_of_singleton in Hx as ->.
Qed.

Lemma collect_before_in root s e s' : decoded_encodings e ⊆ K -> nodes_in s -> collect_before root s e = Ok s' -> nodes_in s'.
Proof.
  intros He [Hs Hr] E. unfold collect_before in E. destruct s as [nodes rn]. cbn in Hs, Hr. apply bind_Ok in E as (n & En & E).
  pose proof (map_err_decode _ _ En) as Hc. unfold decoded_encodings in He.
  destruct (decode e.2) as [n0| |]; [|done..]. injection En as ->. destruct (hash_spec n Hc) as (_ & Heq & Hc').
  destruct (hash n) as [h m]. cbn in *. injection E as <-. rewrite <- (node_encodings_equiv _ _ Heq) in He.
  split; cbn; [by apply store_insert_in|by case_decide].
Qed.

Lemma collect_after_in nodes e nodes' : filed_encodings e ⊆ K -> store_in K nodes -> collect_after nodes e = Ok nodes' -> store_in K nodes'.
Proof.
  intros He Hs E. unfold collect_after in E. apply bind_Ok in E as (n & En & E). apply bind_Ok in E as (ns & Ens & E).
  pose proof (map_err_decode _ _ En) as Hc. unfold filed_encodings in He. destruct (decode e.2) as [n0| |]; [|done..].
  injection En as ->. apply unwrap_res_Ok in Ens. injection E as <-.
  pose proof (shorten_cache_ok _ _ (memo_ok _ _ (reference_spec n Hc)) Ens) as Hcs. rewrite Ens in He.
  assert (Hns : Forall (fun m => cache_ok m /\ node_encodings m ⊆ K) ns).
  { apply Forall_forall. intros m Hm. split; [by apply (proj1 (Forall_forall _ _) Hcs)|]. intros x Hx. apply He, elem_of_app. right.
    apply (elem_of_concat _ (node_encodings m)); [done|]. by apply list_elem_of_fmap_2. }
  assert (Hn0 : store_in K (store_or_insert n nodes)).
  { apply store_or_insert_in; [done| |done]. intros x Hx. apply He, elem_of_app. by left. }
  clear He Ens Hcs. revert Hn0. generalize (store_or_insert n nodes). induction Hns as [|m ns [Hcm Hm] _ IH]; intros st Hst; [done|].
  cbn [foldl]. by apply IH, store_or_insert_in.
Qed.

(** A store collected from the two parts of a proof. *)
Lemma collected root entries nodes rn nodes' more : encoded_nodes entries -> entries_in decoded_encodings entries ->
  for_each (collect_before root) (∅, default_node) entries = Ok (nodes, rn) ->
  match more with
  | Some entries' => encoded_nodes entries' /\ entries_in filed_encodings entries' /\ for_each collect_after nodes entries' = Ok nodes'
  | None => nodes' = nodes
  end -> store_wire nodes' /\ store_ok nodes' /\ store_in K nodes' /\ cache_ok rn /\ node_encodings rn ⊆ K.
Proof.
  intros He Hin E1 E2.
  assert (Hs0 : store_wire (∅ : node_store)) by (intros ref n Hn; by rewrite lookup_empty in Hn).
  destruct (collect_before_all root entries (∅, default_node) _ He Hs0 E1) as (Hw & _).
  pose proof (for_each_inv nodes_ok _ _ _ _ nodes_ok_empty (fun s x s' Hn _ E => collect_before_ok _ s x s' Hn E) E1) as [Hok Hcr].
  pose proof (for_each_inv nodes_in _ _ _ _ nodes_in_empty (fun s x s' Hn Hx E => collect_before_in _ s x s' (Hin x Hx) Hn E) E1) as [Hk Hkr].
  cbn [fst snd] in *. destruct more as [entries'|]; [|by subst]. destruct E2 as (He' & Hin' & E2). split_and!; [..|done|done].
  - by eapply collect_after_all.
  - eapply (for_each_inv store_ok); [exact Hok| |exact E2]. intros. by eapply collect_after_ok.
  - eapply (for_each_inv (store_in K)); [exact Hk| |exact E2]. intros s x s' Hs Hx. apply collect_after_in; [by apply Hin'|done].
Qed.

Lemma root_resolves {E} entries t nodes rn nodes' : encoded_nodes entries -> wire_ok t -> resolved t -> node_encodings t ⊆ K ->
  rooted entries t -> for_each (collect_before (hash_of t)) (∅, default_node) entries = Ok (nodes, rn) ->
  store_wire nodes' -> store_ok nodes' -> store_in K nodes' -> node_encodings rn ⊆ K ->
  root_found (hash_of t) rn /\ exists fuel r, @resolve_nodes E fuel rn nodes' = Ok r /\ node_encodings r ⊆ K.
Proof.
  intros He Ht Hr Hkt Hroot E1 Hs' Hok Hin Hkr.
  assert (Hs0 : store_wire (∅ : node_store)) by (intros ref n Hn; by rewrite lookup_empty in Hn).
  destruct (collect_before_all (hash_of t) entries (∅, default_node) _ He Hs0 E1) as (_ & _ & _ & Hfound & Hor).
  cbn [fst snd] in *. assert (Hrn : root_found (hash_of t) rn).
  { destruct Hroot as [Hn|(e & Hine & Hen)]; [|apply Hfound; left; by exists e, t].
    destruct Hor as [->|]; [|done]. replace (hash_of t) with EMPTY_ROOT by (by destruct t as [[] ?]). apply root_found_default. }
  split; [done|]. destruct Hrn as [(Hw & Hd & Hc) Hh].
  pose proof (same_hash_same_ref K rn t HK Hw Ht Hd (resolved_nondigest t Hr) Hkr Hkt Hh) as Href.
  destruct (@resolve_total E K nodes' t HK Hs' Hin rn Hw Ht Hr Hkr Hkt Href) as (fuel & r & E').
  exists fuel, r. split; [done|]. by apply (@resolve_encodings E K fuel nodes' Hok Hin rn r).
Qed.

Definition tries_in (tries : gmap (list Z) MptNode) : Prop :=
  forall a t, tries !! a = Some t -> node_encodings t ⊆ K /\ node_encodings (storage_of a) ⊆ K.

Lemma tries_in_insert a t t' tries : t' ≡ t -> node_encodings t ⊆ K -> node_encodings (storage_of a) ⊆ K -> tries_in tries ->
  tries_in (<[a := t']> tries).
Proof.
  intros Heq Ht Ha Htr b u. rewrite lookup_insert. case_decide as Hd; [|apply Htr]. intros [= <-]. subst b.
  by rewrite (node_encodings_equiv _ _ Heq).
Qed.

Lemma storage_runs after tries a smp :
  (forall smp', after !! a = Some smp' -> encoded_nodes (smp_subtree smp') /\ entries_in filed_encodings (smp_subtree smp')) ->
  encoded_nodes (smp_subtree smp) -> entries_in decoded_encodings (smp_subtree smp) -> node_encodings (storage_of a) ⊆ K ->
  smp_root smp = hash_of (storage_of a) -> storages_rooted [(a, smp)] -> tries_in tries ->
  exists fuel tries', storage_from_multiproof fuel after tries (a, smp) = Ok tries' /\ tries_in tries'.
Proof.
  intros Hafter Henc Hin Hka Hr Hroot Htr. unfold storage_from_multiproof. case_decide as He.
  { exists 0%nat. eexists. split; [done|]. apply (tries_in_insert _ (node_from_digest (smp_root smp))); [done| |done|done].
    unfold node_from_digest. case_decide; intros x Hx; [by apply list_elem_of_singleton in Hx as ->|by apply elem_of_nil in Hx]. }
  destruct (HS a) as [Hwa Hra].
  destruct (collect_before_runs (smp_root smp) (smp_subtree smp) (∅, default_node) Henc) as ([nodes rn] & E1).
  assert (H2' : exists nodes', match after !! a with
      | Some after_storage => for_each collect_after nodes (smp_subtree after_storage) | None => Ok nodes end = Ok nodes' /\
      store_wire nodes' /\ store_ok nodes' /\ store_in K nodes' /\ cache_ok rn /\ node_encodings rn ⊆ K).
  { destruct (after !! a) as [smp'|] eqn:Ea.
    - destruct (Hafter _ eq_refl) as [Hea Hina]. destruct (collect_after_runs (smp_subtree smp') nodes Hea) as (nodes' & E2).
      exists nodes'. split; [done|]. by apply (collected _ _ nodes rn nodes' (Some (smp_subtree smp')) Henc Hin E1).
    - exists nodes. split; [done|]. by apply (collected _ _ nodes rn nodes None Henc Hin E1). }
  destruct H2' as (nodes' & E2 & Hsw' & Hok & Hin' & Hcr & Hkr). pose proof E1 as Ew. rewrite Hr in Ew.
  destruct (@root_resolves FromProofError _ _ _ _ nodes' Henc Hwa Hra Hka (Hroot a smp (list_elem_of_here _ _) He) Ew Hsw' Hok Hin' Hkr)
    as ((_ & Hh) & fuel & t & E3 & Hkt).
  exists fuel. rewrite E1. cbn [mbind outcome_bind]. rewrite E2. cbn [mbind outcome_bind]. rewrite E3. cbn [mbind outcome_bind].
  destruct (resolve_spec _ _ _ _ Hok Hcr E3) as [Href Hct Hnl _]. destruct (hash_spec t Hct) as (_ & Heq & _).
  rewrite (check_passes t (smp_root smp) (fun t' => Ok (<[a := t']> tries))
    (fun h => MismatchedStorageRoot (replicate 20 0) h (smp_root smp)) Hct).
  - eexists. split; [done|]. by apply (tries_in_insert _ t).
  - rewrite (hash_of_same t rn Href Hnl), Hh. congruence.
Qed.

Lemma storages_run after l : forall tries,
  (forall a smp, after !! a = Some smp -> encoded_nodes (smp_subtree smp) /\ entries_in filed_encodings (smp_subtree smp)) ->
  (forall a smp, (a, smp) ∈ l -> (encoded_nodes (smp_subtree smp) /\ smp_root smp = hash_of (storage_of a)) /\
     node_encodings (storage_of a) ⊆ K /\ entries_in decoded_encodings (smp_subtree smp)) -> storages_rooted l -> tries_in tries ->
  exists fuel tries', for_each (storage_from_multiproof fuel after) tries l = Ok tries' /\ tries_in tries'.
Proof.
  induction l as [|[a smp] l IH]; intros tries Hafter Hl Hroot Htr; [exists 0%nat; by eexists|].
  destruct (Hl a smp (list_elem_of_here _ _)) as [[He Hr] [Hka Hin]].
  destruct (storage_runs after tries a smp (Hafter a) He Hin Hka Hr) as (f1 & t1 & E1 & Ht1); [|done|].
  { intros b smp' [= -> ->]%list_elem_of_singleton. apply Hroot. by left. }
  destruct (IH t1 Hafter) as (f2 & t2 & E2 & Ht2); [intros b smp' Hb; apply Hl; by right|intros b smp' Hb; apply Hroot; by right|done|].
  exists (f1 `max` f2)%nat, t2. cbn [for_each]. rewrite (storage_more f1 (f1 `max` f2)%nat) with (tries' := t1) by (lia || done).
  cbn [mbind outcome_bind]. split; [|done]. revert E2. apply for_each_more. intros. eapply storage_more; [|done]. lia.
Qed.

(** The nodes of the tries and of the proofs are in [K]. *)
Record proofs_in (before after : MultiProof) : Prop := {
  in_trie : node_encodings T ⊆ K;
  in_before : entries_in decoded_encodings (account_subtree before);
  in_after : entries_in filed_encodings (account_subtree after);
  in_storages : forall a smp, (a, smp) ∈ storages before ->
    node_encodings (storage_of a) ⊆ K /\ entries_in decoded_encodings (smp_subtree smp);
  in_storages_after : forall a smp, (a, smp) ∈ storages after -> entries_in filed_encodings (smp_subtree smp) }.

Lemma multiproofs_run before after : proof_of_state before -> proof_of_nodes after -> proofs_in before after ->
  account_subtree before <> [] -> rooted (account_subtree before) T -> storages_rooted (storages before) ->
  exists fuel st, transition_multiproofs_to_tries fuel (hash_of T) before after = Ok st /\ state_in K st.
Proof.
  intros (He & _ & Hst) (Hea & Hsta) [HkT Hib Hia Hss Hssa] Hne Hroot Hroots. destruct HT as [HwT HrT].
  destruct (collect_before_runs (hash_of T) (account_subtree before) (∅, default_node) He) as ([nodes rn] & E1).
  destruct (collect_after_runs (account_subtree after) nodes Hea) as (nodes' & E2).
  destruct (collected _ _ nodes rn nodes' (Some (account_subtree after)) He Hib E1) as (Hsw & Hok & Hin & Hcr & Hkr); [done|].
  destruct (storages_run (list_to_map (storages after)) (storages before) ∅) as (f1 & tries & E3 & Htr).
  { intros a smp Ha. assert (Hina : (a, smp) ∈ storages after) by (by apply elem_of_list_to_map_2). split; [by apply (Hsta a)|by apply (Hssa a)]. }
  { intros a smp Ha. split; [by apply Hst|by apply Hss]. }
  { done. }
  { intros a t Ha. by rewrite lookup_empty in Ha. }
  destruct (@root_resolves FromProofError _ _ _ _ nodes' He HwT HrT HkT Hroot E1 Hsw Hok Hin Hkr) as ((_ & Hh) & f2 & t & E4 & Hkt).
  exists (f1 `max` f2)%nat. unfold transition_multiproofs_to_tries. rewrite decide_False by done. rewrite E1.
  cbn [mbind outcome_bind]. rewrite E2. cbn [mbind outcome_bind].
  assert (H1' : (f1 <= f1 `max` f2)%nat) by lia. assert (H2' : (f2 <= f1 `max` f2)%nat) by lia.
  rewrite (for_each_more _ (storage_from_multiproof (f1 `max` f2) (list_to_map (storages after))) _
    (fun s x s' => storage_more _ _ _ s x s' H1') _ _ E3), (resolve_more _ _ _ _ _ H2' E4).
  cbn [mbind outcome_bind]. destruct (resolve_spec _ _ _ _ Hok Hcr E4) as [Href Hct Hnl _]. destruct (hash_spec t Hct) as (_ & Heq & _).
  rewrite (check_passes t (hash_of T) (fun t' => Ok {| state_trie := t'; storage_tries := tries |})
    (fun h => MismatchedStateRoot h (hash_of T)) Hct).
  - eexists. split; [done|]. split; cbn [state_trie storage_tries]; [done| |exact Htr]. by rewrite (node_encodings_equiv _ _ Heq).
  - by rewrite (hash_of_same t rn Href Hnl).
Qed.
End InSet.

Lemma all_encodings_in {A} (f : A -> list (list Z)) k l x : x ∈ l -> k ⊆ f x -> k ⊆ all_encodings f l.
Proof. intros Hx Hk e He. apply (elem_of_concat _ (f x)); [by apply Hk|]. by apply list_elem_of_fmap_2. Qed.

Lemma multiproof_encodings_in before after : proofs_in (multiproof_encodings before after) before after.
Proof.
  unfold multiproof_encodings. split.
  - by apply sub_cons, sub_app_l.
  - intros e He. apply sub_cons, sub_app_r, sub_app_l. by eapply all_encodings_in.
  - intros e He. apply sub_cons. do 2 apply sub_app_r. apply sub_app_l. by eapply all_encodings_in.
  - intros a smp Ha. split; [|intros e He]; apply sub_cons; do 3 apply sub_app_r; apply sub_app_l;
      apply (all_encodings_in _ _ _ _ Ha); [by apply sub_app_l|]. apply sub_app_r. by eapply all_encodings_in.
  - intros a smp Ha e He. apply sub_cons. do 4 apply sub_app_r. apply (all_encodings_in _ _ _ _ Ha). by eapply all_encodings_in.
Qed.

(** C26: a covering multiproof is turned into tries that answer what it covers.
    Let the state be given by its full tries.  When the before-proof declares the
    true storage roots, both proofs hold encodings of nodes, the roots are among
    them, and no two of the nodes' encodings (those of the state's tries, of the
    proofs and of the shortened nodes) collide under Keccak-256, the builder ends
    and succeeds, for all large enough fuel with the same tries: of the encoder's
    shape, with sound caches and the true roots; a storage trie for exactly the
    accounts of the before-proof; and wherever the before-proof holds the nodes
    on the way of a key, the rebuilt trie answers that key as the full trie does. *)
Theorem multiproofs_complete before after : proof_of_state before -> proof_of_nodes after -> account_subtree before <> [] ->
  rooted (account_subtree before) T -> storages_rooted (storages before) -> coll_free (multiproof_encodings before after) ->
  exists fuel0 st, stands_in (account_subtree before) T (state_trie st) /\ storages_stand_in (storages before) (storage_tries st) /\
     forall fuel, (fuel0 <= fuel)%nat -> transition_multiproofs_to_tries fuel (hash_of T) before after = Ok st.
Proof.
  intros Hb Ha Hne Hroot Hroots HK.
  destruct (multiproofs_run _ HK (list_elem_of_here _ _) before after Hb Ha (multiproof_encodings_in _ _) Hne Hroot Hroots) as (fuel0 & st & E & Hin).
  exists fuel0, st. destruct (multiproofs_stand_in _ HK fuel0 before after st Hb Ha Hne Hin E) as [Hs Hss]. split_and!; [done..|].
  intros fuel Hle. by apply (transition_more fuel0).
Qed.
End Cover.

(** ** The theorem at a concrete input *)
Section Samples.
#[local] Existing Instance RefRlp.alloy.
#[local] Existing Instance RefRlp.reader.
#[local] Existing Instance sample_keccak.

(** [sample_branch] with its large leaf, and that leaf as an account's storage. *)
Definition covering_before : MultiProof := {|
  account_subtree := [([], leaf_rlp); ([], branch_rlp)];
  storages := [([1], {| smp_root := hash_of sample_large_leaf; smp_subtree := [([], leaf_rlp)] |})] |}.

Lemma sample_leaf_wire : wire_ok sample_large_leaf /\ resolved sample_large_leaf.
Proof.
  split; [|constructor]. apply wire_Leaf; [|apply (bool_decide_unpack _); by vm_compute|by vm_compute].
  apply (bool_decide_unpack _). by vm_compute.
Qed.

Lemma leaf_encodes l : encodes (l, leaf_rlp) sample_large_leaf.
Proof.
  split; [apply sample_leaf_wire|]. split; [done|]. split; [|by vm_compute].
  intros q i Hq. injection Hq as <-. destruct i as [|[|i]]; [by vm_compute..|]. destruct i; by vm_compute.
Qed.

Lemma branch_encodes l : encodes (l, branch_rlp) sample_branch.
Proof. split; [apply sample_branch_ok|]. split; [done|]. split; [done|by vm_compute]. Qed.

Lemma covering_encodes : proof_of_state (fun _ => sample_large_leaf) covering_before.
Proof.
  split; [|split; [by apply NoDup_singleton|]].
  - apply Forall_cons; split; [eexists; apply leaf_encodes|]. apply Forall_singleton. eexists. apply branch_encodes.
  - intros a smp [= -> ->]%list_elem_of_singleton. split; [|done]. apply Forall_singleton. eexists. apply leaf_encodes.
Qed.

Lemma sample_after_encodes : proof_of_nodes sample_after.
Proof. split; [apply Forall_singleton; eexists; apply leaf_encodes|]. by intros a smp []%elem_of_nil. Qed.

Lemma multiproofs_complete_witness :
  exists fuel0 st, stands_in (account_subtree covering_before) sample_branch (state_trie st) /\
    storages_stand_in (fun _ => sample_large_leaf) (storages covering_before) (storage_tries st) /\
    forall fuel, (fuel0 <= fuel)%nat ->
      transition_multiproofs_to_tries fuel (hash_of sample_branch) covering_before sample_after = Ok st.
Proof.
  assert (Hk : keccak256 [EMPTY_STRING_CODE] = EMPTY_ROOT) by (vm_compute; reflexivity).
  apply (multiproofs_complete (laws := RefRlp.alloy_laws) (rlaws := RefRlp.reader_laws) Hk sample_branch
    (fun _ => sample_large_leaf) (conj (proj1 sample_branch_ok) (proj2 (proj2 sample_branch_ok)))
    (fun _ => sample_leaf_wire) covering_before sample_after);
    [apply covering_encodes|apply sample_after_encodes|discriminate| | |].
  - right. eexists. split; [by right; left|]. apply branch_encodes.
  - intros a smp [= -> ->]%list_elem_of_singleton _. right. eexists. split; [by left|]. apply leaf_encodes.
  - apply (bool_decide_unpack _). by vm_compute.
Defined.
End Samples.
