(* ===== verification/EthState.v ===== *)
(** * Applying a block's state changes ([crates/mpt/src/lib.rs])

    [EthereumState::update] writes the hashed post-state of a block into the
    state trie and the storage tries.  Its specification is the update of two
    maps: accounts, whose encoding embeds the root of their storage, and slots.
    The codecs of [reth_trie::TrieAccount] and of [U256] are parameters. *)
From S2P Require Import Prelude BytesCodec Nibbles Mpt MptInv MptInsert MptDelete MptMap.
From S2P Require Import Rlp MptHash MptCache MptWire MptProof MptTries.

(** [reth_trie::TrieAccount]. *)
Record TrieAccount : Type := {
  nonce : Z;
  balance : Z;
  storage_root : list Z;
  code_hash : list Z }.

(** [reth_primitives::Account], the hash being [get_bytecode_hash()]. *)
Record Account : Type := {
  acct_nonce : Z;
  acct_balance : Z;
  bytecode_hash : list Z }.

(** [reth_trie::{HashedStorage, HashedPostState}], the maps that are iterated
    over as lists of entries. *)
Record HashedStorage : Type := {
  wiped : bool;
  hs_storage : list (list Z * Z) }.
Record HashedPostState : Type := {
  accounts : list (list Z * option Account);
  post_storages : gmap (list Z) HashedStorage }.

(** RLP of accounts and of storage values. *)
Class AccountCodec := {
  account_encode : TrieAccount -> list Z;
  account_decode : list Z -> option TrieAccount;
  u256_encode : Z -> list Z }.

Class AccountCodecLaws `{AccountCodec} : Prop := {
  account_round_trip a : account_decode (account_encode a) = Some a;
  account_encode_nonempty a : account_encode a <> [];
  u256_encode_nonempty z : u256_encode z <> [] }.

Section Update.
Context `{Keccak, AlloyRlp, AccountCodec}.

(** [get_rlp::<TrieAccount>]. *)
Definition get_rlp (n : MptNode) (key : list Z) : outcome Error (option TrieAccount) :=
  o ← get n key;
  match o with
  | Some bytes =>
      match account_decode bytes with Some a => Ok (Some a) | None => Err Rlp end
  | None => Ok None
  end.

(** [insert_rlp], the value already encoded. *)
Definition insert_rlp (n : MptNode) (key value : list Z) : outcome Error (bool * MptNode) :=
  insert_internal n (to_nibs key) value.

(** The digest an uninitialised storage trie is replaced by, if any. *)
Definition recover_storage (state : MptNode) (hashed_address : list Z) (storage_trie : MptNode)
  : outcome Empty_set MptNode :=
  if is_empty storage_trie then
    match get_rlp state hashed_address with
    | Ok (Some existing_acc) =>
        if decide (storage_root existing_acc <> EMPTY_ROOT /\ storage_root existing_acc <> B256_ZERO)
        then Ok (from_data (Digest (storage_root existing_acc)))
        else Ok storage_trie
    | Ok None | Err _ => Ok storage_trie
    | Panic => Panic
    end
  else Ok storage_trie.

(** One slot: a zero value deletes. *)
Definition apply_slot (storage_trie : MptNode) (slot : list Z * Z) : outcome Empty_set MptNode :=
  let '(key, value) := slot in
  if value =? 0 then snd <$> unwrap_res (delete storage_trie key)
  else snd <$> unwrap_res (insert_rlp storage_trie key (u256_encode value)).

(** One account of the post-state. *)
Definition update_account (post_state : HashedPostState) (st : EthereumState)
    (entry : list Z * option Account) : outcome Empty_set EthereumState :=
  let '(hashed_address, account) := entry in
  match account with
  | Some account =>
      let state_storage :=
        default {| wiped := false; hs_storage := [] |} (post_storages post_state !! hashed_address) in
      let storage_trie := default default_node (storage_tries st !! hashed_address) in
      storage_trie ← recover_storage (state_trie st) hashed_address storage_trie;
      let storage_trie := if wiped state_storage then clear storage_trie else storage_trie in
      storage_trie ← for_each apply_slot storage_trie (hs_storage state_storage);
      let '(root, storage_trie) := hash storage_trie in
      let state_account := {|
        nonce := acct_nonce account;
        balance := acct_balance account;
        storage_root := root;
        code_hash := bytecode_hash account |} in
      '(_, state) ← unwrap_res (insert_rlp (state_trie st) hashed_address (account_encode state_account));
      Ok {| state_trie := state;
            storage_tries := <[hashed_address := storage_trie]> (storage_tries st) |}
  | None =>
      '(_, state) ← unwrap_res (delete (state_trie st) hashed_address);
      Ok {| state_trie := state; storage_tries := storage_tries st |}
  end.

(** [EthereumState::update]: it returns nothing, so it ends or panics. *)
Definition update (post_state : HashedPostState) (st : EthereumState) : outcome Empty_set EthereumState :=
  for_each (update_account post_state) st (accounts post_state).

(** [EthereumState::state_root]. *)
Definition state_root (st : EthereumState) : list Z := (hash (state_trie st)).1.

(** ** The abstract state *)

Abbreviation slots := (gmap (list Z) (list Z)).

(** The root of the trie that represents a map. *)
Definition map_root (m : slots) : list Z :=
  match run_ops ((fun kv => OpInsert kv.1 kv.2) <$> map_to_list m) default_node with
  | Ok t => hash_of t
  | _ => []
  end.

Definition spec_slot (m : slots) (slot : list Z * Z) : slots :=
  if slot.2 =? 0 then base.delete slot.1 m else <[slot.1 := u256_encode slot.2]> m.

(** Encoded accounts, and the slots of every address. *)
Definition spec_state : Type := slots * gmap (list Z) slots.

Definition spec_account (post : HashedPostState) (s : spec_state) (entry : list Z * option Account)
  : spec_state :=
  let '(m, sm) := s in
  match entry.2 with
  | None => (base.delete entry.1 m, sm)
  | Some a =>
      let ss := default {| wiped := false; hs_storage := [] |} (post_storages post !! entry.1) in
      let old := if wiped ss then ∅ else default ∅ (sm !! entry.1) in
      let new := foldl spec_slot old (hs_storage ss) in
      (<[entry.1 := account_encode {| nonce := acct_nonce a; balance := acct_balance a;
                                      storage_root := map_root new;
                                      code_hash := bytecode_hash a |}]> m,
       <[entry.1 := new]> sm)
  end.

Definition spec_update (post : HashedPostState) (s : spec_state) : spec_state :=
  foldl (spec_account post) s (accounts post).

(** A trie that holds a map of 32-byte keys to nonempty values. *)
Record holds (t : MptNode) (m : slots) : Prop := {
  holds_repr : repr 32 t m;
  holds_cache : cache_ok t;
  holds_values : forall k v, m !! k = Some v -> v <> [] }.

(** The concrete state implements the abstract one, and every account's
    embedded root is the root of its slots. *)
Record implements (st : EthereumState) (s : spec_state) : Prop := {
  im_state : holds (state_trie st) s.1;
  im_storage : forall a, holds (default default_node (storage_tries st !! a)) (default ∅ (s.2 !! a));
  im_roots : forall a enc acct, s.1 !! a = Some enc -> account_decode enc = Some acct ->
    storage_root acct = map_root (default ∅ (s.2 !! a)) }.

Lemma map_ops_inserts (l : list (list Z * list Z)) m0 :
  NoDup l.*1 -> map_ops ((fun kv => OpInsert kv.1 kv.2) <$> l) m0 = list_to_map l ∪ m0.
Proof.
  revert m0. induction l as [|[k v] l IH]; intros m0 Hnd; [cbn; by rewrite (left_id_L ∅ (∪))|].
  apply NoDup_cons in Hnd as [Hk Hnd]. rewrite fmap_cons. cbn [map_ops foldl].
  change (map_ops ((fun kv => OpInsert kv.1 kv.2) <$> l) (<[k := v]> m0) =
    list_to_map ((k, v) :: l) ∪ m0).
  rewrite IH by done. cbn [list_to_map foldr]. rewrite <- insert_union_l.
  apply not_elem_of_list_to_map_1 in Hk. by rewrite insert_union_r.
Qed.

Lemma map_root_holds t m : holds t m -> hash_of t = map_root m.
Proof.
  intros [Hr Hc Hv]. unfold map_root.
  destruct (repr_ops (n := 32) ((fun kv => OpInsert kv.1 kv.2) <$> map_to_list m) default_node ∅)
    as (t' & E & Hr').
  - apply repr_default.
  - apply Forall_fmap, Forall_forall. intros [k v] Hin%elem_of_map_to_list. cbn.
    destruct (repr_dom _ _ _ Hr k) as [Hb Hl]; [by eexists|]. eauto.
  - rewrite E. rewrite map_ops_inserts, list_to_map_to_list, map_union_empty in Hr'
      by apply NoDup_fst_map_to_list.
    apply hash_of_equiv. by eapply repr_inj.
Qed.

Lemma holds_empty t : is_null t -> cache_ok t -> holds t ∅.
Proof.
  intros Hn Hc. destruct t as [d c]. unfold is_null in Hn. cbn in Hn. subst d. split; [|done|].
  - eapply repr_equiv; [|apply repr_default]. done.
  - intros k v. by rewrite lookup_empty.
Qed.

Lemma holds_null t m : holds t m -> is_null t -> m = ∅.
Proof.
  intros [Hr _ _] Hn. apply map_eq. intros k. rewrite lookup_empty.
  destruct (m !! k) as [v|] eqn:E; [|done]. exfalso.
  destruct (repr_dom _ _ _ Hr k) as [Hb Hl]; [by eexists|].
  pose proof (repr_get _ _ _ Hr k Hb Hl) as Hg. rewrite E in Hg. unfold get in Hg.
  by rewrite get_null in Hg.
Qed.

Lemma map_root_empty : map_root ∅ = EMPTY_ROOT.
Proof. reflexivity. Qed.

(** A 32-byte key. *)
Definition word (k : list Z) : Prop := Bytes k /\ length k = 32%nat.

Lemma holds_insert t m k v :
  holds t m -> word k -> v <> [] ->
  exists ch t', insert_rlp t k v = Ok (ch, t') /\ holds t' (<[k := v]> m).
Proof.
  intros [Hr Hc Hv] [Hb Hl] Hne. destruct (repr_insert t m k v Hr) as (ch & t' & E & Hr' & _); [done|].
  unfold insert in E. rewrite decide_False in E by done. exists ch, t'. split; [done|]. split.
  - done.
  - by eapply insert_internal_cache_ok.
  - intros k' v'. rewrite lookup_insert. case_decide; [by intros [= <-]|apply Hv].
Qed.

Lemma holds_delete t m k :
  holds t m -> word k ->
  exists ch t', delete t k = Ok (ch, t') /\ holds t' (base.delete k m).
Proof.
  intros [Hr Hc Hv] [Hb Hl]. destruct (repr_delete t m k Hr) as (ch & t' & E & Hr' & _); [done|].
  exists ch, t'. split; [done|]. split.
  - done.
  - unfold delete in E. by eapply delete_internal_cache_ok.
  - intros k' v' [_ Hk]%lookup_delete_Some. eauto.
Qed.

Context {laws : AccountCodecLaws}.

Lemma apply_slots_holds t m l :
  holds t m -> Forall (fun s => word s.1) l ->
  exists t', for_each apply_slot t l = Ok t' /\ holds t' (foldl spec_slot m l).
Proof.
  intros Hh Hl. revert t m Hh. induction Hl as [|[k v] l Hk _ IH]; intros t m Hh; [by exists t|].
  cbn [for_each apply_slot foldl]. unfold spec_slot at 2. cbn [fst snd] in *.
  destruct (v =? 0).
  - destruct (holds_delete t m k Hh Hk) as (ch & t' & E & Hh'). rewrite E.
    cbn [unwrap_res fmap outcome_fmap snd mbind outcome_bind]. by apply IH.
  - destruct (holds_insert t m k (u256_encode v) Hh Hk) as (ch & t' & E & Hh').
    { apply u256_encode_nonempty. }
    rewrite E. cbn [unwrap_res fmap outcome_fmap snd mbind outcome_bind]. by apply IH.
Qed.

(** With coherent roots, the recovery of an untracked storage root never
    triggers: an empty storage trie means an empty root. *)
Lemma recover_holds st s a :
  implements st s -> word a ->
  recover_storage (state_trie st) a (default default_node (storage_tries st !! a)) =
  Ok (default default_node (storage_tries st !! a)).
Proof.
  intros [Hs Ht Hroot] [Hb Hl]. unfold recover_storage.
  destruct (is_empty _) eqn:Ee; [|done].
  assert (Hn : is_null (default default_node (storage_tries st !! a))).
  { pose proof (is_empty_spec (default default_node (storage_tries st !! a))) as Hsp.
    by rewrite Ee in Hsp. }
  pose proof (holds_null _ _ (Ht a) Hn) as Hem. unfold get_rlp.
  rewrite (repr_get _ _ _ (holds_repr _ _ Hs) a Hb Hl). cbn [mbind outcome_bind].
  destruct (s.1 !! a) as [enc|] eqn:Ea; [|done].
  destruct (account_decode enc) as [acct|] eqn:Ed; [|done].
  rewrite decide_False; [done|]. intros [Hne _]. apply Hne.
  rewrite (Hroot a enc acct Ea Ed), Hem. apply map_root_empty.
Qed.

Lemma holds_hash t m :
  holds t m -> (hash t).1 = map_root m /\ holds (hash t).2 m.
Proof.
  intros Hh. destruct (hash_spec t (holds_cache _ _ Hh)) as (E & Heq & Hc).
  rewrite E, (map_root_holds t m Hh). split; [done|]. split; [|done|apply Hh].
  eapply repr_equiv; [by symmetry|apply Hh].
Qed.

(** Well-formed inputs: 32-byte addresses and slots. *)
Definition post_ok (post : HashedPostState) : Prop :=
  Forall (fun e => word e.1) (accounts post) /\
  forall a hs, post_storages post !! a = Some hs -> Forall (fun s => word s.1) (hs_storage hs).

Lemma update_account_step post st s entry :
  implements st s -> post_ok post -> word entry.1 ->
  exists st', update_account post st entry = Ok st' /\ implements st' (spec_account post s entry).
Proof.
  intros Him Hpost Hw. destruct entry as [a [acct|]]; cbn [fst] in Hw;
    unfold update_account, spec_account; cbn [fst snd]; destruct s as [m sm].
  - set (ss := default _ (post_storages post !! a)).
    assert (Hss : Forall (fun s => word s.1) (hs_storage ss)).
    { destruct (post_storages post !! a) as [hs|] eqn:Eh; subst ss; cbn; [|constructor].
      by eapply (proj2 Hpost). }
    rewrite (recover_holds st (m, sm) a Him Hw). cbn [mbind outcome_bind].
    set (t0 := if wiped ss then _ else default default_node _).
    set (old := if wiped ss then ∅ else _).
    assert (H0h : holds t0 old).
    { subst t0 old. destruct (wiped ss); [apply holds_empty; [done|apply cache_ok_null]|].
      apply (im_storage _ _ Him a). }
    destruct (apply_slots_holds t0 old (hs_storage ss) H0h Hss) as (t1 & -> & Hh1).
    cbn [mbind outcome_bind]. destruct (holds_hash t1 _ Hh1) as [Er Hh2].
    destruct (hash t1) as [root t2]. cbn [fst snd] in *. subst root.
    set (new := foldl spec_slot old (hs_storage ss)) in *.
    set (ta := {| nonce := acct_nonce acct |}).
    destruct (holds_insert (state_trie st) m a (account_encode ta)) as (ch & state & E & Hh3).
    { apply Him. } { done. } { apply account_encode_nonempty. }
    rewrite E. cbn [unwrap_res mbind outcome_bind]. eexists. split; [reflexivity|].
    split; cbn [state_trie storage_tries fst snd].
    + done.
    + intros b. rewrite !lookup_insert. case_decide; [done|]. apply (im_storage _ _ Him b).
    + intros b enc acc'. rewrite !lookup_insert. case_decide as Hd; [|apply (im_roots _ _ Him b)].
      intros [= <-]. rewrite account_round_trip. intros [= <-]. done.
  - destruct (holds_delete (state_trie st) m a) as (ch & state & E & Hh).
    { apply Him. } { done. }
    rewrite E. cbn [unwrap_res mbind outcome_bind]. eexists. split; [reflexivity|].
    split; cbn [state_trie storage_tries fst snd].
    + done.
    + apply Him.
    + intros b enc acc' [_ Hb]%lookup_delete_Some. by apply (im_roots _ _ Him b enc).
Qed.

Lemma update_list post st s l :
  implements st s -> post_ok post -> Forall (fun e => word e.1) l ->
  exists st', for_each (update_account post) st l = Ok st' /\
    implements st' (foldl (spec_account post) s l).
Proof.
  intros Him Hpost Hl. revert st s Him. induction Hl as [|e l He _ IH]; intros st s Him; [by exists st|].
  destruct (update_account_step post st s e Him Hpost He) as (st1 & E & Him1).
  cbn [for_each foldl]. rewrite E. cbn [mbind outcome_bind]. by apply IH.
Qed.

Lemma update_implements post st s :
  implements st s -> post_ok post ->
  exists st', update post st = Ok st' /\ implements st' (spec_update post s) /\
    state_root st' = map_root (spec_update post s).1.
Proof.
  intros Him Hpost.
  destruct (update_list post st s (accounts post) Him Hpost (proj1 Hpost)) as (st' & E & Him').
  exists st'. split; [done|]. split; [done|]. unfold state_root.
  by apply holds_hash, Him'.
Qed.

(** C14: [update] implements the abstract update.  On a state whose tries hold
    the abstract maps and whose accounts embed the roots of their slots, every
    well-formed post-state is applied without panic, the result again holds
    the updated maps with the new storage roots embedded in the accounts, and
    the state root is the root of the updated account map. *)
Theorem update_refines post st s :
  implements st s -> post_ok post ->
  exists st', update post st = Ok st' /\ implements st' (spec_update post s) /\
    state_root st' = map_root (spec_update post s).1.
Proof. exact (update_implements post st s). Qed.

(** An untracked storage cannot be modified by accident.  If the state
    trie records a storage root other than the empty one for an account whose
    storage trie was never populated, a post-state that touches a slot of that
    account, without wiping it first, aborts instead of computing a wrong root. *)
Theorem update_unresolved_aborts post st a account acct key value rest :
  storage_tries st !! a = None ->
  get_rlp (state_trie st) a = Ok (Some acct) ->
  storage_root acct <> EMPTY_ROOT -> storage_root acct <> B256_ZERO ->
  post_storages post !! a = Some {| wiped := false; hs_storage := (key, value) :: rest |} ->
  update_account post st (a, Some account) = Panic.
Proof.
  intros Hno Hg Hne Hnz Hss. unfold update_account. rewrite Hss, Hno. cbn [default from_option id].
  unfold recover_storage. cbn [is_empty as_data default_node from_data]. rewrite Hg.
  rewrite decide_True by done. cbn [mbind outcome_bind wiped hs_storage for_each apply_slot].
  by destruct (value =? 0).
Qed.
End Update.

(** ** The theorems at concrete inputs *)
Section Samples.
#[local] Existing Instance RefRlp.alloy.
#[local] Existing Instance RefRlp.reader.
#[local] Existing Instance sample_keccak.

(** A stand-in codec: an account is one number that codes its fields. *)
#[local] Instance sample_codec : AccountCodec := {|
  account_encode a := [Zpos (countable.encode (nonce a, balance a, storage_root a, code_hash a))];
  account_decode bs :=
    match bs with
    | [Zpos p] =>
        (fun '(n, b, r, c) => {| nonce := n; balance := b; storage_root := r; code_hash := c |})
          <$> countable.decode (A := Z * Z * list Z * list Z) p
    | _ => None
    end;
  u256_encode z := [z] |}.

Lemma sample_codec_laws : AccountCodecLaws.
Proof.
  split; [|done|done]. intros [n b r c]. cbn [account_decode account_encode sample_codec nonce balance
    storage_root code_hash]. by rewrite countable.decode_encode.
Qed.

Definition empty_state : EthereumState := {| state_trie := default_node; storage_tries := ∅ |}.

Lemma empty_implements : implements empty_state (∅, ∅).
Proof.
  split; cbn [empty_state state_trie storage_tries fst snd].
  - by apply holds_empty, cache_ok_null.
  - intros a. rewrite !lookup_empty. by apply holds_empty, cache_ok_null.
  - intros a enc acct. by rewrite lookup_empty.
Qed.

Definition sample_addr : list Z := replicate 32 1.
Definition sample_account : Account :=
  {| acct_nonce := 1; acct_balance := 100; bytecode_hash := replicate 32 0 |}.
Definition sample_post : HashedPostState := {|
  accounts := [(sample_addr, Some sample_account); (replicate 32 2, None)];
  post_storages := {[ sample_addr :=
    {| wiped := true; hs_storage := [(replicate 32 3, 5); (replicate 32 4, 0)] |} ]} |}.

Lemma word_replicate b : is_byte b -> word (replicate 32 b).
Proof. intros Hb. split; [by apply Forall_replicate|apply length_replicate]. Qed.

Lemma sample_post_ok : post_ok sample_post.
Proof.
  split.
  - apply Forall_cons; split; [|apply Forall_singleton]; by apply word_replicate.
  - intros a hs Hs. cbn [post_storages sample_post] in Hs.
    apply lookup_singleton_Some in Hs as [_ <-]. cbn [hs_storage].
    apply Forall_cons; split; [|apply Forall_singleton]; by apply word_replicate.
Qed.

Lemma update_refines_witness :
  exists st', update sample_post empty_state = Ok st' /\
    implements st' (spec_update sample_post (∅, ∅)) /\
    state_root st' = map_root (spec_update sample_post (∅, ∅)).1.
Proof.
  apply (update_refines (laws := sample_codec_laws) sample_post empty_state (∅, ∅));
    [apply empty_implements|apply sample_post_ok].
Defined.

(** A state whose only account has storage that was never loaded. *)
Definition sample_ta : TrieAccount :=
  {| nonce := 0; balance := 0; storage_root := replicate 32 7; code_hash := [] |}.
Definition untracked_state : EthereumState := {|
  state_trie := from_data (Leaf (to_encoded_path (to_nibs sample_addr) true) (account_encode sample_ta));
  storage_tries := ∅ |}.
Definition touching_post : HashedPostState := {|
  accounts := [(sample_addr, Some sample_account)];
  post_storages := {[ sample_addr := {| wiped := false; hs_storage := [(replicate 32 3, 5)] |} ]} |}.

Lemma update_unresolved_aborts_witness :
  update_account touching_post untracked_state (sample_addr, Some sample_account) = Panic.
Proof.
  apply (update_unresolved_aborts touching_post untracked_state sample_addr sample_account sample_ta
           (replicate 32 3) 5 []); [reflexivity|by vm_compute|discriminate|discriminate|reflexivity].
Defined.
End Samples.
