(* ===== verification/StateShape.v ===== *)
(** * The shape of a state under updates ([crates/mpt/src/lib.rs])

    [EthState] shows what [update] does to full tries.  The guest runs it on
    truncated ones: it panics exactly when an account or slot it has to write lies
    in a part that was never loaded; otherwise the result is well formed and
    answers, where it was written and elsewhere, as it should.  And updates do not see the caches: on tries that are equal up to caches they have
    the same outcome up to caches.  The host checks a state root on a copy of the
    state, the guest computes it on the state it has hashed: this is why they
    agree. *)
From S2P Require Import Prelude BytesCodec Rlp Nibbles Mpt MptInv MptInsert MptDelete MptMap.
From S2P Require Import MptHash MptCache MptWire MptProof MptTries EthState.

(** Canonical nodes, every key 64 nibbles deep, and coherent caches. *)
Record shaped `{Keccak, AlloyRlp} (t : MptNode) : Prop := {
  shaped_wf : wf t;
  shaped_depth : depth_ok 64 t;
  shaped_cache : cache_ok t }.

Section Shape.
Context `{Keccak, AlloyRlp, AccountCodec}.

Record state_shaped (st : EthereumState) : Prop := {
  shaped_state : shaped (state_trie st);
  shaped_storage : forall a t, storage_tries st !! a = Some t -> shaped t }.

Lemma shaped_null : shaped default_node.
Proof. split; [constructor|constructor|apply cache_ok_null]. Qed.

Lemma shaped_digest d : shaped (from_data (Digest d)).
Proof. split; [constructor|constructor|by apply (cache_ok_fresh _ None)]. Qed.

Lemma shaped_hash t : shaped t -> shaped (hash t).2.
Proof.
  intros [Hw Hd Hc]. destruct (hash_spec t Hc) as (_ & E & Hc'). split; [|by eapply depth_ok_equiv; [symmetry; exact E|]|done].
  by eapply wf_equiv; [symmetry; exact E|].
Qed.

Lemma word_nibs k : word k -> Nibs (to_nibs k) /\ length (to_nibs k) = 64%nat.
Proof. intros [Hb Hl]. split; [by apply to_nibs_nibs|]. rewrite length_to_nibs, Hl. done. Qed.

(** The part of the trie that a key leads to was loaded. *)
Definition loaded (t : MptNode) (k : list Z) : bool := match get t k with Ok _ => true | _ => false end.

(** An insertion stops at the digest a lookup stops at. *)
Lemma insert_unresolved n key v d : wf n -> Nibs key -> get_internal n key = Err (NodeNotResolved d) ->
  insert_internal n key v = Err (NodeNotResolved d).
Proof.
  intros Hwf. revert key. induction Hwf as [cache|p old cache Hp|p child cache Hp Hne Hch IH Hbd
    |cs cache Hlen H2 Hch IH Hnn|d' cache]; intros key Hk Hg.
  - done.
  - rewrite get_Leaf in Hg by done. by case_decide.
  - rewrite get_Extension in Hg by done. destruct (strip_prefix p key) as [tail|] eqn:Es; [|done].
    apply strip_prefix_Some in Es as ->. apply Forall_app in Hk as [_ Ht]. rewrite insert_Extension by done.
    assert (El : lcp p (p ++ tail) = length p).
    { clear. induction p as [|x p IHp]; [done|]. cbn. rewrite Z.eqb_refl. by f_equal. }
    rewrite El, decide_True, drop_app_length by done. by rewrite (IH tail Ht Hg).
  - destruct key as [|i tail]; [done|]. inversion_clear Hk as [|?? Hi Ht]. rewrite get_Branch in Hg.
    rewrite insert_Branch. destruct (cs !! Z.to_nat i) as [[c|]|] eqn:Ec; [|done..].
    by rewrite (IH _ c Ec tail Ht Hg).
  - by injection Hg as ->.
Qed.

(** What one insertion and one deletion do to a trie, whatever is missing of it. *)
Definition rebound (t t' : MptNode) (k : list Z) (o : option (list Z)) : Prop :=
  shaped t' /\ forall k', word k' -> get t' k' = if decide (k' = k) then Ok o else get t k'.

Lemma words_nibs_inj k k' : word k -> word k' -> to_nibs k' = to_nibs k <-> k' = k.
Proof. intros [Hb _] [Hb' _]. split; [by apply to_nibs_inj|by intros ->]. Qed.

Lemma shaped_insert t k v : shaped t -> word k ->
  if loaded t k then exists b t', insert_rlp t k v = Ok (b, t') /\ rebound t t' k (Some v)
  else exists d, insert_rlp t k v = Err (NodeNotResolved d).
Proof.
  intros [Hw Hd Hc] Hk. destruct (word_nibs k Hk) as [Hn Hl]. unfold insert_rlp, loaded, get.
  destruct (insert_internal_total 64 t (to_nibs k) v Hw Hd Hn Hl) as [(d & -> & ->)|(b & t' & E & Hp)]; [eauto|].
  destruct (get_result t (to_nibs k) Hw Hn) as [[o ->]|[d Hg]].
  - exists b, t'. split; [done|]. split; [split|].
    + apply Hp.
    + by apply (insert_internal_depth 64 t (to_nibs k) v b).
    + by apply (insert_internal_cache_ok t (to_nibs k) v b).
    + intros k' Hk'. unfold get. rewrite (ip_binds _ _ _ _ _ Hp) by by apply word_nibs.
      by rewrite (decide_ext _ _ _ _ (words_nibs_inj k k' Hk Hk')).
  - by rewrite (insert_unresolved t (to_nibs k) v d Hw Hn Hg) in E.
Qed.

Lemma shaped_delete t k : shaped t -> word k ->
  if loaded t k then exists b t', delete t k = Ok (b, t') /\ rebound t t' k None
  else exists d, delete t k = Err (NodeNotResolved d).
Proof.
  intros [Hw Hd Hc] Hk. destruct (word_nibs k Hk) as [Hn Hl]. unfold delete, loaded, get.
  destruct (delete_internal_total 64 t (to_nibs k) Hw Hd Hn Hl) as [(d & -> & ->)|(b & t' & E & Hp)]; [eauto|].
  assert (Hg : exists o, get_internal t (to_nibs k) = Ok o).
  { destruct b; [destruct (proj1 (dp_flag _ _ _ _ Hp) eq_refl) as [v ->]; eauto|].
    pose proof (dp_unbinds _ _ _ _ Hp (to_nibs k) Hn) as Hu. rewrite decide_True, (dp_same _ _ _ _ Hp) in Hu by done. eauto. }
  destruct Hg as [o ->]. exists b, t'. split; [done|]. split; [split|].
  - apply Hp.
  - by apply Hp.
  - by apply (delete_internal_cache_ok t (to_nibs k) b).
  - intros k' Hk'. unfold get. rewrite (dp_unbinds _ _ _ _ Hp) by by apply word_nibs.
    by rewrite (decide_ext _ _ _ _ (words_nibs_inj k k' Hk Hk')).
Qed.

(** ** A list of slots *)

Definition slot_value (v : Z) : option (list Z) := if v =? 0 then None else Some (u256_encode v).

(** What a lookup of [k] answers after the slots were written, [o] before. *)
Definition after_slots (slots : list (list Z * Z)) (k : list Z) (o : outcome Error (option (list Z)))
  : outcome Error (option (list Z)) :=
  foldl (fun o s => if decide (k = s.1) then Ok (slot_value s.2) else o) o slots.

Lemma shaped_slot t s : shaped t -> word s.1 ->
  if loaded t s.1 then exists t', apply_slot t s = Ok t' /\ rebound t t' s.1 (slot_value s.2)
  else apply_slot t s = Panic.
Proof.
  intros Ht Hk. destruct s as [k v]. cbn [fst snd] in *. unfold apply_slot, slot_value. destruct (v =? 0).
  - pose proof (shaped_delete t k Ht Hk) as Hd. destruct (loaded t k).
    + destruct Hd as (b & t' & -> & Hr). by exists t'.
    + by destruct Hd as [d ->].
  - pose proof (shaped_insert t k (u256_encode v) Ht Hk) as Hi. destruct (loaded t k).
    + destruct Hi as (b & t' & -> & Hr). by exists t'.
    + by destruct Hi as [d ->].
Qed.

Lemma loaded_rebound t t' k k' o : rebound t t' k o -> loaded t k = true -> word k' -> loaded t' k' = loaded t k'.
Proof.
  intros [_ Hg] Hl Hk'. unfold loaded in *. rewrite (Hg k' Hk'). case_decide; [by subst|done].
Qed.

Lemma shaped_slots slots : forall t, shaped t -> Forall (fun s => word s.1) slots ->
  if forallb (fun s => loaded t s.1) slots
  then exists t', for_each apply_slot t slots = Ok t' /\ shaped t' /\ forall k, word k -> get t' k = after_slots slots k (get t k)
  else for_each apply_slot t slots = Panic.
Proof.
  induction slots as [|s slots IH]; intros t Ht Hs; [by exists t|]. apply Forall_cons in Hs as [Hw Hs].
  cbn [forallb for_each]. pose proof (shaped_slot t s Ht Hw) as H1'. destruct (loaded t s.1) eqn:El; cbn [andb].
  - destruct H1' as (t1 & -> & Hr). cbn [mbind outcome_bind]. specialize (IH t1 (proj1 Hr) Hs).
    assert (Ef : forallb (fun s => loaded t1 s.1) slots = forallb (fun s => loaded t s.1) slots).
    { clear IH. induction Hs as [|s' slots Hw' _ IHs]; [done|]. cbn. by rewrite IHs, (loaded_rebound t t1 s.1 s'.1 _ Hr El Hw'). }
    rewrite Ef in IH. destruct (forallb _ slots); [|exact IH]. destruct IH as (t' & E & Hsh & Hg). exists t'.
    split; [done|]. split; [done|]. intros k Hk. rewrite (Hg k Hk), (proj2 Hr k Hk). done.
  - by rewrite H1'.
Qed.

(** ** An account *)

Definition slots_of (post : HashedPostState) (a : list Z) : HashedStorage :=
  default {| wiped := false; hs_storage := [] |} (post_storages post !! a).

(** The storage of an account: its storage trie, or, where that is empty and the
    state trie records another root, a reference to what was never loaded. *)
Definition known_storage (st : EthereumState) (a : list Z) : MptNode :=
  let t := default default_node (storage_tries st !! a) in
  match is_empty t, get (state_trie st) a with
  | true, Ok (Some bytes) =>
      match account_decode bytes with
      | Some acct =>
          if decide (storage_root acct = EMPTY_ROOT \/ storage_root acct = B256_ZERO) then t
          else from_data (Digest (storage_root acct))
      | None => t
      end
  | _, _ => t
  end.

(** The trie the slots of an account are written to. *)
Definition slots_trie (post : HashedPostState) (st : EthereumState) (a : list Z) : MptNode :=
  if wiped (slots_of post a) then default_node else known_storage st a.

(** Everything an entry of the post-state leads to was loaded. *)
Definition entry_loaded (post : HashedPostState) (st : EthereumState) (entry : list Z * option Account) : bool :=
  loaded (state_trie st) entry.1 &&
  match entry.2 with
  | Some _ => forallb (fun s => loaded (slots_trie post st entry.1) s.1) (hs_storage (slots_of post entry.1))
  | None => true
  end.

(** What an entry of the post-state has become. *)
Definition entry_written (post : HashedPostState) (st st' : EthereumState) (entry : list Z * option Account) : Prop :=
  let '(a, account) := entry in
  match account with
  | None => get (state_trie st') a = Ok None /\ storage_tries st' !! a = storage_tries st !! a
  | Some acct => exists t, storage_tries st' !! a = Some t /\
      get (state_trie st') a = Ok (Some (account_encode {| nonce := acct_nonce acct; balance := acct_balance acct;
        storage_root := hash_of t; code_hash := bytecode_hash acct |})) /\
      forall k, word k -> get t k = after_slots (hs_storage (slots_of post a)) k (get (slots_trie post st a) k)
  end.

(** Two states answer alike about an account. *)
Definition same_account_reads (st st' : EthereumState) (a : list Z) : Prop :=
  get (state_trie st') a = get (state_trie st) a /\ storage_tries st' !! a = storage_tries st !! a.

Lemma recover_known st a : shaped (state_trie st) -> word a ->
  recover_storage (state_trie st) a (default default_node (storage_tries st !! a)) = Ok (known_storage st a).
Proof.
  intros [Hw _ _] Ha. unfold recover_storage, known_storage, get_rlp, get. destruct (is_empty _); [|done].
  destruct (get_result (state_trie st) (to_nibs a) Hw) as [[[bs|] ->]|[d ->]]; [by apply word_nibs| |done..].
  cbn [mbind outcome_bind]. destruct (account_decode bs); [|done].
  do 2 case_decide; tauto.
Qed.

Lemma known_shaped st a : state_shaped st -> shaped (known_storage st a).
Proof.
  intros [_ Hs]. assert (Ht : shaped (default default_node (storage_tries st !! a))).
  { destruct (storage_tries st !! a) as [t|] eqn:E; [by eapply Hs|apply shaped_null]. }
  unfold known_storage. set (t := default _ _) in *. clearbody t. destruct (is_empty t); [|exact Ht].
  destruct (get (state_trie st) a) as [[bs|]| |]; [|exact Ht..].
  destruct (account_decode bs); [|exact Ht]. case_decide; [exact Ht|apply shaped_digest].
Qed.

Lemma slots_words post a : post_ok post -> Forall (fun s => word s.1) (hs_storage (slots_of post a)).
Proof.
  intros [_ Hp]. unfold slots_of. destruct (post_storages post !! a) as [hs|] eqn:E; [by eapply Hp|constructor].
Qed.

Lemma shaped_slots_trie post st a : state_shaped st -> shaped (slots_trie post st a).
Proof. intros Hst. unfold slots_trie. destruct (wiped _); [apply shaped_null|by apply known_shaped]. Qed.

(** The storage of an account is rewritten first, then its leaf. *)
Lemma update_account_some post st a acct : state_shaped st -> word a ->
  update_account post st (a, Some acct) =
  (t ← for_each apply_slot (slots_trie post st a) (hs_storage (slots_of post a));
   '(_, state) ← unwrap_res (insert_rlp (state_trie st) a (account_encode {| nonce := acct_nonce acct;
     balance := acct_balance acct; storage_root := (hash t).1; code_hash := bytecode_hash acct |}));
   Ok {| state_trie := state; storage_tries := <[a := (hash t).2]> (storage_tries st) |}).
Proof.
  intros [Ht _] Ha. unfold update_account, slots_trie, slots_of. rewrite (recover_known st a Ht Ha).
  cbn [mbind outcome_bind]. unfold clear. destruct (wiped _), (for_each _ _ _) as [u| |]; cbn [mbind outcome_bind]; try done;
    by destruct (hash u).
Qed.

Lemma shaped_account post st entry : state_shaped st -> post_ok post -> word entry.1 ->
  if entry_loaded post st entry
  then exists st', update_account post st entry = Ok st' /\ state_shaped st' /\ entry_written post st st' entry /\
    forall a, word a -> a <> entry.1 -> same_account_reads st st' a
  else update_account post st entry = Panic.
Proof.
  intros Hst Hp Ha. pose proof Hst as [Ht Hs]. destruct entry as [a [acct|]]; unfold entry_loaded; cbn [fst snd] in *.
  - rewrite (update_account_some post st a acct Hst Ha).
    pose proof (shaped_slots _ _ (shaped_slots_trie post st a Hst) (slots_words post a Hp)) as Hsl.
    destruct (forallb _ (hs_storage (slots_of post a))); [|rewrite andb_false_r; by rewrite Hsl].
    destruct Hsl as (t & -> & Hsh & Hg). cbn [mbind outcome_bind]. rewrite andb_true_r.
    set (enc := account_encode _). pose proof (shaped_insert (state_trie st) a enc Ht Ha) as Hi.
    destruct (loaded (state_trie st) a); [|by destruct Hi as [d ->]].
    destruct Hi as (b & s & -> & Hr). cbn [unwrap_res mbind outcome_bind]. eexists. split; [done|].
    destruct (hash_spec t (shaped_cache _ Hsh)) as (Eh & Et & _). split_and!.
    + split; [apply Hr|]. cbn [storage_tries]. intros k t'. rewrite lookup_insert.
      case_decide; [intros [= <-]; by apply shaped_hash|apply Hs].
    + exists (hash t).2. cbn [state_trie storage_tries]. rewrite lookup_insert_eq. split; [done|]. split.
      * rewrite (proj2 Hr a Ha), decide_True by done. unfold enc. by rewrite Eh, (hash_of_equiv _ _ Et).
      * intros k Hk. unfold get at 1. rewrite (get_equiv _ _ _ Et). by apply Hg.
    + intros a' Ha' Hne. split; cbn [state_trie storage_tries]; [by rewrite (proj2 Hr a' Ha'), decide_False|by rewrite lookup_insert_ne].
  - rewrite andb_true_r. unfold update_account. pose proof (shaped_delete (state_trie st) a Ht Ha) as Hd.
    destruct (loaded (state_trie st) a); [|by destruct Hd as [d ->]].
    destruct Hd as (b & s & -> & Hr). cbn [unwrap_res mbind outcome_bind]. eexists. split; [done|]. split_and!.
    + by split; [apply Hr|].
    + split; [|done]. cbn [state_trie]. by rewrite (proj2 Hr a Ha), decide_True.
    + intros a' Ha' Hne. split; [|done]. cbn [state_trie]. by rewrite (proj2 Hr a' Ha'), decide_False by done.
Qed.

(** ** A post-state *)

(** What is asked of one account does not depend on the others. *)
Lemma slots_trie_reads post st st' a : same_account_reads st st' a -> slots_trie post st' a = slots_trie post st a.
Proof. intros [Eg Es]. unfold slots_trie, known_storage. by rewrite Eg, Es. Qed.

Lemma entry_loaded_reads post st st' e : same_account_reads st st' e.1 -> entry_loaded post st' e = entry_loaded post st e.
Proof.
  intros Hs. unfold entry_loaded. rewrite (slots_trie_reads post st st' e.1 Hs). unfold loaded at 1 3. by rewrite (proj1 Hs).
Qed.

Lemma entry_written_before post st st1 st' e : same_account_reads st st1 e.1 ->
  entry_written post st1 st' e -> entry_written post st st' e.
Proof.
  intros Hs. destruct e as [a [acct|]]; cbn [entry_written fst] in *.
  - by rewrite (slots_trie_reads post st st1 a Hs).
  - by destruct Hs as [_ ->].
Qed.

Lemma entry_written_after post st st1 st' e : same_account_reads st1 st' e.1 ->
  entry_written post st st1 e -> entry_written post st st' e.
Proof.
  intros [Eg Es]. destruct e as [a [acct|]]; cbn [entry_written fst] in *; rewrite Eg, Es; done.
Qed.

Lemma shaped_entries post l : forall st, state_shaped st -> post_ok post -> Forall (fun e => word e.1) l -> NoDup l.*1 ->
  if forallb (entry_loaded post st) l
  then exists st', for_each (update_account post) st l = Ok st' /\ state_shaped st' /\
    Forall (entry_written post st st') l /\ forall a, word a -> a ∉ l.*1 -> same_account_reads st st' a
  else for_each (update_account post) st l = Panic.
Proof.
  induction l as [|e l IH]; intros st Hst Hp Hw Hnd; [exists st; by split_and!|].
  apply Forall_cons in Hw as [Hwe Hw]. apply NoDup_cons in Hnd as [Hne Hnd]. cbn [forallb for_each].
  pose proof (shaped_account post st e Hst Hp Hwe) as Hacc. destruct (entry_loaded post st e); cbn [andb]; [|by rewrite Hacc].
  destruct Hacc as (st1 & -> & Hst1 & Hwr & Hsame). cbn [mbind outcome_bind]. specialize (IH st1 Hst1 Hp Hw Hnd).
  assert (Hkeep : Forall (fun e' => same_account_reads st st1 e'.1) l).
  { apply Forall_forall. intros e' He'. rewrite Forall_forall in Hw. apply Hsame; [by apply Hw|].
    intros E. apply Hne. rewrite <- E. by apply list_elem_of_fmap_2. }
  assert (Ef : forallb (entry_loaded post st1) l = forallb (entry_loaded post st) l).
  { clear - Hkeep. induction Hkeep as [|e' l He' _ IHl]; [done|]. cbn. by rewrite IHl, (entry_loaded_reads post st st1 e' He'). }
  rewrite Ef in IH. destruct (forallb _ l); [|exact IH]. destruct IH as (st' & E & Hst' & Hall & Hsame').
  exists st'. split_and!; [done|done| |].
  - constructor.
    + apply (entry_written_after post st st1 st' e); [by apply Hsame'|done].
    + rewrite Forall_forall in *. intros e' He'. apply (entry_written_before post st st1 st' e'); [by apply Hkeep|by apply Hall].
  - intros a Ha [Hna Hnl]%not_elem_of_cons. destruct (Hsame a Ha Hna) as [E1 E2], (Hsame' a Ha Hnl) as [E3 E4].
    split; congruence.
Qed.

(** C31: [update] on truncated tries.  On any state of canonical tries, with keys
    of 32 bytes and coherent caches, whatever parts of them were never loaded, and
    for a post-state of 32-byte keys that names each account once: if every
    account and slot it names lies in a loaded part, the update ends, the tries
    are again canonical, 64 nibbles deep and coherent, a deleted account is
    absent, a written one has the fields given and the root of its new storage,
    whose slots are those written and otherwise those found before, and every
    other account answers as before.  If one of them does not, the update
    panics. *)
Theorem update_keeps_shape post st : state_shaped st -> post_ok post -> NoDup (accounts post).*1 ->
  if forallb (entry_loaded post st) (accounts post)
  then exists st', update post st = Ok st' /\ state_shaped st' /\ Forall (entry_written post st st') (accounts post) /\
    forall a, word a -> a ∉ (accounts post).*1 -> same_account_reads st st' a
  else update post st = Panic.
Proof. intros Hs Hp Hnd. by apply (shaped_entries post (accounts post) st Hs Hp (proj1 Hp) Hnd). Qed.
End Shape.

Section Samples.
#[local] Existing Instance RefRlp.alloy.
#[local] Existing Instance RefRlp.reader.
#[local] Existing Instance sample_keccak.
#[local] Existing Instance sample_codec.

(** A branch with one leaf below nibble 0; what lies below nibble 1 was never loaded. *)
Definition cut_trie (key value : list Z) : MptNode :=
  from_data (Branch (Some (from_data (Leaf (to_encoded_path (drop 1 (to_nibs key)) true) value))
    :: Some (from_data (Digest (replicate 32 9))) :: replicate 14 None)).

Lemma cut_trie_shaped key value : word key -> shaped (cut_trie key value).
Proof.
  intros Hk. destruct (word_nibs key Hk) as [Hn Hl].
  assert (Hd : Nibs (drop 1 (to_nibs key))) by by apply Forall_drop.
  assert (Hc : forall i c, child_at (Some (from_data (Leaf (to_encoded_path (drop 1 (to_nibs key)) true) value))
    :: Some (from_data (Digest (replicate 32 9))) :: replicate 14 None) i c ->
    c = from_data (Leaf (to_encoded_path (drop 1 (to_nibs key)) true) value) \/ c = from_data (Digest (replicate 32 9))).
  { intros [|[|i]] c; unfold child_at; cbn [lookup list_lookup]; [intros [= <-]; by left|intros [= <-]; by right|].
    by intros [? _]%lookup_replicate. }
  split.
  - constructor; [done| | |].
    + exists 0%nat, 1%nat. do 2 eexists. by split_and!.
    + intros i c [-> | ->]%Hc; by constructor.
    + intros i c [-> | ->]%Hc Hnull; discriminate Hnull.
  - constructor. intros i c [-> | ->]%Hc; [|constructor].
    replace 63%nat with (length (drop 1 (to_nibs key))) by (rewrite length_drop, Hl; done). by constructor.
  - apply cache_ok_branch. intros i c [-> | ->]%Hc; by apply (cache_ok_fresh _ None).
Qed.

Definition near_slot : list Z := replicate 32 3.
Definition far_key : list Z := replicate 32 16.
Definition cut_state : EthereumState := {|
  state_trie := cut_trie sample_addr (account_encode sample_ta);
  storage_tries := {[ sample_addr := cut_trie near_slot [7] ]} |}.
Definition post_of (a : list Z) (slots : list (list Z * Z)) : HashedPostState := {|
  accounts := [(a, Some sample_account)];
  post_storages := {[ sample_addr := {| wiped := false; hs_storage := slots |} ]} |}.

Lemma cut_state_shaped : state_shaped cut_state.
Proof.
  split; [by apply cut_trie_shaped, word_replicate|]. intros a t Ha.
  cbn [cut_state storage_tries] in Ha. apply lookup_singleton_Some in Ha as [_ <-].
  by apply cut_trie_shaped, word_replicate.
Qed.

Lemma post_of_ok a slots : word a -> Forall (fun s => word s.1) slots -> post_ok (post_of a slots).
Proof.
  intros Ha Hs. split; [by apply Forall_singleton|]. intros b hs Hb.
  cbn [post_of post_storages] in Hb. apply lookup_singleton_Some in Hb as [_ <-]. exact Hs.
Qed.

(** A slot beside a part that was never loaded is written; one in that part, or an
    account there, makes the update panic. *)
Lemma update_keeps_shape_witness :
  (exists st', update (post_of sample_addr [(near_slot, 0); (sample_addr, 5)]) cut_state = Ok st' /\ state_shaped st' /\
     exists t, storage_tries st' !! sample_addr = Some t /\ get t near_slot = Ok None /\ get t sample_addr = Ok (Some [5]) /\
       get t far_key = Err (NodeNotResolved (replicate 32 9))) /\
  update (post_of sample_addr [(far_key, 5)]) cut_state = Panic /\ update (post_of far_key []) cut_state = Panic.
Proof.
  assert (Wa : word sample_addr) by by apply word_replicate.
  assert (Wn : word near_slot) by by apply word_replicate.
  assert (Wf : word far_key) by by apply word_replicate.
  split; [|split].
  - destruct (update_keeps_shape (post_of sample_addr [(near_slot, 0); (sample_addr, 5)]) cut_state cut_state_shaped)
      as (st' & E & Hsh & Hw & _).
    + apply post_of_ok; [exact Wa|]. apply Forall_cons; split; [exact Wn|]. by apply Forall_singleton.
    + apply NoDup_singleton.
    + exists st'. split; [exact E|]. split; [exact Hsh|].
      destruct (proj1 (Forall_singleton _ _) Hw) as (t & Et & _ & Hg). exists t. split; [exact Et|].
      rewrite (Hg near_slot Wn), (Hg sample_addr Wa), (Hg far_key Wf). split_and!; vm_compute; reflexivity.
  - apply (update_keeps_shape (post_of sample_addr [(far_key, 5)]) cut_state cut_state_shaped).
    + apply post_of_ok; [exact Wa|]. by apply Forall_singleton.
    + apply NoDup_singleton.
  - apply (update_keeps_shape (post_of far_key []) cut_state cut_state_shaped).
    + apply post_of_ok; [exact Wf|]. constructor.
    + apply NoDup_singleton.
Defined.
End Samples.

(** ** Updates do not see the caches *)

(** Outcomes alike up to a relation on the values. *)
Definition alike {E A} (R : A -> A -> Prop) (x y : outcome E A) : Prop :=
  match x, y with
  | Ok a, Ok b => R a b
  | Err e, Err e' => e = e'
  | Panic, Panic => True
  | _, _ => False
  end.

Lemma alike_bind {E A B} (R : A -> A -> Prop) (Q : B -> B -> Prop) (x y : outcome E A) (f g : A -> outcome E B) :
  alike R x y -> (forall a b, R a b -> alike Q (f a) (g b)) -> alike Q (x ≫= f) (y ≫= g).
Proof. destruct x, y; cbn; auto; done. Qed.

Lemma alike_same {E A B} (Q : B -> B -> Prop) (x : outcome E A) (f g : A -> outcome E B) :
  (forall a, alike Q (f a) (g a)) -> alike Q (x ≫= f) (x ≫= g).
Proof. destruct x; cbn; auto. Qed.

Definition data_equiv (d d' : MptNodeData) : Prop := from_data d ≡ from_data d'.
Definition result_equiv (r r' : bool * MptNode) : Prop := r.1 = r'.1 /\ r.2 ≡ r'.2.

Lemma data_equiv_node d d' c c' : data_equiv d d' -> mkNode d c ≡ mkNode d' c'.
Proof. unfold data_equiv, from_data, equiv, MptNode_equiv. by destruct d, d'. Qed.

Lemma branch_equiv (cs ds : list (option MptNode)) : option_map erase <$> cs = option_map erase <$> ds -> data_equiv (Branch cs) (Branch ds).
Proof. intros E. unfold data_equiv, equiv, MptNode_equiv. cbn. by rewrite E. Qed.

Lemma extension_equiv p c d : c ≡ d -> data_equiv (Extension p c) (Extension p d).
Proof. intros E. unfold data_equiv, equiv, MptNode_equiv. cbn. by rewrite E. Qed.

Lemma branch_erased cs ds c c' : mkNode (Branch cs) c ≡ mkNode (Branch ds) c' -> option_map erase <$> cs = option_map erase <$> ds.
Proof. unfold equiv, MptNode_equiv. cbn. by intros [= E]. Qed.

Lemma erased_insert (cs ds : list (option MptNode)) (k : nat) o o' : option_map erase <$> cs = option_map erase <$> ds -> option_map erase o = option_map erase o' ->
  option_map erase <$> <[k := o]> cs = option_map erase <$> <[k := o']> ds.
Proof. intros E Eo. rewrite !list_fmap_insert. by rewrite E, Eo. Qed.

Lemma erased_lookup (cs ds : list (option MptNode)) (i : nat) : option_map erase <$> cs = option_map erase <$> ds ->
  match cs !! i, ds !! i with
  | Some (Some c), Some (Some d) => c ≡ d
  | Some None, Some None | None, None => True
  | _, _ => False
  end.
Proof.
  intros E. apply (f_equal (lookup i)) in E. rewrite !list_lookup_fmap in E.
  destruct (cs !! i) as [[c|]|], (ds !! i) as [[d|]|]; cbn in E; try discriminate; try done. by injection E.
Qed.

Lemma set_child_alike (cs ds : list (option MptNode)) i c d : option_map erase <$> cs = option_map erase <$> ds -> c ≡ d ->
  alike (fun a b => option_map erase <$> a = option_map erase <$> b) (set_child cs i c) (set_child ds i d).
Proof.
  intros E Ec. assert (L : length cs = length ds) by (apply (f_equal length) in E; by rewrite !length_fmap in E).
  unfold set_child. rewrite L. case_decide; [|done]. apply erased_insert; [done|]. cbn. by f_equal.
Qed.

Lemma split_node_alike p k n old old' v : old ≡ old' -> alike data_equiv (split_node p k n old v) (split_node p k n old' v).
Proof.
  intros E. unfold split_node. apply alike_same. intros i.
  eapply alike_bind; [by apply set_child_alike|]. intros cs ds Ecs. apply alike_same. intros j.
  eapply alike_bind; [by apply set_child_alike|]. intros cs' ds' Ecs'. case_decide.
  - by apply extension_equiv, branch_equiv.
  - by apply branch_equiv.
Qed.

Lemma insert_alike n : forall m k v, n ≡ m -> alike result_equiv (insert_internal n k v) (insert_internal m k v).
Proof.
  induction n as [cache|cs cache IH|p w cache|p c cache IH|d cache] using node_ind; intros m k v E.
  - by apply equiv_Null in E as [? ->].
  - destruct (equiv_Branch _ _ _ E) as (ds & c' & -> & _). pose proof (branch_erased _ _ _ _ E) as Ecs.
    destruct k as [|i k]; [done|]. cbn [insert_internal]. rewrite !on_child_lookup.
    pose proof (erased_lookup cs ds (Z.to_nat i) Ecs) as Hi.
    destruct (cs !! Z.to_nat i) as [[c|]|] eqn:Ec, (ds !! Z.to_nat i) as [[e|]|]; try done.
    + eapply alike_bind; [by apply (IH _ c Ec)|]. intros [b u] [b' w'] [Eb Exy]. cbn [fst snd] in *. subst b'.
      destruct b; [|by split]. split; [done|]. apply data_equiv_node, branch_equiv, erased_insert; [done|]. cbn. by f_equal.
    + split; [done|]. apply data_equiv_node, branch_equiv. by apply erased_insert.
  - apply equiv_Leaf in E as [? ->]. cbn [insert_internal]. apply alike_same. intros q. repeat case_decide; try done.
    apply alike_same. intros d'. by split.
  - apply equiv_Extension in E as (e & ? & -> & E). cbn [insert_internal]. apply alike_same. intros q. repeat case_decide; try done.
    + eapply alike_bind; [by apply IH|]. intros [b u] [b' w'] [Eb Exy]. cbn [fst snd] in *. subst b'.
      destruct b; (split; [done|]); by apply data_equiv_node, extension_equiv.
    + eapply alike_bind; [apply split_node_alike; by apply extension_equiv|]. intros d1 d2 Hd. split; [done|by apply data_equiv_node].
    + eapply alike_bind; [by apply split_node_alike|]. intros d1 d2 Hd. split; [done|by apply data_equiv_node].
  - by apply equiv_Digest in E as [? ->].
Qed.

Lemma remaining_erased cs : remaining (option_map erase <$> cs) = (fun ic => (ic.1, erase ic.2)) <$> remaining cs.
Proof.
  unfold remaining. rewrite imap_fmap. revert cs.
  enough (G : forall (f : nat -> nat) cs, omap id (imap (fun i o => pair (f i) <$> option_map erase o) cs) =
    (fun ic => (ic.1, erase ic.2)) <$> omap id (imap (fun i o => pair (f i) <$> o) cs)) by (intros cs; apply (G (fun i => i))).
  intros f cs. revert f. induction cs as [|[c|] cs IH]; intros f; [done|..]; cbn.
  - f_equal. apply (IH (fun i => f (S i))).
  - apply (IH (fun i => f (S i))).
Qed.

Lemma collapse_alike (cs ds : list (option MptNode)) : option_map erase <$> cs = option_map erase <$> ds -> alike data_equiv (collapse_branch cs) (collapse_branch ds).
Proof.
  intros E. pose proof (f_equal remaining E) as R. rewrite !remaining_erased in R. unfold collapse_branch.
  destruct (remaining cs) as [|[i c] [|[j e] l]], (remaining ds) as [|[i' c'] [|[j' e'] l']]; try discriminate R; [done| |].
  - injection R as -> R. destruct c as [[|xs|p v|p x|d] ca], c' as [[|ys|q w|q y|d'] cb]; try discriminate R; cbn [as_data].
    + done.
    + by apply extension_equiv.
    + injection R as -> ->. by apply alike_same.
    + injection R as -> R. apply alike_same. intros r. by apply extension_equiv.
    + by apply extension_equiv.
  - by apply branch_equiv.
Qed.

Lemma merge_alike p q c d : c ≡ d -> alike data_equiv (merge_extension p q c) (merge_extension p q d).
Proof.
  intros R. unfold merge_extension. destruct c as [[|xs|r v|r x|h] ca], d as [[|ys|s w|s y|h'] cb]; try discriminate R; cbn [as_data].
  - done.
  - by apply extension_equiv.
  - injection R as -> ->. by apply alike_same.
  - injection R as -> R. apply alike_same. intros t. by apply extension_equiv.
  - by apply extension_equiv.
Qed.

Lemma is_empty_equiv n m : n ≡ m -> is_empty n = is_empty m.
Proof. destruct n as [d1 c1], m as [d2 c2]. unfold equiv, MptNode_equiv. by destruct d1, d2. Qed.

Lemma delete_alike n : forall m k, n ≡ m -> alike result_equiv (delete_internal n k) (delete_internal m k).
Proof.
  induction n as [cache|cs cache IH|p w cache|p c cache IH|d cache] using node_ind; intros m k E.
  - by apply equiv_Null in E as [? ->].
  - destruct (equiv_Branch _ _ _ E) as (ds & c' & -> & _). pose proof (branch_erased _ _ _ _ E) as Ecs.
    destruct k as [|i k]; [done|]. cbn [delete_internal]. rewrite !on_child_lookup.
    pose proof (erased_lookup cs ds (Z.to_nat i) Ecs) as Hi.
    destruct (cs !! Z.to_nat i) as [[c|]|] eqn:Ec, (ds !! Z.to_nat i) as [[e|]|]; try done.
    eapply alike_bind; [by apply (IH _ c Ec)|]. intros [b u] [b' w'] [Eb Exy]. cbn [fst snd] in *. subst b'.
    destruct b; [|by split]. eapply alike_bind.
    + apply collapse_alike, erased_insert; [exact Ecs|]. rewrite (is_empty_equiv u w' Exy). destruct (is_empty w'); [done|]. cbn. by f_equal.
    + intros d1 d2 Hd. split; [done|by apply data_equiv_node].
  - apply equiv_Leaf in E as [? ->]. cbn [delete_internal]. apply alike_same. intros q. by case_decide.
  - apply equiv_Extension in E as (e & ? & -> & E). cbn [delete_internal]. apply alike_same. intros q.
    destruct (strip_prefix q k) as [tail|]; [|split; [done|by apply data_equiv_node, extension_equiv]].
    eapply alike_bind; [by apply IH|]. intros [b u] [b' w'] [Eb Exy]. cbn [fst snd] in *. subst b'. destruct b.
    + eapply alike_bind; [by apply merge_alike|]. intros d1 d2 Hd. split; [done|by apply data_equiv_node].
    + split; [done|]. by apply data_equiv_node, extension_equiv.
  - by apply equiv_Digest in E as [? ->].
Qed.

(** ** Applying a post-state *)
Section Update.
Context `{Keccak, AlloyRlp, AccountCodec}.

(** Equal tries, both with coherent caches. *)
Definition same (t t' : MptNode) : Prop := t ≡ t' /\ cache_ok t /\ cache_ok t'.

Record same_state (st st' : EthereumState) : Prop := {
  same_trie : same (state_trie st) (state_trie st');
  same_storage : forall a, same (default default_node (storage_tries st !! a)) (default default_node (storage_tries st' !! a)) }.

Lemma same_null : same default_node default_node.
Proof. split; [done|]. split; apply cache_ok_null. Qed.

Lemma same_insert t t' k v : same t t' -> alike (fun r r' => r.1 = r'.1 /\ same r.2 r'.2) (insert_rlp t k v) (insert_rlp t' k v).
Proof.
  intros (E & Hc & Hc'). pose proof (insert_alike t t' (to_nibs k) v E) as A. unfold insert_rlp.
  destruct (insert_internal t (to_nibs k) v) as [[b u]|e|] eqn:Eu, (insert_internal t' (to_nibs k) v) as [[b' u']|e'|] eqn:Eu';
    try exact A.
  destruct A as [Eb Eq]. split; [done|]. split; [done|]. split.
  - exact (insert_internal_cache_ok t _ v b u Hc Eu).
  - exact (insert_internal_cache_ok t' _ v b' u' Hc' Eu').
Qed.

Lemma same_delete t t' k : same t t' -> alike (fun r r' => r.1 = r'.1 /\ same r.2 r'.2) (delete t k) (delete t' k).
Proof.
  intros (E & Hc & Hc'). pose proof (delete_alike t t' (to_nibs k) E) as A. unfold delete.
  destruct (delete_internal t (to_nibs k)) as [[b u]|e|] eqn:Eu, (delete_internal t' (to_nibs k)) as [[b' u']|e'|] eqn:Eu';
    try exact A.
  destruct A as [Eb Eq]. split; [done|]. split; [done|]. split.
  - exact (delete_internal_cache_ok t _ b u Hc Eu).
  - exact (delete_internal_cache_ok t' _ b' u' Hc' Eu').
Qed.

Lemma alike_unwrap_res {E F A} (R : A -> A -> Prop) (x y : outcome E A) :
  alike R x y -> alike R (@unwrap_res E F A x) (@unwrap_res E F A y).
Proof. destruct x, y; cbn; auto; done. Qed.

Lemma alike_fmap {E A B} (R : A -> A -> Prop) (Q : B -> B -> Prop) (f : A -> B) (x y : outcome E A) :
  alike R x y -> (forall a b, R a b -> Q (f a) (f b)) -> alike Q (f <$> x) (f <$> y).
Proof. destruct x, y; cbn; auto; done. Qed.

Lemma for_each_alike {E S A} (R : S -> S -> Prop) (body : S -> A -> outcome E S) l : forall s s',
  (forall s s' x, R s s' -> alike R (body s x) (body s' x)) -> R s s' -> alike R (for_each body s l) (for_each body s' l).
Proof.
  induction l as [|x l IH]; intros s s' Hb Hs; [done|]. cbn [for_each]. eapply alike_bind; [by apply Hb|].
  intros s1 s1' H1'. by apply IH.
Qed.

Lemma same_slot t t' slot : same t t' -> alike same (apply_slot t slot) (apply_slot t' slot).
Proof.
  intros Hs. unfold apply_slot. destruct slot as [k v]. destruct (v =? 0).
  - eapply alike_fmap; [by apply alike_unwrap_res, same_delete|]. by intros ? ? [_ ?].
  - eapply alike_fmap; [by apply alike_unwrap_res, same_insert|]. by intros ? ? [_ ?].
Qed.

Lemma get_rlp_same t t' k : t ≡ t' -> get_rlp t k = get_rlp t' k.
Proof. intros E. unfold get_rlp, get. by rewrite (get_equiv _ _ _ E). Qed.

Lemma same_hash t t' : same t t' -> (hash t).1 = (hash t').1 /\ same (hash t).2 (hash t').2.
Proof.
  intros (E & Hc & Hc'). destruct (hash_spec t Hc) as (-> & E1 & Hk), (hash_spec t' Hc') as (-> & E2 & Hk').
  split; [by apply hash_of_equiv|]. split; [|done]. by rewrite E1, E2.
Qed.

Lemma same_recover st st' a t t' : state_trie st ≡ state_trie st' -> same t t' ->
  alike same (recover_storage (state_trie st) a t) (recover_storage (state_trie st') a t').
Proof.
  intros E Hs. unfold recover_storage. rewrite (is_empty_equiv t t') by apply Hs. rewrite (get_rlp_same _ _ a E).
  destruct (is_empty t'); [|done]. destruct (get_rlp _ a) as [[acc|]|e|]; try done. case_decide; [|done].
  assert (Hd : cache_ok (from_data (Digest (storage_root acc)))) by (by apply (cache_ok_fresh _ None)). by split.
Qed.

Lemma same_account post st st' entry : same_state st st' ->
  alike same_state (update_account post st entry) (update_account post st' entry).
Proof.
  intros [Ht Hst]. destruct entry as [a [acct|]]; unfold update_account.
  - eapply alike_bind; [apply same_recover; [apply Ht|apply Hst]|]. intros t t' Hs. cbv zeta.
    eapply alike_bind.
    { apply for_each_alike with (R := same); [intros; by apply same_slot|].
      destruct (wiped _); [apply same_null|exact Hs]. }
    intros u u' Hu. destruct (same_hash u u' Hu) as [Eh Hu']. destruct (hash u) as [h v], (hash u') as [h' v'].
    cbn [fst snd] in *. subst h'. eapply alike_bind; [by apply alike_unwrap_res, same_insert|].
    intros [b w] [b' w'] [_ Hw]. cbn [snd] in Hw. split; cbn [state_trie storage_tries]; [done|].
    intros k. rewrite !lookup_insert. by case_decide.
  - eapply alike_bind; [by apply alike_unwrap_res, same_delete|]. intros [b w] [b' w'] [_ Hw]. by split.
Qed.

(** [EthereumState::update]. *)
Lemma update_same post st st' : same_state st st' -> alike same_state (update post st) (update post st').
Proof. intros Hs. apply for_each_alike with (R := same_state); [intros; by apply same_account|done]. Qed.

Lemma same_state_root st st' : same_state st st' -> state_root st = state_root st'.
Proof. intros [Ht _]. by apply same_hash. Qed.
End Update.
