(* ===== verification/MptWitness.v ===== *)
(** * Tries from an execution witness ([MptNode::for_each_leaves], [crates/mpt/src/execution_witness.rs])

    With [debug_executionWitness] a node returns every trie node a block has
    touched, state and storage mixed.  The builder indexes them by hash, closes
    the state trie under them, visits its leaves, and looks up the storage trie
    of every account it reaches.  The visitor keeps a stack of nodes and paths;
    [Nibbles] holds at most 64 nibbles and panics beyond. *)
From stdpp Require Import strings.
From S2P Require Import Prelude BytesCodec Rlp Nibbles Mpt MptInv MptInsert MptDelete MptMap.
From S2P Require Import MptHash MptCache MptWire MptProof MptTries EthState.
#[local] Open Scope Z_scope.

Definition NIBBLES_MAX : nat := 64.

(** [Nibbles::push] and [Nibbles::extend]. *)
Definition extend_path {E} (path nibs : list Z) : outcome E (list Z) :=
  if decide (length path + length nibs <= NIBBLES_MAX)%nat then Ok (path ++ nibs) else Panic.

(** [Nibbles::pack]: two nibbles a byte, an odd one in the high half. *)
Fixpoint pack_nibbles (nibs : list Z) : list Z :=
  match nibs with
  | a :: b :: nibs => (16 * a + b) :: pack_nibbles nibs
  | [a] => [16 * a]
  | [] => []
  end.

Definition push_children {E} (path : list Z) (branch : list (option MptNode)) : outcome E (list (MptNode * list Z)) :=
  mapM (fun ic : nat * MptNode => path ← extend_path path [Z.of_nat ic.1]; Ok (ic.2, path)) (remaining branch).

(** The loop, collecting the calls of [f]; the top of the stack is the head.
    [fuel] bounds the number of nodes visited. *)
Fixpoint leaves_loop {E} (fuel : nat) (stack : list (MptNode * list Z)) : outcome E (list (list Z * list Z)) :=
  match fuel with
  | O => Panic
  | S fuel =>
      match stack with
      | [] => Ok []
      | (node, path) :: stack =>
          match as_data node with
          | Null | Digest _ => leaves_loop fuel stack
          | Branch branch =>
              children ← push_children path branch;
              leaves_loop fuel (reverse children ++ stack)
          | Leaf prefix value =>
              nibs ← unwrap (prefix_nibs prefix);
              full_path ← extend_path path nibs;
              calls ← leaves_loop fuel stack;
              Ok ((pack_nibbles full_path, value) :: calls)
          | Extension prefix node =>
              nibs ← unwrap (prefix_nibs prefix);
              new_path ← extend_path path nibs;
              leaves_loop fuel ((node, new_path) :: stack)
          end
      end
  end.

(** The nodes of a trie, empty and truncated ones included. *)
Fixpoint visits (n : MptNode) : nat :=
  match n with
  | mkNode (Branch children) _ =>
      S (list_sum ((fun o => match o with Some c => visits c | None => 0%nat end) <$> children))
  | mkNode (Extension _ child) _ => S (visits child)
  | _ => 1%nat
  end.

(** [for_each_leaves]: the arguments [f] is called with, in order. *)
Definition for_each_leaves {E} (n : MptNode) : outcome E (list (list Z * list Z)) := leaves_loop (S (visits n)) [(n, [])].

(** ** What is visited *)

Lemma remaining_visits cs : list_sum ((fun o => match o with Some c => visits c | None => 0%nat end) <$> cs) =
  list_sum (visits <$> (remaining cs).*2).
Proof.
  unfold remaining.
  enough (G : forall (f : nat -> nat) cs, list_sum ((fun o => match o with Some c => visits c | None => 0%nat end) <$> cs) =
    list_sum (visits <$> (omap id (imap (fun i o => pair (f i) <$> o) cs)).*2)) by apply (G (fun i => i)).
  intros f l. revert f. induction l as [|[c|] l IH]; intros f; [done|..]; cbn.
  - f_equal. apply (IH (fun i => f (S i))).
  - apply (IH (fun i => f (S i))).
Qed.

(** The calls for one node of the stack. *)
Definition entry_of (np : MptNode * list Z) (kv : list Z * list Z) : Prop :=
  exists q, Nibs q /\ get_internal np.1 q = Ok (Some kv.2) /\ kv.1 = pack_nibbles (np.2 ++ q).

(** A well-formed node whose keys fit. *)
Definition fits (np : MptNode * list Z) : Prop :=
  wf np.1 /\ exists L, depth_ok L np.1 /\ (length np.2 + L <= NIBBLES_MAX)%nat.

Definition stack_visits (stack : list (MptNode * list Z)) : nat := list_sum (visits <$> stack.*1).

Lemma list_sum_reverse l : list_sum (reverse l) = list_sum l.
Proof.
  induction l as [|x l IH]; [done|]. rewrite reverse_cons, list_sum_app, IH.
  change (list_sum (x :: l)) with (x + list_sum l)%nat. change (list_sum [x]) with (x + 0)%nat. lia.
Qed.

Lemma extend_path_fits {E} path nibs L : (length path + (length nibs + L) <= NIBBLES_MAX)%nat -> @extend_path E path nibs = Ok (path ++ nibs).
Proof. intros Hl. unfold extend_path. rewrite decide_True by lia. done. Qed.

Lemma push_children_spec {E} cs cache path : fits (mkNode (Branch cs) cache, path) ->
  exists children, @push_children E path cs = Ok children /\ Forall fits children /\
    stack_visits children = list_sum (visits <$> (remaining cs).*2) /\
    forall kv, (exists np, np ∈ children /\ entry_of np kv) <-> entry_of (mkNode (Branch cs) cache, path) kv.
Proof.
  intros [Hwf (L & Hd & Hl)]. cbn [fst snd] in *. apply wf_Branch_inv in Hwf as (Hlen & _ & Hwc & _).
  inversion Hd as [| | |L' ? ? Hdc|]; subst. set (child := fun ic : nat * MptNode => (ic.2, path ++ [Z.of_nat ic.1])).
  exists (map child (remaining cs)). split_and!.
  - unfold push_children. apply mapM_known. intros [i c] _. rewrite (extend_path_fits path _ L') by (cbn; lia). done.
  - apply Forall_fmap, Forall_forall. intros [i c] Hin%elem_of_remaining. split; [by eapply Hwc|]. exists L'.
    split; [by eapply Hdc|]. cbn. rewrite length_app. cbn. lia.
  - unfold stack_visits. by rewrite <- !list_fmap_compose.
  - intros [k v]. unfold entry_of. cbn [fst snd]. split.
    + intros (np & ([i c] & -> & Hin%elem_of_remaining)%list_elem_of_fmap & q & Hq & Hg & ->). cbn [child fst snd] in *.
      unfold child_at in Hin.
      pose proof (lookup_lt_Some _ _ _ Hin) as Hi. exists (Z.of_nat i :: q).
      split; [apply Forall_cons; split; [unfold is_nib; lia|done]|]. rewrite get_Branch, Nat2Z.id, Hin. split; [done|].
      by rewrite <- app_assoc.
    + intros (q & Hq & Hg & ->). destruct q as [|i q]; [done|]. apply Forall_cons in Hq as [Hi Hq]. rewrite get_Branch in Hg.
      destruct (cs !! Z.to_nat i) as [[c|]|] eqn:Ec; [|done..]. exists (child (Z.to_nat i, c)). split.
      * apply list_elem_of_fmap. exists (Z.to_nat i, c). split; [done|]. by apply elem_of_remaining.
      * exists q. split_and!; [done..|]. cbn [child fst snd]. rewrite <- app_assoc. cbn. rewrite Z2Nat.id by (destruct Hi; lia). done.
Qed.

Lemma entry_of_leaf p v cache path : Nibs p -> forall kv,
  entry_of (mkNode (Leaf (to_encoded_path p true) v) cache, path) kv <-> kv = (pack_nibbles (path ++ p), v).
Proof.
  intros Hp [k w]. unfold entry_of. cbn [fst snd]. split.
  - intros (q & Hq & Hg & ->). rewrite get_Leaf in Hg by done. case_decide; [|done]. by simplify_eq.
  - intros [= -> ->]. exists p. split; [done|]. split; [|done]. rewrite get_Leaf by done. by rewrite decide_True.
Qed.

Lemma entry_of_extension p c cache path : Nibs p -> forall kv,
  entry_of (mkNode (Extension (to_encoded_path p false) c) cache, path) kv <-> entry_of (c, path ++ p) kv.
Proof.
  intros Hp [k w]. unfold entry_of. cbn [fst snd]. split.
  - intros (q & Hq & Hg & ->). rewrite get_Extension in Hg by done. destruct (strip_prefix p q) as [tail|] eqn:Et; [|done].
    apply strip_prefix_Some in Et as ->. apply Forall_app in Hq as [_ Hq]. exists tail. by rewrite <- app_assoc.
  - intros (q & Hq & Hg & ->). exists (p ++ q). split; [by apply Forall_app|]. rewrite get_Extension by done.
    rewrite strip_prefix_app. split; [done|]. by rewrite app_assoc.
Qed.

(** The loop ends within its fuel and visits exactly the entries. *)
Lemma leaves_loop_spec {E} fuel : forall stack, Forall fits stack -> (stack_visits stack < fuel)%nat ->
  exists l, @leaves_loop E fuel stack = Ok l /\ forall kv, kv ∈ l <-> exists np, np ∈ stack /\ entry_of np kv.
Proof.
  induction fuel as [|fuel IH]; intros stack Hs Hf; [lia|]. destruct stack as [|[n path] stack].
  { exists []. split; [done|]. intros kv. split; [by intros []%elem_of_nil|by intros (np & []%elem_of_nil & _)]. }
  apply Forall_cons in Hs as [Hn Hs]. change (stack_visits ((n, path) :: stack)) with (visits n + stack_visits stack)%nat in Hf.
  assert (Hcons : forall P : MptNode * list Z -> Prop, (exists np, np ∈ (n, path) :: stack /\ P np) <-> P (n, path) \/ exists np, np ∈ stack /\ P np).
  { intros P. split; [intros (np & [->|Hin]%elem_of_cons & Hp); eauto|]. intros [Hp|(np & Hin & Hp)]; eexists; (split; [|exact Hp]); [by left|by right]. }
  assert (Hskip : (forall kv, ~ entry_of (n, path) kv) -> (stack_visits stack < fuel)%nat ->
    exists l, @leaves_loop E fuel stack = Ok l /\ forall kv, kv ∈ l <-> exists np, np ∈ (n, path) :: stack /\ entry_of np kv).
  { intros Hno Hlt. destruct (IH stack Hs Hlt) as (l & El & Hl). exists l. split; [done|]. intros kv. rewrite Hl, Hcons. naive_solver. }
  cbn [leaves_loop]. destruct n as [[|cs|p v|p c|d] cache]; cbn [as_data] in *; cbn [visits] in Hf.
  - apply Hskip; [|lia]. intros kv (q & _ & Hg & _). done.
  - destruct (@push_children_spec E cs cache path Hn) as (children & -> & Hfc & Hv & Hent). cbn [mbind outcome_bind].
    destruct (IH (reverse children ++ stack)) as (l & El & Hl).
    { apply Forall_app. split; [by apply Forall_reverse|done]. }
    { rewrite remaining_visits, <- Hv in Hf. unfold stack_visits in *. rewrite fmap_app, fmap_app, list_sum_app, !fmap_reverse, list_sum_reverse. lia. }
    exists l. split; [done|]. intros kv. rewrite Hl, Hcons, <- Hent. setoid_rewrite elem_of_app. setoid_rewrite elem_of_reverse. naive_solver.
  - destruct Hn as [Hwf (L & Hd & Hl)]. cbn [fst snd] in *. inversion Hwf as [|q ? ? Hq| | |]; subst.
    inversion Hd as [|q' ? ? Hq' E1 E2| | |]; subst. apply to_encoded_path_inj in E2 as ->; [|done..].
    rewrite prefix_nibs_to_encoded_path by done. cbn [unwrap mbind outcome_bind].
    rewrite (extend_path_fits path q 0) by lia. cbn [mbind outcome_bind]. destruct (IH stack Hs) as (l & El & Hle); [lia|].
    rewrite El. eexists. split; [reflexivity|]. intros kv. rewrite elem_of_cons, Hle, Hcons, entry_of_leaf by done. done.
  - destruct Hn as [Hwf (L & Hd & Hl)]. cbn [fst snd] in *. inversion Hwf as [| |q ? ? Hq Hne Hwc Hbd| |]; subst.
    inversion Hd as [| |q' L' ? ? Hq' Hdc E1 E2| |]; subst. apply to_encoded_path_inj in E2 as ->; [|done..].
    rewrite prefix_nibs_to_encoded_path by done. cbn [unwrap mbind outcome_bind].
    rewrite (extend_path_fits path q L') by lia. cbn [mbind outcome_bind].
    destruct (IH ((c, path ++ q) :: stack)) as (l & El & Hle).
    { apply Forall_cons. split; [|done]. split; [done|]. exists L'. split; [done|]. cbn. rewrite length_app. lia. }
    { change (stack_visits ((c, path ++ q) :: stack)) with (visits c + stack_visits stack)%nat. lia. }
    exists l. split; [done|]. intros kv. rewrite Hle, Hcons, entry_of_extension by done. setoid_rewrite elem_of_cons. naive_solver.
  - apply Hskip; [|lia]. intros kv (q & _ & Hg & _). done.
Qed.

(** ** The entries of a map *)

Lemma pack_nibbles_pairs nibs : Nibs nibs -> Nat.odd (length nibs) = false -> pack_nibbles nibs = pack_pairs nibs.
Proof.
  induction nibs as [nibs IH] using (induction_ltof1 _ length); unfold ltof in IH.
  destruct nibs as [|a [|b nibs]]; intros Hn Hl; [done|discriminate|].
  inversion_clear Hn as [|?? Ha Hn']. inversion_clear Hn' as [|?? Hb Hn''].
  change (pack_pairs (a :: b :: nibs)) with (u8 (u8 (Z.shiftl a 4) + b) :: pack_pairs nibs).
  rewrite pack_byte by done. cbn [pack_nibbles]. rewrite IH; [done|cbn; lia|done|].
  rewrite <- Hl. cbn. by rewrite Nat.odd_succ, Nat.even_succ.
Qed.

(** The visitor is given every entry of the map a trie of 32-byte keys holds,
    and nothing else; it never runs out of fuel, and no path overflows. *)
Lemma leaves_entries {E} t m : repr 32 t m ->
  exists l, @for_each_leaves E t = Ok l /\ forall k v, (k, v) ∈ l <-> m !! k = Some v.
Proof.
  intros [Hwf Hres Hd Hdom Hget]. destruct (@leaves_loop_spec E (S (visits t)) [(t, [])]) as (l & El & Hl).
  { apply Forall_singleton. split; [done|]. exists 64%nat. split; [done|]. cbn. unfold NIBBLES_MAX. lia. }
  { unfold stack_visits. cbn. lia. }
  exists l. split; [exact El|]. intros k v. rewrite Hl. split.
  - intros (np & ->%list_elem_of_singleton & q & Hq & Hg & Hk). cbn [fst snd app] in *. subst k.
    assert (Hlen : length q = 64%nat).
    { destruct (decide (length q = 64%nat)) as [|Hne]; [done|]. by rewrite (depth_ok_other_length 64 t q) in Hg. }
    rewrite pack_nibbles_pairs by (done || by rewrite Hlen).
    assert (Ek : to_nibs (pack_pairs q) = q) by (apply to_nibs_pack_pairs; [done|by rewrite Hlen]).
    assert (Hk : length (pack_pairs q) = 32%nat) by (apply (f_equal length) in Ek; rewrite length_to_nibs, Hlen in Ek; lia).
    specialize (Hget _ (pack_pairs_bytes q) Hk). unfold get in Hget. rewrite Ek in Hget. congruence.
  - intros Hm. destruct (Hdom k) as [Hb Hlen]; [by eexists|]. exists (t, []). split; [by left|]. exists (to_nibs k).
    split; [by apply to_nibs_nibs|]. split; [|].
    + specialize (Hget k Hb Hlen). unfold get in Hget. cbn [fst snd]. congruence.
    + cbn [fst snd app]. rewrite pack_nibbles_pairs; [|by apply to_nibs_nibs|rewrite length_to_nibs, Hlen; done].
      apply to_nibs_inj; [done|apply pack_pairs_bytes|]. rewrite to_nibs_pack_pairs; [done|by apply to_nibs_nibs|].
      rewrite length_to_nibs, Hlen. done.
Qed.

Section Witness.
Context `{Keccak, AlloyRlp, RlpReader, AccountCodec}.

(** ** The builder *)

(** The indices of step 1: nodes by reference, nodes by hash, and the root. *)
Record node_index : Type := {
  node_map : node_store;
  node_by_hash : gmap (list Z) MptNode;
  root_node : option MptNode }.

Definition index_node (pre_state_root : list Z) (index : node_index) (encoded : list Z) : outcome string node_index :=
  node ← unwrap_res (decode encoded);
  let hash := keccak256 encoded in
  Ok {| node_map := store_insert node (node_map index);
        node_by_hash := <[hash := node]> (node_by_hash index);
        root_node := if decide (hash = pre_state_root) then Some node else root_node index |}.

(** [B256::from_slice]. *)
Definition b256_from_slice {E} (key : list Z) : outcome E (list Z) := if decide (length key = 32%nat) then Ok key else Panic.

(** The visitor of step 2. *)
Definition storage_root_of (leaf : list Z * list Z) : outcome string (list Z * list Z) :=
  account ← unwrap (account_decode leaf.2);
  hashed_address ← b256_from_slice leaf.1;
  Ok (hashed_address, storage_root account).

(** Step 3, one account: no root node, no storage trie. *)
Definition storage_from_index (fuel : nat) (index : node_index) (tries : gmap (list Z) MptNode) (entry : list Z * list Z)
  : outcome string (gmap (list Z) MptNode) :=
  let '(hashed_address, storage_root) := entry in
  match node_by_hash index !! storage_root with
  | None => Ok tries
  | Some root_node =>
      storage_trie ← resolve_nodes fuel root_node (node_map index);
      if is_digest storage_trie then Panic else Ok (<[hashed_address := storage_trie]> tries)
  end.

(** [validate_storage_tries]; hashing fills the caches. *)
Definition validate_storage_trie (state_trie : MptNode) (tries : gmap (list Z) MptNode) (entry : list Z * MptNode)
  : outcome string (gmap (list Z) MptNode) :=
  let '(hashed_address, storage_trie) := entry in
  account ← map_err (fun _ => "Failed to decode account from state trie"%string) (get_rlp state_trie hashed_address);
  match account with
  | None => Err "Account not found in state trie"%string
  | Some account =>
      let '(actual_hash, storage_trie) := hash storage_trie in
      if decide (storage_root account <> actual_hash) then Err "Mismatched storage root"%string
      else Ok (<[hashed_address := storage_trie]> tries)
  end.

(** [build_validated_tries]; [fuel] is for [resolve_nodes]. *)
Definition build_validated_tries (fuel : nat) (witness_state : list (list Z)) (pre_state_root : list Z)
  : outcome string (MptNode * gmap (list Z) MptNode) :=
  index ← for_each (index_node pre_state_root) {| node_map := ∅; node_by_hash := ∅; root_node := None |} witness_state;
  let root := default (from_data (Digest pre_state_root)) (root_node index) in
  state_trie ← resolve_nodes fuel root (node_map index);
  leaves ← for_each_leaves state_trie;
  raw_storage_tries ← mapM storage_root_of leaves;
  storage_tries ← for_each (storage_from_index fuel index) ∅ raw_storage_tries;
  let '(state_root, state_trie) := hash state_trie in
  _ ← ensure (bool_decide (state_root = pre_state_root));
  storage_tries ← for_each (validate_storage_trie state_trie) storage_tries (map_to_list storage_tries);
  Ok (state_trie, storage_tries).

(** [EthereumState::from_execution_witness]. *)
Definition from_execution_witness (fuel : nat) (witness_state : list (list Z)) (pre_state_root : list Z) : outcome string EthereumState :=
  '(state_trie, storage_tries) ← unwrap_res (build_validated_tries fuel witness_state pre_state_root);
  Ok {| state_trie := state_trie; storage_tries := storage_tries |}.

(** ** What is validated *)

Definition index_ok (index : node_index) : Prop :=
  store_ok (node_map index) /\ (forall h n, node_by_hash index !! h = Some n -> cache_ok n) /\
  forall n, root_node index = Some n -> cache_ok n.

Lemma index_node_ok root index encoded index' : index_ok index -> index_node root index encoded = Ok index' -> index_ok index'.
Proof.
  intros (Hs & Hn & Hr) E. unfold index_node in E. apply bind_Ok in E as (node & Ed & E). injection E as <-.
  apply unwrap_res_Ok in Ed. assert (Hc : cache_ok node) by by eapply decode_cache_ok. split_and!; cbn.
  - by apply store_insert_ok.
  - intros h n. rewrite lookup_insert. case_decide; [by intros [= <-]|apply Hn].
  - intros n. case_decide; [by intros [= <-]|apply Hr].
Qed.

Definition tries_ok (tries : gmap (list Z) MptNode) : Prop := forall a t, tries !! a = Some t -> cache_ok t.

Lemma storage_from_index_ok fuel index tries entry tries' : index_ok index -> tries_ok tries ->
  storage_from_index fuel index tries entry = Ok tries' -> tries_ok tries'.
Proof.
  intros (Hs & Hn & _) Ht E. destruct entry as [a r]. unfold storage_from_index in E.
  destruct (node_by_hash index !! r) as [n|] eqn:En; [|by injection E as <-]. apply bind_Ok in E as (t & Er & E).
  destruct (is_digest t); [done|]. injection E as <-. destruct (resolve_spec _ _ _ _ Hs (Hn _ _ En) Er) as [_ Hc _ _].
  intros b u. rewrite lookup_insert. case_decide; [by intros [= <-]|apply Ht].
Qed.

(** Every storage trie has the root of an account of the state trie. *)
Definition account_roots (state_trie : MptNode) (tries : gmap (list Z) MptNode) : Prop := forall a t,
  tries !! a = Some t -> cache_ok t /\ exists account, get_rlp state_trie a = Ok (Some account) /\ storage_root account = hash_of t.

Lemma validate_all state_trie l : forall tries tries', tries_ok tries -> (forall a t, (a, t) ∈ l -> tries !! a = Some t) -> NoDup l.*1 ->
  for_each (validate_storage_trie state_trie) tries l = Ok tries' ->
  tries_ok tries' /\ (forall a, a ∉ l.*1 -> tries' !! a = tries !! a) /\
  forall a t, a ∈ l.*1 -> tries' !! a = Some t -> exists account, get_rlp state_trie a = Ok (Some account) /\ storage_root account = hash_of t.
Proof.
  induction l as [|[a t] l IH]; intros tries tries' Ht Hl Hnd E; cbn [for_each] in E.
  { injection E as <-. split_and!; [done|done|]. by intros a t []%elem_of_nil. }
  apply bind_Ok in E as (tries1 & E1 & E). rewrite fmap_cons in Hnd. apply NoDup_cons in Hnd as [Hna Hnd]. cbn [fst] in Hna.
  pose proof (Hl a t (list_elem_of_here _ _)) as Ha. unfold validate_storage_trie in E1.
  apply bind_Ok in E1 as (account & Eg & E1). destruct account as [account|]; [|done].
  destruct (hash_spec t (Ht _ _ Ha)) as (Eh & Heq & Hc). destruct (hash t) as [h t']. cbn [fst snd] in *.
  case_decide as Hd; [done|]. injection E1 as <-.
  destruct (IH (<[a := t']> tries) tries') as (Hok & Hout & Hin); [| |done|exact E|].
  { intros b u. rewrite lookup_insert. case_decide; [by intros [= <-]|apply Ht]. }
  { intros b u Hb. rewrite lookup_insert_ne; [apply Hl; by right|]. intros <-. apply Hna. apply list_elem_of_fmap. by exists (a, u). }
  split_and!; [done| |].
  - intros b Hb. rewrite fmap_cons in Hb. apply not_elem_of_cons in Hb as [Hne Hb]. rewrite Hout by done. by rewrite lookup_insert_ne.
  - intros b u Hb Hu. rewrite fmap_cons in Hb. apply elem_of_cons in Hb as [->|Hb]; [|by apply Hin]. cbn [fst] in *.
    rewrite Hout, lookup_insert_eq in Hu by done. injection Hu as <-. exists account. split.
    + by destruct (get_rlp state_trie a); [injection Eg as ->|..].
    + by rewrite (hash_of_equiv _ _ Heq), <- Eh.
Qed.

(** What a returned state is: sound caches, the declared root, and storage tries
    with the roots of accounts of the state trie. *)
Lemma execution_witness_sound fuel witness_state root st : from_execution_witness fuel witness_state root = Ok st ->
  cache_ok (state_trie st) /\ hash_of (state_trie st) = root /\ account_roots (state_trie st) (storage_tries st).
Proof.
  intros E. unfold from_execution_witness in E. apply bind_Ok in E as ([t tries] & E & Est). injection Est as <-.
  apply unwrap_res_Ok in E. unfold build_validated_tries in E. apply bind_Ok in E as (index & Ei & E).
  apply (for_each_inv index_ok) in Ei; [| |intros; by eapply index_node_ok].
  2:{ split; [apply store_ok_empty|]. split; [intros h n; cbn; by rewrite lookup_empty|done]. }
  apply bind_Ok in E as (t0 & Er & E). apply bind_Ok in E as (leaves & _ & E). apply bind_Ok in E as (raw & _ & E).
  apply bind_Ok in E as (tries0 & Es & E).
  apply (for_each_inv tries_ok) in Es; [|intros a u; by rewrite lookup_empty|intros; by eapply storage_from_index_ok].
  assert (Hc0 : cache_ok t0).
  { eapply resolve_spec; [apply Ei| |exact Er]. destruct (root_node index) as [n|] eqn:En; [by apply (proj2 (proj2 Ei))|].
    by apply (cache_ok_fresh _ None). }
  destruct (hash_spec t0 Hc0) as (Eh & Heq & Hc). destruct (hash t0) as [h t1]. cbn [fst snd] in *.
  apply bind_Ok in E as ([] & Hroot & E). apply ensure_Ok, bool_decide_eq_true in Hroot.
  apply bind_Ok in E as (tries1 & Ev & E). injection E as <- <-. cbn [state_trie storage_tries].
  split; [done|]. split; [rewrite (hash_of_equiv _ _ Heq); congruence|].
  destruct (validate_all t1 _ tries0 tries1 Es ltac:(intros a u; by rewrite elem_of_map_to_list) (NoDup_fst_map_to_list _) Ev) as (Hok & Hout & Hin).
  intros a u Hu. split; [by eapply Hok|]. apply Hin; [|done].
  destruct (decide (a ∈ (map_to_list tries0).*1)) as [|Hn]; [done|]. exfalso. rewrite Hout in Hu by done. apply Hn.
  apply list_elem_of_fmap. exists (a, u). split; [done|]. by apply elem_of_map_to_list.
Qed.
End Witness.
