(* ===== verification/NitroTypes.v ===== *)
(** * Messages between the enclave and its callers

    [crates/nitro-types/src/lib.rs]: what the enclave receives and answers, and
    what the orchestrator stores.  Byte arrays and hashes are byte lists. *)
From S2P Require Import Prelude.

(** The answer of [ExecuteBlock]: [resp_signature] covers number, leaf and hash. *)
Record EthExecutionResponse : Type := {
  block_number : Z;
  leaf : list Z;
  block_hash : list Z;
  resp_signature : list Z }.

Record SubmitBatchResponse : Type := {
  batch_root : list Z;
  versioned_hashes : list (list Z);
  signature : list Z }.
