(* ===== verification/Db.v ===== *)
(** * The orchestrator's SQLite store ([bin/witness-orchestrator/src/db.rs])

    Tables are finite maps from the primary key to the row.  Every statement
    may fail; failures are logged and swallowed, so a method returns the store
    it leaves.  Which statements of a call succeed is an argument ([outcomes]):
    statement [i] of the call succeeds when [o i] holds, [o 0] being the
    statement itself, or the [BEGIN] of a transaction whose [COMMIT] comes
    last.  Values serialised with bincode are stored as themselves; numbers
    stored as text in [meta] are stored as numbers. *)
From S2P Require Import Prelude NitroTypes.
From stdpp Require Import strings.
#[local] Open Scope Z_scope.

(** [struct PendingBatch], [struct DispatchedBatch] ([accumulator.rs]). *)
Record PendingBatch : Type := {
  pb_batch_index : Z;
  pb_from_block : Z;
  pb_to_block : Z;
  blobs_accepted : bool }.

Record DispatchedBatch : Type := {
  db_batch_index : Z;
  db_from_block : Z;
  db_to_block : Z;
  tx_hash : list Z;
  l1_block : Z;
  db_nonce : option Z;
  max_fee_per_gas : option Z;
  max_priority_fee_per_gas : option Z }.

#[export] Instance EthExecutionResponse_eq_dec : EqDecision EthExecutionResponse.
Proof. solve_decision. Defined.
#[export] Instance SubmitBatchResponse_eq_dec : EqDecision SubmitBatchResponse.
Proof. solve_decision. Defined.
#[export] Instance PendingBatch_eq_dec : EqDecision PendingBatch.
Proof. solve_decision. Defined.
#[export] Instance DispatchedBatch_eq_dec : EqDecision DispatchedBatch.
Proof. solve_decision. Defined.

(** The tables. *)
Record Db : Type := {
  block_responses : gmap Z EthExecutionResponse;
  pending_batches : gmap Z PendingBatch;
  pending_blobs_accepted : gset Z;
  batch_signatures : gmap Z SubmitBatchResponse;
  dispatched_batches : gmap Z DispatchedBatch;
  meta : gmap string Z }.

(** [Db::open] on a fresh file. *)
Definition open : Db := {|
  block_responses := ∅; pending_batches := ∅; pending_blobs_accepted := ∅;
  batch_signatures := ∅; dispatched_batches := ∅; meta := ∅ |}.

Definition with_block_responses f (d : Db) : Db := {|
  block_responses := f (block_responses d); pending_batches := pending_batches d;
  pending_blobs_accepted := pending_blobs_accepted d; batch_signatures := batch_signatures d;
  dispatched_batches := dispatched_batches d; meta := meta d |}.
Definition with_pending_batches f (d : Db) : Db := {|
  block_responses := block_responses d; pending_batches := f (pending_batches d);
  pending_blobs_accepted := pending_blobs_accepted d; batch_signatures := batch_signatures d;
  dispatched_batches := dispatched_batches d; meta := meta d |}.
Definition with_pending_blobs f (d : Db) : Db := {|
  block_responses := block_responses d; pending_batches := pending_batches d;
  pending_blobs_accepted := f (pending_blobs_accepted d); batch_signatures := batch_signatures d;
  dispatched_batches := dispatched_batches d; meta := meta d |}.
Definition with_signatures f (d : Db) : Db := {|
  block_responses := block_responses d; pending_batches := pending_batches d;
  pending_blobs_accepted := pending_blobs_accepted d; batch_signatures := f (batch_signatures d);
  dispatched_batches := dispatched_batches d; meta := meta d |}.
Definition with_dispatched f (d : Db) : Db := {|
  block_responses := block_responses d; pending_batches := pending_batches d;
  pending_blobs_accepted := pending_blobs_accepted d; batch_signatures := batch_signatures d;
  dispatched_batches := f (dispatched_batches d); meta := meta d |}.
Definition with_meta f (d : Db) : Db := {|
  block_responses := block_responses d; pending_batches := pending_batches d;
  pending_blobs_accepted := pending_blobs_accepted d; batch_signatures := batch_signatures d;
  dispatched_batches := dispatched_batches d; meta := f (meta d) |}.

(** Success of the statements of one call. *)
Abbreviation outcomes := (nat -> bool).
Definition all_ok : outcomes := fun _ => true.

(** [conn.execute(..)], errors logged. *)
Definition execute (o : outcomes) (stmt : Db -> Db) (d : Db) : Db :=
  if o 0%nat then stmt d else d.

(** [conn.transaction()], the statements chained with [and_then], [commit]:
    any failure rolls back. *)
Definition transaction (o : outcomes) (stmts : list (Db -> Db)) (d : Db) : Db :=
  if forallb o (seq 0 (length stmts + 2)) then foldl (fun d stmt => stmt d) d stmts else d.

(** ** Meta *)

Definition get_checkpoint (d : Db) : Z := default 0 (meta d !! "checkpoint"%string).
Definition save_checkpoint (o : outcomes) (block_number : Z) : Db -> Db :=
  execute o (with_meta <["checkpoint"%string := block_number]>).

Definition get_l1_checkpoint (d : Db) : option Z := meta d !! "l1_checkpoint"%string.
Definition save_l1_checkpoint (o : outcomes) (block_number : Z) : Db -> Db :=
  execute o (with_meta <["l1_checkpoint"%string := block_number]>).

Definition get_start_batch_id (d : Db) : option Z := meta d !! "start_batch_id"%string.
Definition clear_start_batch_id (o : outcomes) : Db -> Db :=
  execute o (with_meta (base.delete "start_batch_id"%string)).

Definition wipe_for_revert (o : outcomes) (start_batch_id l1_block : Z) : Db -> Db :=
  transaction o
    [ (fun _ => open);
      with_meta <["start_batch_id"%string := start_batch_id]>;
      with_meta <["l1_checkpoint"%string := l1_block]> ].

Definition get_last_batch_end (d : Db) : option Z := meta d !! "last_batch_end"%string.
Definition save_last_batch_end (o : outcomes) (block_number : Z) : Db -> Db :=
  execute o (with_meta <["last_batch_end"%string := block_number]>).

(** ** Responses *)

Definition save_response (o : outcomes) (resp : EthExecutionResponse) : Db -> Db :=
  execute o (with_block_responses <[block_number resp := resp]>).

(** One transaction; a row whose delete fails is skipped, a failed begin or
    commit loses all. *)
Definition delete_responses_batch (o : outcomes) (blocks : list Z) (d : Db) : Db :=
  if o 0%nat && o (S (length blocks)) then
    foldl (fun d ib =>
      if o (S ib.1) then with_block_responses (base.delete ib.2) d else d) d (imap pair blocks)
  else d.

Definition load_responses (d : Db) : list EthExecutionResponse := btree_values (block_responses d).
Definition get_all_response_block_numbers (d : Db) : list Z := sorted_keys (block_responses d).

(** ** Pending batches *)

Definition save_batch (o : outcomes) (batch : PendingBatch) : Db -> Db :=
  execute o (with_pending_batches <[pb_batch_index batch := batch]>).

Definition accept_blobs (b : PendingBatch) : PendingBatch := {|
  pb_batch_index := pb_batch_index b; pb_from_block := pb_from_block b;
  pb_to_block := pb_to_block b; blobs_accepted := true |}.

Definition update_blobs_accepted (o : outcomes) (batch_index : Z) : Db -> Db :=
  execute o (with_pending_batches (alter accept_blobs batch_index)).

Definition load_batches (d : Db) : list PendingBatch := btree_values (pending_batches d).

(** ** Signatures *)

Definition save_batch_signature (o : outcomes) (batch_index : Z) (resp : SubmitBatchResponse)
  : Db -> Db := execute o (with_signatures <[batch_index := resp]>).
Definition get_batch_signature (batch_index : Z) (d : Db) : option SubmitBatchResponse :=
  batch_signatures d !! batch_index.
Definition delete_batch_signature_row (o : outcomes) (batch_index : Z) : Db -> Db :=
  execute o (with_signatures (base.delete batch_index)).
Definition load_batch_signature_indexes (d : Db) : list Z := sorted_keys (batch_signatures d).
Definition load_all_batch_signatures (d : Db) : list (Z * SubmitBatchResponse) :=
  omap (fun k => pair k <$> batch_signatures d !! k) (sorted_keys (batch_signatures d)).

(** ** Buffered acceptances *)

Definition save_pending_blobs_accepted (o : outcomes) (batch_index : Z) : Db -> Db :=
  execute o (with_pending_blobs (fun s => {[ batch_index ]} ∪ s)).
Definition delete_pending_blobs_accepted (o : outcomes) (batch_index : Z) : Db -> Db :=
  execute o (with_pending_blobs (fun s => s ∖ {[ batch_index ]})).
Definition load_pending_blobs_accepted (d : Db) : list Z := elements (pending_blobs_accepted d).

(** ** Dispatched batches *)

Definition move_to_dispatched (o : outcomes) (b : DispatchedBatch) : Db -> Db :=
  transaction o
    [ with_pending_batches (base.delete (db_batch_index b));
      with_dispatched <[db_batch_index b := b]> ].

(** The same with NULL fee columns. *)
Definition move_to_dispatched_external (o : outcomes)
    (batch_index from_block to_block : Z) (hash : list Z) (l1 : Z) : Db -> Db :=
  transaction o
    [ with_pending_batches (base.delete batch_index);
      with_dispatched <[batch_index := {|
        db_batch_index := batch_index; db_from_block := from_block; db_to_block := to_block;
        tx_hash := hash; l1_block := l1; db_nonce := None;
        max_fee_per_gas := None; max_priority_fee_per_gas := None |}]> ].

Definition set_rbf (hash : list Z) (mfpg mpfpg : Z) (b : DispatchedBatch) : DispatchedBatch := {|
  db_batch_index := db_batch_index b; db_from_block := db_from_block b;
  db_to_block := db_to_block b; tx_hash := hash; l1_block := l1_block b;
  db_nonce := db_nonce b; max_fee_per_gas := Some mfpg; max_priority_fee_per_gas := Some mpfpg |}.

Definition update_rbf_state (o : outcomes) (batch_index : Z) (hash : list Z) (mfpg mpfpg : Z)
  : Db -> Db := execute o (with_dispatched (alter (set_rbf hash mfpg mpfpg) batch_index)).

Definition set_l1_block (l1 : Z) (b : DispatchedBatch) : DispatchedBatch := {|
  db_batch_index := db_batch_index b; db_from_block := db_from_block b;
  db_to_block := db_to_block b; tx_hash := tx_hash b; l1_block := l1;
  db_nonce := db_nonce b; max_fee_per_gas := max_fee_per_gas b;
  max_priority_fee_per_gas := max_priority_fee_per_gas b |}.

Definition update_dispatched_l1_block (o : outcomes) (batch_index l1 : Z) : Db -> Db :=
  execute o (with_dispatched (alter (set_l1_block l1) batch_index)).

(** [WHERE block_number BETWEEN from AND to]. *)
Definition delete_range {A} (from_block to_block : Z) (m : gmap Z A) : gmap Z A :=
  filter (fun kv => ~ (from_block <= kv.1 <= to_block)) m.

Definition finalize_dispatched_batch (o : outcomes) (batch_index from_block to_block : Z)
  : Db -> Db :=
  transaction o
    [ with_dispatched (base.delete batch_index);
      with_block_responses (delete_range from_block to_block);
      with_signatures (base.delete batch_index) ].

Definition undispatch_batch (o : outcomes) (batch_index from_block to_block : Z) : Db -> Db :=
  transaction o
    [ with_dispatched (base.delete batch_index);
      with_pending_batches <[batch_index := {|
        pb_batch_index := batch_index; pb_from_block := from_block; pb_to_block := to_block;
        blobs_accepted := true |}]> ].

Definition load_dispatched_batches (d : Db) : list DispatchedBatch :=
  btree_values (dispatched_batches d).

(** ** Lemmas *)

Lemma execute_all_ok stmt d : execute all_ok stmt d = stmt d.
Proof. done. Qed.

Lemma transaction_all_ok stmts d : transaction all_ok stmts d = foldl (fun d stmt => stmt d) d stmts.
Proof. unfold transaction. replace (forallb all_ok _) with true; [done|]. by induction (seq _ _). Qed.

(** Atomicity: all statements or none. *)
Lemma transaction_atomic o stmts d :
  transaction o stmts d = d \/ transaction o stmts d = foldl (fun d stmt => stmt d) d stmts.
Proof. unfold transaction. case_match; auto. Qed.

Lemma lookup_delete_range {A} f t (m : gmap Z A) k :
  delete_range f t m !! k = if decide (f <= k <= t) then None else m !! k.
Proof.
  unfold delete_range. rewrite map_lookup_filter. destruct (m !! k) as [x|] eqn:E; cbn; [|by case_decide].
  repeat case_guard; repeat case_decide; try done; cbn in *; tauto.
Qed.
