(* ===== verification/Accumulator.v ===== *)
(** * The batch accumulator ([bin/witness-orchestrator/src/accumulator.rs])

    Execution responses, batches waiting for their signature, batches waiting
    for finalization, and a cache of signatures, each mirrored in SQLite.  Every
    mutator takes the outcomes of its SQL statements; the shared store is part
    of the state. *)
From S2P Require Import Prelude NitroTypes Db.

Record BatchAccumulator : Type := {
  batches : gmap Z PendingBatch;
  responses : gmap Z EthExecutionResponse;
  buffered_blobs_accepted : gset Z;
  acc_db : Db;
  signatures : gmap Z SubmitBatchResponse;
  dispatched : gmap Z DispatchedBatch }.

(** [persist]: run a database method on the shared store. *)
Definition persist (f : Db -> Db) (a : BatchAccumulator) : BatchAccumulator := {|
  batches := batches a; responses := responses a;
  buffered_blobs_accepted := buffered_blobs_accepted a; acc_db := f (acc_db a);
  signatures := signatures a; dispatched := dispatched a |}.

Definition with_batches f (a : BatchAccumulator) : BatchAccumulator := {|
  batches := f (batches a); responses := responses a;
  buffered_blobs_accepted := buffered_blobs_accepted a; acc_db := acc_db a;
  signatures := signatures a; dispatched := dispatched a |}.
Definition with_responses f (a : BatchAccumulator) : BatchAccumulator := {|
  batches := batches a; responses := f (responses a);
  buffered_blobs_accepted := buffered_blobs_accepted a; acc_db := acc_db a;
  signatures := signatures a; dispatched := dispatched a |}.
Definition with_buffered f (a : BatchAccumulator) : BatchAccumulator := {|
  batches := batches a; responses := responses a;
  buffered_blobs_accepted := f (buffered_blobs_accepted a); acc_db := acc_db a;
  signatures := signatures a; dispatched := dispatched a |}.
Definition with_sigs f (a : BatchAccumulator) : BatchAccumulator := {|
  batches := batches a; responses := responses a;
  buffered_blobs_accepted := buffered_blobs_accepted a; acc_db := acc_db a;
  signatures := f (signatures a); dispatched := dispatched a |}.
Definition with_disp f (a : BatchAccumulator) : BatchAccumulator := {|
  batches := batches a; responses := responses a;
  buffered_blobs_accepted := buffered_blobs_accepted a; acc_db := acc_db a;
  signatures := signatures a; dispatched := f (dispatched a) |}.

(** [with_db]: rebuild from the store.  Rows whose [tx_hash] is not 32 bytes
    are skipped; signatures without a batch are dropped from memory and store. *)
Definition with_db (o : Z -> outcomes) (db : Db) : BatchAccumulator :=
  let responses := list_to_map (reverse ((fun r => (block_number r, r)) <$> load_responses db)) in
  let batches : gmap Z PendingBatch :=
    list_to_map ((fun b => (pb_batch_index b, b)) <$> load_batches db) in
  let buffered : gset Z := list_to_set (load_pending_blobs_accepted db) in
  let dispatched : gmap Z DispatchedBatch :=
    list_to_map ((fun d => (db_batch_index d, d)) <$>
      filter (fun d => length (tx_hash d) = 32%nat) (load_dispatched_batches db)) in
  let live (idx : Z) : bool :=
    bool_decide (is_Some (batches !! idx)) || bool_decide (is_Some (dispatched !! idx)) in
  let rows := load_all_batch_signatures db in
  let signatures := list_to_map (filter (fun row => live row.1 = true) rows) in
  let stale := (filter (fun row => live row.1 = false) rows).*1 in
  {| batches := batches; responses := responses; buffered_blobs_accepted := buffered;
     acc_db := foldl (fun db idx => delete_batch_signature_row (o idx) idx db) db stale;
     signatures := signatures; dispatched := dispatched |}.

Definition new_batch (batch_index from_block to_block : Z) (accepted : bool) : PendingBatch := {|
  pb_batch_index := batch_index; pb_from_block := from_block; pb_to_block := to_block;
  blobs_accepted := accepted |}.

(** [set_batch]: idempotent; consumes a buffered [BatchSubmitted]. *)
Definition set_batch (o1 o2 : outcomes) (batch_index from_block to_block : Z)
    (a : BatchAccumulator) : BatchAccumulator :=
  if bool_decide (is_Some (dispatched a !! batch_index)) ||
     bool_decide (is_Some (batches a !! batch_index)) then a
  else
    let accepted := bool_decide (batch_index ∈ buffered_blobs_accepted a) in
    let a := with_buffered (fun s => s ∖ {[ batch_index ]}) a in
    let a := if accepted then persist (delete_pending_blobs_accepted o1 batch_index) a else a in
    let batch := new_batch batch_index from_block to_block accepted in
    let a := persist (save_batch o2 batch) a in
    with_batches <[batch_index := batch]> a.

Definition insert_response (o : outcomes) (resp : EthExecutionResponse) (a : BatchAccumulator)
  : BatchAccumulator :=
  with_responses <[block_number resp := resp]> (persist (save_response o resp) a).

Definition mark_batch_submitted (o : outcomes) (batch_index : Z) (a : BatchAccumulator)
  : BatchAccumulator :=
  match batches a !! batch_index with
  | Some batch =>
      persist (update_blobs_accepted o batch_index)
        (with_batches <[batch_index := accept_blobs batch]> a)
  | None =>
      persist (save_pending_blobs_accepted o batch_index)
        (with_buffered (fun s => {[ batch_index ]} ∪ s) a)
  end.

Definition is_batch_ready (a : BatchAccumulator) (batch : PendingBatch) : bool :=
  blobs_accepted batch &&
  forallb (fun b => bool_decide (is_Some (responses a !! b)))
    (range_incl (pb_from_block batch) (pb_to_block batch)).

Definition first_ready_unsigned (a : BatchAccumulator) : option Z :=
  pb_batch_index <$>
    find (fun b => bool_decide (signatures a !! pb_batch_index b = None))
      (List.filter (is_batch_ready a) (btree_values (batches a))).

(** The first pending batch in index order, if it is signed. *)
Definition first_sequential_signed (a : BatchAccumulator) : option (Z * list Z) :=
  first ← head (btree_values (batches a));
  resp ← signatures a !! pb_batch_index first;
  Some (pb_batch_index first, signature resp).

Definition purge_responses (o : outcomes) (blocks : list Z) (a : BatchAccumulator)
  : BatchAccumulator :=
  persist (delete_responses_batch o blocks)
    (with_responses (fun m => foldl (fun m b => base.delete b m) m blocks) a).

Definition cache_signature (batch_index : Z) (resp : SubmitBatchResponse) (a : BatchAccumulator)
  : BatchAccumulator := with_sigs <[batch_index := resp]> a.

Definition delete_batch_signature (o : outcomes) (batch_index : Z) (a : BatchAccumulator)
  : BatchAccumulator :=
  persist (delete_batch_signature_row o batch_index) (with_sigs (base.delete batch_index) a).

Definition get_responses (from to : Z) (a : BatchAccumulator) : list EthExecutionResponse :=
  omap (fun b => responses a !! b) (range_incl from to).

Definition mark_dispatched (o : outcomes) (batch_index : Z) (hash : list Z)
    (l1 nonce mfpg mpfpg : Z) (a : BatchAccumulator) : BatchAccumulator :=
  match batches a !! batch_index with
  | None => a
  | Some batch =>
      let a := with_batches (base.delete batch_index) a in
      let d := {| db_batch_index := batch_index; db_from_block := pb_from_block batch;
                  db_to_block := pb_to_block batch; tx_hash := hash; l1_block := l1;
                  db_nonce := Some nonce; max_fee_per_gas := Some mfpg;
                  max_priority_fee_per_gas := Some mpfpg |} in
      with_disp <[batch_index := d]> (persist (move_to_dispatched o d) a)
  end.

Definition mark_dispatched_external (o : outcomes) (batch_index : Z) (hash : list Z) (l1 : Z)
    (a : BatchAccumulator) : BatchAccumulator :=
  match batches a !! batch_index with
  | None => a
  | Some batch =>
      let a := with_batches (base.delete batch_index) a in
      let a := with_sigs (base.delete batch_index) a in
      let d := {| db_batch_index := batch_index; db_from_block := pb_from_block batch;
                  db_to_block := pb_to_block batch; tx_hash := hash; l1_block := l1;
                  db_nonce := None; max_fee_per_gas := None;
                  max_priority_fee_per_gas := None |} in
      with_disp <[batch_index := d]>
        (persist (move_to_dispatched_external o batch_index (pb_from_block batch)
                    (pb_to_block batch) hash l1) a)
  end.

Definition record_rbf_bump (o : outcomes) (batch_index : Z) (hash : list Z) (mfpg mpfpg : Z)
    (a : BatchAccumulator) : BatchAccumulator :=
  persist (update_rbf_state o batch_index hash mfpg mpfpg)
    (with_disp (alter (set_rbf hash mfpg mpfpg) batch_index) a).

Definition record_dispatched_l1_block (o : outcomes) (batch_index l1 : Z) (a : BatchAccumulator)
  : BatchAccumulator :=
  persist (update_dispatched_l1_block o batch_index l1)
    (with_disp (alter (set_l1_block l1) batch_index) a).

Definition finalize_dispatched (o : outcomes) (batch_index : Z) (a : BatchAccumulator)
  : option DispatchedBatch * BatchAccumulator :=
  match dispatched a !! batch_index with
  | None => (None, a)
  | Some d =>
      let a := with_disp (base.delete batch_index) a in
      let a := persist (finalize_dispatched_batch o batch_index (db_from_block d) (db_to_block d)) a in
      let a := with_responses (fun m => foldl (fun m b => base.delete b m) m
                 (range_incl (db_from_block d) (db_to_block d))) a in
      (Some d, with_sigs (base.delete batch_index) a)
  end.

Definition undispatch (o : outcomes) (batch_index : Z) (a : BatchAccumulator)
  : bool * BatchAccumulator :=
  match dispatched a !! batch_index with
  | None => (false, a)
  | Some d =>
      match db_nonce d with
      | None => (false, a)
      | Some _ =>
          let a := with_disp (base.delete batch_index) a in
          let batch := new_batch batch_index (db_from_block d) (db_to_block d) true in
          let a := persist (undispatch_batch o batch_index (db_from_block d) (db_to_block d)) a in
          (true, with_batches <[batch_index := batch]> a)
      end
  end.

Definition dispatched_snapshot (a : BatchAccumulator) : list (Z * list Z * Z) :=
  (fun d => (db_batch_index d, tx_hash d, l1_block d)) <$> btree_values (dispatched a).

Definition dispatched_tx_hash (batch_index : Z) (a : BatchAccumulator) : option (list Z) :=
  tx_hash <$> dispatched a !! batch_index.

Definition has_dispatched (a : BatchAccumulator) : bool := bool_decide (dispatched a <> ∅).

(** ** Every mutator as one step *)

Inductive acc_op : Type :=
  | OSetBatch (batch_index from_block to_block : Z)
  | OInsertResponse (resp : EthExecutionResponse)
  | OMarkSubmitted (batch_index : Z)
  | OPurge (blocks : list Z)
  | OSign (batch_index : Z) (resp : SubmitBatchResponse)
  | ODeleteSignature (batch_index : Z)
  | ODispatch (batch_index : Z) (hash : list Z) (l1 nonce mfpg mpfpg : Z)
  | ODispatchExternal (batch_index : Z) (hash : list Z) (l1 : Z)
  | ORbfBump (batch_index : Z) (hash : list Z) (mfpg mpfpg : Z)
  | OL1Block (batch_index l1 : Z)
  | OFinalize (batch_index : Z)
  | OUndispatch (batch_index : Z).

(** [OSign] is what a completed signing does: the row is saved by the signing
    task, then the signature is cached. *)
Definition acc_step (o : outcomes) (op : acc_op) (a : BatchAccumulator) : BatchAccumulator :=
  match op with
  | OSetBatch i f t => set_batch o o i f t a
  | OInsertResponse r => insert_response o r a
  | OMarkSubmitted i => mark_batch_submitted o i a
  | OPurge bs => purge_responses o bs a
  | OSign i r => cache_signature i r (persist (save_batch_signature o i r) a)
  | ODeleteSignature i => delete_batch_signature o i a
  | ODispatch i h l n m p => mark_dispatched o i h l n m p a
  | ODispatchExternal i h l => mark_dispatched_external o i h l a
  | ORbfBump i h m p => record_rbf_bump o i h m p a
  | OL1Block i l => record_dispatched_l1_block o i l a
  | OFinalize i => (finalize_dispatched o i a).2
  | OUndispatch i => (undispatch o i a).2
  end.

(** The accumulator of a fresh database. *)
Definition empty_acc : BatchAccumulator := {|
  batches := ∅; responses := ∅; buffered_blobs_accepted := ∅; acc_db := open;
  signatures := ∅; dispatched := ∅ |}.

Lemma with_db_open : with_db (fun _ => all_ok) open = empty_acc.
Proof. reflexivity. Qed.

Fixpoint acc_run (ops : list (outcomes * acc_op)) (a : BatchAccumulator) : BatchAccumulator :=
  match ops with
  | [] => a
  | (o, op) :: ops' => acc_run ops' (acc_step o op a)
  end.

(** ** Folds of deletions *)

Lemma lookup_foldl_delete {A} (m : gmap Z A) l k :
  foldl (fun m b => base.delete b m) m l !! k = if decide (k ∈ l) then None else m !! k.
Proof.
  revert m. induction l as [|b l IH]; intros m; cbn [foldl].
  - rewrite decide_False; [done|apply not_elem_of_nil].
  - rewrite IH, lookup_delete. repeat case_decide; set_solver.
Qed.

Lemma foldl_delete_range {A} (m : gmap Z A) f t :
  foldl (fun m b => base.delete b m) m (range_incl f t) = delete_range f t m.
Proof.
  apply map_eq. intros k. rewrite lookup_foldl_delete, lookup_delete_range.
  pose proof (elem_of_range_incl f t k). repeat case_decide; tauto.
Qed.

Lemma delete_responses_batch_ok blocks d :
  delete_responses_batch all_ok blocks d =
  with_block_responses (fun m => foldl (fun m b => base.delete b m) m blocks) d.
Proof.
  unfold delete_responses_batch. cbn [all_ok andb]. generalize 0%nat.
  assert (G : forall k d, foldl (fun d (ib : nat * Z) =>
      if all_ok (S ib.1) then with_block_responses (base.delete ib.2) d else d) d
      (imap (fun i => pair (k + i)%nat) blocks) =
    with_block_responses (fun m => foldl (fun m b => base.delete b m) m blocks) d).
  { induction blocks as [|b blocks IH]; intros k d'; [by destruct d'|]. cbn [imap foldl].
    rewrite (imap_ext _ (fun i => pair (S k + i)%nat)).
    2:{ intros ???; cbn. by rewrite Nat.add_succ_r. }
    rewrite IH. by destruct d'. }
  intros _. rewrite <- (G 0%nat d). done.
Qed.

(** ** Invariants *)

(** Rows are filed under their own index, and no batch is both pending and
    dispatched; true whatever the database does. *)
Record acc_wf (a : BatchAccumulator) : Prop := {
  wf_batches : forall i b, batches a !! i = Some b -> pb_batch_index b = i;
  wf_responses : forall i r, responses a !! i = Some r -> block_number r = i;
  wf_dispatched : forall i d, dispatched a !! i = Some d -> db_batch_index d = i;
  wf_disjoint : forall i, is_Some (batches a !! i) -> dispatched a !! i = None }.

Ltac lookup_cases :=
  repeat match goal with
  | H : context [<[_ := _]> _ !! _] |- _ => rewrite lookup_insert in H
  | H : context [base.delete _ _ !! _] |- _ => rewrite lookup_delete in H
  | H : context [alter _ _ _ !! _] |- _ => rewrite lookup_alter in H
  | |- context [<[_ := _]> _ !! _] => rewrite lookup_insert
  | |- context [base.delete _ _ !! _] => rewrite lookup_delete
  | |- context [alter _ _ _ !! _] => rewrite lookup_alter
  end.

Lemma acc_wf_empty : acc_wf empty_acc.
Proof. split; intros i; cbn; rewrite lookup_empty; try done. Qed.

Lemma acc_wf_step o op a : acc_wf a -> acc_wf (acc_step o op a).
Proof.
  intros [Hb Hr Hd Hx]. destruct op as [i f t|r|i|bs|i r|i|i h l n m p|i h l|i h m p|i l|i|i]; cbn [acc_step].
  - unfold set_batch. destruct (dispatched a !! i) as [d|] eqn:Ed; [done|].
    destruct (batches a !! i) as [b|] eqn:Eb; [done|]. cbn [bool_decide orb].
    rewrite !bool_decide_false by (intros [? ?]; done). cbn [orb].
    case_bool_decide; split; cbn; try done; intros j; lookup_cases; case_decide; subst;
      try (by intros ? [= <-]); eauto.
  - split; cbn; try done. intros j. lookup_cases. case_decide; [by intros ? [= <-]|apply Hr].
  - unfold mark_batch_submitted. destruct (batches a !! i) as [b|] eqn:Eb; split; cbn; try done.
    + intros j. lookup_cases. case_decide; [|apply Hb]. intros ? [= <-]. cbn. subst. auto.
    + intros j. lookup_cases. case_decide; [|apply Hx]. subst. intros _. apply Hx. by rewrite Eb.
  - split; cbn; try done. intros j r. rewrite lookup_foldl_delete. case_decide; [done|apply Hr].
  - by split.
  - by split.
  - unfold mark_dispatched. destruct (batches a !! i) as [b|] eqn:Eb; [|done].
    split; cbn; try done; intros j; lookup_cases; case_decide; subst; try done; try (by intros ? [= <-]); auto.
  - unfold mark_dispatched_external. destruct (batches a !! i) as [b|] eqn:Eb; [|done].
    split; cbn; try done; intros j; lookup_cases; case_decide; subst; try done; try (by intros ? [= <-]); auto.
  - split; cbn; try done; intros j; lookup_cases; case_decide; subst; auto.
    + intros d. destruct (dispatched a !! j) as [d'|] eqn:Ed; [|done]. cbn. intros [= <-]. cbn. auto.
    + intros Hs. by rewrite (Hx j Hs).
  - split; cbn; try done; intros j; lookup_cases; case_decide; subst; auto.
    + intros d. destruct (dispatched a !! j) as [d'|] eqn:Ed; [|done]. cbn. intros [= <-]. cbn. auto.
    + intros Hs. by rewrite (Hx j Hs).
  - unfold finalize_dispatched. destruct (dispatched a !! i) as [d|] eqn:Ed; [|done].
    split; cbn; try done; intros j; lookup_cases; try (case_decide; [done|]); auto.
    intros r. rewrite lookup_foldl_delete. case_decide; [done|apply Hr].
  - unfold undispatch. destruct (dispatched a !! i) as [d|] eqn:Ed; [|done].
    destruct (db_nonce d); [|done].
    split; cbn; try done; intros j; lookup_cases; case_decide; subst; try done; try (by intros ? [= <-]); auto.
Qed.
