(* ===== verification/AccRecovery.v ===== *)
(** * Crash recovery and lifecycle of the accumulator

    With every statement succeeding, the store mirrors the memory after any
    history of operations, so a restart reloads the same state, and exactly the
    signatures that are saved for live batches.  Whatever the
    store does, the in-memory lifecycle is sound: a batch is never pending and
    dispatched at once and keeps its block range until it is finalized. *)
From S2P Require Import Prelude NitroTypes Db Accumulator.
From stdpp Require Import strings.
#[local] Open Scope Z_scope.

(** ** Reloading a table *)

Lemma btree_keys {V} (key : V -> Z) (m : gmap Z V) :
  (forall i v, m !! i = Some v -> key v = i) -> key <$> btree_values m = sorted_keys m.
Proof.
  intros Hk. unfold btree_values.
  assert (G : forall l : list Z, (forall k, k ∈ l -> is_Some (m !! k)) ->
    key <$> omap (fun k => m !! k) l = l).
  { induction l as [|k l IH]; intros Hl; [done|]. cbn [omap list_omap].
    destruct (Hl k (list_elem_of_here _ _)) as [v Hv]. cbn. rewrite Hv, fmap_cons, (Hk k v Hv).
    f_equal. apply IH. intros k' Hk'. apply Hl. by apply list_elem_of_further. }
  apply G. intros k. by rewrite elem_of_sorted_keys.
Qed.

Lemma table_pairs {V} (key : V -> Z) (m : gmap Z V) :
  (forall i v, m !! i = Some v -> key v = i) ->
  NoDup ((fun v => (key v, v)) <$> btree_values m).*1 /\
  forall i v, (i, v) ∈ ((fun v => (key v, v)) <$> btree_values m) <-> m !! i = Some v.
Proof.
  intros Hk. split.
  - rewrite <- list_fmap_compose. change (fst ∘ (fun v => (key v, v))) with key.
    rewrite (btree_keys key m Hk). apply NoDup_sorted_keys.
  - intros i v. rewrite list_elem_of_fmap. split.
    + intros (v' & [= -> ->] & Hv'). apply elem_of_btree_values in Hv' as [j Hj].
      by rewrite (Hk j v' Hj).
    + intros Hv. exists v. split; [by rewrite (Hk i v Hv)|]. apply elem_of_btree_values. eauto.
Qed.

Lemma reload_list {V} (m : gmap Z V) (l : list (Z * V)) :
  NoDup l.*1 -> (forall i v, (i, v) ∈ l <-> m !! i = Some v) -> list_to_map l = m.
Proof.
  intros Hnd Hl. apply map_eq. intros i. apply option_eq. intros v.
  rewrite <- elem_of_list_to_map by done. apply Hl.
Qed.

Lemma reload_table {V} (key : V -> Z) (m : gmap Z V) :
  (forall i v, m !! i = Some v -> key v = i) ->
  list_to_map ((fun v => (key v, v)) <$> btree_values m) = m.
Proof. intros Hk. destruct (table_pairs key m Hk). by apply reload_list. Qed.

Lemma reload_table_reverse {V} (key : V -> Z) (m : gmap Z V) :
  (forall i v, m !! i = Some v -> key v = i) ->
  list_to_map (reverse ((fun v => (key v, v)) <$> btree_values m)) = m.
Proof.
  intros Hk. destruct (table_pairs key m Hk) as [Hnd Hl]. apply reload_list.
  - by rewrite fmap_reverse, reverse_Permutation.
  - intros i v. rewrite elem_of_reverse. apply Hl.
Qed.

Lemma filter_all {A} (P : A -> Prop) `{!forall x, Decision (P x)} l :
  Forall P l -> filter P l = l.
Proof. induction 1 as [|x l Hx _ IH]; [done|]. rewrite filter_cons_True by done. by rewrite IH. Qed.

Lemma lookup_reloaded_signatures (m : gmap Z SubmitBatchResponse) (live : Z -> bool) i :
  (list_to_map (filter (fun row => live row.1 = true)
     (omap (fun k => pair k <$> m !! k) (sorted_keys m))) : gmap Z SubmitBatchResponse) !! i =
  if live i then m !! i else None.
Proof.
  set (rows := omap _ _).
  assert (E : rows.*1 = sorted_keys m).
  { subst rows. assert (G : forall l : list Z, (forall k, k ∈ l -> is_Some (m !! k)) ->
      (omap (fun k => pair k <$> m !! k) l).*1 = l).
    { induction l as [|k l IH]; intros Hl; [done|].
      destruct (Hl k (list_elem_of_here _ _)) as [v Hv]. cbn. rewrite Hv. cbn. f_equal.
      apply IH. intros k' Hk'. apply Hl. by apply list_elem_of_further. }
    apply G. intros k. by rewrite elem_of_sorted_keys. }
  assert (Hin : forall k v, (k, v) ∈ rows <-> m !! k = Some v).
  { intros k v. subst rows. rewrite list_elem_of_omap. split.
    - intros (k' & _ & Hk'). destruct (m !! k') as [v'|] eqn:Ev; [|done]. cbn in Hk'. by injection Hk' as -> ->.
    - intros Hv. exists k. rewrite elem_of_sorted_keys, Hv. split; [eauto|done]. }
  assert (Hnd : NoDup (filter (fun row => live row.1 = true) rows).*1).
  { assert (Hs : sublist (filter (fun row => live row.1 = true) rows).*1 rows.*1).
    { apply fmap_sublist, sublist_filter. }
    eapply sublist_NoDup; [|exact Hs]. rewrite E. apply NoDup_sorted_keys. }
  apply option_eq. intros v. rewrite <- elem_of_list_to_map by done.
  rewrite list_elem_of_filter, Hin. cbn [fst]. destruct (live i); intuition congruence.
Qed.

(** ** The store mirrors the memory *)

Record mirrored (a : BatchAccumulator) : Prop := {
  mi_batches : pending_batches (acc_db a) = batches a;
  mi_responses : block_responses (acc_db a) = responses a;
  mi_buffered : pending_blobs_accepted (acc_db a) = buffered_blobs_accepted a;
  mi_dispatched : dispatched_batches (acc_db a) = dispatched a;
  mi_signatures : signatures a ⊆ batch_signatures (acc_db a);
  mi_hashes : forall i d, dispatched a !! i = Some d -> length (tx_hash d) = 32%nat }.

(** Hashes are 32 bytes. *)
Definition op_hash_ok (op : acc_op) : Prop :=
  match op with
  | ODispatch _ h _ _ _ _ | ODispatchExternal _ h _ | ORbfBump _ h _ _ => length h = 32%nat
  | _ => True
  end.

Lemma mirrored_empty : mirrored empty_acc.
Proof. by split. Qed.

Lemma mirrored_step op a :
  mirrored a -> op_hash_ok op -> mirrored (acc_step all_ok op a).
Proof.
  intros [Hb Hr Hu Hd Hs Hh] Hop.
  destruct op as [i f t|r|i|bs|i r|i|i h l n m p|i h l|i h m p|i l|i|i]; cbn [acc_step op_hash_ok] in *.
  - unfold set_batch. destruct (_ || _); [by split|].
    case_bool_decide; split; cbn; rewrite ?Hb, ?Hr, ?Hu, ?Hd; try done. set_solver.
  - split; cbn; rewrite ?Hb, ?Hr, ?Hu, ?Hd; done.
  - unfold mark_batch_submitted. destruct (batches a !! i) as [b|] eqn:Eb;
      split; cbn; rewrite ?Hb, ?Hr, ?Hu, ?Hd; try done.
    apply map_eq. intros j. rewrite lookup_alter, lookup_insert. case_decide; [|done]. subst. by rewrite Eb.
  - unfold purge_responses. split; cbn [persist with_responses acc_db batches responses
      buffered_blobs_accepted signatures dispatched]; rewrite ?delete_responses_batch_ok; cbn; try done.
    by rewrite Hr.
  - split; cbn; rewrite ?Hb, ?Hr, ?Hu, ?Hd; try done. by apply insert_mono.
  - split; cbn; rewrite ?Hb, ?Hr, ?Hu, ?Hd; try done. by apply delete_mono.
  - unfold mark_dispatched. destruct (batches a !! i) as [b|]; [|by split].
    split; cbn; rewrite ?Hb, ?Hr, ?Hu, ?Hd; try done.
    intros j d. rewrite lookup_insert. case_decide; [by intros [= <-]|apply Hh].
  - unfold mark_dispatched_external. destruct (batches a !! i) as [b|]; [|by split].
    split; cbn; rewrite ?Hb, ?Hr, ?Hu, ?Hd; try done.
    + etransitivity; [apply delete_subseteq|done].
    + intros j d. rewrite lookup_insert. case_decide; [by intros [= <-]|apply Hh].
  - split; cbn; rewrite ?Hb, ?Hr, ?Hu, ?Hd; try done.
    intros j d. rewrite lookup_alter. case_decide; [|apply Hh]. subst.
    destruct (dispatched a !! j); [|done]. by intros [= <-].
  - split; cbn; rewrite ?Hb, ?Hr, ?Hu, ?Hd; try done.
    intros j d. rewrite lookup_alter. case_decide; [|apply Hh]. subst.
    destruct (dispatched a !! j) as [d'|] eqn:Ed; [|done]. intros [= <-]. cbn. eauto.
  - unfold finalize_dispatched. destruct (dispatched a !! i) as [d|]; [|by split].
    split; cbn [snd with_sigs with_responses with_disp persist acc_db batches responses
      buffered_blobs_accepted signatures dispatched]; unfold finalize_dispatched_batch;
      rewrite ?transaction_all_ok; cbn; rewrite ?Hb, ?Hr, ?Hu, ?Hd; try done.
    + symmetry. apply foldl_delete_range.
    + by apply delete_mono.
    + intros j e. rewrite lookup_delete. case_decide; [done|apply Hh].
  - unfold undispatch. destruct (dispatched a !! i) as [d|]; [|by split].
    destruct (db_nonce d); [|by split]. split; cbn; rewrite ?Hb, ?Hr, ?Hu, ?Hd; try done.
    intros j e. rewrite lookup_delete. case_decide; [done|apply Hh].
Qed.

(** Histories in which every statement succeeds. *)
Definition healthy (ops : list acc_op) : list (outcomes * acc_op) := (fun op => (all_ok, op)) <$> ops.

Lemma healthy_run ops a :
  mirrored a -> acc_wf a -> Forall op_hash_ok ops ->
  mirrored (acc_run (healthy ops) a) /\ acc_wf (acc_run (healthy ops) a).
Proof.
  intros Hm Hw Hops. revert a Hm Hw. induction Hops as [|op ops Hop _ IH]; intros a Hm Hw; [done|].
  cbn. apply IH; [by apply mirrored_step|by apply acc_wf_step].
Qed.

(** What a restart sees. *)
Definition is_live (i : Z) (a : BatchAccumulator) : bool :=
  bool_decide (is_Some (batches a !! i)) || bool_decide (is_Some (dispatched a !! i)).

Lemma with_db_mirrored o a :
  mirrored a -> acc_wf a ->
  let a' := with_db o (acc_db a) in
  batches a' = batches a /\ responses a' = responses a /\
  buffered_blobs_accepted a' = buffered_blobs_accepted a /\ dispatched a' = dispatched a /\
  forall i, signatures a' !! i = if is_live i a then batch_signatures (acc_db a) !! i else None.
Proof.
  intros [Hb Hr Hu Hd Hs Hh] [Wb Wr Wd _]. cbn zeta.
  assert (Eb : batches (with_db o (acc_db a)) = batches a).
  { cbn. unfold load_batches. rewrite Hb. by apply reload_table. }
  assert (Ed : dispatched (with_db o (acc_db a)) = dispatched a).
  { cbn. unfold load_dispatched_batches. rewrite Hd, filter_all; [by apply reload_table|].
    apply Forall_forall. intros d (k & Hk)%elem_of_btree_values. eauto. }
  split_and!; [done| | |done|].
  - cbn. unfold load_responses. rewrite Hr. by apply reload_table_reverse.
  - cbn. unfold load_pending_blobs_accepted. rewrite Hu. apply list_to_set_elements_L.
  - intros i. rewrite <- (lookup_reloaded_signatures (batch_signatures (acc_db a))
      (fun i => is_live i a)).
    unfold is_live. rewrite <- Eb, <- Ed. done.
Qed.

(** ** Which signatures survive a restart *)

(** The signature that should be on disk after each operation: that of the last
    signing, until it is deleted or the batch is finalized. *)
Definition saved_step (op : acc_op) (a : BatchAccumulator) (m : gmap Z SubmitBatchResponse)
  : gmap Z SubmitBatchResponse :=
  match op with
  | OSign i r => <[i := r]> m
  | ODeleteSignature i => base.delete i m
  | OFinalize i => match dispatched a !! i with Some _ => base.delete i m | None => m end
  | _ => m
  end.
Fixpoint saved_signatures (ops : list acc_op) (a : BatchAccumulator) (m : gmap Z SubmitBatchResponse)
  : gmap Z SubmitBatchResponse :=
  match ops with
  | [] => m
  | op :: ops' => saved_signatures ops' (acc_step all_ok op a) (saved_step op a m)
  end.

(** The batch was found dispatched by another submitter. *)
Definition external (i : Z) (a : BatchAccumulator) : bool :=
  match dispatched a !! i with Some d => bool_decide (db_nonce d = None) | None => false end.

(** The rows are the saved signatures, and the cache too, except that an
    external dispatch has dropped its own. *)
Record signatures_ok (a : BatchAccumulator) (m : gmap Z SubmitBatchResponse) : Prop := {
  so_rows : batch_signatures (acc_db a) = m;
  so_cache : forall i, signatures a !! i = m !! i \/ (signatures a !! i = None /\ external i a = true) }.

Lemma signatures_step op a m : acc_wf a -> signatures_ok a m -> signatures_ok (acc_step all_ok op a) (saved_step op a m).
Proof.
  intros [_ _ _ Hx] [Hrow Hc].
  assert (Hint : forall j, external j a = false -> signatures a !! j = m !! j).
  { intros j Hj. destruct (Hc j) as [?|[_ E]]; [done|by rewrite Hj in E]. }
  destruct op as [i f t|r|i|bs|i r|i|i h l n mf p|i h l|i h mf p|i l|i|i]; cbn [acc_step saved_step].
  - unfold set_batch. destruct (_ || _); [done|]. by case_bool_decide; split.
  - by split.
  - unfold mark_batch_submitted. by destruct (batches a !! i); split.
  - unfold purge_responses. split; cbn [persist with_responses acc_db signatures]; [|exact Hc].
    by rewrite delete_responses_batch_ok.
  - split; cbn; [by rewrite Hrow|]. intros j. rewrite !lookup_insert. case_decide; [by left|exact (Hc j)].
  - split; cbn; [by rewrite Hrow|]. intros j. rewrite !lookup_delete. case_decide; [by left|exact (Hc j)].
  - unfold mark_dispatched. destruct (batches a !! i) as [b|] eqn:Eb; [|done]. split; [done|]. intros j.
    unfold external. cbn. rewrite lookup_insert. case_decide; [|exact (Hc j)]. subst j. left. apply Hint.
    unfold external. by rewrite (Hx i) by (by rewrite Eb).
  - unfold mark_dispatched_external. destruct (batches a !! i) as [b|] eqn:Eb; [|done]. split; [done|]. intros j.
    unfold external. cbn. rewrite lookup_insert, lookup_delete. case_decide; [by right|exact (Hc j)].
  - split; [done|]. intros j. unfold external. cbn. rewrite lookup_alter. specialize (Hc j). unfold external in Hc.
    case_decide; [|exact Hc]. subst. by destruct (dispatched a !! j).
  - split; [done|]. intros j. unfold external. cbn. rewrite lookup_alter. specialize (Hc j). unfold external in Hc.
    case_decide; [|exact Hc]. subst. by destruct (dispatched a !! j).
  - unfold finalize_dispatched. destruct (dispatched a !! i) as [d|] eqn:Ed; [|done].
    split; cbn [snd with_sigs with_responses with_disp persist acc_db signatures]; unfold finalize_dispatched_batch;
      [rewrite transaction_all_ok; cbn; by rewrite Hrow|].
    intros j. unfold external. cbn [dispatched with_sigs with_responses with_disp persist]. rewrite !lookup_delete.
    case_decide; [by left|exact (Hc j)].
  - unfold undispatch. destruct (dispatched a !! i) as [d|] eqn:Ed; [|done].
    destruct (db_nonce d) eqn:En; [|done]. split; [done|]. intros j. unfold external. cbn. rewrite lookup_delete.
    case_decide; [|exact (Hc j)]. subst j. left. apply Hint. unfold external. by rewrite Ed, En.
Qed.

Lemma signatures_run ops : forall a m, acc_wf a -> signatures_ok a m ->
  signatures_ok (acc_run (healthy ops) a) (saved_signatures ops a m).
Proof.
  induction ops as [|op ops IH]; intros a m Hw Hs; [done|]. cbn. apply IH; [by apply acc_wf_step|by apply signatures_step].
Qed.

Lemma prune_rows l : forall d, batch_signatures (foldl (fun d i => delete_batch_signature_row all_ok i d) d l) =
  foldl (fun m i => base.delete i m) (batch_signatures d) l.
Proof. induction l as [|i l IH]; intros d; [done|]. cbn [foldl]. by rewrite IH. Qed.

(** Loading prunes the rows of batches that no longer exist. *)
Lemma with_db_prunes db : batch_signatures (acc_db (with_db (fun _ => all_ok) db)) = signatures (with_db (fun _ => all_ok) db).
Proof.
  set (a := with_db (fun _ => all_ok) db).
  assert (Ea : forall i, signatures a !! i = if is_live i a then batch_signatures db !! i else None)
    by (intros i; exact (lookup_reloaded_signatures (batch_signatures db) (fun i => is_live i a) i)).
  apply map_eq. intros i. rewrite Ea. unfold a at 1. cbn [acc_db with_db]. rewrite prune_rows, lookup_foldl_delete.
  change ((if decide (i ∈ (filter (fun row : Z * SubmitBatchResponse => is_live row.1 a = false)
      (load_all_batch_signatures db)).*1) then None else batch_signatures db !! i) =
    (if is_live i a then batch_signatures db !! i else None)).
  destruct (batch_signatures db !! i) as [s|] eqn:Es; [|by case_decide; destruct (is_live i a)].
  assert (Hin : (i, s) ∈ load_all_batch_signatures db).
  { unfold load_all_batch_signatures. rewrite list_elem_of_omap. exists i. rewrite elem_of_sorted_keys, Es. by split. }
  case_decide as Hd.
  - apply list_elem_of_fmap in Hd as (row & -> & [Hl _]%list_elem_of_filter). by rewrite Hl.
  - destruct (is_live i a) eqn:El; [done|]. exfalso. apply Hd, list_elem_of_fmap. exists (i, s). split; [done|].
    by apply list_elem_of_filter.
Qed.

(** C18: crash recovery.  After any history of accumulator operations, in the
    absence of SQL failures, reloading the store gives back exactly the pending
    and dispatched batches, the responses and the buffered events.  The
    signatures it gives back are exactly those saved for batches that still
    exist: of the last signing, unless it was deleted or its batch finalized
    since.  That is what the memory had, but for a batch found dispatched by
    another submitter, whose signature left the memory and is loaded again.
    The rows of all other signatures are deleted from the store. *)
Theorem reload_equals_memory ops o :
  Forall op_hash_ok ops ->
  let a := acc_run (healthy ops) empty_acc in
  let a' := with_db o (acc_db a) in
  let saved := saved_signatures ops empty_acc ∅ in
  batches a' = batches a /\ responses a' = responses a /\
  buffered_blobs_accepted a' = buffered_blobs_accepted a /\ dispatched a' = dispatched a /\
  (forall i, signatures a' !! i = if is_live i a then saved !! i else None) /\
  (forall i, if external i a then signatures a !! i = saved !! i \/ signatures a !! i = None
             else signatures a !! i = saved !! i) /\
  batch_signatures (acc_db (with_db (fun _ => all_ok) (acc_db a))) = signatures a'.
Proof.
  intros Hops a a' saved. destruct (healthy_run ops empty_acc mirrored_empty acc_wf_empty Hops) as [Hm Hw].
  destruct (with_db_mirrored o a Hm Hw) as (Eb & Er & Eu & Ed & Es). fold a' in Es.
  destruct (signatures_run ops empty_acc ∅ acc_wf_empty) as [Hrow Hc]; [by split; [|by left]|]. fold a saved in Hrow, Hc.
  split_and!; [done..| | |by rewrite with_db_prunes].
  - intros i. by rewrite Es, Hrow.
  - intros i. destruct (Hc i) as [->|[-> ->]]; [by destruct (external i a); [left|]|by right].
Qed.

(** The signature cache is not always a mirror of its table.  When a batch
    is found preconfirmed by another submitter, its signature leaves the cache
    but not the table; since the batch is dispatched, a restart loads it back. *)
Theorem external_dispatch_restores_signature a o i h l b s :
  mirrored a -> acc_wf a -> length h = 32%nat ->
  batches a !! i = Some b -> signatures a !! i = Some s ->
  let a1 := mark_dispatched_external all_ok i h l a in
  signatures a1 !! i = None /\ signatures (with_db o (acc_db a1)) !! i = Some s.
Proof.
  intros Hm Hw Hh Hb Hs a1.
  assert (Hm1 : mirrored a1) by (by apply (mirrored_step (ODispatchExternal i h l) a)).
  assert (Hw1 : acc_wf a1) by (by apply (acc_wf_step all_ok (ODispatchExternal i h l) a)).
  destruct (with_db_mirrored o a1 Hm1 Hw1) as (_ & _ & _ & _ & Es). rewrite Es.
  unfold a1, mark_dispatched_external, is_live. rewrite Hb. cbn.
  rewrite lookup_delete_eq, lookup_insert_eq. split; [done|].
  rewrite (bool_decide_true (is_Some (Some _))) by eauto. rewrite orb_true_r.
  eapply lookup_weaken; [exact Hs|apply Hm].
Qed.

(** ** Lifecycle, whatever the database does *)

(** The block range under which a batch is known. *)
Definition range_of (i : Z) (a : BatchAccumulator) : option (Z * Z) :=
  match batches a !! i with
  | Some b => Some (pb_from_block b, pb_to_block b)
  | None => (fun d => (db_from_block d, db_to_block d)) <$> dispatched a !! i
  end.

Lemma range_of_step o op a i r :
  acc_wf a -> range_of i a = Some r -> op <> OFinalize i -> range_of i (acc_step o op a) = Some r.
Proof.
  intros [_ _ _ Hx] Hr Hne.
  destruct op as [j f t|q|j|bs|j q|j|j h l n m p|j h l|j h m p|j l|j|j]; cbn [acc_step]; try exact Hr.
  - unfold set_batch. destruct (bool_decide _ || bool_decide _) eqn:E; [exact Hr|].
    apply orb_false_iff in E as [E1%bool_decide_eq_false E2%bool_decide_eq_false].
    assert (i <> j).
    { intros ->. unfold range_of in Hr.
      destruct (batches a !! j) eqn:Eb; [by destruct E2|].
      destruct (dispatched a !! j) eqn:Ed; [by destruct E1|]. done. }
    unfold range_of in *. case_bool_decide; cbn; by rewrite lookup_insert_ne.
  - unfold mark_batch_submitted. destruct (batches a !! j) as [b|] eqn:Eb; [|exact Hr].
    unfold range_of in *. cbn. rewrite lookup_insert. case_decide; [|exact Hr]. subst.
    rewrite Eb in Hr. exact Hr.
  - unfold mark_dispatched. destruct (batches a !! j) as [b|] eqn:Eb; [|exact Hr].
    unfold range_of in *. cbn. rewrite lookup_delete, lookup_insert. case_decide; [|exact Hr]. subst.
    rewrite Eb in Hr. exact Hr.
  - unfold mark_dispatched_external. destruct (batches a !! j) as [b|] eqn:Eb; [|exact Hr].
    unfold range_of in *. cbn. rewrite lookup_delete, lookup_insert. case_decide; [|exact Hr]. subst.
    rewrite Eb in Hr. exact Hr.
  - unfold range_of in *. cbn. destruct (batches a !! i); [exact Hr|]. rewrite lookup_alter.
    case_decide; [|exact Hr]. subst. by destruct (dispatched a !! i).
  - unfold range_of in *. cbn. destruct (batches a !! i); [exact Hr|]. rewrite lookup_alter.
    case_decide; [|exact Hr]. subst. by destruct (dispatched a !! i).
  - unfold finalize_dispatched. destruct (dispatched a !! j) as [d|] eqn:Ed; [|exact Hr].
    unfold range_of in *. cbn. destruct (batches a !! i); [exact Hr|].
    rewrite lookup_delete_ne by congruence. exact Hr.
  - unfold undispatch. destruct (dispatched a !! j) as [d|] eqn:Ed; [|exact Hr].
    destruct (db_nonce d); [|exact Hr]. unfold range_of in *. cbn.
    rewrite lookup_insert. case_decide.
    + subst. destruct (batches a !! i) as [b|] eqn:Eb.
      * by rewrite (Hx i) in Ed by (by rewrite Eb).
      * rewrite Ed in Hr. exact Hr.
    + destruct (batches a !! i); [exact Hr|]. by rewrite lookup_delete_ne.
Qed.

Lemma acc_wf_run ops a : acc_wf a -> acc_wf (acc_run ops a).
Proof. revert a. induction ops as [|[o op] ops IH]; intros a Ha; [done|]. by apply IH, acc_wf_step. Qed.

(** Lifecycle.  Over any history and any pattern of SQL failures, a batch
    is never pending and dispatched at the same time, and once registered it
    keeps its block range until it is finalized: re-emitted events, dispatches,
    fee bumps and undispatches cannot change or lose it. *)
Theorem batch_lifecycle ops1 ops2 i r :
  let a := acc_run ops1 empty_acc in
  range_of i a = Some r -> (forall o, (o, OFinalize i) ∉ ops2) ->
  let a2 := acc_run ops2 a in
  range_of i a2 = Some r /\ ~ (is_Some (batches a2 !! i) /\ is_Some (dispatched a2 !! i)).
Proof.
  intros a Hr Hf a2. assert (Hw : acc_wf a) by (apply acc_wf_run, acc_wf_empty).
  assert (G : range_of i a2 = Some r).
  { subst a2. clearbody a. revert a Hr Hw. induction ops2 as [|[o op] ops2 IH]; intros a Hr Hw; [done|].
    cbn. apply IH.
    - intros o' Ho'. apply (Hf o'). by apply list_elem_of_further.
    - apply range_of_step; [done|done|]. intros ->. apply (Hf o), list_elem_of_here.
    - by apply acc_wf_step. }
  split; [done|]. intros [Hb [d Hd]]. pose proof (acc_wf_run ops2 a Hw) as Hw2. fold a2 in Hw2.
  by rewrite (wf_disjoint _ Hw2 i Hb) in Hd.
Qed.

(** ** Readiness and strict order *)

Lemma btree_values_head {V} (m : gmap Z V) (key : V -> Z) v :
  (forall i v, m !! i = Some v -> key v = i) -> head (btree_values m) = Some v ->
  m !! key v = Some v /\ forall i, is_Some (m !! i) -> key v <= i.
Proof.
  intros Hk Hh. pose proof (btree_keys key m Hk) as E.
  destruct (btree_values m) as [|v' l] eqn:Ev; [done|]. cbn in Hh. injection Hh as ->.
  split.
  - assert (Hv : v ∈ btree_values m) by (rewrite Ev; apply list_elem_of_here).
    apply elem_of_btree_values in Hv as [k Hv]. by rewrite (Hk k v Hv).
  - intros i Hi. apply elem_of_sorted_keys in Hi. pose proof (sorted_keys_sorted m) as Hs.
    rewrite <- E in Hi, Hs. rewrite fmap_cons in Hi, Hs. inversion_clear Hs as [|?? _ Hall].
    apply elem_of_cons in Hi as [->|Hi]; [lia|]. rewrite Forall_forall in Hall. auto.
Qed.

(** Strict dispatch order.  The dispatcher is only ever handed the pending
    batch with the smallest index, with its own cached signature; while that
    batch is unsigned nothing is dispatched, however many later ones are. *)
Theorem dispatch_in_order a i sig :
  acc_wf a ->
  (first_sequential_signed a = Some (i, sig) <->
   (exists b, batches a !! i = Some b) /\ (forall j, is_Some (batches a !! j) -> i <= j) /\
   exists s, signatures a !! i = Some s /\ sig = signature s).
Proof.
  intros [Hk _ _ _]. unfold first_sequential_signed.
  destruct (head (btree_values (batches a))) as [b|] eqn:Eh; cbn [mbind option_bind].
  - destruct (btree_values_head _ pb_batch_index b Hk Eh) as [Hb Hmin].
    destruct (signatures a !! pb_batch_index b) as [s|] eqn:Es; cbn [mbind option_bind].
    + split.
      * intros [= <- <-]. split_and!; [eauto|done|eauto].
      * intros ([b' Hb'] & Hm' & s' & Hs' & ->).
        assert (i = pb_batch_index b) as ->.
        { specialize (Hmin i ltac:(eauto)). specialize (Hm' (pb_batch_index b) ltac:(eauto)). lia. }
        rewrite Es in Hs'. by injection Hs' as ->.
    + split; [done|]. intros ([b' Hb'] & Hm' & s' & Hs' & ->).
      assert (i = pb_batch_index b) as ->.
      { specialize (Hmin i ltac:(eauto)). specialize (Hm' (pb_batch_index b) ltac:(eauto)). lia. }
      congruence.
  - split; [done|]. intros ([b' Hb'] & _).
    assert (Hin : b' ∈ btree_values (batches a)) by (apply elem_of_btree_values; eauto).
    destruct (btree_values (batches a)); [by apply not_elem_of_nil in Hin|done].
Qed.

Lemma is_batch_ready_spec a b :
  is_batch_ready a b = true <->
  blobs_accepted b = true /\
  forall n, pb_from_block b <= n <= pb_to_block b -> is_Some (responses a !! n).
Proof.
  unfold is_batch_ready. rewrite andb_true_iff, forallb_forall. split; intros [Hb Hr]; (split; [done|]).
  - intros n Hn. apply elem_of_range_incl, list_elem_of_In in Hn. specialize (Hr n Hn).
    by apply bool_decide_eq_true in Hr.
  - intros n Hn. apply list_elem_of_In, elem_of_range_incl in Hn. apply bool_decide_eq_true. auto.
Qed.

(** The eager signer is handed a batch exactly when one can be signed: the
    batch it gets is pending, Submitted on L1, has a response for every block of
    its range and no signature; and it gets none only if no such batch exists. *)
Theorem signer_picks_ready a :
  acc_wf a ->
  match first_ready_unsigned a with
  | Some i => exists b, batches a !! i = Some b /\ blobs_accepted b = true /\
      (forall n, pb_from_block b <= n <= pb_to_block b -> is_Some (responses a !! n)) /\
      signatures a !! i = None
  | None => forall i b, batches a !! i = Some b -> is_batch_ready a b = true ->
      is_Some (signatures a !! i)
  end.
Proof.
  intros [Hk _ _ _]. unfold first_ready_unsigned. set (l := List.filter _ _). set (p := fun b => _).
  assert (Hl : forall b, In b l <-> is_batch_ready a b = true /\ batches a !! pb_batch_index b = Some b).
  { intros b. subst l. rewrite filter_In, <- list_elem_of_In, elem_of_btree_values. split.
    - intros [[k Hb] Hr]. by rewrite (Hk k b Hb).
    - intros [Hr Hb]. eauto. }
  destruct (find p l) as [b|] eqn:E; cbn [fmap option_fmap].
  - apply find_some in E as [Hin Hp]. apply Hl in Hin as [Hr Hb].
    apply is_batch_ready_spec in Hr as [Ha Hall]. apply bool_decide_eq_true in Hp. by exists b.
  - intros i b Hb Hr. pose proof (Hk i b Hb) as Hi.
    apply (find_none p l) with (x := b) in E; [|apply Hl; by rewrite Hi].
    apply bool_decide_eq_false in E. rewrite Hi in E. by destruct (signatures a !! i).
Qed.

(** A dispatch that is unwound can be dispatched again.  Moving a signed
    pending batch to dispatched and back leaves it pending, Submitted, with the
    same range and its signature still cached, and all other batches as they
    were; a batch dispatched by someone else is never unwound. *)
Theorem dispatch_undispatch a o1 o2 i b s h l n m p :
  acc_wf a -> batches a !! i = Some b -> signatures a !! i = Some s ->
  let a2 := undispatch o2 i (mark_dispatched o1 i h l n m p a) in
  let a3 := undispatch o2 i (mark_dispatched_external o1 i h l a) in
  a2.1 = true /\ batches a2.2 = <[i := accept_blobs b]> (batches a) /\
  dispatched a2.2 = dispatched a /\ signatures a2.2 = signatures a /\
  a3 = (false, mark_dispatched_external o1 i h l a).
Proof.
  intros [Hk _ _ Hx] Hb Hs. cbn zeta.
  unfold undispatch, mark_dispatched, mark_dispatched_external. rewrite Hb. cbn.
  rewrite !lookup_insert_eq. cbn. split_and!; [done| | |done|done].
  - rewrite insert_delete_eq. f_equal. unfold new_batch, accept_blobs. by rewrite (Hk i b Hb).
  - rewrite delete_insert_id; [done|]. apply Hx. by rewrite Hb.
Qed.

(** Recovery from a revert is atomic.  [wipe_for_revert] either leaves the
    store untouched or empties every table and leaves exactly the two anchors
    the next start resumes from. *)
Theorem wipe_for_revert_atomic o start_batch l1 d :
  wipe_for_revert o start_batch l1 d = d \/
  let d' := wipe_for_revert o start_batch l1 d in
  get_start_batch_id d' = Some start_batch /\ get_l1_checkpoint d' = Some l1 /\
  get_checkpoint d' = 0 /\ get_last_batch_end d' = None /\
  batches (with_db (fun _ => o) d') = ∅ /\ dispatched (with_db (fun _ => o) d') = ∅ /\
  responses (with_db (fun _ => o) d') = ∅ /\ signatures (with_db (fun _ => o) d') = ∅ /\
  buffered_blobs_accepted (with_db (fun _ => o) d') = ∅.
Proof.
  unfold wipe_for_revert.
  destruct (transaction_atomic o
    [(fun _ => open); with_meta <["start_batch_id"%string := start_batch]>;
     with_meta <["l1_checkpoint"%string := l1]>] d) as [->| ->]; [by left|].
  right. cbn [foldl]. unfold get_start_batch_id, get_l1_checkpoint, get_checkpoint, get_last_batch_end.
  cbn [with_meta meta open]. by split_and!.
Qed.

(** ** The theorems at concrete histories *)

Definition sample_hash : list Z := replicate 32 7.
Definition sample_resp (n : Z) : EthExecutionResponse :=
  {| block_number := n; leaf := []; block_hash := []; resp_signature := [] |}.
Definition sample_sig : SubmitBatchResponse :=
  {| batch_root := []; versioned_hashes := []; signature := [1; 2] |}.

Definition sample_history : list acc_op :=
  [ OMarkSubmitted 1; OInsertResponse (sample_resp 10); OInsertResponse (sample_resp 11);
    OSetBatch 1 10 11; OSetBatch 2 12 13; OSign 1 sample_sig;
    ODispatch 1 sample_hash 0 5 100 10; ORbfBump 1 sample_hash 200 20 ].

(** One batch of ours, one signed and then found dispatched by another, one whose
    signature was deleted, one that was finalized. *)
Definition mixed_history : list acc_op :=
  sample_history ++ [ OSign 2 sample_sig; ODispatchExternal 2 sample_hash 6; OSetBatch 3 14 15; OSign 3 sample_sig;
    ODeleteSignature 3; OSetBatch 4 16 17; OSign 4 sample_sig; ODispatch 4 sample_hash 0 6 100 10; OFinalize 4 ].

Lemma reload_equals_memory_witness :
  let a := acc_run (healthy mixed_history) empty_acc in
  let a' := with_db (fun _ => all_ok) (acc_db a) in
  (batches a' = batches a /\ dispatched a' = dispatched a) /\
  (signatures a !! 1 = Some sample_sig /\ signatures a' !! 1 = Some sample_sig) /\
  (signatures a !! 2 = None /\ signatures a' !! 2 = Some sample_sig) /\
  signatures a' !! 3 = None /\ signatures a' !! 4 = None.
Proof.
  assert (Hops : Forall op_hash_ok mixed_history) by (repeat (apply Forall_cons; split; [done|]); apply Forall_nil; done).
  destruct (reload_equals_memory mixed_history (fun _ => all_ok) Hops) as (Eb & _ & _ & Ed & Es & _).
  cbn zeta. split; [exact (conj Eb Ed)|].
  split_and!; try (vm_compute; reflexivity); (etransitivity; [refine (Es _)|vm_compute; reflexivity]).
Defined.

(** A batch pending with a signature. *)
Definition sample_signed : BatchAccumulator :=
  acc_run (healthy [OSetBatch 1 10 11; OSign 1 sample_sig]) empty_acc.

Lemma sample_signed_ok : mirrored sample_signed /\ acc_wf sample_signed.
Proof.
  apply healthy_run; [apply mirrored_empty|apply acc_wf_empty|].
  repeat (apply Forall_cons; split; [done|]). apply Forall_nil. done.
Qed.

Lemma external_dispatch_restores_signature_witness :
  let a1 := mark_dispatched_external all_ok 1 sample_hash 9 sample_signed in
  signatures a1 !! 1 = None /\ signatures (with_db (fun _ => all_ok) (acc_db a1)) !! 1 = Some sample_sig.
Proof.
  apply (external_dispatch_restores_signature sample_signed (fun _ => all_ok) 1 sample_hash 9
           (new_batch 1 10 11 false) sample_sig);
    [apply sample_signed_ok..|done|by vm_compute|by vm_compute].
Defined.

Lemma batch_lifecycle_witness :
  let a2 := acc_run [(fun _ => false, ODispatch 1 sample_hash 0 5 1 1); (all_ok, OUndispatch 1)]
              (acc_run (healthy [OSetBatch 1 10 11]) empty_acc) in
  range_of 1 a2 = Some (10, 11) /\ ~ (is_Some (batches a2 !! 1) /\ is_Some (dispatched a2 !! 1)).
Proof.
  apply (batch_lifecycle (healthy [OSetBatch 1 10 11])
           [(fun _ => false, ODispatch 1 sample_hash 0 5 1 1); (all_ok, OUndispatch 1)] 1 (10, 11)).
  - by vm_compute.
  - intros o Hin. repeat (apply elem_of_cons in Hin as [[=]|Hin]). by apply not_elem_of_nil in Hin.
Defined.

Lemma dispatch_in_order_witness :
  acc_wf sample_signed /\
  (first_sequential_signed sample_signed = Some (1, [1; 2]) <->
   (exists b, batches sample_signed !! 1 = Some b) /\
   (forall j, is_Some (batches sample_signed !! j) -> 1 <= j) /\
   exists s, signatures sample_signed !! 1 = Some s /\ [1; 2] = signature s).
Proof.
  split; [apply sample_signed_ok|]. apply (dispatch_in_order sample_signed 1 [1; 2]), sample_signed_ok.
Defined.

Lemma signer_picks_ready_witness :
  match first_ready_unsigned sample_signed with
  | Some i => exists b, batches sample_signed !! i = Some b /\ blobs_accepted b = true /\
      (forall n, pb_from_block b <= n <= pb_to_block b -> is_Some (responses sample_signed !! n)) /\
      signatures sample_signed !! i = None
  | None => forall i b, batches sample_signed !! i = Some b ->
      is_batch_ready sample_signed b = true -> is_Some (signatures sample_signed !! i)
  end.
Proof. apply (signer_picks_ready sample_signed), sample_signed_ok. Defined.

Lemma dispatch_undispatch_witness :
  let a2 := undispatch all_ok 1 (mark_dispatched all_ok 1 sample_hash 0 5 1 1 sample_signed) in
  let a3 := undispatch all_ok 1 (mark_dispatched_external all_ok 1 sample_hash 0 sample_signed) in
  a2.1 = true /\ batches a2.2 = <[1 := accept_blobs (new_batch 1 10 11 false)]> (batches sample_signed) /\
  dispatched a2.2 = dispatched sample_signed /\ signatures a2.2 = signatures sample_signed /\
  a3 = (false, mark_dispatched_external all_ok 1 sample_hash 0 sample_signed).
Proof.
  apply (dispatch_undispatch sample_signed all_ok all_ok 1 (new_batch 1 10 11 false) sample_sig
           sample_hash 0 5 1 1); [apply sample_signed_ok|by vm_compute|by vm_compute].
Defined.
