(* ===== verification/Merkle.v ===== *)
(** * The two Merkle roots

    The enclave's [calculate_merkle_root] ([bin/client/src/nitro/mod.rs])
    builds a fresh layer from pairs of the previous one; the executor's
    [merkle_root] ([crates/executor/client/src/events_hash.rs]) overwrites one
    vector in place.  Both duplicate a trailing odd element.  They compute the
    same function of a nonempty list. *)
From S2P Require Import Prelude BytesCodec Rlp.

Section Merkle.
Context `{Keccak}.

(** [keccak_pair]. *)
Definition keccak_pair (left right : list Z) : list Z := keccak256 (left ++ right).

(** [layer.chunks(2)], each chunk hashed, a single one with itself. *)
Fixpoint next_layer (layer : list (list Z)) : list (list Z) :=
  match layer with
  | a :: b :: rest => keccak_pair a b :: next_layer rest
  | [a] => [keccak_pair a a]
  | [] => []
  end.

(** [while layer.len() > 1]. *)
Fixpoint layers (fuel : nat) (layer : list (list Z)) : option (list Z) :=
  match fuel with
  | O => None
  | S fuel' =>
      if decide (1 < length layer)%nat then layers fuel' (next_layer layer) else head layer
  end.

(** [calculate_merkle_root]: [None] is the error on an empty list (or lack of
    fuel, which [merkle_terminates] excludes). *)
Definition calculate_merkle_root (leaves : list (list Z)) : option (list Z) :=
  match leaves with
  | [] => None
  | [a] => Some a
  | _ => layers (S (length leaves)) (next_layer leaves)
  end.

(** [ZERO_BYTES_HASH]: Keccak-256 of the empty string. *)
Definition ZERO_BYTES_HASH : list Z :=
  [197; 210; 70; 1; 134; 247; 35; 60; 146; 126; 125; 178; 220; 199; 3; 192;
   229; 0; 182; 83; 202; 130; 39; 59; 123; 250; 216; 4; 93; 133; 164; 112].

(** [for i in 0..leaves.len() / 2], writing [leaves[i]]; indices are in range. *)
Definition hash_at (leaves : list (list Z)) (i : nat) : list (list Z) :=
  <[i := keccak_pair (leaves !!! (i * 2)%nat) (leaves !!! (i * 2 + 1)%nat)]> leaves.

Definition in_place_round (leaves : list (list Z)) : list (list Z) :=
  let leaves :=
    if Nat.even (length leaves) then leaves
    else match last leaves with Some x => leaves ++ [x] | None => leaves end in
  let leaves := foldl hash_at leaves (seq 0 (length leaves / 2)) in
  take (length leaves / 2) leaves.

Fixpoint in_place (fuel : nat) (leaves : list (list Z)) : option (list Z) :=
  match fuel with
  | O => None
  | S fuel' =>
      if decide (1 < length leaves)%nat then in_place fuel' (in_place_round leaves) else head leaves
  end.

(** [merkle_root]. *)
Definition merkle_root (leaves : list (list Z)) : option (list Z) :=
  match leaves with
  | [] => Some ZERO_BYTES_HASH
  | _ => in_place (S (length leaves)) leaves
  end.

(** ** Layers *)

(** Induction two elements at a time. *)
Lemma list_ind2 {A} (P : list A -> Prop) :
  P [] -> (forall a, P [a]) -> (forall a b l, P l -> P (a :: b :: l)) -> forall l, P l.
Proof.
  intros H0 H1 H2. fix IH 1. intros [|a [|b l]]; [exact H0|exact (H1 a)|exact (H2 a b l (IH l))].
Qed.

Lemma length_next_layer l : length (next_layer l) = ((length l + 1) / 2)%nat.
Proof.
  induction l as [|a|a b l IH] using list_ind2; [done..|]. cbn [next_layer length]. rewrite IH.
  replace (S (S (length l)) + 1)%nat with (length l + 1 + 1 * 2)%nat by lia.
  rewrite Nat.div_add by lia. lia.
Qed.

Lemma next_layer_shorter l : (1 < length l)%nat -> (length (next_layer l) < length l)%nat.
Proof.
  intros Hl. rewrite length_next_layer. apply Nat.Div0.div_lt_upper_bound; lia.
Qed.

Lemma next_layer_nonempty l : l <> [] -> next_layer l <> [].
Proof. destruct l as [|a [|b l]]; done. Qed.

Lemma layers_enough f1 f2 l :
  (length l < f1)%nat -> (length l < f2)%nat -> layers f1 l = layers f2 l.
Proof.
  revert f2 l. induction f1 as [|f1 IH]; intros [|f2] l H1 H2; [lia..|]. cbn [layers].
  case_decide as Hl; [|done]. pose proof (next_layer_shorter l Hl). apply IH; lia.
Qed.

Lemma layers_Some f l : l <> [] -> (length l < f)%nat -> is_Some (layers f l).
Proof.
  revert l. induction f as [|f IH]; intros l Hne Hl; [lia|]. cbn [layers]. case_decide as H1.
  - pose proof (next_layer_shorter l H1). apply IH; [by apply next_layer_nonempty|lia].
  - destruct l; [done|]. by eexists.
Qed.

(** The root of a nonempty list, one layer at a time. *)
Definition root_of (l : list (list Z)) : option (list Z) := layers (S (length l)) l.

Lemma root_of_next l : (1 < length l)%nat -> root_of l = root_of (next_layer l).
Proof.
  intros Hl. unfold root_of. change (layers (S (length l)) l) with
    (if decide (1 < length l)%nat then layers (length l) (next_layer l) else head l).
  rewrite decide_True by done.
  pose proof (next_layer_shorter l Hl). apply layers_enough; lia.
Qed.

Lemma calculate_root_of l : l <> [] -> calculate_merkle_root l = root_of l.
Proof.
  intros Hne. destruct l as [|a [|b l]]; [done|done|]. rewrite root_of_next by (cbn; lia).
  unfold calculate_merkle_root. pose proof (next_layer_shorter (a :: b :: l)) as Hs.
  apply layers_enough; cbn [length] in *; lia.
Qed.

(** ** The in-place round computes the next layer *)

Lemma next_layer_pad l x :
  last l = Some x -> Nat.even (length l) = false -> next_layer (l ++ [x]) = next_layer l.
Proof.
  induction l as [|a|a b l IH] using list_ind2; intros Hx He; [done|by injection Hx as ->|].
  cbn [app next_layer]. f_equal. destruct l as [|c l]; [done|]. by apply IH.
Qed.

Lemma next_layer_lookup l i a b :
  l !! (i * 2)%nat = Some a -> l !! (i * 2 + 1)%nat = Some b -> next_layer l !! i = Some (keccak_pair a b).
Proof.
  revert i. induction l as [|c|c d l IH] using list_ind2; intros i Ha Hb; [done| |].
  - destruct i as [|i]; cbn in *; [done|]. done.
  - destruct i as [|i]; cbn [Nat.mul Nat.add lookup list_lookup next_layer] in *.
    + by injection Ha as ->; injection Hb as ->.
    + apply IH; done.
Qed.

(** After the first [k] writes, the first [k] cells hold the next layer and the
    cells from [2k] on are still unread. *)
Lemma in_place_prefix l k :
  Nat.even (length l) = true -> (k <= length l / 2)%nat ->
  let l' := foldl hash_at l (seq 0 k) in
  length l' = length l /\
  (forall i, (i < k)%nat -> l' !! i = next_layer l !! i) /\
  (forall i, (k <= i)%nat -> l' !! i = l !! i).
Proof.
  intros He. induction k as [|k IH]; intros Hk; [by split_and!; [|lia|]|].
  rewrite seq_S, foldl_app. destruct IH as (Hl & Hlo & Hhi); [lia|]. cbn [foldl Nat.add].
  set (m := foldl hash_at l (seq 0 k)) in *.
  assert (H2 : (k * 2 + 1 < length l)%nat).
  { apply Nat.even_spec in He as [q Hq]. rewrite Hq in Hk. rewrite Nat.mul_comm, Nat.div_mul in Hk by lia. lia. }
  unfold hash_at. rewrite length_insert. split_and!; [done| |].
  - intros i Hi. destruct (decide (i = k)) as [->|Hne].
    + rewrite list_lookup_insert_eq by lia. symmetry. apply next_layer_lookup.
      * rewrite list_lookup_total_alt, Hhi by lia.
        destruct (lookup_lt_is_Some_2 l (k * 2)) as [x Hx]; [lia|]. by rewrite Hx.
      * rewrite list_lookup_total_alt, Hhi by lia.
        destruct (lookup_lt_is_Some_2 l (k * 2 + 1)) as [x Hx]; [lia|]. by rewrite Hx.
    + rewrite list_lookup_insert_ne by lia. apply Hlo. lia.
  - intros i Hi. rewrite list_lookup_insert_ne by lia. apply Hhi. lia.
Qed.

Lemma in_place_even l :
  Nat.even (length l) = true ->
  take (length l / 2) (foldl hash_at l (seq 0 (length l / 2))) = next_layer l.
Proof.
  intros He. destruct (in_place_prefix l (length l / 2) He) as (Hl & Hlo & _); [lia|].
  apply list_eq. intros i. destruct (decide (i < length l / 2)%nat) as [Hi|Hi].
  - rewrite lookup_take_lt by done. auto.
  - rewrite lookup_take_ge by lia. symmetry. apply lookup_ge_None. rewrite length_next_layer.
    apply Nat.even_spec in He as [q Hq]. rewrite Hq in *.
    replace (2 * q + 1)%nat with (1 + q * 2)%nat by lia. rewrite Nat.div_add by lia.
    rewrite Nat.mul_comm, Nat.div_mul in Hi by lia. cbn. lia.
Qed.

Lemma in_place_round_spec l : in_place_round l = next_layer l.
Proof.
  unfold in_place_round. destruct (Nat.even (length l)) eqn:He.
  - destruct (in_place_prefix l (length l / 2) He) as (Hl & _); [lia|].
    rewrite Hl. by apply in_place_even.
  - destruct (last l) as [x|] eqn:Hx.
    + assert (He' : Nat.even (length (l ++ [x])) = true).
      { rewrite length_app, Nat.add_comm. cbn [length Nat.add]. rewrite Nat.even_succ.
        by rewrite <- Nat.negb_even, He. }
      destruct (in_place_prefix (l ++ [x]) (length (l ++ [x]) / 2) He') as (Hl & _); [lia|].
      rewrite Hl, in_place_even by done. by apply next_layer_pad.
    + apply last_None in Hx. by subst l.
Qed.

Lemma in_place_layers f l : in_place f l = layers f l.
Proof.
  revert l. induction f as [|f IH]; intros l; [done|]. cbn [in_place layers].
  by rewrite in_place_round_spec, IH.
Qed.

Lemma merkle_root_total l : is_Some (merkle_root l).
Proof.
  unfold merkle_root. destruct l as [|a l]; [by eexists|]. rewrite in_place_layers.
  apply layers_Some; [done|lia].
Qed.

(** The in-place Merkle root of the executor and the layered one of the
    enclave are the same function on nonempty lists, both always produce a root
    there, and on the empty list the first gives the hash of the empty string
    and the second an error. *)
Theorem merkle_roots_agree leaves :
  (leaves <> [] -> merkle_root leaves = calculate_merkle_root leaves /\
                   is_Some (calculate_merkle_root leaves)) /\
  merkle_root [] = Some ZERO_BYTES_HASH /\ calculate_merkle_root [] = None.
Proof.
  split; [|done]. intros Hne. rewrite calculate_root_of by done. split.
  - unfold merkle_root. destruct leaves; [done|]. by rewrite in_place_layers.
  - apply layers_Some; [done|lia].
Qed.

(** ** Binding *)

(** The byte strings that are hashed for one layer, and for the whole tree. *)
Fixpoint layer_inputs (l : list (list Z)) : list (list Z) :=
  match l with
  | [] => []
  | [a] => [a ++ a]
  | a :: b :: rest => (a ++ b) :: layer_inputs rest
  end.
Fixpoint tree_inputs (n : nat) (l : list (list Z)) : list (list Z) :=
  match n with
  | O => []
  | S n' => layer_inputs l ++ tree_inputs n' (next_layer l)
  end.
Definition merkle_inputs (l : list (list Z)) : list (list Z) := tree_inputs (length l) l.

Lemma keccak_pair_inj K a b c d : coll_free K -> a ++ b ∈ K -> c ++ d ∈ K ->
  length a = length c -> keccak_pair a b = keccak_pair c d -> a = c /\ b = d.
Proof. intros HK H1 H2 Hl E. apply (coll_free_inj K) in E; [|done..]. by apply app_inj_1 in E. Qed.

Definition leaves32 (l : list (list Z)) : Prop := Forall (fun x => length x = 32%nat) l.

Lemma next_layer_32 l : leaves32 (next_layer l).
Proof.
  unfold leaves32. induction l as [|a|a b l IH] using list_ind2; cbn [next_layer].
  - constructor.
  - apply Forall_singleton, keccak256_length.
  - apply Forall_cons. split; [apply keccak256_length|done].
Qed.

Lemma next_layer_inj K l1 : coll_free K -> forall l2, layer_inputs l1 ⊆ K -> layer_inputs l2 ⊆ K ->
  leaves32 l1 -> leaves32 l2 -> length l1 = length l2 -> next_layer l1 = next_layer l2 -> l1 = l2.
Proof.
  unfold leaves32. intros HK. induction l1 as [|a|a b l1 IH] using list_ind2;
    intros [|c [|d l2]] Hk1 Hk2 H1 H2 Hl E; try done; cbn [layer_inputs] in Hk1, Hk2.
  - injection E as E. apply Forall_cons in H1 as [Ha _]; apply Forall_cons in H2 as [Hc _].
    apply (keccak_pair_inj K a a c c HK) in E as [-> _]; [done|apply Hk1|apply Hk2|congruence]; by left.
  - injection E as E E'. apply Forall_cons in H1 as [Ha [Hb H1]%Forall_cons].
    apply Forall_cons in H2 as [Hc [Hd H2]%Forall_cons]. cbn beta in Ha, Hb, Hc, Hd.
    apply (keccak_pair_inj K a b c d HK) in E as [-> ->]; [|apply Hk1; by left|apply Hk2; by left|congruence].
    cbn [length] in Hl. rewrite (IH l2); [done|..|done|done|lia|done]; intros x Hx; [apply Hk1|apply Hk2]; by right.
Qed.

Lemma root_of_binds K n : coll_free K -> forall l1 l2, tree_inputs n l1 ⊆ K -> tree_inputs n l2 ⊆ K ->
  (length l1 <= n)%nat -> leaves32 l1 -> leaves32 l2 -> length l1 = length l2 -> l1 <> [] ->
  root_of l1 = root_of l2 -> l1 = l2.
Proof.
  intros HK. induction n as [|n IH]; intros l1 l2 Hk1 Hk2 Hn H1 H2 Hl Hne E; [by destruct l1; [|cbn in Hn; lia]|].
  cbn [tree_inputs] in Hk1, Hk2. destruct (decide (1 < length l1)%nat) as [Hlt|Hge].
  - rewrite (root_of_next l1), (root_of_next l2) in E by lia. pose proof (next_layer_shorter l1 Hlt).
    apply (next_layer_inj K l1 HK l2); [intros x Hx; apply Hk1|intros x Hx; apply Hk2|done..|]; [apply elem_of_app; by left..|].
    apply (IH (next_layer l1) (next_layer l2));
      [intros x Hx; apply Hk1, elem_of_app; by right|intros x Hx; apply Hk2, elem_of_app; by right|lia|apply next_layer_32..|
       by rewrite !length_next_layer, Hl|by apply next_layer_nonempty|done].
  - destruct l1 as [|a [|? ?]]; [done| |cbn in Hge; lia]. destruct l2 as [|c [|? ?]]; [done| |done].
    by injection E as ->.
Qed.

Lemma merkle_root_binds K l1 l2 : coll_free K -> merkle_inputs l1 ⊆ K -> merkle_inputs l2 ⊆ K ->
  leaves32 l1 -> leaves32 l2 -> length l1 = length l2 -> merkle_root l1 = merkle_root l2 -> l1 = l2.
Proof.
  intros HK Hk1 Hk2 H1 H2 Hl E. destruct (decide (l1 = [])) as [->|Hne].
  { by destruct l2. }
  unfold merkle_root in E. destruct l1 as [|a l1]; [done|]. destruct l2 as [|b l2]; [done|].
  rewrite !in_place_layers in E. unfold merkle_inputs in Hk2. rewrite <- Hl in Hk2.
  eapply (root_of_binds K _ HK _ _ Hk1 Hk2 (Nat.le_refl _) H1 H2 Hl Hne). exact E.
Qed.

(** The batch root binds its leaves.  Two lists of 32-byte leaves of the
    same length with the same root are equal, when no two of the pairs hashed
    for the two trees collide under Keccak-256.  The length matters: duplicating
    an odd last leaf gives the same root, which is why the number of blocks of a
    batch must be fixed elsewhere. *)
Theorem batch_root_binds l1 l2 :
  coll_free (merkle_inputs l1 ++ merkle_inputs l2) ->
  leaves32 l1 -> leaves32 l2 -> length l1 = length l2 -> l1 <> [] ->
  calculate_merkle_root l1 = calculate_merkle_root l2 ->
  l1 = l2 /\ forall a b c, calculate_merkle_root [a; b; c] = calculate_merkle_root [a; b; c; c].
Proof.
  intros HK H1 H2 Hl Hne E. split; [|done].
  rewrite !calculate_root_of in E by (destruct l1, l2; done).
  apply (root_of_binds _ (length l1) HK l1 l2); [by apply sub_app_l| |done..]. rewrite Hl. by apply sub_app_r.
Qed.
End Merkle.

Section Samples.
#[local] Existing Instance RefRlp.toy_keccak.

Lemma batch_root_binds_witness :
  let l := [replicate 32 1; replicate 32 2; replicate 32 3] in
  l = l /\ forall a b c, calculate_merkle_root [a; b; c] = calculate_merkle_root [a; b; c; c].
Proof.
  apply batch_root_binds; [| | |done|done|done]; (apply (bool_decide_unpack _); by vm_compute).
Defined.
End Samples.
