(* ===== verification/Network.v ===== *)
(** * Per-network constants

    [crates/primitives/src/lib.rs] selects one of two [network] modules at
    compile time; here a network is a value, so the theorems that use the
    constants hold for both builds. *)
From S2P Require Import Prelude BytesCodec.

(** [b256!] and [address!] literals. *)
Definition b256 (z : Z) : list Z := be_encode 32 z.
Definition address (z : Z) : list Z := be_encode 20 z.

Record network := {
  FLUENT_CHAIN_ID : Z;
  L1_CHAIN_ID : Z;
  NITRO_VERIFIER_ADDRESS : list Z;
  BRIDGE_ADDRESS : list Z;
  LEGACY_BRIDGE_WITHDRAWAL_TOPIC : list Z;
  BRIDGE_WITHDRAWAL_TOPIC : list Z;
  BRIDGE_ROLLBACK_TOPIC : list Z;
  BRIDGE_DEPOSIT_TOPIC : list Z }.

Definition mainnet : network := {|
  FLUENT_CHAIN_ID := 25363;
  L1_CHAIN_ID := 1;
  NITRO_VERIFIER_ADDRESS := address 0xfdb04b67ecd8352ba3885f66fffddf1f5f25292f;
  BRIDGE_ADDRESS := address 0x9CAcf613fC29015893728563f423fD26dCdB8Ddc;
  LEGACY_BRIDGE_WITHDRAWAL_TOPIC :=
    b256 0x7b397c6ce16a73396390bf270a2021417ca4d97f44e82cdce3f5eb750fd34134;
  BRIDGE_WITHDRAWAL_TOPIC :=
    b256 0xd6dd852a42072c8955866b4726f03b3970da8db758c7af9a7130fcb97bf05977;
  BRIDGE_ROLLBACK_TOPIC :=
    b256 0xdf7aa00ff05158efbc91b05d801c14d80f3d08daf5b13c7f066030c864be3d65;
  BRIDGE_DEPOSIT_TOPIC :=
    b256 0xc5797c3a3c0e6c245576d05b8c3929881b44e1a21fdb4f1b118ede3c009683c5 |}.

Definition testnet : network := {|
  FLUENT_CHAIN_ID := 0x5202;
  L1_CHAIN_ID := 11155111;
  NITRO_VERIFIER_ADDRESS := address 0xba3d3b60b6f462aa3fb2d63f8b610fa8825c3019;
  BRIDGE_ADDRESS := address 0x9CAcf613fC29015893728563f423fD26dCdB8Ddc;
  LEGACY_BRIDGE_WITHDRAWAL_TOPIC :=
    b256 0x7b397c6ce16a73396390bf270a2021417ca4d97f44e82cdce3f5eb750fd34134;
  BRIDGE_WITHDRAWAL_TOPIC :=
    b256 0xd6dd852a42072c8955866b4726f03b3970da8db758c7af9a7130fcb97bf05977;
  BRIDGE_ROLLBACK_TOPIC :=
    b256 0xdf7aa00ff05158efbc91b05d801c14d80f3d08daf5b13c7f066030c864be3d65;
  BRIDGE_DEPOSIT_TOPIC :=
    b256 0xc5797c3a3c0e6c245576d05b8c3929881b44e1a21fdb4f1b118ede3c009683c5 |}.

(** What the code relies on of either network: the widths of the literals, and
    that the four bridge topics are different events. *)
Definition network_ok (n : network) : Prop :=
  0 <= L1_CHAIN_ID n < 2 ^ 64 /\ length (NITRO_VERIFIER_ADDRESS n) = 20%nat /\
  NoDup [LEGACY_BRIDGE_WITHDRAWAL_TOPIC n; BRIDGE_WITHDRAWAL_TOPIC n;
         BRIDGE_ROLLBACK_TOPIC n; BRIDGE_DEPOSIT_TOPIC n].

#[export] Instance network_ok_dec n : Decision (network_ok n).
Proof. unfold network_ok. apply _. Defined.

Lemma mainnet_ok : network_ok mainnet.
Proof. apply (bool_decide_unpack _). by vm_compute. Qed.

Lemma testnet_ok : network_ok testnet.
Proof. apply (bool_decide_unpack _). by vm_compute. Qed.
