(* ===== verification/EventsHash.v ===== *)
(** * Bridge event hashes

    [crates/executor/client/src/events_hash.rs]: from the receipts of a block
    to the deposit hash (Keccak-256 over the received message hashes) and the
    withdrawal root (Merkle root of the sent and rolled back messages), the two
    values every block leaf commits to. *)
From S2P Require Import Prelude BytesCodec Rlp Network Merkle.

(** [alloy_primitives::LogData], [Log] and the parts of [TxReceipt] used. *)
Record LogData := { topics : list (list Z); data : list Z }.
Record Log := { log_address : list Z; log_data : LogData }.
Record Receipt := { status : bool; logs : list Log }.

(** [ExecutionOutcome]: the receipts, one list per block. *)
Definition Receipts : Type := list (list Receipt).

Record BridgeHashes := { withdrawal_hash : list Z; deposit_hash : list Z }.

Record BridgeInfo := {
  bridge_address : list Z;
  withdrawal_topic : list Z;
  rollback_topic : list Z;
  deposit_topic : list Z }.

(** [BRIDGE_INFO] of [executor.rs]. *)
Definition BRIDGE_INFO (n : network) : BridgeInfo := {|
  bridge_address := BRIDGE_ADDRESS n;
  withdrawal_topic := BRIDGE_WITHDRAWAL_TOPIC n;
  rollback_topic := BRIDGE_ROLLBACK_TOPIC n;
  deposit_topic := BRIDGE_DEPOSIT_TOPIC n |}.

Definition RECEIVE_EVENT_MESSAGE_HASH_OFFSET : nat := 0.
Definition SEND_EVENT_MESSAGE_HASH_OFFSET : nat := 160.
Definition LEGACY_SEND_EVENT_MESSAGE_HASH_OFFSET : nat := 128.
Definition ROLLBACK_EVENT_MESSAGE_HASH_OFFSET : nat := 0.

(** [receipts.iter().flat_map(|r| r.iter().filter(status).flat_map(logs))]. *)
Definition receipt_logs (receipts : Receipts) : list Log :=
  concat (map (fun block => concat (map logs (filter (fun r => status r = true) block))) receipts).

Definition find_receipt_log (receipts : Receipts) (address topic : list Z) : list LogData :=
  map log_data (filter (fun log =>
    log_address log = address /\ head (topics (log_data log)) = Some topic) (receipt_logs receipts)).

(** [data[off..off + 32].try_into().unwrap()]: panics on a short slice. *)
Definition hash_from (off : nat) (d : list Z) : outcome unit (list Z) := slice off (off + 32) d.

Section EventsHash.
Context `{Keccak} (net : network).

Definition calculate_deposit_hash (receipts : Receipts) (address topic : list Z)
  : outcome unit (list Z) :=
  let deposit_logs := find_receipt_log receipts address topic in
  hashes ← mapM (fun l => hash_from RECEIVE_EVENT_MESSAGE_HASH_OFFSET (data l))
    (filter (fun l => RECEIVE_EVENT_MESSAGE_HASH_OFFSET + 32 <= length (data l))%nat deposit_logs);
  Ok (keccak256 (concat hashes)).

(** One arm of the closure: the hash when the data is long enough. *)
Definition hash_if_long (off : nat) (d : list Z) : outcome unit (option (list Z)) :=
  if decide (off + 32 <= length d)%nat then h ← hash_from off d; Ok (Some h) else Ok None.

(** The [filter_map] closure of [calculate_withdrawal_root]. *)
Definition withdrawal_message (send rollback : list Z) (log : Log) : outcome unit (option (list Z)) :=
  match head (topics (log_data log)) with
  | None => Ok None
  | Some topic =>
      if decide (topic = send)
      then hash_if_long SEND_EVENT_MESSAGE_HASH_OFFSET (data (log_data log))
      else if decide (topic = LEGACY_BRIDGE_WITHDRAWAL_TOPIC net)
      then hash_if_long LEGACY_SEND_EVENT_MESSAGE_HASH_OFFSET (data (log_data log))
      else if decide (topic = rollback)
      then hash_if_long ROLLBACK_EVENT_MESSAGE_HASH_OFFSET (data (log_data log))
      else Ok None
  end.

(** The final [merkle_root] always has a value ([merkle_root_total]), so the
    [unwrap] below is only the fuel of its loop. *)
Definition calculate_withdrawal_root (receipts : Receipts) (address send rollback : list Z)
  : outcome unit (list Z) :=
  hashes ← mapM (withdrawal_message send rollback)
    (filter (fun log => log_address log = address) (receipt_logs receipts));
  unwrap (merkle_root (omap id hashes)).

Definition calculate_bridge_hashes (info : BridgeInfo) (receipts : Receipts)
  : outcome unit BridgeHashes :=
  w ← calculate_withdrawal_root receipts (bridge_address info) (withdrawal_topic info) (rollback_topic info);
  d ← calculate_deposit_hash receipts (bridge_address info) (deposit_topic info);
  Ok {| withdrawal_hash := w; deposit_hash := d |}.

(** ** The messages the hashes stand for *)

(** The message at an offset, when the data reaches that far. *)
Definition message_at (off : nat) (d : list Z) : option (list Z) :=
  if decide (off + 32 <= length d)%nat then Some (take 32 (drop off d)) else None.

(** Where the message hash of an event with this topic is. *)
Definition withdrawal_offset (send rollback topic : list Z) : option nat :=
  if decide (topic = send) then Some 160%nat
  else if decide (topic = LEGACY_BRIDGE_WITHDRAWAL_TOPIC net) then Some 128%nat
  else if decide (topic = rollback) then Some 0%nat else None.

(** The logs that count: emitted by the bridge in a successful transaction. *)
Definition bridge_logs (address : list Z) (receipts : Receipts) : list LogData :=
  map log_data (filter (fun log => log_address log = address) (receipt_logs receipts)).

Definition withdrawals (info : BridgeInfo) (receipts : Receipts) : list (list Z) :=
  omap (fun l =>
    topic ← head (topics l);
    off ← withdrawal_offset (withdrawal_topic info) (rollback_topic info) topic;
    message_at off (data l)) (bridge_logs (bridge_address info) receipts).

Definition deposits (info : BridgeInfo) (receipts : Receipts) : list (list Z) :=
  omap (fun l =>
    topic ← head (topics l);
    if decide (topic = deposit_topic info) then message_at 0 (data l) else None)
    (bridge_logs (bridge_address info) receipts).

Lemma hash_if_long_spec off d : hash_if_long off d = Ok (message_at off d).
Proof.
  unfold hash_if_long, message_at, hash_from, slice. case_decide as Hl; [|done].
  rewrite decide_True by lia. cbn [mbind outcome_bind].
  by replace (off + 32 - off)%nat with 32%nat by lia.
Qed.

Lemma withdrawal_message_spec send rollback log :
  withdrawal_message send rollback log =
  Ok (topic ← head (topics (log_data log));
      off ← withdrawal_offset send rollback topic; message_at off (data (log_data log))).
Proof.
  unfold withdrawal_message, withdrawal_offset.
  destruct (head (topics (log_data log))) as [topic|]; [|done]. cbn [mbind option_bind].
  repeat case_decide; rewrite ?hash_if_long_spec; done.
Qed.

Lemma mapM_pure {A B} (f : A -> outcome unit B) (g : A -> B) l :
  (forall x, f x = Ok (g x)) -> mapM f l = Ok (map g l).
Proof.
  intros Hf. apply mapM_Ok. induction l as [|x l IH]; cbn; constructor; auto.
Qed.

Lemma omap_id_map {A B} (f : A -> option B) l : omap id (map f l) = omap f l.
Proof. induction l as [|x l IH]; [done|]. cbn. rewrite <- IH. done. Qed.

Lemma omap_map {A B C} (f : A -> B) (g : B -> option C) l : omap g (map f l) = omap (fun x => g (f x)) l.
Proof. induction l as [|x l IH]; [done|]. cbn. rewrite <- IH. done. Qed.

Lemma withdrawal_root_spec info receipts :
  exists root, merkle_root (withdrawals info receipts) = Some root /\
    calculate_withdrawal_root receipts (bridge_address info) (withdrawal_topic info)
      (rollback_topic info) = Ok root.
Proof.
  destruct (merkle_root (withdrawals info receipts)) as [root|] eqn:E.
  - exists root. split; [done|]. unfold calculate_withdrawal_root.
    rewrite (mapM_pure _ _ _ (withdrawal_message_spec _ _)). cbn [mbind outcome_bind].
    rewrite omap_id_map, <- (omap_map log_data (fun l => topic ← head (topics l);
      off ← withdrawal_offset (withdrawal_topic info) (rollback_topic info) topic; message_at off (data l))).
    fold (bridge_logs (bridge_address info) receipts).
    fold (withdrawals info receipts). by rewrite E.
  - destruct (merkle_root_total (withdrawals info receipts)) as [root Hr]. congruence.
Qed.

Lemma deposit_hashes_list address topic (logs : list Log) :
  mapM (fun l => hash_from RECEIVE_EVENT_MESSAGE_HASH_OFFSET (data l))
    (filter (fun l => RECEIVE_EVENT_MESSAGE_HASH_OFFSET + 32 <= length (data l))%nat
      (map log_data (filter (fun log =>
        log_address log = address /\ head (topics (log_data log)) = Some topic) logs))) =
  Ok (omap (fun l => t ← head (topics l); if decide (t = topic) then message_at 0 (data l) else None)
    (map log_data (filter (fun log => log_address log = address) logs))).
Proof.
  induction logs as [|log logs IH]; [done|]. rewrite !filter_cons.
  destruct (decide (log_address log = address)) as [Ha|Ha].
  2:{ rewrite decide_False by tauto. done. }
  destruct (decide (head (topics (log_data log)) = Some topic)) as [Ht|Ht].
  - rewrite decide_True by done. cbn [map omap list_omap]. rewrite Ht. cbn [mbind option_bind].
    rewrite decide_True by done. rewrite filter_cons. unfold message_at.
    case_decide as Hl; [|rewrite decide_False by done; exact IH].
    rewrite decide_True by done. cbn [mapM]. rewrite IH. unfold hash_from, slice.
    rewrite decide_True by (unfold RECEIVE_EVENT_MESSAGE_HASH_OFFSET in *; lia). done.
  - rewrite decide_False by tauto. rewrite IH. cbn [map omap list_omap].
    destruct (head (topics (log_data log))) as [t|]; cbn [mbind option_bind]; [|done].
    rewrite decide_False by congruence. done.
Qed.

Lemma deposit_hash_spec info receipts :
  calculate_deposit_hash receipts (bridge_address info) (deposit_topic info) =
  Ok (keccak256 (concat (deposits info receipts))).
Proof.
  unfold calculate_deposit_hash, find_receipt_log. rewrite deposit_hashes_list. done.
Qed.

Lemma bridge_hashes_spec info receipts :
  exists root, merkle_root (withdrawals info receipts) = Some root /\
    calculate_bridge_hashes info receipts =
    Ok {| withdrawal_hash := root; deposit_hash := keccak256 (concat (deposits info receipts)) |}.
Proof.
  destruct (withdrawal_root_spec info receipts) as (root & Hr & E). exists root. split; [done|].
  unfold calculate_bridge_hashes. rewrite E. cbn [mbind outcome_bind].
  by rewrite deposit_hash_spec.
Qed.

Lemma message_at_32 off d m : message_at off d = Some m -> length m = 32%nat.
Proof.
  unfold message_at. case_decide; [|done]. intros [= <-]. rewrite length_take, length_drop. lia.
Qed.

Lemma withdrawals_32 info receipts : leaves32 (withdrawals info receipts).
Proof.
  apply Forall_forall. intros m Hm. apply list_elem_of_omap in Hm as (l & _ & E).
  destruct (head (topics l)); [|done]. cbn [mbind option_bind] in E.
  destruct (withdrawal_offset _ _ _); [|done]. by eapply message_at_32.
Qed.

Lemma deposits_32 info receipts : leaves32 (deposits info receipts).
Proof.
  apply Forall_forall. intros m Hm. apply list_elem_of_omap in Hm as (l & _ & E).
  destruct (head (topics l)); [|done]. cbn [mbind option_bind] in E.
  case_decide; [|done]. by eapply message_at_32.
Qed.

Lemma concat_32_inj l1 : forall l2, leaves32 l1 -> leaves32 l2 -> concat l1 = concat l2 -> l1 = l2.
Proof.
  unfold leaves32. induction l1 as [|a l1 IH]; intros [|b l2] H1 H2 E; [done| | |].
  - apply Forall_cons in H2 as [Hb _]. destruct b; done.
  - apply Forall_cons in H1 as [Ha _]. destruct a; done.
  - apply Forall_cons in H1 as [Ha H1]. apply Forall_cons in H2 as [Hb H2].
    cbn [concat] in E. apply app_inj_1 in E as [-> E]; [|congruence]. f_equal. by apply IH.
Qed.

(** The bridge hashes bind the bridge messages.  The computation never
    fails or panics; it depends only on the logs the bridge emitted in
    successful transactions; equal deposit hashes mean the same sequence of
    received messages, and equal withdrawal roots of as many messages the same
    sequence of sent and rolled back messages, when the byte strings hashed for
    the two do not collide under Keccak-256. *)
Theorem bridge_hashes_bind info r1 r2 :
  exists h1 h2,
    calculate_bridge_hashes info r1 = Ok h1 /\ calculate_bridge_hashes info r2 = Ok h2 /\
    (bridge_logs (bridge_address info) r1 = bridge_logs (bridge_address info) r2 -> h1 = h2) /\
    (coll_free [concat (deposits info r1); concat (deposits info r2)] -> deposit_hash h1 = deposit_hash h2 ->
       deposits info r1 = deposits info r2) /\
    (coll_free (merkle_inputs (withdrawals info r1) ++ merkle_inputs (withdrawals info r2)) ->
       withdrawal_hash h1 = withdrawal_hash h2 ->
       length (withdrawals info r1) = length (withdrawals info r2) ->
       withdrawals info r1 = withdrawals info r2).
Proof.
  destruct (bridge_hashes_spec info r1) as (w1 & Hw1 & E1).
  destruct (bridge_hashes_spec info r2) as (w2 & Hw2 & E2).
  eexists _, _. split; [exact E1|]. split; [exact E2|]. cbn [deposit_hash withdrawal_hash]. split_and!.
  - intros Hl. unfold withdrawals in Hw1, Hw2. unfold deposits. rewrite Hl in *. congruence.
  - intros HK Hd. apply concat_32_inj; [apply deposits_32..|].
    apply (coll_free_inj _ _ _ HK); [by left|by right; left|exact Hd].
  - intros HK -> Hl. destruct (decide (withdrawals info r1 = [])) as [Hn|Hn].
    + rewrite Hn in *. by destruct (withdrawals info r2).
    + apply (merkle_root_binds _ _ _ HK); [by apply sub_app_l|by apply sub_app_r|apply withdrawals_32..|done|congruence].
Qed.
End EventsHash.

Section Samples.
#[local] Existing Instance RefRlp.toy_keccak.

(** A block with a message sent, one of the legacy event, a reverted one and a
    received one. *)
Definition sample_info : BridgeInfo := BRIDGE_INFO mainnet.
Definition sample_log (topic : list Z) (d : list Z) : Log :=
  {| log_address := BRIDGE_ADDRESS mainnet; log_data := {| topics := [topic]; data := d |} |}.
Definition sample_receipts : Receipts :=
  [[{| status := true; logs := [sample_log (BRIDGE_WITHDRAWAL_TOPIC mainnet) (replicate 192 7);
                                sample_log (BRIDGE_DEPOSIT_TOPIC mainnet) (replicate 40 9)] |};
    {| status := false; logs := [sample_log (BRIDGE_ROLLBACK_TOPIC mainnet) (replicate 64 3)] |};
    {| status := true; logs := [sample_log (LEGACY_BRIDGE_WITHDRAWAL_TOPIC mainnet) (replicate 160 5);
                                sample_log (BRIDGE_WITHDRAWAL_TOPIC mainnet) (replicate 191 6)] |}]].

Example sample_withdrawals :
  withdrawals mainnet sample_info sample_receipts = [replicate 32 7; replicate 32 5].
Proof. by vm_compute. Qed.

Example sample_deposits : deposits sample_info sample_receipts = [replicate 32 9].
Proof. by vm_compute. Qed.
End Samples.
