(* ===== verification/BlobCodec.v ===== *)
(** * Chunks of a list and field elements of a blob

    [canonicalize] and [build_single_blob] ([crates/blob-builder/src/lib.rs])
    spread raw bytes over the 4096 field elements of an EIP-4844 blob, a zero
    byte in front of every 31 bytes; [decanonicalize] ([bin/client/src/blob.rs])
    is the verifier's inverse. *)
From S2P Require Import Prelude.

(** ** Splitting a list into chunks and writing into a buffer

    [slice::chunks] and [copy_from_slice] of the standard library, used by the
    blob format on both sides. *)

Fixpoint chunks_fuel {A} (fuel n : nat) (l : list A) : list (list A) :=
  match l, fuel with
  | [], _ => []
  | _, O => []
  | _, S fuel' => take n l :: chunks_fuel fuel' n (drop n l)
  end.

(** [l.chunks(n)]. *)
Definition chunks {A} (n : nat) (l : list A) : list (list A) := chunks_fuel (length l) n l.

(** [out[dst..dst + src.len()].copy_from_slice(src)]. *)
Definition copy_at (dst : nat) (src out : list Z) : outcome unit (list Z) :=
  if decide (dst + length src <= length out)%nat
  then Ok (take dst out ++ src ++ drop (dst + length src) out) else Panic.

Section Chunks.
Context {A : Type} (n : nat) (Hn : (0 < n)%nat).
Implicit Type l : list A.

Lemma chunks_fuel_enough f1 f2 l :
  (length l <= f1)%nat -> (length l <= f2)%nat -> chunks_fuel f1 n l = chunks_fuel f2 n l.
Proof using Hn.
  revert f2 l. induction f1 as [|f1 IH]; intros f2 [|x l] H1 H2; cbn [length] in *; try lia.
  - by destruct f2.
  - by destruct f2.
  - destruct f2 as [|f2]; [lia|]. cbn [chunks_fuel]. f_equal.
    apply IH; rewrite length_drop; cbn [length]; lia.
Qed.

Lemma chunks_cons l : l <> [] -> chunks n l = take n l :: chunks n (drop n l).
Proof using Hn.
  intros Hl. unfold chunks. destruct l as [|x l]; [done|]. cbn [length chunks_fuel]. f_equal.
  apply chunks_fuel_enough; rewrite length_drop; cbn [length]; lia.
Qed.

(** Induction chunk by chunk. *)
Lemma chunk_ind (P : list A -> Prop) :
  P [] -> (forall l, l <> [] -> P (drop n l) -> P l) -> forall l, P l.
Proof using Hn.
  intros Hnil Hstep l. remember (length l) as k eqn:Hk.
  revert l Hk. induction (lt_wf k) as [k _ IH]. intros l ->.
  destruct (decide (l = [])) as [->|Hl]; [done|]. apply Hstep; [done|].
  eapply IH; [|done]. destruct l; [done|]. rewrite length_drop. cbn [length]. lia.
Qed.

Lemma concat_chunks l : concat (chunks n l) = l.
Proof using Hn.
  induction l as [|l Hl IH] using chunk_ind; [done|]. rewrite chunks_cons by done.
  cbn [concat]. rewrite IH. apply take_drop.
Qed.

Lemma chunks_length l : Forall (fun c => 0 < length c <= n)%nat (chunks n l).
Proof using Hn.
  induction l as [|l Hl IH] using chunk_ind; [constructor|]. rewrite chunks_cons by done.
  apply Forall_cons. split; [|done]. rewrite length_take. destruct l; [done|]. cbn [length]. lia.
Qed.

(** The number of chunks is the length over [n], rounded up. *)
Lemma length_chunks l : length (chunks n l) = ((length l + (n - 1)) / n)%nat.
Proof using Hn.
  induction l as [|l Hl IH] using chunk_ind.
  - cbn [length]. rewrite Nat.div_small by lia. done.
  - rewrite chunks_cons by done. cbn [length]. rewrite IH, length_drop.
    assert (0 < length l)%nat by (destruct l; [done|cbn; lia]).
    destruct (decide (length l <= n)%nat).
    + rewrite (Nat.div_small (length l - n + (n - 1))) by lia.
      replace (length l + (n - 1))%nat with (length l - 1 + 1 * n)%nat by lia.
      rewrite Nat.div_add, Nat.div_small by lia. done.
    + replace (length l + (n - 1))%nat with (length l - n + (n - 1) + 1 * n)%nat by lia.
      rewrite Nat.div_add by lia. lia.
Qed.

Lemma chunks_app l1 l2 : length l1 = n -> chunks n (l1 ++ l2) = l1 :: chunks n l2.
Proof using Hn.
  intros Hl. rewrite chunks_cons by (destruct l1; [cbn in Hl; lia|done]).
  by rewrite take_app_length', drop_app_length'.
Qed.
End Chunks.

Lemma copy_at_Ok dst src a b :
  length a = dst -> (length src <= length b)%nat ->
  copy_at dst src (a ++ b) = Ok (a ++ src ++ drop (length src) b).
Proof.
  intros <- Hs. unfold copy_at. rewrite decide_True by (rewrite length_app; lia).
  rewrite take_app_length. do 2 f_equal. rewrite <- drop_drop, drop_app_length. done.
Qed.

Definition BYTES_PER_BLOB : nat := Z.to_nat 131072.
Definition BYTES_PER_FIELD_ELEMENT : nat := 31.
Definition FIELD_ELEMENTS_PER_BLOB : nat := Z.to_nat (131072 / 32).
Definition MAX_RAW_BYTES_PER_BLOB : nat := Z.to_nat (131072 / 32 * 31).

(** The [String] errors of [blob.rs], one constructor per message. *)
Inductive blob_error :=
  | NotMultipleOf32 (len : nat)
  | NonCanonical (offset : nat)
  | NoBlobs
  | EmptyRawStream
  | UnsupportedVersion (b : Z)
  | BrotliFailed
  | OuterDecodeFailed
  | PayloadNotList
  | OuterExceedsPayload
  | TrailingBytes
  | BlockDecodeFailed
  | BlockNotList
  | BlockExceedsPayload
  | HeaderDecodeFailed
  | HeaderNotList
  | HeaderExceedsBlock
  | CapacityExceeded (len : nat)
  | CompressFailed.

#[export] Instance blob_error_eq_dec : EqDecision blob_error.
Proof. solve_decision. Defined.

(** ** Writing *)

(** The loop of [canonicalize]; every iteration consumes at least one byte, so
    [length raw] iterations are enough. *)
Fixpoint canonicalize_loop (fuel : nat) (raw out : list Z) (src_off dst_off : nat)
  : outcome unit (list Z) :=
  if decide (src_off < length raw)%nat then
    match fuel with
    | O => Panic
    | S fuel' =>
        let dst_off := (dst_off + 1)%nat in
        let take_ := Nat.min BYTES_PER_FIELD_ELEMENT (length raw - src_off) in
        out ← copy_at dst_off (take take_ (drop src_off raw)) out;
        canonicalize_loop fuel' raw out (src_off + take_) (dst_off + BYTES_PER_FIELD_ELEMENT)
    end
  else Ok out.

Definition canonicalize (raw : list Z) : outcome unit (list Z) :=
  canonicalize_loop (length raw) raw (replicate BYTES_PER_BLOB 0) 0 0.

(** [build_single_blob]. *)
Definition build_single_blob (raw : list Z) : outcome blob_error (list Z) :=
  if decide (MAX_RAW_BYTES_PER_BLOB < length raw)%nat then Err (CapacityExceeded (length raw))
  else map_err (fun _ => CapacityExceeded (length raw)) (canonicalize raw).

(** ** Reading *)

(** The loop of [decanonicalize]; the offset grows by 32. *)
Fixpoint decanonicalize_loop (fuel : nat) (blob : list Z) (offset : nat) (result : list Z)
  : outcome blob_error (list Z) :=
  if decide (offset < length blob /\ length result < MAX_RAW_BYTES_PER_BLOB)%nat then
    match fuel with
    | O => Panic
    | S fuel' =>
        b ← unwrap (blob !! offset);
        if negb (b =? 0) then Err (NonCanonical offset)
        else
          let offset := (offset + 1)%nat in
          let remaining := (MAX_RAW_BYTES_PER_BLOB - length result)%nat in
          let take_ := Nat.min (Nat.min remaining BYTES_PER_FIELD_ELEMENT) (length blob - offset) in
          let result := result ++ take take_ (drop offset blob) in
          decanonicalize_loop fuel' blob (offset + BYTES_PER_FIELD_ELEMENT) result
    end
  else Ok result.

Definition decanonicalize (blob : list Z) : outcome blob_error (list Z) :=
  if negb (length blob mod 32 =? 0)%nat then Err (NotMultipleOf32 (length blob))
  else decanonicalize_loop (length blob) blob 0 [].

(** ** What [canonicalize] writes *)

(** A field element: a zero byte and the chunk, padded. *)
Definition field (c : list Z) : list Z := 0 :: c ++ replicate (31 - length c) 0.
Definition fields (raw : list Z) : list Z := concat (map field (chunks 31 raw)).

Lemma length_field c : (length c <= 31)%nat -> length (field c) = 32%nat.
Proof. intros Hc. unfold field. cbn [length]. rewrite length_app, length_replicate. lia. Qed.

Lemma fields_cons raw : raw <> [] -> fields raw = field (take 31 raw) ++ fields (drop 31 raw).
Proof. intros Hr. unfold fields. by rewrite chunks_cons by (done || lia). Qed.

Lemma length_fields raw : length (fields raw) = (32 * ((length raw + 30) / 31))%nat.
Proof.
  rewrite <- (length_chunks 31 ltac:(lia) raw : _ = ((length raw + 30) / 31)%nat). unfold fields.
  pose proof (chunks_length 31 ltac:(lia) raw) as Hc.
  induction Hc as [|c cs [_ Hc] _ IH]; [cbn; lia|]. cbn [map concat length].
  rewrite length_app, length_field, IH by done. lia.
Qed.

Lemma field_as_write c m :
  (length c <= 31)%nat -> (32 <= m)%nat ->
  0 :: c ++ drop (length c) (replicate (m - 1) 0) = field c ++ replicate (m - 32) 0.
Proof.
  intros Hc Hm. unfold field. cbn [app]. rewrite <- app_assoc, <- replicate_add, drop_replicate.
  do 3 f_equal. lia.
Qed.

(** One iteration on a buffer whose written part is [p]. *)
Lemma canonicalize_step raw p m :
  raw <> [] -> (32 <= m)%nat ->
  copy_at (length p + 1) (take (Nat.min 31 (length raw)) raw) (p ++ replicate m 0) =
  Ok ((p ++ field (take 31 raw)) ++ replicate (m - 32) 0).
Proof.
  intros Hr Hm. replace m with (S (m - 1)) at 1 by lia. cbn [replicate].
  change (p ++ 0 :: replicate (m - 1) 0) with (p ++ [0] ++ replicate (m - 1) 0). rewrite app_assoc.
  assert (Ht : take (Nat.min 31 (length raw)) raw = take 31 raw).
  { apply list_eq. intros i.
    destruct (decide (i < Nat.min 31 (length raw))%nat).
    - rewrite !lookup_take_lt by lia. done.
    - rewrite lookup_take_ge by lia. destruct (decide (i < 31)%nat).
      + rewrite lookup_take_lt by lia. symmetry. apply lookup_ge_None. lia.
      + by rewrite lookup_take_ge by lia. }
  rewrite Ht. pose proof (length_take raw 31) as Hl.
  rewrite copy_at_Ok; [|rewrite length_app; done|rewrite length_replicate; lia].
  rewrite <- !app_assoc. do 2 f_equal. apply field_as_write; lia.
Qed.

Lemma canonicalize_loop_spec fuel : forall raw src p m,
  (length raw - src <= fuel)%nat ->
  (32 * ((length (drop src raw) + 30) / 31) <= m)%nat ->
  canonicalize_loop fuel raw (p ++ replicate m 0) src (length p) =
  Ok (p ++ fields (drop src raw) ++ replicate (m - length (fields (drop src raw))) 0).
Proof.
  induction fuel as [|fuel IH]; intros raw src p m Hf Hm; cbn [canonicalize_loop].
  - rewrite decide_False by lia. rewrite drop_ge by lia. cbn. by rewrite Nat.sub_0_r.
  - case_decide as Hs.
    2:{ rewrite drop_ge by lia. cbn. by rewrite Nat.sub_0_r. }
    assert (Hne : drop src raw <> []) by (intros E%(f_equal length); rewrite length_drop in E; cbn in E; lia).
    assert (Hl : (0 < length (drop src raw))%nat) by (rewrite length_drop; lia).
    assert (H32 : (32 <= m)%nat).
    { replace (length (drop src raw) + 30)%nat with (length (drop src raw) - 1 + 1 * 31)%nat in Hm by lia.
      rewrite Nat.div_add in Hm by lia. lia. }
    unfold BYTES_PER_FIELD_ELEMENT. rewrite <- (length_drop raw src), canonicalize_step by done.
    cbn [mbind outcome_bind].
    replace (length p + 1 + 31)%nat with (length (p ++ field (take 31 (drop src raw)))).
    2:{ rewrite length_app, length_field by (rewrite length_take; lia). lia. }
    rewrite fields_cons by done. pose proof (length_drop raw src) as Hld.
    remember (Nat.min 31 (length (drop src raw))) as k eqn:Hk.
    assert (Hd : drop (src + k) raw = drop 31 (drop src raw)).
    { destruct (decide (31 <= length (drop src raw))%nat).
      - rewrite drop_drop. f_equal. lia.
      - rewrite (drop_ge (drop src raw)) by lia. rewrite drop_ge; [done|].
        lia. }
    rewrite IH, Hd; [|lia|].
    + assert (E : length (field (take 31 (drop src raw))) = 32%nat)
        by (apply length_field; rewrite length_take; lia).
      rewrite length_app, E, <- !app_assoc, Nat.sub_add_distr. done.
    + rewrite Hd, length_drop. etransitivity; [|apply Nat.sub_le_mono_r, Hm].
      destruct (decide (31 <= length (drop src raw))%nat) as [Hge|].
      * replace (length (drop src raw) + 30)%nat with (length (drop src raw) - 31 + 30 + 1 * 31)%nat by lia.
        rewrite Nat.div_add by lia. lia.
      * replace (length (drop src raw) - 31)%nat with 0%nat by lia. cbn. lia.
Qed.

Lemma capacity_blocks n :
  (n <= MAX_RAW_BYTES_PER_BLOB)%nat -> (32 * ((n + 30) / 31) <= BYTES_PER_BLOB)%nat.
Proof.
  unfold MAX_RAW_BYTES_PER_BLOB, BYTES_PER_BLOB. intros Hn.
  assert (Z.of_nat ((n + 30) / 31) <= 4096).
  { rewrite Nat2Z.inj_div. change (131072 / 32 * 31) with 126976 in Hn.
    apply Z.lt_succ_r, Z.div_lt_upper_bound; lia. }
  lia.
Qed.

Lemma canonicalize_loop_fresh raw m :
  (32 * ((length raw + 30) / 31) <= m)%nat ->
  canonicalize_loop (length raw) raw (replicate m 0) 0 0 =
  Ok (fields raw ++ replicate (m - length (fields raw)) 0).
Proof.
  intros Hm. pose proof (canonicalize_loop_spec (length raw) raw 0 [] m) as E.
  cbn [app drop length] in E. apply E; [lia|exact Hm].
Qed.

Lemma canonicalize_spec raw :
  (length raw <= MAX_RAW_BYTES_PER_BLOB)%nat ->
  canonicalize raw = Ok (fields raw ++ replicate (BYTES_PER_BLOB - length (fields raw)) 0).
Proof. intros Hr. exact (canonicalize_loop_fresh raw BYTES_PER_BLOB (capacity_blocks _ Hr)). Qed.

(** Only the facts above are used of the sizes. *)
#[global] Opaque MAX_RAW_BYTES_PER_BLOB BYTES_PER_BLOB.

(** ** What [decanonicalize] reads *)

(** All field elements canonical: the payloads, up to the blob's capacity. *)
Lemma decanonicalize_loop_fields cs : forall fuel p result,
  (length p + 32 * length cs <= fuel + length p)%nat ->
  Forall (fun c => length c = 31%nat) cs ->
  (length result + 31 * length cs <= MAX_RAW_BYTES_PER_BLOB)%nat ->
  decanonicalize_loop fuel (p ++ concat (map (cons 0) cs)) (length p) result =
  Ok (result ++ concat cs).
Proof.
  induction cs as [|c cs IH]; intros fuel p result Hf Hc Hr.
  - cbn [map concat]. rewrite !app_nil_r. destruct fuel; cbn [decanonicalize_loop].
    + by rewrite decide_False by lia.
    + by rewrite decide_False by lia.
  - apply Forall_cons in Hc as [Hc Hcs]. cbn [length] in *. destruct fuel as [|fuel]; [lia|].
    cbn [decanonicalize_loop map concat]. rewrite decide_True by (rewrite !length_app; cbn [length]; lia).
    rewrite lookup_app_r, Nat.sub_diag by lia. cbn [app lookup list_lookup unwrap mbind outcome_bind].
    change (negb (0 =? 0)) with false. cbv iota.
    replace (p ++ 0 :: c ++ concat (map (cons 0) cs)) with ((p ++ 0 :: c) ++ concat (map (cons 0) cs))
      by (by rewrite <- app_assoc).
    unfold BYTES_PER_FIELD_ELEMENT.
    replace (Nat.min (Nat.min (MAX_RAW_BYTES_PER_BLOB - length result) 31) _) with 31%nat.
    2:{ rewrite !length_app. cbn [length]. lia. }
    replace (length p + 1 + 31)%nat with (length (p ++ 0 :: c))
      by (rewrite length_app; cbn [length]; lia).
    assert (Hd : take 31 (drop (length p + 1) ((p ++ 0 :: c) ++ concat (map (cons 0) cs))) = c).
    { rewrite <- app_assoc, <- drop_drop, drop_app_length. cbn [app drop]. by apply take_app_length'. }
    rewrite Hd, IH by (rewrite ?length_app; cbn [length]; (done || lia)). by rewrite app_assoc.
Qed.

(** Conversely, on a full blob a successful run has read canonical field
    elements only. *)
Lemma decanonicalize_loop_inv j : forall fuel p r result out,
  length r = (32 * j)%nat -> (length result + 31 * j = MAX_RAW_BYTES_PER_BLOB)%nat ->
  decanonicalize_loop fuel (p ++ r) (length p) result = Ok out ->
  exists cs, Forall (fun c => length c = 31%nat) cs /\ r = concat (map (cons 0) cs) /\
    out = result ++ concat cs.
Proof.
  induction j as [|j IH]; intros fuel p r result out Hr Hm E.
  - destruct r; [|cbn in Hr; lia]. rewrite app_nil_r in E.
    exists []. cbn. rewrite app_nil_r. split_and!; [constructor|done|].
    destruct fuel; cbn [decanonicalize_loop] in E; rewrite decide_False in E by lia; by injection E.
  - destruct fuel as [|fuel]; cbn [decanonicalize_loop] in E;
      rewrite decide_True in E by (rewrite length_app; lia); [done|].
    destruct r as [|b r]; [cbn in Hr; lia|]. cbn [length] in Hr.
    rewrite lookup_app_r, Nat.sub_diag in E by lia. cbn [app lookup list_lookup unwrap mbind outcome_bind] in E.
    destruct (b =? 0) eqn:Eb; cbn [negb] in E; [|done]. apply Z.eqb_eq in Eb as ->.
    unfold BYTES_PER_FIELD_ELEMENT in E.
    replace (Nat.min (Nat.min (MAX_RAW_BYTES_PER_BLOB - length result) 31) _) with 31%nat in E
      by (rewrite length_app; cbn [length]; lia).
    rewrite <- drop_drop, drop_app_length in E. cbn [drop] in E. rewrite drop_0 in E.
    assert (Ht : length (take 31 r) = 31%nat) by (rewrite length_take; lia).
    replace (p ++ 0 :: r) with ((p ++ 0 :: take 31 r) ++ drop 31 r) in E
      by (rewrite <- app_assoc; cbn [app]; by rewrite take_drop).
    replace (length p + 1 + 31)%nat with (length (p ++ 0 :: take 31 r)) in E
      by (rewrite length_app; cbn [length]; lia).
    apply IH in E as (cs & Hcs & Hd & ->);
      [|rewrite length_drop; lia|rewrite length_app; lia].
    exists (take 31 r :: cs). split_and!; [by apply Forall_cons| |by rewrite <- app_assoc].
    cbn [map concat app]. by rewrite <- Hd, take_drop.
Qed.

Lemma fields_concat cs :
  Forall (fun c => length c = 31%nat) cs -> fields (concat cs) = concat (map (cons 0) cs).
Proof.
  intros Hcs. unfold fields. induction Hcs as [|c cs Hc _ IH]; [done|]. cbn [concat map].
  rewrite chunks_app by lia. cbn [map concat]. rewrite IH. f_equal.
  unfold field. by rewrite Hc, app_nil_r.
Qed.

Lemma full_chunks k : forall raw : list Z,
  length raw = (31 * k)%nat ->
  exists cs, Forall (fun c => length c = 31%nat) cs /\ raw = concat cs /\ length cs = k.
Proof.
  induction k as [|k IH]; intros raw Hr.
  - exists []. destruct raw; [done|cbn in Hr; lia].
  - destruct (IH (drop 31 raw)) as (cs & Hcs & Hd & Hk); [rewrite length_drop; lia|].
    exists (take 31 raw :: cs). split_and!; [|by cbn [concat]; rewrite <- Hd, take_drop|cbn; lia].
    apply Forall_cons. split; [rewrite length_take; lia|done].
Qed.

(** Padding the raw bytes or the field elements is the same. *)
Lemma fields_pad k : forall raw,
  (length raw <= 31 * k)%nat ->
  fields raw ++ replicate (32 * k - length (fields raw)) 0 =
  fields (raw ++ replicate (31 * k - length raw) 0).
Proof.
  induction k as [|k IH]; intros raw Hr.
  { destruct raw; [done|cbn in Hr; lia]. }
  destruct (decide (raw = [])) as [->|Hne].
  - change (fields []) with (@nil Z). cbn [app length]. rewrite !Nat.sub_0_r.
    specialize (IH []). change (fields []) with (@nil Z) in IH. cbn [app length] in IH.
    rewrite !Nat.sub_0_r in IH.
    replace (31 * S k)%nat with (31 + 31 * k)%nat by lia. rewrite replicate_add.
    rewrite (fields_cons (replicate 31 0 ++ _)) by done.
    rewrite take_app_length', drop_app_length', <- IH by (done || lia).
    replace (32 * S k)%nat with (32 + 32 * k)%nat by lia. by rewrite replicate_add.
  - rewrite (fields_cons raw) by done. rewrite (fields_cons (raw ++ _)) by (by destruct raw).
    assert (Hf : length (field (take 31 raw)) = 32%nat)
      by (apply length_field; rewrite length_take; lia).
    rewrite length_app, Hf, <- app_assoc.
    replace (32 * S k - (32 + length (fields (drop 31 raw))))%nat
      with (32 * k - length (fields (drop 31 raw)))%nat by lia.
    rewrite IH by (rewrite length_drop; lia). rewrite length_drop.
    destruct (decide (31 <= length raw)%nat) as [Hge|Hlt].
    + rewrite take_app_le, drop_app_le by done. do 4 f_equal. lia.
    + rewrite (drop_ge raw), (take_ge raw), take_app_ge, drop_app_ge by lia. cbn [app].
      rewrite take_replicate, drop_replicate. f_equal; [|do 2 f_equal; lia].
      unfold field. cbn [app]. f_equal. rewrite <- app_assoc, length_app, length_replicate. f_equal.
      rewrite <- replicate_add. f_equal. lia.
Qed.

#[global] Transparent MAX_RAW_BYTES_PER_BLOB BYTES_PER_BLOB.
(** The capacity in field elements. *)
Lemma sizes : exists n, MAX_RAW_BYTES_PER_BLOB = (31 * n)%nat /\ BYTES_PER_BLOB = (32 * n)%nat.
Proof.
  exists (Z.to_nat 4096).
  unfold MAX_RAW_BYTES_PER_BLOB, BYTES_PER_BLOB. change (131072 / 32 * 31) with 126976. split; lia.
Qed.

Lemma capacity_pos : (0 < MAX_RAW_BYTES_PER_BLOB)%nat.
Proof. unfold MAX_RAW_BYTES_PER_BLOB. change (131072 / 32 * 31) with 126976. lia. Qed.
#[global] Opaque MAX_RAW_BYTES_PER_BLOB BYTES_PER_BLOB.

Lemma decanonicalize_full n cs :
  MAX_RAW_BYTES_PER_BLOB = (31 * n)%nat -> length cs = n ->
  Forall (fun c => length c = 31%nat) cs ->
  decanonicalize (concat (map (cons 0) cs)) = Ok (concat cs).
Proof.
  intros Hm Hn Hcs.
  assert (Hl : length (concat (map (cons 0) cs)) = (32 * n)%nat).
  { subst n. clear Hm. induction Hcs as [|c cs Hc _ IH]; [done|]. cbn [map concat].
    rewrite length_app, IH. cbn [length]. lia. }
  unfold decanonicalize. rewrite Hl, Nat.mul_comm, Nat.Div0.mod_mul. cbn [Nat.eqb negb].
  rewrite Nat.mul_comm. apply (decanonicalize_loop_fields cs (32 * n) [] []); cbn [length]; [lia|done|lia].
Qed.

Lemma decanonicalize_canonicalize raw :
  (length raw <= MAX_RAW_BYTES_PER_BLOB)%nat ->
  exists blob, canonicalize raw = Ok blob /\ length blob = BYTES_PER_BLOB /\
    decanonicalize blob = Ok (raw ++ replicate (MAX_RAW_BYTES_PER_BLOB - length raw) 0).
Proof.
  intros Hr. rewrite canonicalize_spec by done. eexists. split; [done|].
  pose proof (capacity_blocks _ Hr) as Hc. destruct sizes as (n & Hm & Hb). split.
  - rewrite length_app, length_replicate, length_fields. lia.
  - rewrite Hb, fields_pad by lia. rewrite <- Hm.
    destruct (full_chunks n (raw ++ replicate (MAX_RAW_BYTES_PER_BLOB - length raw) 0))
      as (cs & Hcs & -> & Hk); [rewrite length_app, length_replicate; lia|].
    rewrite fields_concat by done. by apply (decanonicalize_full n).
Qed.

Lemma canonical_blobs_ok raw :
  ((length raw <= MAX_RAW_BYTES_PER_BLOB)%nat ->
     exists blob, build_single_blob raw = Ok blob /\ length blob = BYTES_PER_BLOB /\
       decanonicalize blob = Ok (raw ++ replicate (MAX_RAW_BYTES_PER_BLOB - length raw) 0)) /\
  ((MAX_RAW_BYTES_PER_BLOB < length raw)%nat ->
     build_single_blob raw = Err (CapacityExceeded (length raw))) /\
  (forall blob, length blob = BYTES_PER_BLOB ->
     (decanonicalize blob = Ok raw <->
      length raw = MAX_RAW_BYTES_PER_BLOB /\ canonicalize raw = Ok blob)).
Proof.
  split_and!.
  - intros Hr. destruct (decanonicalize_canonicalize raw Hr) as (blob & E & H2). exists blob.
    unfold build_single_blob. rewrite decide_False by lia. by rewrite E.
  - intros Hr. unfold build_single_blob. by rewrite decide_True.
  - intros blob Hblob. destruct sizes as (n & Hm & Hb). split.
    + unfold decanonicalize. rewrite Hblob, Hb, (Nat.mul_comm 32), Nat.Div0.mod_mul. cbn [Nat.eqb negb].
      intros E. apply (decanonicalize_loop_inv n _ [] blob []) in E as (cs & Hcs & -> & ->);
        [|lia|cbn; lia].
      assert (Hl : forall cs : list (list Z), Forall (fun c => length c = 31%nat) cs ->
        length (concat (map (cons 0) cs)) = (32 * length cs)%nat /\
        length (concat cs) = (31 * length cs)%nat).
      { intros l Hlf. induction Hlf as [|c l Hc _ IH]; [done|]. cbn [map concat length].
        rewrite !length_app. cbn [length]. lia. }
      destruct (Hl cs Hcs) as [Hl1 Hl2]. cbn [app]. split; [lia|].
      rewrite canonicalize_spec, fields_concat by (done || lia).
      rewrite Hblob, Nat.sub_diag. cbn [replicate]. by rewrite app_nil_r.
    + intros [Hr E]. destruct (decanonicalize_canonicalize raw) as (blob' & E' & _ & D); [lia|].
      rewrite E in E'. injection E' as <-. rewrite D, Hr, Nat.sub_diag. cbn [replicate].
      by rewrite app_nil_r.
Qed.

(** Blobs and raw bytes are in bijection.  Raw bytes that fit are written
    to a blob of exactly 131072 bytes which reads back as the same bytes padded
    with zeros; larger data is refused; and a 131072-byte blob reads as [raw]
    exactly when it is what [canonicalize] writes for a full-length [raw], so a
    verifier accepts no second encoding of the same data. *)
Theorem canonical_blobs raw :
  ((length raw <= MAX_RAW_BYTES_PER_BLOB)%nat ->
     exists blob, build_single_blob raw = Ok blob /\ length blob = BYTES_PER_BLOB /\
       decanonicalize blob = Ok (raw ++ replicate (MAX_RAW_BYTES_PER_BLOB - length raw) 0)) /\
  ((MAX_RAW_BYTES_PER_BLOB < length raw)%nat ->
     build_single_blob raw = Err (CapacityExceeded (length raw))) /\
  (forall blob, length blob = BYTES_PER_BLOB ->
     (decanonicalize blob = Ok raw <->
      length raw = MAX_RAW_BYTES_PER_BLOB /\ canonicalize raw = Ok blob)).
Proof. exact (canonical_blobs_ok raw). Qed.
