(* ===== verification/BlobPayload.v ===== *)
(** * The blob payload

    [crates/blob-builder/src/lib.rs] turns the blocks of a batch into blobs:
    RLP, brotli, a version byte and field elements.  [bin/client/src/blob.rs]
    reads them back and streams one block hash per block to the verifiers. *)
From S2P Require Import Prelude BytesCodec Rlp BlobCodec.

(** The two brotli libraries ([brotlic] on the builder's side, [brotli] on the
    verifier's).  The decompressor stops at the end of the stream, so the zeros
    that fill the last blob are not read. *)
Class Brotli := {
  brotli_compress : list Z -> option (list Z);
  brotli_decompress : list Z -> option (list Z) }.

Class BrotliLaws `{Brotli} : Prop := {
  brotli_round_trip d c n :
    brotli_compress d = Some c -> brotli_decompress (c ++ replicate n 0) = Some d }.

Definition BLOB_FORMAT_VERSION : Z := 1.
Definition FETCH_BATCH_SIZE : Z := 100.

Record FetchedBlock := { header_rlp : list Z; tx_envelopes : list (list Z) }.

Section Builder.
Context `{AlloyRlp, Brotli}.

(** [fetch_blocks]: [get] is the RPC fetch of one block together with its
    conversion; a failure of any block of a round fails the whole fetch.  The
    rounds are concurrent but their results are sorted by number. *)
Fixpoint fetch_loop {E} (get : Z -> outcome E FetchedBlock) (fuel : nat) (current to_block : Z)
    (result : list FetchedBlock) : outcome E (list FetchedBlock) :=
  if decide (current <= to_block) then
    match fuel with
    | O => Panic
    | S fuel' =>
        let batch_end := Z.min (u64 (current + FETCH_BATCH_SIZE - 1)) to_block in
        batch ← mapM get (range_incl current batch_end);
        fetch_loop get fuel' (u64 (batch_end + 1)) to_block (result ++ batch)
    end
  else Ok result.

(** [to_block - from_block + 1] underflows when the range is reversed, and
    [Vec::with_capacity] of the result aborts. *)
Definition fetch_blocks {E} (get : Z -> outcome E FetchedBlock) (from_block to_block : Z)
  : outcome E (list FetchedBlock) :=
  if decide (to_block - from_block + 1 < 0) then Panic
  else fetch_loop get (Z.to_nat (to_block - from_block + 1)) from_block to_block [].

Definition txs_payload_len (block : FetchedBlock) : nat :=
  sum_list (map string_length (tx_envelopes block)).
Definition txs_list_len (block : FetchedBlock) : nat :=
  length_of_length (txs_payload_len block) + txs_payload_len block.
Definition block_payload_len (block : FetchedBlock) : nat :=
  length (header_rlp block) + txs_list_len block.
Definition block_total_len (block : FetchedBlock) : nat :=
  length_of_length (block_payload_len block) + block_payload_len block.

(** The body of the second loop of [encode_batch_payload]. *)
Definition encode_block (out : list Z) (block : FetchedBlock) : list Z :=
  let out := out ++ header_encode true (block_payload_len block) in
  let out := out ++ header_rlp block in
  let out := out ++ header_encode true (txs_payload_len block) in
  foldl (fun out tx => out ++ string_encode tx) out (tx_envelopes block).

Definition encode_batch_payload (blocks : list FetchedBlock) : list Z :=
  let outer_payload_len := foldl (fun n block => n + block_total_len block)%nat 0%nat blocks in
  foldl encode_block (header_encode true outer_payload_len) blocks.

(** [build_blobs_from_l2] after the fetch. *)
Definition build_blobs (blocks : list FetchedBlock) : outcome blob_error (list (list Z)) :=
  let rlp_payload := encode_batch_payload blocks in
  match brotli_compress rlp_payload with
  | None => Err CompressFailed
  | Some compressed =>
      let stream := BLOB_FORMAT_VERSION :: compressed in
      mapM build_single_blob (chunks MAX_RAW_BYTES_PER_BLOB stream)
  end.
End Builder.

(** ** Reading *)
Section Reader.
Context `{Keccak, AlloyRlp, Brotli}.

Definition decode_blob_payload (blobs : list (list Z)) : outcome blob_error (list Z) :=
  match blobs with
  | [] => Err NoBlobs
  | _ =>
      raws ← mapM decanonicalize blobs;
      match concat raws with
      | [] => Err EmptyRawStream
      | v :: rest =>
          if negb (v =? BLOB_FORMAT_VERSION) then Err (UnsupportedVersion v)
          else match brotli_decompress rest with
               | Some d => Ok d
               | None => Err BrotliFailed
               end
      end
  end.

Record BlockIter := {
  cursor : list Z;
  initialized : bool;
  remaining : nat;
  done_ : bool }.

Definition iter_blocks (payload : list Z) : BlockIter :=
  {| cursor := payload; initialized := false; remaining := 0; done_ := false |}.

(** An iteration step: the new iterator and the item. *)
Definition step_result : Type := BlockIter * option (outcome blob_error (list Z)).

(** [self.done = true; return Some(Err(e))]. *)
Definition fail_iter (it : BlockIter) (e : blob_error) : step_result :=
  ({| cursor := cursor it; initialized := initialized it; remaining := remaining it; done_ := true |},
   Some (Err e)).

(** [next] from "Each block" on: the outer list has been opened.  Slices out of
    range would panic. *)
Definition next_block (it : BlockIter) : step_result :=
  if (remaining it =? 0)%nat then (it, None)
  else
    let block_start := cursor it in
    match header_decode block_start with
    | None => fail_iter it BlockDecodeFailed
    | Some (is_list, block_payload, peek) =>
        if negb is_list then fail_iter it BlockNotList
        else
          let block_header_len := (length block_start - length peek)%nat in
          let block_total := (block_header_len + block_payload)%nat in
          if decide (remaining it < block_total)%nat then fail_iter it BlockExceedsPayload
          else
            match @slice unit block_header_len (block_header_len + block_payload) block_start with
            | Ok inner =>
                match header_decode inner with
                | None => fail_iter it HeaderDecodeFailed
                | Some (header_list, header_payload, inner_peek) =>
                    if negb header_list then fail_iter it HeaderNotList
                    else
                      let header_prefix_len := (length inner - length inner_peek)%nat in
                      let header_total := (header_prefix_len + header_payload)%nat in
                      if decide (length inner < header_total)%nat then fail_iter it HeaderExceedsBlock
                      else
                        let header_bytes := take header_total inner in
                        ({| cursor := drop block_total block_start;
                            initialized := initialized it;
                            remaining := (remaining it - block_total)%nat;
                            done_ := done_ it |},
                         Some (Ok (keccak256 header_bytes)))
                end
            | _ => (it, Some Panic)
            end
    end.

(** The first call: [self.initialized = true] and the outer list. *)
Definition open_list (it : BlockIter) : step_result :=
  let it := {| cursor := cursor it; initialized := true; remaining := remaining it; done_ := done_ it |} in
  match cursor it with
  | [] => (it, None)
  | start =>
      match header_decode start with
      | None => fail_iter it OuterDecodeFailed
      | Some (is_list, payload_length, peek) =>
          if negb is_list then fail_iter it PayloadNotList
          else
            let header_len := (length start - length peek)%nat in
            let total := (header_len + payload_length)%nat in
            if decide (length start < total)%nat then fail_iter it OuterExceedsPayload
            else if decide (total < length start)%nat then fail_iter it TrailingBytes
            else next_block {| cursor := peek; initialized := true; remaining := payload_length;
                               done_ := done_ it |}
      end
  end.

(** [<BlockIter as Iterator>::next]. *)
Definition next (it : BlockIter) : step_result :=
  if done_ it then (it, None)
  else if initialized it then next_block it else open_list it.

(** Everything the iterator yields, in order, with a bound on the number of
    calls. *)
Fixpoint collect (fuel : nat) (it : BlockIter) : option (list (outcome blob_error (list Z))) :=
  match fuel with
  | O => None
  | S fuel' =>
      match next it with
      | (_, None) => Some []
      | (it', Some x) => rest ← collect fuel' it'; Some (x :: rest)
      end
  end.

Lemma collect_more f1 : forall f2 it l,
  collect f1 it = Some l -> (f1 <= f2)%nat -> collect f2 it = Some l.
Proof.
  induction f1 as [|f1 IH]; intros [|f2] it l E Hf; [done|done|lia|]. cbn [collect] in *.
  destruct (next it) as [it' [x|]]; [|done]. destruct (collect f1 it') as [rest|] eqn:Er; [|done].
  rewrite (IH f2 it' rest Er) by lia. done.
Qed.

(** Enough calls: every block takes at least one byte. *)
Definition blocks_of (payload : list Z) : option (list (outcome blob_error (list Z))) :=
  collect (S (S (length payload))) (iter_blocks payload).
End Reader.
