(* ===== verification/BlobRoundtrip.v ===== *)
(** * Blobs: what is written is what is read

    The builder's payload is the RLP of the batch, the verifier's iterator
    yields exactly the header hashes of that batch, and the iterator terminates
    without a panic on any payload at all. *)
From S2P Require Import Prelude BytesCodec Rlp BlobCodec BlobPayload.

Section Encode.
Context `{AlloyRlp} {laws : AlloyRlpLaws}.

(** [rlp([headerRLP, [txEnv...]])]. *)
Definition txs_item (b : FetchedBlock) : list Z := list_encode (map string_encode (tx_envelopes b)).
Definition block_item (b : FetchedBlock) : list Z := list_encode [header_rlp b; txs_item b].

Lemma length_list_encode es :
  length (list_encode es) = (length_of_length (length (concat es)) + length (concat es))%nat.
Proof. unfold list_encode. by rewrite length_app, header_encode_length. Qed.

Lemma txs_payload_len_spec b :
  txs_payload_len b = length (concat (map string_encode (tx_envelopes b))).
Proof.
  unfold txs_payload_len. induction (tx_envelopes b) as [|tx txs IH]; [done|].
  cbn [map sum_list concat]. by rewrite length_app, string_encode_length, <- IH.
Qed.

Lemma block_payload_len_spec b :
  block_payload_len b = length (concat [header_rlp b; txs_item b]).
Proof.
  unfold block_payload_len, txs_list_len, txs_item. cbn [concat].
  rewrite app_nil_r, length_app, length_list_encode, txs_payload_len_spec. done.
Qed.

Lemma block_total_len_spec b : block_total_len b = length (block_item b).
Proof.
  unfold block_total_len, block_item. by rewrite length_list_encode, <- block_payload_len_spec.
Qed.

Lemma foldl_app_acc {A} (f : A -> list Z) l acc :
  foldl (fun out x => out ++ f x) acc l = acc ++ concat (map f l).
Proof.
  revert acc. induction l as [|x l IH]; intros acc; cbn [foldl map concat]; [by rewrite app_nil_r|].
  by rewrite IH, app_assoc.
Qed.

Lemma encode_block_spec out b : encode_block out b = out ++ block_item b.
Proof.
  unfold encode_block. rewrite foldl_app_acc, block_payload_len_spec, txs_payload_len_spec.
  unfold block_item, txs_item, list_encode. cbn [concat]. by rewrite app_nil_r, <- !app_assoc.
Qed.

Lemma outer_len_spec blocks n :
  foldl (fun n b => n + block_total_len b)%nat n blocks = (n + length (concat (map block_item blocks)))%nat.
Proof.
  revert n. induction blocks as [|b bs IH]; intros n; cbn [foldl map concat]; [cbn; lia|].
  rewrite IH, length_app, block_total_len_spec. lia.
Qed.

Lemma encode_batch_payload_spec blocks :
  encode_batch_payload blocks = list_encode (map block_item blocks).
Proof.
  unfold encode_batch_payload. rewrite outer_len_spec. cbn [Nat.add]. unfold list_encode.
  generalize (header_encode true (length (concat (map block_item blocks)))) as acc.
  induction blocks as [|b bs IH]; intros acc; cbn [foldl map concat]; [by rewrite app_nil_r|].
  by rewrite encode_block_spec, IH, <- app_assoc.
Qed.
End Encode.

Section Iterate.
Context `{Keccak, AlloyRlp} {laws : AlloyRlpLaws}.

(** An already encoded list item, like a block header. *)
Definition rlp_list (h : list Z) : Prop :=
  exists es, h = list_encode es /\ Z.of_nat (length (concat es)) < 2 ^ 64.

Lemma header_decode_list_item es rest :
  Z.of_nat (length (concat es)) < 2 ^ 64 ->
  header_decode (list_encode es ++ rest) = Some (true, length (concat es), concat es ++ rest).
Proof.
  intros Hes. unfold list_encode. rewrite <- app_assoc. apply header_decode_list; [done|].
  rewrite length_app. lia.
Qed.

Lemma list_encode_pos es :
  Z.of_nat (length (concat es)) < 2 ^ 64 -> (0 < length (list_encode es))%nat.
Proof.
  intros Hes. pose proof (header_decode_list_item es [] Hes) as E.
  apply header_decode_bounds in E as (pre & E & Hp & _). specialize (Hp eq_refl).
  apply (f_equal length) in E. rewrite !length_app in E. destruct pre; [done|].
  cbn [length] in E. lia.
Qed.

Lemma list_item_total es rest :
  (length (list_encode es ++ rest) - length (concat es ++ rest) + length (concat es))%nat =
  length (list_encode es).
Proof. unfold list_encode. rewrite !length_app. lia. Qed.

Lemma slice_middle {E} (a b c : list Z) n :
  n = length (a ++ b) ->
  @slice E (length (a ++ b ++ c) - length (b ++ c)) n (a ++ b ++ c) = Ok b.
Proof.
  intros ->. rewrite !length_app.
  replace (length a + (length b + length c) - (length b + length c))%nat with (length a) by lia.
  apply slice_app.
Qed.

(** One block at the front of the cursor. *)
Lemma next_block_item b rest i d :
  rlp_list (header_rlp b) -> Z.of_nat (length (concat [header_rlp b; txs_item b])) < 2 ^ 64 ->
  next_block {| cursor := block_item b ++ rest; initialized := i;
                remaining := length (block_item b ++ rest); done_ := d |} =
  ({| cursor := rest; initialized := i; remaining := length rest; done_ := d |},
   Some (Ok (keccak256 (header_rlp b)))).
Proof.
  intros (es & Hh & Hes) Hb. unfold next_block. cbn [remaining cursor initialized done_].
  pose proof (list_encode_pos _ Hb) as Hpos. fold (block_item b) in Hpos.
  destruct (Nat.eqb_spec (length (block_item b ++ rest)) 0) as [E0|_]; [rewrite length_app in E0; lia|].
  unfold block_item in *. rewrite (header_decode_list_item _ rest Hb). cbn [negb].
  rewrite list_item_total.
  rewrite decide_False by (rewrite length_app; lia).
  match goal with |- context [@slice unit ?a ?n ?l] =>
    replace (@slice unit a n l) with (@Ok unit _ (concat [header_rlp b; txs_item b])) end.
  2:{ symmetry. unfold list_encode. rewrite <- app_assoc. by apply slice_middle. }
  cbn [concat]. rewrite app_nil_r, Hh, (header_decode_list_item es _ Hes). cbn [negb].
  rewrite list_item_total, decide_False by (rewrite length_app; lia).
  rewrite take_app_length, drop_app_length, length_app.
  do 4 f_equal. lia.
Qed.

Lemma collect_blocks bs : forall fuel,
  (length bs < fuel)%nat ->
  Forall (fun b => rlp_list (header_rlp b)) bs ->
  Z.of_nat (length (concat (map block_item bs))) < 2 ^ 64 ->
  collect fuel {| cursor := concat (map block_item bs); initialized := true;
                  remaining := length (concat (map block_item bs)); done_ := false |} =
  Some (map (fun b => Ok (keccak256 (header_rlp b))) bs).
Proof.
  induction bs as [|b bs IH]; intros fuel Hf Hh Hl; (destruct fuel as [|fuel]; [cbn in Hf; lia|]).
  - done.
  - apply Forall_cons in Hh as [Hb Hh]. cbn [map concat] in *. rewrite length_app in Hl.
    cbn [collect]. unfold next. cbn [done_ initialized]. rewrite next_block_item; [|done|].
    + rewrite IH; [done|cbn in Hf; lia|done|lia].
    + unfold block_item in Hl. rewrite length_list_encode in Hl. lia.
Qed.


Lemma length_blocks_le bs :
  Z.of_nat (length (concat (map block_item bs))) < 2 ^ 64 ->
  (length bs <= length (concat (map block_item bs)))%nat.
Proof.
  induction bs as [|b bs IH]; intros Hl; [done|]. cbn [map concat length] in *.
  rewrite length_app in *. assert (0 < length (block_item b))%nat; [|lia].
  apply list_encode_pos. unfold block_item in Hl. rewrite length_list_encode in Hl. lia.
Qed.

(** Opening the outer list leaves the iterator at the first block. *)
Lemma next_open es :
  Z.of_nat (length (concat es)) < 2 ^ 64 ->
  next (iter_blocks (list_encode es)) =
  next_block {| cursor := concat es; initialized := true; remaining := length (concat es); done_ := false |}.
Proof.
  intros Hes. pose proof (list_encode_pos _ Hes) as Hpos. pose proof (header_decode_list_item es [] Hes) as E.
  pose proof (list_item_total es []) as Ht. rewrite !app_nil_r in *.
  unfold next, iter_blocks. cbn [done_ initialized]. unfold open_list. cbn [cursor remaining done_].
  destruct (list_encode es) as [|x l]; [cbn in Hpos; lia|]. rewrite E. cbn [negb].
  rewrite Ht, !decide_False by lia. done.
Qed.

Lemma blocks_of_payload bs :
  Forall (fun b => rlp_list (header_rlp b)) bs ->
  Z.of_nat (length (concat (map block_item bs))) < 2 ^ 64 ->
  blocks_of (encode_batch_payload bs) = Some (map (fun b => Ok (keccak256 (header_rlp b))) bs).
Proof.
  intros Hh Hl. rewrite encode_batch_payload_spec. unfold blocks_of.
  rewrite <- (collect_blocks bs (S (S (length (list_encode (map block_item bs))))) ); [|..|done|done].
  - cbn [collect]. by rewrite next_open.
  - pose proof (length_blocks_le bs Hl). rewrite length_list_encode. lia.
Qed.
End Iterate.

Section Stream.
Context `{Brotli}.

(** Reading back the blobs of a stream gives the stream, zero padded. *)
Lemma stream_blobs stream :
  exists blobs raws k,
    mapM build_single_blob (chunks MAX_RAW_BYTES_PER_BLOB stream) = Ok blobs /\
    Forall (fun b => length b = BYTES_PER_BLOB) blobs /\
    mapM decanonicalize blobs = Ok raws /\ concat raws = stream ++ replicate k 0 /\
    length blobs = length (chunks MAX_RAW_BYTES_PER_BLOB stream).
Proof.
  induction stream as [|stream Hne IH] using (chunk_ind _ capacity_pos).
  { exists [], [], 0%nat. split_and!; [done|constructor|done..]. }
  rewrite chunks_cons by (done || apply capacity_pos).
  destruct IH as (blobs & raws & k & Eb & Hb & Er & Hc & Hl).
  destruct (canonical_blobs_ok (take MAX_RAW_BYTES_PER_BLOB stream)) as (Hok & _).
  destruct Hok as (blob & E & Hlen & D); [rewrite length_take; lia|].
  set (c := take MAX_RAW_BYTES_PER_BLOB stream) in *.
  exists (blob :: blobs),
    ((c ++ replicate (MAX_RAW_BYTES_PER_BLOB - length c) 0) :: raws),
    (MAX_RAW_BYTES_PER_BLOB - length c + k)%nat.
  cbn [mapM]. rewrite E, Eb, D, Er. split_and!; [done|by apply Forall_cons|done| |by cbn [length]; rewrite Hl].
  cbn [concat]. rewrite Hc. rewrite <- (take_drop MAX_RAW_BYTES_PER_BLOB stream) at 2. fold c.
  destruct (decide (drop MAX_RAW_BYTES_PER_BLOB stream = [])) as [->|Hd].
  - by rewrite app_nil_r, <- app_assoc, replicate_add.
  - replace (length c) with MAX_RAW_BYTES_PER_BLOB.
    + rewrite Nat.sub_diag. cbn [replicate Nat.add]. by rewrite app_nil_r, <- app_assoc.
    + unfold c. rewrite length_take. apply (f_equal length) in Hne || idtac.
      assert (0 < length (drop MAX_RAW_BYTES_PER_BLOB stream))%nat as Hp
        by (destruct (drop MAX_RAW_BYTES_PER_BLOB stream); [done|cbn; lia]).
      rewrite length_drop in Hp. lia.
Qed.
End Stream.

(** ** Field elements *)

(** The order of the scalar field of BLS12-381. *)
Definition BLS_MODULUS : Z := 52435875175126190479447740508185965837690552500527637822603658699938581184513.

(** A blob as EIP-4844 allows it: full, its 32-byte field elements below the
    modulus. *)
Definition canonical_blob (blob : list Z) : Prop :=
  length blob = BYTES_PER_BLOB /\ exists es, blob = concat es /\
    Forall (fun e => length e = 32%nat /\ Bytes e /\ be_decode e < BLS_MODULUS) es.

Lemma zero_topped_canonical c : length c = 31%nat -> Bytes c ->
  length (0 :: c) = 32%nat /\ Bytes (0 :: c) /\ be_decode (0 :: c) < BLS_MODULUS.
Proof.
  intros Hl Hc. split; [cbn; lia|]. split; [apply Forall_cons; split; [done|exact Hc]|].
  rewrite be_decode_cons, Hl. pose proof (be_decode_bound c Hc) as Hb. rewrite Hl in Hb.
  change (2 ^ (8 * Z.of_nat 31)) with 452312848583266388373324160190187140051835877600158453279131187530910662656 in *.
  unfold BLS_MODULUS. lia.
Qed.

(** The zero byte in front of every 31 bytes keeps the field elements small. *)
Lemma single_blob_canonical raw blob : Bytes raw -> build_single_blob raw = Ok blob -> canonical_blob blob.
Proof.
  intros Hr E. unfold build_single_blob in E. case_decide as Hlen; [done|].
  assert (Hc : (length raw <= MAX_RAW_BYTES_PER_BLOB)%nat) by lia.
  rewrite canonicalize_spec in E by done. injection E as <-. pose proof (capacity_blocks _ Hc) as Hcap.
  split; [rewrite length_app, length_replicate; rewrite length_fields; lia|].
  destruct sizes as (n & Hm & Hb). rewrite Hb, fields_pad by lia.
  destruct (full_chunks n (raw ++ replicate (31 * n - length raw) 0)) as (cs & Hcs & Ecs & _);
    [rewrite length_app, length_replicate; lia|].
  assert (HB : Bytes (concat cs)).
  { rewrite <- Ecs. apply Forall_app. split; [done|]. by apply Forall_replicate. }
  rewrite Ecs, fields_concat by done. exists (map (cons 0) cs). split; [done|]. clear Ecs.
  induction Hcs as [|c cs Hlc _ IH]; [by apply Forall_nil|]. cbn [concat] in HB. apply Forall_app in HB as [HB1 HB2].
  apply Forall_cons. split; [by apply zero_topped_canonical|by apply IH].
Qed.

Lemma mapM_blobs_canonical raws blobs : Bytes (concat raws) ->
  mapM build_single_blob raws = Ok blobs -> Forall canonical_blob blobs.
Proof.
  intros Hb E. apply mapM_Ok in E. induction E as [|raw blob raws blobs Er _ IH]; [by apply Forall_nil|].
  cbn [concat] in Hb. apply Forall_app in Hb as [Hr Hb].
  apply Forall_cons. split; [by apply (single_blob_canonical raw)|by apply IH].
Qed.

Lemma built_blobs_canonical `{AlloyRlp, Brotli} blocks c blobs : brotli_compress (encode_batch_payload blocks) = Some c -> Bytes c ->
  build_blobs blocks = Ok blobs -> Forall canonical_blob blobs.
Proof.
  intros Hc HB E. unfold build_blobs in E. rewrite Hc in E.
  apply (mapM_blobs_canonical _ _) in E; [done|]. rewrite concat_chunks by apply capacity_pos.
  apply Forall_cons. by split.
Qed.

Section Roundtrip.
Context `{Keccak, AlloyRlp, Brotli} {laws : AlloyRlpLaws} {blaws : BrotliLaws}.

Lemma batch_blobs_ok blocks :
  Forall (fun b => rlp_list (header_rlp b)) blocks ->
  Z.of_nat (length (encode_batch_payload blocks)) < 2 ^ 64 ->
  is_Some (brotli_compress (encode_batch_payload blocks)) ->
  exists blobs,
    build_blobs blocks = Ok blobs /\
    Forall (fun b => length b = BYTES_PER_BLOB) blobs /\
    decode_blob_payload blobs = Ok (encode_batch_payload blocks) /\
    blocks_of (encode_batch_payload blocks) =
      Some (map (fun b => Ok (keccak256 (header_rlp b))) blocks).
Proof.
  intros Hh Hl [c Hc]. unfold build_blobs. rewrite Hc.
  destruct (stream_blobs (BLOB_FORMAT_VERSION :: c)) as (blobs & raws & k & Eb & Hb & Er & Hr & Hn).
  exists blobs. split_and!; [done|done| |].
  - unfold decode_blob_payload. destruct blobs as [|blob blobs].
    { rewrite chunks_cons in Hn by (done || apply capacity_pos). done. }
    rewrite Er. cbn [mbind outcome_bind]. rewrite Hr. cbn [app].
    rewrite Z.eqb_refl. cbn [negb]. by rewrite (brotli_round_trip _ _ k Hc).
  - apply blocks_of_payload; [done|]. rewrite encode_batch_payload_spec, length_list_encode in Hl. lia.
Qed.

(** C27: what the builder publishes is what the verifiers read.  For blocks
    whose headers are RLP lists, if brotli compresses the payload then the
    blobs are built, each of exactly 131072 bytes; they decode to the payload;
    and the iterator yields the Keccak hash of every header, in order, and
    nothing else. *)
Theorem batch_blobs_roundtrip blocks :
  Forall (fun b => rlp_list (header_rlp b)) blocks ->
  Z.of_nat (length (encode_batch_payload blocks)) < 2 ^ 64 ->
  is_Some (brotli_compress (encode_batch_payload blocks)) ->
  exists blobs,
    build_blobs blocks = Ok blobs /\
    Forall (fun b => length b = BYTES_PER_BLOB) blobs /\
    decode_blob_payload blobs = Ok (encode_batch_payload blocks) /\
    blocks_of (encode_batch_payload blocks) =
      Some (map (fun b => Ok (keccak256 (header_rlp b))) blocks).
Proof. apply batch_blobs_ok. Qed.

(** ** Any payload *)

(** [b] occurs in [l]. *)
Definition infix (b l : list Z) : Prop := exists p q, l = p ++ b ++ q.

(** The items an iterator may yield: header hashes, then at most one error. *)
Inductive yields (payload : list Z) : list (outcome blob_error (list Z)) -> Prop :=
  | yields_nil : yields payload []
  | yields_err e : yields payload [Err e]
  | yields_hash h rest :
      infix h payload -> yields payload rest -> yields payload (Ok (keccak256 h) :: rest).

Lemma infix_take n l payload : infix l payload -> infix (take n l) payload.
Proof.
  intros (p & q & ->). exists p, (drop n l ++ q). by rewrite (app_assoc (take n l)), take_drop.
Qed.

Lemma infix_drop n l payload : infix l payload -> infix (drop n l) payload.
Proof.
  intros (p & q & ->). exists (p ++ take n l), q. rewrite <- !app_assoc.
  by rewrite (app_assoc (take n l)), take_drop.
Qed.

(** One step from an opened iterator whose remaining count is its cursor's
    length: it ends, fails, or yields a hash and goes on with less. *)
Lemma next_block_cases it payload :
  remaining it = length (cursor it) -> infix (cursor it) payload -> done_ it = false ->
  (exists it', next_block it = (it', None)) \/
  (exists it' e, next_block it = (it', Some (Err e)) /\ done_ it' = true) \/
  (exists it' h, next_block it = (it', Some (Ok (keccak256 h))) /\ infix h payload /\
     remaining it' = length (cursor it') /\ infix (cursor it') payload /\
     done_ it' = false /\ initialized it' = initialized it /\
     (length (cursor it') < length (cursor it))%nat).
Proof.
  intros Hr Hi Hd. unfold next_block. destruct (Nat.eqb_spec (remaining it) 0) as [_|Hne]; [by left; eexists|].
  right. destruct (header_decode (cursor it)) as [[[[|] n] peek]|] eqn:E; cbn [negb];
    [|by left; eexists _, _..].
  apply header_decode_bounds in E as (pre & Ec & Hpre & Hn). specialize (Hpre eq_refl).
  assert (Hl : length (cursor it) = (length pre + length peek)%nat) by (by rewrite Ec, length_app).
  assert (Hp : (0 < length pre)%nat) by (destruct pre; [done|cbn; lia]).
  rewrite decide_False by lia. unfold slice. rewrite decide_True by lia.
  set (inner := take _ (drop _ (cursor it))).
  assert (Hin : infix inner payload) by (by apply infix_take, infix_drop).
  destruct (header_decode inner) as [[[[|] m] ipeek]|] eqn:E2; cbn [negb]; [|by left; eexists _, _..].
  case_decide; [by left; eexists _, _|]. right. eexists _, _. split; [done|]. cbn.
  split_and!; [by apply infix_take| |by apply infix_drop|done|done|]; rewrite length_drop; lia.
Qed.

Lemma collect_yields payload fuel : forall it,
  (length (cursor it) < fuel)%nat -> initialized it = true -> done_ it = false ->
  remaining it = length (cursor it) -> infix (cursor it) payload ->
  exists items, collect (S fuel) it = Some items /\ yields payload items.
Proof.
  induction fuel as [|fuel IH]; intros it Hf Hi Hd Hr Hin; [lia|].
  remember (S fuel) as f eqn:Ef. cbn [collect]. unfold next. rewrite Hd, Hi.
  destruct (next_block_cases it payload Hr Hin Hd)
    as [[it' E]|[(it' & e & E & Hd')|(it' & h & E & Hh & Hr' & Hin' & Hd' & Hi' & Hlt)]]; rewrite E.
  - exists []. split; [done|constructor].
  - exists [Err e]. subst f. cbn [collect]. unfold next. rewrite Hd'. split; [done|constructor].
  - subst f. destruct (IH it') as (items & Ei & Hy); [lia|congruence|done|done|done|].
    rewrite Ei. eexists. split; [done|]. by constructor.
Qed.

(** The first call: nothing, an error, or an opened iterator. *)
Lemma next_open_cases payload :
  (exists it', next (iter_blocks payload) = (it', None)) \/
  (exists it' e, next (iter_blocks payload) = (it', Some (Err e)) /\ done_ it' = true) \/
  (exists it, next (iter_blocks payload) = next it /\ initialized it = true /\ done_ it = false /\
     remaining it = length (cursor it) /\ infix (cursor it) payload /\
     (length (cursor it) < length payload)%nat).
Proof.
  unfold next at 1 2 3, iter_blocks. cbn [done_ initialized]. unfold open_list. cbn [cursor].
  destruct payload as [|x l]; [by left; eexists|]. right. remember (x :: l) as p eqn:Hp. clear Hp x l.
  destruct (header_decode p) as [[[[|] n] peek]|] eqn:E; cbn [negb]; [|by left; eexists _, _..].
  apply header_decode_bounds in E as (pre & Ec & Hpre & Hn). specialize (Hpre eq_refl).
  assert (Hl : length p = (length pre + length peek)%nat) by (by rewrite Ec at 1; rewrite length_app).
  assert (0 < length pre)%nat by (destruct pre; [done|cbn; lia]).
  case_decide; [by left; eexists _, _|]. case_decide; [by left; eexists _, _|]. right.
  exists {| cursor := peek; initialized := true; remaining := n; done_ := false |}.
  cbn. split_and!; try done; [lia| |lia]. exists pre, []. by rewrite app_nil_r.
Qed.

Lemma blocks_of_ok payload :
  exists items, blocks_of payload = Some items /\ yields payload items.
Proof.
  unfold blocks_of.
  destruct (next_open_cases payload) as [[it' E]|[(it' & e & E & Hd)|(it & E & Hi & Hd & Hr & Hin & Hl)]].
  - exists []. cbn [collect]. rewrite E. split; [done|constructor].
  - exists [Err e]. remember (S (length payload)) as f. cbn [collect]. rewrite E. subst f.
    cbn [collect]. unfold next. rewrite Hd. split; [done|constructor].
  - destruct (collect_yields payload (S (length payload)) it) as (items & Ei & Hy);
      [lia|done|done|done|done|]. exists items. split; [|done].
    remember (S (length payload)) as f. cbn [collect] in *. by rewrite E.
Qed.

(** Reading is total on hostile data.  On any bytes at all the iterator
    terminates, within one call per byte and without a panic or an
    out-of-range slice; it yields Keccak hashes of substrings of the payload
    and then at most one error. *)
Theorem blocks_of_total payload :
  exists items, blocks_of payload = Some items /\ yields payload items.
Proof. exact (blocks_of_ok payload). Qed.
End Roundtrip.

(** ** Fetching *)
Section Fetch.
Context {E : Type} (get : Z -> outcome E FetchedBlock).

Lemma mapM_outcome_app (l1 l2 : list Z) :
  mapM get (l1 ++ l2) = (a ← mapM get l1; b ← mapM get l2; Ok (a ++ b)).
Proof.
  induction l1 as [|x l1 IH]; cbn [app mapM]; [by destruct (mapM get l2)|].
  rewrite IH. destruct (get x); [|done..]. cbn [mbind outcome_bind].
  destruct (mapM get l1); [|done..]. cbn [mbind outcome_bind]. by destruct (mapM get l2).
Qed.

Lemma range_incl_split a b c : a <= b + 1 -> b <= c -> range_incl a c = range_incl a b ++ range_incl (b + 1) c.
Proof.
  intros Hab Hbc. unfold range_incl.
  replace (c - a + 1) with ((b - a + 1) + (c - (b + 1) + 1)) by lia. rewrite seqZ_app by lia.
  do 2 f_equal. lia.
Qed.

Lemma fetch_loop_spec fuel : forall current to_block result,
  0 <= current -> to_block + FETCH_BATCH_SIZE < 2 ^ 64 -> to_block - current + 1 <= Z.of_nat fuel ->
  fetch_loop get fuel current to_block result =
  (batch ← mapM get (range_incl current to_block); Ok (result ++ batch)).
Proof.
  unfold FETCH_BATCH_SIZE. induction fuel as [|fuel IH]; intros cur to res Hc Ht Hf; cbn [fetch_loop].
  - rewrite decide_False by lia. unfold range_incl. rewrite seqZ_nil by lia. cbn. by rewrite app_nil_r.
  - case_decide as Hle.
    2:{ unfold range_incl. rewrite seqZ_nil by lia. cbn. by rewrite app_nil_r. }
    unfold u64, FETCH_BATCH_SIZE. rewrite (Z.mod_small (cur + 100 - 1)) by lia.
    set (e := Z.min (cur + 100 - 1) to). assert (He : cur <= e <= to) by lia.
    rewrite (range_incl_split cur e to), mapM_outcome_app by lia. rewrite Z.mod_small by lia.
    destruct (mapM get (range_incl cur e)) as [a| |]; [|done..]. cbn [mbind outcome_bind].
    rewrite IH by lia. destruct (mapM get (range_incl (e + 1) to)); [|done..]. cbn [mbind outcome_bind].
    by rewrite app_assoc.
Qed.

(** Fetching in rounds of a hundred returns every block of the range once, in
    order, or fails. *)
Lemma fetch_blocks_spec from_block to_block :
  0 <= from_block -> from_block <= to_block + 1 -> to_block + FETCH_BATCH_SIZE < 2 ^ 64 ->
  fetch_blocks get from_block to_block = mapM get (range_incl from_block to_block).
Proof.
  intros Hf Hle Ht. unfold fetch_blocks. rewrite decide_False by lia.
  rewrite fetch_loop_spec by (unfold FETCH_BATCH_SIZE in *; lia).
  by destruct (mapM get (range_incl from_block to_block)).
Qed.
End Fetch.

Section Samples.
#[local] Existing Instance RefRlp.toy_keccak.
#[local] Existing Instance RefRlp.alloy.

(** A stand-in for brotli: the length in front of the data. *)
#[local] Instance toy_brotli : Brotli := {|
  brotli_compress d :=
    if decide (Z.of_nat (length d) < 2 ^ 64) then Some (be_encode 8 (Z.of_nat (length d)) ++ d) else None;
  brotli_decompress c := Some (take (Z.to_nat (be_decode (take 8 c))) (drop 8 c)) |}.

#[local] Instance toy_brotli_laws : BrotliLaws.
Proof.
  split. intros d c n E. cbn [brotli_compress brotli_decompress toy_brotli] in *.
  case_decide as Hd; [|done]. apply (inj Some) in E as <-. f_equal.
  pose proof (length_be_encode 8 (Z.of_nat (length d))) as Hl. rewrite <- app_assoc.
  rewrite take_app_length', drop_app_length' by done. rewrite be_round_trip by (cbn; lia).
  rewrite Nat2Z.id. by apply take_app_length.
Qed.

(** The fixture of the repository's own tests. *)
Definition sample_blocks : list FetchedBlock :=
  [{| header_rlp := [0xc1; 0x80]; tx_envelopes := [[1; 2]; [3; 4]] |};
   {| header_rlp := [0xc2; 0x80; 0x80]; tx_envelopes := [[5]] |}].

Example encode_batch_payload_golden :
  encode_batch_payload sample_blocks =
  [0xd0; 0xc9; 0xc1; 0x80; 0xc6; 0x82; 0x01; 0x02; 0x82; 0x03; 0x04; 0xc5; 0xc2; 0x80; 0x80; 0xc1; 0x05].
Proof. by vm_compute. Qed.

Lemma batch_blobs_roundtrip_witness :
  exists blobs,
    build_blobs sample_blocks = Ok blobs /\
    Forall (fun b => length b = BYTES_PER_BLOB) blobs /\
    decode_blob_payload blobs = Ok (encode_batch_payload sample_blocks) /\
    blocks_of (encode_batch_payload sample_blocks) =
      Some (map (fun b => Ok (keccak256 (header_rlp b))) sample_blocks).
Proof.
  apply (batch_blobs_roundtrip (laws := RefRlp.alloy_laws)).
  - apply Forall_cons; split; [|apply Forall_cons; split; [|apply Forall_nil; exact I]].
    + exists [[0x80]]. split; [by vm_compute|cbn; lia].
    + exists [[0x80]; [0x80]]. split; [by vm_compute|cbn; lia].
  - vm_compute. reflexivity.
  - eexists. vm_compute. reflexivity.
Defined.

(** A payload cut short: the first block is read, then the error ends it. *)
Lemma blocks_of_total_witness :
  exists items, blocks_of (take 6 (encode_batch_payload sample_blocks)) = Some items /\
    yields (take 6 (encode_batch_payload sample_blocks)) items.
Proof. exact (blocks_of_total (laws := RefRlp.alloy_laws) (take 6 (encode_batch_payload sample_blocks))). Defined.
End Samples.
