(* ===== verification/WitnessDb.v ===== *)
(** * The witness database

    [crates/executor/client/src/io.rs]: before a block is executed,
    [WitnessInput::witness_db] checks the host-provided state against the
    parent header and links the ancestor headers; the result, [TrieDB], answers
    the EVM's reads.  Headers are hashed and bytecodes hashed by libraries, so
    those two functions are parameters. *)
From S2P Require Import Prelude BytesCodec Nibbles Mpt MptInv MptMap Rlp MptHash MptCache.
From S2P Require Import MptWire MptProof MptTries EthState.

(** [alloy_consensus::Header]. *)
Record Header : Type := {
  parent_hash : list Z;
  ommers_hash : list Z;
  beneficiary : list Z;
  header_state_root : list Z;
  transactions_root : list Z;
  receipts_root : list Z;
  logs_bloom : list Z;
  difficulty : Z;
  number : Z;
  gas_limit : Z;
  gas_used : Z;
  timestamp : Z;
  extra_data : list Z;
  mix_hash : list Z;
  header_nonce : list Z;
  base_fee_per_gas : option Z;
  withdrawals_root : option (list Z);
  blob_gas_used : option Z;
  excess_blob_gas : option Z;
  parent_beacon_block_root : option (list Z);
  requests_hash : option (list Z);
  block_access_list_hash : option (list Z);
  slot_number : option Z }.

(** [ClientError] ([error.rs]); the errors of libraries carry no detail. *)
Inductive ClientError :=
  | SignatureRecoveryFailed
  | MismatchedStateRoot
  | MismatchedStorageRoot
  | UnknownChainId (id : Z)
  | MissingBytecode (address : list Z)
  | MissingTrie (address : list Z)
  | InvalidHeaderBlockNumber (expected found : Z)
  | InvalidHeaderParentHash (expected found : list Z)
  | PostExecutionError
  | BlockExecutionError
  | MptError (e : Error)
  | FailedToSerializeWithdrawalEvents.

(** Library code of [reth] and [revm] that [io.rs] calls: the header hash, code
    hashes, and the RLP decoder of [U256]. *)
Class ChainTypes := {
  Bytecode : Type;
  hash_slow : Header -> list Z;
  bytecode_hash_slow : Bytecode -> list Z;
  u256_decode : list Z -> option Z }.

(** [revm::state::AccountInfo]. *)
Record AccountInfo : Type := {
  info_balance : Z;
  info_nonce : Z;
  info_code_hash : list Z }.

Definition account_info (a : TrieAccount) : AccountInfo :=
  {| info_balance := balance a; info_nonce := nonce a; info_code_hash := code_hash a |}.

Section WitnessDb.
Context `{Keccak, AlloyRlp, RlpReader, AccountCodec, ChainTypes}.

Record TrieDB : Type := {
  inner : EthereumState;
  block_hashes : gmap Z (list Z);
  bytecode_by_hash : gmap (list Z) Bytecode }.

(** [get_rlp::<U256>]. *)
Definition get_u256 (n : MptNode) (key : list Z) : outcome Error (option Z) :=
  o ← get n key;
  match o with
  | Some bytes => match u256_decode bytes with Some a => Ok (Some a) | None => Err Rlp end
  | None => Ok None
  end.

Definition basic_ref (db : TrieDB) (address : list Z) : outcome unit (option AccountInfo) :=
  let hashed_address := keccak256 address in
  account_in_trie ← unwrap_res (get_rlp (state_trie (inner db)) hashed_address);
  Ok (option_map account_info account_in_trie).

Definition code_by_hash_ref (db : TrieDB) (hash : list Z) : outcome unit Bytecode :=
  unwrap (bytecode_by_hash db !! hash).

Definition storage_ref (db : TrieDB) (address : list Z) (index : Z) : outcome unit Z :=
  let hashed_address := keccak256 address in
  storage_trie ← unwrap (storage_tries (inner db) !! hashed_address);
  value ← unwrap_res (get_u256 storage_trie (keccak256 (be_encode 32 index)));
  Ok (default 0 value).

Definition block_hash_ref (db : TrieDB) (number : Z) : outcome unit (list Z) :=
  unwrap (block_hashes db !! number).

(** The check of one storage trie; hashing fills its caches. *)
Definition check_storage (st : EthereumState) (entry : list Z * MptNode) : outcome ClientError EthereumState :=
  let '(hashed_address, storage_trie) := entry in
  account ← unwrap_res (get_rlp (state_trie st) hashed_address);
  let expected := match account with Some a => storage_root a | None => EMPTY_ROOT end in
  let '(root, storage_trie) := hash storage_trie in
  if decide (expected <> root) then Err MismatchedStorageRoot
  else Ok {| state_trie := state_trie st;
             storage_tries := <[hashed_address := storage_trie]> (storage_tries st) |}.

(** [sealed_headers.iter().tuple_windows()]: consecutive (child, parent). *)
Fixpoint tuple_windows {A} (l : list A) : list (A * A) :=
  match l with
  | a :: (b :: _) as rest => (a, b) :: tuple_windows rest
  | _ => []
  end.

(** A sealed header is a header with its hash. *)
Definition seal_slow (h : Header) : Header * list Z := (h, hash_slow h).

Definition check_link (block_hashes : gmap Z (list Z)) (w : (Header * list Z) * (Header * list Z))
  : outcome ClientError (gmap Z (list Z)) :=
  let '(child_header, parent_header) := w in
  if decide (number parent_header.1 <> u64 (number child_header.1 - 1))
  then Err (InvalidHeaderBlockNumber (u64 (number parent_header.1 + 1)) (number child_header.1))
  else
    let parent_header_hash := parent_header.2 in
    if decide (parent_header_hash <> parent_hash child_header.1)
    then Err (InvalidHeaderParentHash parent_header_hash (parent_hash child_header.1))
    else Ok (<[number parent_header.1 := parent_hash child_header.1]> block_hashes).

(** [WitnessInput::witness_db], from the state, its anchor, the bytecodes and
    the sealed headers.  [HashMap] collections are maps; the storage tries are
    visited in some order. *)
Definition witness_db (state : EthereumState) (state_anchor : list Z) (bytecodes : list Bytecode)
    (sealed_headers : list (Header * list Z)) : outcome ClientError TrieDB :=
  let '(root, trie) := hash (state_trie state) in
  let state := {| state_trie := trie; storage_tries := storage_tries state |} in
  if decide (state_anchor <> root) then Err MismatchedStateRoot
  else
    state ← for_each check_storage state (map_to_list (storage_tries state));
    let bytecodes_by_hash :=
      foldl (fun m code => <[bytecode_hash_slow code := code]> m) ∅ bytecodes in
    block_hashes ← for_each check_link ∅ (tuple_windows sealed_headers);
    Ok {| inner := state; block_hashes := block_hashes; bytecode_by_hash := bytecodes_by_hash |}.

(** ** What the checks establish *)

(** Tries of the shape the encoder writes, with sound caches. *)
Definition trie_ok (t : MptNode) : Prop := wire_ok t /\ cache_ok t.
Definition state_ok (st : EthereumState) : Prop :=
  trie_ok (state_trie st) /\ forall a t, storage_tries st !! a = Some t -> trie_ok t.

(** The storage root a state trie records for an address. *)
Definition recorded_root (t : MptNode) (hashed_address root : list Z) : Prop :=
  exists account, get_rlp t hashed_address = Ok account /\
    root = match account with Some a => storage_root a | None => EMPTY_ROOT end.

(** Consecutive headers are linked by number and parent hash. *)
Fixpoint linked (l : list Header) : Prop :=
  match l with
  | child :: (parent :: _) as rest =>
      number parent = u64 (number child - 1) /\ hash_slow parent = parent_hash child /\ linked rest
  | _ => True
  end.

(** Hashing keeps a trie's shape, contents and hash. *)
Lemma hash_trie_ok t :
  trie_ok t -> (hash t).1 = hash_of t /\ trie_ok (hash t).2 /\ (hash t).2 ≡ t.
Proof.
  intros [Hw Hc]. destruct (hash_spec t Hc) as (Hh & E & Hc'). split_and!; [done| |done].
  split; [|done]. by eapply wire_ok_equiv; [symmetry; exact E|].
Qed.

Lemma check_storage_ok st a t st' :
  state_ok st -> trie_ok t -> check_storage st (a, t) = Ok st' ->
  state_ok st' /\ state_trie st' = state_trie st /\
  exists t', storage_tries st' = <[a := t']> (storage_tries st) /\
    recorded_root (state_trie st) a (hash_of t').
Proof.
  intros [Hs Hss] Ht E. unfold check_storage in E. apply bind_Ok in E as (account & Ea & E).
  destruct (hash_trie_ok t Ht) as (Hh & Hok & Heq). destruct (hash t) as [root t'] eqn:Et.
  cbn [fst snd] in *. case_decide as Hd; [done|]. injection E as <-.
  cbn [state_trie storage_tries]. split_and!; [|done|].
  - split; [done|]. cbn [storage_tries]. intros b u. rewrite lookup_insert. case_decide; [|apply Hss].
    by intros [= <-].
  - exists t'. split; [done|]. exists account. split.
    + destruct (get_rlp (state_trie st) a) as [o| |]; [|done..]. cbn in Ea. by injection Ea as ->.
    + by rewrite Hd, (hash_of_equiv _ _ Heq), <- Hh.
Qed.

Lemma check_storages_ok l : forall st st',
  state_ok st -> (forall a t, (a, t) ∈ l -> trie_ok t) -> NoDup l.*1 ->
  for_each check_storage st l = Ok st' ->
  state_ok st' /\ state_trie st' = state_trie st /\
  (forall a, a ∈ l.*1 -> exists t', storage_tries st' !! a = Some t' /\
     recorded_root (state_trie st) a (hash_of t')) /\
  (forall a, a ∉ l.*1 -> storage_tries st' !! a = storage_tries st !! a).
Proof.
  induction l as [|[a t] l IH]; intros st st' Hs Hl Hnd E; cbn [for_each] in E.
  { apply Ok_inj in E as <-. split_and!; [done..| |done]. intros a Ha. by apply elem_of_nil in Ha. }
  apply bind_Ok in E as (st1 & E1 & E2). rewrite fmap_cons in *. apply NoDup_cons in Hnd as [Hna Hnd].
  destruct (check_storage_ok st a t st1 Hs) as (Hs1 & Ht1 & t' & Hst1 & Hrec); [|done|].
  { apply (Hl a). apply list_elem_of_here. }
  destruct (IH st1 st' Hs1) as (Hs' & Ht' & Hin & Hout); [|done..|].
  { intros b u Hb. apply (Hl b). by apply list_elem_of_further. }
  split_and!; [done|congruence| |].
  - intros b Hb. apply elem_of_cons in Hb as [->|Hb].
    + exists t'. cbn [fst]. rewrite Hout, Hst1, lookup_insert_eq by done. done.
    + rewrite <- Ht1. by apply Hin.
  - intros b Hb. apply not_elem_of_cons in Hb as [Hne Hb]. rewrite Hout, Hst1 by done.
    by rewrite lookup_insert_ne by done.
Qed.

Lemma links_ok hs : forall m m',
  for_each check_link m (tuple_windows (map seal_slow hs)) = Ok m' ->
  linked hs /\
  forall n h, m' !! n = Some h ->
    m !! n = Some h \/ exists hd, hd ∈ tail hs /\ number hd = n /\ hash_slow hd = h.
Proof.
  induction hs as [|child hs IH]; intros m m' E.
  { injection E as <-. split; [done|auto]. }
  destruct hs as [|parent hs]; [injection E as <-; split; [done|auto]|].
  change (tuple_windows (map seal_slow (child :: parent :: hs))) with
    ((seal_slow child, seal_slow parent) :: tuple_windows (map seal_slow (parent :: hs))) in E.
  cbn [for_each] in E. apply bind_Ok in E as (m1 & E1 & E2). apply IH in E2 as [Hl Hm].
  unfold check_link, seal_slow in E1. cbn [fst snd] in E1.
  case_decide as Hn; [done|]. case_decide as Hp; [done|]. injection E1 as <-.
  split; [done|]. intros n h Hh. apply Hm in Hh as [Hh|(hd & Hin & Hhd)].
  - rewrite lookup_insert in Hh. case_decide as Hd; [|by left].
    right. exists parent. injection Hh as <-. split_and!; [apply list_elem_of_here|done|done].
  - right. exists hd. split; [by apply list_elem_of_further|done].
Qed.

Lemma bytecodes_ok codes : forall (m : gmap (list Z) Bytecode) h c,
  (forall h c, m !! h = Some c -> bytecode_hash_slow c = h) ->
  foldl (fun m code => <[bytecode_hash_slow code := code]> m) m codes !! h = Some c ->
  bytecode_hash_slow c = h.
Proof.
  induction codes as [|code codes IH]; intros m h c Hm E; [by apply Hm|].
  cbn [foldl] in E. eapply IH; [|exact E]. intros h' c'. rewrite lookup_insert. case_decide; [|apply Hm].
  by intros [= <-].
Qed.

(** Everything [witness_db] has checked when it succeeds. *)
Lemma witness_db_ok st anchor codes headers db :
  state_ok st -> witness_db st anchor codes (map seal_slow headers) = Ok db ->
  trie_ok (state_trie (inner db)) /\ state_trie (inner db) ≡ state_trie st /\
  hash_of (state_trie st) = anchor /\
  (forall a t, storage_tries (inner db) !! a = Some t ->
     trie_ok t /\ recorded_root (state_trie (inner db)) a (hash_of t)) /\
  (forall h c, bytecode_by_hash db !! h = Some c -> bytecode_hash_slow c = h) /\
  linked headers /\
  (forall n h, block_hashes db !! n = Some h ->
     exists hd, hd ∈ tail headers /\ number hd = n /\ hash_slow hd = h).
Proof.
  intros [Ht Hss] E. unfold witness_db in E. destruct (hash_trie_ok _ Ht) as (Hh & Hok & Heq).
  destruct (hash (state_trie st)) as [root trie]. cbn [fst snd] in *. case_decide as Hd; [done|].
  apply bind_Ok in E as (st' & E1 & E). apply bind_Ok in E as (bh & E2 & E). injection E as <-.
  cbn [inner bytecode_by_hash block_hashes].
  destruct (check_storages_ok _ _ _ (conj Hok Hss : state_ok {| state_trie := trie; storage_tries := _ |})
    ltac:(intros a t Ha; apply elem_of_map_to_list in Ha; by eapply Hss)
    (NoDup_fst_map_to_list _) E1) as ([Hs' Hss'] & Htr & Hin & Hout).
  cbn [state_trie storage_tries] in *. apply links_ok in E2 as [Hlink Hbh]. split_and!; [done|congruence| | | |done|].
  - congruence.
  - intros a t Ha. split; [by eapply Hss'|].
    destruct (decide (a ∈ (map_to_list (storage_tries st)).*1)) as [Ha'|Ha'].
    + destruct (Hin a Ha') as (t' & E & Hr). rewrite Htr. congruence.
    + exfalso. rewrite Hout in Ha by done. apply Ha', list_elem_of_fmap.
      exists (a, t). split; [done|]. by apply elem_of_map_to_list.
  - intros h c Hc. eapply (bytecodes_ok codes ∅); [|exact Hc]. intros h' c'. by rewrite lookup_empty.
  - intros n h Hn. apply Hbh in Hn as [Hn|Hn]; [|done]. by rewrite lookup_empty in Hn.
Qed.

Context {laws : AlloyRlpLaws} {rlaws : RlpReaderLaws}.
Hypothesis Hempty : keccak256 [EMPTY_STRING_CODE] = EMPTY_ROOT.

(** A decoded lookup on a sparse trie is the full trie's. *)
Lemma get_rlp_sound n t key o :
  wire_ok n -> wire_ok t -> resolved t -> coll_free (node_encodings n ++ node_encodings t) -> hash_of n = hash_of t ->
  get_rlp n key = Ok o -> get_rlp t key = Ok o.
Proof.
  intros Hn Ht Hr HK Hh E. unfold get_rlp in *. apply bind_Ok in E as (b & Hg & E).
  by rewrite (get_sparse _ n t key b Hempty HK Hn Ht Hr) by (done || by (intros e; rewrite elem_of_app; auto)).
Qed.

Lemma get_u256_sound n t key o :
  wire_ok n -> wire_ok t -> resolved t -> coll_free (node_encodings n ++ node_encodings t) -> hash_of n = hash_of t ->
  get_u256 n key = Ok o -> get_u256 t key = Ok o.
Proof.
  intros Hn Ht Hr HK Hh E. unfold get_u256 in *. apply bind_Ok in E as (b & Hg & E).
  by rewrite (get_sparse _ n t key b Hempty HK Hn Ht Hr) by (done || by (intros e; rewrite elem_of_app; auto)).
Qed.

(** The encodings of the nodes the host sent: of the state trie and of an
    account's storage trie. *)
Definition state_encodings (db : TrieDB) : list (list Z) := node_encodings (state_trie (inner db)).
Definition storage_encodings (db : TrieDB) (address : list Z) : list (list Z) :=
  match storage_tries (inner db) !! keccak256 address with Some t => node_encodings t | None => [] end.

Lemma unwrap_res_inv {E F A} (c : outcome E A) (a : A) : @unwrap_res E F A c = Ok a -> c = Ok a.
Proof. destruct c; cbn; naive_solver. Qed.

(** C21: the EVM never reads a wrong value.  Let [T] be the full state trie
    behind the parent header's state root, and let no two encodings of its nodes
    and of the nodes the host sent collide under Keccak-256.  When [witness_db]
    accepts a state of well-formed tries, every read the database answers is the
    truth: an account is [T]'s; a slot is that of the full storage trie [S] whose
    root [T] records, where the encodings of its nodes and of those sent for the
    account do not collide either; a code hashes to the requested hash; and a
    block hash is the hash of an ancestor header of that number, the headers being
    linked by parent hash back from the current one. *)
Theorem witness_reads_sound st anchor codes headers db T :
  state_ok st -> witness_db st anchor codes (map seal_slow headers) = Ok db ->
  wire_ok T -> resolved T -> hash_of T = anchor -> coll_free (state_encodings db ++ node_encodings T) ->
  (forall a o, basic_ref db a = Ok o ->
     exists acct, get_rlp T (keccak256 a) = Ok acct /\ o = option_map account_info acct) /\
  (forall a i v S root, storage_ref db a i = Ok v -> recorded_root T (keccak256 a) root ->
     wire_ok S -> resolved S -> hash_of S = root -> coll_free (storage_encodings db a ++ node_encodings S) ->
     exists o, get_u256 S (keccak256 (be_encode 32 i)) = Ok o /\ v = default 0 o) /\
  (forall h c, code_by_hash_ref db h = Ok c -> bytecode_hash_slow c = h) /\
  linked headers /\
  (forall n h, block_hash_ref db n = Ok h ->
     exists hd, hd ∈ tail headers /\ number hd = n /\ hash_slow hd = h).
Proof.
  intros Hst E HwT HrT HhT HK.
  destruct (witness_db_ok _ _ _ _ _ Hst E) as ([Hwi Hci] & Heq & Hanchor & Hss & Hcodes & Hlink & Hbh).
  assert (Hhi : hash_of (state_trie (inner db)) = hash_of T) by (rewrite (hash_of_equiv _ _ Heq); congruence).
  split_and!; [| | |done|].
  - intros a o Ho. unfold basic_ref in Ho. apply bind_Ok in Ho as (acct & Hg & Ho).
    apply unwrap_res_inv in Hg. apply Ok_inj in Ho as <-.
    pose proof (get_rlp_sound _ T _ _ Hwi HwT HrT HK Hhi Hg). eauto.
  - intros a i v S root Hv (acct & HaT & ->) HwS HrS HhS HKs. unfold storage_ref in Hv.
    apply bind_Ok in Hv as (t & Ht & Hv). apply unwrap_Ok in Ht. unfold storage_encodings in HKs. rewrite Ht in HKs.
    apply bind_Ok in Hv as (o & Hg & Hv). apply unwrap_res_inv in Hg. apply Ok_inj in Hv as <-.
    destruct (Hss _ _ Ht) as ([Hwt _] & acct' & Ha' & Hr').
    pose proof (get_rlp_sound _ T _ _ Hwi HwT HrT HK Hhi Ha') as HgT. rewrite HaT in HgT. injection HgT as ->.
    assert (HtS : hash_of t = hash_of S) by congruence.
    pose proof (get_u256_sound t S _ _ Hwt HwS HrS HKs HtS Hg). eauto.
  - intros h c Hc. apply unwrap_Ok in Hc. by apply Hcodes.
  - intros n h Hn. apply unwrap_Ok in Hn. by apply Hbh.
Qed.
End WitnessDb.

(** ** Why the shape of the tries matters *)
Section Forge.
Context `{Keccak, AlloyRlp, RlpReader} {laws : AlloyRlpLaws}.

(** A leaf whose path is empty, to hang below an extension. *)
Definition forged_child (v : list Z) : MptNode := from_data (Leaf (to_encoded_path [] true) v).

(** The honest leaf: at [key], the 32-byte value that is the hash of
    [forged_child v]. *)
Definition honest_leaf (key v : list Z) : MptNode :=
  from_data (Leaf (to_encoded_path (to_nibs key) true) (hash_of (forged_child v))).

(** What a host can send instead: an extension node that carries a leaf's
    path. *)
Definition forged_extension (key v : list Z) : MptNode :=
  from_data (Extension (to_encoded_path (to_nibs key) true) (forged_child v)).

Lemma forged_child_ref v :
  (32 <= length v)%nat ->
  ref_of (forged_child v) = RefDigest (hash_of (forged_child v)) /\
  length (hash_of (forged_child v)) = 32%nat.
Proof.
  intros Hv. unfold hash_of, forged_child. cbn [as_data from_data ref_of]. unfold reference_of_encoding.
  rewrite decide_False.
  - split; [done|apply keccak256_length].
  - unfold encode_leaf. rewrite !length_app, !string_encode_length. pose proof (string_length_ge v). lia.
Qed.

(** An extension to a digest is encoded as a leaf with that value. *)
Lemma encode_extension_as_leaf p d :
  length d = 32%nat -> encode_extension p (RefDigest d) = encode_leaf p d.
Proof.
  intros Hd. assert (Hl : string_length d = 33%nat).
  { rewrite <- string_encode_length, (string_encode_32 d) by done. cbn [length]. by rewrite Hd. }
  unfold encode_extension, encode_leaf, extension_payload_length, leaf_payload_length.
  cbn [reference_encode reference_length]. rewrite Hl, (string_encode_32 d) by done. done.
Qed.

(** C38: the root hash does not bind a deserialized trie.  [MptNode] is read
    with serde, which checks neither the hex-prefix flag nor the kind of a
    node, so a leaf whose value is a 32-byte hash has the same encoding as an
    extension with the leaf's path and the hashed node below it.  Both have the
    same root hash, no collision involved, but the lookup answers [v] instead
    of the stored value. *)
Theorem unvalidated_node_forges key v :
  Bytes key -> (32 <= length v)%nat ->
  hash_of (forged_extension key v) = hash_of (honest_leaf key v) /\
  get (honest_leaf key v) key = Ok (Some (hash_of (forged_child v))) /\
  get (forged_extension key v) key = Ok (Some v).
Proof.
  intros Hk Hv. destruct (forged_child_ref v Hv) as [Href H32].
  assert (Hp : prefix_nibs (to_encoded_path (to_nibs key) true) = Some (to_nibs key))
    by (apply prefix_nibs_to_encoded_path; by apply to_nibs_nibs).
  split_and!.
  - assert (E : ref_of (forged_extension key v) = ref_of (honest_leaf key v)).
    { unfold forged_extension, honest_leaf. cbn [ref_of from_data].
      rewrite Href. by rewrite encode_extension_as_leaf. }
    change (hash_of (forged_extension key v)) with
      (match ref_of (forged_extension key v) with RefDigest d => d | RefBytes b => keccak256 b end).
    by rewrite E.
  - unfold get, honest_leaf. cbn [get_internal from_data]. rewrite Hp. cbn [unwrap mbind outcome_bind].
    by rewrite decide_True.
  - unfold get, forged_extension. cbn [get_internal from_data]. rewrite Hp.
    cbn [unwrap mbind outcome_bind].
    replace (strip_prefix (to_nibs key) (to_nibs key)) with (Some (@nil Z))
      by (symmetry; apply strip_prefix_Some; by rewrite app_nil_r).
    unfold forged_child. cbn [get_internal from_data]. done.
Qed.
End Forge.

Section Samples.
#[local] Existing Instance RefRlp.alloy.
#[local] Existing Instance RefRlp.reader.
#[local] Existing Instance sample_keccak.
#[local] Existing Instance sample_codec.

(** Stand-ins: a header is encoded by its number, hashes are Keccak hashes. *)
Definition sample_header_rlp (n : Z) : list Z := list_encode [string_encode (be_encode 8 n)].
Definition sample_hash (n : Z) : list Z := keccak256 (sample_header_rlp n).
#[local] Instance sample_types : ChainTypes := {|
  Bytecode := list Z;
  hash_slow h := sample_hash (number h);
  bytecode_hash_slow := keccak256;
  u256_decode b := match b with [z] => Some z | _ => None end |}.

Definition sample_header (n : Z) (root parent : list Z) : Header := {|
  parent_hash := parent; ommers_hash := []; beneficiary := []; header_state_root := root;
  transactions_root := []; receipts_root := []; logs_bloom := []; difficulty := 0; number := n;
  gas_limit := 0; gas_used := 0; timestamp := 0; extra_data := []; mix_hash := []; header_nonce := [];
  base_fee_per_gas := None; withdrawals_root := None; blob_gas_used := None; excess_blob_gas := None;
  parent_beacon_block_root := None; requests_hash := None; block_access_list_hash := None;
  slot_number := None |}.

Definition sample_headers : list Header :=
  [sample_header 7 [] (sample_hash 6); sample_header 6 (hash_of sample_branch) (sample_hash 5)].

(** A truncated state trie for the parent's root, and one bytecode. *)
Definition sample_state : EthereumState := {| state_trie := sample_sparse; storage_tries := ∅ |}.

Definition sample_codes : list Bytecode := [[96; 0]].

Definition sample_db : TrieDB :=
  match witness_db sample_state (hash_of sample_branch) sample_codes (map seal_slow sample_headers) with
  | Ok db => db
  | _ => {| inner := sample_state; block_hashes := ∅; bytecode_by_hash := ∅ |}
  end.

Lemma sample_state_ok : state_ok sample_state.
Proof.
  split; [split; [apply sample_sparse_ok|]|].
  - apply cache_ok_branch. intros [|[|i]] c Hi; unfold child_at in Hi; cbn [lookup list_lookup] in Hi.
    + injection Hi as <-. apply cache_ok_leaf.
    + injection Hi as <-. apply (cache_ok_fresh _ None). intros c' Hc'. destruct Hc'.
    + apply lookup_replicate in Hi as [? _]. done.
  - intros a t. cbn [sample_state storage_tries]. by rewrite lookup_empty.
Qed.

Lemma sample_db_ok :
  witness_db sample_state (hash_of sample_branch) sample_codes (map seal_slow sample_headers) = Ok sample_db.
Proof.
  assert (Hok : match witness_db sample_state (hash_of sample_branch) sample_codes (map seal_slow sample_headers)
    with Ok _ => true | _ => false end = true) by (vm_compute; reflexivity).
  unfold sample_db. revert Hok.
  generalize (witness_db sample_state (hash_of sample_branch) sample_codes (map seal_slow sample_headers)).
  intros [db| |]; [reflexivity|discriminate..].
Qed.

Lemma unvalidated_node_forges_witness :
  let key := replicate 32 7 in let v := replicate 33 160 in
  hash_of (forged_extension key v) = hash_of (honest_leaf key v) /\
  get (honest_leaf key v) key = Ok (Some (hash_of (forged_child v))) /\
  get (forged_extension key v) key = Ok (Some v).
Proof.
  apply (unvalidated_node_forges (laws := RefRlp.alloy_laws));
    [apply (bool_decide_unpack _); by vm_compute|cbn; lia].
Defined.
End Samples.

(** ** Reads from a truncated witness

    The state and the storage of one account, with the rest of both tries cut
    off by its hash. *)
Section Reads.
#[local] Existing Instance RefRlp.alloy.
#[local] Existing Instance RefRlp.reader.
#[local] Existing Instance sample_keccak.
#[local] Existing Instance sample_types.

(** Accounts with one-byte fields. *)
#[local] Instance byte_codec : AccountCodec := {|
  account_encode a := nonce a :: balance a :: storage_root a ++ code_hash a;
  account_decode bs :=
    match bs with
    | n :: b :: rest => Some {| nonce := n; balance := b; storage_root := take 32 rest; code_hash := drop 32 rest |}
    | _ => None
    end;
  u256_encode z := [z] |}.

(** A branch with the leaf of [key] and another leaf, [cut] off or not. *)
Definition two_leaves (cut : bool) (key v : list Z) : MptNode :=
  let x := Z.to_nat (hd 0 (to_nibs key)) in
  from_data (Branch (
    <[((x + 1) mod 16)%nat := Some (if cut then from_data (Digest (hash_of sample_large_leaf)) else sample_large_leaf)]>
    (<[x := Some (from_data (Leaf (to_encoded_path (tail (to_nibs key)) true) v))]> (replicate 16 None)))).

Lemma two_leaves_ok cut key v : Bytes key -> Bytes v ->
  Z.of_nat (string_length (to_encoded_path (tail (to_nibs key)) true) + string_length v) < 2 ^ 64 ->
  trie_ok (two_leaves cut key v) /\ (cut = false -> resolved (two_leaves cut key v)).
Proof.
  intros Hk Hv Hl. unfold two_leaves. set (x := Z.to_nat _).
  assert (Hch : forall i c, child_at (<[((x + 1) mod 16)%nat := Some (if cut then from_data (Digest (hash_of sample_large_leaf)) else sample_large_leaf)]>
    (<[x := Some (from_data (Leaf (to_encoded_path (tail (to_nibs key)) true) v))]> (replicate 16 None))) i c ->
    (wire_ok c /\ ~ is_null c) /\ cache_ok c /\ (cut = false -> resolved c)).
  { intros i c [(_ & E & _)|[_ [(_ & E & _)|[_ E]]%list_lookup_insert_Some]]%list_lookup_insert_Some.
    - destruct cut; injection E as <-.
      + split_and!; [constructor; [apply (bool_decide_unpack _); by vm_compute|done]|done| |done].
        apply (cache_ok_fresh _ None). intros c' Hc'. destruct Hc'.
      + split_and!; [|done|apply cache_ok_leaf|by constructor].
        apply wire_Leaf; [apply (bool_decide_unpack _); by vm_compute..|by vm_compute].
    - injection E as <-. split_and!; [|done|apply cache_ok_leaf|by constructor]. apply wire_Leaf; [|done|done].
      pose proof (to_nibs_nibs key Hk) as Hn. destruct Hn; [constructor|done].
    - apply lookup_replicate in E as [? _]. done. }
  split; [split|].
  - apply wire_Branch; [by rewrite !length_insert, length_replicate|intros i c Hi; by apply (Hch i)..].
  - apply cache_ok_branch. intros i c Hi. by apply (Hch i).
  - intros Hcut. constructor. intros i c Hi. by apply (Hch i).
Qed.

Definition read_address : list Z := replicate 20 9.
Definition read_slot : list Z := keccak256 (be_encode 32 5).
Definition read_storage (cut : bool) : MptNode := two_leaves cut read_slot [7].
Definition read_account : TrieAccount :=
  {| nonce := 1; balance := 100; storage_root := hash_of (read_storage false); code_hash := keccak256 [96; 0] |}.
Definition read_trie (cut : bool) : MptNode := two_leaves cut (keccak256 read_address) (account_encode read_account).
Definition read_headers : list Header :=
  [sample_header 7 [] (sample_hash 6); sample_header 6 (hash_of (read_trie false)) (sample_hash 5)].
Definition read_witness : EthereumState :=
  {| state_trie := read_trie true; storage_tries := {[keccak256 read_address := read_storage true]} |}.
Definition read_db : TrieDB :=
  match witness_db read_witness (hash_of (read_trie false)) sample_codes (map seal_slow read_headers) with
  | Ok db => db
  | _ => {| inner := read_witness; block_hashes := ∅; bytecode_by_hash := ∅ |}
  end.

Lemma read_db_ok :
  witness_db read_witness (hash_of (read_trie false)) sample_codes (map seal_slow read_headers) = Ok read_db.
Proof.
  assert (Hok : match witness_db read_witness (hash_of (read_trie false)) sample_codes (map seal_slow read_headers)
    with Ok _ => true | _ => false end = true) by (vm_compute; reflexivity).
  unfold read_db. revert Hok.
  generalize (witness_db read_witness (hash_of (read_trie false)) sample_codes (map seal_slow read_headers)).
  intros [db| |]; [reflexivity|discriminate..].
Qed.

Lemma read_storage_ok cut : trie_ok (read_storage cut) /\ (cut = false -> resolved (read_storage cut)).
Proof.
  apply (two_leaves_ok cut read_slot [7]); [apply keccak256_bytes|apply (bool_decide_unpack _); by vm_compute|].
  vm_compute. reflexivity.
Qed.
Lemma read_trie_ok cut : trie_ok (read_trie cut) /\ (cut = false -> resolved (read_trie cut)).
Proof.
  apply (two_leaves_ok cut (keccak256 read_address) (account_encode read_account)).
  - apply keccak256_bytes.
  - apply (bool_decide_unpack _). vm_compute. exact I.
  - vm_compute. reflexivity.
Qed.

Lemma read_witness_ok : state_ok read_witness.
Proof.
  split; [apply read_trie_ok|]. intros a t. cbn [read_witness storage_tries].
  intros [_ <-]%lookup_singleton_Some. apply read_storage_ok.
Qed.

Lemma witness_reads_sound_witness :
  (basic_ref read_db read_address = Ok (Some (account_info read_account)) /\
   exists acct, get_rlp (read_trie false) (keccak256 read_address) = Ok acct /\
     Some (account_info read_account) = option_map account_info acct) /\
  (storage_ref read_db read_address 5 = Ok 7 /\
   exists o, get_u256 (read_storage false) read_slot = Ok o /\ 7 = default 0 o) /\
  (block_hash_ref read_db 6 = Ok (sample_hash 6) /\
   exists hd, hd ∈ tail read_headers /\ number hd = 6 /\ hash_slow hd = sample_hash 6).
Proof.
  assert (Hk : keccak256 [EMPTY_STRING_CODE] = EMPTY_ROOT) by (vm_compute; reflexivity).
  assert (HK : coll_free (state_encodings read_db ++ node_encodings (read_trie false)))
    by (apply (bool_decide_unpack _); vm_compute; exact I).
  assert (HKs : coll_free (storage_encodings read_db read_address ++ node_encodings (read_storage false)))
    by (apply (bool_decide_unpack _); vm_compute; exact I).
  destruct (witness_reads_sound (laws := RefRlp.alloy_laws) (rlaws := RefRlp.reader_laws)
    Hk read_witness (hash_of (read_trie false)) sample_codes read_headers read_db (read_trie false)
    read_witness_ok read_db_ok (proj1 (proj1 (read_trie_ok false))) (proj2 (read_trie_ok false) eq_refl) eq_refl HK)
    as (Wa & Ws & _ & _ & Wh).
  assert (Ea : basic_ref read_db read_address = Ok (Some (account_info read_account))) by (vm_compute; reflexivity).
  assert (Es : storage_ref read_db read_address 5 = Ok 7) by (vm_compute; reflexivity).
  assert (Eh : block_hash_ref read_db 6 = Ok (sample_hash 6)) by (vm_compute; reflexivity).
  assert (Hr : recorded_root (read_trie false) (keccak256 read_address) (hash_of (read_storage false)))
    by (exists (Some read_account); split; vm_compute; reflexivity).
  split; [exact (conj Ea (Wa _ _ Ea))|]. split; [|exact (conj Eh (Wh _ _ Eh))].
  exact (conj Es (Ws _ _ _ _ _ Es Hr (proj1 (proj1 (read_storage_ok false))) (proj2 (read_storage_ok false) eq_refl) eq_refl HKs)).
Defined.
End Reads.
