(* ===== verification/Executor.v ===== *)
(** * The block executor ([crates/executor/client/src/executor.rs])

    [ClientExecutor::execute] verifies one state transition: the parent state
    is the one the parent header commits to, the EVM runs on it, and the state
    after applying the diff has the root the block announces.  The EVM, the
    consensus rules and sender recovery are libraries, the class [Reth]; the
    EVM sees the state only through the four reads of [DatabaseRef]. *)
From S2P Require Import Prelude BytesCodec Nibbles Mpt MptInv MptMap Rlp MptHash MptCache.
From S2P Require Import MptWire MptProof MptTries EthState Network Merkle EventsHash WitnessDb.

(** [reth_consensus::ConsensusError], as far as [handle_custom_chains] looks. *)
Inductive ConsensusError :=
  | ExtraDataExceedsMax
  | TheMergeDifficultyIsNotZero
  | OtherConsensusError.

(** [alloy_chains::NamedChain], as far as it is matched on. *)
Inductive NamedChain := Linea | LineaSepolia | LineaGoerli | OtherChain.

(** [revm::DatabaseRef]. *)
Record DatabaseRef `{ChainTypes} : Type := {
  db_basic : list Z -> outcome unit (option AccountInfo);
  db_code_by_hash : list Z -> outcome unit Bytecode;
  db_storage : list Z -> Z -> outcome unit Z;
  db_block_hash : Z -> outcome unit (list Z) }.

(** The libraries: block bodies and execution outputs are theirs. *)
Class Reth `{ChainTypes} := {
  Body : Type;
  Senders : Type;
  ExecutionOutput : Type;
  recover_senders : Header -> Body -> option Senders;
  beacon_validate_header : Z -> Header -> option ConsensusError;
  validate_body_against_header : Body -> Header -> bool;
  beacon_validate_header_against_parent : Z -> Header -> Header -> bool;
  named_chain : Z -> option NamedChain;
  evm_execute : bool -> DatabaseRef -> Header -> Body -> Senders -> outcome unit ExecutionOutput;
  beacon_validate_post_execution : Z -> Header -> Body -> ExecutionOutput -> bool;
  execution_receipts : ExecutionOutput -> list Receipt;
  hash_state_slow : ExecutionOutput -> HashedPostState }.

Section Executor.
Context `{Keccak, AlloyRlp, RlpReader, AccountCodec, ChainTypes, !Reth}.

(** [alloy_consensus::Block] and [ClientExecutorInput]. *)
Record Block : Type := { header : Header; body : Body }.
Record ClientExecutorInput : Type := {
  current_block : Block;
  ancestor_headers : list Header;
  parent_state : EthereumState;
  bytecodes : list Bytecode;
  custom_beneficiary : option (list Z);
  opcode_tracking : bool }.

(** [parent_header]: panics without ancestors. *)
Definition parent_header (input : ClientExecutorInput) : outcome ClientError Header :=
  unwrap (head (ancestor_headers input)).

Definition sealed_headers (input : ClientExecutorInput) : list (Header * list Z) :=
  seal_slow (header (current_block input)) :: map seal_slow (ancestor_headers input).

(** [ClientExecutorInput::witness_db]. *)
Definition input_witness_db (input : ClientExecutorInput) (headers : list (Header * list Z))
  : outcome ClientError TrieDB :=
  parent ← parent_header input;
  witness_db (parent_state input) (header_state_root parent) (bytecodes input) headers.

(** [handle_custom_chains] ([into_primitives.rs]); [true] is [Ok(())]. *)
Definition handle_custom_chains (result : option ConsensusError) (chain_id : Z) : bool :=
  match result with
  | None => true
  | Some err =>
      match named_chain chain_id with
      | None => false
      | Some (Linea | LineaSepolia | LineaGoerli) =>
          match err with ExtraDataExceedsMax | TheMergeDifficultyIsNotZero => true | _ => false end
      | Some OtherChain => false
      end
  end.

Definition validate_header (chain_id : Z) (h : Header) : bool :=
  handle_custom_chains (beacon_validate_header chain_id h) chain_id.

Definition validate_block (chain_id : Z) (b : Block) : bool :=
  validate_header chain_id (header b) && validate_body_against_header (body b) (header b).

(** The view of the database the EVM gets. *)
Definition wrap_database_ref (db : TrieDB) : DatabaseRef := {|
  db_basic := basic_ref db;
  db_code_by_hash := code_by_hash_ref db;
  db_storage := storage_ref db;
  db_block_hash := block_hash_ref db |}.

(** The header that is returned: every field copied, the state root the
    computed one, the two newest fields absent. *)
Definition derive_header (h : Header) (state_root : list Z) : Header := {|
  parent_hash := parent_hash h;
  ommers_hash := ommers_hash h;
  beneficiary := beneficiary h;
  header_state_root := state_root;
  transactions_root := transactions_root h;
  receipts_root := receipts_root h;
  logs_bloom := logs_bloom h;
  difficulty := difficulty h;
  number := number h;
  gas_limit := gas_limit h;
  gas_used := gas_used h;
  timestamp := timestamp h;
  extra_data := extra_data h;
  mix_hash := mix_hash h;
  header_nonce := header_nonce h;
  base_fee_per_gas := base_fee_per_gas h;
  withdrawals_root := withdrawals_root h;
  blob_gas_used := blob_gas_used h;
  excess_blob_gas := excess_blob_gas h;
  parent_beacon_block_root := parent_beacon_block_root h;
  requests_hash := requests_hash h;
  block_access_list_hash := None;
  slot_number := None |}.

(** The loop over [(header, parent)] windows: both [expect]s. *)
Definition validate_window (chain_id : Z) (u : unit) (w : (Header * list Z) * (Header * list Z))
  : outcome ClientError unit :=
  let '(header, parent) := w in
  _ ← ensure (validate_header chain_id parent.1);
  ensure (beacon_validate_header_against_parent chain_id header.1 parent.1).

Definition execute (net : network) (input : ClientExecutorInput)
  : outcome ClientError (Header * BridgeHashes) :=
  let chain_id := FLUENT_CHAIN_ID net in
  let block := current_block input in
  let sealed := sealed_headers input in
  db ← unwrap_res (input_witness_db input sealed);
  match recover_senders (header block) (body block) with
  | None => Err SignatureRecoveryFailed
  | Some senders =>
      _ ← ensure (validate_block chain_id block);
      _ ← for_each (validate_window chain_id) tt (tuple_windows sealed);
      execution_output ←
        map_err (fun _ => BlockExecutionError)
          (evm_execute (opcode_tracking input) (wrap_database_ref db) (header block) (body block) senders);
      if negb (beacon_validate_post_execution chain_id (header block) (body block) execution_output)
      then Err PostExecutionError
      else
        state ← infallible (update (hash_state_slow execution_output) (inner db));
        let root := state_root state in
        if decide (root <> header_state_root (header block)) then Err MismatchedStateRoot
        else
          hashes ← map_err (fun _ => FailedToSerializeWithdrawalEvents)
            (calculate_bridge_hashes net (BRIDGE_INFO net) [execution_receipts execution_output]);
          Ok (derive_header (header block) root, hashes)
  end.

(** [EthClientExecutor::eth]: the custom beneficiary is not used, so the
    executor is a function of the chain alone. *)
Definition eth (net : network) (_custom_beneficiary : option (list Z)) :
  ClientExecutorInput -> outcome ClientError (Header * BridgeHashes) := execute net.

(** ** What a successful execution proves *)
Context {claws : AccountCodecLaws}.

Lemma sealed_headers_map input :
  sealed_headers input = map seal_slow (header (current_block input) :: ancestor_headers input).
Proof. done. Qed.

Lemma derive_header_same h :
  block_access_list_hash h = None -> slot_number h = None -> derive_header h (header_state_root h) = h.
Proof. destruct h. cbn. by intros -> ->. Qed.

(** C15: what an execution that succeeds has verified.  The parent state hashes
    to the state root of the first ancestor; the headers form a chain up to the
    current block; the EVM ran on the witnessed state; the state root after the
    EVM's changes is the one the block announces, and, when the parent state is
    fully loaded, it is the root of the specification's updated account map;
    the result is the block's own header, up to the two fields the guest does
    not know, and the bridge hashes of the receipts. *)
Theorem execute_verifies net input h hashes :
  state_ok (parent_state input) ->
  execute net input = Ok (h, hashes) ->
  exists parent rest db senders out st',
    ancestor_headers input = parent :: rest /\
    hash_of (state_trie (parent_state input)) = header_state_root parent /\
    linked (header (current_block input) :: ancestor_headers input) /\
    input_witness_db input (sealed_headers input) = Ok db /\
    evm_execute (opcode_tracking input) (wrap_database_ref db) (header (current_block input))
      (body (current_block input)) senders = Ok out /\
    update (hash_state_slow out) (inner db) = Ok st' /\
    state_root st' = header_state_root (header (current_block input)) /\
    (forall s, implements (inner db) s -> post_ok (hash_state_slow out) ->
       header_state_root (header (current_block input)) = map_root (spec_update (hash_state_slow out) s).1) /\
    calculate_bridge_hashes net (BRIDGE_INFO net) [execution_receipts out] = Ok hashes /\
    parent_hash h = hash_slow parent /\
    (block_access_list_hash (header (current_block input)) = None ->
     slot_number (header (current_block input)) = None -> h = header (current_block input)).
Proof.
  intros Hst E. unfold execute in E. apply bind_Ok in E as (db & Edb & E).
  apply unwrap_res_inv in Edb. destruct (recover_senders _ _) as [senders|]; [|done].
  apply bind_Ok in E as ([] & _ & E). apply bind_Ok in E as ([] & _ & E).
  apply bind_Ok in E as (out & Eout & E). destruct (negb _); [done|].
  apply bind_Ok in E as (st' & Eup & E). apply infallible_Ok in Eup.
  case_decide as Hroot; [done|]. apply bind_Ok in E as (hs & Ehs & E). injection E as <- <-.
  pose proof Edb as Edb'. unfold input_witness_db, parent_header in Edb.
  apply bind_Ok in Edb as (parent & Hp & Edb). apply unwrap_Ok in Hp.
  destruct (ancestor_headers input) as [|p rest] eqn:Hanc; [done|]. injection Hp as ->.
  rewrite sealed_headers_map, Hanc in Edb.
  destruct (witness_db_ok _ _ _ _ _ Hst Edb) as (_ & _ & Hanchor & _ & _ & Hlink & _).
  exists parent, rest, db, senders, out, st'. split_and!; try done.
  - destruct (evm_execute _ _ _ _ _); [|done..]. by injection Eout as ->.
  - intros s Him Hpost. destruct (update_implements _ _ _ Him Hpost) as (st2 & E2 & _ & Hr2).
    congruence.
  - destruct (calculate_bridge_hashes _ _ _); [|done..]. by injection Ehs as ->.
  - cbn [derive_header parent_hash]. by destruct Hlink as (_ & -> & _).
  - intros Hb Hs. rewrite Hroot. by apply derive_header_same.
Qed.
End Executor.

Section Samples.
#[local] Existing Instance RefRlp.alloy.
#[local] Existing Instance RefRlp.reader.
#[local] Existing Instance sample_keccak.
#[local] Existing Instance sample_codec.
#[local] Existing Instance sample_types.

(** Stand-ins: a block's body is its receipts, and execution changes nothing. *)
#[local] Instance sample_reth : Reth := {|
  Body := list Receipt;
  Senders := unit;
  ExecutionOutput := list Receipt;
  recover_senders _ _ := Some tt;
  beacon_validate_header _ _ := None;
  validate_body_against_header _ _ := true;
  beacon_validate_header_against_parent _ _ _ := true;
  named_chain _ := None;
  evm_execute _ _ _ b _ := Ok b;
  beacon_validate_post_execution _ _ _ _ := true;
  execution_receipts o := o;
  hash_state_slow _ := {| accounts := []; post_storages := ∅ |} |}.

Definition sample_input : ClientExecutorInput := {|
  current_block := {| header := sample_header 7 (hash_of sample_branch) (sample_hash 6);
                      body := concat sample_receipts |};
  ancestor_headers := [sample_header 6 (hash_of sample_branch) (sample_hash 5)];
  parent_state := sample_state;
  bytecodes := [];
  custom_beneficiary := None;
  opcode_tracking := false |}.

Lemma execute_verifies_witness :
  exists h hashes, execute mainnet sample_input = Ok (h, hashes) /\
    h = header (current_block sample_input) /\ parent_hash h = sample_hash 6.
Proof.
  eexists _, _. assert (E : execute mainnet sample_input = Ok (_, _)) by (vm_compute; reflexivity).
  split; [exact E|].
  destruct (execute_verifies (claws := sample_codec_laws) mainnet sample_input _ _ sample_state_ok E)
    as (? & ? & ? & ? & ? & ? & _ & _ & _ & _ & _ & _ & _ & _ & _ & Hp & Hh).
  split; [exact (Hh eq_refl eq_refl)|reflexivity].
Defined.
End Samples.
