(* ===== verification/Enclave.v ===== *)
(** * The Nitro enclave's operations ([bin/client/src/nitro/mod.rs])

    Executing and signing single blocks, the store of executed blocks, and
    signing a batch: its responses are verified, its Merkle root computed, its
    blobs decoded and compared block by block.  ECDSA over secp256k1, SHA-256,
    HKDF and KZG commitments are libraries. *)
From S2P Require Import Prelude BytesCodec Rlp NitroTypes Network Merkle EventsHash BlobCodec.
From S2P Require Import BlobPayload WitnessDb Executor.

(** [k256], [sha2], [hkdf] and [c_kzg], as the enclave uses them. *)
Class EnclaveCrypto := {
  SigningKey : Type;
  VerifyingKey : Type;
  verifying_key : SigningKey -> VerifyingKey;
  encoded_point : VerifyingKey -> list Z;
  signing_key_of_secret : list Z -> option SigningKey;
  sign : SigningKey -> list Z -> list Z;
  sign_digest_recoverable : SigningKey -> list Z -> option (list Z * Z);
  is_high_s : list Z -> bool;
  signature_from_slice : list Z -> bool;
  verify : VerifyingKey -> list Z -> list Z -> bool;
  sha256 : list Z -> list Z;
  hkdf_extract : list Z -> list Z -> list Z;
  hkdf_expand : list Z -> list Z -> nat -> option (list Z);
  kzg_blob_from_bytes : list Z -> bool;
  blob_to_kzg_commitment : list Z -> option (list Z) }.

(** [anyhow::Error], one constructor per message of the enclave. *)
Inductive EnclaveError :=
  | InvalidBatchRange (from_ to_ : Z)
  | DuplicateBlockNumber (n : Z)
  | MutexPoisoned
  | NoLeaves
  | BadBlobSize (i : nat)
  | InvalidBlobBytes
  | KzgCommitmentFailed
  | InvalidSignatureEncoding
  | SignatureVerificationFailed
  | BlobPayloadError (e : blob_error)
  | BlobTruncated (i : nat)
  | BlobDecode (i : nat) (e : blob_error)
  | BlockHashMismatch (i : nat)
  | TrailingBlocks
  | BlockExecutionFailed (e : ClientError)
  | HkdfExpansionFailed
  | NoValidKey
  | InvalidKeyBytes
  | KmsFailed
  | NsmFailed.

Section Enclave.
Context `{Keccak, AlloyRlp, Brotli, EnclaveCrypto} (net : network).

(** ** Versioned hashes *)

Definition blob_to_versioned_hash (blob : list Z) : outcome EnclaveError (list Z) :=
  if negb (kzg_blob_from_bytes blob) then Err InvalidBlobBytes
  else match blob_to_kzg_commitment blob with
       | None => Err KzgCommitmentFailed
       | Some commitment => Ok (1 :: drop 1 (sha256 commitment))
       end.

Definition compute_versioned_hashes (blobs : list (list Z)) : outcome EnclaveError (list (list Z)) :=
  mapM (fun ib => if decide (length ib.2 = BYTES_PER_BLOB) then blob_to_versioned_hash ib.2
                  else Err (BadBlobSize ib.1))
    (zip (seq 0 (length blobs)) blobs).

(** ** The block store *)

Definition MAX_ENTRIES : nat := Z.to_nat (Z.shiftl 1 18).

Record BlockEntry : Type := { entry_leaf : list Z; entry_block_hash : list Z }.

Abbreviation entries := (gmap Z BlockEntry).

(** [while self.entries.len() > MAX_ENTRIES]: drop the oldest key.  Each round
    removes one entry, so the size is enough fuel; on an empty map the [unwrap]
    would panic. *)
Fixpoint evict (fuel : nat) (m : entries) : outcome unit entries :=
  if decide (MAX_ENTRIES < size m)%nat then
    match fuel with
    | O => Panic
    | S fuel' =>
        oldest ← unwrap (head (sorted_keys m));
        evict fuel' (delete oldest m)
    end
  else Ok m.

Definition block_store_get (m : entries) (block_number : Z) : option BlockEntry := m !! block_number.

Definition block_store_insert (m : entries) (block_number : Z) (entry : BlockEntry)
  : outcome unit entries :=
  let m := <[block_number := entry]> m in
  evict (size m) m.

(** [Mutex<BlockStore>]: a panic while the lock is held poisons it. *)
Record Mutex : Type := { poisoned : bool; store : entries }.

(** ** Leaves, payloads and their encodings *)

Definition compute_leaf (parent_hash block_hash withdrawal_hash deposit_hash : list Z) : list Z :=
  keccak256 (parent_hash ++ block_hash ++ withdrawal_hash ++ deposit_hash).

(** The 72 bytes [number || leaf || hash]. *)
Definition execution_sign_payload (block_number : Z) (leaf block_hash : list Z) : list Z :=
  be_encode 8 block_number ++ leaf ++ block_hash.

Definition verify_response (resp : EthExecutionResponse) (vk : VerifyingKey) : outcome EnclaveError unit :=
  let payload := execution_sign_payload (block_number resp) (leaf resp) (block_hash resp) in
  if negb (signature_from_slice (resp_signature resp)) then Err InvalidSignatureEncoding
  else if negb (verify vk payload (resp_signature resp)) then Err SignatureVerificationFailed
  else Ok tt.

(** [abi.encode(chainid, verifier, batchRoot, blobHashes)], word by word. *)
Definition abi_encode_batch (batch_root : list Z) (hashes : list (list Z)) : list Z :=
  let chain_id_word := replicate 24 0 ++ be_encode 8 (L1_CHAIN_ID net) in
  let verifier_word := replicate 12 0 ++ NITRO_VERIFIER_ADDRESS net in
  let offset := replicate 31 0 ++ [0x80] in
  let len := replicate 24 0 ++ be_encode 8 (Z.of_nat (length hashes)) in
  chain_id_word ++ verifier_word ++ batch_root ++ offset ++ len ++ concat hashes.

(** [sign_batch]: the [expect] and the [assert!] on low [s] are panics. *)
Definition sign_batch (batch_root : list Z) (versioned_hashes : list (list Z)) (key : SigningKey)
  : outcome EnclaveError SubmitBatchResponse :=
  let encoded := abi_encode_batch batch_root versioned_hashes in
  '(sig, recid) ← unwrap (sign_digest_recoverable key (sha256 encoded));
  _ ← ensure (negb (is_high_s sig));
  Ok {| batch_root := batch_root; versioned_hashes := versioned_hashes;
        signature := sig ++ [u8 (recid + 27)] |}.

(** ** Blobs against trusted block hashes *)

(** The lockstep loop of [verify_blobs]. *)
Fixpoint check_blocks (i : nat) (hashes : list (list Z)) (it : BlockIter) : outcome EnclaveError BlockIter :=
  match hashes with
  | [] => Ok it
  | expected :: rest =>
      match next it with
      | (_, None) => Err (BlobTruncated i)
      | (_, Some (Err e)) => Err (BlobDecode i e)
      | (_, Some Panic) => Panic
      | (it', Some (Ok h)) =>
          if decide (h = expected) then check_blocks (S i) rest it' else Err (BlockHashMismatch i)
      end
  end.

Definition verify_blobs (blobs block_hashes : list (list Z)) : outcome EnclaveError (list (list Z)) :=
  decompressed ← map_err BlobPayloadError (decode_blob_payload blobs);
  it ← check_blocks 0 block_hashes (iter_blocks decompressed);
  match next it with
  | (_, None) => compute_versioned_hashes blobs
  | (_, Some Panic) => Panic
  | (_, Some _) => Err TrailingBlocks
  end.

(** ** SubmitBatch *)

Inductive SubmitBatchError :=
  | InvalidSignatures (blocks : list Z)
  | Other (e : EnclaveError).

(** [response_map]: a repeated block number is an error. *)
Definition index_response (m : gmap Z EthExecutionResponse) (resp : EthExecutionResponse)
  : outcome SubmitBatchError (gmap Z EthExecutionResponse) :=
  if decide (is_Some (m !! block_number resp)) then Err (Other (DuplicateBlockNumber (block_number resp)))
  else Ok (<[block_number resp := resp]> m).

(** The accumulators [leaves], [block_hashes] and [invalid_blocks]. *)
Record collected : Type := {
  leaves : list (list Z);
  block_hashes : list (list Z);
  invalid_blocks : list Z }.

Definition push_block (c : collected) (leaf block_hash : list Z) : collected :=
  {| leaves := leaves c ++ [leaf]; block_hashes := block_hashes c ++ [block_hash];
     invalid_blocks := invalid_blocks c |}.

Definition push_invalid (c : collected) (block : Z) : collected :=
  {| leaves := leaves c; block_hashes := block_hashes c; invalid_blocks := invalid_blocks c ++ [block] |}.

(** One block of the range: a response decides alone; the snapshot of the
    store is used when there is none. *)
Definition collect_block (response_map : gmap Z EthExecutionResponse) (vk : VerifyingKey) (c : collected)
    (b : Z * option BlockEntry) : collected :=
  let '(block, cached) := b in
  match response_map !! block with
  | Some resp =>
      match verify_response resp vk with
      | Ok _ => push_block c (leaf resp) (block_hash resp)
      | _ => push_invalid c block
      end
  | None =>
      match cached with
      | Some entry => push_block c (entry_leaf entry) (entry_block_hash entry)
      | None => push_invalid c block
      end
  end.

(** [Option<BlockEntry>]: two 32-byte arrays and a tag. *)
Definition CACHED_ENTRY_SIZE : Z := 65.

(** [(from..=to).map(..).collect()] reserves the exact capacity first, and
    panics when it is more than [isize::MAX] bytes. *)
Definition snapshot_fits (from_ to_ : Z) : Prop := CACHED_ENTRY_SIZE * (to_ - from_ + 1) <= 2 ^ 63 - 1.
#[export] Instance snapshot_fits_dec from_ to_ : Decision (snapshot_fits from_ to_).
Proof. unfold snapshot_fits. apply _. Defined.

Definition handle_submit_batch (from_ to_ : Z) (responses : list EthExecutionResponse)
    (blobs : list (list Z)) (key : SigningKey) (block_store : Mutex)
  : outcome SubmitBatchError SubmitBatchResponse :=
  if decide (from_ > to_) then Err (Other (InvalidBatchRange from_ to_))
  else
    let vk := verifying_key key in
    response_map ← foldl (fun acc resp => m ← acc; index_response m resp) (Ok ∅) responses;
    if poisoned block_store then Err (Other MutexPoisoned)
    else if decide (~ snapshot_fits from_ to_) then Panic
    else
      let cached := map (fun n => (n, block_store_get (store block_store) n)) (range_incl from_ to_) in
      let c := foldl (collect_block response_map vk)
        {| leaves := []; block_hashes := []; invalid_blocks := [] |} cached in
      if decide (invalid_blocks c <> []) then Err (InvalidSignatures (invalid_blocks c))
      else
        match calculate_merkle_root (leaves c) with
        | None => Err (Other NoLeaves)
        | Some root =>
            hashes ← map_err Other (verify_blobs blobs (block_hashes c));
            map_err Other (sign_batch root hashes key)
        end.

(** [pubkey_to_eth_address]; [Keccak-256] is 32 bytes, so the slice is in range. *)
Definition pubkey_to_eth_address (public_key : list Z) : list Z :=
  if decide (length public_key < 2)%nat then replicate 20 0
  else take 20 (drop 12 (keccak256 (drop 1 public_key))).

Inductive EnclaveResponse :=
  | KeyGenerated (public_key attestation : list Z)
  | AlreadyInitialized (public_key attestation : list Z)
  | NotInitialized
  | ExecutionResult (resp : EthExecutionResponse)
  | SubmitBatchResult (resp : SubmitBatchResponse)
  | InvalidSignaturesResult (invalid_blocks : list Z) (enclave_address : list Z)
  | ErrorResponse (e : option EnclaveError).

Definition submit_batch_to_response (result : outcome SubmitBatchError SubmitBatchResponse)
    (public_key : list Z) : outcome unit EnclaveResponse :=
  match result with
  | Ok r => Ok (SubmitBatchResult r)
  | Err (InvalidSignatures blocks) => Ok (InvalidSignaturesResult blocks (pubkey_to_eth_address public_key))
  | Err (Other e) => Ok (ErrorResponse (Some e))
  | Panic => Panic
  end.
End Enclave.

Arguments MAX_ENTRIES : simpl never.
