(* ===== verification/EnclaveBatch.v ===== *)
(** * What a signed batch stands for

    The result of [handle_submit_batch] on every branch, the injectivity of the
    signed encodings, and the bound of the block store. *)
From S2P Require Import Prelude BytesCodec Rlp NitroTypes Network Merkle EventsHash BlobCodec.
From S2P Require Import BlobPayload BlobRoundtrip WitnessDb Executor Enclave.

Section Batch.
Context `{Keccak, AlloyRlp, Brotli, EnclaveCrypto} (net : network).

(** ** The lockstep walk over the blob's blocks *)

Lemma check_blocks_collect hashes : forall i it fuel,
  (length hashes < fuel)%nat ->
  (exists it', check_blocks i hashes it = Ok it' /\ exists it2, next it' = (it2, None)) <->
  collect fuel it = Some (map Ok hashes).
Proof.
  induction hashes as [|h hashes IH]; intros i it fuel Hf; (destruct fuel as [|fuel]; [cbn in Hf; lia|]);
    cbn [check_blocks collect map].
  - split.
    + intros (it' & E & it2 & Hn). apply Ok_inj in E as <-. by rewrite Hn.
    + intros E. exists it. split; [done|]. destruct (next it) as [it2 [x|]]; [|by eexists].
      destruct (collect fuel it2); by cbn in E.
  - destruct (next it) as [it2 [[h'|e|]|]] eqn:En.
    + cbn in Hf. destruct (decide (h' = h)) as [->|Hne].
      * rewrite (IH (S i) it2 fuel) by lia. split.
        -- intros ->. done.
        -- destruct (collect fuel it2) as [l|]; cbn; [|done]. intros [= ->]. done.
      * split; [by intros (? & ? & _)|]. destruct (collect fuel it2); cbn; [|done]. congruence.
    + split; [by intros (? & ? & _)|]. destruct (collect fuel it2); cbn; [|done]. congruence.
    + split; [by intros (? & ? & _)|]. destruct (collect fuel it2); cbn; [|done]. congruence.
    + split; [by intros (? & ? & _)|done].
Qed.

Context {laws : AlloyRlpLaws}.

(** Every yielded hash took a byte of the payload. *)
Lemma blocks_of_length payload items : blocks_of payload = Some items -> (length items <= S (length payload))%nat.
Proof.
  unfold blocks_of. assert (G : forall fuel it l, collect fuel it = Some l -> (length l < fuel)%nat).
  { induction fuel as [|fuel IH]; intros it l E; [done|]. cbn [collect] in E.
    destruct (next it) as [it' [x|]]; [|injection E as <-; cbn; lia].
    destruct (collect fuel it') as [rest|] eqn:Er; [|done]. injection E as <-. apply IH in Er. cbn. lia. }
  intros E%G. lia.
Qed.

Lemma verify_blobs_Ok blobs hashes vhs :
  verify_blobs blobs hashes = Ok vhs <->
  exists payload, decode_blob_payload blobs = Ok payload /\
    blocks_of payload = Some (map Ok hashes) /\ compute_versioned_hashes blobs = Ok vhs.
Proof.
  unfold verify_blobs. destruct (decode_blob_payload blobs) as [payload| |];
    [|split; [done|by intros (? & ? & _)]..].
  cbn [map_err mbind outcome_bind]. split.
  - intros E. apply bind_Ok in E as (it & Ec & E). exists payload. split; [done|].
    destruct (next it) as [it2 [[]|]] eqn:En; try done. split; [|done].
    pose proof (proj1 (check_blocks_collect hashes 0 (iter_blocks payload)
      (S (length hashes) + S (S (length payload))) ltac:(lia))) as Hc.
    destruct (blocks_of_ok payload) as (items & Ei & _). rewrite Ei.
    unfold blocks_of in Ei. f_equal. apply (inj Some).
    rewrite <- Hc by eauto. symmetry. eapply collect_more; [exact Ei|lia].
  - intros (p & [= <-] & Eb & Ev).
    pose proof (blocks_of_length _ _ Eb) as Hl. rewrite length_map in Hl.
    destruct (proj2 (check_blocks_collect hashes 0 (iter_blocks payload) (S (S (length payload))) ltac:(lia)) Eb)
      as (it' & Ec & it2 & En).
    rewrite Ec. cbn [mbind outcome_bind]. by rewrite En.
Qed.

(** ** The blocks of the range *)

(** [verify_response(..).is_ok()]. *)
Definition verified (resp : EthExecutionResponse) (vk : VerifyingKey) : bool :=
  signature_from_slice (resp_signature resp) &&
  verify vk (execution_sign_payload (block_number resp) (leaf resp) (block_hash resp)) (resp_signature resp).

(** What the enclave takes for a block: the leaf and hash of its response if
    there is one and its signature is the enclave's, else of the stored entry. *)
Definition trusted_block (responses : list EthExecutionResponse) (vk : VerifyingKey) (st : gmap Z BlockEntry)
    (n : Z) : option (list Z * list Z) :=
  match List.find (fun r => block_number r =? n) responses with
  | Some resp => if verified resp vk then Some (leaf resp, block_hash resp) else None
  | None => (fun e => (entry_leaf e, entry_block_hash e)) <$> st !! n
  end.

Lemma verify_response_verified resp vk :
  match verify_response resp vk with Ok _ => true | _ => false end = verified resp vk.
Proof.
  unfold verify_response, verified. destruct (signature_from_slice _); [|done]. cbn [negb andb].
  by destruct (verify _ _ _).
Qed.

Lemma index_responses rs : forall m,
  (forall r, r ∈ rs -> m !! block_number r = None) -> NoDup (map block_number rs) ->
  exists m', foldl (fun acc resp => m ← acc; index_response m resp) (Ok m) rs = Ok m' /\
    forall n, m' !! n = match List.find (fun r => block_number r =? n) rs with Some r => Some r | None => m !! n end.
Proof.
  induction rs as [|r rs IH]; intros m Hm Hnd; [by exists m|]. cbn [map] in Hnd.
  apply NoDup_cons in Hnd as [Hr Hnd]. cbn [foldl mbind outcome_bind]. unfold index_response at 2.
  rewrite decide_False by (rewrite (Hm r) by apply list_elem_of_here; by intros [? ?]).
  destruct (IH (<[block_number r := r]> m)) as (m' & E & Hm').
  - intros r' Hr'. rewrite lookup_insert_ne; [by apply Hm, list_elem_of_further|].
    intros Heq. apply Hr. rewrite Heq. by apply list_elem_of_fmap_2.
  - done.
  - exists m'. split; [exact E|]. intros n. rewrite Hm'. cbn [List.find].
    destruct (Z.eqb_spec (block_number r) n) as [<-|Hne].
    + destruct (List.find _ rs) as [r'|] eqn:Ef.
      * exfalso. apply find_some in Ef as [Hin Heq]. apply Z.eqb_eq in Heq. apply Hr.
        rewrite <- Heq. apply list_elem_of_fmap_2. by apply list_elem_of_In.
      * by rewrite lookup_insert_eq.
    + destruct (List.find _ rs); [done|]. by rewrite lookup_insert_ne.
Qed.

Lemma index_error e rs : foldl (fun acc resp => m ← acc; index_response m resp) (Err e) rs = Err e.
Proof. by induction rs. Qed.

Lemma index_duplicate rs : forall m,
  ~ ((forall r, r ∈ rs -> m !! block_number r = None) /\ NoDup (map block_number rs)) ->
  exists n, foldl (fun acc resp => m ← acc; index_response m resp) (Ok m) rs = Err (Other (DuplicateBlockNumber n)).
Proof.
  induction rs as [|r rs IH]; intros m Hn.
  { exfalso. apply Hn. split; [|constructor]. intros r Hr. by apply elem_of_nil in Hr. }
  cbn [foldl mbind outcome_bind]. unfold index_response at 2. case_decide as Hd.
  { exists (block_number r). apply index_error. }
  apply IH. intros [Hm Hnd]. apply Hn. split.
  - intros r' Hr'. apply elem_of_cons in Hr' as [->|Hr'].
    + destruct (m !! block_number r) eqn:E; [|done]. exfalso. apply Hd. by eexists.
    + specialize (Hm r' Hr'). by apply lookup_insert_None in Hm as [? _].
  - cbn [map]. apply NoDup_cons. split; [|done]. intros Hin.
    apply list_elem_of_fmap in Hin as (r' & Heq & Hr'). specialize (Hm r' Hr'). rewrite Heq in Hm.
    by rewrite lookup_insert_eq in Hm.
Qed.

Lemma collect_blocks_spec rm vk (st : gmap Z BlockEntry) responses ns : forall c,
  (forall n, rm !! n = List.find (fun r => block_number r =? n) responses) ->
  foldl (collect_block rm vk) c (map (fun n => (n, block_store_get st n)) ns) =
  {| leaves := leaves c ++ map fst (omap (trusted_block responses vk st) ns);
     block_hashes := block_hashes c ++ map snd (omap (trusted_block responses vk st) ns);
     invalid_blocks := invalid_blocks c ++ filter (fun n => trusted_block responses vk st n = None) ns |}.
Proof.
  induction ns as [|n ns IH]; intros c Hrm; [by destruct c; cbn; rewrite !app_nil_r|].
  cbn [map foldl]. rewrite IH by done. rewrite filter_cons. cbn [omap list_omap].
  unfold collect_block. rewrite Hrm. unfold block_store_get.
  assert (T : trusted_block responses vk st n = match List.find (fun r => block_number r =? n) responses with
    | Some resp => if verified resp vk then Some (leaf resp, block_hash resp) else None
    | None => (fun e => (entry_leaf e, entry_block_hash e)) <$> st !! n end) by done.
  destruct (List.find _ responses) as [resp|].
  - rewrite <- verify_response_verified in T. destruct (verify_response resp vk); rewrite T;
      cbn [map]; (rewrite decide_False by done) || rewrite decide_True by done;
      cbn [push_block push_invalid leaves block_hashes invalid_blocks]; by rewrite <- ?app_assoc.
  - destruct (st !! n) as [e|]; cbn [fmap option_fmap option_map] in T; rewrite T;
      cbn [map]; (rewrite decide_False by done) || rewrite decide_True by done;
      cbn [push_block push_invalid leaves block_hashes invalid_blocks]; by rewrite <- ?app_assoc.
Qed.

Lemma all_trusted (f : Z -> option (list Z * list Z)) ns :
  filter (fun n => f n = None) ns = [] <-> Forall2 (fun n p => f n = Some p) ns (omap f ns).
Proof.
  induction ns as [|n ns IH]; [by split|]. rewrite filter_cons. cbn [omap list_omap].
  destruct (f n) as [p|] eqn:E.
  - rewrite decide_False by done. rewrite IH. split.
    + intros HF. by constructor.
    + intros HF. by apply Forall2_cons in HF as [_ HF].
  - rewrite decide_True by done. split; [done|]. intros HF.
    assert (L : (length (omap f ns) <= length ns)%nat).
    { clear. induction ns as [|m ns IH]; [done|]. cbn. destruct (f m); cbn; lia. }
    apply Forall2_length in HF. cbn [length] in HF. lia.
Qed.

Lemma trusted_pairs (f : Z -> option (list Z * list Z)) ns pairs :
  Forall2 (fun n p => f n = Some p) ns pairs -> omap f ns = pairs.
Proof. induction 1 as [|n p ns pairs Hp _ IH]; [done|]. cbn. by rewrite Hp, IH. Qed.

(** The handler, its accumulators replaced by what they hold. *)
Lemma handle_submit_batch_unfold from_ to_ responses blobs key st :
  from_ <= to_ -> NoDup (map block_number responses) -> poisoned st = false -> snapshot_fits from_ to_ ->
  let f := trusted_block responses (verifying_key key) (store st) in
  let ns := range_incl from_ to_ in
  handle_submit_batch net from_ to_ responses blobs key st =
  if decide (filter (fun n => f n = None) ns <> [])
  then Err (InvalidSignatures (filter (fun n => f n = None) ns))
  else match calculate_merkle_root (map fst (omap f ns)) with
       | None => Err (Other NoLeaves)
       | Some root =>
           hashes ← map_err Other (verify_blobs blobs (map snd (omap f ns)));
           map_err Other (sign_batch net root hashes key)
       end.
Proof.
  intros Hle Hnd Hp Hfit f ns. unfold handle_submit_batch. rewrite decide_False by lia.
  destruct (index_responses responses ∅) as (rm & E & Hrm); [intros r _; apply lookup_empty|done|].
  rewrite E. cbn [mbind outcome_bind]. rewrite Hp, decide_False by tauto.
  rewrite (collect_blocks_spec _ _ _ responses).
  - reflexivity.
  - intros n. rewrite Hrm. destruct (List.find _ responses); [done|]. apply lookup_empty.
Qed.

Lemma sign_batch_fields root hashes key r :
  sign_batch net root hashes key = Ok r -> batch_root r = root /\ versioned_hashes r = hashes.
Proof.
  unfold sign_batch. intros E. apply bind_Ok in E as ([sig recid] & _ & E).
  apply bind_Ok in E as ([] & _ & E). apply Ok_inj in E as <-. done.
Qed.

(** The early returns before the loop. *)
Lemma handle_submit_batch_early from_ to_ responses blobs key st :
  ~ (from_ <= to_ /\ NoDup (map block_number responses) /\ poisoned st = false) ->
  exists e, handle_submit_batch net from_ to_ responses blobs key st = Err (Other e).
Proof.
  intros Hn. unfold handle_submit_batch. case_decide; [by eexists|].
  destruct (decide (NoDup (map block_number responses))) as [Hnd|Hnd].
  - destruct (index_responses responses ∅) as (rm & E & _); [intros r _; apply lookup_empty|done|].
    rewrite E. cbn [mbind outcome_bind]. destruct (poisoned st) eqn:Hp; [by eexists|].
    exfalso. apply Hn. split_and!; [lia|done|done].
  - destruct (index_duplicate responses ∅) as (n & E); [by intros [_ ?]|].
    rewrite E. by eexists.
Qed.

(** A range whose snapshot no vector can hold. *)
Lemma handle_submit_batch_huge from_ to_ responses blobs key st :
  from_ <= to_ -> NoDup (map block_number responses) -> poisoned st = false -> ~ snapshot_fits from_ to_ ->
  handle_submit_batch net from_ to_ responses blobs key st = Panic.
Proof.
  intros Hle Hnd Hp Hfit. unfold handle_submit_batch. rewrite decide_False by lia.
  destruct (index_responses responses ∅) as (rm & E & _); [intros r _; apply lookup_empty|done|].
  rewrite E. cbn [mbind outcome_bind]. by rewrite Hp, decide_True.
Qed.

Lemma handle_submit_batch_exact from_ to_ responses blobs key st :
  let f := trusted_block responses (verifying_key key) (store st) in
  let ns := range_incl from_ to_ in
  let accepted := from_ <= to_ /\ NoDup (map block_number responses) /\ poisoned st = false in
  (accepted /\ ~ snapshot_fits from_ to_ -> handle_submit_batch net from_ to_ responses blobs key st = Panic) /\
  (forall r, handle_submit_batch net from_ to_ responses blobs key st = Ok r <->
     (accepted /\ snapshot_fits from_ to_) /\ exists pairs payload,
       Forall2 (fun n p => f n = Some p) ns pairs /\
       calculate_merkle_root (map fst pairs) = Some (batch_root r) /\
       decode_blob_payload blobs = Ok payload /\
       blocks_of payload = Some (map (fun p => Ok p.2) pairs) /\
       compute_versioned_hashes blobs = Ok (versioned_hashes r) /\
       sign_batch net (batch_root r) (versioned_hashes r) key = Ok r) /\
  (forall bad, handle_submit_batch net from_ to_ responses blobs key st = Err (InvalidSignatures bad) <->
     (accepted /\ snapshot_fits from_ to_) /\ bad <> [] /\ bad = filter (fun n => f n = None) ns).
Proof.
  intros f ns accepted. split; [intros [(Hle & Hnd & Hp) Hfit]; by apply handle_submit_batch_huge|].
  destruct (decide accepted) as [Hacc|Hacc].
  2:{ destruct (handle_submit_batch_early from_ to_ responses blobs key st Hacc) as [e E].
      rewrite E. split; intros x; split; [done|by intros [[? _] _]|done|by intros [[? _] _]]. }
  pose proof Hacc as (Hle & Hnd & Hp). destruct (decide (snapshot_fits from_ to_)) as [Hfit|Hfit].
  2:{ rewrite (handle_submit_batch_huge from_ to_ responses blobs key st Hle Hnd Hp Hfit).
      split; intros x; split; [done|by intros [[_ ?] _]|done|by intros [[_ ?] _]]. }
  rewrite (handle_submit_batch_unfold from_ to_ responses blobs key st Hle Hnd Hp Hfit). fold f. fold ns. split.
  - intros r. case_decide as Hbad.
    { split; [done|]. intros (_ & pairs & payload & HF & _). exfalso. apply Hbad, all_trusted.
      by rewrite (trusted_pairs _ _ _ HF). }
    assert (HF : Forall2 (fun n p => f n = Some p) ns (omap f ns)).
    { by apply all_trusted. }
    destruct (calculate_merkle_root (map fst (omap f ns))) as [root|] eqn:Er.
    + split.
      * intros E. apply bind_Ok in E as (hashes & Ev & Es).
        destruct (verify_blobs blobs _) as [hs| |] eqn:Eb; [|done..]. injection Ev as ->.
        destruct (sign_batch net root hashes key) as [r'| |] eqn:Esig; [|done..]. injection Es as ->.
        apply verify_blobs_Ok in Eb as (payload & Ed & Ebl & Ev).
        destruct (sign_batch_fields _ _ _ _ Esig) as [Hroot Hhs]. rewrite <- Hroot, <- Hhs in *.
        split; [done|]. exists (omap f ns), payload. split_and!; try done. by rewrite Ebl, map_map.
      * intros (_ & pairs & payload & HF' & Em & Ed & Ebl & Ev & Es).
        rewrite (trusted_pairs _ _ _ HF') in *. rewrite Em in Er. injection Er as <-.
        rewrite (proj2 (verify_blobs_Ok blobs (map snd pairs) (versioned_hashes r))).
        -- cbn [map_err mbind outcome_bind]. by rewrite Es.
        -- exists payload. split_and!; [done| |done]. by rewrite Ebl, map_map.
    + split; [done|]. intros (_ & pairs & payload & HF' & Em & _).
      rewrite (trusted_pairs _ _ _ HF') in *. congruence.
  - intros bad. case_decide as Hbad.
    + split; [intros [= <-]; done|]. by intros (_ & _ & ->).
    + split.
      * destruct (calculate_merkle_root _); [|done]. intros E.
        destruct (verify_blobs blobs _); cbn [map_err mbind outcome_bind] in E; [|done..].
        by destruct (sign_batch _ _ _ _).
      * intros (_ & Hne & ->). congruence.
Qed.

(** C6: a batch is signed exactly when it is right.  [handle_submit_batch]
    succeeds if and only if the range is not reversed and not too long for a
    vector, no block has two responses, the store's lock is not poisoned, every block of the range is trusted (a response signed by this
    key for that very block number, leaf and hash, or a stored entry), and the
    blobs decode to a payload whose block hashes are those of the trusted
    blocks, one for one and in order; the answer then carries the Merkle root
    of the trusted leaves, the versioned hashes of the blobs, and the signature
    of both.  It answers [InvalidSignatures] exactly when, in such a range, some
    block is not trusted, and lists exactly those blocks in order.  A range that
    is too long makes it panic. *)
Theorem submit_batch_exact from_ to_ responses blobs key st :
  let f := trusted_block responses (verifying_key key) (store st) in
  let ns := range_incl from_ to_ in
  let accepted := from_ <= to_ /\ NoDup (map block_number responses) /\ poisoned st = false in
  (accepted /\ ~ snapshot_fits from_ to_ -> handle_submit_batch net from_ to_ responses blobs key st = Panic) /\
  (forall r, handle_submit_batch net from_ to_ responses blobs key st = Ok r <->
     (accepted /\ snapshot_fits from_ to_) /\ exists pairs payload,
       Forall2 (fun n p => f n = Some p) ns pairs /\
       calculate_merkle_root (map fst pairs) = Some (batch_root r) /\
       decode_blob_payload blobs = Ok payload /\
       blocks_of payload = Some (map (fun p => Ok p.2) pairs) /\
       compute_versioned_hashes blobs = Ok (versioned_hashes r) /\
       sign_batch net (batch_root r) (versioned_hashes r) key = Ok r) /\
  (forall bad, handle_submit_batch net from_ to_ responses blobs key st = Err (InvalidSignatures bad) <->
     (accepted /\ snapshot_fits from_ to_) /\ bad <> [] /\ bad = filter (fun n => f n = None) ns).
Proof. exact (handle_submit_batch_exact from_ to_ responses blobs key st). Qed.
End Batch.
