(* ===== verification/EnclaveEncodings.v ===== *)
(** * The signed encodings and the block store

    What the enclave signs determines what it signed: the two payloads are
    injective, never equal to each other, and bound to one verifier contract on
    one chain.  The store keeps the newest entries within its bound. *)
From S2P Require Import Prelude BytesCodec Rlp NitroTypes Network Merkle EventsHash BlobCodec.
From S2P Require Import BlobPayload WitnessDb Executor Enclave.

Section Encodings.

Definition hash32 (h : list Z) : Prop := length h = 32%nat.

Lemma app_inj_len {A} (a b c d : list A) : length a = length c -> a ++ b = c ++ d -> a = c /\ b = d.
Proof. intros Hl E. by apply app_inj_1. Qed.

Lemma concat_hash32_inj l1 : forall l2,
  Forall hash32 l1 -> Forall hash32 l2 -> concat l1 = concat l2 -> l1 = l2.
Proof. intros l2. apply concat_32_inj. Qed.

Lemma length_abi_encode_batch net root hashes :
  network_ok net -> hash32 root -> Forall hash32 hashes ->
  length (abi_encode_batch net root hashes) = (160 + 32 * length hashes)%nat.
Proof.
  intros (_ & Hv & _) Hr Hh. unfold abi_encode_batch, hash32 in *.
  rewrite !length_app, !length_replicate, !length_be_encode, Hv, Hr.
  assert (Hc : length (concat hashes) = (32 * length hashes)%nat).
  { induction Hh as [|h hashes Hh' _ IH]; [done|]. cbn [concat length]. rewrite length_app, IH. lia. }
  rewrite Hc. cbn [length]. lia.
Qed.

(** C34: a signature stands for one message.  The execution payload determines
    block number, leaf and hash; the batch encoding determines chain, verifier,
    batch root and blob hashes (so a signature cannot be replayed on another
    chain or deployment); and no execution payload is a batch encoding. *)
Theorem signed_messages_injective net1 net2 n1 n2 l1 l2 h1 h2 r1 r2 v1 v2 :
  network_ok net1 -> network_ok net2 ->
  0 <= n1 < 2 ^ 64 -> 0 <= n2 < 2 ^ 64 -> Forall hash32 [l1; l2; h1; h2; r1; r2] ->
  Forall hash32 v1 -> Forall hash32 v2 ->
  Z.of_nat (length v1) < 2 ^ 64 -> Z.of_nat (length v2) < 2 ^ 64 ->
  (execution_sign_payload n1 l1 h1 = execution_sign_payload n2 l2 h2 ->
     n1 = n2 /\ l1 = l2 /\ h1 = h2) /\
  (abi_encode_batch net1 r1 v1 = abi_encode_batch net2 r2 v2 ->
     L1_CHAIN_ID net1 = L1_CHAIN_ID net2 /\ NITRO_VERIFIER_ADDRESS net1 = NITRO_VERIFIER_ADDRESS net2 /\
     r1 = r2 /\ v1 = v2) /\
  execution_sign_payload n1 l1 h1 <> abi_encode_batch net2 r2 v2.
Proof.
  intros Hn1 Hn2 Hb1 Hb2 H32 Hv1 Hv2 Hl1 Hl2.
  apply Forall_cons in H32 as [Hl1' H32]. apply Forall_cons in H32 as [Hl2' H32].
  apply Forall_cons in H32 as [Hh1' H32]. apply Forall_cons in H32 as [Hh2' H32].
  apply Forall_cons in H32 as [Hr1' H32]. apply Forall_cons in H32 as [Hr2' _].
  split_and!.
  - intros E. unfold execution_sign_payload in E.
    apply app_inj_len in E as [En E]; [|by rewrite !length_be_encode].
    apply app_inj_len in E as [-> ->]; [|unfold hash32 in *; congruence].
    split_and!; [|done|done]. apply (be_encode_inj 8 n1 n2); [cbn; lia..|done].
  - intros E. unfold abi_encode_batch in E. destruct Hn1 as (Hc1 & Ha1 & _), Hn2 as (Hc2 & Ha2 & _).
    apply app_inj_len in E as [E1 E]; [|by rewrite !length_app, !length_replicate, !length_be_encode].
    apply app_inj_len in E as [E2 E]; [|rewrite !length_app, !length_replicate; lia].
    apply app_inj_len in E as [-> E]; [|unfold hash32 in *; congruence].
    apply app_inj_len in E as [_ E]; [|done].
    apply app_inj_len in E as [_ E]; [|by rewrite !length_app, !length_replicate, !length_be_encode].
    apply (app_inv_head (replicate 24 0)) in E1. apply (app_inv_head (replicate 12 0)) in E2.
    split_and!; [|done|done|by apply concat_hash32_inj].
    apply (be_encode_inj 8); [cbn; lia..|done].
  - intros E. apply (f_equal length) in E. rewrite length_abi_encode_batch in E by done.
    unfold execution_sign_payload in E. rewrite !length_app, length_be_encode in E.
    unfold hash32 in *. lia.
Qed.

(** ** The block store *)

Lemma sorted_keys_head m k :
  head (sorted_keys (V := BlockEntry) m) = Some k ->
  is_Some (m !! k) /\ forall j, is_Some (m !! j) -> k <= j.
Proof.
  pose proof (sorted_keys_sorted m) as Hs. intros Hh.
  destruct (sorted_keys m) as [|x l] eqn:E; [done|]. injection Hh as ->. split.
  - apply elem_of_sorted_keys. rewrite E. apply list_elem_of_here.
  - intros j Hj. apply elem_of_sorted_keys in Hj. rewrite E in Hj. apply elem_of_cons in Hj as [->|Hj]; [lia|].
    apply StronglySorted_inv in Hs as [_ Hs]. rewrite Forall_forall in Hs. auto.
Qed.

Lemma sorted_keys_nonempty (m : gmap Z BlockEntry) :
  (0 < size m)%nat -> exists k, head (sorted_keys m) = Some k.
Proof.
  intros Hs. destruct (sorted_keys m) as [|k l] eqn:E; [|by exists k].
  exfalso. assert (m = ∅); [|subst; rewrite map_size_empty in Hs; lia].
  apply map_eq. intros j. rewrite lookup_empty. destruct (m !! j) eqn:Ej; [|done].
  assert (Hj : j ∈ sorted_keys m) by (apply elem_of_sorted_keys; by eexists).
  rewrite E in Hj. by apply elem_of_nil in Hj.
Qed.

Lemma block_store_insert_cases m n e :
  (size m <= MAX_ENTRIES)%nat ->
  exists m', block_store_insert m n e = Ok m' /\ (size m' <= MAX_ENTRIES)%nat /\
    (m' = <[n := e]> m \/
     exists oldest, size m = MAX_ENTRIES /\ m' = delete oldest (<[n := e]> m) /\
       is_Some (<[n := e]> m !! oldest) /\
       forall j, is_Some (<[n := e]> m !! j) -> oldest <= j).
Proof.
  intros Hs. unfold block_store_insert. set (m1 := <[n := e]> m).
  assert (Hs1 : (size m1 = size m \/ size m1 = S (size m))%nat).
  { unfold m1. destruct (m !! n) as [e'|] eqn:E.
    - left. apply map_size_insert_Some. by eexists.
    - right. by apply map_size_insert_None. }
  destruct (decide (MAX_ENTRIES < size m1)%nat) as [Hbig|Hok].
  - destruct (sorted_keys_nonempty m1) as [k Hk]; [lia|].
    destruct (sorted_keys_head m1 k Hk) as [[ek Hek] Hmin].
    assert (Hd : size (delete k m1) = Nat.pred (size m1)) by (apply map_size_delete_Some; by eexists).
    exists (delete k m1). split_and!.
    + destruct (size m1) as [|f] eqn:Ef; [lia|]. cbn [evict]. rewrite decide_True by lia.
      rewrite Hk. cbn [unwrap mbind outcome_bind]. destruct f; cbn [evict]; by rewrite decide_False by lia.
    + lia.
    + right. exists k. split_and!; [lia|done|by eexists|done].
  - exists m1. split_and!; [|lia|by left]. destruct (size m1) eqn:Ef; cbn [evict]; by rewrite decide_False by lia.
Qed.

(** What clients use: nothing but the inserted entry appears. *)
Lemma block_store_insert_spec m n e :
  (size m <= MAX_ENTRIES)%nat ->
  exists m', block_store_insert m n e = Ok m' /\ (size m' <= MAX_ENTRIES)%nat /\
    forall k x, m' !! k = Some x -> <[n := e]> m !! k = Some x.
Proof.
  intros Hs. destruct (block_store_insert_cases m n e Hs) as (m' & E & Hs' & [->|(o & _ & -> & _)]);
    eexists; (split_and!; [exact E|done|]); [done|].
  intros k x Hk. by apply lookup_delete_Some in Hk as [_ Hk].
Qed.

(** The store is bounded and keeps the newest blocks.  Inserting into a
    store within its bound never panics, so the mutex is never poisoned, and
    stays within the bound; nothing but the inserted entry appears, and an
    entry is dropped only when the store was full, namely the one with the
    smallest block number. *)
Theorem block_store_bounded m n e :
  (size m <= MAX_ENTRIES)%nat ->
  exists m', block_store_insert m n e = Ok m' /\ (size m' <= MAX_ENTRIES)%nat /\
    (m' = <[n := e]> m \/
     exists oldest, size m = MAX_ENTRIES /\ m' = delete oldest (<[n := e]> m) /\
       is_Some (<[n := e]> m !! oldest) /\
       forall j, is_Some (<[n := e]> m !! j) -> oldest <= j).
Proof. apply block_store_insert_cases. Qed.
End Encodings.

Section Samples.
#[local] Existing Instance RefRlp.toy_keccak.

Lemma signed_messages_injective_witness :
  let h := replicate 32 7 in
  execution_sign_payload 5 h h <> abi_encode_batch testnet h [h; h] /\
  (abi_encode_batch mainnet h [h] = abi_encode_batch testnet h [h; h] -> L1_CHAIN_ID mainnet = L1_CHAIN_ID testnet).
Proof.
  destruct (signed_messages_injective mainnet testnet 5 6 (replicate 32 7) (replicate 32 7) (replicate 32 7)
    (replicate 32 7) (replicate 32 7) (replicate 32 7) [replicate 32 7] [replicate 32 7; replicate 32 7]
    mainnet_ok testnet_ok) as (_ & Hb & Hd);
    [lia|lia|apply (bool_decide_unpack _); by vm_compute..|cbn; lia|cbn; lia|].
  split; [exact Hd|]. intros E. exact (proj1 (Hb E)).
Defined.

Lemma block_store_bounded_witness :
  exists m', block_store_insert ∅ 9 {| entry_leaf := []; entry_block_hash := [] |} = Ok m' /\
    (size m' <= MAX_ENTRIES)%nat.
Proof.
  destruct (block_store_bounded ∅ 9 {| entry_leaf := []; entry_block_hash := [] |}) as (m' & E & Hs & _).
  - rewrite map_size_empty. lia.
  - exists m'. split; [exact E|exact Hs].
Defined.
End Samples.
