(* ===== verification/EnclaveLoop.v ===== *)
(** * The enclave's main loop and worker pool ([bin/client/src/nitro/mod.rs])

    One thread accepts connections and handles each message to the end; block
    executions are queued for a pool of workers that share the block store.  A
    run is a sequence of events: a message handled, a job taken by a worker, a
    job done.  The only shared effect of a job is its insertion into the store,
    under the store's lock, so a job takes effect at one event.  Socket errors
    only close a connection and are not events. *)
From S2P Require Import Prelude BytesCodec Rlp NitroTypes Network Merkle EventsHash BlobCodec.
From S2P Require Import BlobPayload BlobRoundtrip Mpt MptWire EthState WitnessDb.
From S2P Require Import Executor Enclave EnclaveBatch EnclaveEncodings.
From stdpp Require Import strings pretty.
#[local] Open Scope Z_scope.

(** [EXECUTE_WORKER_COUNT]: the number of workers and of queued jobs. *)
Definition EXECUTE_WORKER_COUNT : nat := 32.

Record AwsCredentials : Type := {
  access_key_id : string;
  secret_access_key : string;
  session_token : string }.

(** What KMS and the Nitro security module answer while a key is generated. *)
Record Devices : Type := {
  kms_generate_random : AwsCredentials -> option (list Z);
  nsm_get_random : option (list Z);
  nsm_attestation : list Z -> option (list Z) }.

Section Loop.
Context `{Keccak, AlloyRlp, RlpReader, Brotli, AccountCodec, ChainTypes, !Reth, EnclaveCrypto}.
Context (net : network).

(** ** Key generation *)

Definition bytes_of_string (s : string) : list Z :=
  (fun c => Z.of_N (Ascii.N_of_ascii c)) <$> String.list_ascii_of_string s.

(** [format!("enclave-signing-key-v1-{counter}")]. *)
Definition key_info (counter : nat) : list Z :=
  bytes_of_string ("enclave-signing-key-v1-" +:+ pretty (N.of_nat counter)).

Fixpoint derive_loop (prk : list Z) (counters : list nat) : outcome EnclaveError (list Z) :=
  match counters with
  | [] => Err NoValidKey
  | counter :: rest =>
      match hkdf_expand prk (key_info counter) 32 with
      | None => Err HkdfExpansionFailed
      | Some candidate =>
          match signing_key_of_secret candidate with
          | Some _ => Ok candidate
          | None => derive_loop prk rest
          end
      end
  end.

(** [0..=100]: a hundred and one candidates. *)
Definition derive_valid_ecdsa_key (data_key r_local : list Z) : outcome EnclaveError (list Z) :=
  derive_loop (hkdf_extract r_local data_key) (seq 0 101).

Record EnclaveIdentity : Type := {
  signing_key : SigningKey;
  public_key : list Z;
  attestation : list Z }.

Definition of_device (e : EnclaveError) (o : option (list Z)) : outcome EnclaveError (list Z) :=
  match o with Some x => Ok x | None => Err e end.

Definition generate_key (dev : Devices) (credentials : AwsCredentials)
  : outcome EnclaveError EnclaveIdentity :=
  kms_entropy ← of_device KmsFailed (kms_generate_random dev credentials);
  nsm_entropy ← of_device NsmFailed (nsm_get_random dev);
  key_bytes ← derive_valid_ecdsa_key kms_entropy nsm_entropy;
  match signing_key_of_secret key_bytes with
  | None => Err InvalidKeyBytes
  | Some key =>
      let public_key := encoded_point (verifying_key key) in
      attestation ← of_device NsmFailed (nsm_attestation dev public_key);
      Ok {| signing_key := key; public_key := public_key; attestation := attestation |}
  end.

(** ** Block execution *)

Record ExecutionResultRec : Type := {
  result_number : Z;
  result_leaf : list Z;
  result_hash : list Z }.

(** The result of an execution that the executor accepted. *)
Definition execution_result (header : Header) (events_hash : BridgeHashes) : ExecutionResultRec := {|
  result_number := number header;
  result_leaf := compute_leaf (parent_hash header) (hash_slow header)
                   (withdrawal_hash events_hash) (deposit_hash events_hash);
  result_hash := hash_slow header |}.

Definition run_block (input : ClientExecutorInput) (st : Mutex)
  : outcome EnclaveError ExecutionResultRec * Mutex :=
  match eth net (custom_beneficiary input) input with
  | Err e => (Err (BlockExecutionFailed e), st)
  | Panic => (Panic, st)
  | Ok (header, events_hash) =>
      let r := execution_result header events_hash in
      if poisoned st then (Err MutexPoisoned, st)
      else
        match block_store_insert (store st) (result_number r)
                {| entry_leaf := result_leaf r; entry_block_hash := result_hash r |} with
        | Ok m => (Ok r, {| poisoned := false; store := m |})
        | _ => (Panic, {| poisoned := true; store := store st |})
        end
  end.

Definition result_payload (r : ExecutionResultRec) : list Z :=
  execution_sign_payload (result_number r) (result_leaf r) (result_hash r).

Definition sign_execution (r : ExecutionResultRec) (key : SigningKey) : EthExecutionResponse := {|
  block_number := result_number r;
  leaf := result_leaf r;
  block_hash := result_hash r;
  resp_signature := sign key (result_payload r) |}.

Definition execute_block (input : ClientExecutorInput) (key : SigningKey) (st : Mutex)
  : outcome EnclaveError EthExecutionResponse * Mutex :=
  let '(result, st) := run_block input st in
  (r ← result; Ok (sign_execution r key), st).

(** ** The loop *)

Inductive EnclaveIncoming :=
  | Handshake (credentials : AwsCredentials)
  | ExecuteBlock (input : ClientExecutorInput)
  | SubmitBatch (from_ to_ : Z) (responses : list EthExecutionResponse) (blobs : list (list Z)).

Record ExecuteJob : Type := {
  channel : Z;
  job_input : ClientExecutorInput;
  job_identity : EnclaveIdentity }.

Record EnclaveState : Type := {
  identity : option EnclaveIdentity;
  block_store : Mutex;
  queue : list ExecuteJob;
  running : list ExecuteJob }.

Definition init_state : EnclaveState := {|
  identity := None; block_store := {| poisoned := false; store := ∅ |}; queue := []; running := [] |}.

(** One message of the main loop, with the response it sends now, if any: an
    accepted execution answers later.  A message that does not deserialize is
    answered with an error ([None]).  [Panic] takes the whole enclave down. *)
Definition handle_message (dev : Devices) (conn : Z) (msg : option EnclaveIncoming) (st : EnclaveState)
  : outcome unit (EnclaveState * option EnclaveResponse) :=
  match msg with
  | None => Ok (st, Some (ErrorResponse None))
  | Some (Handshake credentials) =>
      match identity st with
      | Some id => Ok (st, Some (AlreadyInitialized (public_key id) (attestation id)))
      | None =>
          match generate_key dev credentials with
          | Ok id =>
              Ok ({| identity := Some id; block_store := block_store st; queue := queue st;
                     running := running st |},
                  Some (KeyGenerated (public_key id) (attestation id)))
          | Err e => Ok (st, Some (ErrorResponse (Some e)))
          | Panic => Panic
          end
      end
  | Some (ExecuteBlock input) =>
      match identity st with
      | None => Ok (st, Some NotInitialized)
      | Some id =>
          let job := {| channel := conn; job_input := input; job_identity := id |} in
          if decide (length (queue st) < EXECUTE_WORKER_COUNT)%nat then
            Ok ({| identity := identity st; block_store := block_store st; queue := queue st ++ [job];
                   running := running st |}, None)
          else Ok (st, Some (ErrorResponse None))
      end
  | Some (SubmitBatch from_ to_ responses blobs) =>
      match identity st with
      | None => Ok (st, Some NotInitialized)
      | Some id =>
          resp ← submit_batch_to_response
            (handle_submit_batch net from_ to_ responses blobs (signing_key id) (block_store st))
            (public_key id);
          Ok (st, Some resp)
      end
  end.

(** What a worker answers; a panic of the job is caught. *)
Definition job_response (result : outcome EnclaveError EthExecutionResponse) : EnclaveResponse :=
  match result with
  | Ok output => ExecutionResult output
  | Err e => ErrorResponse (Some e)
  | Panic => ErrorResponse None
  end.

Inductive event :=
  | EvMessage (conn : Z) (msg : option EnclaveIncoming) (resp : option EnclaveResponse)
  | EvTake (conn : Z)
  | EvDone (conn : Z) (input : ClientExecutorInput) (resp : EnclaveResponse).

Inductive step : EnclaveState -> event -> EnclaveState -> Prop :=
  | step_message dev conn msg st st' resp :
      handle_message dev conn msg st = Ok (st', resp) -> step st (EvMessage conn msg resp) st'
  | step_take job rest st :
      queue st = job :: rest -> (length (running st) < EXECUTE_WORKER_COUNT)%nat ->
      step st (EvTake (channel job))
        {| identity := identity st; block_store := block_store st; queue := rest;
           running := job :: running st |}
  | step_done before job after st result mutex :
      running st = before ++ job :: after ->
      execute_block (job_input job) (signing_key (job_identity job)) (block_store st) = (result, mutex) ->
      step st (EvDone (channel job) (job_input job) (job_response result))
        {| identity := identity st; block_store := mutex; queue := queue st; running := before ++ after |}.

(** States reachable from the initial one, with the history so far. *)
Inductive reach : EnclaveState -> list event -> Prop :=
  | reach_init : reach init_state []
  | reach_step st hist ev st' : reach st hist -> step st ev st' -> reach st' (hist ++ [ev]).
End Loop.
