(* ===== verification/EnclaveSafety.v ===== *)
(** * What the enclave's signatures attest

    Invariants of every run of the enclave: bounded queues and store, no lock
    ever poisoned, one answer per connection, one key for the enclave's life.
    The main theorem: a batch the enclave signs consists of blocks this enclave
    has executed, unless a response in the request carries a forged signature. *)
From S2P Require Import Prelude BytesCodec Rlp NitroTypes Network Merkle EventsHash BlobCodec.
From S2P Require Import BlobPayload BlobRoundtrip Mpt MptWire EthState WitnessDb.
From S2P Require Import Executor Enclave EnclaveBatch EnclaveEncodings EnclaveLoop.
From stdpp Require Import strings.
#[local] Open Scope Z_scope.

Section Safety.
Context `{Keccak, AlloyRlp, RlpReader, Brotli, AccountCodec, ChainTypes, !Reth, EnclaveCrypto}.
Context {laws : AlloyRlpLaws} (net : network).

(** ** Histories *)

(** The executor accepted a block and the enclave signed the result. *)
Definition executed (hist : list event) (r : ExecutionResultRec) : Prop :=
  exists conn input resp header hashes,
    EvDone conn input (ExecutionResult resp) ∈ hist /\
    eth net (custom_beneficiary input) input = Ok (header, hashes) /\
    r = execution_result header hashes.

(** The messages the enclave's key has signed. *)
Definition signed (hist : list event) (m : list Z) : Prop :=
  (exists r, executed hist r /\ m = result_payload r) \/
  (exists conn from_ to_ responses blobs r,
     EvMessage conn (Some (SubmitBatch from_ to_ responses blobs)) (Some (SubmitBatchResult r)) ∈ hist /\
     m = abi_encode_batch net (batch_root r) (versioned_hashes r)).

(** Connections whose message was handled, and those that got an answer. *)
Definition accepted (hist : list event) : list Z :=
  omap (fun ev => match ev with EvMessage conn _ _ => Some conn | _ => None end) hist.
Definition answered (hist : list event) : list Z :=
  omap (fun ev => match ev with
    | EvMessage conn _ (Some _) => Some conn
    | EvDone conn _ _ => Some conn
    | _ => None end) hist.

Lemma executed_mono hist ev r : executed hist r -> executed (hist ++ [ev]) r.
Proof.
  intros (conn & input & resp & h & hs & Hin & E & Hr). exists conn, input, resp, h, hs.
  split; [|done]. apply elem_of_app. by left.
Qed.

Lemma accepted_app h1 h2 : accepted (h1 ++ h2) = accepted h1 ++ accepted h2.
Proof. apply omap_app. Qed.
Lemma answered_app h1 h2 : answered (h1 ++ h2) = answered h1 ++ answered h2.
Proof. apply omap_app. Qed.

(** ** The invariant *)

Record inv (st : EnclaveState) (hist : list event) : Prop := {
  inv_queue : (length (queue st) <= EXECUTE_WORKER_COUNT)%nat;
  inv_running : (length (running st) <= EXECUTE_WORKER_COUNT)%nat;
  inv_poisoned : poisoned (block_store st) = false;
  inv_size : (base.size (store (block_store st)) <= MAX_ENTRIES)%nat;
  inv_jobs : forall job, job ∈ queue st ++ running st -> identity st = Some (job_identity job);
  inv_store : forall n e, store (block_store st) !! n = Some e ->
    exists r, executed hist r /\ result_number r = n /\ result_leaf r = entry_leaf e /\
      result_hash r = entry_block_hash e;
  inv_silent : identity st = None -> forall m, ~ signed hist m;
  inv_answers : accepted hist ≡ₚ answered hist ++ map channel (queue st) ++ map channel (running st) }.

(** Running a block inserts its result, and only that. *)
Lemma run_block_cases input st :
  poisoned st = false -> (base.size (store st) <= MAX_ENTRIES)%nat ->
  (exists e, run_block net input st = (Err e, st)) \/ run_block net input st = (Panic, st) \/
  exists header hashes m, eth net (custom_beneficiary input) input = Ok (header, hashes) /\
    let r := execution_result header hashes in
    run_block net input st = (Ok r, {| poisoned := false; store := m |}) /\
    (base.size m <= MAX_ENTRIES)%nat /\
    forall n e, m !! n = Some e ->
      store st !! n = Some e \/
      (n = result_number r /\ e = {| entry_leaf := result_leaf r; entry_block_hash := result_hash r |}).
Proof.
  intros Hp Hs. unfold run_block. destruct (eth net _ input) as [[header hashes]|e|].
  2:{ left. by eexists. }
  2:{ by right; left. }
  right; right. exists header, hashes. rewrite Hp.
  set (r := execution_result header hashes).
  destruct (block_store_insert_spec (store st) (result_number r)
    {| entry_leaf := result_leaf r; entry_block_hash := result_hash r |} Hs) as (m & E & Hm & Hsub).
  exists m. rewrite E. split_and!; [done|done|done|].
  intros n e Hn. apply Hsub in Hn. apply lookup_insert_Some in Hn as [[<- <-]|[_ Hn]]; auto.
Qed.

Lemma job_step_inv st hist before job after result mutex :
  inv st hist -> running st = before ++ job :: after ->
  execute_block net (job_input job) (signing_key (job_identity job)) (block_store st) = (result, mutex) ->
  inv {| identity := identity st; block_store := mutex; queue := queue st; running := before ++ after |}
    (hist ++ [EvDone (channel job) (job_input job) (job_response result)]).
Proof.
  intros Hi Hr E. destruct Hi as [Hq Hrun Hp Hs Hj Hst Hsil Ha].
  assert (Hid : identity st = Some (job_identity job)).
  { apply Hj. rewrite Hr. apply elem_of_app; right. apply elem_of_app; right. apply list_elem_of_here. }
  assert (Hans : forall resp, accepted (hist ++ [EvDone (channel job) (job_input job) resp]) ≡ₚ
      answered (hist ++ [EvDone (channel job) (job_input job) resp]) ++ map channel (queue st) ++
        map channel (before ++ after)).
  { intros resp. rewrite accepted_app, answered_app. cbn [accepted answered omap list_omap].
    rewrite app_nil_r, Ha, Hr, !map_app. cbn [map]. solve_Permutation. }
  assert (Hlen : (length (before ++ after) <= EXECUTE_WORKER_COUNT)%nat).
  { rewrite Hr in Hrun. rewrite !length_app in *. cbn [length] in Hrun. lia. }
  assert (Hjobs : forall j, j ∈ queue st ++ before ++ after -> identity st = Some (job_identity j)).
  { intros j Hjin. apply Hj. rewrite Hr. set_solver. }
  unfold execute_block in E.
  destruct (run_block_cases (job_input job) (block_store st) Hp Hs)
    as [[e Er]|[Er|(header & hashes & m & Ee & Er & Hm & Hsub)]].
  all: rewrite Er in E; injection E as <- <-.
  1,2: split; cbn [identity block_store queue running]; try done;
    [intros n x Hn; destruct (Hst n x Hn) as (r & Hx & Hrest); exists r; split; [by apply executed_mono|done]
    |by rewrite Hid].
  split; cbn [identity block_store queue running store poisoned]; try done.
  - intros n x Hn. apply Hsub in Hn as [Hn|[-> ->]].
    + destruct (Hst n x Hn) as (r & Hx & Hrest). exists r. split; [by apply executed_mono|done].
    + exists (execution_result header hashes). split_and!; [|done..].
      eexists _, _, _, header, hashes. split; [|done]. apply elem_of_app. right.
      apply list_elem_of_here.
  - by rewrite Hid.
Qed.

(** A response other than a signed batch adds nothing to what was signed. *)
Lemma signed_message hist conn msg resp m :
  (forall r, resp <> Some (SubmitBatchResult r)) ->
  signed (hist ++ [EvMessage conn msg resp]) m -> signed hist m.
Proof.
  intros Hno [(r & (c & input & resp' & h & hs & Hin & He) & ->)|(c & f & t & rs & bs & r & Hin & ->)].
  - left. exists r. split; [|done]. exists c, input, resp', h, hs. split; [|done].
    apply elem_of_app in Hin as [Hin|Hin]; [done|]. by apply list_elem_of_singleton in Hin.
  - right. exists c, f, t, rs, bs, r. split; [|done].
    apply elem_of_app in Hin as [Hin|Hin]; [done|]. apply list_elem_of_singleton in Hin.
    injection Hin as _ _ <-. by destruct (Hno r).
Qed.

(** A message that leaves queue, store and identity alone. *)
Lemma inv_answer st hist conn msg resp :
  inv st hist -> (identity st = None -> forall r, resp <> SubmitBatchResult r) ->
  inv st (hist ++ [EvMessage conn msg (Some resp)]).
Proof.
  intros [Hq Hrun Hp Hs Hj Hst Hsil Ha] Hno. split; try done.
  - intros n x Hn. destruct (Hst n x Hn) as (r & Hx & Hrest). exists r. split; [by apply executed_mono|done].
  - intros Hid m Hm. apply (Hsil Hid m). eapply signed_message; [|exact Hm].
    intros r [= ->]. by eapply (Hno Hid r).
  - rewrite accepted_app, answered_app. cbn [accepted answered omap list_omap]. rewrite Ha. solve_Permutation.
Qed.

Lemma inv_transfer st st' hist ev :
  inv st hist -> block_store st' = block_store st -> queue st' = queue st -> running st' = running st ->
  (forall job, job ∈ queue st' ++ running st' -> identity st' = Some (job_identity job)) ->
  (identity st' = None -> forall m, ~ signed (hist ++ [ev]) m) ->
  accepted [ev] = answered [ev] -> inv st' (hist ++ [ev]).
Proof.
  intros [Hq Hrun Hp Hs Hj Hst Hsil Ha] Eb Eq Er Hjobs Hsil' Hans. split; rewrite ?Eb, ?Eq, ?Er; try done.
  - by rewrite <- Eq, <- Er.
  - intros n x Hn. destruct (Hst n x Hn) as (r & Hx & Hrest). exists r. split; [by apply executed_mono|done].
  - rewrite accepted_app, answered_app, Hans, Ha. solve_Permutation.
Qed.

Lemma message_step_inv st hist dev conn msg st' resp :
  inv st hist -> handle_message net dev conn msg st = Ok (st', resp) ->
  inv st' (hist ++ [EvMessage conn msg resp]) /\
  (forall id, identity st = Some id -> identity st' = Some id).
Proof.
  intros Hi E. pose proof Hi as [Hq Hrun Hp Hs Hj Hst Hsil Ha].
  destruct msg as [[credentials|input|f t rs bs]|]; cbn [handle_message] in E.
  - destruct (identity st) as [id|] eqn:Hid.
    { injection E as <- <-. split; [apply inv_answer; [done|by rewrite Hid]|congruence]. }
    destruct (generate_key dev credentials) as [id|e|]; [|injection E as <- <-|done].
    + injection E as <- <-. split; [|done]. apply (inv_transfer st); try done.
      intros job Hin. exfalso. specialize (Hj job Hin). congruence.
    + split; [by apply inv_answer|congruence].
  - destruct (identity st) as [id|] eqn:Hid.
    2:{ injection E as <- <-. split; [by apply inv_answer|congruence]. }
    case_decide as Hlen; injection E as <- <-.
    2:{ split; [apply inv_answer; [done|by rewrite Hid]|congruence]. }
    split; [|done]. split; cbn [identity block_store queue running]; try done.
    + rewrite length_app. cbn. lia.
    + intros job Hin. rewrite <- app_assoc in Hin. cbn [app] in Hin.
      apply elem_of_app in Hin as [Hin|Hin]; [apply Hj, elem_of_app; by left|].
      apply elem_of_cons in Hin as [->|Hin]; [done|]. apply Hj, elem_of_app; by right.
    + intros n x Hn. destruct (Hst n x Hn) as (r & Hx & Hrest). exists r. split; [by apply executed_mono|done].
    + rewrite accepted_app, answered_app. cbn [accepted answered omap list_omap].
      rewrite Ha, map_app. cbn [map channel]. rewrite app_nil_r. solve_Permutation.
  - destruct (identity st) as [id|] eqn:Hid.
    2:{ injection E as <- <-. split; [by apply inv_answer|congruence]. }
    apply bind_Ok in E as (r & Er & E). injection E as <- <-.
    split; [apply inv_answer; [done|by rewrite Hid]|congruence].
  - injection E as <- <-. split; [by apply inv_answer|done].
Qed.

Lemma step_inv st hist ev st' :
  inv st hist -> step net st ev st' ->
  inv st' (hist ++ [ev]) /\ (forall id, identity st = Some id -> identity st' = Some id).
Proof.
  intros Hi Hstep. destruct Hstep as [dev conn msg st st' resp E|job rest st Eq Hr|before job after st result mutex Er E].
  - by eapply message_step_inv.
  - split; [|done]. destruct Hi as [Hq Hrun Hp Hs Hj Hst Hsil Ha].
    split; cbn [identity block_store queue running]; try done.
    + rewrite Eq in Hq. cbn in Hq. lia.
    + intros j Hin. apply Hj. rewrite Eq. cbn [app]. set_solver.
    + intros n x Hn. destruct (Hst n x Hn) as (r & Hx & Hrest). exists r. split; [by apply executed_mono|done].
    + intros Hid m Hm. apply (Hsil Hid m).
      destruct Hm as [(r & (c & input & resp' & h & hs & Hin & He) & ->)|(c & f & t & rs & bs & r & Hin & ->)];
        (apply elem_of_app in Hin as [Hin|Hin]; [|by apply list_elem_of_singleton in Hin]).
      * left. exists r. split; [|done]. by exists c, input, resp', h, hs.
      * right. by exists c, f, t, rs, bs, r.
    + rewrite accepted_app, answered_app. cbn [accepted answered omap list_omap].
      rewrite Ha, Eq. cbn [map]. solve_Permutation.
  - split; [|done]. by eapply job_step_inv.
Qed.

Lemma reach_inv st hist : reach net st hist -> inv st hist.
Proof.
  induction 1 as [|st hist ev st' _ IH Hstep].
  - split; cbn; try done.
    + lia.
    + lia.
    + rewrite map_size_empty. lia.
    + intros job Hin. by apply elem_of_nil in Hin.
    + intros _ m [(r & (c & input & resp' & h & hs & Hin & _) & _)|(c & f & t & rs & bs & r & Hin & _)];
        by apply elem_of_nil in Hin.
  - by apply (step_inv st).
Qed.

(** C24: the enclave's runtime invariants.  In every reachable state at most 32
    jobs wait and at most 32 run, the block store is within its bound and its
    lock never poisoned, every connection whose message was handled has been
    answered exactly once or has its one job queued or running, nothing has
    been signed before a key exists, and once there is a key no step changes
    it. *)
Theorem enclave_invariants st hist :
  reach net st hist ->
  (length (queue st) <= EXECUTE_WORKER_COUNT)%nat /\ (length (running st) <= EXECUTE_WORKER_COUNT)%nat /\
  poisoned (block_store st) = false /\ (base.size (store (block_store st)) <= MAX_ENTRIES)%nat /\
  (accepted hist ≡ₚ answered hist ++ map channel (queue st) ++ map channel (running st)) /\
  (identity st = None -> forall m, ~ signed hist m) /\
  (forall ev st' id, step net st ev st' -> identity st = Some id -> identity st' = Some id).
Proof.
  intros Hr. pose proof (reach_inv st hist Hr) as Hi.
  split_and!; [apply Hi..|]. intros ev st' id Hstep. by apply (step_inv st hist ev st').
Qed.

(** Responses have the sizes of their Rust types. *)
Definition response_ok (r : EthExecutionResponse) : Prop := hash32 (leaf r) /\ hash32 (block_hash r).

(** No response of a request carries a forged signature: what verifies under
    the enclave's key is a message the enclave has signed. *)
Definition unforged (id : EnclaveIdentity) (hist : list event) (responses : list EthExecutionResponse) : Prop :=
  forall resp, resp ∈ responses -> verified resp (verifying_key (signing_key id)) = true ->
    signed hist (execution_sign_payload (block_number resp) (leaf resp) (block_hash resp)).

(** An execution with this leaf and hash, and the same eight bytes of number. *)
Definition executed_as (hist : list event) (n : Z) (p : list Z * list Z) : Prop :=
  exists x, executed hist x /\ be_encode 8 (result_number x) = be_encode 8 n /\
    result_leaf x = p.1 /\ result_hash x = p.2.

Lemma executed_leaf hist x : executed hist x -> length (result_leaf x) = 32%nat.
Proof.
  intros (c & input & resp & h & hs & _ & _ & ->). apply keccak256_length.
Qed.

(** A response whose payload was signed is that of an execution. *)
Lemma signed_executed hist resp :
  response_ok resp -> signed hist (execution_sign_payload (block_number resp) (leaf resp) (block_hash resp)) ->
  executed_as hist (block_number resp) (leaf resp, block_hash resp).
Proof.
  intros [Hl Hh] [(x & Hx & Em)|(c & f & t & rs & bs & r & _ & Em)].
  - exists x. split; [done|]. unfold result_payload, execution_sign_payload in Em.
    apply app_inj_len in Em as [En Em]; [|by rewrite !length_be_encode].
    apply app_inj_len in Em as [El Eh]; [|rewrite (executed_leaf hist x Hx); done]. done.
  - exfalso. apply (f_equal length) in Em. unfold execution_sign_payload, abi_encode_batch, hash32 in *.
    rewrite !length_app, !length_replicate, !length_be_encode in Em. cbn [length] in Em. lia.
Qed.

(** C2: what a signed batch attests.  After any history, let a [SubmitBatch]
    carry responses of which none has a forged signature: each that verifies
    under the enclave's key is over a message the enclave has signed.  If the
    enclave answers with a signed result, then every block of the range was
    executed and accepted inside this enclave: the signed root is the Merkle root
    of the leaves, and the blobs carry exactly the block hashes, of those
    executions. *)
Theorem batch_attests_executions st hist id conn from_ to_ responses blobs r st' :
  reach net st hist -> identity st = Some id -> unforged id hist responses ->
  Forall response_ok responses ->
  step net st (EvMessage conn (Some (SubmitBatch from_ to_ responses blobs)) (Some (SubmitBatchResult r))) st' ->
  exists pairs payload,
    Forall2 (executed_as hist) (range_incl from_ to_) pairs /\
    calculate_merkle_root (map fst pairs) = Some (batch_root r) /\
    decode_blob_payload blobs = Ok payload /\ blocks_of payload = Some (map (fun p => Ok p.2) pairs) /\
    compute_versioned_hashes blobs = Ok (versioned_hashes r).
Proof.
  intros Hreach Hid Hun Hok Hstep. pose proof (reach_inv st hist Hreach) as Hi.
  inversion Hstep as [dev ? ? ? ? ? E| |]; subst. cbn [handle_message] in E. rewrite Hid in E.
  apply bind_Ok in E as (resp & Er & E). injection E as <- ->.
  destruct (handle_submit_batch net from_ to_ responses blobs (signing_key id) (block_store st))
    as [r'|[bad|e]|] eqn:Eh; cbn in Er; try done. injection Er as <-.
  destruct (handle_submit_batch_exact net from_ to_ responses blobs (signing_key id) (block_store st)) as (_ & Hexact & _).
  apply Hexact in Eh as (_ & pairs & payload & HF & Hroot & Hd & Hb & Hv & _).
  exists pairs, payload. split_and!; try done.
  eapply Forall2_impl; [exact HF|]. intros n p Hp. unfold trusted_block in Hp.
  destruct (List.find (fun r => block_number r =? n) responses) as [resp|] eqn:Ef.
  - apply find_some in Ef as [Hin Hn]. apply Z.eqb_eq in Hn. subst n.
    destruct (verified resp _) eqn:Hver; [|done]. injection Hp as <-.
    apply list_elem_of_In in Hin. rewrite Forall_forall in Hok. by apply signed_executed; [apply Hok|apply Hun].
  - destruct (store (block_store st) !! n) as [e|] eqn:Est; [|done]. injection Hp as <-.
    destruct (inv_store _ _ Hi n e Est) as (x & Hx & <- & Hl & Hh). by exists x.
Qed.
End Safety.

(** ** A complete run *)
Section Samples.
#[local] Existing Instance RefRlp.alloy.
#[local] Existing Instance RefRlp.reader.
#[local] Existing Instance sample_keccak.
#[local] Existing Instance sample_codec.
#[local] Existing Instance sample_types.
#[local] Existing Instance sample_reth.
#[local] Existing Instance toy_brotli.

(** The block of [sample_input], executed. *)
Definition sample_result : ExecutionResultRec :=
  match execute mainnet sample_input with
  | Ok (h, hashes) => execution_result h hashes
  | _ => {| result_number := 0; result_leaf := []; result_hash := [] |}
  end.

(** Stand-in cryptography: a signature is the hash of the key and the message,
    and nothing else verifies. *)
#[local] Instance sample_crypto : EnclaveCrypto := {|
  SigningKey := list Z;
  VerifyingKey := list Z;
  verifying_key k := k;
  encoded_point vk := 4 :: vk;
  signing_key_of_secret s := Some s;
  sign k m := keccak256 (k ++ m) ++ keccak256 (m ++ k);
  sign_digest_recoverable k d := Some (keccak256 (k ++ d) ++ keccak256 (d ++ k), 0);
  is_high_s _ := false;
  signature_from_slice sig := bool_decide (length sig = 64%nat);
  verify vk m sig := bool_decide (sig = keccak256 (vk ++ m) ++ keccak256 (m ++ vk));
  sha256 := keccak256;
  hkdf_extract a b := a ++ b;
  hkdf_expand prk info n := Some (replicate n 1);
  kzg_blob_from_bytes _ := true;
  blob_to_kzg_commitment _ := Some (replicate 48 3) |}.

Definition sample_creds : AwsCredentials :=
  {| access_key_id := "id"%string; secret_access_key := "key"%string; session_token := "token"%string |}.
Definition sample_devices : Devices :=
  {| kms_generate_random _ := Some [1]; nsm_get_random := Some [2]; nsm_attestation _ := Some [9] |}.
Definition sample_identity : EnclaveIdentity :=
  {| signing_key := replicate 32 1; public_key := 4 :: replicate 32 1; attestation := [9] |}.
Definition sample_job : ExecuteJob :=
  {| channel := 2; job_input := sample_input; job_identity := sample_identity |}.
Definition sample_response : EthExecutionResponse := sign_execution sample_result (replicate 32 1).

Definition empty_store : Mutex := {| poisoned := false; store := ∅ |}.
Definition filled_store : Mutex := {| poisoned := false; store := <[result_number sample_result :=
  {| entry_leaf := result_leaf sample_result; entry_block_hash := result_hash sample_result |}]> ∅ |}.

(** Handshake, one block accepted, taken and executed. *)
Definition sample_history : list event :=
  [EvMessage 1 (Some (Handshake sample_creds)) (Some (KeyGenerated (4 :: replicate 32 1) [9]));
   EvMessage 2 (Some (ExecuteBlock sample_input)) None;
   EvTake 2;
   EvDone 2 sample_input (ExecutionResult sample_response)].
Definition sample_final : EnclaveState :=
  {| identity := Some sample_identity; block_store := filled_store; queue := []; running := [] |}.

Lemma sample_execute :
  exists h hashes, eth mainnet None sample_input = Ok (h, hashes) /\ sample_result = execution_result h hashes.
Proof.
  assert (T : match execute mainnet sample_input with Ok _ => true | _ => false end = true)
    by (vm_compute; reflexivity).
  unfold sample_result, eth. revert T. generalize (execute mainnet sample_input).
  intros [[h hashes]|e|] T; [|discriminate T..]. exists h, hashes. split; reflexivity.
Qed.

Lemma sample_run_block :
  execute_block mainnet sample_input (replicate 32 1) empty_store = (Ok sample_response, filled_store).
Proof.
  destruct sample_execute as (h & hashes & E & Er). unfold execute_block, run_block.
  change (custom_beneficiary sample_input) with (@None (list Z)). rewrite E. cbn zeta. rewrite <- Er.
  unfold block_store_insert. cbn [poisoned store empty_store].
  rewrite map_size_insert_None, map_size_empty by apply lookup_empty. cbn [evict].
  rewrite decide_False.
  - done.
  - rewrite map_size_insert_None, map_size_empty by apply lookup_empty. unfold MAX_ENTRIES.
    change (Z.shiftl 1 18) with 262144. lia.
Qed.

Lemma sample_keygen : generate_key sample_devices sample_creds = Ok sample_identity.
Proof. reflexivity. Qed.

Lemma sample_reach : reach mainnet sample_final sample_history.
Proof.
  pose (s1 := {| identity := Some sample_identity; block_store := empty_store; queue := []; running := [] |}).
  pose (s2 := {| identity := Some sample_identity; block_store := empty_store; queue := [sample_job]; running := [] |}).
  pose (s3 := {| identity := Some sample_identity; block_store := empty_store; queue := []; running := [sample_job] |}).
  eapply (reach_step mainnet s3 [_; _; _]).
  - eapply (reach_step mainnet s2 [_; _]).
    + eapply (reach_step mainnet s1 [_]).
      * eapply (reach_step mainnet init_state []); [constructor|].
        apply (step_message mainnet sample_devices). cbn [handle_message identity init_state].
        rewrite sample_keygen. reflexivity.
      * apply (step_message mainnet sample_devices). reflexivity.
    + apply (step_take mainnet sample_job [] s2); [reflexivity|]. unfold EXECUTE_WORKER_COUNT. cbn. lia.
  - apply (step_done mainnet [] sample_job [] s3 (Ok sample_response) filled_store); [reflexivity|].
    exact sample_run_block.
Qed.

Lemma enclave_invariants_witness :
  reach mainnet sample_final sample_history /\
  accepted sample_history ≡ₚ answered sample_history ++ map channel (queue sample_final) ++
    map channel (running sample_final).
Proof.
  split; [exact sample_reach|].
  exact (proj1 (proj2 (proj2 (proj2 (proj2
    (enclave_invariants (laws := RefRlp.alloy_laws) mainnet sample_final sample_history sample_reach)))))).
Defined.

Definition sample_block : FetchedBlock :=
  {| header_rlp := sample_header_rlp 7; tx_envelopes := [[1; 2]] |}.

Lemma sample_versioned_hashes blobs :
  Forall (fun b => length b = BYTES_PER_BLOB) blobs -> exists vhs, compute_versioned_hashes blobs = Ok vhs.
Proof.
  intros Hb. apply mapM_total. apply Forall_forall. intros [i b] Hin. cbn [fst snd].
  apply elem_of_zip_r in Hin. rewrite Forall_forall in Hb. rewrite decide_True by auto. by eexists.
Qed.

Lemma sample_blobs_payload : exists blobs,
  Forall (fun b => length b = BYTES_PER_BLOB) blobs /\
  decode_blob_payload blobs = Ok (encode_batch_payload [sample_block]) /\
  blocks_of (encode_batch_payload [sample_block]) = Some [Ok (result_hash sample_result)].
Proof.
  destruct (batch_blobs_ok (laws := RefRlp.alloy_laws) (blaws := toy_brotli_laws) [sample_block])
    as (blobs & _ & Hl & Hd & Hb).
  - apply Forall_cons; split; [|apply Forall_nil; exact I].
    exists [string_encode (be_encode 8 7)]. split; [reflexivity|vm_compute; reflexivity].
  - vm_compute. reflexivity.
  - eexists. vm_compute. reflexivity.
  - exists blobs. split_and!; [exact Hl|exact Hd|].
    rewrite Hb. cbn [map]. do 3 f_equal.
Qed.

Lemma sample_unforged : unforged mainnet sample_identity sample_history [sample_response].
Proof.
  intros resp ->%list_elem_of_singleton _. left. destruct sample_execute as (h & hashes & E & Er).
  exists sample_result. split; [|reflexivity].
  exists 2, sample_input, sample_response, h, hashes. split; [|split; [exact E|exact Er]].
  do 3 apply list_elem_of_further. apply list_elem_of_here.
Qed.

Lemma sample_response_ok : Forall response_ok [sample_response].
Proof.
  apply Forall_cons; split; [|apply Forall_nil; exact I]. split; vm_compute; reflexivity.
Qed.

(** The sample's batch, as the arguments [handle_submit_batch] gets. *)
Definition sample_submission (blobs : list (list Z)) : outcome SubmitBatchError SubmitBatchResponse :=
  handle_submit_batch mainnet 7 7 [sample_response] blobs (signing_key sample_identity) filled_store.

Lemma sample_trusted :
  trusted_block [sample_response] (verifying_key (signing_key sample_identity)) (store filled_store) 7 =
  Some (result_leaf sample_result, result_hash sample_result).
Proof.
  assert (Hn : block_number sample_response = 7) by (vm_compute; reflexivity).
  unfold trusted_block. cbn [List.find]. rewrite Hn, Z.eqb_refl.
  assert (Hver : verified sample_response (verifying_key (signing_key sample_identity)) = true).
  { unfold verified. apply andb_true_iff. split; apply bool_decide_eq_true_2; [vm_compute|]; reflexivity. }
  by rewrite Hver.
Qed.

Lemma submit_batch_exact_witness : exists blobs r,
  sample_submission blobs = Ok r /\
  calculate_merkle_root [result_leaf sample_result] = Some (batch_root r) /\
  handle_submit_batch mainnet 7 8 [sample_response] blobs (signing_key sample_identity) filled_store =
    Err (InvalidSignatures [8]).
Proof.
  destruct sample_blobs_payload as (blobs & Hl & Hd & Hb). pose proof sample_trusted as Htrusted.
  destruct (sample_versioned_hashes blobs Hl) as [vhs Hv].
  destruct (sign_batch mainnet (result_leaf sample_result) vhs (signing_key sample_identity)) as [r|e|] eqn:Es;
    [|discriminate Es..].
  destruct (sign_batch_fields _ _ _ _ _ Es) as [Hroot Hhs].
  exists blobs, r. split; [|split].
  - apply (proj1 (proj2 (submit_batch_exact (laws := RefRlp.alloy_laws) mainnet 7 7 [sample_response] blobs
      (signing_key sample_identity) filled_store))).
    split; [split; [split; [lia|split; [apply NoDup_singleton|reflexivity]]|vm_compute; discriminate]|].
    exists [(result_leaf sample_result, result_hash sample_result)], (encode_batch_payload [sample_block]).
    rewrite Hroot, Hhs. split; [|exact (conj eq_refl (conj Hd (conj Hb (conj Hv Es))))].
    apply Forall2_cons. by split; [|apply Forall2_nil].
  - rewrite Hroot. reflexivity.
  - apply (proj2 (proj2 (submit_batch_exact (laws := RefRlp.alloy_laws) mainnet 7 8 [sample_response] blobs
      (signing_key sample_identity) filled_store))).
    split; [split; [split; [lia|split; [apply NoDup_singleton|reflexivity]]|vm_compute; discriminate]|].
    split; [discriminate|].
    change (range_incl 7 8) with [7; 8].
    rewrite filter_cons_False by (rewrite Htrusted; discriminate).
    rewrite filter_cons_True; [reflexivity|].
    unfold trusted_block. cbn [List.find].
    assert (Hn : (block_number sample_response =? 8) = false) by (vm_compute; reflexivity). rewrite Hn.
    assert (Hs : result_number sample_result <> 8) by (vm_compute; discriminate).
    unfold filled_store, store. by rewrite lookup_insert_ne, lookup_empty.
Defined.

Lemma sample_submit : exists blobs r,
  step mainnet sample_final
    (EvMessage 3 (Some (SubmitBatch 7 7 [sample_response] blobs)) (Some (SubmitBatchResult r))) sample_final.
Proof.
  destruct sample_blobs_payload as (blobs & Hl & Hd & Hb). pose proof sample_trusted as Htrusted.
  destruct (sample_versioned_hashes blobs Hl) as [vhs Hv].
  destruct (sign_batch mainnet (result_leaf sample_result) vhs (signing_key sample_identity)) as [r|e|] eqn:Es;
    [|discriminate Es..].
  destruct (sign_batch_fields _ _ _ _ _ Es) as [Hroot Hhs].
  exists blobs, r. apply (step_message mainnet sample_devices). cbn [handle_message identity sample_final].
  destruct (handle_submit_batch_exact (laws := RefRlp.alloy_laws) mainnet 7 7 [sample_response] blobs
    (signing_key sample_identity) filled_store) as (_ & Hexact & _).
  change (block_store sample_final) with filled_store. rewrite (proj2 (Hexact r)); [reflexivity|].
  split; [split_and!; [lia|apply NoDup_singleton|reflexivity|vm_compute; discriminate]|].
  exists [(result_leaf sample_result, result_hash sample_result)], (encode_batch_payload [sample_block]).
  rewrite Hroot, Hhs. split_and!; [|reflexivity|exact Hd|exact Hb|exact Hv|exact Es].
  apply Forall2_cons. by split; [|apply Forall2_nil].
Qed.

Lemma batch_attests_executions_witness :
  exists blobs r pairs payload,
    step mainnet sample_final
      (EvMessage 3 (Some (SubmitBatch 7 7 [sample_response] blobs)) (Some (SubmitBatchResult r))) sample_final /\
    Forall2 (executed_as mainnet sample_history) (range_incl 7 7) pairs /\
    calculate_merkle_root (map fst pairs) = Some (batch_root r) /\
    decode_blob_payload blobs = Ok payload /\ blocks_of payload = Some (map (fun p => Ok p.2) pairs).
Proof.
  destruct sample_submit as (blobs & r & Hstep).
  destruct (batch_attests_executions (laws := RefRlp.alloy_laws) mainnet sample_final sample_history
    sample_identity 3 7 7 [sample_response] blobs r sample_final sample_reach eq_refl sample_unforged
    sample_response_ok Hstep) as (pairs & payload & HF & Hroot & Hd & Hb & _).
  exists blobs, r, pairs, payload. exact (conj Hstep (conj HF (conj Hroot (conj Hd Hb)))).
Defined.
End Samples.
