(* ===== verification/Sp1.v ===== *)
(** * The SP1 guest ([bin/client/src/sp1.rs])

    The same state transition and the same blobs, checked inside a zkVM: the
    guest executes the block, finds its hash in the blobs, verifies the
    host-computed KZG commitments and commits the public values the rollup
    contract reads.  Every failed check is a panic, which leaves no proof. *)
From S2P Require Import Prelude BytesCodec Rlp NitroTypes Network Merkle EventsHash BlobCodec.
From S2P Require Import BlobPayload BlobRoundtrip Mpt MptWire MptProof EthState.
From S2P Require Import WitnessDb Executor Enclave EnclaveLoop EnclaveSafety.

(** [nitro_types::BlobVerificationInput]. *)
Record BlobVerificationInput : Type := {
  blobs : list (list Z);
  commitments : list (list Z);
  proofs : list (list Z) }.

(** [kzg_rs] and [bincode]: the verifier answers an error or a verdict. *)
Class KzgRs := {
  blob_from_slice : list Z -> bool;
  bytes48_from_slice : list Z -> bool;
  verify_blob_kzg_proof : list Z -> list Z -> list Z -> option bool }.

Definition MAX_INPUT_SIZE : Z := 256 * 1024 * 1024.

Section Guest.
Context `{Keccak, AlloyRlp, RlpReader, Brotli, AccountCodec, ChainTypes, !Reth, EnclaveCrypto, KzgRs}.
Context (net : network).
Context (deserialize_executor_input : Z -> list Z -> option ClientExecutorInput)
        (deserialize_blob_input : Z -> list Z -> option BlobVerificationInput).

(** [iter.any(|view| matches!(view, Ok(v) if v.block_hash == target))]: errors
    do not match and do not stop the search. *)
Fixpoint any_block (fuel : nat) (target : list Z) (it : BlockIter) : outcome unit bool :=
  match fuel with
  | O => Panic
  | S fuel' =>
      match next it with
      | (_, None) => Ok false
      | (_, Some Panic) => Panic
      | (it', Some (Ok h)) => if decide (h = target) then Ok true else any_block fuel' target it'
      | (it', Some (Err _)) => any_block fuel' target it'
      end
  end.

(** One round of the KZG loop: the versioned hash of the blob's commitment. *)
Definition verify_one (input : list Z * list Z * list Z) : outcome unit (list Z) :=
  let '(blob, commitment, proof) := input in
  _ ← ensure (blob_from_slice blob);
  _ ← ensure (bytes48_from_slice commitment);
  _ ← ensure (bytes48_from_slice proof);
  is_valid ← unwrap (verify_blob_kzg_proof blob commitment proof);
  _ ← ensure is_valid;
  Ok (1 :: drop 1 (sha256 commitment)).

(** [main]: the committed bytes. *)
Definition main (exec_bytes blob_bytes : list Z) : outcome unit (list Z) :=
  executor_input ← unwrap (deserialize_executor_input MAX_INPUT_SIZE exec_bytes);
  blob_input ← unwrap (deserialize_blob_input MAX_INPUT_SIZE blob_bytes);
  '(header, events_hash) ← unwrap_res (eth net (custom_beneficiary executor_input) executor_input);
  let stf_block_hash := hash_slow header in
  decompressed ← unwrap_res (decode_blob_payload (blobs blob_input));
  found ← any_block (S (S (length decompressed))) stf_block_hash (iter_blocks decompressed);
  _ ← ensure found;
  _ ← ensure (length (blobs blob_input) =? length (commitments blob_input))%nat;
  _ ← ensure (length (blobs blob_input) =? length (proofs blob_input))%nat;
  versioned_hashes ←
    mapM verify_one (zip (zip (blobs blob_input) (commitments blob_input)) (proofs blob_input));
  Ok (parent_hash header ++ stf_block_hash ++ withdrawal_hash events_hash ++ deposit_hash events_hash
        ++ concat versioned_hashes).

(** ** What a proof shows *)

Lemma any_block_found fuel target : forall it items,
  collect fuel it = Some items -> any_block fuel target it = Ok true -> Ok target ∈ items.
Proof.
  induction fuel as [|fuel IH]; intros it items Hc Ha; [done|]. cbn [collect any_block] in *.
  destruct (next it) as [it' [x|]]; [|done].
  destruct (collect fuel it') as [rest|] eqn:Er; [|done]. injection Hc as <-.
  destruct x as [h|e|]; [|apply list_elem_of_further; by eapply IH|done].
  case_decide as Hd; [subst; apply list_elem_of_here|apply list_elem_of_further; by eapply IH].
Qed.

(** The verifier accepts only the blob's own commitment, and only full blobs:
    the soundness of KZG as the code relies on it. *)
Definition kzg_sound : Prop := forall blob commitment proof,
  blob_from_slice blob = true -> verify_blob_kzg_proof blob commitment proof = Some true ->
  length blob = BYTES_PER_BLOB /\ kzg_blob_from_bytes blob = true /\
  blob_to_kzg_commitment blob = Some commitment.

Lemma verify_one_versioned i blob commitment proof vh :
  kzg_sound -> verify_one (blob, commitment, proof) = Ok vh ->
  (if decide (length blob = BYTES_PER_BLOB) then blob_to_versioned_hash blob
   else Err (BadBlobSize i)) = Ok vh.
Proof.
  intros Hk E. unfold verify_one in E. apply bind_Ok in E as ([] & Hb & E). apply ensure_Ok in Hb.
  apply bind_Ok in E as ([] & _ & E). apply bind_Ok in E as ([] & _ & E).
  apply bind_Ok in E as (v & Hv & E). apply unwrap_Ok in Hv.
  apply bind_Ok in E as ([] & Hval & E). apply ensure_Ok in Hval. subst v. apply Ok_inj in E as <-.
  destruct (Hk _ _ _ Hb Hv) as (Hl & Hok & Hc). rewrite decide_True by done.
  unfold blob_to_versioned_hash. by rewrite Hok, Hc.
Qed.

Lemma verify_all_versioned bs : forall k cs ps vhs,
  kzg_sound -> length bs = length cs -> length bs = length ps ->
  mapM verify_one (zip (zip bs cs) ps) = Ok vhs ->
  mapM (fun ib => if decide (length ib.2 = BYTES_PER_BLOB) then blob_to_versioned_hash ib.2
                  else Err (BadBlobSize ib.1)) (zip (seq k (length bs)) bs) = Ok vhs.
Proof.
  induction bs as [|b bs IH]; intros k [|c cs] [|p ps] vhs Hk Hc Hp E; try done.
  { apply Ok_inj in E as <-. done. }
  apply mapM_Ok in E. apply mapM_Ok. cbn [zip zip_with length seq] in *.
  inversion E as [|? vh ? rest Hv Hrest]; subst. constructor.
  - cbn [fst snd]. by eapply verify_one_versioned.
  - apply mapM_Ok. eapply (IH (S k) cs ps); [done|by injection Hc|by injection Hp|]. by apply mapM_Ok.
Qed.

Context {laws : AlloyRlpLaws}.

(** What an SP1 proof shows.  If the guest commits public values, they are
    the parent hash, block hash, withdrawal root and deposit hash of a block
    the executor accepted, followed by the versioned hashes of blobs whose
    payload contains that block's hash; and, KZG being sound, the versioned
    hashes are those the Nitro enclave computes for the same blobs, so both
    provers commit to the same data. *)
Theorem main_public_values exec_bytes blob_bytes out :
  main exec_bytes blob_bytes = Ok out ->
  exists input blob_input header hashes payload items vhs,
    deserialize_executor_input MAX_INPUT_SIZE exec_bytes = Some input /\
    deserialize_blob_input MAX_INPUT_SIZE blob_bytes = Some blob_input /\
    execute net input = Ok (header, hashes) /\
    out = parent_hash header ++ hash_slow header ++ withdrawal_hash hashes ++ deposit_hash hashes ++ concat vhs /\
    decode_blob_payload (blobs blob_input) = Ok payload /\
    blocks_of payload = Some items /\ Ok (hash_slow header) ∈ items /\
    length vhs = length (blobs blob_input) /\
    (kzg_sound -> compute_versioned_hashes (blobs blob_input) = Ok vhs).
Proof.
  intros E. unfold main in E.
  apply bind_Ok in E as (input & Hin & E). apply unwrap_Ok in Hin.
  apply bind_Ok in E as (bi & Hbi & E). apply unwrap_Ok in Hbi.
  apply bind_Ok in E as ([header hashes] & Hex & E). apply unwrap_res_inv in Hex.
  apply bind_Ok in E as (payload & Hd & E). apply unwrap_res_inv in Hd.
  apply bind_Ok in E as (found & Ha & E). apply bind_Ok in E as ([] & Hf & E). apply ensure_Ok in Hf. subst found.
  apply bind_Ok in E as ([] & Hc & E). apply ensure_Ok, Nat.eqb_eq in Hc.
  apply bind_Ok in E as ([] & Hp & E). apply ensure_Ok, Nat.eqb_eq in Hp.
  apply bind_Ok in E as (vhs & Hv & E). apply Ok_inj in E as <-.
  destruct (blocks_of_ok payload) as (items & Hi & _).
  exists input, bi, header, hashes, payload, items, vhs. split_and!; try done.
  - eapply any_block_found; [exact Hi|exact Ha].
  - apply mapM_Ok, Forall2_length in Hv. rewrite !length_zip_with in Hv. lia.
  - intros Hk. exact (verify_all_versioned _ 0 _ _ _ Hk Hc Hp Hv).
Qed.

(** The checks passed are all there are. *)
Lemma main_succeeds exec_bytes blob_bytes input bi header hashes payload vhs :
  deserialize_executor_input MAX_INPUT_SIZE exec_bytes = Some input ->
  deserialize_blob_input MAX_INPUT_SIZE blob_bytes = Some bi ->
  eth net (custom_beneficiary input) input = Ok (header, hashes) ->
  decode_blob_payload (blobs bi) = Ok payload ->
  any_block (S (S (length payload))) (hash_slow header) (iter_blocks payload) = Ok true ->
  length (blobs bi) = length (commitments bi) -> length (blobs bi) = length (proofs bi) ->
  mapM verify_one (zip (zip (blobs bi) (commitments bi)) (proofs bi)) = Ok vhs ->
  main exec_bytes blob_bytes = Ok (parent_hash header ++ hash_slow header ++ withdrawal_hash hashes
    ++ deposit_hash hashes ++ concat vhs).
Proof.
  intros Hin Hbi Hex Hd Ha Hc Hp Hv. unfold main. rewrite Hin. cbn [unwrap mbind outcome_bind].
  rewrite Hbi. cbn [unwrap mbind outcome_bind]. rewrite Hex. cbn [unwrap_res mbind outcome_bind].
  rewrite Hd. cbn [unwrap_res mbind outcome_bind]. rewrite Ha. cbn [ensure mbind outcome_bind].
  rewrite (proj2 (Nat.eqb_eq _ _) Hc), (proj2 (Nat.eqb_eq _ _) Hp). cbn [ensure mbind outcome_bind].
  by rewrite Hv.
Qed.
End Guest.

Section Samples.
#[local] Existing Instance RefRlp.alloy.
#[local] Existing Instance RefRlp.reader.
#[local] Existing Instance sample_keccak.
#[local] Existing Instance sample_codec.
#[local] Existing Instance sample_types.
#[local] Existing Instance sample_reth.
#[local] Existing Instance toy_brotli.
#[local] Existing Instance sample_crypto.

#[local] Instance sample_kzg : KzgRs := {|
  blob_from_slice _ := true;
  bytes48_from_slice _ := true;
  verify_blob_kzg_proof _ _ _ := Some true |}.

Definition sample_kzg_input (bs : list (list Z)) : BlobVerificationInput :=
  {| blobs := bs; commitments := bs; proofs := bs |}.

Lemma sample_verify_all bs : exists vhs, mapM verify_one (zip (zip bs bs) bs) = Ok vhs.
Proof.
  apply mapM_total, Forall_forall. intros [[b c] p] _. by eexists.
Qed.

Lemma sample_found :
  any_block (S (S (length (encode_batch_payload [sample_block])))) (sample_hash 7)
    (iter_blocks (encode_batch_payload [sample_block])) = Ok true.
Proof. vm_compute. reflexivity. Qed.

(** Running the guest on the sample block and blobs that carry it. *)
Lemma sample_main : exists bs out,
  main mainnet (fun _ _ => Some sample_input) (fun _ _ => Some (sample_kzg_input bs)) [] [] = Ok out.
Proof.
  destruct sample_blobs_payload as (bs & _ & Hd & _). destruct (sample_verify_all bs) as [vhs Hv].
  destruct sample_execute as (h & hashes & E & Er).
  assert (Hh : hash_slow h = sample_hash 7).
  { change (hash_slow h) with (result_hash (execution_result h hashes)). rewrite <- Er. vm_compute. reflexivity. }
  pose proof sample_found as Hf. rewrite <- Hh in Hf.
  exists bs. eexists.
  exact (main_succeeds mainnet (fun _ _ => Some sample_input) (fun _ _ => Some (sample_kzg_input bs)) [] []
    sample_input (sample_kzg_input bs) h hashes _ vhs eq_refl eq_refl E Hd Hf eq_refl eq_refl Hv).
Qed.

Lemma main_public_values_witness : exists bs out header hashes,
  main mainnet (fun _ _ => Some sample_input) (fun _ _ => Some (sample_kzg_input bs)) [] [] = Ok out /\
  execute mainnet sample_input = Ok (header, hashes) /\
  exists vhs, out = parent_hash header ++ hash_slow header ++ withdrawal_hash hashes ++ deposit_hash hashes ++ concat vhs.
Proof.
  destruct sample_main as (bs & out & E).
  destruct (main_public_values (laws := RefRlp.alloy_laws) mainnet (fun _ _ => Some sample_input)
    (fun _ _ => Some (sample_kzg_input bs)) [] [] out E)
    as (input & bi & header & hashes & payload & items & vhs & Hin & _ & Hex & Hout & _).
  injection Hin as <-. exists bs, out, header, hashes.
  exact (conj E (conj Hex (ex_intro _ vhs Hout))).
Defined.
End Samples.
