(* ===== verification/Interaction.v ===== *)
(** * Programs that talk to a network

    An asynchronous function of the code is a tree of calls to the outside:
    every request carries its answer's type, and the rest of the function is a
    function of the answer.  Calls are a parameter, so each component names the
    requests it makes.  A run is the trace of calls with their answers; nothing
    is assumed about the answers, so a statement about every trace holds
    whatever the network does.  [checked] is the invariant rule: a ghost state
    follows the trace, and every call must be allowed where it is made. *)
From S2P Require Import Prelude.
From stdpp Require Import strings pretty.

Section Programs.
Context {C : Type -> Type}.

Inductive prog (A : Type) : Type :=
  | Ret (a : A)
  | Vis {R : Type} (c : C R) (k : R -> prog A).
#[global] Arguments Ret {A} a.
#[global] Arguments Vis {A R} c k.

Fixpoint prog_bind {A B} (f : A -> prog B) (p : prog A) : prog B :=
  match p with
  | Ret a => f a
  | Vis c k => Vis c (fun r => prog_bind f (k r))
  end.

#[global] Instance prog_ret : MRet prog := @Ret.
#[global] Instance prog_mbind : MBind prog := fun A B f p => prog_bind f p.

Definition trigger {R} (c : C R) : prog R := Vis c Ret.

(** A call and its answer. *)
Inductive event : Type :=
  | Ev {R : Type} (c : C R) (r : R).

(** [exec p t a]: answered as in [t], the program ends with [a]. *)
Fixpoint exec {A} (p : prog A) (t : list event) (a : A) : Prop :=
  match p with
  | Ret a' => t = [] /\ a = a'
  | Vis c k => exists r t', t = Ev c r :: t' /\ exec (k r) t' a
  end.

Lemma exec_bind {A B} (f : A -> prog B) (p : prog A) t b :
  exec (p ≫= f) t b <-> exists a t1 t2, t = t1 ++ t2 /\ exec p t1 a /\ exec (f a) t2 b.
Proof.
  revert t. induction p as [a|R c k IH]; intros t; cbn.
  - split; [intros E; by exists a, [], t|]. by intros (a' & t1 & t2 & -> & [-> ->] & E).
  - split.
    + intros (r & t' & -> & E). apply IH in E as (a & t1 & t2 & -> & E1 & E2).
      exists a, (Ev c r :: t1), t2. split; [done|]. split; [by exists r, t1|done].
    + intros (a & t1 & t2 & -> & (r & t' & -> & E1) & E2). exists r, (t' ++ t2).
      split; [done|]. apply IH. by exists a, t', t2.
Qed.

(** Running against an environment with a state of its own. *)
Fixpoint run {A S} (answer : forall R, C R -> S -> R * S) (p : prog A) (s : S) : A * list event * S :=
  match p with
  | Ret a => (a, [], s)
  | Vis c k =>
      let '(r, s) := answer _ c s in
      let '(a, t, s) := run answer (k r) s in (a, Ev c r :: t, s)
  end.

Lemma run_exec {A S} (answer : forall R, C R -> S -> R * S) (p : prog A) s a t s' :
  run answer p s = (a, t, s') -> exec p t a.
Proof.
  revert s t. induction p as [a'|R c k IH]; intros s t E; cbn in *; [by injection E as -> <- _|].
  destruct (answer R c s) as [r s1]. destruct (run answer (k r) s1) as [[a2 t2] s2] eqn:E2.
  injection E as -> <- ->. exists r, t2. split; [done|]. by eapply IH.
Qed.

Lemma run_sound {A S} (answer : forall R, C R -> S -> R * S) (p : prog A) s :
  exec p (run answer p s).1.2 (run answer p s).1.1.
Proof.
  destruct (run answer p s) as [[a t] s'] eqn:E. exact (run_exec answer p s a t s' E).
Qed.

(** ** Ghost states *)
Section Ghost.
Context {G : Type} (allowed : forall R, G -> C R -> Prop) (observe : forall R, G -> C R -> R -> G).

(** Every call of the trace is allowed in the state the earlier ones left. *)
Fixpoint respects (g : G) (t : list event) : Prop :=
  match t with
  | [] => True
  | Ev c r :: t' => allowed _ g c /\ respects (observe _ g c r) t'
  end.

Fixpoint after (g : G) (t : list event) : G :=
  match t with
  | [] => g
  | Ev c r :: t' => after (observe _ g c r) t'
  end.

Fixpoint checked {A} (g : G) (p : prog A) (Q : G -> A -> Prop) : Prop :=
  match p with
  | Ret a => Q g a
  | Vis c k => allowed _ g c /\ forall r, checked (observe _ g c r) (k r) Q
  end.

Lemma checked_sound {A} (p : prog A) (Q : G -> A -> Prop) t a : forall g,
  checked g p Q -> exec p t a -> respects g t /\ Q (after g t) a.
Proof.
  revert t. induction p as [a'|R c k IH]; intros t g Hc E; cbn in *; [by destruct E as [-> ->]|].
  destruct E as (r & t' & -> & E). destruct Hc as [Ha Hk]. cbn.
  destruct (IH r t' _ (Hk r) E) as [Hr HQ]. done.
Qed.

Lemma checked_mono {A} (p : prog A) (Q Q' : G -> A -> Prop) : forall g,
  (forall g a, Q g a -> Q' g a) -> checked g p Q -> checked g p Q'.
Proof.
  induction p as [a|R c k IH]; intros g HQ Hc; cbn in *; [auto|].
  destruct Hc as [Ha Hk]. split; [done|]. intros r. by apply IH.
Qed.

Lemma checked_bind {A B} (p : prog A) (f : A -> prog B) (Q : G -> B -> Prop) : forall g,
  checked g p (fun g a => checked g (f a) Q) -> checked g (p ≫= f) Q.
Proof.
  induction p as [a|R c k IH]; intros g Hc; cbn in *; [done|].
  destruct Hc as [Ha Hk]. split; [done|]. intros r. by apply IH.
Qed.

Lemma checked_seq {A B} (p : prog A) (f : A -> prog B) (P : G -> A -> Prop) (Q : G -> B -> Prop) g :
  checked g p P -> (forall g a, P g a -> checked g (f a) Q) -> checked g (p ≫= f) Q.
Proof. intros Hp Hf. apply checked_bind. by eapply checked_mono. Qed.

Lemma respects_app g t1 t2 :
  respects g (t1 ++ t2) <-> respects g t1 /\ respects (after g t1) t2.
Proof. revert g. induction t1 as [|[R c r] t1 IH]; intros g; cbn; [tauto|]. rewrite IH. tauto. Qed.

Lemma after_app g t1 t2 : after g (t1 ++ t2) = after (after g t1) t2.
Proof. revert g. induction t1 as [|[R c r] t1 IH]; intros g; cbn; [done|apply IH]. Qed.

Definition eff_post {E A B} (f : A -> prog (outcome E B)) (Q : G -> outcome E B -> Prop)
    (g : G) (r : outcome E A) : Prop :=
  match r with
  | Ok a => checked g (f a) Q
  | Err e => Q g (Err e)
  | Panic => Q g Panic
  end.
End Ghost.

(** ** Honest environments

    As [checked], but only for answers that [honest] allows in the state they
    are given in. *)
Section Valid.
Context {G : Type} (allowed : forall R, G -> C R -> Prop) (observe : forall R, G -> C R -> R -> G)
  (honest : forall R, G -> C R -> R -> Prop).

Fixpoint honest_trace (g : G) (t : list event) : Prop :=
  match t with
  | [] => True
  | Ev c r :: t' => honest _ g c r /\ honest_trace (observe _ g c r) t'
  end.

Fixpoint valid {A} (g : G) (p : prog A) (Q : G -> A -> Prop) : Prop :=
  match p with
  | Ret a => Q g a
  | Vis c k => allowed _ g c /\ forall r, honest _ g c r -> valid (observe _ g c r) (k r) Q
  end.

Lemma valid_sound {A} (p : prog A) (Q : G -> A -> Prop) t a : forall g,
  valid g p Q -> exec p t a -> honest_trace g t ->
  respects allowed observe g t /\ Q (after observe g t) a.
Proof.
  revert t. induction p as [a'|R c k IH]; intros t g Hv E Ht; cbn in *; [by destruct E as [-> ->]|].
  destruct E as (r & t' & -> & E). destruct Hv as [Ha Hk], Ht as [Hr Ht]. cbn.
  destruct (IH r t' _ (Hk r Hr) E Ht) as [Hr' HQ]. done.
Qed.

Lemma valid_mono {A} (p : prog A) (Q Q' : G -> A -> Prop) : forall g,
  valid g p Q -> (forall g a, Q g a -> Q' g a) -> valid g p Q'.
Proof.
  induction p as [a|R c k IH]; intros g Hv HQ; cbn in *; [auto|].
  destruct Hv as [Ha Hk]. split; [done|]. intros r Hr. by apply IH; [apply Hk|].
Qed.

Lemma valid_bind {A B} (p : prog A) (f : A -> prog B) (Q : G -> B -> Prop) : forall g,
  valid g p (fun g a => valid g (f a) Q) -> valid g (prog_bind f p) Q.
Proof.
  induction p as [a|R c k IH]; intros g Hv; cbn in *; [done|].
  destruct Hv as [Ha Hk]. split; [done|]. intros r Hr. by apply IH, Hk.
Qed.
End Valid.

(** ** Fallible programs: [async fn .. -> Result<A, E>] *)

Definition eff (E A : Type) : Type := prog (outcome E A).

#[global] Instance eff_ret {E} : MRet (eff E) := fun A a => Ret (Ok a).
#[global] Instance eff_bind {E} : MBind (eff E) := fun A B f p =>
  prog_bind (fun r => match r with Ok a => f a | Err e => Ret (Err e) | Panic => Ret Panic end) p.

Definition throw {E A} (e : E) : eff E A := Ret (Err e).
Definition of_outcome {E A} (o : outcome E A) : eff E A := Ret o.
Definition lift {E A} (p : prog A) : eff E A := prog_bind (fun a => Ret (Ok a)) p.

(** [.map_err(f)]. *)
Definition map_err_p {E F A} (f : E -> F) (p : eff E A) : eff F A :=
  prog_bind (fun r => Ret (map_err f r)) p.

(** [match p.await { Ok(..) => .., Err(..) => .. }]. *)
Definition attempt {E F A} (p : eff E A) : eff F (outcome E A) := prog_bind (fun r => Ret (Ok r)) p.

Section Effects.
Context {G : Type} (allowed : forall R, G -> C R -> Prop) (observe : forall R, G -> C R -> R -> G).
Abbreviation checked := (checked allowed observe).

Lemma checked_eff_bind {E A B} (p : eff E A) (f : A -> eff E B) Q g :
  checked g p (eff_post allowed observe f Q) -> checked g (p ≫= f) Q.
Proof.
  intros Hp. apply (checked_bind allowed observe p). eapply checked_mono; [|exact Hp].
  intros g' [a|e|]; cbn; auto.
Qed.

Lemma checked_attempt {E F A} (p : eff E A) (Q : G -> outcome F (outcome E A) -> Prop) g :
  checked g p (fun g r => Q g (Ok r)) -> checked g (attempt p) Q.
Proof. intros Hp. apply (checked_bind allowed observe p). eapply checked_mono; [|exact Hp]. auto. Qed.

Lemma checked_map_err {E F A} (h : E -> F) (p : eff E A) (Q : G -> outcome F A -> Prop) g :
  checked g p (fun g r => Q g (map_err h r)) -> checked g (map_err_p h p) Q.
Proof. intros Hp. apply (checked_bind allowed observe p). eapply checked_mono; [|exact Hp]. auto. Qed.

(** A call, a computation without calls and an infallible call, each followed
    by the rest of a function. *)
Lemma checked_ask {E F A B} (h : E -> F) (c : C (outcome E A)) (k : A -> eff F B) (Q : G -> outcome F B -> Prop) g :
  allowed _ g c ->
  (forall r, match r with
             | Ok a => checked (observe _ g c (Ok a)) (k a) Q
             | Err e => Q (observe _ g c (Err e)) (Err (h e))
             | Panic => Q (observe _ g c Panic) Panic
             end) ->
  checked g (map_err_p h (trigger c) ≫= k) Q.
Proof. intros Ha Hk. split; [exact Ha|]. intros r. specialize (Hk r). by destruct r. Qed.

Lemma checked_outcome {E F A B} (h : E -> F) (o : outcome E A) (k : A -> eff F B) (Q : G -> outcome F B -> Prop) g :
  match o with
  | Ok a => checked g (k a) Q
  | Err e => Q g (Err (h e))
  | Panic => Q g Panic
  end ->
  checked g (map_err_p h (of_outcome o) ≫= k) Q.
Proof. by destruct o. Qed.

Lemma checked_of_outcome {E A B} (o : outcome E A) (k : A -> eff E B) (Q : G -> outcome E B -> Prop) g :
  match o with
  | Ok a => checked g (k a) Q
  | Err e => Q g (Err e)
  | Panic => Q g Panic
  end ->
  checked g (of_outcome o ≫= k) Q.
Proof. by destruct o. Qed.

Lemma checked_lift {E A B} (c : C A) (k : A -> eff E B) (Q : G -> outcome E B -> Prop) g :
  allowed _ g c -> (forall r, checked (observe _ g c r) (k r) Q) -> checked g (lift (trigger c) ≫= k) Q.
Proof. intros Ha Hk. by split. Qed.
End Effects.

Section ValidEffects.
Context {G : Type} (allowed : forall R, G -> C R -> Prop) (observe : forall R, G -> C R -> R -> G)
  (honest : forall R, G -> C R -> R -> Prop).
Abbreviation valid := (valid allowed observe honest).

(** The rule of [p ≫= f]: a property [P] of the successes of [p]; failures
    are for [Q]. *)
Definition ok_or_fail {E A B} (P : G -> A -> Prop) (Q : G -> outcome E B -> Prop) (g : G) (r : outcome E A) : Prop :=
  match r with
  | Ok a => P g a
  | Err e => Q g (Err e)
  | Panic => Q g Panic
  end.

Lemma valid_eff_bind {E A B} (p : eff E A) (f : A -> eff E B) (P : G -> A -> Prop) Q g :
  valid g p (ok_or_fail P Q) -> (forall g a, P g a -> valid g (f a) Q) -> valid g (p ≫= f) Q.
Proof.
  intros Hp Hf. apply (valid_bind allowed observe honest p). eapply valid_mono; [exact Hp|].
  intros g' [a|e|]; cbn; auto.
Qed.

Lemma valid_attempt {E F A B} (p : eff E A) (f : outcome E A -> eff F B) (P : G -> outcome E A -> Prop) Q g :
  valid g p P -> (forall g r, P g r -> valid g (f r) Q) -> valid g (attempt p ≫= f) Q.
Proof.
  intros Hp Hf. apply (valid_bind allowed observe honest (attempt p)).
  apply (valid_bind allowed observe honest p). eapply valid_mono; [exact Hp|]. intros g' r Hr. by apply Hf.
Qed.

Lemma valid_map_err {E F A} (h : E -> F) (p : eff E A) (Q : G -> outcome F A -> Prop) g :
  valid g p (fun g r => Q g (map_err h r)) -> valid g (map_err_p h p) Q.
Proof. intros Hp. apply (valid_bind allowed observe honest p). eapply valid_mono; [exact Hp|]. auto. Qed.

Lemma valid_ask {E F A B} (h : E -> F) (c : C (outcome E A)) (k : A -> eff F B) (Q : G -> outcome F B -> Prop) g :
  allowed _ g c ->
  (forall r, honest _ g c r -> match r with
             | Ok a => valid (observe _ g c (Ok a)) (k a) Q
             | Err e => Q (observe _ g c (Err e)) (Err (h e))
             | Panic => Q (observe _ g c Panic) Panic
             end) ->
  valid g (map_err_p h (trigger c) ≫= k) Q.
Proof. intros Ha Hk. split; [exact Ha|]. intros r Hr. specialize (Hk r Hr). by destruct r. Qed.

Lemma valid_lift {E A B} (c : C A) (k : A -> eff E B) (Q : G -> outcome E B -> Prop) g :
  allowed _ g c -> (forall r, honest _ g c r -> valid (observe _ g c r) (k r) Q) -> valid g (lift (trigger c) ≫= k) Q.
Proof. intros Ha Hk. by split. Qed.

Lemma valid_of_outcome {E A B} (o : outcome E A) (k : A -> eff E B) (Q : G -> outcome E B -> Prop) g :
  match o with
  | Ok a => valid g (k a) Q
  | Err e => Q g (Err e)
  | Panic => Q g Panic
  end ->
  valid g (of_outcome o ≫= k) Q.
Proof. by destruct o. Qed.
End ValidEffects.
End Programs.

#[global] Arguments prog C A : clear implicits.
#[global] Arguments event C : clear implicits.
#[global] Arguments eff C E A : clear implicits.

(** ** Results in an environment with a state *)
Section Eval.
Context {C : Type -> Type} {S : Type} (answer : forall R, C R -> S -> R * S).

(** The answer of a program, and the state it leaves. *)
Definition eval {A} (p : prog C A) (s : S) : A * S := let '(a, _, s') := run answer p s in (a, s').

Lemma eval_call {R A} (c : C R) (k : R -> prog C A) s :
  eval (Vis c k) s = let '(r, s) := answer _ c s in eval (k r) s.
Proof.
  unfold eval. cbn. destruct (answer R c s) as [r s']. by destruct (run answer (k r) s') as [[??]?].
Qed.

Lemma eval_prog_bind {A B} (f : A -> prog C B) (p : prog C A) : forall s,
  eval (prog_bind f p) s = let '(a, s) := eval p s in eval (f a) s.
Proof.
  induction p as [a|R c k IH]; intros s; [done|]. cbn [prog_bind]. rewrite !eval_call.
  destruct (answer R c s) as [r s']. apply IH.
Qed.

Lemma eval_bind {E A B} (p : eff C E A) (k : A -> eff C E B) s :
  eval (p ≫= k) s =
  match eval p s with
  | (Ok a, s) => eval (k a) s
  | (Err e, s) => (Err e, s)
  | (Panic, s) => (Panic, s)
  end.
Proof.
  etransitivity; [apply (eval_prog_bind _ p s)|]. by destruct (eval p s) as [[a|e|] s'].
Qed.

Lemma eval_attempt {E F A} (p : eff C E A) s :
  eval (attempt (F := F) p) s = let '(r, s) := eval p s in (Ok r, s).
Proof. unfold attempt. rewrite eval_prog_bind. by destruct (eval p s). Qed.

Lemma eval_map_err {E F A} (h : E -> F) (p : eff C E A) s :
  eval (map_err_p h p) s = let '(r, s) := eval p s in (map_err h r, s).
Proof. unfold map_err_p. rewrite eval_prog_bind. by destruct (eval p s). Qed.

Lemma eval_trigger {R} (c : C R) s : eval (trigger c) s = answer _ c s.
Proof. unfold trigger. rewrite eval_call. by destruct (answer R c s). Qed.

Lemma eval_lift {E R} (c : C R) s : eval (lift (E := E) (trigger c)) s = let '(r, s) := answer _ c s in (Ok r, s).
Proof. unfold lift. rewrite eval_prog_bind, eval_trigger. by destruct (answer R c s). Qed.

Lemma eval_ret {A} (a : A) s : eval (Ret a) s = (a, s).
Proof. done. Qed.
End Eval.

(** ** A program among the calls of a larger one *)
Section Hoist.
Context {C D : Type -> Type} (into : forall R, C R -> D R).

Fixpoint hoist {A} (p : prog C A) : prog D A :=
  match p with
  | Ret a => Ret a
  | Vis c k => Vis (into _ c) (fun r => hoist (k r))
  end.

Lemma valid_hoist {G A} allowed observe honest (p : prog C A) (Q : G -> A -> Prop) : forall g,
  valid (fun R g c => allowed R g (into R c)) (fun R g c r => observe R g (into R c) r)
    (fun R g c r => honest R g (into R c) r) g p Q ->
  valid allowed observe honest g (hoist p) Q.
Proof.
  induction p as [a|R c k IH]; intros g Hv; cbn in *; [done|].
  destruct Hv as [Ha Hk]. split; [done|]. intros r Hr. by apply IH, Hk.
Qed.

Lemma eval_hoist {A S} (answer : forall R, D R -> S -> R * S) (p : prog C A) : forall s,
  eval answer (hoist p) s = eval (fun R c => answer R (into R c)) p s.
Proof.
  induction p as [a|R c k IH]; intros s; [done|]. cbn [hoist]. rewrite !eval_call.
  destruct (answer R (into R c) s) as [r s']. apply IH.
Qed.

Definition hoist_event (e : event C) : event D := match e with Ev c r => Ev (into _ c) r end.

Lemma exec_hoist {A} (p : prog C A) : forall t a,
  exec (hoist p) t a -> exists t', t = map hoist_event t' /\ exec p t' a.
Proof.
  induction p as [a|R c k IH]; intros t b E; cbn in *; [by destruct E as [-> ->]; exists []|].
  destruct E as (r & t' & -> & E). apply IH in E as (t1 & -> & E). exists (Ev c r :: t1). split; [done|by exists r, t1].
Qed.
End Hoist.

(** ** Successful runs, step by step *)
Section Success.
Context {C : Type -> Type}.

Lemma exec_ok_bind {E A B} (p : eff C E A) (f : A -> eff C E B) t b :
  exec (p ≫= f) t (Ok b) -> exists a t1 t2, t = t1 ++ t2 /\ exec p t1 (Ok a) /\ exec (f a) t2 (Ok b).
Proof.
  intros Hx. apply (exec_bind _ p) in Hx as (r & t1 & t2 & -> & H1 & H2).
  destruct r as [a|e|]; cbn in H2; [by exists a, t1, t2|by destruct H2..].
Qed.

Lemma exec_ok_map_err {E F A} (h : E -> F) (p : eff C E A) t a : exec (map_err_p h p) t (Ok a) -> exec p t (Ok a).
Proof.
  intros Hx. apply (exec_bind _ p) in Hx as (r & t1 & t2 & -> & H1 & H2).
  destruct H2 as [-> Hr]. rewrite app_nil_r. by destruct r; cbn in Hr; simplify_eq.
Qed.

Lemma exec_ok_outcome {E A} (o : outcome E A) (t : list (event C)) a : exec (of_outcome o) t (Ok a) -> t = [] /\ o = Ok a.
Proof. by intros [-> ->]. Qed.

Lemma exec_trigger {R} (c : C R) t r : exec (trigger c) t r -> t = [Ev c r].
Proof. by intros (r' & t' & -> & -> & ->). Qed.

Lemma exec_lift {E R} (c : C R) t (r : R) : exec (lift (E := E) (trigger c)) t (Ok r) -> t = [Ev c r].
Proof. intros (r' & t' & -> & -> & Hr). by injection Hr as ->. Qed.

Lemma exec_ok_attempt {E F A} (p : eff C E A) t (r : outcome E A) : exec (attempt (F := F) p) t (Ok r) -> exec p t r.
Proof.
  intros Hx. apply (exec_bind _ p) in Hx as (r' & t1 & t2 & -> & H1 & [-> [= ->]]). by rewrite app_nil_r.
Qed.

(** ** Environments without a state *)
Section Answered.
Context (answer : forall R, C R -> R).

Definition answered_by (e : event C) : Prop := match e with Ev c r => r = answer _ c end.
Definition constantly (R : Type) (c : C R) (s : unit) : R * unit := (answer R c, s).

Lemma run_answered {A} (p : prog C A) s : Forall answered_by (run constantly p s).1.2.
Proof.
  revert s. induction p as [a|R c k IH]; intros s; [by apply Forall_nil|]. cbn.
  specialize (IH (answer R c) s). destruct (run constantly (k _) s) as [[a t] s']. by constructor.
Qed.

Lemma exec_answered {A} (p : prog C A) : forall t a,
  exec p t a -> Forall answered_by t -> a = (run constantly p tt).1.1.
Proof.
  induction p as [a'|R c k IH]; intros t a E Ht; cbn in *; [by destruct E|].
  destruct E as (r & t' & -> & E). apply Forall_cons in Ht as [Hr Ht]. cbn in Hr. subst r.
  specialize (IH _ t' a E Ht). by destruct (run constantly (k _) tt) as [[a2 t2] s'].
Qed.
End Answered.
End Success.

(** ** Calls of async code: errors are texts *)
Section Text.
Context {C : Type -> Type}.

Definition ask {E A} (c : C (outcome E A)) : eff C E A := trigger c.
Definition do {E A} (c : C A) : eff C E A := lift (trigger c).

Lemma exec_ask {E A} (c : C (outcome E A)) t r : exec (ask c) t r -> t = [Ev c r].
Proof. exact (exec_trigger c t r). Qed.

(** [.map_err(|e| eyre!("..: {e}"))] and [.ok_or_else(|| eyre!(".."))]. *)
Definition context {A} (text : string) (p : eff C string A) : eff C string A := map_err_p (fun e => text +:+ e) p.
(** [.wrap_err("..")], [.map_err(|_| eyre!(".."))]: the text shown is the outer one. *)
Definition wrap_err {A} (text : string) (p : eff C string A) : eff C string A := map_err_p (fun _ => text) p.
Definition ok_or {A} (text : string) (o : option A) : eff C string A :=
  of_outcome (match o with Some a => Ok a | None => Err text end).
End Text.

Definition str (n : Z) : string := pretty n.
