(* ===== verification/Text.v ===== *)
(** * Texts

    The code recognises some remote errors by searching their text, and reads
    its configuration from variables of the environment.  Texts are
    strings of bytes; lower-casing is the ASCII one ([str::to_lowercase] on
    ASCII texts, [str::to_ascii_lowercase] on all). *)
From S2P Require Import Prelude.
From stdpp Require Import strings.
#[local] Open Scope Z_scope.

Definition ascii_lower (c : Ascii.ascii) : Ascii.ascii :=
  let n := Ascii.nat_of_ascii c in
  if ((65 <=? n) && (n <=? 90))%nat then Ascii.ascii_of_nat (n + 32) else c.

Fixpoint to_ascii_lowercase (s : string) : string :=
  match s with
  | EmptyString => EmptyString
  | String.String c s' => String.String (ascii_lower c) (to_ascii_lowercase s')
  end.

(** [s.contains(needle)]. *)
Fixpoint contains (needle s : string) : bool :=
  String.prefix needle s ||
  match s with
  | EmptyString => false
  | String.String _ s' => contains needle s'
  end.

Lemma append_cons c s t : String.String c s +:+ t = String.String c (s +:+ t).
Proof. done. Qed.

Lemma app_assoc_s (a b d : string) : (a +:+ b) +:+ d = a +:+ (b +:+ d).
Proof. induction a as [|x a IH]; [done|]. by rewrite !append_cons, IH. Qed.

Lemma append_nil_r s : s +:+ EmptyString = s.
Proof. induction s as [|x s IH]; [done|]. change (String.String x (s +:+ EmptyString) = String.String x s). by rewrite IH. Qed.

Lemma length_app_s s t : String.length (s +:+ t) = (String.length s + String.length t)%nat.
Proof. induction s as [|c s IH]; [done|]. rewrite append_cons. cbn. by rewrite IH. Qed.

Lemma append_inj_l p s t : p +:+ s = p +:+ t -> s = t.
Proof. induction p as [|c p IH]; [done|]. rewrite !append_cons. intros [= E]. by apply IH. Qed.

Lemma append_inj_r p s t : s +:+ p = t +:+ p -> s = t.
Proof.
  intros E. assert (Hn : String.length s = String.length t) by (apply (f_equal String.length) in E; rewrite !length_app_s in E; lia).
  revert t E Hn. induction s as [|c s IH]; intros [|d t]; [done..|]. rewrite !append_cons. intros [= -> E] [= Hn]. f_equal. by apply IH.
Qed.

Lemma contains_app needle s pre : contains needle s = true -> contains needle (pre +:+ s) = true.
Proof.
  intros H. induction pre as [|c pre IH]; [done|].
  change (String.prefix needle (String.String c pre +:+ s) || contains needle (pre +:+ s) = true).
  rewrite IH. apply orb_true_r.
Qed.

Lemma to_ascii_lowercase_app s t :
  to_ascii_lowercase (s +:+ t) = to_ascii_lowercase s +:+ to_ascii_lowercase t.
Proof. induction s as [|c s IH]; [done|].
  change (String.String (ascii_lower c) (to_ascii_lowercase (s +:+ t)) =
          String.String (ascii_lower c) (to_ascii_lowercase s +:+ to_ascii_lowercase t)).
  by rewrite IH.
Qed.

(** Bytes as [Display] prints a hash: [0x] and two digits a byte. *)
Definition hex_digit (n : Z) : Ascii.ascii :=
  Ascii.ascii_of_nat (Z.to_nat (if decide (n < 10) then 48 + n else 87 + n)).

(** What holds of the sixteen digits holds of each. *)
Lemma hex_digit_all (P : Ascii.ascii -> Prop) : Forall (fun n => P (hex_digit n)) (seqZ 0 16) -> forall n, 0 <= n < 16 -> P (hex_digit n).
Proof. intros HP n Hn. by apply (proj1 (Forall_forall _ _) HP), elem_of_seqZ. Qed.

Fixpoint hex_digits (bs : list Z) : string :=
  match bs with
  | [] => EmptyString
  | b :: bs => String.String (hex_digit (b / 16)) (String.String (hex_digit (b mod 16)) (hex_digits bs))
  end.

Definition show_hash (bs : list Z) : string := "0x" +:+ hex_digits bs.

Example show_hash_sample : show_hash [0; 171; 16] = "0x00ab10"%string.
Proof. reflexivity. Qed.

(** [str::parse] of an unsigned integer up to [max]. *)
Definition decimal_value (c : Ascii.ascii) : option Z :=
  let n := Z.of_nat (Ascii.nat_of_ascii c) in
  if (48 <=? n) && (n <=? 57) then Some (n - 48) else None.

Fixpoint decimal_number (max acc : Z) (s : string) : option Z :=
  match s with
  | EmptyString => Some acc
  | String.String c s' =>
      v ← decimal_value c; if max <? 10 * acc + v then None else decimal_number max (10 * acc + v) s'
  end.

Definition parse_uint (max : Z) (s : string) : option Z :=
  match s with
  | EmptyString => None
  | String.String c EmptyString => decimal_number max 0 s
  | String.String c s' => if decide (c = Ascii.ascii_of_nat 43) then decimal_number max 0 s' else decimal_number max 0 s
  end.

Lemma parse_uint_range max s n : 0 <= max -> parse_uint max s = Some n -> 0 <= n <= max.
Proof.
  intros Hmax. assert (G : forall s acc n, 0 <= acc <= max -> decimal_number max acc s = Some n -> 0 <= n <= max).
  { clear s n. induction s as [|c s IH]; intros acc n Hacc; cbn [decimal_number]; [by intros [= <-]|].
    unfold decimal_value. destruct (_ && _) eqn:E; [|done]. cbn. apply andb_prop in E as [E _]. apply Z.leb_le in E.
    destruct (Z.ltb_spec max (10 * acc + (Z.of_nat (Ascii.nat_of_ascii c) - 48))); [done|]. apply IH. lia. }
  destruct s as [|c s]; [done|]. unfold parse_uint. destruct s as [|c' s]; [|case_decide]; apply G; lia.
Qed.

(** ** The environment of a process: a variable that is not set, or is not text,
    has no value *)

Definition Env : Type := string -> option string.

Definition var_or (env : Env) (name d : string) : string := default d (env name).

(** [var(name).ok().and_then(|s| s.parse().ok()).unwrap_or(d)]. *)
Definition uint_or (env : Env) (max : Z) (name : string) (d : Z) : Z := default d (env name ≫= parse_uint max).

Lemma uint_or_range env max name d : 0 <= d <= max -> 0 <= uint_or env max name d <= max.
Proof.
  intros Hd. unfold uint_or. destruct (env name) as [s|]; [|done]. cbn. destruct (parse_uint max s) as [n|] eqn:E; [|done].
  apply (parse_uint_range max s n) in E; [done|lia].
Qed.

(** The readers of addresses, URLs and private keys, and [PathBuf::join]. *)
Class EnvLibs : Type := {
  parse_address : string -> option (list Z);
  parse_url : string -> bool;
  signer_address : string -> option (list Z);
  path_join : string -> string -> string }.
