(* ===== verification/RollupClient.v ===== *)
(** * The L1 rollup client ([crates/l1-rollup-client/src/lib.rs])

    The requests made to L1 and L2 nodes, to the transaction signer, to the
    clock and to the main loop's channels are [L1Call]s; the ABI that the
    [sol!] macro generates from the contract's declarations, and the wire
    encoding of a signed transaction, are parameters. *)
From S2P Require Import Prelude Interaction Text.
From stdpp Require Import strings pretty.
#[local] Open Scope Z_scope.

(** ** Data *)

Record BatchOnChain : Type := { status : Z; accepted_at_block : Z }.
Record BatchPreconfirmInfo : Type := { info_tx_hash : list Z; info_l1_block : Z }.

(** [mod batch_status]. *)
Definition NONE : Z := 0.
Definition COMMITTED : Z := 1.
Definition SUBMITTED : Z := 2.
Definition PRECONFIRMED : Z := 3.
Definition CHALLENGED : Z := 4.
Definition FINALIZED : Z := 5.

Record PreconfirmTxTemplate : Type := {
  to : list Z;
  input : list Z;
  nonce : Z;
  gas_limit : Z;
  chain_id : Z;
  batch_index : Z }.

(** [TxEip1559] as [broadcast_preconfirm] fills it: no value, no access list. *)
Record TxEip1559 : Type := {
  tx_chain_id : Z;
  tx_nonce : Z;
  tx_gas_limit : Z;
  tx_max_fee_per_gas : Z;
  tx_max_priority_fee_per_gas : Z;
  tx_to : list Z;
  tx_input : list Z }.

(** The parts of an L1 log, receipt and log filter that are used. *)
Record Log : Type := {
  topics : list (list Z);
  data : list Z;
  log_block_number : option Z;
  log_transaction_hash : option (list Z) }.
Definition topic0 (log : Log) : option (list Z) := head (topics log).

Record Receipt : Type := {
  receipt_block_number : option Z;
  receipt_status : bool;
  receipt_gas_used : Z }.

Record Filter : Type := {
  filter_address : list Z;
  filter_topic0 : list (list Z);
  filter_topic1 : option (list Z);
  filter_from_block : Z;
  filter_to_block : Z }.

(** ** Requests *)

(** [Send] is a message on one of the main loop's channels, answered by
    whether the channel is open; [SleepOrCancelled] is the biased select of a
    cancellation token and a sleep, answered by whether the token fired;
    [IsClosed] is [tx.is_closed()]. *)
Inductive L1Call (M : Type) : Type -> Type :=
  | EthCall (to_ input_ : list Z) : L1Call M (outcome string (list Z))
  | GetBlockNumber : L1Call M (outcome string Z)
  | GetFinalizedBlock : L1Call M (outcome string (option Z))
  | GetLogs (filter : Filter) : L1Call M (outcome string (list Log))
  | GetL2BlockByHash (hash : list Z) : L1Call M (outcome string (option Z))
  | GetChainId : L1Call M (outcome string Z)
  | EstimateGas (from to_ input_ : list Z) : L1Call M (outcome string Z)
  | EstimateEip1559Fees : L1Call M (outcome string (Z * Z))
  | GetTransactionCountPending (signer : list Z) : L1Call M (outcome string Z)
  | GetTransactionReceipt (hash : list Z) : L1Call M (outcome string (option Receipt))
  | SignTransaction (tx : TxEip1559) : L1Call M (outcome string (list Z))
  | SendRawTransaction (raw : list Z) : L1Call M (outcome string (list Z))
  | FetchAdd : L1Call M Z
  | CompareExchange (expected new : Z) : L1Call M unit
  | Load : L1Call M Z
  | Store (new : Z) : L1Call M unit
  | Now : L1Call M Z
  | Sleep : L1Call M unit
  | SleepOrCancelled : L1Call M bool
  | Send (m : M) : L1Call M bool
  | IsCancelled : L1Call M bool
  | IsClosed : L1Call M bool.
Arguments EthCall {M}.
Arguments GetBlockNumber {M}.
Arguments GetFinalizedBlock {M}.
Arguments GetLogs {M}.
Arguments GetL2BlockByHash {M}.
Arguments GetChainId {M}.
Arguments EstimateGas {M}.
Arguments EstimateEip1559Fees {M}.
Arguments GetTransactionCountPending {M}.
Arguments GetTransactionReceipt {M}.
Arguments SignTransaction {M}.
Arguments SendRawTransaction {M}.
Arguments FetchAdd {M}.
Arguments CompareExchange {M}.
Arguments Load {M}.
Arguments Store {M}.
Arguments Now {M}.
Arguments Sleep {M}.
Arguments SleepOrCancelled {M}.
Arguments Send {M}.
Arguments IsCancelled {M}.
Arguments IsClosed {M}.

(** What the [sol!] macro and the transaction types generate. *)
Class RollupAbi : Type := {
  BatchCommitted_SIGNATURE_HASH : list Z;
  BatchSubmitted_SIGNATURE_HASH : list Z;
  BatchPreconfirmed_SIGNATURE_HASH : list Z;
  BatchReverted_SIGNATURE_HASH : list Z;
  (** index, [fromBlockHash], [toBlockHash], [numberOfBlocks]. *)
  BatchCommitted_decode : Log -> outcome string (Z * list Z * list Z * Z);
  BatchSubmitted_decode : Log -> outcome string Z;
  BatchPreconfirmed_decode : Log -> outcome string Z;
  BatchReverted_decode : Log -> outcome string Z;
  getBatchCall_encode : Z -> list Z;
  (** status and [acceptedAtBlock] of the returned record. *)
  getBatchCall_decode_returns : list Z -> outcome string (Z * Z);
  preconfirmBatchCall_encode : list Z -> Z -> list Z -> list Z;
  encode_2718 : TxEip1559 -> list Z -> list Z }.

Section Client.
Context {M : Type} `{RollupAbi}.
Abbreviation io := (eff (L1Call M) string).

(** [u64::try_from(U256)]. *)
Definition try_into_u64 (text : string) (n : Z) : io Z :=
  of_outcome (if decide (n < 2 ^ 64) then Ok n else Err text).

(** ** Reading *)

Definition get_batch_on_chain (contract_addr : list Z) (batch_index : Z) : io BatchOnChain :=
  raw ← context ("eth_call getBatch(" +:+ str batch_index +:+ ") failed: ")
          (ask (EthCall contract_addr (getBatchCall_encode batch_index)));
  decoded ← context ("decode getBatch(" +:+ str batch_index +:+ ") return: ")
          (of_outcome (getBatchCall_decode_returns raw));
  mret {| status := decoded.1; accepted_at_block := decoded.2 |}.

(** A word of 32 bytes. *)
Definition word (n : Z) : list Z := (fun i => Z.shiftr n (8 * (31 - i)) mod 256) <$> seqZ 0 32.

Definition find_batch_preconfirm_event (contract_addr : list Z) (batch_index from_l1_block to_l1_block : Z)
  : io (option BatchPreconfirmInfo) :=
  if decide (to_l1_block < from_l1_block) then mret None
  else
    logs ← context ("eth_getLogs BatchPreconfirmed[" +:+ str batch_index +:+ "] failed: ")
      (ask (GetLogs {| filter_address := contract_addr;
                       filter_topic0 := [BatchPreconfirmed_SIGNATURE_HASH];
                       filter_topic1 := Some (word batch_index);
                       filter_from_block := from_l1_block;
                       filter_to_block := to_l1_block |}));
    match head logs with
    | None => mret None
    | Some log =>
        tx_hash ← ok_or ("BatchPreconfirmed[" +:+ str batch_index +:+ "] log missing transaction_hash")
                    (log_transaction_hash log);
        l1_block ← ok_or ("BatchPreconfirmed[" +:+ str batch_index +:+ "] log missing block_number")
                    (log_block_number log);
        mret (Some {| info_tx_hash := tx_hash; info_l1_block := l1_block |})
    end.

Definition PAGE : Z := 50000.

(** The logs of one page, up to the batch asked for: its L1 block, number of
    blocks and anchor. *)
Fixpoint find_committed (batch_id : Z) (logs : list Log) : io (option (Z * Z * list Z)) :=
  match logs with
  | [] => mret None
  | log :: logs =>
      if decide (default (replicate 32 0) (topic0 log) = BatchCommitted_SIGNATURE_HASH) then
        ev ← context "decode BatchCommitted v1: " (of_outcome (BatchCommitted_decode log));
        let '(batchIndex, fromBlockHash, _, numberOfBlocks) := ev in
        idx ← try_into_u64 ("batchIndex overflow: " +:+ str batchIndex) batchIndex;
        nb ← try_into_u64 ("numberOfBlocks overflow: " +:+ str numberOfBlocks) numberOfBlocks;
        if decide (idx = batch_id) then
          l1_block ← ok_or "BatchCommitted log missing block_number" (log_block_number log);
          mret (Some (l1_block, nb, fromBlockHash))
        else find_committed batch_id logs
      else find_committed batch_id logs
  end.

(** ['outer: while current <= latest]; [fuel] bounds the number of pages. *)
Fixpoint scan_committed (fuel : nat) (contract_addr : list Z) (batch_id latest current : Z)
  : io (option (Z * Z * list Z)) :=
  match fuel with
  | O => mret None
  | S fuel =>
      if decide (current <= latest) then
        let page_end := Z.min (current + PAGE - 1) latest in
        logs ← context ("eth_getLogs [" +:+ str current +:+ ".." +:+ str page_end +:+ "] failed: ")
          (ask (GetLogs {| filter_address := contract_addr;
                           filter_topic0 := [BatchCommitted_SIGNATURE_HASH];
                           filter_topic1 := None;
                           filter_from_block := current;
                           filter_to_block := page_end |}));
        found ← find_committed batch_id logs;
        match found with
        | Some target => mret (Some target)
        | None =>
            let current := page_end + 1 in
            _ ← (if decide (current <= latest) then do Sleep else mret tt);
            scan_committed fuel contract_addr batch_id latest current
        end
      else mret None
  end.

Definition resolve_l2_start_checkpoint (contract_addr : list Z) (batch_id l1_deploy_block : Z)
  : io (Z * Z * Z) :=
  if decide (batch_id = 0) then throw "L1_START_BATCH_ID must be >= 1"
  else
    latest ← context "Failed to get latest L1 block: " (ask GetBlockNumber);
    let pages := S (Z.to_nat ((latest - l1_deploy_block) / PAGE)) in
    target ← scan_committed pages contract_addr batch_id latest l1_deploy_block;
    found ← ok_or ("BatchCommitted for batch " +:+ str batch_id +:+ " not found in L1 blocks") target;
    let '(l1_block, num_blocks, anchor) := found in
    block ← context "eth_getBlockByHash on L2: " (ask (GetL2BlockByHash anchor));
    n ← ok_or "L2 block of BatchCommitted.fromBlockHash not found" block;
    mret (n + 1, l1_block, num_blocks).

Definition fetch_batch_range (contract_addr : list Z) (batch_id l1_deploy_block : Z) : io (Z * Z) :=
  r ← resolve_l2_start_checkpoint contract_addr batch_id l1_deploy_block;
  let '(l2_from_block, _, num_blocks) := r in
  mret (l2_from_block, u64 (l2_from_block + num_blocks - 1)).

(** ** Writing *)

(** A double is [m * 2 ^ e]; results round to the nearest of 53 bits, ties to
    even ([m / 2 ^ k] with [k] bits dropped).  The values here neither
    overflow nor underflow. *)
Definition rne (m k : Z) : Z :=
  let q := Z.shiftr m k in
  let r := m - Z.shiftl q k in
  if decide (2 * r < 2 ^ k) then q
  else if decide (2 ^ k < 2 * r) then q + 1
  else if Z.even q then q else q + 1.
Definition excess_bits (m : Z) : Z := Z.max 0 (Z.log2 m - 52).
Definition f64_of_u64 (n : Z) : Z * Z := (rne n (excess_bits n), excess_bits n).
Definition f64_mul (a b : Z * Z) : Z * Z :=
  let p := a.1 * b.1 in (rne p (excess_bits p), a.2 + b.2 + excess_bits p).
Definition u64_of_f64 (a : Z * Z) : Z :=
  Z.min u64_max (if decide (0 <= a.2) then a.1 * 2 ^ a.2 else a.1 / 2 ^ (- a.2)).

(** The double [1.2]: 5404319552844595 / 2 ^ 52. *)
Definition f64_1_2 : Z * Z := (5404319552844595, -52).

Definition apply_gas_buffer (estimate : Z) : Z := u64_of_f64 (f64_mul (f64_of_u64 estimate) f64_1_2).

Definition build_preconfirm_tx (contract_addr nitro_verifier_addr : list Z) (batch_index : Z)
    (signature signer : list Z) (nonce : Z) : io PreconfirmTxTemplate :=
  let input := preconfirmBatchCall_encode nitro_verifier_addr batch_index signature in
  chain_id ← context "get_chain_id failed: " (ask GetChainId);
  estimate ← context "estimate_gas failed: " (ask (EstimateGas signer contract_addr input));
  mret {| to := contract_addr; input := input; nonce := nonce;
          gas_limit := apply_gas_buffer estimate; chain_id := chain_id;
          batch_index := batch_index |}.

Definition is_nonce_too_low_error (err : string) : bool :=
  let lower := to_ascii_lowercase err in
  contains "nonce too low" lower ||
  contains "nonce_too_low" lower ||
  contains "invalid nonce" lower ||
  contains "oldnonce" lower ||
  contains "old nonce" lower.

Definition tx_of (template : PreconfirmTxTemplate) (max_fee_per_gas max_priority_fee_per_gas : Z)
  : TxEip1559 :=
  {| tx_chain_id := chain_id template; tx_nonce := nonce template;
     tx_gas_limit := gas_limit template; tx_max_fee_per_gas := max_fee_per_gas;
     tx_max_priority_fee_per_gas := max_priority_fee_per_gas; tx_to := to template;
     tx_input := input template |}.

Definition broadcast_preconfirm (template : PreconfirmTxTemplate)
    (max_fee_per_gas max_priority_fee_per_gas : Z) : io (list Z) :=
  let tx := tx_of template max_fee_per_gas max_priority_fee_per_gas in
  sig ← context "sign_transaction failed: " (ask (SignTransaction tx));
  context "send_raw_transaction failed: " (ask (SendRawTransaction (encode_2718 tx sig))).

(** ** [NonceAllocator]: one shared atomic counter *)

(** The counter the allocator starts with. *)
Definition bootstrap (signer : list Z) (stored_floor : option Z) : io Z :=
  pending ← context "NonceAllocator::bootstrap: get_transaction_count(pending): "
    (ask (GetTransactionCountPending signer));
  mret (Z.max pending (default 0 stored_floor)).

Definition allocate : io Z := do FetchAdd.

Definition release (nonce : Z) : io unit := do (CompareExchange (u64 (nonce + 1)) nonce).

Definition resync (signer : list Z) : io Z :=
  pending ← context "NonceAllocator::resync: get_transaction_count(pending): "
    (ask (GetTransactionCountPending signer));
  current ← do Load;
  let new := Z.max pending current in
  _ ← (if decide (new = current) then mret tt else do (Store new));
  mret new.

Definition peek : io Z := do Load.
End Client.

(** The counter's value along a trace: [None] when an answer is not the
    counter's. *)
Definition counter_step {M} (e : event (L1Call M)) (n : Z) : option Z :=
  let '(Ev c r) := e in
  match c in L1Call _ R return R -> option Z with
  | FetchAdd => fun r => if decide (r = n) then Some (u64 (n + 1)) else None
  | CompareExchange expected new => fun _ => Some (if decide (n = expected) then new else n)
  | Load => fun r => if decide (r = n) then Some n else None
  | Store new => fun _ => Some new
  | _ => fun _ => Some n
  end r.

Fixpoint counter_run {M} (t : list (event (L1Call M))) (n : Z) : option Z :=
  match t with
  | [] => Some n
  | e :: t => n' ← counter_step e n; counter_run t n'
  end.

Example apply_gas_buffer_is_plus_20pct :
  apply_gas_buffer 100000 = 120000 /\ apply_gas_buffer 86476 = 103771 /\ apply_gas_buffer u64_max = u64_max.
Proof. by vm_compute. Qed.

Example is_nonce_too_low_matches_common_variants :
  is_nonce_too_low_error "Nonce Too Low: expected 42" = true /\
  is_nonce_too_low_error "invalid nonce; got 41, want 42" = true /\
  is_nonce_too_low_error "replacement transaction underpriced" = false.
Proof. by vm_compute. Qed.

(** ** The gas buffer *)

Lemma rne_near m k c :
  0 <= k -> c * 2 ^ k - m < 2 ^ (k - 1) -> m <= c * 2 ^ k -> 1 <= k -> c <= rne m k.
Proof.
  intros Hk Hlo Hhi Hk1. unfold rne. rewrite Z.shiftr_div_pow2, Z.shiftl_mul_pow2 by lia.
  pose proof (Z.div_mod m (2 ^ k) ltac:(lia)). pose proof (Z.mod_pos_bound m (2 ^ k) ltac:(lia)).
  assert (2 ^ k = 2 * 2 ^ (k - 1)) by (rewrite <- Z.pow_succ_r by lia; f_equal; lia).
  repeat case_decide; [nia|nia|]. destruct (Z.even _); nia.
Qed.

Lemma rne_bounds m k : 0 <= k -> 2 * (rne m k * 2 ^ k - m) <= 2 ^ k /\ 2 * (m - rne m k * 2 ^ k) <= 2 ^ k.
Proof.
  intros Hk. unfold rne. rewrite Z.shiftr_div_pow2, Z.shiftl_mul_pow2 by lia.
  pose proof (Z.div_mod m (2 ^ k) ltac:(lia)). pose proof (Z.mod_pos_bound m (2 ^ k) ltac:(lia)).
  repeat case_decide; [nia|nia|]. destruct (Z.even _); nia.
Qed.

Lemma rne_0 m : rne m 0 = m.
Proof. unfold rne. rewrite Z.shiftr_0_r, Z.shiftl_0_r, decide_True by lia. done. Qed.

(** The padding is exact: a fifth more, rounded down, for every estimate below
    2 ^ 50, although the code computes it in floating point. *)
Lemma apply_gas_buffer_exact estimate :
  0 <= estimate < 2 ^ 50 -> apply_gas_buffer estimate = estimate * 6 / 5.
Proof.
  intros He. destruct (decide (estimate = 0)) as [->|Hne]; [done|].
  rename estimate into n. unfold apply_gas_buffer, f64_of_u64, f64_mul, u64_of_f64, f64_1_2. cbn [fst snd].
  assert (Hx : excess_bits n = 0).
  { unfold excess_bits. assert (Z.log2 n < 50) by (apply Z.log2_lt_pow2; lia). lia. }
  rewrite Hx, rne_0. remember (n * 5404319552844595) as p eqn:Ep. remember (excess_bits p) as k eqn:Ek.
  assert (Hp : 0 < p) by lia.
  assert (Hk : k = Z.log2 p - 52).
  { subst k. unfold excess_bits. assert (52 <= Z.log2 p) by (apply Z.log2_le_pow2; lia). lia. }
  assert (Hk0 : 0 <= k) by (subst k; unfold excess_bits; lia).
  assert (Hlog := Z.log2_spec p Hp). replace (Z.log2 p) with (k + 52) in Hlog by lia.
  rewrite Z.pow_succ_r, Z.pow_add_r in Hlog by lia.
  change (2 ^ 52) with 4503599627370496 in *. change (2 ^ 50) with 1125899906842624 in *.
  assert (Hk50 : 2 ^ k <= 1125899906842624).
  { change 1125899906842624 with (2 ^ 50). apply Z.pow_le_mono_r; [lia|].
    destruct (Z.le_gt_cases k 50) as [|Hgt]; [done|exfalso].
    assert (2 ^ 51 <= 2 ^ k) by (apply Z.pow_le_mono_r; lia). change (2 ^ 51) with 2251799813685248 in *. lia. }
  assert (Hbound := rne_bounds p k Hk0). assert (Hnear := rne_near p k). set (m := rne p k) in *.
  assert (Hdiv : 0 + -52 + k = k - 52) by lia. rewrite Hdiv.
  assert (Hk50' : k <= 50).
  { apply (Z.pow_le_mono_r_iff 2); [lia|lia|]. change (2 ^ 50) with 1125899906842624. done. }
  rewrite decide_False by lia.
  assert (Hfloor : m / 2 ^ (- (k - 52)) = n * 6 / 5).
  { assert (Hpow : 2 ^ k * 2 ^ (- (k - 52)) = 4503599627370496).
    { rewrite <- Z.pow_add_r by lia. replace (k + - (k - 52)) with 52 by lia. done. }
    set (w := 2 ^ (- (k - 52))) in *. assert (Hw : 0 < w) by (apply Z.pow_pos_nonneg; lia).
    assert (H2k : 0 < 2 ^ k) by (apply Z.pow_pos_nonneg; lia).
    pose proof (Z.div_mod (n * 6) 5 ltac:(lia)) as Hq. pose proof (Z.mod_pos_bound (n * 6) 5 ltac:(lia)) as Hs.
    set (q := n * 6 / 5) in *. set (s := (n * 6) mod 5) in *.
    assert (Hp5 : 5 * p = 4503599627370496 * (5 * q + s) - n) by lia.
    symmetry. apply (Z.div_unique_pos m w q (m - w * q)); [|lia].
    assert (Hlow : q * w <= m).
    { destruct (decide (s = 0)) as [Hs0|Hs0].
      - destruct (decide (k = 0)) as [Hk00|Hk00].
        + exfalso. rewrite Hk00 in Hlog. change (2 ^ 0) with 1 in Hlog. lia.
        + apply Hnear; [lia| |nia|lia].
          assert (2 ^ k = 2 * 2 ^ (k - 1)) by (rewrite <- Z.pow_succ_r by lia; f_equal; lia). nia.
      - apply (Z.mul_le_mono_pos_r _ _ (2 ^ k) H2k). nia. }
    split; [lia|]. assert (m < (q + 1) * w); [|lia].
    apply (Z.mul_lt_mono_pos_r (2 ^ k) _ _ H2k). nia. }
  rewrite Hfloor. unfold u64_max. assert (n * 6 / 5 <= n * 6) by (apply Z.div_le_upper_bound; lia). lia.
Qed.

(** A rounding moves a value by less than one part in two hundred. *)
Lemma rounded x : 0 <= x -> 199 * x <= 200 * (rne x (excess_bits x) * 2 ^ excess_bits x) <= 201 * x.
Proof.
  intros Hx. destruct (decide (excess_bits x = 0)) as [E|E]; [rewrite E, rne_0, Z.pow_0_r; lia|].
  assert (Hk : 0 <= excess_bits x) by (unfold excess_bits; lia).
  pose proof (rne_bounds x (excess_bits x) Hk) as Hr.
  assert (Hp : 0 < x) by (destruct (decide (x = 0)) as [->|]; [by destruct E|lia]).
  assert (Hlog : 2 ^ (excess_bits x + 52) <= x).
  { replace (excess_bits x + 52) with (Z.log2 x) by (unfold excess_bits in *; lia). by apply Z.log2_spec. }
  rewrite Z.pow_add_r in Hlog by lia. change (2 ^ 52) with 4503599627370496 in Hlog. lia.
Qed.

Lemma excess_nonneg x : 0 <= excess_bits x.
Proof. unfold excess_bits. lia. Qed.

(** The truncation of [m * 2 ^ (s - 52)]. *)
Lemma u64_of_f64_between m s lo hi : 0 <= s -> 0 <= lo <= u64_max -> 0 <= hi -> 0 <= m ->
  lo * 2 ^ 52 <= m * 2 ^ s -> 4 * (m * 2 ^ s) <= hi * 2 ^ 52 ->
  lo <= u64_of_f64 (m, s - 52) /\ 4 * u64_of_f64 (m, s - 52) <= hi /\ u64_of_f64 (m, s - 52) <= u64_max.
Proof.
  intros Hs Hlo Hhi Hm Hl Hh. unfold u64_of_f64. cbn [fst snd]. case_decide as He.
  - assert (E : 2 ^ s = 2 ^ (s - 52) * 2 ^ 52) by (rewrite <- Z.pow_add_r by lia; f_equal; lia).
    rewrite E in *. assert (0 < 2 ^ (s - 52)) by (apply Z.pow_pos_nonneg; lia). change (2 ^ 52) with 4503599627370496 in *.
    assert (lo <= m * 2 ^ (s - 52)) by nia. assert (4 * (m * 2 ^ (s - 52)) <= hi) by nia. lia.
  - assert (E : 2 ^ 52 = 2 ^ s * 2 ^ (- (s - 52))) by (rewrite <- Z.pow_add_r by lia; f_equal; lia).
    rewrite E in *. assert (0 < 2 ^ s) by (apply Z.pow_pos_nonneg; lia). set (w := 2 ^ (- (s - 52))) in *.
    assert (0 < w) by (apply Z.pow_pos_nonneg; lia).
    assert (lo <= m / w) by (apply Z.div_le_lower_bound; nia).
    assert (4 * (m / w) <= hi).
    { pose proof (Z.mul_div_le m w ltac:(lia)). assert (4 * m <= hi * w) by nia. nia. }
    lia.
Qed.

(** C40: the padded gas limit.  For every [u64] estimate the limit of a
    transaction is at least the estimate and at most a quarter more, and fits in
    a [u64], although it is computed in floating point; below 2 ^ 50 it is the
    estimate and a fifth, rounded down. *)
Theorem gas_buffer_bounds estimate : 0 <= estimate <= u64_max ->
  estimate <= apply_gas_buffer estimate /\ 4 * apply_gas_buffer estimate <= 5 * estimate /\
  apply_gas_buffer estimate <= u64_max /\ (estimate < 2 ^ 50 -> apply_gas_buffer estimate = estimate * 6 / 5).
Proof.
  intros He. pose proof (rounded estimate ltac:(lia)) as Hn. set (i := excess_bits estimate) in *.
  set (a := rne estimate i) in *. pose proof (excess_nonneg estimate). fold i in H.
  assert (H2i : 0 < 2 ^ i) by (apply Z.pow_pos_nonneg; lia). assert (Ha : 0 <= a) by nia.
  set (p := a * 5404319552844595). pose proof (rounded p ltac:(lia)) as Hp. set (k := excess_bits p) in *.
  set (m := rne p k) in *. pose proof (excess_nonneg p). fold k in H0.
  assert (H2k : 0 < 2 ^ k) by (apply Z.pow_pos_nonneg; lia). assert (Hm : 0 <= m) by nia.
  assert (E : apply_gas_buffer estimate = u64_of_f64 (m, (i + k) - 52)).
  { unfold apply_gas_buffer, f64_mul, f64_of_u64, f64_1_2. cbn [fst snd]. fold i a p k m. do 2 f_equal. lia. }
  assert (Hpow : 2 ^ (i + k) = 2 ^ i * 2 ^ k) by (apply Z.pow_add_r; lia).
  set (M := m * 2 ^ k) in *. set (A := a * 2 ^ i) in *.
  assert (Hprod : m * 2 ^ (i + k) = M * 2 ^ i) by (unfold M; rewrite Hpow; lia).
  assert (Hlo : 199 * 5404319552844595 * A <= 200 * (M * 2 ^ i)) by (unfold A, p in *; nia).
  assert (Hhi : 200 * (M * 2 ^ i) <= 201 * 5404319552844595 * A) by (unfold A, p in *; nia).
  destruct (u64_of_f64_between m (i + k) estimate (5 * estimate)) as (H1 & H3 & H4);
    [lia|lia|lia|lia|rewrite Hprod; change (2 ^ 52) with 4503599627370496; lia..|].
  - rewrite <- E in H1, H3, H4. split_and!; try done. intros Hs. apply apply_gas_buffer_exact. lia.
Qed.

Lemma gas_buffer_bounds_witness :
  2 ^ 63 + 1 <= apply_gas_buffer (2 ^ 63 + 1) /\ 4 * apply_gas_buffer (2 ^ 63 + 1) <= 5 * (2 ^ 63 + 1) /\
  apply_gas_buffer 86476 = 103771.
Proof.
  destruct (gas_buffer_bounds (2 ^ 63 + 1)) as (H1 & H2 & _); [by vm_compute|].
  destruct (gas_buffer_bounds 86476) as (_ & _ & _ & H3); [by vm_compute|].
  split; [exact H1|]. split; [exact H2|]. rewrite H3 by lia. reflexivity.
Defined.
