(* ===== verification/Rbf.v ===== *)
(** * The dispatch worker ([run_rbf_dispatch] of
      [bin/witness-orchestrator/src/orchestrator.rs])

    One worker drives one batch's [preconfirmBatch] transaction: a pre-flight
    check of the batch's status on L1, a nonce, a first broadcast, then rounds
    that poll the receipt and rebroadcast with higher fees.  Logs and metrics
    are left out.  The worker polls forever on some networks, so its loop takes
    a number of rounds and answers [None] when they are used up. *)
From S2P Require Import Prelude Interaction RollupClient.
From stdpp Require Import strings.
#[local] Open Scope Z_scope.

(** [STUCK_AT_CAP_TIMEOUT], in milliseconds. *)
Definition STUCK_AT_CAP_TIMEOUT : Z := 300000.

Inductive RevertKind : Type := Oog | Logic.
#[export] Instance RevertKind_eq_dec : EqDecision RevertKind.
Proof. solve_decision. Defined.

Definition classify_revert (gas_used gas_limit : Z) : RevertKind :=
  if decide (gas_limit = 0) then Logic
  else if decide (sat_mul64 gas_limit 95 <= sat_mul64 gas_used 100) then Oog
  else Logic.

Inductive DispatchOutcome : Type :=
  | Submitted (tx_hash : list Z) (l1_block : Z)
  | Failed
  | Reverted (tx_hash : list Z) (kind : RevertKind)
  | AlreadyPreconfirmed (tx_hash : list Z) (l1_block : Z)
  | TaskFailed.

Inductive RbfBumpEvent : Type :=
  | InitialBroadcast (tx_hash : list Z) (nonce max_fee_per_gas max_priority_fee_per_gas : Z)
  | Bumped (tx_hash : list Z) (max_fee_per_gas max_priority_fee_per_gas : Z)
  | CapReached (max_fee_per_gas : Z).

Record RbfResumeState : Type := {
  resume_nonce : Z;
  resume_tx_hash : list Z;
  resume_max_fee_per_gas : Z;
  resume_max_priority_fee_per_gas : Z }.

(** The arguments every worker gets from the configuration. *)
Record RbfConfig : Type := {
  contract : list Z;
  verifier : list Z;
  signer_addr : list Z;
  bump_percent : Z;
  max_fee_cap : Z }.

Definition bump_fees (max_fee tip percent cap : Z) : Z * Z * bool :=
  let factor := 100 + percent in
  let new_fee := sat_mul128 max_fee factor / 100 in
  let new_tip := sat_mul128 tip factor / 100 in
  let clamped := bool_decide (cap <= new_fee) in
  let new_fee := Z.min new_fee cap in
  let new_tip := Z.min new_tip new_fee in
  (new_fee, new_tip, clamped).

Section Worker.
Context `{RollupAbi}.
Abbreviation message := (Z * RbfBumpEvent)%type.
Abbreviation io := (eff (L1Call message) string).
Context (cfg : RbfConfig) (batch_index : Z).

(** The pre-flight reconciliation: [Some] when the worker ends there. *)
Definition preflight : io (option DispatchOutcome) :=
  on_chain ← context ("pre-flight getBatch(" +:+ str batch_index +:+ ") failed: ")
    (get_batch_on_chain (contract cfg) batch_index);
  if decide (status on_chain = SUBMITTED) then mret None
  else if decide (status on_chain = PRECONFIRMED \/ status on_chain = CHALLENGED \/
                  status on_chain = FINALIZED) then
    block ← context "get_block(Finalized) failed: " (ask GetFinalizedBlock);
    finalized_head ← ok_or "L1 RPC returned no finalized block" block;
    if decide (finalized_head < accepted_at_block on_chain) then mret (Some Failed)
    else
      info ← context ("find_batch_preconfirm_event(" +:+ str batch_index +:+ ") failed: ")
        (find_batch_preconfirm_event (contract cfg) batch_index (accepted_at_block on_chain)
           finalized_head);
      match info with
      | None => mret (Some Failed)
      | Some info => mret (Some (AlreadyPreconfirmed (info_tx_hash info) (info_l1_block info)))
      end
  else mret (Some Failed).

(** The first broadcast of a fresh dispatch: fees and hash. *)
Definition initial_broadcast (template : PreconfirmTxTemplate) (nonce : Z) : io (Z * Z * list Z) :=
  est ← attempt (ask EstimateEip1559Fees);
  match est with
  | Panic => of_outcome Panic
  | Err e => _ ← release nonce; throw ("estimate_eip1559_fees failed: " +:+ e)
  | Ok (fee, tip) =>
      let '(fee, tip) :=
        if decide (max_fee_cap cfg <= fee)
        then (max_fee_cap cfg, if decide (max_fee_cap cfg < tip) then max_fee_cap cfg else tip)
        else (fee, tip) in
      sent ← attempt (broadcast_preconfirm template fee tip);
      match sent with
      | Panic => of_outcome Panic
      | Ok hash => mret (fee, tip, hash)
      | Err msg =>
          _ ← (if is_nonce_too_low_error msg
               then synced ← attempt (F := string) (resync (signer_addr cfg));
                    match synced with Panic => of_outcome Panic | _ => mret tt end
               else release nonce);
          throw ("initial broadcast failed: " +:+ msg)
      end
  end.

Record RbfLoop : Type := {
  fee : Z;
  tip : Z;
  at_cap_logged : bool;
  stuck_at_cap_since : option Z;
  current_hash : list Z }.

Definition outcome_of_receipt (template : PreconfirmTxTemplate) (hash : list Z) (l1_block : Z)
    (receipt : Receipt) : DispatchOutcome :=
  if receipt_status receipt then Submitted hash l1_block
  else Reverted hash (classify_revert (receipt_gas_used receipt) (gas_limit template)).

(** Rebroadcast at the bumped fees; a used nonce means that an earlier
    broadcast landed. *)
Definition rebroadcast (template : PreconfirmTxTemplate) (st : RbfLoop)
  : io (RbfLoop + DispatchOutcome) :=
  sent ← attempt (broadcast_preconfirm template (fee st) (tip st));
  match sent with
  | Panic => of_outcome Panic
  | Ok new_hash =>
      open ← do (Send (batch_index, Bumped new_hash (fee st) (tip st)));
      if (open : bool) then
        mret (inl {| fee := fee st; tip := tip st; at_cap_logged := at_cap_logged st;
                     stuck_at_cap_since := stuck_at_cap_since st; current_hash := new_hash |})
      else mret (inr Failed)
  | Err msg =>
      if is_nonce_too_low_error msg then
        receipt ← attempt (ask (GetTransactionReceipt (current_hash st)));
        match receipt with
        | Panic => of_outcome Panic
        | Ok (Some receipt) =>
            match receipt_block_number receipt with
            | None => mret (inl st)
            | Some l1_block =>
                mret (inr (outcome_of_receipt template (current_hash st) l1_block receipt))
            end
        | Ok None | Err _ => mret (inr Failed)
        end
      else mret (inl st)
  end.

(** Bump both fees; reaching the cap is stamped and announced once. *)
Definition bump (template : PreconfirmTxTemplate) (st : RbfLoop) : io (RbfLoop + DispatchOutcome) :=
  let '(new_fee, new_tip, clamped) := bump_fees (fee st) (tip st) (bump_percent cfg) (max_fee_cap cfg) in
  let next logged since := {| fee := new_fee; tip := new_tip; at_cap_logged := logged;
                              stuck_at_cap_since := since; current_hash := current_hash st |} in
  if (clamped : bool) then
    since ← match stuck_at_cap_since st with
            | None => now ← do Now; mret (Some now)
            | Some since => mret (Some since)
            end;
    if at_cap_logged st then rebroadcast template (next true since)
    else
      open ← do (Send (batch_index, CapReached (max_fee_cap cfg)));
      if (open : bool) then rebroadcast template (next true since) else mret (inr Failed)
  else rebroadcast template (next (at_cap_logged st) (stuck_at_cap_since st)).

(** One turn of the loop. *)
Definition rbf_round (template : PreconfirmTxTemplate) (st : RbfLoop)
  : io (RbfLoop + DispatchOutcome) :=
  cancelled ← do SleepOrCancelled;
  if (cancelled : bool) then mret (inr Failed)
  else
    receipt ← attempt (ask (GetTransactionReceipt (current_hash st)));
    match receipt with
    | Panic => of_outcome Panic
    | Err _ => mret (inl st)
    | Ok (Some receipt) =>
        match receipt_block_number receipt with
        | None => mret (inl st)
        | Some l1_block =>
            mret (inr (outcome_of_receipt template (current_hash st) l1_block receipt))
        end
    | Ok None =>
        match stuck_at_cap_since st with
        | None => bump template st
        | Some since =>
            now ← do Now;
            if decide (STUCK_AT_CAP_TIMEOUT <= now - since) then mret (inr Failed)
            else bump template st
        end
    end.

Fixpoint rbf_loop (rounds : nat) (template : PreconfirmTxTemplate) (st : RbfLoop)
  : io (option DispatchOutcome) :=
  match rounds with
  | O => mret None
  | S rounds =>
      r ← rbf_round template st;
      match r with
      | inl st => rbf_loop rounds template st
      | inr out => mret (Some out)
      end
  end.

(** Entering the loop: the cap may be reached from the start, and a fresh
    dispatch announces its first broadcast. *)
Definition rbf_enter (rounds : nat) (template : PreconfirmTxTemplate) (fee tip : Z)
    (initial_hash : list Z) (emit_initial : bool) : io (option DispatchOutcome) :=
  let at_cap := bool_decide (max_fee_cap cfg <= fee) in
  since ← (if (at_cap : bool) then now ← do Now; mret (Some now) else mret None);
  let st := {| fee := fee; tip := tip; at_cap_logged := at_cap; stuck_at_cap_since := since;
               current_hash := initial_hash |} in
  if emit_initial then
    open ← do (Send (batch_index, InitialBroadcast initial_hash (nonce template) fee tip));
    if (open : bool) then rbf_loop rounds template st else mret (Some Failed)
  else rbf_loop rounds template st.

Definition run_rbf_dispatch (rounds : nat) (signature : list Z) (resume : option RbfResumeState)
  : io (option DispatchOutcome) :=
  early ← preflight;
  match early with
  | Some out => mret (Some out)
  | None =>
      nonce ← match resume with
              | Some r => mret (resume_nonce r)
              | None => allocate
              end;
      built ← attempt (build_preconfirm_tx (contract cfg) (verifier cfg) batch_index signature
                         (signer_addr cfg) nonce);
      match built with
      | Panic => of_outcome Panic
      | Err e =>
          _ ← match resume with None => release nonce | Some _ => mret tt end;
          throw e
      | Ok template =>
          match resume with
          | Some r =>
              rbf_enter rounds template (resume_max_fee_per_gas r) (resume_max_priority_fee_per_gas r)
                (resume_tx_hash r) false
          | None =>
              first ← initial_broadcast template nonce;
              let '(fee, tip, hash) := first in
              rbf_enter rounds template fee tip hash true
          end
      end
  end.
End Worker.
