(* ===== verification/RbfSpec.v ===== *)
(** * The dispatch worker's protocol

    A ghost state reads a worker's calls and answers; [allowed] says which
    calls the protocol permits next.  Every run of the worker, whatever the
    network answers, respects the protocol. *)
From S2P Require Import Prelude Interaction Text RollupClient Rbf.
From stdpp Require Import strings.
#[local] Open Scope Z_scope.

(** What the calls so far have shown.  [latest] is the newest broadcast the
    node accepted (or the one resumed); [announced] says whether the main loop
    was told of it; [counter] is the nonce allocator's, [None] once another
    task has touched it. *)
Record ghost : Type := {
  submitted : bool;
  used_nonce : option Z;
  last_fees : option (Z * Z);
  signed : option (TxEip1559 * list Z);
  latest : option (list Z * Z * Z);
  announced : bool;
  capped : bool;
  found : option (list Z * Receipt);
  too_low : bool;
  counter : option Z }.

Section Protocol.
Context `{RollupAbi}.
Abbreviation message := (Z * RbfBumpEvent)%type.
Abbreviation io := (eff (L1Call message) string).
Context (cfg : RbfConfig) (batch_index : Z) (resume : option RbfResumeState).

Definition reported_status (r : outcome string (list Z)) : option Z :=
  match r with
  | Ok raw => match getBatchCall_decode_returns raw with Ok (s, _) => Some s | _ => None end
  | _ => None
  end.

Definition nonce_error {A} (text : string) (r : outcome string A) : bool :=
  match r with Err e => is_nonce_too_low_error (text +:+ e) | _ => false end.

(** What a call and its answer show, the counter aside. *)
Definition observe_call {R} (g : ghost) (c : L1Call message R) : R -> ghost :=
  match c in L1Call _ R return R -> ghost with
  | EthCall _ _ => fun r =>
      {| submitted := bool_decide (reported_status r = Some SUBMITTED); used_nonce := used_nonce g;
         last_fees := last_fees g; signed := signed g; latest := latest g; announced := announced g;
         capped := capped g; found := found g; too_low := too_low g; counter := counter g |}
  | FetchAdd => fun r =>
      {| submitted := submitted g; used_nonce := Some r;
         last_fees := last_fees g; signed := signed g; latest := latest g; announced := announced g;
         capped := capped g; found := found g; too_low := too_low g; counter := counter g |}
  | SignTransaction tx => fun r =>
      {| submitted := submitted g; used_nonce := used_nonce g;
         last_fees := Some (tx_max_fee_per_gas tx, tx_max_priority_fee_per_gas tx);
         signed := match r with Ok sig => Some (tx, sig) | _ => signed g end;
         latest := latest g; announced := announced g; capped := capped g; found := found g;
         too_low := too_low g || nonce_error "sign_transaction failed: " r; counter := counter g |}
  | SendRawTransaction _ => fun r =>
      {| submitted := submitted g; used_nonce := used_nonce g; last_fees := last_fees g; signed := signed g;
         latest := match r, last_fees g with Ok h, Some f => Some (h, f.1, f.2) | _, _ => latest g end;
         announced := match r with Ok _ => false | _ => announced g end;
         capped := capped g; found := found g;
         too_low := too_low g || nonce_error "send_raw_transaction failed: " r; counter := counter g |}
  | GetTransactionReceipt h => fun r =>
      {| submitted := submitted g; used_nonce := used_nonce g; last_fees := last_fees g; signed := signed g;
         latest := latest g; announced := announced g; capped := capped g;
         found := match r with Ok (Some receipt) => Some (h, receipt) | _ => found g end;
         too_low := too_low g; counter := counter g |}
  | Send m => fun _ =>
      {| submitted := submitted g; used_nonce := used_nonce g; last_fees := last_fees g; signed := signed g;
         latest := latest g;
         announced := match m.2 with CapReached _ => announced g | _ => true end;
         capped := match m.2 with CapReached _ => true | _ => capped g end;
         found := found g; too_low := too_low g; counter := counter g |}
  | _ => fun _ => g
  end.

Definition set_counter (n : option Z) (g : ghost) : ghost :=
  {| submitted := submitted g; used_nonce := used_nonce g; last_fees := last_fees g; signed := signed g;
     latest := latest g; announced := announced g; capped := capped g; found := found g;
     too_low := too_low g; counter := n |}.

Definition observe (R : Type) (g : ghost) (c : L1Call message R) (r : R) : ghost :=
  set_counter (counter g ≫= counter_step (Ev c r)) (observe_call g c r).

(** Replacement fees.  After an attempt within the cap no fee goes down; after
    one above it, which only a resumed attempt can be, the fee is the cap; the
    tip stays within the fee. *)
Definition replaces (old new : Z * Z) : Prop :=
  0 <= old.1 -> 0 <= old.2 ->
  (old.1 <= max_fee_cap cfg -> old.1 <= new.1 /\ (old.2 <= old.1 -> old.2 <= new.2)) /\
  (max_fee_cap cfg < old.1 -> new.1 = max_fee_cap cfg) /\ new.2 <= new.1.

(** The calls the protocol permits:
    a nonce is taken once, by a fresh dispatch the pre-flight cleared;
    a transaction is signed for that nonce only, within the cap, with fees that
    replace the last one's, and only when the previous broadcast was announced;
    what is sent is what was signed; what is announced is the newest broadcast;
    the receipt polled is the newest broadcast's; a nonce goes back to the
    allocator only before any broadcast. *)
Definition allowed (R : Type) (g : ghost) (c : L1Call message R) : Prop :=
  match c with
  | FetchAdd => submitted g = true /\ used_nonce g = None /\ resume = None
  | SignTransaction tx =>
      submitted g = true /\ used_nonce g = Some (tx_nonce tx) /\ announced g = true /\
      tx_max_fee_per_gas tx <= max_fee_cap cfg /\
      from_option (fun f => replaces f (tx_max_fee_per_gas tx, tx_max_priority_fee_per_gas tx)) True (last_fees g)
  | SendRawTransaction raw => exists tx sig, signed g = Some (tx, sig) /\ raw = encode_2718 tx sig
  | Send (i, ev) =>
      i = batch_index /\
      match ev with
      | InitialBroadcast h n f t =>
          resume = None /\ latest g = Some (h, f, t) /\ announced g = false /\ used_nonce g = Some n
      | Bumped h f t => latest g = Some (h, f, t) /\ announced g = false
      | CapReached f => capped g = false /\ f = max_fee_cap cfg
      end
  | GetTransactionReceipt h => exists f t, latest g = Some (h, f, t)
  | CompareExchange e n => resume = None /\ latest g = None /\ used_nonce g = Some n /\ e = u64 (n + 1)
  | Store _ => too_low g = true
  | _ => True
  end.

Abbreviation checked := (checked allowed observe).

(** Where a worker starts. *)
Definition init (n : option Z) : ghost := {|
  submitted := false;
  used_nonce := resume_nonce <$> resume;
  last_fees := (fun r => (resume_max_fee_per_gas r, resume_max_priority_fee_per_gas r)) <$> resume;
  signed := None;
  latest := (fun r => (resume_tx_hash r, resume_max_fee_per_gas r, resume_max_priority_fee_per_gas r)) <$> resume;
  announced := true; capped := false; found := None; too_low := false; counter := n |}.

(** What the nonce counter may be in the end, having been [n0]: untouched, one
    up with a broadcast to show for it, or past a nonce the chain had used. *)
Definition counter_ok (n0 : Z) (g : ghost) : Prop :=
  match counter g, resume with
  | Some n, None => n = n0 \/ (n = n0 + 1 /\ is_Some (latest g)) \/ (n0 + 1 <= n /\ too_low g = true)
  | Some n, Some _ => n = n0
  | None, _ => True
  end.

(** What the worker's result says of the run. *)
Definition result_ok (n0 : Z) (g : ghost) (r : outcome string (option DispatchOutcome)) : Prop :=
  (r <> Panic -> counter_ok n0 g) /\
  match r with
  | Ok (Some (Submitted h b)) =>
      exists receipt, found g = Some (h, receipt) /\ receipt_status receipt = true /\
        receipt_block_number receipt = Some b /\ exists f t, latest g = Some (h, f, t)
  | Ok (Some (Reverted h kind)) =>
      exists receipt, found g = Some (h, receipt) /\ receipt_status receipt = false /\
        exists f t, latest g = Some (h, f, t)
  | Ok (Some (AlreadyPreconfirmed _ _)) => signed g = None
  | Ok (Some TaskFailed) => False
  | Ok (Some Failed) | Ok None | Panic => True
  | Err _ => resume = None -> latest g = None
  end.

(** ** The fee schedule *)

Lemma bump_fees_spec f t :
  0 <= bump_percent cfg -> 100 * max_fee_cap cfg <= u128_max ->
  let '(f', t', clamped) := bump_fees f t (bump_percent cfg) (max_fee_cap cfg) in
  f' <= max_fee_cap cfg /\ replaces (f, t) (f', t') /\
  (clamped = true <-> f' = max_fee_cap cfg).
Proof.
  intros Hp Hcap. unfold bump_fees, replaces, sat_mul128. cbn [fst snd].
  assert (Hm : max_fee_cap cfg <= u128_max / 100) by (apply Z.div_le_lower_bound; lia).
  assert (Hup : forall x, 0 <= x -> Z.min x (max_fee_cap cfg) <= Z.min (x * (100 + bump_percent cfg)) u128_max / 100).
  { intros x Hx. destruct (Z.min_spec (x * (100 + bump_percent cfg)) u128_max) as [[? ->]|[? ->]]; [|lia].
    transitivity x; [lia|]. apply Z.div_le_lower_bound; [lia|nia]. }
  set (nf := Z.min (f * (100 + bump_percent cfg)) u128_max / 100) in *.
  set (nt := Z.min (t * (100 + bump_percent cfg)) u128_max / 100) in *.
  split; [lia|]. split.
  - intros Hf0 Ht0. pose proof (Hup f Hf0). pose proof (Hup t Ht0). unfold nf, nt in *. split; [|split]; lia.
  - rewrite bool_decide_eq_true. lia.
Qed.

(** ** Components of the worker *)

Lemma counter_observed {R} g (c : L1Call message R) (r : R) :
  (forall n, counter_step (Ev c r) n = Some n) -> counter (observe R g c r) = counter g.
Proof.
  intros Hc. change (counter g ≫= counter_step (Ev c r) = counter g).
  destruct (counter g) as [n|]; [apply Hc|done].
Qed.


Hypothesis Hpercent : 0 <= bump_percent cfg.
Hypothesis Hcap : 100 * max_fee_cap cfg <= u128_max.

(** A call that shows nothing. *)
Definition silent {R} (c : L1Call message R) : Prop :=
  (forall g r, observe R g c r = g) /\ (forall g, allowed R g c).

Lemma checked_silent {A} (c : L1Call message (outcome string A)) (Q : ghost -> outcome string A -> Prop) g :
  silent c -> (forall r, Q g r) -> checked g (ask c) Q.
Proof. intros [Ho Ha] HQ. split; [apply Ha|]. intros r. cbn. by rewrite Ho. Qed.

Ltac is_silent :=
  split; [by intros [? ? ? ? ? ? ? ? ? []] ?|done].

Lemma silent_finalized : silent GetFinalizedBlock. Proof. is_silent. Qed.
Lemma silent_logs f : silent (GetLogs f). Proof. is_silent. Qed.
Lemma silent_chain_id : silent GetChainId. Proof. is_silent. Qed.
Lemma silent_gas a b c : silent (EstimateGas a b c). Proof. is_silent. Qed.
Lemma silent_fees : silent EstimateEip1559Fees. Proof. is_silent. Qed.
Lemma silent_pending a : silent (GetTransactionCountPending a). Proof. is_silent. Qed.

Lemma checked_bind_io {A B} (p : io A) (f : A -> io B) Q g (P : ghost -> outcome string A -> Prop) :
  checked g p P ->
  (forall g a, P g (Ok a) -> checked g (f a) Q) ->
  (forall g e, P g (Err e) -> Q g (Err e)) -> (forall g, P g Panic -> Q g Panic) ->
  checked g (p ≫= f) Q.
Proof.
  intros Hp Hok Herr Hpanic. apply checked_eff_bind. eapply checked_mono; [|exact Hp].
  intros g' [a|e|]; cbn; auto.
Qed.

(** A step that shows nothing. *)
Definition unseen {A} (p : io A) : Prop := forall g, checked g p (fun g' _ => g' = g).

Lemma checked_bind_unseen {A B} (p : io A) (f : A -> io B) Q g :
  unseen p -> (forall a, checked g (f a) Q) -> (forall e, Q g (Err e)) -> Q g Panic ->
  checked g (p ≫= f) Q.
Proof.
  intros Hp Hok Herr Hpanic. apply (checked_bind_io _ _ _ _ (fun g' _ => g' = g));
    [apply Hp|intros ? a ->|intros ? e ->|intros ? ->]; auto.
Qed.

Lemma checked_do {R B} (c : L1Call message R) (f : R -> io B) Q g :
  allowed R g c -> (forall r, checked (observe R g c r) (f r) Q) -> checked g (do c ≫= f) Q.
Proof. done. Qed.

Lemma unseen_ok_or {A} text (o : option A) : unseen (ok_or text o : io A).
Proof. done. Qed.

Lemma checked_context {A} text (p : io A) (P Q : ghost -> outcome string A -> Prop) g :
  checked g p P -> (forall g r, P g r -> Q g (map_err (fun e => text +:+ e) r)) ->
  checked g (context text p) Q.
Proof.
  intros Hp HQ. apply checked_map_err. eapply checked_mono; [|exact Hp]. auto.
Qed.

Lemma unseen_ask {A} text (c : L1Call message (outcome string A)) :
  silent c -> unseen (context text (ask c)).
Proof.
  intros Hc g. apply checked_context with (P := fun g' _ => g' = g); [|done].
  by apply checked_silent.
Qed.

Lemma unseen_find contract i l h : unseen (find_batch_preconfirm_event contract i l h).
Proof.
  intros g. unfold find_batch_preconfirm_event. case_decide; [done|].
  apply checked_bind_unseen; [apply unseen_ask, silent_logs| |done..].
  intros logs. destruct (head logs) as [log|]; [|done].
  apply checked_bind_unseen; [apply unseen_ok_or| |done..]. intros hash.
  apply checked_bind_unseen; [apply unseen_ok_or| |done..]. done.
Qed.

(** The pre-flight changes nothing but the reported status, and clears a batch
    only when that status is [SUBMITTED]. *)
Definition preflight_post (g0 g : ghost) (r : outcome string (option DispatchOutcome)) : Prop :=
  (exists b, g = {| submitted := b; used_nonce := used_nonce g0; last_fees := last_fees g0; signed := signed g0;
     latest := latest g0; announced := announced g0; capped := capped g0; found := found g0;
     too_low := too_low g0; counter := counter g0 |}) /\
  match r with
  | Ok None => submitted g = true
  | Ok (Some out) => out = Failed \/ exists h b, out = AlreadyPreconfirmed h b
  | _ => True
  end.

Lemma preflight_checked g0 : checked g0 (preflight cfg batch_index) (preflight_post g0).
Proof.
  set (same g := exists b, g = {| submitted := b; used_nonce := used_nonce g0; last_fees := last_fees g0;
    signed := signed g0; latest := latest g0; announced := announced g0; capped := capped g0;
    found := found g0; too_low := too_low g0; counter := counter g0 |}).
  unfold preflight.
  apply checked_bind_io with (P := fun g r => same g /\
    match r with Ok s => submitted g = bool_decide (status s = SUBMITTED) | _ => True end).
  - eapply checked_context with (P := fun g r => same g /\
      match r with Ok s => submitted g = bool_decide (status s = SUBMITTED) | _ => True end);
      [|intros g [s|e|] [? ?]; done].
    unfold get_batch_on_chain. apply checked_bind_io with (P := fun g r => same g /\ match r with
      Ok raw => submitted g = bool_decide (reported_status (Ok raw) = Some SUBMITTED) | _ => True end);
      [|intros g raw [Hs Hg]|by intros ?? [? ?]|by intros ? [? ?]].
    + eapply checked_context with (P := fun g r => same g /\
        submitted g = bool_decide (reported_status r = Some SUBMITTED)); [|intros ? [?|?|] [? ?]; done].
      cbn. split; [done|]. intros r. split; [|done].
      eexists. destruct g0 as [????????? []]; reflexivity.
    + cbn in *. unfold context, map_err_p, of_outcome. cbn.
      destruct (getBatchCall_decode_returns raw) as [[s a]|e|]; cbn; try done.
      split; [done|]. rewrite Hg. apply bool_decide_ext. naive_solver.
  - intros g s [Hs Hg]. case_decide as E; [split; [exact Hs|rewrite Hg; by apply bool_decide_eq_true]|].
    destruct (decide (status s = PRECONFIRMED \/ status s = CHALLENGED \/ status s = FINALIZED)); [|split; [exact Hs|by left]].
    apply checked_bind_unseen; [apply unseen_ask, silent_finalized| |done..]. intros block.
    apply checked_bind_unseen; [apply unseen_ok_or| |done..]. intros finalized.
    case_decide; [split; [exact Hs|by left]|].
    apply checked_bind_unseen; [| |by split..].
    { intros g'. apply checked_context with (P := fun g1 _ => g1 = g'); [apply unseen_find|done]. }
    intros [info|]; (split; [exact Hs|]); [right; eauto|by left].
  - intros g e [Hs _]; by split.
  - intros g [Hs _]; by split.
Qed.

Lemma build_checked signature nonce_ g :
  checked g (build_preconfirm_tx (contract cfg) (verifier cfg) batch_index signature (signer_addr cfg) nonce_)
    (fun g' r => g' = g /\ match r with Ok template => nonce template = nonce_ | _ => True end).
Proof.
  apply checked_bind_unseen; [apply unseen_ask, silent_chain_id| |done..]. intros chain.
  apply checked_bind_unseen; [apply unseen_ask, silent_gas| |done..]. done.
Qed.

(** What a broadcast shows: the fees are the last signed; an accepted one is
    the newest and has yet to be announced. *)
Record sent (f t : Z) (g0 g : ghost) (r : outcome string (list Z)) : Prop := {
  sent_submitted : submitted g = true;
  sent_nonce : used_nonce g = used_nonce g0;
  sent_fees : last_fees g = Some (f, t);
  sent_capped : capped g = capped g0;
  sent_counter : counter g = counter g0;
  sent_too_low : too_low g0 = true -> too_low g = true;
  sent_result : match r with
    | Ok h => latest g = Some (h, f, t) /\ announced g = false
    | Err e => latest g = latest g0 /\ announced g = true /\ (is_nonce_too_low_error e = true -> too_low g = true)
    | Panic => True
    end }.

Lemma broadcast_checked template f t g :
  submitted g = true -> used_nonce g = Some (nonce template) -> announced g = true ->
  f <= max_fee_cap cfg -> from_option (fun old => replaces old (f, t)) True (last_fees g) ->
  checked g (broadcast_preconfirm template f t) (sent f t g).
Proof.
  destruct g as [sub used last sig lat ann cap fnd low cnt]. cbn. intros -> -> -> Hf Hr.
  assert (Hc : forall h : Z -> option Z, (forall n, h n = Some n) -> cnt ≫= h = cnt)
    by (intros h Hh; destruct cnt; [apply Hh|done]).
  split; [done|]. intros [s|e|].
  - split; [by eexists _, _|]. intros [h|e|]; split; cbn; rewrite ?Hc; try done; try (by intros ->).
    split; [done|]. split; [done|]. intros E. rewrite E. apply orb_true_r.
  - split; cbn; rewrite ?Hc; try done; try (by intros ->). split; [done|]. split; [done|].
    intros E. rewrite E. apply orb_true_r.
  - split; cbn; rewrite ?Hc; try done; try (by intros ->).
Qed.

(** ** The loop *)

Record looping (n0 : Z) (template : PreconfirmTxTemplate) (st : RbfLoop) (g : ghost) : Prop := {
  loop_submitted : submitted g = true;
  loop_nonce : used_nonce g = Some (nonce template);
  loop_announced : announced g = true;
  loop_latest : exists f t, latest g = Some (current_hash st, f, t);
  loop_fees : last_fees g = Some (fee st, tip st);
  loop_capped : capped g = true -> at_cap_logged st = true;
  loop_counter : counter_ok n0 g }.

Lemma counter_ok_frame n0 g g' :
  counter g' = counter g -> (is_Some (latest g) -> is_Some (latest g')) ->
  (too_low g = true -> too_low g' = true) -> counter_ok n0 g -> counter_ok n0 g'.
Proof.
  unfold counter_ok. intros -> Hl Ht. destruct (counter g) as [n|], resume; try done.
  intros [?|[[? ?]|[? ?]]]; eauto.
Qed.

Definition round_post (n0 : Z) (template : PreconfirmTxTemplate) (g : ghost)
    (r : outcome string (RbfLoop + DispatchOutcome)) : Prop :=
  match r with
  | Ok (inl st) => looping n0 template st g
  | Ok (inr out) => result_ok n0 g (Ok (Some out))
  | Err _ => False
  | Panic => True
  end.

(** Polling the current hash: nothing changes but the receipt found. *)
Lemma poll_checked n0 template st g :
  looping n0 template st g ->
  checked g (attempt (F := string) (ask (GetTransactionReceipt (current_hash st)))) (fun g' r =>
    looping n0 template st g' /\
    match r with
    | Ok (Ok (Some receipt)) => found g' = Some (current_hash st, receipt)
    | Ok _ => True
    | _ => False
    end).
Proof.
  intros [? ? ? (f & t & Hl) ? ? Hc]. split; [by eexists _, _|]. intros r.
  split; [|by destruct r as [[receipt|]|e|]].
  split; cbn; try done; [by eexists _, _|].
  eapply counter_ok_frame; [..|exact Hc]; cbn; try done. by destruct (counter g).
Qed.

Lemma receipt_result n0 template st g receipt b :
  looping n0 template st g -> found g = Some (current_hash st, receipt) ->
  receipt_block_number receipt = Some b ->
  result_ok n0 g (Ok (Some (outcome_of_receipt template (current_hash st) b receipt))).
Proof.
  intros Hl Hf Hb. split; [intros _; apply Hl|]. unfold outcome_of_receipt.
  destruct (receipt_status receipt) eqn:Es; exists receipt; split_and!; try done; apply Hl.
Qed.

Lemma failed_result n0 template st g : looping n0 template st g -> result_ok n0 g (Ok (Some Failed)).
Proof. intros Hl. split; [intros _; apply Hl|done]. Qed.

(** The state between the bump and its broadcast: everything of [looping] but
    the fees, which the bumped ones replace. *)
Definition bumped (n0 : Z) (template : PreconfirmTxTemplate) (st : RbfLoop) (g : ghost) : Prop :=
  exists last, last_fees g = Some last /\ replaces last (fee st, tip st) /\
    looping n0 template st (set_counter (counter g)
      {| submitted := submitted g; used_nonce := used_nonce g; last_fees := Some (fee st, tip st);
         signed := signed g; latest := latest g; announced := announced g; capped := capped g;
         found := found g; too_low := too_low g; counter := counter g |}).

Lemma bumped_sent n0 template st g g' r :
  bumped n0 template st g -> sent (fee st) (tip st) g g' r ->
  match r with
  | Ok h => forall g2, submitted g2 = submitted g' -> used_nonce g2 = used_nonce g' ->
      last_fees g2 = last_fees g' -> capped g2 = capped g' -> counter g2 = counter g' ->
      latest g2 = latest g' -> announced g2 = true -> too_low g2 = too_low g' ->
      looping n0 template {| fee := fee st; tip := tip st; at_cap_logged := at_cap_logged st;
        stuck_at_cap_since := stuck_at_cap_since st; current_hash := h |} g2
  | Err e => looping n0 template st g' /\ (is_nonce_too_low_error e = true -> too_low g' = true)
  | Panic => True
  end.
Proof.
  intros (last & _ & _ & [Hs Hn Ha (f1 & t1 & Hla) Hf Hcp Hco]) [S1 S2 S3 S4 S5 S6 S7]. cbn in *.
  destruct r as [h|e|]; [|destruct S7 as (Hl & Han & Hlow)|done].
  - destruct S7 as [Hl _]. intros g2 E1 E2 E3 E4 E5 E6 E7 E8.
    split; cbn; rewrite ?E1, ?E2, ?E3, ?E4, ?E6, ?S1, ?S2, ?S3, ?S4, ?Hl; eauto.
    eapply counter_ok_frame; [| | |exact Hco]; cbn; rewrite ?E5, ?E6, ?E8, ?Hl; eauto.
  - split; [|done]. split; cbn; rewrite ?S1, ?S2, ?S3, ?S4, ?Hl; eauto.
    eapply counter_ok_frame; [| | |exact Hco]; cbn; rewrite ?Hl; eauto.
Qed.

Lemma rebroadcast_checked n0 template st g :
  bumped n0 template st g -> fee st <= max_fee_cap cfg ->
  checked g (rebroadcast batch_index template st) (round_post n0 template).
Proof.
  intros Hb Hc. pose proof Hb as (last & El & Hrep & [Hs Hn Ha _ _ _ _]). cbn in Hs, Hn, Ha.
  unfold rebroadcast. eapply checked_bind_io with (P := fun g' r => exists o, r = Ok o /\ sent (fee st) (tip st) g g' o);
    [|intros g' o (o' & [= <-] & Hsent)|by intros ? ? (? & ? & _)|by intros ? (? & ? & _)].
  { apply checked_attempt. eapply checked_mono; [|apply broadcast_checked; try done; by rewrite El]. eauto. }
  pose proof (bumped_sent n0 template st g g' o Hb Hsent) as Hnext. destruct o as [h|e|]; [|destruct Hnext as [Hl Hlow]|done].
  - destruct Hsent as [? ? ? ? ? ? [Hla Han]]. split; [done|].
    intros b. specialize (Hnext (observe bool g' (Send (batch_index, Bumped h (fee st) (tip st))) b)).
    assert (Hl := Hnext eq_refl eq_refl eq_refl eq_refl (counter_observed g'
      (Send (batch_index, Bumped h (fee st) (tip st))) b (fun n => @eq_refl _ (Some n))) eq_refl eq_refl eq_refl).
    destruct b; [exact Hl|]. exact (failed_result _ _ _ _ Hl).
  - destruct (is_nonce_too_low_error e) eqn:Ee; [|exact Hl].
    eapply checked_bind_io; [by apply (poll_checked n0 template st)| |by intros ?? [? ?]|by intros ? [? ?]].
    intros g2 r [Hl2 Hf]. destruct r as [[receipt|]|e2|]; [|by eapply failed_result..|done].
    destruct (receipt_block_number receipt) as [b|] eqn:Eb; [|exact Hl2]. by eapply receipt_result.
Qed.

Lemma bump_checked n0 template st g :
  looping n0 template st g -> checked g (bump cfg batch_index template st) (round_post n0 template).
Proof.
  intros Hl. unfold bump. pose proof (bump_fees_spec (fee st) (tip st) Hpercent Hcap) as Hb.
  destruct (bump_fees _ _ _ _) as [[f t] clamped]. destruct Hb as (Hf & Hrep & _).
  assert (Hbumped : forall logged since g', (capped g' = true -> logged = true) ->
    submitted g' = submitted g -> used_nonce g' = used_nonce g -> last_fees g' = last_fees g ->
    latest g' = latest g -> announced g' = true -> too_low g' = too_low g -> counter g' = counter g ->
    bumped n0 template {| fee := f; tip := t; at_cap_logged := logged; stuck_at_cap_since := since;
      current_hash := current_hash st |} g').
  { intros logged since g' Hlog E1 E2 E3 E4 E5 E6 E7. destruct Hl as [? ? ? ? Hfees ? Hco].
    exists (fee st, tip st). split; [by rewrite E3|]. split; [done|].
    split; cbn; rewrite ?E1, ?E2, ?E4; try done.
    eapply counter_ok_frame; [| | |exact Hco]; cbn; rewrite ?E4, ?E6; done. }
  assert (Hcapped := loop_capped _ _ _ _ Hl). assert (Hann := loop_announced _ _ _ _ Hl).
  destruct clamped; [|by apply rebroadcast_checked; [apply Hbumped|]].
  apply checked_bind_io with (P := fun g' r => g' = g /\ exists since, r = Ok since);
    [|intros g' since [-> _]|by intros ? ? [? [? ?]]|by intros ? [? [? ?]]].
  { destruct (stuck_at_cap_since st) as [since|]; [split; eauto|]. split; [done|]. intros now.
    split; [|by eexists]. destruct g as [????????? []]; reflexivity. }
  destruct (at_cap_logged st) eqn:Elog; [by apply rebroadcast_checked; [apply Hbumped|]|].
  assert (Hnot : capped g = false) by (destruct (capped g); [by specialize (Hcapped eq_refl)|done]).
  apply checked_do; [done|]. intros [|].
  - apply rebroadcast_checked; [apply Hbumped; try done|done]. by apply counter_observed.
  - split; [|done]. intros _. eapply counter_ok_frame; [| | |apply (loop_counter _ _ _ _ Hl)]; try done.
    by apply counter_observed.
Qed.

Lemma round_checked n0 template st g :
  looping n0 template st g -> checked g (rbf_round cfg batch_index template st) (round_post n0 template).
Proof.
  intros Hl. apply checked_do; [done|]. intros b.
  assert (Hl1 : looping n0 template st (observe bool g SleepOrCancelled b)).
  { destruct Hl as [? ? ? ? ? ? Hco]. split; try done.
    eapply counter_ok_frame; [by apply counter_observed|done..]. }
  destruct b; [by eapply failed_result|].
  eapply checked_bind_io; [by apply (poll_checked n0 template st)| |by intros ?? [? ?]|by intros ? [? ?]].
  intros g2 r [Hl2 Hf]. destruct r as [[receipt|]|e2|]; [|..|exact Hl2|done].
  - destruct (receipt_block_number receipt) as [b|] eqn:Eb; [|exact Hl2]. by eapply receipt_result.
  - destruct (stuck_at_cap_since st) as [since|]; [|by apply bump_checked].
    apply checked_do; [done|]. intros now.
    assert (Hl3 : looping n0 template st (observe Z g2 Now now)).
    { destruct Hl2 as [? ? ? ? ? ? Hco]. split; try done.
      eapply counter_ok_frame; [by apply counter_observed|done..]. }
    case_decide; [by eapply failed_result|by apply bump_checked].
Qed.

Lemma loop_checked n0 rounds template : forall st g,
  looping n0 template st g -> checked g (rbf_loop cfg batch_index rounds template st) (result_ok n0).
Proof.
  induction rounds as [|rounds IH]; intros st g Hl.
  - split; [intros _; apply Hl|done].
  - eapply checked_bind_io; [by apply (round_checked n0)| |done|done].
    intros g' [st'|out] Hp; [by apply IH|exact Hp].
Qed.

(** Entering the loop with the newest broadcast announced, or about to be. *)
Lemma enter_checked n0 rounds template f t h emit g :
  submitted g = true -> used_nonce g = Some (nonce template) -> latest g = Some (h, f, t) ->
  last_fees g = Some (f, t) -> capped g = false -> counter_ok n0 g ->
  (if emit : bool then announced g = false /\ resume = None else announced g = true) ->
  checked g (rbf_enter cfg batch_index rounds template f t h emit) (result_ok n0).
Proof.
  intros Hs Hn Hla Hf Hcap' Hco Hemit. unfold rbf_enter.
  apply checked_bind_io with (P := fun g' r => g' = g /\ exists since, r = Ok since);
    [|intros g' since [-> _]|by intros ? ? [? [? ?]]|by intros ? [? [? ?]]].
  { case_bool_decide; [|split; eauto]. split; [done|]. intros now.
    split; [|by eexists]. destruct g as [????????? []]; reflexivity. }
  assert (Hlook : forall g', submitted g' = submitted g -> used_nonce g' = used_nonce g ->
    latest g' = latest g -> last_fees g' = last_fees g -> capped g' = capped g -> too_low g' = too_low g ->
    counter g' = counter g -> announced g' = true ->
    looping n0 template {| fee := f; tip := t; at_cap_logged := bool_decide (max_fee_cap cfg <= f);
      stuck_at_cap_since := since; current_hash := h |} g').
  { intros g' E1 E2 E3 E4 E5 E6 E7 E8. split; rewrite ?E1, ?E2, ?E3, ?E4, ?E5; eauto; [by rewrite Hcap'|].
    eapply counter_ok_frame; [exact E7| | |exact Hco]; rewrite ?E3, ?E6; done. }
  destruct emit; [|by apply loop_checked, Hlook].
  destruct Hemit as [Ha Hr]. apply checked_do; [done|]. intros b.
  assert (Hl := Hlook (observe bool g (Send (batch_index, InitialBroadcast h (nonce template) f t)) b)
    eq_refl eq_refl eq_refl eq_refl eq_refl eq_refl (counter_observed g
      (Send (batch_index, InitialBroadcast h (nonce template) f t)) b (fun n => @eq_refl _ (Some n))) eq_refl).
  destruct b; [by apply loop_checked|by eapply failed_result].
Qed.

(** ** Fresh dispatches *)

(** A nonce just taken, nothing broadcast. *)
Record taken (n0 n : Z) (g : ghost) : Prop := {
  taken_submitted : submitted g = true;
  taken_nonce : used_nonce g = Some n;
  taken_latest : latest g = None;
  taken_announced : announced g = true;
  taken_capped : capped g = false;
  taken_counter : forall c, counter g = Some c -> n = n0 /\ c = n0 + 1 }.

Definition unsent (n0 : Z) (g : ghost) : Prop := latest g = None /\ counter_ok n0 g.

Lemma release_checked n0 n g (Q : ghost -> outcome string unit -> Prop) :
  resume = None -> 0 <= n0 < u64_max -> taken n0 n g ->
  (forall g' u, unsent n0 g' -> Q g' (Ok u)) -> checked g (release n) Q.
Proof.
  intros Hr Hn0 [Hs Hn Hl Ha Hcp Hc] HQ. split; [done|]. intros r. apply HQ. split; [done|].
  unfold counter_ok. cbn. destruct (counter g) as [c|]; [|done]. destruct (Hc c eq_refl) as [-> ->].
  cbn. rewrite Hr. unfold u64, u64_max in *. rewrite Z.mod_small by lia.
  rewrite decide_True by done. by left.
Qed.

Lemma resync_checked n0 n g (Q : ghost -> outcome string Z -> Prop) :
  resume = None -> 0 <= n0 -> latest g = None -> too_low g = true ->
  (forall c, counter g = Some c -> n = n0 /\ c = n0 + 1) ->
  (forall g' r, unsent n0 g' -> Q g' r) -> checked g (resync (signer_addr cfg)) Q.
Proof.
  intros Hr Hn0 Hl Ht Hc HQ.
  assert (Hok : forall g', latest g' = None -> too_low g' = true ->
    (forall c, counter g' = Some c -> n0 + 1 <= c) -> unsent n0 g').
  { intros g' Hl' Ht' Hc'. split; [done|]. unfold counter_ok. rewrite Hr.
    destruct (counter g') as [c|]; [|done]. right. right. auto. }
  assert (Hge : forall c, counter g = Some c -> n0 + 1 <= c) by (intros c E; destruct (Hc c E); lia).
  apply checked_bind_unseen; [apply unseen_ask, silent_pending| |intros e; by apply HQ, Hok|by apply HQ, Hok].
  intros pending. apply checked_do; [done|]. intros current.
  set (g1 := observe Z g Load current).
  assert (Hg1 : forall c, counter g1 = Some c -> n0 + 1 <= c /\ c = current).
  { intros c. unfold g1. cbn. destruct (counter g) as [c'|] eqn:Ec; [|done]. cbn.
    destruct (decide (current = c')) as [->|]; [|done]. intros [= <-]. auto. }
  unfold map_err_p, mret. case_decide as En.
  - apply HQ, Hok; try done. intros c E. by apply Hg1.
  - split; [exact Ht|]. intros []. apply HQ, Hok; try done. intros c Es.
    change (counter g1 ≫= (fun _ => Some (Z.max pending current)) = Some c) in Es.
    destruct (counter g1) as [c'|]; [|done]. injection Es as <-. destruct (Hg1 c' eq_refl). lia.
Qed.

Lemma initial_checked n0 template n g :
  resume = None -> 0 <= n0 < u64_max -> nonce template = n -> taken n0 n g -> last_fees g = None ->
  checked g (initial_broadcast cfg template n) (fun g' r =>
    match r with
    | Ok (f, t, h) => submitted g' = true /\ used_nonce g' = Some n /\ latest g' = Some (h, f, t) /\
        last_fees g' = Some (f, t) /\ f <= max_fee_cap cfg /\ capped g' = false /\ counter_ok n0 g' /\
        announced g' = false
    | Err _ => unsent n0 g'
    | Panic => True
    end).
Proof.
  intros Hr Hn0 Hnt Htk Hf. pose proof Htk as [Hs Hn Hl Ha Hcp Hc]. unfold initial_broadcast.
  eapply checked_bind_io with (P := fun g' r => g' = g /\ match r with Ok _ => True | _ => False end);
    [|intros g' est [-> _]|by intros ? ? [? ?]|by intros ? [? ?]].
  { apply checked_attempt, checked_silent; [apply silent_fees|done]. }
  assert (Hrel : forall e : string, checked g (_ ← release n; throw e) (fun g' (r : outcome string (Z * Z * list Z)) =>
    match r with
    | Ok (f, t, h) => submitted g' = true /\ used_nonce g' = Some n /\ latest g' = Some (h, f, t) /\
        last_fees g' = Some (f, t) /\ f <= max_fee_cap cfg /\ capped g' = false /\ counter_ok n0 g' /\
        announced g' = false
    | Err _ => unsent n0 g' | Panic => True end)).
  { intros e. apply checked_bind_io with (P := fun g' r => unsent n0 g' /\ exists u, r = Ok u).
    - eapply release_checked; eauto.
    - by intros g' [] [? _].
    - by intros ? ? [? [? ?]].
    - by intros ? [? [? ?]]. }
  destruct est as [[f0 t0]|e|]; [|apply Hrel|done].
  set (ft := if decide _ then _ else _). assert (Hcapped : ft.1 <= max_fee_cap cfg).
  { unfold ft. case_decide; cbn; lia. }
  destruct ft as [f t]. cbn in Hcapped.
  eapply checked_bind_io with (P := fun g' r => exists o, r = Ok o /\ sent f t g g' o);
    [|intros g' o (o' & [= <-] & [S1 S2 S3 S4 S5 S6 S7])|by intros ? ? (? & ? & _)|by intros ? (? & ? & _)].
  { apply checked_attempt. eapply checked_mono; [|apply broadcast_checked; try done; by rewrite ?Hf, ?Hnt]. eauto. }
  destruct o as [h|e|]; [|destruct S7 as (Hl' & Han & Hlow)|done].
  - destruct S7 as [Hl' Han]. split_and!; try done; try congruence. unfold counter_ok. rewrite S5, Hr.
    destruct (counter g) as [c|]; [|done]. destruct (Hc c eq_refl). right. left. by rewrite Hl'.
  - destruct (is_nonce_too_low_error e) eqn:Ee.
    + eapply checked_bind_io with (P := fun g' r => r <> Panic -> unsent n0 g');
        [|intros ? ? Hu; by apply Hu|intros ? ? Hu; by apply Hu|done].
      eapply checked_bind_io with (P := fun g' r => unsent n0 g' /\ match r with Ok _ => True | _ => False end);
        [|intros g2 r [Hu _]; destruct r; intros ?; done|by intros ? ? [? ?]|by intros ? [? ?]].
      apply checked_attempt. eapply (resync_checked n0 n); try done; [lia|by rewrite Hl'|by apply Hlow|by rewrite S5].
    + apply checked_bind_io with (P := fun g' r => unsent n0 g' /\ exists u, r = Ok u);
        [|by intros ? ? [? _]|by intros ? ? [? [? ?]]|by intros ? [? [? ?]]].
      assert (Htk' : taken n0 n g') by (split; [congruence..|by rewrite S5]).
      eapply release_checked; eauto.
Qed.

(** ** The whole worker *)
Lemma counter_ok_same n0 g : counter g = Some n0 -> counter_ok n0 g.
Proof. unfold counter_ok. intros ->. destruct resume; auto. Qed.

(** After the pre-flight cleared a resumed dispatch. *)
Lemma resumed_checked rounds signature n0 r g :
  resume = Some r -> submitted g = true -> used_nonce g = Some (resume_nonce r) ->
  latest g = Some (resume_tx_hash r, resume_max_fee_per_gas r, resume_max_priority_fee_per_gas r) ->
  last_fees g = Some (resume_max_fee_per_gas r, resume_max_priority_fee_per_gas r) ->
  announced g = true -> capped g = false -> counter g = Some n0 ->
  checked g
    (built ← attempt (build_preconfirm_tx (contract cfg) (verifier cfg) batch_index signature
                        (signer_addr cfg) (resume_nonce r));
     match built with
     | Panic => of_outcome Panic
     | Err e => _ ← mret tt; throw e
     | Ok template => rbf_enter cfg batch_index rounds template (resume_max_fee_per_gas r)
                        (resume_max_priority_fee_per_gas r) (resume_tx_hash r) false
     end) (result_ok n0).
Proof.
  intros Hr Hs Hn Hl Hf Ha Hc Hcn. pose proof (counter_ok_same n0 g Hcn) as Hco.
  eapply checked_bind_io with (P := fun g' o => g' = g /\ exists o', o = Ok o' /\
      match o' with Ok template => nonce template = resume_nonce r | _ => True end);
    [|intros g' o [-> (o' & [= <-] & Ho)]|by intros ? ? [? (? & ? & _)]|by intros ? [? (? & ? & _)]].
  { apply checked_attempt. eapply checked_mono; [|apply build_checked]. intros g' o [-> Ho]. eauto. }
  destruct o as [template|e|]; [|split; [done|intros Hr'; congruence]|by split].
  apply enter_checked; try done. by rewrite Ho.
Qed.

Lemma fresh_checked rounds signature n0 n g :
  resume = None -> 0 <= n0 < u64_max -> taken n0 n g -> last_fees g = None ->
  checked g
    (built ← attempt (build_preconfirm_tx (contract cfg) (verifier cfg) batch_index signature
                        (signer_addr cfg) n);
     match built with
     | Panic => of_outcome Panic
     | Err e => _ ← release n; throw e
     | Ok template =>
         first ← initial_broadcast cfg template n;
         let '(fee, tip, hash) := first in rbf_enter cfg batch_index rounds template fee tip hash true
     end) (result_ok n0).
Proof.
  intros Hr Hn0 Htk Hf.
  eapply checked_bind_io with (P := fun g' o => g' = g /\ exists o', o = Ok o' /\
      match o' with Ok template => nonce template = n | _ => True end);
    [|intros g' o [-> (o' & [= <-] & Ho)]|by intros ? ? [? (? & ? & _)]|by intros ? [? (? & ? & _)]].
  { apply checked_attempt. eapply checked_mono; [|apply build_checked]. intros g' o [-> Ho]. eauto. }
  destruct o as [template|e|]; [| |by split].
  - eapply checked_bind_io; [by apply (initial_checked n0 template n)| |intros g' e [Hl Hc]; by split|by split].
    intros g' [[f t] h] (Hs & Hn & Hl & Hlf & Hcap' & Hcp & Hco & Ha).
    apply enter_checked; try done. by rewrite Ho.
  - apply checked_bind_io with (P := fun g' r => unsent n0 g' /\ exists u, r = Ok u);
      [|by intros g' ? [[? ?] _]|by intros ? ? [? [? ?]]|by intros ? [? [? ?]]].
    eapply release_checked; eauto.
Qed.

Lemma run_checked rounds signature n0 :
  0 <= n0 < u64_max ->
  checked (init (Some n0)) (run_rbf_dispatch cfg batch_index rounds signature resume) (result_ok n0).
Proof.
  intros Hn0. unfold run_rbf_dispatch.
  assert (Hinit : latest (init (Some n0)) = None \/ resume <> None) by (unfold init; cbn; destruct resume; [right|left]; done).
  eapply checked_bind_io; [apply preflight_checked| | |by intros g [[b ->] _]].
  2:{ intros g e [[b ->] _]. split; [intros _; by apply counter_ok_same|]. intros Hr. by destruct Hinit. }
  intros g [out|] [[b ->] Hpost].
  { split; [intros _; by apply counter_ok_same|]. by destruct Hpost as [->|(h & b' & ->)]. }
  cbn [submitted] in Hpost. subst b.
  assert (Hcase : (exists r, resume = Some r) \/ resume = None) by (clear; destruct resume; eauto).
  destruct Hcase as [[r Er]|Er].
  - rewrite Er. refine (resumed_checked rounds signature n0 r _ Er _ _ _ _ _ _ _); cbn; by rewrite ?Er.
  - rewrite Er. apply checked_do; [cbn; by rewrite !Er|]. intros n. refine (fresh_checked rounds signature n0 n _ Er Hn0 _ _); cbn; [|by rewrite Er].
    split; cbn; rewrite ?Er; try done. intros c. case_decide as En; [|done]. intros [= <-].
    unfold u64, u64_max in *. rewrite Z.mod_small by lia. by split.
Qed.

(** C9: the dispatch worker keeps its protocol on every network.  Whatever
    the node, the signer and the clock answer, for any bump percentage and any
    cap the fee arithmetic can hold (100 times the cap fits 128 bits), a
    worker signs only after the pre-flight reported the batch as Submitted, always
    for the one nonce it took (or resumed), never above the fee cap and never
    below the fees of an earlier attempt that was within the cap; after a resumed
    attempt above the cap it signs at the cap, hence below that attempt; every
    accepted broadcast is announced to the main loop with its true hash and fees
    before the next is signed; only the newest broadcast's receipt is polled; and
    a nonce goes back to the allocator only before any broadcast.  A [Submitted]
    or [Reverted] result is backed by a receipt of the newest broadcast with that
    status, [AlreadyPreconfirmed] means that nothing was signed, an error means
    that nothing was broadcast, and the nonce counter ends where it was, one
    further with a broadcast to show for it, or past a nonce the chain reported
    used. *)
Theorem worker_protocol rounds signature n0 t r :
  0 <= n0 < u64_max -> exec (run_rbf_dispatch cfg batch_index rounds signature resume) t r ->
  respects allowed observe (init (Some n0)) t /\ result_ok n0 (after observe (init (Some n0)) t) r.
Proof. intros Hn0. by apply checked_sound, run_checked. Qed.
End Protocol.

(** ** A concrete run *)
Section Samples.

(** A toy ABI: words are single elements. *)
#[local] Instance sample_abi : RollupAbi := {|
  BatchCommitted_SIGNATURE_HASH := [1]; BatchSubmitted_SIGNATURE_HASH := [2];
  BatchPreconfirmed_SIGNATURE_HASH := [3]; BatchReverted_SIGNATURE_HASH := [4];
  BatchCommitted_decode log :=
    match data log with [i; f; t; n] => Ok (i, [f], [t], n) | _ => Err "invalid log"%string end;
  BatchSubmitted_decode log := match data log with [i] => Ok i | _ => Err "invalid log"%string end;
  BatchPreconfirmed_decode log := match data log with [i] => Ok i | _ => Err "invalid log"%string end;
  BatchReverted_decode log := match data log with [i] => Ok i | _ => Err "invalid log"%string end;
  getBatchCall_encode i := [i];
  getBatchCall_decode_returns raw := match raw with [s; a] => Ok (s, a) | _ => Err "invalid record"%string end;
  preconfirmBatchCall_encode v i s := v ++ i :: s;
  encode_2718 tx sig := tx_nonce tx :: tx_max_fee_per_gas tx :: sig |}.

Definition sample_cfg : RbfConfig := {|
  contract := [10]; verifier := [11]; signer_addr := [12]; bump_percent := 20;
  max_fee_cap := 500000000000 |}.

(** A network that mines the second broadcast; the state counts the calls, the
    nonce is 7. *)
Definition sample_answer {M} (R : Type) (c : L1Call M R) (polls : nat) : R * nat :=
  match c in L1Call _ R return R * nat with
  | EthCall _ _ => (Ok [SUBMITTED; 90], polls)
  | GetBlockNumber => (Ok 100, polls)
  | GetFinalizedBlock => (Ok (Some 95), polls)
  | GetLogs _ => (Ok [], polls)
  | GetL2BlockByHash _ => (Ok (Some 40), polls)
  | GetChainId => (Ok 1, polls)
  | EstimateGas _ _ _ => (Ok 100000, polls)
  | EstimateEip1559Fees => (Ok (20000000000, 1000000000), polls)
  | GetTransactionCountPending _ => (Ok 7, polls)
  | GetTransactionReceipt h =>
      match polls with
      | O => (Ok None, 1%nat)
      | S _ => (Ok (Some {| receipt_block_number := Some 101; receipt_status := true;
                            receipt_gas_used := 80000 |}), S polls)
      end
  | SignTransaction tx => (Ok [tx_nonce tx], polls)
  | SendRawTransaction raw => (Ok (100 :: raw), polls)
  | FetchAdd => (7, polls)
  | CompareExchange _ _ => (tt, polls)
  | Load => (8, polls)
  | Store _ => (tt, polls)
  | Now => (0, polls)
  | Sleep => (tt, polls)
  | SleepOrCancelled => (false, polls)
  | Send _ => (true, polls)
  | IsCancelled => (false, polls)
  | IsClosed => (false, polls)
  end.

Definition sample_run := run (fun R => @sample_answer _ R) (run_rbf_dispatch sample_cfg 5 3 [9] None) 0%nat.

(** A worker that resumes an attempt above the cap: the operator has lowered it. *)
Definition sample_resume : RbfResumeState := {|
  resume_nonce := 7; resume_tx_hash := [50];
  resume_max_fee_per_gas := 600000000000; resume_max_priority_fee_per_gas := 1000000000 |}.
Definition resumed_run := run (fun R => @sample_answer _ R) (run_rbf_dispatch sample_cfg 5 3 [9] (Some sample_resume)) 0%nat.

Lemma worker_protocol_witness :
  (sample_run.1.1 = Ok (Some (Submitted [100; 7; 24000000000; 7] 101)) /\
   respects (allowed sample_cfg 5 None) observe (init None (Some 7)) sample_run.1.2 /\
   result_ok None 7 (after observe (init None (Some 7)) sample_run.1.2) sample_run.1.1) /\
  (resumed_run.1.1 = Ok (Some (Submitted [100; 7; 500000000000; 7] 101)) /\
   respects (allowed sample_cfg 5 (Some sample_resume)) observe (init (Some sample_resume) (Some 7)) resumed_run.1.2 /\
   result_ok (Some sample_resume) 7 (after observe (init (Some sample_resume) (Some 7)) resumed_run.1.2) resumed_run.1.1).
Proof.
  assert (Hp : 0 <= bump_percent sample_cfg) by (cbn; lia).
  assert (Hc : 100 * max_fee_cap sample_cfg <= u128_max) by (vm_compute; intros E; discriminate E).
  split; (split; [vm_compute; reflexivity|]).
  - apply (worker_protocol sample_cfg 5 None Hp Hc 3%nat [9]); [unfold u64_max; lia|].
    exact (run_sound (fun R => @sample_answer _ R) (run_rbf_dispatch sample_cfg 5 3 [9] None) 0%nat).
  - apply (worker_protocol sample_cfg 5 (Some sample_resume) Hp Hc 3%nat [9]); [unfold u64_max; lia|].
    exact (run_sound (fun R => @sample_answer _ R) (run_rbf_dispatch sample_cfg 5 3 [9] (Some sample_resume)) 0%nat).
Defined.
End Samples.

(** ** A cap lowered below a stored fee

    A replacement must pay more than what it replaces; bumping fees above the
    cap pays less. *)
Lemma bump_above_cap f t percent cap : cap < f ->
  (bump_fees f t percent cap).1.1 < f.
Proof.
  intros Hlt. unfold bump_fees. cbn [fst snd]. lia.
Qed.
