(* ===== verification/RbfTermination.v ===== *)
(** * The dispatch worker gives up

    On a network that answers and never mines, with a clock that runs, the
    worker climbs to the fee cap and returns within a computed number of
    rounds. *)
From S2P Require Import Prelude Interaction Text RollupClient Rbf RbfSpec.
From stdpp Require Import strings.
#[local] Open Scope Z_scope.

Section Termination.
Context `{RollupAbi}.
Abbreviation message := (Z * RbfBumpEvent)%type.
Context (cfg : RbfConfig) (batch_index : Z).
Context (interval : Z).

(** The least time the clock can show, in milliseconds: a sleep takes at least
    [interval], and the clock never runs backwards.  [None] once the network
    was unfair: a clock gone back, a failed or malformed receipt query. *)
Definition tick (R : Type) (clock : option Z) (c : L1Call message R) : R -> option Z :=
  match c in L1Call _ R return R -> option Z with
  | SleepOrCancelled => fun _ => Z.add interval <$> clock
  | Now => fun now => clock ≫= fun from => if decide (from <= now) then Some now else None
  | GetTransactionReceipt _ => fun r =>
      match r with
      | Ok None => clock
      | Ok (Some receipt) => if receipt_block_number receipt then clock else None
      | _ => None
      end
  | _ => fun _ => clock
  end.

Definition fair (clock : Z) (t : list (event (L1Call message))) : Prop :=
  after tick (Some clock) t <> None.

(** The fees reach the cap within [k + 1] bumps. *)
Fixpoint climbs (k : nat) (fee tip : Z) : bool :=
  let '(fee', tip', clamped) := bump_fees fee tip (bump_percent cfg) (max_fee_cap cfg) in
  clamped || match k with O => false | S k => climbs k fee' tip' end.

(** Any fee of which the bump is at least one unit reaches the cap. *)
Lemma climbs_enough fee tip :
  100 <= fee * bump_percent cfg -> 0 <= bump_percent cfg -> 100 * max_fee_cap cfg <= u128_max ->
  exists k, climbs k fee tip = true.
Proof.
  intros Hf Hp Hcap.
  assert (Hclimb : forall n fee tip, 100 <= fee * bump_percent cfg -> 0 < fee -> max_fee_cap cfg - fee <= Z.of_nat n ->
    exists k, climbs k fee tip = true).
  { clear fee tip Hf. induction n as [|n IH]; intros fee tip Hf Hpos Hn;
      destruct (bump_fees fee tip (bump_percent cfg) (max_fee_cap cfg)) as [[f t] c] eqn:E;
      pose proof E as E'; unfold bump_fees, sat_mul128 in E'; injection E' as Ef Et Ec;
      set (nf := Z.min (fee * (100 + bump_percent cfg)) u128_max / 100) in *;
      assert (Hnf : fee + 1 <= nf \/ max_fee_cap cfg <= nf)
        by (unfold nf; destruct (Z.min_spec (fee * (100 + bump_percent cfg)) u128_max) as [[? ->]|[? ->]];
            [left; apply Z.div_le_lower_bound; lia|right; apply Z.div_le_lower_bound; lia]).
    - exists 0%nat. cbn [climbs]. rewrite E, <- Ec, orb_false_r. apply bool_decide_eq_true. lia.
    - destruct (decide (max_fee_cap cfg <= nf)) as [Hc|Hc].
      + exists 0%nat. cbn [climbs]. rewrite E, <- Ec, orb_false_r. by apply bool_decide_eq_true.
      + destruct (IH f t) as [k Hk]; [subst f; nia|lia|lia|].
        exists (S k). cbn [climbs]. rewrite E, Hk. apply orb_true_r. }
  apply (Hclimb (Z.to_nat (max_fee_cap cfg - fee))); [done|nia|lia].
Qed.

Definition always (R : Type) (clock : option Z) (c : L1Call message R) : Prop := True.
Abbreviation checked := (checked always tick).
Abbreviation io := (eff (L1Call message) string).

Lemma checked_unfair {A} (p : prog (L1Call message) A) (Q : option Z -> A -> Prop) :
  (forall a, Q None a) -> checked None p Q.
Proof.
  intros HQ. induction p as [a|R c k IH]; [apply HQ|]. split; [done|]. intros r.
  assert (E : tick R None c r = None).
  { destruct c; try reflexivity. cbn. destruct r as [[receipt|]|e|]; try reflexivity.
    by destruct (receipt_block_number receipt). }
  rewrite E. apply IH.
Qed.

(** Unless the network was unfair, a worker that goes on is in a state [next]
    describes. *)
Definition lands (next : Z -> RbfLoop -> Prop) (clock : option Z)
    (r : outcome string (RbfLoop + DispatchOutcome)) : Prop :=
  match clock, r with
  | Some c, Ok (inl st) => next c st
  | _, _ => True
  end.

Lemma rebroadcast_lands template st c (next : Z -> RbfLoop -> Prop) :
  (forall h, next c {| fee := fee st; tip := tip st; at_cap_logged := at_cap_logged st;
                       stuck_at_cap_since := stuck_at_cap_since st; current_hash := h |}) ->
  checked (Some c) (rebroadcast batch_index template st) (lands next).
Proof.
  intros Hnext. assert (Hst : next c st) by (specialize (Hnext (current_hash st)); by destruct st).
  assert (Hpoll : forall r : outcome string (option Receipt), checked (tick _ (Some c)
      (GetTransactionReceipt (current_hash st)) r) (match r with
        | Ok (Some receipt) =>
            match receipt_block_number receipt with
            | None => mret (inl st)
            | Some l1_block => mret (inr (outcome_of_receipt template (current_hash st) l1_block receipt))
            end
        | Panic => of_outcome Panic
        | _ => mret (inr Failed) end : io _) (lands next)).
  { intros [[receipt|]|e'|]; cbn; try done. by destruct (receipt_block_number receipt). }
  split; [done|]. intros [sig|e|]; [split; [done|]; intros [h|e|]|..]; cbn.
  - split; [done|]. intros [|]; [apply Hnext|done].
  - destruct (is_nonce_too_low_error _); [split; [done|exact Hpoll]|done].
  - done.
  - destruct (is_nonce_too_low_error _); [split; [done|exact Hpoll]|done].
  - done.
Qed.

(** Pinned at the cap, with at most [m] intervals to go. *)
Definition pinned (m : nat) (c : Z) (st : RbfLoop) : Prop :=
  exists since, stuck_at_cap_since st = Some since /\
    STUCK_AT_CAP_TIMEOUT - (c - since) <= Z.of_nat m * interval.

Definition patience : nat := Z.to_nat (STUCK_AT_CAP_TIMEOUT / interval + 1).

Hypothesis Hinterval : 0 < interval.

Lemma patience_enough : STUCK_AT_CAP_TIMEOUT <= Z.of_nat patience * interval.
Proof.
  unfold patience, STUCK_AT_CAP_TIMEOUT. pose proof (Z.div_pos 300000 interval). 
  rewrite Z2Nat.id by lia. pose proof (Z.mul_succ_div_gt 300000 interval). lia.
Qed.

(** A bump keeps the stamp, or stamps the present when it reaches the cap. *)
Lemma bump_lands template st c (next : Z -> RbfLoop -> Prop) :
  (let '(f, t, clamped) := bump_fees (fee st) (tip st) (bump_percent cfg) (max_fee_cap cfg) in
   forall c' st', c <= c' -> fee st' = f -> tip st' = t ->
     stuck_at_cap_since st' =
       (match stuck_at_cap_since st with
        | Some since => Some since
        | None => if clamped : bool then Some c' else None
        end) -> next c' st') ->
  checked (Some c) (bump cfg batch_index template st) (lands next).
Proof.
  unfold bump. destruct (bump_fees _ _ _ _) as [[f t] clamped]. intros Hnext.
  assert (Hsend : forall c' logged since,
    (forall h lg, next c' {| fee := f; tip := t; at_cap_logged := lg; stuck_at_cap_since := since; current_hash := h |}) ->
    checked (Some c') ((if (logged : bool) then rebroadcast batch_index template
        {| fee := f; tip := t; at_cap_logged := true; stuck_at_cap_since := since; current_hash := current_hash st |}
      else open ← do (Send (batch_index, CapReached (max_fee_cap cfg)));
        if (open : bool) then rebroadcast batch_index template
          {| fee := f; tip := t; at_cap_logged := true; stuck_at_cap_since := since; current_hash := current_hash st |}
        else mret (inr Failed)) : io _) (lands next)).
  { intros c' logged since Hn. destruct logged; [by apply rebroadcast_lands|].
    split; [done|]. intros [|]; [|done]. by apply rebroadcast_lands. }
  destruct clamped.
  - destruct (stuck_at_cap_since st) as [since|].
    + apply Hsend. intros h lg. by apply Hnext.
    + split; [done|]. intros now. cbn [tick mbind option_bind]. case_decide as Ec; cbn [mbind option_bind].
      * apply Hsend. intros h lg. by apply Hnext.
      * by apply checked_unfair.
  - apply rebroadcast_lands. intros h. apply Hnext; try done. by destruct (stuck_at_cap_since st).
Qed.

#[local] Opaque bump bump_fees.

(** One round: pinned, an interval passes or the worker returns; climbing, a
    bump is made, and the cap pins the worker. *)
Lemma pinned_round template m c st :
  pinned m c st -> checked (Some c) (rbf_round cfg batch_index template st)
    (lands (fun c' st' => exists m', m = S m' /\ pinned m' c' st')).
Proof.
  intros (since & Est & Hm). split; [done|]. intros [|]; [done|].
  split; [done|]. intros [[receipt|]|e|]; cbn; [by destruct (receipt_block_number receipt)|..|done|done].
  rewrite Est. split; [done|]. intros now. cbn. case_decide as Enow; [|by apply checked_unfair].
  case_decide as Eout; [done|]. apply bump_lands. destruct (bump_fees _ _ _ _) as [[f t] clamped].
  intros c' st' Hc _ _ Est'. rewrite Est in Est'. destruct m as [|m]; [lia|].
  exists m. split; [done|]. exists since. split; [done|]. lia.
Qed.

Lemma climbing_round template k c st :
  stuck_at_cap_since st = None -> climbs k (fee st) (tip st) = true ->
  checked (Some c) (rbf_round cfg batch_index template st)
    (lands (fun c' st' => pinned patience c' st' \/
       (stuck_at_cap_since st' = None /\ exists k', k = S k' /\ climbs k' (fee st') (tip st') = true))).
Proof.
  intros Est Hk. split; [done|]. intros [|]; [done|].
  split; [done|]. intros [[receipt|]|e|]; cbn; [by destruct (receipt_block_number receipt)|..|done|done].
  rewrite Est. apply bump_lands. destruct k as [|k]; cbn [climbs] in Hk;
    destruct (bump_fees _ _ _ _) as [[f t] clamped]; intros c' st' Hc Ef Et Est'; rewrite Est in Est';
    (destruct clamped; [left; exists c'; split; [done|]; pose proof patience_enough; lia|]); [done|].
  right. split; [done|]. exists k. by rewrite Ef, Et.
Qed.

Definition returned (clock : option Z) (r : outcome string (option DispatchOutcome)) : Prop :=
  clock <> None -> r <> Ok None.

Lemma pinned_loop template rounds : forall m c st,
  pinned m c st -> (m < rounds)%nat ->
  checked (Some c) (rbf_loop cfg batch_index rounds template st) returned.
Proof.
  induction rounds as [|rounds IH]; intros m c st Hp Hm; [lia|]. apply checked_eff_bind.
  eapply checked_mono; [|by apply pinned_round]. intros [c'|] [[st'|out]|e|]; cbn; try done.
  - intros (m' & -> & Hp'). apply (IH m'); [done|lia].
  - intros _. apply checked_unfair. intros a Hc. by destruct Hc.
Qed.

Lemma climbing_loop template rounds : forall k c st,
  stuck_at_cap_since st = None -> climbs k (fee st) (tip st) = true -> (k + patience + 1 < rounds)%nat ->
  checked (Some c) (rbf_loop cfg batch_index rounds template st) returned.
Proof.
  induction rounds as [|rounds IH]; intros k c st Est Hk Hm; [lia|]. apply checked_eff_bind.
  eapply checked_mono; [|by apply (climbing_round template k)]. intros [c'|] [[st'|out]|e|]; cbn; try done.
  - intros [Hp|(Est' & k' & -> & Hk')]; [apply (pinned_loop template rounds patience); [done|lia]|].
    apply (IH k'); [done..|lia].
  - intros _. apply checked_unfair. intros a Hc. by destruct Hc.
Qed.

(** C32: the worker gives up.  From fees of which one bump is at least a unit,
    the cap is reached within some [k + 1] bumps; and whenever the receipts are
    answered and the clock runs, the worker has returned after
    [k + 300000 / interval + 3] rounds, whatever else the network answers. *)
Theorem worker_gives_up template st :
  stuck_at_cap_since st = None -> 100 <= fee st * bump_percent cfg -> 0 <= bump_percent cfg ->
  100 * max_fee_cap cfg <= u128_max ->
  (exists k, climbs k (fee st) (tip st) = true) /\
  (forall k rounds clock t r,
     climbs k (fee st) (tip st) = true -> (k + patience + 1 < rounds)%nat -> fair clock t ->
     exec (rbf_loop cfg batch_index rounds template st) t r -> r <> Ok None).
Proof.
  intros Est Hf Hp Hcap. split; [by apply climbs_enough|]. intros k rounds clock t r Hk Hr Hfair E.
  by apply (checked_sound always tick _ returned t r (Some clock)) in E as [_ E]; [apply E|eapply climbing_loop].
Qed.
End Termination.

(** ** A network that never mines: the state is the clock. *)
Section Samples.
#[local] Existing Instance sample_abi.

Definition silent_answer {M} (R : Type) (c : L1Call M R) (clock : Z) : R * Z :=
  match c in L1Call _ R return R * Z with
  | SleepOrCancelled => (false, clock + 15000)
  | Now => (clock, clock)
  | GetTransactionReceipt _ => (Ok None, clock)
  | c => ((sample_answer _ c 0%nat).1, clock)
  end.

Definition sample_template : PreconfirmTxTemplate := {|
  to := [10]; input := [11; 5; 9]; nonce := 7; gas_limit := 120000; chain_id := 1; batch_index := 5 |}.
Definition sample_loop : RbfLoop := {|
  fee := 20000000000; tip := 1000000000; at_cap_logged := false; stuck_at_cap_since := None;
  current_hash := [100] |}.
Definition silent_run :=
  run (fun R => @silent_answer _ R) (rbf_loop sample_cfg 5 60 sample_template sample_loop) 0.

Lemma worker_gives_up_witness :
  climbs sample_cfg 17 (fee sample_loop) (tip sample_loop) = true /\ silent_run.1.1 <> Ok None.
Proof.
  assert (Hk : climbs sample_cfg 17 (fee sample_loop) (tip sample_loop) = true) by (vm_compute; reflexivity).
  split; [exact Hk|].
  apply (proj2 (worker_gives_up sample_cfg 5 15000 ltac:(lia) sample_template sample_loop eq_refl
    ltac:(vm_compute; discriminate) ltac:(vm_compute; discriminate) ltac:(vm_compute; discriminate)))
    with (k := 17%nat) (rounds := 60%nat) (clock := 0) (t := silent_run.1.2).
  - exact Hk.
  - apply (bool_decide_unpack _). vm_compute. exact I.
  - vm_compute. discriminate.
  - exact (run_sound (fun R => @silent_answer _ R) (rbf_loop sample_cfg 5 60 sample_template sample_loop) 0).
Defined.
End Samples.
