(* ===== verification/Orchestrator.v ===== *)
(** * The orchestrator's main loop: state and handlers
      ([bin/witness-orchestrator/src/orchestrator.rs])

    The main loop owns the accumulator and the gates that keep one signing,
    one fresh dispatch and one finalization check in flight.  A handler maps a
    state to a state; [tasks] are the tasks it has spawned and that have not
    reported yet.  [o] gives the outcomes of a handler's SQL calls, [now] the
    clock in milliseconds.  Logs and metrics are left out. *)
From S2P Require Import Prelude NitroTypes Db Accumulator RollupClient Rbf.
From stdpp Require Import strings.
#[local] Open Scope Z_scope.

(** [RECEIPT_MISSING_WINDOW], in milliseconds. *)
Definition RECEIPT_MISSING_WINDOW : Z := 600000.

Inductive SignOutcome : Type :=
  | Signed (response : SubmitBatchResponse)
  | InvalidSignatures (invalid_blocks : list Z) (enclave_address : list Z)
  | SignTaskFailed.

Inductive ReceiptCheck : Type :=
  | Found
  | CheckReverted (kind : RevertKind)
  | Missing
  | CheckFailed.

Inductive FinalizationDone : Type :=
  | Observed (observations : list (Z * list Z * ReceiptCheck))
  | NoOp
  | FinalizationTaskFailed.

(** [enum L1Event] ([l1_listener.rs]). *)
Inductive L1Event : Type :=
  | BatchCommitted (batch_index from to_ : Z)
  | BatchSubmitted (batch_index : Z)
  | BatchPreconfirmed (batch_index : Z) (tx_hash : list Z) (l1_block : Z)
  | BatchReverted (from_batch_index l1_block : Z)
  | Checkpoint (l1_block : Z).

Record BlockResult : Type := { result_block_number : Z; result_response : EthExecutionResponse }.

(** The tasks the main loop spawns. *)
Inductive task : Type :=
  | SignTask (batch_index from_block to_block : Z) (responses : list EthExecutionResponse)
  | RbfTask (batch_index : Z) (signature : list Z) (resume : option RbfResumeState)
  | KeyCheckTask (addr : list Z) (delay : option Z) (attempts : Z)
  | ReExecution (block_number : Z)
  | FinalizationTask (snapshot : list (Z * list Z * Z)).

Record OrchestratorState : Type := {
  accumulator : BatchAccumulator;
  checkpoint : Z;
  confirmed : gset Z;
  signing_batch : option Z;
  dispatching_batch : option Z;
  finalization_in_flight : bool;
  global_dispatch_attempts : Z;
  global_next_dispatch_allowed : option Z;
  pending_key_check : option (list Z);
  key_check_attempts : Z;
  known_responses : gset Z;
  last_batch_end : option Z;
  dispatch_cancel : gset Z;
  shutdown : bool;
  missing_receipt_first_seen : gmap Z Z;
  tasks : list task }.

(** ** Field updates *)

Definition on_accumulator f (s : OrchestratorState) : OrchestratorState := Build_OrchestratorState
  (f (accumulator s)) (checkpoint s) (confirmed s) (signing_batch s) (dispatching_batch s)
  (finalization_in_flight s) (global_dispatch_attempts s) (global_next_dispatch_allowed s)
  (pending_key_check s) (key_check_attempts s) (known_responses s) (last_batch_end s)
  (dispatch_cancel s) (shutdown s) (missing_receipt_first_seen s) (tasks s).
Definition on_checkpoint f (s : OrchestratorState) : OrchestratorState := Build_OrchestratorState
  (accumulator s) (f (checkpoint s)) (confirmed s) (signing_batch s) (dispatching_batch s)
  (finalization_in_flight s) (global_dispatch_attempts s) (global_next_dispatch_allowed s)
  (pending_key_check s) (key_check_attempts s) (known_responses s) (last_batch_end s)
  (dispatch_cancel s) (shutdown s) (missing_receipt_first_seen s) (tasks s).
Definition on_confirmed f (s : OrchestratorState) : OrchestratorState := Build_OrchestratorState
  (accumulator s) (checkpoint s) (f (confirmed s)) (signing_batch s) (dispatching_batch s)
  (finalization_in_flight s) (global_dispatch_attempts s) (global_next_dispatch_allowed s)
  (pending_key_check s) (key_check_attempts s) (known_responses s) (last_batch_end s)
  (dispatch_cancel s) (shutdown s) (missing_receipt_first_seen s) (tasks s).
Definition on_signing_batch f (s : OrchestratorState) : OrchestratorState := Build_OrchestratorState
  (accumulator s) (checkpoint s) (confirmed s) (f (signing_batch s)) (dispatching_batch s)
  (finalization_in_flight s) (global_dispatch_attempts s) (global_next_dispatch_allowed s)
  (pending_key_check s) (key_check_attempts s) (known_responses s) (last_batch_end s)
  (dispatch_cancel s) (shutdown s) (missing_receipt_first_seen s) (tasks s).
Definition on_dispatching_batch f (s : OrchestratorState) : OrchestratorState :=
  Build_OrchestratorState (accumulator s) (checkpoint s) (confirmed s) (signing_batch s) (f
  (dispatching_batch s)) (finalization_in_flight s) (global_dispatch_attempts s)
  (global_next_dispatch_allowed s) (pending_key_check s) (key_check_attempts s) (known_responses s)
  (last_batch_end s) (dispatch_cancel s) (shutdown s) (missing_receipt_first_seen s) (tasks s).
Definition on_finalization_in_flight f (s : OrchestratorState) : OrchestratorState :=
  Build_OrchestratorState (accumulator s) (checkpoint s) (confirmed s) (signing_batch s)
  (dispatching_batch s) (f (finalization_in_flight s)) (global_dispatch_attempts s)
  (global_next_dispatch_allowed s) (pending_key_check s) (key_check_attempts s) (known_responses s)
  (last_batch_end s) (dispatch_cancel s) (shutdown s) (missing_receipt_first_seen s) (tasks s).
Definition on_global_dispatch_attempts f (s : OrchestratorState) : OrchestratorState :=
  Build_OrchestratorState (accumulator s) (checkpoint s) (confirmed s) (signing_batch s)
  (dispatching_batch s) (finalization_in_flight s) (f (global_dispatch_attempts s))
  (global_next_dispatch_allowed s) (pending_key_check s) (key_check_attempts s) (known_responses s)
  (last_batch_end s) (dispatch_cancel s) (shutdown s) (missing_receipt_first_seen s) (tasks s).
Definition on_global_next_dispatch_allowed f (s : OrchestratorState) : OrchestratorState :=
  Build_OrchestratorState (accumulator s) (checkpoint s) (confirmed s) (signing_batch s)
  (dispatching_batch s) (finalization_in_flight s) (global_dispatch_attempts s) (f
  (global_next_dispatch_allowed s)) (pending_key_check s) (key_check_attempts s) (known_responses s)
  (last_batch_end s) (dispatch_cancel s) (shutdown s) (missing_receipt_first_seen s) (tasks s).
Definition on_pending_key_check f (s : OrchestratorState) : OrchestratorState :=
  Build_OrchestratorState (accumulator s) (checkpoint s) (confirmed s) (signing_batch s)
  (dispatching_batch s) (finalization_in_flight s) (global_dispatch_attempts s)
  (global_next_dispatch_allowed s) (f (pending_key_check s)) (key_check_attempts s) (known_responses
  s) (last_batch_end s) (dispatch_cancel s) (shutdown s) (missing_receipt_first_seen s) (tasks s).
Definition on_key_check_attempts f (s : OrchestratorState) : OrchestratorState :=
  Build_OrchestratorState (accumulator s) (checkpoint s) (confirmed s) (signing_batch s)
  (dispatching_batch s) (finalization_in_flight s) (global_dispatch_attempts s)
  (global_next_dispatch_allowed s) (pending_key_check s) (f (key_check_attempts s)) (known_responses
  s) (last_batch_end s) (dispatch_cancel s) (shutdown s) (missing_receipt_first_seen s) (tasks s).
Definition on_known_responses f (s : OrchestratorState) : OrchestratorState :=
  Build_OrchestratorState (accumulator s) (checkpoint s) (confirmed s) (signing_batch s)
  (dispatching_batch s) (finalization_in_flight s) (global_dispatch_attempts s)
  (global_next_dispatch_allowed s) (pending_key_check s) (key_check_attempts s) (f (known_responses
  s)) (last_batch_end s) (dispatch_cancel s) (shutdown s) (missing_receipt_first_seen s) (tasks s).
Definition on_last_batch_end f (s : OrchestratorState) : OrchestratorState :=
  Build_OrchestratorState (accumulator s) (checkpoint s) (confirmed s) (signing_batch s)
  (dispatching_batch s) (finalization_in_flight s) (global_dispatch_attempts s)
  (global_next_dispatch_allowed s) (pending_key_check s) (key_check_attempts s) (known_responses s)
  (f (last_batch_end s)) (dispatch_cancel s) (shutdown s) (missing_receipt_first_seen s) (tasks s).
Definition on_dispatch_cancel f (s : OrchestratorState) : OrchestratorState :=
  Build_OrchestratorState (accumulator s) (checkpoint s) (confirmed s) (signing_batch s)
  (dispatching_batch s) (finalization_in_flight s) (global_dispatch_attempts s)
  (global_next_dispatch_allowed s) (pending_key_check s) (key_check_attempts s) (known_responses s)
  (last_batch_end s) (f (dispatch_cancel s)) (shutdown s) (missing_receipt_first_seen s) (tasks s).
Definition on_shutdown f (s : OrchestratorState) : OrchestratorState := Build_OrchestratorState
  (accumulator s) (checkpoint s) (confirmed s) (signing_batch s) (dispatching_batch s)
  (finalization_in_flight s) (global_dispatch_attempts s) (global_next_dispatch_allowed s)
  (pending_key_check s) (key_check_attempts s) (known_responses s) (last_batch_end s)
  (dispatch_cancel s) (f (shutdown s)) (missing_receipt_first_seen s) (tasks s).
Definition on_missing_receipt_first_seen f (s : OrchestratorState) : OrchestratorState :=
  Build_OrchestratorState (accumulator s) (checkpoint s) (confirmed s) (signing_batch s)
  (dispatching_batch s) (finalization_in_flight s) (global_dispatch_attempts s)
  (global_next_dispatch_allowed s) (pending_key_check s) (key_check_attempts s) (known_responses s)
  (last_batch_end s) (dispatch_cancel s) (shutdown s) (f (missing_receipt_first_seen s)) (tasks s).
Definition on_tasks f (s : OrchestratorState) : OrchestratorState := Build_OrchestratorState
  (accumulator s) (checkpoint s) (confirmed s) (signing_batch s) (dispatching_batch s)
  (finalization_in_flight s) (global_dispatch_attempts s) (global_next_dispatch_allowed s)
  (pending_key_check s) (key_check_attempts s) (known_responses s) (last_batch_end s)
  (dispatch_cancel s) (shutdown s) (missing_receipt_first_seen s) (f (tasks s)).

Definition set_signing_batch b := on_signing_batch (fun _ => b).
Definition set_dispatching_batch b := on_dispatching_batch (fun _ => b).
Definition db_call (f : Db -> Db) : OrchestratorState -> OrchestratorState := on_accumulator (persist f).

(** [tokio::spawn]. *)
Definition spawn (t : task) : OrchestratorState -> OrchestratorState := on_tasks (fun ts => ts ++ [t]).

(** ** Starting work *)

Definition try_sign_next_batch (s : OrchestratorState) : OrchestratorState :=
  match signing_batch s with
  | Some _ => s
  | None =>
      match first_ready_unsigned (accumulator s) with
      | None => s
      | Some batch_index =>
          match batches (accumulator s) !! batch_index with
          | None => s
          | Some batch =>
              let responses := get_responses (pb_from_block batch) (pb_to_block batch) (accumulator s) in
              spawn (SignTask batch_index (pb_from_block batch) (pb_to_block batch) responses)
                (set_signing_batch (Some batch_index) s)
          end
      end
  end.

Definition spawn_rbf_worker (batch_index : Z) (signature : list Z) (resume : option RbfResumeState)
    (s : OrchestratorState) : OrchestratorState :=
  spawn (RbfTask batch_index signature resume) (on_dispatch_cancel (fun c => {[ batch_index ]} ∪ c) s).

Definition spawn_rbf_resume (batch_index : Z) (signature : list Z) (resume : RbfResumeState)
  : OrchestratorState -> OrchestratorState := spawn_rbf_worker batch_index signature (Some resume).

Definition try_dispatch_next_batch (now : Z) (s : OrchestratorState) : OrchestratorState :=
  match dispatching_batch s with
  | Some _ => s
  | None =>
      if match global_next_dispatch_allowed s with
         | Some allowed_at => bool_decide (now < allowed_at)
         | None => false
         end then s
      else
        match pending_key_check s with
        | Some _ => s
        | None =>
            match first_sequential_signed (accumulator s) with
            | None => s
            | Some (batch_index, signature) =>
                spawn_rbf_worker batch_index signature None (set_dispatching_batch (Some batch_index) s)
            end
        end
  end.

Definition spawn_key_check (addr : list Z) (delay : option Z) (s : OrchestratorState) : OrchestratorState :=
  spawn (KeyCheckTask addr delay (key_check_attempts s)) s.

Definition spawn_re_execution (block_number : Z) : OrchestratorState -> OrchestratorState :=
  spawn (ReExecution block_number).

Definition u32 (z : Z) : Z := z mod 2 ^ 32.

Definition apply_dispatch_backoff (now : Z) (s : OrchestratorState) : OrchestratorState :=
  let s := on_global_dispatch_attempts (fun n => u32 (n + 1)) s in
  let delay_secs := Z.min (10 * global_dispatch_attempts s) 300 in
  on_global_next_dispatch_allowed (fun _ => Some (now + 1000 * delay_secs)) s.

Definition clear_backoff (s : OrchestratorState) : OrchestratorState :=
  on_global_next_dispatch_allowed (fun _ => None) (on_global_dispatch_attempts (fun _ => 0) s).

(** ** Execution results *)

(** [while self.confirmed.contains(&(self.checkpoint + 1))]. *)
Fixpoint advance (fuel : nat) (s : OrchestratorState) : OrchestratorState :=
  match fuel with
  | O => s
  | S fuel =>
      if decide (u64 (checkpoint s + 1) ∈ confirmed s) then
        let s := on_checkpoint (fun c => u64 (c + 1)) s in
        advance fuel (on_confirmed (fun c => c ∖ {[ checkpoint s ]}) s)
      else s
  end.

Definition on_block_result (o : nat -> outcomes) (now : Z) (result : BlockResult)
    (s : OrchestratorState) : OrchestratorState :=
  let block_number := result_block_number result in
  if decide (block_number ∈ known_responses s) then s
  else if match last_batch_end s with
          | Some lbe => bool_decide (block_number <= lbe)
          | None => false
          end then s
  else
    let s := on_accumulator (insert_response (o 0%nat) (result_response result)) s in
    let s := on_known_responses (fun k => {[ block_number ]} ∪ k) s in
    let s := on_confirmed (fun c => {[ block_number ]} ∪ c) s in
    let s := advance (S (base.size (confirmed s))) s in
    let s := db_call (save_checkpoint (o 1%nat) (checkpoint s)) s in
    try_dispatch_next_batch now (try_sign_next_batch s).

(** ** L1 events *)

Definition on_l1_event (o : nat -> outcomes) (now : Z) (event : L1Event) (s : OrchestratorState)
  : OrchestratorState :=
  match event with
  | BatchCommitted batch_index from to_ => on_accumulator (set_batch (o 0%nat) (o 1%nat) batch_index from to_) s
  | BatchSubmitted batch_index => on_accumulator (mark_batch_submitted (o 0%nat) batch_index) s
  | BatchPreconfirmed batch_index tx_hash l1_block =>
      let s := on_accumulator (mark_dispatched_external (o 0%nat) batch_index tx_hash l1_block) s in
      try_dispatch_next_batch now (clear_backoff s)
  | Checkpoint l1_block => db_call (save_l1_checkpoint (o 0%nat) l1_block) s
  | BatchReverted from_batch_index l1_block =>
      let s := db_call (wipe_for_revert (o 0%nat) from_batch_index (u64 (l1_block + 1))) s in
      on_shutdown (fun _ => true) s
  end.

(** ** Signing *)

Definition on_sign_done (o : nat -> outcomes) (now : Z) (batch_index : Z) (outcome : SignOutcome)
    (s : OrchestratorState) : OrchestratorState :=
  let s := set_signing_batch None s in
  match outcome with
  | Signed response =>
      let s := on_accumulator (cache_signature batch_index response) s in
      let s := match batches (accumulator s) !! batch_index with
               | Some batch =>
                   let blocks := range_incl (pb_from_block batch) (pb_to_block batch) in
                   on_accumulator (purge_responses (o 0%nat) blocks) s
               | None => s
               end in
      try_dispatch_next_batch now (try_sign_next_batch s)
  | InvalidSignatures invalid_blocks enclave_address =>
      let s := on_accumulator (purge_responses (o 0%nat) invalid_blocks) s in
      let s := on_accumulator (delete_batch_signature (o 1%nat) batch_index) s in
      let s := on_known_responses (fun k => k ∖ list_to_set invalid_blocks) s in
      let s := foldl (fun s b => spawn_re_execution b s) s invalid_blocks in
      let s := on_pending_key_check (fun _ => Some enclave_address) s in
      let s := on_key_check_attempts (fun _ => 0) s in
      spawn_key_check enclave_address None s
  | SignTaskFailed => s
  end.

(** The [key_check_rx] arm of the main loop. *)
Definition on_key_check (now : Z) (addr : list Z) (registered : bool) (s : OrchestratorState)
  : OrchestratorState :=
  if registered then
    let s := on_pending_key_check (fun _ => None) s in
    let s := on_key_check_attempts (fun _ => 0) s in
    try_dispatch_next_batch now (try_sign_next_batch s)
  else
    let s := on_key_check_attempts (fun n => u64 (n + 1)) s in
    spawn_key_check addr (Some 10000) s.

(** [is_log_worthy]: attempts 1, 2, 4, 8, ... *)
Definition is_log_worthy (attempts : Z) : bool :=
  bool_decide (0 < attempts) && bool_decide (2 ^ Z.log2 attempts = attempts).

(** ** Dispatching *)

Definition on_dispatch_done (o : nat -> outcomes) (now : Z) (batch_index : Z) (outcome : DispatchOutcome)
    (s : OrchestratorState) : OrchestratorState :=
  let s := if decide (dispatching_batch s = Some batch_index) then set_dispatching_batch None s else s in
  let s := on_dispatch_cancel (fun c => c ∖ {[ batch_index ]}) s in
  match outcome with
  | Submitted tx_hash l1_block =>
      let s := clear_backoff s in
      let s := on_accumulator (record_dispatched_l1_block (o 0%nat) batch_index l1_block) s in
      try_dispatch_next_batch now s
  | Reverted tx_hash kind =>
      let s := on_accumulator (fun a => (undispatch (o 0%nat) batch_index a).2) s in
      match kind with
      | Oog => try_dispatch_next_batch now s
      | Logic => apply_dispatch_backoff now s
      end
  | AlreadyPreconfirmed tx_hash l1_block =>
      let s := clear_backoff s in
      let s := on_accumulator (mark_dispatched_external (o 0%nat) batch_index tx_hash l1_block) s in
      try_dispatch_next_batch now s
  | Failed | TaskFailed =>
      let s := on_accumulator (fun a => (undispatch (o 0%nat) batch_index a).2) s in
      apply_dispatch_backoff now s
  end.

Definition on_rbf_bump (o : nat -> outcomes) (batch_index : Z) (event : RbfBumpEvent)
    (s : OrchestratorState) : OrchestratorState :=
  match event with
  | InitialBroadcast tx_hash nonce max_fee_per_gas max_priority_fee_per_gas =>
      on_accumulator (mark_dispatched (o 0%nat) batch_index tx_hash 0 nonce max_fee_per_gas
        max_priority_fee_per_gas) (clear_backoff s)
  | Bumped tx_hash max_fee_per_gas max_priority_fee_per_gas =>
      on_accumulator (record_rbf_bump (o 0%nat) batch_index tx_hash max_fee_per_gas
        max_priority_fee_per_gas) s
  | CapReached _ => s
  end.

(** ** Finalization *)

(** [trait FinalityRpc]. *)
Record FinalityRpc : Type := {
  finalized_block_number : option Z;
  receipt_status : list Z -> outcome string (option (bool * Z));
  tx_gas_limit : list Z -> outcome string (option Z) }.

Definition check_receipt (provider : FinalityRpc) (tx_hash : list Z) : ReceiptCheck :=
  match receipt_status provider tx_hash with
  | Ok (Some (true, _)) => Found
  | Ok (Some (false, gas_used)) =>
      let gas_limit := match tx_gas_limit provider tx_hash with Ok (Some g) => g | _ => 0 end in
      CheckReverted (classify_revert gas_used gas_limit)
  | Ok None => Missing
  | _ => CheckFailed
  end.

Definition check_finalized_batches_query (provider : FinalityRpc) (snapshot : list (Z * list Z * Z))
  : FinalizationDone :=
  match finalized_block_number provider with
  | None => NoOp
  | Some finalized_block =>
      let candidates := filter (fun c : Z * list Z * Z => c.2 <= finalized_block) snapshot in
      match candidates with
      | [] => NoOp
      | _ => Observed ((fun c : Z * list Z * Z => (c.1.1, c.1.2, check_receipt provider c.1.2)) <$> candidates)
      end
  end.

Definition try_start_finalization (s : OrchestratorState) : OrchestratorState :=
  if finalization_in_flight s then s
  else if negb (has_dispatched (accumulator s)) then s
  else spawn (FinalizationTask (dispatched_snapshot (accumulator s))) (on_finalization_in_flight (fun _ => true) s).

(** [FinalizationApplyOutcome]: changed, backoff_logic. *)
Record FinalizationApplyOutcome : Type := { changed : bool; backoff_logic : bool }.

Definition apply_observation (o : nat -> outcomes) (now : Z) (out : FinalizationApplyOutcome)
    (observation : Z * list Z * ReceiptCheck) (s : OrchestratorState)
  : FinalizationApplyOutcome * OrchestratorState :=
  let '(batch_index, tx_hash, check) := observation in
  let forget := on_missing_receipt_first_seen (base.delete batch_index) in
  match check with
  | Found =>
      let s := forget s in
      match finalize_dispatched (o 0%nat) batch_index (accumulator s) with
      | (None, _) => (out, s)
      | (Some d, a) =>
          let s := on_accumulator (fun _ => a) s in
          let s := on_known_responses
                     (fun k => k ∖ list_to_set (range_incl (db_from_block d) (db_to_block d))) s in
          let s := db_call (save_last_batch_end (o 1%nat) (db_to_block d)) s in
          let s := on_last_batch_end (fun l =>
                     Some match l with
                          | Some prev => Z.max prev (db_to_block d)
                          | None => db_to_block d
                          end) s in
          ({| changed := true; backoff_logic := backoff_logic out |}, s)
      end
  | CheckReverted kind =>
      let s := forget s in
      if decide (dispatched_tx_hash batch_index (accumulator s) = Some tx_hash) then
        let '(did, a) := undispatch (o 0%nat) batch_index (accumulator s) in
        let s := on_accumulator (fun _ => a) s in
        if did then
          ({| changed := true; backoff_logic := backoff_logic out || bool_decide (kind = Logic) |}, s)
        else (out, s)
      else (out, s)
  | Missing =>
      let first := default now (missing_receipt_first_seen s !! batch_index) in
      let s := on_missing_receipt_first_seen <[batch_index := first]> s in
      if decide (RECEIPT_MISSING_WINDOW <= now - first)
      then (out, on_missing_receipt_first_seen <[batch_index := now]> s)
      else (out, s)
  | CheckFailed => (out, s)
  end.

(** [o i] gives the outcomes for the [i]-th observation. *)
Definition apply_finalization_changes (o : nat -> nat -> outcomes) (now : Z) (done : FinalizationDone)
    (s : OrchestratorState) : FinalizationApplyOutcome * OrchestratorState :=
  let none := {| changed := false; backoff_logic := false |} in
  match done with
  | Observed observations =>
      foldl (fun acc io => apply_observation (o io.1) now acc.1 io.2 acc.2) (none, s) (imap pair observations)
  | _ => (none, s)
  end.

Definition on_finalization_done (o : nat -> nat -> outcomes) (now : Z) (done : FinalizationDone)
    (s : OrchestratorState) : OrchestratorState :=
  let s := on_finalization_in_flight (fun _ => false) s in
  let '(outcome, s) := apply_finalization_changes o now done s in
  let s := if backoff_logic outcome then apply_dispatch_backoff now s else s in
  if changed outcome then try_dispatch_next_batch now (try_sign_next_batch s) else s.
