(* ===== verification/Startup.v ===== *)
(** * Starting and ending the orchestrator ([bin/witness-orchestrator/src/main.rs])

    Before anything runs, the store's checkpoint is resolved from a start batch
    (a fresh deployment, or a batch the rollup's admin reverted) and normalised
    against what the pending batches still miss.  [resolve] is
    [resolve_l2_start_checkpoint]'s answer for a batch.  The rest of the file
    is the configuration read from the environment, all [main] does with it before
    its first task ([boot]), and the end of the process. *)
From S2P Require Import Prelude Text NitroTypes Db Accumulator Interaction RollupClient.
From stdpp Require Import strings.
#[local] Open Scope Z_scope.

(** ** [normalize_startup_checkpoint] *)

Record StartupCheckpointResult : Type := {
  new_ckpt : Z;
  stale_signature_indexes : list Z;
  earliest_gap : option Z }.

(** The blocks of one unsigned batch, up to the first without a response. *)
Fixpoint scan_blocks (response_blocks : gset Z) (blocks : list Z) (ckpt : Z) : Z * option Z :=
  match blocks with
  | [] => (ckpt, None)
  | b :: blocks =>
      if decide (b ∈ response_blocks) then scan_blocks response_blocks blocks b
      else (sat_sub b 1, Some b)
  end.

Fixpoint normalize_startup_checkpoint (current_ckpt : Z) (pending : list PendingBatch)
    (response_blocks signed_batch_indexes : gset Z) : StartupCheckpointResult :=
  match pending with
  | [] => {| new_ckpt := current_ckpt; stale_signature_indexes := []; earliest_gap := None |}
  | batch :: rest =>
      if decide (pb_batch_index batch ∈ signed_batch_indexes) then
        normalize_startup_checkpoint (pb_to_block batch) rest response_blocks signed_batch_indexes
      else
        match scan_blocks response_blocks (range_incl (pb_from_block batch) (pb_to_block batch)) current_ckpt with
        | (ckpt, None) => normalize_startup_checkpoint ckpt rest response_blocks signed_batch_indexes
        | (ckpt, Some gap) =>
            {| new_ckpt := ckpt;
               stale_signature_indexes :=
                 pb_batch_index <$> filter (fun b => pb_batch_index b ∈ signed_batch_indexes) pending;
               earliest_gap := Some gap |}
        end
  end.

(** ** The start-up sequence *)

(** [o i] gives the outcomes of the [i]-th SQL call. *)
Definition resolve_start (o : nat -> outcomes) (env_start_batch_id : option Z)
    (resolve : Z -> outcome string (Z * Z * Z)) (d : Db) : outcome string Db :=
  let db_start_batch_id := get_start_batch_id d in
  match (match db_start_batch_id with Some i => Some i | None => env_start_batch_id end) with
  | None => Ok d
  | Some batch_id =>
      if decide (get_checkpoint d = 0) then
        match resolve batch_id with
        | Ok (l2_from_block, l1_event_block, _) =>
            let l2_checkpoint := sat_sub l2_from_block 1 in
            let d := save_checkpoint (o 0%nat) l2_checkpoint d in
            let d := match db_start_batch_id with
                     | None => save_l1_checkpoint (o 1%nat) (sat_sub l1_event_block 1) d
                     | Some _ => d
                     end in
            let d := match get_last_batch_end d with
                     | None => save_last_batch_end (o 2%nat) l2_checkpoint d
                     | Some _ => d
                     end in
            Ok match db_start_batch_id with
               | Some _ => clear_start_batch_id (o 3%nat) d
               | None => d
               end
        | _ => Panic
        end
      else Ok d
  end.

Definition normalise (o : nat -> outcomes) (d : Db) : Db :=
  let current_ckpt := get_checkpoint d in
  let result := normalize_startup_checkpoint current_ckpt (load_batches d)
    (list_to_set (get_all_response_block_numbers d)) (list_to_set (load_batch_signature_indexes d)) in
  let d := match earliest_gap result with
           | Some _ => foldl (fun d ix => delete_batch_signature_row (o (S ix.1)) ix.2 d) d
                         (imap pair (stale_signature_indexes result))
           | None => d
           end in
  if decide (new_ckpt result = current_ckpt) then d
  else save_checkpoint (o 0%nat) (new_ckpt result) d.

(** [listener_from_block], [witness_from_block] and the checkpoint. *)
Definition start_blocks (l1_deploy_block : Z) (d : Db) : Z * Z * Z :=
  let checkpoint := get_checkpoint d in
  let witness_from := if decide (0 < checkpoint) then u64 (checkpoint + 1) else 0 in
  let lfb := match get_l1_checkpoint d with
             | Some ckpt => Z.max (u64 (ckpt + 1)) l1_deploy_block
             | None => l1_deploy_block
             end in
  (lfb, witness_from, checkpoint).

Definition startup (o1 o2 : nat -> outcomes) (env_start_batch_id : option Z)
    (resolve : Z -> outcome string (Z * Z * Z)) (l1_deploy_block : Z) (d : Db)
  : outcome string (Z * Z * Z * Db) :=
  d ← resolve_start o1 env_start_batch_id resolve d;
  let d := normalise o2 d in
  Ok (start_blocks l1_deploy_block d, d).

(** ** Normalisation is safe *)

(** Batches follow one another without overlap. *)
Fixpoint consecutive (pending : list PendingBatch) : Prop :=
  match pending with
  | b :: rest =>
      pb_from_block b <= pb_to_block b /\ 0 < pb_from_block b /\
      (forall b', b' ∈ rest -> pb_to_block b < pb_from_block b') /\ consecutive rest
  | [] => True
  end.

Lemma scan_blocks_spec responses from_ to_ ckpt :
  from_ <= to_ -> 0 < from_ ->
  match scan_blocks responses (range_incl from_ to_) ckpt with
  | (c, None) => c = to_ /\ forall b, from_ <= b <= to_ -> b ∈ responses
  | (c, Some gap) => from_ <= gap <= to_ /\ gap ∉ responses /\ c = gap - 1 /\
      forall b, from_ <= b <= c -> b ∈ responses
  end.
Proof.
  intros Hle Hpos. unfold range_incl.
  assert (G : forall n from_ ckpt, 0 < from_ ->
    match scan_blocks responses (seqZ from_ (Z.of_nat n)) ckpt with
    | (c, None) => c = (if decide (n = 0%nat) then ckpt else from_ + Z.of_nat n - 1) /\
        forall b, from_ <= b < from_ + Z.of_nat n -> b ∈ responses
    | (c, Some gap) => from_ <= gap < from_ + Z.of_nat n /\ gap ∉ responses /\ c = gap - 1 /\
        forall b, from_ <= b <= c -> b ∈ responses
    end).
  { clear. induction n as [|n IH]; intros f c Hf; [split; [done|lia]|].
    rewrite seqZ_cons by lia. cbn [scan_blocks]. destruct (decide (f ∈ responses)) as [Hin|Hin].
    - replace (Z.pred (Z.of_nat (S n))) with (Z.of_nat n) by lia. specialize (IH (Z.succ f) f ltac:(lia)).
      destruct (scan_blocks _ _ _) as [c' [gap|]].
      + destruct IH as (H1 & H2 & -> & H4). split; [lia|]. split; [done|]. split; [done|].
        intros b Hb. destruct (decide (b = f)) as [->|]; [done|]. apply H4. lia.
      + destruct IH as [Hc H4]. split; [rewrite Hc; repeat case_decide; lia|].
        intros b Hb. destruct (decide (b = f)) as [->|]; [done|]. apply H4. lia.
    - unfold sat_sub. split; [lia|]. split; [done|]. split; [lia|]. intros b Hb. lia. }
  specialize (G (Z.to_nat (to_ - from_ + 1)) from_ ckpt Hpos). rewrite Z2Nat.id in G by lia.
  destruct (scan_blocks _ _ _) as [c [gap|]].
  - destruct G as (? & ? & ? & ?). split; [lia|]. split; [done|]. by split.
  - destruct G as [Hc H4]. rewrite decide_False in Hc by lia. split; [lia|]. intros b Hb. apply H4. lia.
Qed.

(** What the normalised checkpoint says of the pending batches. *)
Record normalised (current : Z) (pending : list PendingBatch) (responses signed : gset Z)
    (r : StartupCheckpointResult) : Prop := {
  norm_covered : forall batch b, batch ∈ pending -> pb_from_block batch <= b <= pb_to_block batch ->
    b <= new_ckpt r -> pb_batch_index batch ∈ signed \/ b ∈ responses;
  norm_gap : forall gap, earliest_gap r = Some gap ->
    new_ckpt r = gap - 1 /\ gap ∉ responses /\ exists batch, batch ∈ pending /\
      pb_batch_index batch ∉ signed /\ pb_from_block batch <= gap <= pb_to_block batch;
  norm_no_gap : earliest_gap r = None -> stale_signature_indexes r = [] /\
    new_ckpt r = from_option pb_to_block current (last pending) /\
    forall batch, batch ∈ pending -> pb_batch_index batch ∈ signed \/
      forall b, pb_from_block batch <= b <= pb_to_block batch -> b ∈ responses;
  norm_stale : forall i, i ∈ stale_signature_indexes r <-> exists gap batch, earliest_gap r = Some gap /\
    batch ∈ pending /\ pb_batch_index batch = i /\ i ∈ signed /\ gap < pb_from_block batch }.

Lemma normalize_spec responses signed pending : forall current,
  consecutive pending ->
  normalised current pending responses signed
    (normalize_startup_checkpoint current pending responses signed).
Proof.
  induction pending as [|batch rest IH]; intros current Hc; cbn [normalize_startup_checkpoint].
  { split; cbn; try done; [set_solver|set_solver|]. intros i. split; [set_solver|]. by intros (? & ? & ? & _). }
  destruct Hc as (Hle & Hpos & Hafter & Hc).
  assert (Hlast : forall c, from_option pb_to_block c (last (batch :: rest)) =
    from_option pb_to_block (pb_to_block batch) (last rest)).
  { intros c. rewrite last_cons. by destruct (last rest). }
  case_decide as Hs.
  - destruct (IH (pb_to_block batch) Hc) as [N1 N2 N3 N4]. split.
    + intros b' n [->|Hin]%elem_of_cons Hn Hck; [by left|eauto].
    + intros gap Hg. destruct (N2 gap Hg) as (? & ? & b' & ? & ? & ?). split_and!; try done.
      exists b'. split; [by apply list_elem_of_further|done].
    + intros Hg. destruct (N3 Hg) as (? & Hn & Hall). split_and!; [done|by rewrite Hlast|].
      intros b' [->|Hin]%elem_of_cons; [by left|auto].
    + intros i. rewrite N4. split.
      * intros (gap & b' & Hg & Hin & ? & ? & ?). exists gap, b'. split_and!; try done. by apply list_elem_of_further.
      * intros (gap & b' & Hg & [->|Hin]%elem_of_cons & ? & ? & Hlt); [|eauto 10].
        destruct (N2 gap Hg) as (_ & _ & b2 & Hb2 & _ & Hr). specialize (Hafter b2 Hb2). lia.
  - pose proof (scan_blocks_spec responses (pb_from_block batch) (pb_to_block batch) current Hle Hpos) as Hscan.
    destruct (scan_blocks _ _ _) as [c [gap|]].
    + destruct Hscan as (Hr & Hnin & -> & Hbelow). split; cbn [new_ckpt stale_signature_indexes earliest_gap].
      * intros b' n [->|Hin]%elem_of_cons Hn Hck; [right; apply Hbelow; lia|].
        specialize (Hafter b' Hin). lia.
      * intros g [= <-]. split_and!; try done. exists batch. split_and!; try done; [apply list_elem_of_here|lia|lia].
      * done.
      * intros i. rewrite list_elem_of_fmap. split.
        -- intros (b' & -> & [Hsig Hin]%list_elem_of_filter). exists gap, b'. split_and!; try done.
           apply elem_of_cons in Hin as [->|Hin]; [done|]. specialize (Hafter b' Hin). lia.
        -- intros (g & b' & [= <-] & Hin & <- & Hsig & _). exists b'. split; [done|]. by apply list_elem_of_filter.
    + destruct Hscan as [-> Hall]. destruct (IH (pb_to_block batch) Hc) as [N1 N2 N3 N4]. split.
      * intros b' n [->|Hin]%elem_of_cons Hn Hck; [right; auto|eauto].
      * intros gap Hg. destruct (N2 gap Hg) as (? & ? & b' & ? & ? & ?). split_and!; try done.
        exists b'. split; [by apply list_elem_of_further|done].
      * intros Hg. destruct (N3 Hg) as (? & Hn & Hall'). split_and!; [done|by rewrite Hlast|].
        intros b' [->|Hin]%elem_of_cons; [by right|auto].
      * intros i. rewrite N4. split.
        -- intros (gap & b' & Hg & Hin & ? & ? & ?). exists gap, b'. split_and!; try done. by apply list_elem_of_further.
        -- intros (gap & b' & Hg & [->|Hin]%elem_of_cons & <- & ? & ?); [done|eauto 10].
Qed.

(** ** The store after normalisation *)

Lemma signatures_after_deletes (l : list (nat * Z)) : forall d,
  let d' := foldl (fun d (ix : nat * Z) => delete_batch_signature_row all_ok ix.2 d) d l in
  pending_batches d' = pending_batches d /\ block_responses d' = block_responses d /\ meta d' = meta d /\
  forall i, batch_signatures d' !! i = if decide (i ∈ l.*2) then None else batch_signatures d !! i.
Proof.
  induction l as [|[n j] l IH]; intros d; cbn [foldl fmap list_fmap snd].
  - by split_and!.
  - destruct (IH (delete_batch_signature_row all_ok j d)) as (-> & -> & -> & Hs). split_and!; try done.
    intros i. rewrite Hs. cbn. rewrite lookup_delete. repeat case_decide; set_solver.
Qed.

Lemma imap_pair_snd {A} (l : list A) : (imap pair l).*2 = l.
Proof.
  apply list_eq. intros i. rewrite list_lookup_fmap, list_lookup_imap. by destruct (l !! i).
Qed.

(** C28: nothing a restart still needs is skipped.  With pending batches filed
    under their index and in block order and the SQL calls succeeding, normalisation keeps the batches
    and responses, and every block at or below the new checkpoint that belongs
    to a pending batch has its response stored or its batch still signed; when
    an unsigned batch misses a block, execution resumes exactly there. *)
Theorem restart_loses_nothing l1_deploy_block d :
  (forall i b, pending_batches d !! i = Some b -> pb_batch_index b = i) -> consecutive (load_batches d) ->
  let d' := normalise (fun _ => all_ok) d in
  let r := normalize_startup_checkpoint (get_checkpoint d) (load_batches d)
    (list_to_set (get_all_response_block_numbers d)) (list_to_set (load_batch_signature_indexes d)) in
  load_batches d' = load_batches d /\ block_responses d' = block_responses d /\
  get_checkpoint d' = new_ckpt r /\
  (forall batch b, batch ∈ load_batches d -> pb_from_block batch <= b <= pb_to_block batch ->
     b <= get_checkpoint d' ->
     is_Some (batch_signatures d' !! pb_batch_index batch) \/ is_Some (block_responses d' !! b)) /\
  (forall gap, earliest_gap r = Some gap -> 1 < gap < 2 ^ 64 ->
     (start_blocks l1_deploy_block d').1.2 = gap /\ block_responses d' !! gap = None).
Proof.
  intros Hkey Hc d' r.
  destruct (normalize_spec (list_to_set (get_all_response_block_numbers d))
    (list_to_set (load_batch_signature_indexes d)) (load_batches d) (get_checkpoint d) Hc) as [N1 N2 N3 N4].
  fold r in N1, N2, N3, N4.
  assert (Hset : forall {V} (m : gmap Z V) k, k ∈ (list_to_set (sorted_keys m) : gset Z) <-> is_Some (m !! k))
    by (intros; by rewrite elem_of_list_to_set, elem_of_sorted_keys).
  set (d1 := match earliest_gap r with
    | Some _ => foldl (fun d (ix : nat * Z) => delete_batch_signature_row all_ok ix.2 d) d
                  (imap pair (stale_signature_indexes r)) | None => d end).
  assert (Hd1 : pending_batches d1 = pending_batches d /\ block_responses d1 = block_responses d /\ meta d1 = meta d /\
    forall i, batch_signatures d1 !! i = if decide (i ∈ stale_signature_indexes r) then None else batch_signatures d !! i).
  { unfold d1. destruct (earliest_gap r) as [gap|] eqn:Eg.
    - pose proof (signatures_after_deletes (imap pair (stale_signature_indexes r)) d) as Hdel.
      by rewrite imap_pair_snd in Hdel.
    - split_and!; try done. intros i. destruct (N3 eq_refl) as [-> _]. rewrite decide_False; [done|set_solver]. }
  destruct Hd1 as (Hb & Hr & Hm & Hs).
  assert (Ed' : d' = if decide (new_ckpt r = get_checkpoint d) then d1 else save_checkpoint all_ok (new_ckpt r) d1) by done.
  assert (Hd' : pending_batches d' = pending_batches d /\ block_responses d' = block_responses d /\
    batch_signatures d' = batch_signatures d1 /\ get_checkpoint d' = new_ckpt r).
  { rewrite Ed'. case_decide as E.
    - split_and!; try done. unfold get_checkpoint at 1. by rewrite Hm.
    - split_and!; try done. unfold get_checkpoint. cbn. by rewrite lookup_insert_eq. }
  destruct Hd' as (Hb' & Hr' & Hs' & Hk'). clear Ed'. clearbody d'. split_and!.
  - unfold load_batches. by rewrite Hb'.
  - done.
  - done.
  - intros batch b Hin Hrange Hle. rewrite Hk' in Hle. rewrite Hr', Hs', Hs.
    destruct (N1 batch b Hin Hrange Hle) as [Hsig|Hresp]; [left|right; by apply Hset].
    rewrite decide_False; [by apply Hset|]. intros (gap & b2 & Hg & Hin2 & Eidx & _ & Hlt)%N4.
    assert (batch = b2) as ->.
    { apply elem_of_btree_values in Hin as [k Hk], Hin2 as [k2 Hk2].
      rewrite <- (Hkey k batch Hk), <- Eidx, (Hkey k2 b2 Hk2) in Hk. congruence. }
    destruct (N2 gap Hg) as (En & _). lia.
  - intros gap Hg Hgap. destruct (N2 gap Hg) as (En & Hnin & _). rewrite Hr'. split.
    + unfold start_blocks. cbn [fst snd]. rewrite Hk', En. rewrite decide_True by lia. unfold u64. rewrite Z.mod_small by lia. lia.
    + apply eq_None_not_Some. intros Hsome. by apply Hnin, Hset.
Qed.

(** ** A store after a crash: the second batch misses block 25. *)
Definition sample_pending (i f t : Z) : PendingBatch := {|
  pb_batch_index := i; pb_from_block := f; pb_to_block := t; blobs_accepted := true |}.
Definition sample_response (n : Z) : EthExecutionResponse := {|
  block_number := n; leaf := [n]; block_hash := [n]; resp_signature := [] |}.
Definition sample_signature : SubmitBatchResponse := {|
  batch_root := [1]; versioned_hashes := []; signature := [2] |}.
Definition sample_crashed : Db :=
  foldl (fun d f => f d) (save_checkpoint all_ok 35 open)
    ((save_batch all_ok <$> [sample_pending 1 11 20; sample_pending 2 21 30; sample_pending 3 31 35]) ++
     (save_response all_ok ∘ sample_response <$> [21; 22; 23; 24; 26; 27]) ++
     [save_batch_signature all_ok 1 sample_signature; save_batch_signature all_ok 3 sample_signature]).

Lemma restart_loses_nothing_witness :
  (start_blocks 5 (normalise (fun _ => all_ok) sample_crashed)).1.2 = 25 /\
  block_responses (normalise (fun _ => all_ok) sample_crashed) !! 25 = None.
Proof.
  assert (El : load_batches sample_crashed = [sample_pending 1 11 20; sample_pending 2 21 30; sample_pending 3 31 35])
    by (vm_compute; reflexivity).
  apply (restart_loses_nothing 5 sample_crashed).
  - intros i b Hb. assert (Hin : b ∈ load_batches sample_crashed) by (apply elem_of_btree_values; by exists i).
    assert (Hmap : pending_batches sample_crashed = list_to_map
      [(3, sample_pending 3 31 35); (2, sample_pending 2 21 30); (1, sample_pending 1 11 20)]) by reflexivity.
    rewrite Hmap in Hb. cbn in Hb. rewrite !lookup_insert in Hb.
    repeat (case_decide; [injection Hb as <-; assumption|]). by rewrite lookup_empty in Hb.
  - rewrite El. cbn. split_and!; try lia; try done; intros b'; set_solver by (cbn; lia).
  - vm_compute. reflexivity.
  - lia.
Defined.

(** ** Configuration

    A variable that must be there, or must parse, panics or ends [main] with an
    error; of the others a value that does not parse counts as absent. *)

Definition DEFAULT_PROXY_URL : string := "http://127.0.0.1:8080".
Definition DEFAULT_DB_PATH : string := "./witness_orchestrator.db".
Definition DEFAULT_HTTP_TIMEOUT_SECS : Z := 120.
Definition DEFAULT_DATADIR : string := "./forward-driver".
Definition DEFAULT_MAX_COLD_BYTES : Z := 32 * 1024 * 1024 * 1024.
Definition DEFAULT_MDBX_MAX_SIZE : Z := 512 * 1024 * 1024 * 1024.
Definition DEFAULT_WITNESS_RETENTION_BLOCKS : Z := 172800.
Definition DEFAULT_WITNESS_HUB_LISTEN_ADDR : string := "127.0.0.1:8090".
Definition DEFAULT_METRICS_LISTEN_ADDR : string := "0.0.0.0:9090".

Definition u32_max : Z := 2 ^ 32 - 1.

Record OrchestratorEnv : Type := {
  metrics_listen_addr : string;
  rpc_url : string;
  datadir : string;
  cold_file : string;
  max_cold_bytes : Z;
  witness_retention_blocks : Z;
  witness_hub_listen_addr : string;
  mdbx_max_size : Z;
  proxy_url : string;
  db_path : string;
  http_timeout_secs : Z;
  l1_rpc_url : string;
  l1_rollup_addr : list Z;
  l1_submitter_key : string;
  env_start_batch_id : option Z;
  l1_deploy_block : Z;
  api_key : string;
  rbf_bump_interval : Z;
  rbf_bump_percent : Z;
  rbf_max_fee_per_gas_wei : Z;
  l1_poll_interval_secs : Z;
  l1_safe_blocks : Z;
  l2_safe_blocks : Z;
  unwind_to_block : option Z }.

Section Boot.
Context `{EnvLibs}.

(** Every variable, the required ones and the request to unwind as given. *)
Definition assemble (env : Env) (rpc_url l1_rpc_url : string) (l1_rollup_addr : list Z) (l1_submitter_key api_key : string)
    (unwind_to_block : option Z) : OrchestratorEnv :=
  let u64_or := uint_or env u64_max in
  let datadir := var_or env "DATADIR" DEFAULT_DATADIR in
  {|
    metrics_listen_addr := var_or env "FLUENT_METRICS_ADDR" DEFAULT_METRICS_LISTEN_ADDR;
    rpc_url := rpc_url;
    datadir := datadir;
    cold_file := match env "WITNESS_COLD_FILE"%string with Some p => p | None => path_join datadir "cold.redb" end;
    max_cold_bytes := u64_or "MAX_COLD_BYTES"%string DEFAULT_MAX_COLD_BYTES;
    witness_retention_blocks := u64_or "WITNESS_RETENTION_BLOCKS"%string DEFAULT_WITNESS_RETENTION_BLOCKS;
    witness_hub_listen_addr := var_or env "WITNESS_HUB_LISTEN_ADDR" DEFAULT_WITNESS_HUB_LISTEN_ADDR;
    mdbx_max_size := u64_or "MDBX_MAX_SIZE"%string DEFAULT_MDBX_MAX_SIZE;
    proxy_url := var_or env "PROXY_URL" DEFAULT_PROXY_URL;
    db_path := var_or env "DB_PATH" DEFAULT_DB_PATH;
    http_timeout_secs := u64_or "HTTP_TIMEOUT_SECS"%string DEFAULT_HTTP_TIMEOUT_SECS;
    l1_rpc_url := l1_rpc_url;
    l1_rollup_addr := l1_rollup_addr;
    l1_submitter_key := l1_submitter_key;
    env_start_batch_id := env "L1_START_BATCH_ID"%string ≫= parse_uint u64_max;
    l1_deploy_block := u64_or "L1_ROLLUP_DEPLOY_BLOCK"%string 0;
    api_key := api_key;
    rbf_bump_interval := u64_or "RBF_BUMP_INTERVAL_SECS"%string 15;
    rbf_bump_percent := uint_or env u32_max "RBF_BUMP_PERCENT" 20;
    rbf_max_fee_per_gas_wei := uint_or env u128_max "RBF_MAX_FEE_PER_GAS_WEI" 500000000000;
    l1_poll_interval_secs := u64_or "L1_POLL_INTERVAL_SECS"%string 60;
    l1_safe_blocks := u64_or "L1_SAFE_BLOCKS"%string 7;
    l2_safe_blocks := u64_or "L2_SAFE_BLOCKS"%string 10;
    unwind_to_block := unwind_to_block |}.

Definition read_env (env : Env) : outcome string OrchestratorEnv :=
  rpc_url ← unwrap (env "RPC_URL"%string);
  l1_rpc_url ← unwrap (env "L1_RPC_URL"%string);
  l1_rollup_addr ← unwrap (env "L1_ROLLUP_ADDR"%string ≫= parse_address);
  l1_submitter_key ← unwrap (env "L1_SUBMITTER_KEY"%string);
  api_key ← unwrap (env "API_KEY"%string);
  unwind_to_block ← match env "UNWIND_TO_BLOCK"%string with
                    | Some s => match parse_uint u64_max s with
                                | Some n => Ok (Some n)
                                | None => Err "UNWIND_TO_BLOCK must be a u64"%string
                                end
                    | None => Ok None
                    end;
  Ok (assemble env rpc_url l1_rpc_url l1_rollup_addr l1_submitter_key api_key unwind_to_block).

(** Up to the first task: the configuration, the URLs, the store's checkpoint,
    the signer.  What the store has become stays, whatever comes after. *)
Definition boot (env : Env) (o1 o2 : nat -> outcomes) (resolve : OrchestratorEnv -> Z -> outcome string (Z * Z * Z)) (d : Db)
  : outcome string (OrchestratorEnv * (Z * Z * Z) * list Z) * Db :=
  match (cfg ← read_env env; _ ← ensure (parse_url (l1_rpc_url cfg)); _ ← ensure (parse_url (rpc_url cfg)); Ok cfg) with
  | Ok cfg =>
      match startup o1 o2 (env_start_batch_id cfg) (resolve cfg) (l1_deploy_block cfg) d with
      | Ok (blocks, d) => (signer ← unwrap (signer_address (l1_submitter_key cfg)); Ok (cfg, blocks, signer), d)
      | Err e => (Err e, d)
      | Panic => (Panic, d)
      end
  | Err e => (Err e, d)
  | Panic => (Panic, d)
  end.

(** What a configuration that is accepted guarantees. *)
Record env_ok (c : OrchestratorEnv) : Prop := {
  ok_u64 : Forall is_u64 [max_cold_bytes c; witness_retention_blocks c; mdbx_max_size c; http_timeout_secs c; l1_deploy_block c;
    rbf_bump_interval c; l1_poll_interval_secs c; l1_safe_blocks c; l2_safe_blocks c];
  ok_percent : 0 <= rbf_bump_percent c <= u32_max;
  ok_fee_cap : is_u128 (rbf_max_fee_per_gas_wei c);
  ok_options : forall n, env_start_batch_id c = Some n \/ unwind_to_block c = Some n -> is_u64 n }.

Lemma assemble_ok env r l a k p unwind : (forall n, unwind = Some n -> is_u64 n) -> env_ok (assemble env r l a k p unwind).
Proof.
  intros Hun. assert (Hz : 0 <= u64_max) by done. split; unfold assemble.
  - repeat apply Forall_cons_2; try apply Forall_nil_2; by apply uint_or_range.
  - by apply uint_or_range.
  - by apply uint_or_range.
  - cbn. intros n [E|E]; [|by apply Hun]. destruct (env _) as [s|]; [|done]. by apply (parse_uint_range u64_max s).
Qed.

(** The configuration is accepted exactly when the five required variables are
    there, the contract's address parses and a request to unwind is a number; a
    malformed request to unwind is the only one that is reported as an error, and
    every number is in range. *)
Theorem configuration_checked env :
  let required := Forall (fun name => is_Some (env name)) ["RPC_URL"; "L1_RPC_URL"; "L1_ROLLUP_ADDR"; "L1_SUBMITTER_KEY"; "API_KEY"]%string /\
                  is_Some (env "L1_ROLLUP_ADDR"%string ≫= parse_address) in
  let unwind_ok := forall s, env "UNWIND_TO_BLOCK"%string = Some s -> is_Some (parse_uint u64_max s) in
  ((exists c, read_env env = Ok c) <-> required /\ unwind_ok) /\
  ((exists e, read_env env = Err e) <-> required /\ ~ unwind_ok) /\
  (forall c, read_env env = Ok c -> env_ok c).
Proof.
  cbn zeta. unfold read_env. rewrite !Forall_cons, Forall_nil.
  assert (Hno : forall A (P Q : Prop) (R : A -> Prop), ~ P -> ((exists c, @Panic string A = Ok c) <-> P /\ Q) /\
    ((exists e, @Panic string A = Err e) <-> P /\ ~ Q) /\ (forall c, @Panic string A = Ok c -> R c)) by naive_solver.
  destruct (env "RPC_URL"%string) as [r|]; [|apply Hno; by intros [[[] _] _]]. cbn [unwrap mbind outcome_bind].
  destruct (env "L1_RPC_URL"%string) as [l|]; [|apply Hno; by intros [(_ & [] & _) _]]. cbn [unwrap mbind outcome_bind].
  destruct (env "L1_ROLLUP_ADDR"%string) as [a|]; [|apply Hno; by intros [_ []]]. cbn [unwrap mbind outcome_bind option_bind].
  destruct (parse_address a) as [addr|]; [|apply Hno; by intros [_ []]]. cbn [unwrap mbind outcome_bind option_bind].
  destruct (env "L1_SUBMITTER_KEY"%string) as [k|]; [|apply Hno; by intros [(_ & _ & _ & [] & _) _]]. cbn [unwrap mbind outcome_bind].
  destruct (env "API_KEY"%string) as [p|]; [|apply Hno; by intros [(_ & _ & _ & _ & [] & _) _]]. cbn [unwrap mbind outcome_bind].
  assert (Hreq : (is_Some (Some r) /\ is_Some (Some l) /\ is_Some (Some a) /\ is_Some (Some k) /\ is_Some (Some p) /\ True) /\ is_Some (Some addr))
    by (split_and!; done).
  destruct (env "UNWIND_TO_BLOCK"%string) as [s|]; [destruct (parse_uint u64_max s) as [n|] eqn:En|].
  - split; [split; [intros _; split; [done|]; by intros s' [= <-]; rewrite En|by eexists]|].
    split; [split; [by intros [? ?]|intros [_ []]; by intros s' [= <-]; rewrite En]|].
    intros c [= <-]. apply assemble_ok. intros n' [= <-]. by apply (parse_uint_range u64_max s).
  - split; [split; [by intros [? ?]|intros [_ Hs]; specialize (Hs s eq_refl); rewrite En in Hs; by destruct Hs]|].
    split; [split; [intros _; split; [done|]; intros Hs; specialize (Hs s eq_refl); rewrite En in Hs; by destruct Hs|by eexists]|done].
  - split; [split; [intros _; by split|by eexists]|]. split; [split; [by intros [? ?]|intros [_ []]; done]|].
    intros c [= <-]. by apply assemble_ok.
Qed.
End Boot.

(** ** The end of the orchestrator's process
      ([main] of [bin/witness-orchestrator/src/main.rs], the end of [run] in
      [orchestrator.rs])

    [main] runs the orchestrator beside a set of background tasks; the first of
    them to end ends the process: it cancels the shutdown token, waits for the
    orchestrator, drains the other tasks, waits for the catch-up, flushes the cold
    witness store and exits with a code.  Draining takes as many rounds as tasks
    are left. *)

(** What a background task ended with. *)
Inductive TaskExit : Type :=
  | TaskOk (name : string)
  | TaskErr (name error : string)
  | TaskJoinFailed (error : string).

(** One step of a drain that a timeout bounds: [None] when no task is left. *)
Inductive Drained : Type :=
  | Exited (e : option TaskExit)
  | DeadlineExceeded.

Inductive CatchUpJoin : Type := CaughtUp | CatchUpCancelled | CatchUpPanicked (error : string).

(** [RaceOrchestrator] answers the task that ended before the orchestrator, if
    one did.  The catch-up is joined for its panics only: its result is a unit. *)
Inductive MainCall : Type -> Type :=
  | RaceOrchestrator : MainCall (option TaskExit)
  | CancelShutdown : MainCall unit
  | AwaitOrchestrator : MainCall unit
  | NextTask (deadline_secs : Z) : MainCall Drained
  | AwaitCatchUp : MainCall CatchUpJoin
  | FlushPending : MainCall (outcome string unit).

Definition exit_code_of (code : Z) (e : TaskExit) : Z :=
  match e with
  | TaskOk _ => code
  | TaskErr _ _ | TaskJoinFailed _ => 1
  end.

(** [None]: the rounds are used up. *)
Fixpoint drain (rounds : nat) (code : Z) : prog MainCall (option Z) :=
  match rounds with
  | O => Ret None
  | S rounds =>
      next ← trigger (NextTask 300);
      match next with
      | Exited (Some e) => drain rounds (exit_code_of code e)
      | Exited None => Ret (Some code)
      | DeadlineExceeded => Ret (Some 1)
      end
  end.

Definition supervise (rounds : nat) : prog MainCall (option Z) :=
  first ← trigger RaceOrchestrator;
  code ← match first with
         | None => _ ← trigger CancelShutdown; mret 0
         | Some e =>
             _ ← trigger CancelShutdown;
             _ ← trigger AwaitOrchestrator;
             mret (exit_code_of 0 e)
         end;
  drained ← drain rounds code;
  match drained with
  | None => mret None
  | Some code =>
      catch_up ← trigger AwaitCatchUp;
      let code := match catch_up with CatchUpPanicked _ => 1 | _ => code end in
      _ ← trigger FlushPending;
      mret (Some code)
  end.

(** The workers' drain at the end of [run]: those left after the deadline are
    aborted. *)
Inductive WorkersCall : Type -> Type :=
  | CloseChannels : WorkersCall unit
  | JoinWorker (deadline_secs : Z) : WorkersCall (option bool)
  | AbortWorkers : WorkersCall unit.

Definition SHUTDOWN_DRAIN_TIMEOUT : Z := 30.

(** [Some true]: a worker ended; [Some false]: the deadline. *)
Fixpoint join_workers (rounds : nat) : prog WorkersCall (option unit) :=
  match rounds with
  | O => Ret None
  | S rounds =>
      next ← trigger (JoinWorker SHUTDOWN_DRAIN_TIMEOUT);
      match next with
      | None => Ret (Some tt)
      | Some true => join_workers rounds
      | Some false => _ ← trigger AbortWorkers; mret (Some tt)
      end
  end.

Definition drain_workers (rounds : nat) : prog WorkersCall (option unit) :=
  _ ← trigger CloseChannels; join_workers rounds.

(** ** What an exit shows *)

(** A task or a join that failed, or a drain that took too long. *)
Definition failed (e : event MainCall) : Prop :=
  let '(Ev c r) := e in
  match c in MainCall R return R -> Prop with
  | RaceOrchestrator => fun r => exists x, r = Some x /\ exit_code_of 0 x = 1
  | NextTask _ => fun r => r = DeadlineExceeded \/ exists x, r = Exited (Some x) /\ exit_code_of 0 x = 1
  | AwaitCatchUp => fun r => exists e, r = CatchUpPanicked e
  | _ => fun _ => False
  end r.

Lemma drain_code rounds : forall code t r, (code = 0 \/ code = 1) -> exec (drain rounds code) t (Some r) ->
  (r = 0 \/ r = 1) /\ (r = 1 <-> code = 1 \/ Exists failed t) /\ Forall (fun e => match e with Ev (NextTask _) _ => True | _ => False end) t.
Proof.
  induction rounds as [|rounds IH]; intros code t r Hc E; [by destruct E|]. destruct E as (next & t' & -> & E).
  destruct next as [[x|]|].
  - destruct (IH (exit_code_of code x) t' r) as (Hr & Hx & Hf); [destruct x; cbn; tauto|exact E|].
    split; [done|]. split; [|by constructor]. rewrite Hx, Exists_cons. cbn. destruct x as [n|n e|e]; cbn.
    + split; [naive_solver|]. intros [?|[[?|(x & [= <-] & ?)]|?]]; naive_solver.
    + split; [|naive_solver]. intros _. right. left. right. by eexists.
    + split; [|naive_solver]. intros _. right. left. right. by eexists.
  - destruct E as [-> [= <-]]. split; [done|]. split; [|by repeat constructor]. rewrite Exists_cons, Exists_nil. cbn. naive_solver.
  - destruct E as [-> [= <-]]. split; [tauto|]. split; [|by repeat constructor]. rewrite Exists_cons. cbn. naive_solver.
Qed.

(** The process flushes the cold store once, at its very end, on every path that
    reaches an exit; it cancels the token before it drains anything; and it exits
    with 1 exactly when a task, a join or the drain failed.  An error of the
    catch-up is none of these. *)
Theorem exits_flushed rounds t code : exec (supervise rounds) t (Some code) ->
  (code = 0 \/ code = 1) /\ (code = 1 <-> Exists failed t) /\
  exists first t1 t2 catch_up flushed,
    t = Ev RaceOrchestrator first :: Ev CancelShutdown tt :: t1 ++ t2 ++ [Ev AwaitCatchUp catch_up; Ev FlushPending flushed] /\
    t1 = match first with Some _ => [Ev AwaitOrchestrator tt] | None => [] end /\
    Forall (fun e => match e with Ev (NextTask _) _ => True | _ => False end) t2.
Proof.
  intros (first & t0 & -> & E).
  assert (Hfirst : exists code0 t1 t3, t0 = Ev CancelShutdown tt :: t1 ++ t3 /\
    t1 = match first with Some _ => [Ev AwaitOrchestrator tt] | None => [] end /\ (code0 = 0 \/ code0 = 1) /\
    (code0 = 1 <-> failed (Ev RaceOrchestrator first)) /\
    exec (drained ← drain rounds code0;
          match drained with
          | None => mret None
          | Some code => catch_up ← trigger AwaitCatchUp;
              let code := match catch_up with CatchUpPanicked _ => 1 | _ => code end in
              _ ← trigger FlushPending; mret (Some code)
          end) t3 (Some code)).
  { destruct first as [x|].
    - destruct E as ([] & t1 & -> & [] & t2 & -> & E). exists (exit_code_of 0 x), [Ev AwaitOrchestrator tt], t2.
      split; [done|]. split; [done|]. split; [destruct x; cbn; tauto|]. split; [|exact E]. cbn. naive_solver.
    - destruct E as ([] & t1 & -> & E). exists 0, [], t1. split; [done|]. split; [done|]. split; [tauto|]. split; [|exact E]. cbn. naive_solver. }
  destruct Hfirst as (code0 & t1 & t3 & -> & Ht1 & Hc0 & Hf0 & E').
  apply (exec_bind _ (drain rounds code0)) in E' as (d & t2 & t4 & -> & Ed & Er). destruct d as [code1|]; [|by destruct Er].
  destruct (drain_code rounds code0 t2 code1 Hc0 Ed) as (Hc1 & Hx1 & Hf2).
  destruct Er as (catch_up & t5 & -> & flushed & t6 & -> & -> & [= ->]).
  assert (Hno : ~ Exists failed t1) by (rewrite Ht1; destruct first; [rewrite Exists_cons|]; rewrite Exists_nil; cbn; tauto).
  split; [destruct catch_up; tauto|]. split.
  - rewrite !Exists_cons, !Exists_app, !Exists_cons, Exists_nil. cbn [failed].
    change (exists x : TaskExit, first = Some x /\ exit_code_of 0 x = 1) with (failed (Ev RaceOrchestrator first)).
    destruct catch_up as [| |e].
    + rewrite Hx1, Hf0. assert (~ exists e, CaughtUp = CatchUpPanicked e) by naive_solver. tauto.
    + rewrite Hx1, Hf0. assert (~ exists e, CatchUpCancelled = CatchUpPanicked e) by naive_solver. tauto.
    + assert (exists e', CatchUpPanicked e = CatchUpPanicked e') by eauto. tauto.
  - by exists first, t1, t2, catch_up, flushed.
Qed.
