(* ===== verification/OrchestratorLoop.v ===== *)
(** * The orchestrator's main loop: startup, channels and steps
      ([run] of [bin/witness-orchestrator/src/orchestrator.rs])

    Tasks report through channels; the loop takes, of the channels with a
    message, the first in the order of its biased select.  A step is the loop
    handling one message, the finalization ticker firing, or a task, worker or
    the L1 listener reporting.  A task that panics reports through its guard,
    whose [try_send] drops the report when the channel is full. *)
From S2P Require Import Prelude NitroTypes Db Accumulator RollupClient Rbf Orchestrator.
From stdpp Require Import strings.
#[local] Open Scope Z_scope.

(** ** Startup *)

(** [stored_nonce_floor]. *)
Definition stored_nonce_floor (a : BatchAccumulator) : option Z :=
  (fun n => u64 (n + 1)) <$>
    foldr (fun n m => Some (match m with Some m => Z.max n m | None => n end)) None
      (omap db_nonce (btree_values (dispatched a))).

(** Resume workers for the dispatched batches that have RBF state and a stored
    signature. *)
Definition resume_one (s : OrchestratorState) (d : DispatchedBatch) : OrchestratorState :=
  match db_nonce d, max_fee_per_gas d, max_priority_fee_per_gas d with
  | Some nonce, Some fee, Some tip =>
      match get_batch_signature (db_batch_index d) (acc_db (accumulator s)) with
      | None => s
      | Some sig =>
          spawn_rbf_resume (db_batch_index d) (signature sig)
            {| resume_nonce := nonce; resume_tx_hash := tx_hash d; resume_max_fee_per_gas := fee;
               resume_max_priority_fee_per_gas := tip |} s
      end
  | _, _, _ => s
  end.

(** Everything before the loop.  [provider] answers the finality check of the
    batches a previous process dispatched. *)
Definition start (o : nat -> outcomes) (of_ : nat -> nat -> outcomes) (now : Z) (provider : FinalityRpc)
    (db : Db) : OrchestratorState :=
  let s := {|
    accumulator := with_db (fun i => o (Z.to_nat i)) db; checkpoint := 0; confirmed := ∅;
    signing_batch := None; dispatching_batch := None; finalization_in_flight := false;
    global_dispatch_attempts := 0; global_next_dispatch_allowed := None; pending_key_check := None;
    key_check_attempts := 0; known_responses := ∅; last_batch_end := get_last_batch_end db;
    dispatch_cancel := ∅; shutdown := false; missing_receipt_first_seen := ∅; tasks := [] |} in
  let s :=
    if has_dispatched (accumulator s) then
      (apply_finalization_changes of_ now
         (check_finalized_batches_query provider (dispatched_snapshot (accumulator s))) s).2
    else s in
  let from_block := u64 (get_checkpoint (acc_db (accumulator s)) + 1) in
  let s := on_checkpoint (fun _ => sat_sub from_block 1) s in
  foldl resume_one s (btree_values (dispatched (accumulator s))).

(** ** Channels *)

Record System : Type := {
  orch : OrchestratorState;
  finalization_done : list FinalizationDone;
  results : list BlockResult;
  l1_events : list L1Event;
  sign_done : list (Z * SignOutcome);
  dispatch_done : list (Z * DispatchOutcome);
  rbf_bump : list (Z * RbfBumpEvent);
  key_check : list (list Z * bool);
  (** A guard's report was dropped. *)
  dropped : bool }.

Definition EXECUTION_WORKERS : nat := 8.

Definition with_orch (s : OrchestratorState) (y : System) : System := {|
  orch := s; finalization_done := finalization_done y; results := results y; l1_events := l1_events y;
  sign_done := sign_done y; dispatch_done := dispatch_done y; rbf_bump := rbf_bump y;
  key_check := key_check y; dropped := dropped y |}.

(** The channels as a whole, for updates. *)
Definition on_channels (ff : list FinalizationDone -> list FinalizationDone)
    (fs : list (Z * SignOutcome) -> list (Z * SignOutcome))
    (fd : list (Z * DispatchOutcome) -> list (Z * DispatchOutcome))
    (fb : list (Z * RbfBumpEvent) -> list (Z * RbfBumpEvent))
    (fk : list (list Z * bool) -> list (list Z * bool)) (y : System) : System := {|
  orch := orch y; finalization_done := ff (finalization_done y); results := results y;
  l1_events := l1_events y; sign_done := fs (sign_done y); dispatch_done := fd (dispatch_done y);
  rbf_bump := fb (rbf_bump y); key_check := fk (key_check y); dropped := dropped y |}.
Definition on_results f (y : System) : System := {|
  orch := orch y; finalization_done := finalization_done y; results := f (results y);
  l1_events := l1_events y; sign_done := sign_done y; dispatch_done := dispatch_done y;
  rbf_bump := rbf_bump y; key_check := key_check y; dropped := dropped y |}.
Definition on_l1_events f (y : System) : System := {|
  orch := orch y; finalization_done := finalization_done y; results := results y;
  l1_events := f (l1_events y); sign_done := sign_done y; dispatch_done := dispatch_done y;
  rbf_bump := rbf_bump y; key_check := key_check y; dropped := dropped y |}.
Definition drop_report (y : System) : System := {|
  orch := orch y; finalization_done := finalization_done y; results := results y;
  l1_events := l1_events y; sign_done := sign_done y; dispatch_done := dispatch_done y;
  rbf_bump := rbf_bump y; key_check := key_check y; dropped := true |}.

(** [tokio::select! { biased; .. }]: the loop handles the first message of the
    first channel that has one; [None] when all are empty or it shuts down. *)
Definition receive (o : nat -> nat -> outcomes) (now : Z) (y : System) : option System :=
  let s := orch y in
  if shutdown s then None
  else
    match finalization_done y with
    | d :: _ => Some (with_orch (on_finalization_done o now d s) (on_channels tail id id id id y))
    | [] =>
    match results y with
    | r :: _ => Some (with_orch (on_block_result (o 0%nat) now r s) (on_results tail y))
    | [] =>
    match l1_events y with
    | e :: _ => Some (with_orch (on_l1_event (o 0%nat) now e s) (on_l1_events tail y))
    | [] =>
    match sign_done y with
    | (b, r) :: _ => Some (with_orch (on_sign_done (o 0%nat) now b r s) (on_channels id tail id id id y))
    | [] =>
    match dispatch_done y with
    | (b, r) :: _ => Some (with_orch (on_dispatch_done (o 0%nat) now b r s) (on_channels id id tail id id y))
    | [] =>
    match rbf_bump y with
    | (b, e) :: _ => Some (with_orch (on_rbf_bump (o 0%nat) b e s) (on_channels id id id tail id y))
    | [] =>
    match key_check y with
    | (a, r) :: _ => Some (with_orch (on_key_check now a r s) (on_channels id id id id tail y))
    | [] => None
    end end end end end end end.

(** ** Steps *)

(** The task [t], taken from the running ones. *)
Definition finish (t : task) (rest : list task) (y : System) : System :=
  with_orch (on_tasks (fun _ => rest) (orch y)) y.

(** What a signing task does besides reporting: a batch it signed was saved. *)
Definition sign_effect (o : outcomes) (b : Z) (r : SignOutcome) : OrchestratorState -> OrchestratorState :=
  match r with
  | Signed response => db_call (save_batch_signature o b response)
  | _ => id
  end.

Inductive step : System -> System -> Prop :=
  | step_receive o now y y' : receive o now y = Some y' -> step y y'
  | step_tick y :
      shutdown (orch y) = false -> step y (with_orch (try_start_finalization (orch y)) y)
  | step_sign o b f t rs r pre post y :
      tasks (orch y) = pre ++ SignTask b f t rs :: post -> r <> SignTaskFailed ->
      (length (sign_done y) < 8)%nat ->
      step y (on_channels id (fun c => c ++ [(b, r)]) id id id
                (with_orch (sign_effect o b r (on_tasks (fun _ => pre ++ post) (orch y))) y))
  | step_sign_panic b f t rs pre post y :
      tasks (orch y) = pre ++ SignTask b f t rs :: post ->
      step y (let y' := finish (SignTask b f t rs) (pre ++ post) y in
              if decide (length (sign_done y) < 8)%nat
              then on_channels id (fun c => c ++ [(b, SignTaskFailed)]) id id id y' else drop_report y')
  | step_finalization snapshot provider pre post y :
      tasks (orch y) = pre ++ FinalizationTask snapshot :: post -> (length (finalization_done y) < 1)%nat ->
      step y (on_channels (fun c => c ++ [check_finalized_batches_query provider snapshot]) id id id id
                (finish (FinalizationTask snapshot) (pre ++ post) y))
  | step_finalization_panic snapshot pre post y :
      tasks (orch y) = pre ++ FinalizationTask snapshot :: post ->
      step y (let y' := finish (FinalizationTask snapshot) (pre ++ post) y in
              if decide (length (finalization_done y) < 1)%nat
              then on_channels (fun c => c ++ [FinalizationTaskFailed]) id id id id y' else drop_report y')
  | step_bump b sig resume e y :
      RbfTask b sig resume ∈ tasks (orch y) -> (length (rbf_bump y) < 32)%nat ->
      step y (on_channels id id id (fun c => c ++ [(b, e)]) id y)
  | step_dispatched b sig resume r pre post y :
      tasks (orch y) = pre ++ RbfTask b sig resume :: post -> r <> TaskFailed ->
      (length (dispatch_done y) < 8)%nat ->
      step y (on_channels id id (fun c => c ++ [(b, r)]) id id (finish (RbfTask b sig resume) (pre ++ post) y))
  | step_dispatch_panic b sig resume pre post y :
      tasks (orch y) = pre ++ RbfTask b sig resume :: post ->
      step y (let y' := finish (RbfTask b sig resume) (pre ++ post) y in
              if decide (length (dispatch_done y) < 8)%nat
              then on_channels id id (fun c => c ++ [(b, TaskFailed)]) id id y' else drop_report y')
  | step_key a delay n registered pre post y :
      tasks (orch y) = pre ++ KeyCheckTask a delay n :: post -> (length (key_check y) < 4)%nat ->
      step y (on_channels id id id id (fun c => c ++ [(a, registered)])
                (finish (KeyCheckTask a delay n) (pre ++ post) y))
  | step_key_panic a delay n pre post y :
      tasks (orch y) = pre ++ KeyCheckTask a delay n :: post ->
      step y (let y' := finish (KeyCheckTask a delay n) (pre ++ post) y in
              if decide (length (key_check y) < 4)%nat
              then on_channels id id id id (fun c => c ++ [(a, false)]) y' else drop_report y')
  | step_re_execution b pre post y :
      tasks (orch y) = pre ++ ReExecution b :: post ->
      step y (finish (ReExecution b) (pre ++ post) y)
  | step_result r y :
      (length (results y) < EXECUTION_WORKERS * 2)%nat -> step y (on_results (fun c => c ++ [r]) y)
  | step_l1 e y :
      (length (l1_events y) < 64)%nat -> step y (on_l1_events (fun c => c ++ [e]) y).

Definition initial (s : OrchestratorState) : System := {|
  orch := s; finalization_done := []; results := []; l1_events := []; sign_done := [];
  dispatch_done := []; rbf_bump := []; key_check := []; dropped := false |}.

(** What a process started on a store can reach. *)
Inductive reach (db : Db) : System -> Prop :=
  | reach_start o of_ now provider : reach db (initial (start o of_ now provider db))
  | reach_step y y' : reach db y -> step y y' -> reach db y'.
