(* ===== verification/OrchestratorSafety.v ===== *)
(** * Invariants of the orchestrator's main loop

    The gates that keep one signing, one fresh dispatch and one finalization
    check in flight are never latched: whenever one is closed, a task or a
    queued report will open it.  The accumulator's invariants hold in every
    reachable state, whatever SQL does. *)
From S2P Require Import Prelude NitroTypes Db Accumulator RollupClient Rbf Orchestrator OrchestratorLoop.
From stdpp Require Import strings.
#[local] Open Scope Z_scope.

(** ** The gates *)

Definition sign_of (t : task) : option Z := match t with SignTask b _ _ _ => Some b | _ => None end.
Definition rbf_of (t : task) : option Z := match t with RbfTask b _ _ => Some b | _ => None end.
Definition finalization_of (t : task) : option unit := match t with FinalizationTask _ => Some tt | _ => None end.
Definition key_of (t : task) : option unit := match t with KeyCheckTask _ _ _ => Some tt | _ => None end.

(** Given the batches of the queued signing and dispatch reports and the number
    of the others, what closes each gate. *)
Record gates (sd : list Z) (fd : nat) (dd : list Z) (kd : nat) (lost : bool) (s : OrchestratorState) : Prop := {
  gate_sign : omap sign_of (tasks s) ++ sd ≡ₚ option_list (signing_batch s);
  gate_finalization : (length (omap finalization_of (tasks s)) + fd)%nat =
    (if finalization_in_flight s then 1 else 0)%nat;
  gate_dispatch : lost = false -> forall b, dispatching_batch s = Some b ->
    b ∈ omap rbf_of (tasks s) ++ dd;
  gate_key : lost = false -> pending_key_check s <> None ->
    (0 < length (omap key_of (tasks s)) + kd)%nat }.

Section Gates.
Context (sd : list Z) (fd : nat) (dd : list Z) (kd : nat) (lost : bool).
Abbreviation gates := (gates sd fd dd kd lost).

(** A handler's part that leaves the gates and the tasks alone. *)
Definition same_gates (s s' : OrchestratorState) : Prop :=
  tasks s' = tasks s /\ signing_batch s' = signing_batch s /\ dispatching_batch s' = dispatching_batch s /\
  finalization_in_flight s' = finalization_in_flight s /\ pending_key_check s' = pending_key_check s.

#[global] Instance same_gates_preorder : PreOrder same_gates.
Proof. split; [by intros s|]. intros s1 s2 s3 (?&?&?&?&?) (?&?&?&?&?). repeat split; congruence. Qed.

Lemma gates_same s s' : same_gates s s' -> gates s -> gates s'.
Proof. intros (E1 & E2 & E3 & E4 & E5) [? ? ? ?]. split; by rewrite ?E1, ?E2, ?E3, ?E4, ?E5. Qed.

(** A task that no gate waits for. *)
Lemma gates_spawn_other t s :
  sign_of t = None -> finalization_of t = None -> gates s -> gates (spawn t s).
Proof.
  intros Hs Hf [G1 G2 G3 G4]. split; cbn; rewrite !omap_app; cbn; rewrite ?Hs, ?Hf, ?app_nil_r; try done.
  - intros Hl b Hb. specialize (G3 Hl b Hb). set_solver.
  - intros Hl Hp. specialize (G4 Hl Hp). rewrite length_app. lia.
Qed.

Lemma gates_try_sign s : gates s -> gates (try_sign_next_batch s).
Proof.
  intros HG. unfold try_sign_next_batch. destruct (signing_batch s) eqn:Es; [done|].
  destruct (first_ready_unsigned (accumulator s)) as [i|]; [|done].
  destruct (batches (accumulator s) !! i) as [batch|]; [|done].
  destruct HG as [G1 G2 G3 G4]. rewrite Es in G1. cbn in G1.
  apply Permutation_nil_r in G1. apply app_eq_nil in G1 as [G1 ->].
  split; cbn; rewrite !omap_app, ?G1; cbn; rewrite ?app_nil_r; try done.
Qed.

Lemma gates_try_dispatch now s : gates s -> gates (try_dispatch_next_batch now s).
Proof.
  intros HG. unfold try_dispatch_next_batch. destruct (dispatching_batch s) eqn:Ed; [done|].
  destruct (global_next_dispatch_allowed s) as [at_|]; [case_bool_decide; [done|]|];
    (destruct (pending_key_check s) eqn:Ek; [done|]);
    (destruct (first_sequential_signed (accumulator s)) as [[i sig]|]; [|done]);
    (destruct HG as [G1 G2 G3 G4]; split; cbn; rewrite !omap_app; cbn; rewrite ?app_nil_r; try done);
    (try (by rewrite Ek)); intros Hl b [= <-]; set_solver.
Qed.

Lemma gates_try_finalization s : gates s -> gates (try_start_finalization s).
Proof.
  intros HG. unfold try_start_finalization. destruct (finalization_in_flight s) eqn:Ef; [done|].
  destruct (negb _); [done|]. destruct HG as [G1 G2 G3 G4]. rewrite Ef in G2.
  split; cbn; rewrite !omap_app; cbn; rewrite ?app_nil_r, ?length_app; cbn; try done. lia.
Qed.


Lemma advance_same fuel : forall s, same_gates s (advance fuel s).
Proof.
  induction fuel as [|fuel IH]; intros s; [done|]. cbn [advance]. case_decide; [|done].
  etransitivity; [|apply IH]. by repeat split.
Qed.

Lemma gates_block_result o now r s : gates s -> gates (on_block_result o now r s).
Proof.
  intros HG. unfold on_block_result. case_decide; [done|].
  assert (Hgo : forall s', same_gates s s' -> gates (try_dispatch_next_batch now (try_sign_next_batch
    (db_call (save_checkpoint (o 1%nat) (checkpoint (advance (S (base.size (confirmed s'))) s')))
      (advance (S (base.size (confirmed s'))) s'))))).
  { intros s' Hs. apply gates_try_dispatch, gates_try_sign. eapply gates_same; [|exact HG].
    etransitivity; [exact Hs|]. etransitivity; [apply (advance_same (S (base.size (confirmed s'))))|]. by repeat split. }
  destruct (last_batch_end s); [case_bool_decide; [done|]|]; by apply Hgo.
Qed.

Lemma gates_l1_event o now e s : gates s -> gates (on_l1_event o now e s).
Proof.
  intros HG. destruct e; cbn [on_l1_event]; try (eapply gates_same; [|exact HG]; by repeat split).
  apply gates_try_dispatch. eapply gates_same; [|exact HG]. by repeat split.
Qed.

Lemma gates_bump o b e s : gates s -> gates (on_rbf_bump o b e s).
Proof. intros HG. destruct e; (eapply gates_same; [|exact HG]); by repeat split. Qed.

Lemma observation_same o now out ob s : same_gates s (apply_observation o now out ob s).2.
Proof.
  destruct ob as [[b h] [|kind| |]]; cbn; [| | |done].
  - destruct (finalize_dispatched _ _ _) as [[d|] a]; by repeat split.
  - case_decide; [|by repeat split]. destruct (undispatch _ _ _) as [[] a]; by repeat split.
  - case_decide; by repeat split.
Qed.

Lemma changes_same o now done_ s : same_gates s (apply_finalization_changes o now done_ s).2.
Proof.
  destruct done_ as [obs| |]; [|done..]. cbn [apply_finalization_changes].
  generalize (imap pair obs) {| changed := false; backoff_logic := false |}. intros l. revert s.
  induction l as [|x l IH]; intros s out; [done|]. cbn [foldl].
  destruct (apply_observation _ _ _ _ _) as [out' s'] eqn:E. etransitivity; [|apply IH].
  pose proof (observation_same (o x.1) now out x.2 s) as Hs. cbn [fst snd] in E. by rewrite E in Hs.
Qed.
End Gates.

(** A key check just spawned will report. *)
Lemma gates_spawn_key sd fd dd kd kd' lost a d s s' :
  gates sd fd dd kd' lost s' -> tasks s = tasks s' -> signing_batch s = signing_batch s' ->
  dispatching_batch s = dispatching_batch s' -> finalization_in_flight s = finalization_in_flight s' ->
  gates sd fd dd kd lost (spawn_key_check a d s).
Proof.
  intros [G1 G2 G3 G4] E1 E2 E3 E4. split; cbn; rewrite !omap_app; cbn;
    rewrite ?app_nil_r, ?E1, ?E2, ?E3, ?E4; try done. intros _ _. rewrite length_app. cbn. lia.
Qed.

Lemma gates_sign_done o now b r sd fd dd kd lost s :
  gates (b :: sd) fd dd kd lost s -> gates sd fd dd kd lost (on_sign_done o now b r s).
Proof.
  intros HG.
  assert (HG0 : gates sd fd dd kd lost (set_signing_batch None s)).
  { destruct HG as [G1 G2 G3 G4]. split; try done. cbn [set_signing_batch tasks on_signing_batch option_list signing_batch].
    destruct (signing_batch s) as [b'|]; cbn in G1; [|by apply Permutation_nil_r, app_eq_nil in G1 as [_ ?]].
    assert (Hp := Permutation_length G1). rewrite length_app in Hp. cbn in Hp.
    destruct (omap sign_of (tasks s)), sd; cbn in Hp; [done|lia..]. }
  unfold on_sign_done. set (s0 := set_signing_batch None s) in *. clearbody s0. destruct r as [resp|bad addr|]; [| |done].
  - apply gates_try_dispatch, gates_try_sign. eapply gates_same; [|exact HG0].
    destruct (batches _ !! b); by repeat split.
  - assert (H1 : gates sd fd dd kd lost (on_known_responses (fun k => k ∖ list_to_set bad)
      (on_accumulator (delete_batch_signature (o 1%nat) b) (on_accumulator (purge_responses (o 0%nat) bad) s0))))
      by (eapply gates_same; [|exact HG0]; by repeat split).
    set (s1 := on_known_responses _ _) in *. clearbody s1.
    assert (H2 : gates sd fd dd kd lost (foldl (fun s b => spawn_re_execution b s) s1 bad)).
    { clear -H1. revert s1 H1. induction bad as [|x bad IH]; intros s1 H1; [done|]. by apply IH, gates_spawn_other. }
    by eapply gates_spawn_key.
Qed.

Lemma gates_dispatch_done o now b r sd fd dd kd lost s :
  gates sd fd (b :: dd) kd lost s -> gates sd fd dd kd lost (on_dispatch_done o now b r s).
Proof.
  intros HG. unfold on_dispatch_done.
  set (s0 := if decide (dispatching_batch s = Some b) then _ else s).
  assert (H0 : gates sd fd dd kd lost s0).
  { destruct HG as [G1 G2 G3 G4]. unfold s0. case_decide as Eb; split; try done.
    intros Hl b' Hb'. specialize (G3 Hl b' Hb'). assert (b' <> b) by congruence. set_solver. }
  clearbody s0.
  destruct r as [h l| |h [|]|h l|]; try (apply gates_try_dispatch); (eapply gates_same; [|exact H0]); by repeat split.
Qed.

Lemma gates_finalization_done o now d sd fd dd kd lost s :
  gates sd (S fd) dd kd lost s -> gates sd fd dd kd lost (on_finalization_done o now d s).
Proof.
  intros HG. assert (H0 : gates sd fd dd kd lost (on_finalization_in_flight (fun _ => false) s)).
  { destruct HG as [G1 G2 G3 G4]. split; try done. cbn. destruct (finalization_in_flight s); lia. }
  unfold on_finalization_done. set (s0 := on_finalization_in_flight _ s) in *. clearbody s0.
  pose proof (changes_same o now d s0) as Hc. destruct (apply_finalization_changes _ _ _ _) as [out s1].
  cbn [snd] in Hc. apply (gates_same _ _ _ _ _ _ _ Hc) in H0.
  destruct (backoff_logic out), (changed out); try (apply gates_try_dispatch, gates_try_sign); try done;
    (eapply gates_same; [|exact H0]); by repeat split.
Qed.

Lemma gates_key_check now a r sd fd dd kd lost s :
  gates sd fd dd (S kd) lost s -> gates sd fd dd kd lost (on_key_check now a r s).
Proof.
  intros HG. unfold on_key_check. destruct r.
  - apply gates_try_dispatch, gates_try_sign. by destruct HG as [G1 G2 G3 G4]; split.
  - by eapply gates_spawn_key.
Qed.

(** ** Every step keeps the gates *)

Definition sys_gates (y : System) : Prop :=
  gates (fst <$> sign_done y) (length (finalization_done y)) (fst <$> dispatch_done y)
    (length (key_check y)) (dropped y) (orch y).

Lemma receive_gates o now y y' : sys_gates y -> receive o now y = Some y' -> sys_gates y'.
Proof.
  intros HG. unfold receive. destruct (shutdown (orch y)); [done|]. unfold sys_gates in *.
  destruct (finalization_done y) as [|d fd] eqn:Ef.
  2:{ intros [= <-]. cbn. rewrite Ef. cbn. by apply gates_finalization_done. }
  destruct (results y) as [|r rs] eqn:Er.
  2:{ intros [= <-]. cbn. rewrite Ef. by apply gates_block_result. }
  destruct (l1_events y) as [|e es] eqn:Ee.
  2:{ intros [= <-]. cbn. rewrite Ef. by apply gates_l1_event. }
  destruct (sign_done y) as [|[b r] sd] eqn:Esd.
  2:{ intros [= <-]. cbn. rewrite Ef, Esd. by apply gates_sign_done. }
  destruct (dispatch_done y) as [|[b r] dd] eqn:Edd.
  2:{ intros [= <-]. cbn. rewrite Ef, Esd, Edd. by apply gates_dispatch_done. }
  destruct (rbf_bump y) as [|[b e] bs] eqn:Eb.
  2:{ intros [= <-]. cbn. rewrite Ef, Esd, Edd. by apply gates_bump. }
  destruct (key_check y) as [|[a r] ks] eqn:Ek; [done|].
  intros [= <-]. cbn. rewrite Ef, Esd, Edd, Ek. cbn. by apply gates_key_check.
Qed.

(** A task's end moves its report from the tasks to a channel. *)
Lemma gates_report sd fd dd kd lost s t pre post sd' fd' dd' kd' lost' :
  tasks s = pre ++ t :: post -> gates sd fd dd kd lost s ->
  omap sign_of (pre ++ post) ++ sd' ≡ₚ omap sign_of (pre ++ t :: post) ++ sd ->
  (length (omap finalization_of (pre ++ post)) + fd' = length (omap finalization_of (pre ++ t :: post)) + fd)%nat ->
  (lost' = false -> lost = false /\
    (forall b, b ∈ omap rbf_of (pre ++ t :: post) ++ dd -> b ∈ omap rbf_of (pre ++ post) ++ dd') /\
    (length (omap key_of (pre ++ t :: post)) + kd <= length (omap key_of (pre ++ post)) + kd')%nat) ->
  gates sd' fd' dd' kd' lost' (on_tasks (fun _ => pre ++ post) s).
Proof.
  intros Ht [G1 G2 G3 G4] E1 E2 E3. rewrite Ht in G1, G2, G3, G4. split; cbn.
  - by rewrite E1.
  - by rewrite E2.
  - intros Hl b Hb. destruct (E3 Hl) as (Hl' & Hd & _). by apply Hd, (G3 Hl').
  - intros Hl Hp. destruct (E3 Hl) as (Hl' & _ & Hk). specialize (G4 Hl' Hp). lia.
Qed.

Ltac omaps := rewrite ?omap_app, ?fmap_app; cbn; rewrite ?omap_app; cbn; rewrite ?length_app, ?app_nil_r; cbn.

Lemma step_gates y y' : sys_gates y -> step y y' -> sys_gates y'.
Proof.
  intros HG Hstep. destruct Hstep as [o now y y' Hr|y|o b f t rs r pre post y Ht Hr Hl|b f t rs pre post y Ht|
    snap provider pre post y Ht Hl|snap pre post y Ht|b sig resume e y Hin Hl|b sig resume r pre post y Ht Hr Hl|
    b sig resume pre post y Ht|a d n reg pre post y Ht Hl|a d n pre post y Ht|b pre post y Ht|r y Hl|e y Hl];
    unfold sys_gates in *.
  - by eapply receive_gates.
  - by apply gates_try_finalization.
  - cbn. assert (Hg : gates (fst <$> (sign_done y ++ [(b, r)])) (length (finalization_done y)) (fst <$> dispatch_done y)
      (length (key_check y)) (dropped y) (on_tasks (fun _ => pre ++ post) (orch y))).
    { eapply gates_report; [exact Ht|exact HG|..]; omaps; [solve_Permutation|done|].
      intros ->. split_and!; [done|set_solver|lia]. }
    destruct r; (eapply gates_same; [|exact Hg]); by repeat split.
  - assert (Hlen : (length (sign_done y) < 8)%nat).
    { destruct HG as [G1 _ _ _]. apply Permutation_length in G1. rewrite length_app, length_fmap in G1.
      destruct (signing_batch (orch y)); cbn in G1; lia. }
    rewrite decide_True by done. cbn. eapply gates_report; [exact Ht|exact HG|..]; omaps; [solve_Permutation|done|].
    intros ->. split_and!; [done|set_solver|lia].
  - cbn. eapply gates_report; [exact Ht|exact HG|..]; omaps; [done|lia|].
    intros ->. split_and!; [done|set_solver|lia].
  - assert (Hlen : (length (finalization_done y) < 1)%nat).
    { destruct HG as [_ G2 _ _]. rewrite Ht in G2. revert G2. omaps. destruct (finalization_in_flight (orch y)); lia. }
    rewrite decide_True by done. cbn. eapply gates_report; [exact Ht|exact HG|..]; omaps; [done|lia|].
    intros ->. split_and!; [done|set_solver|lia].
  - done.
  - cbn. eapply gates_report; [exact Ht|exact HG|..]; omaps; [done|lia|].
    intros ->. split_and!; [done|set_solver|lia].
  - case_decide; cbn; eapply gates_report; try exact Ht; try exact HG; omaps; try done; try lia.
    intros ->. split_and!; [done|set_solver|lia].
  - cbn. eapply gates_report; [exact Ht|exact HG|..]; omaps; [done|lia|].
    intros ->. split_and!; [done|set_solver|lia].
  - case_decide; cbn; eapply gates_report; try exact Ht; try exact HG; omaps; try done; try lia.
    intros ->. split_and!; [done|set_solver|lia].
  - cbn. eapply gates_report; [exact Ht|exact HG|..]; omaps; [done|lia|].
    intros ->. split_and!; [done|set_solver|lia].
  - done.
  - done.
Qed.

(** ** The accumulator only moves by its operations *)

Inductive acc_moves : BatchAccumulator -> BatchAccumulator -> Prop :=
  | moves_refl a : acc_moves a a
  | moves_op o op a a' : acc_moves (acc_step o op a) a' -> acc_moves a a'
  | moves_db f a a' : acc_moves (persist f a) a' -> acc_moves a a'.

Lemma moves_one o op a : acc_moves a (acc_step o op a).
Proof. eapply moves_op, moves_refl. Qed.

Lemma moves_persist f a : acc_moves a (persist f a).
Proof. eapply moves_db, moves_refl. Qed.

Lemma moves_cache i r a : acc_moves a (cache_signature i r a).
Proof.
  assert (E : cache_signature i r a = acc_step (fun _ => false) (OSign i r) a) by (by destruct a).
  rewrite E. apply moves_one.
Qed.

#[export] Instance acc_moves_preorder : PreOrder acc_moves.
Proof.
  split; [exact moves_refl|]. intros a b c Hab Hbc. induction Hab as [a|o op a a' _ IH|f a a' _ IH].
  - done.
  - eapply moves_op. by apply IH.
  - eapply moves_db. by apply IH.
Qed.

Lemma acc_moves_wf a a' : acc_moves a a' -> acc_wf a -> acc_wf a'.
Proof.
  induction 1 as [a|o op a a' _ IH|f a a' _ IH]; [done|..]; intros Hw; apply IH; [by apply acc_wf_step|].
  destruct Hw as [? ? ? ?]. by split.
Qed.

(** The watermark and the blocks above it stay, the accumulator moves. *)
Definition evolves (s s' : OrchestratorState) : Prop :=
  acc_moves (accumulator s) (accumulator s') /\ checkpoint s' = checkpoint s /\ confirmed s' = confirmed s.

#[export] Instance evolves_preorder : PreOrder evolves.
Proof.
  split; [by intros s|]. intros s1 s2 s3 (H1 & ? & ?) (H2 & ? & ?).
  split_and!; [by transitivity (accumulator s2)|congruence..].
Qed.

Create HintDb orch.
#[export] Hint Resolve moves_refl moves_persist moves_cache : orch.
#[export] Hint Extern 2 (acc_moves ?a (set_batch ?o ?o ?i ?f ?t ?a)) => exact (moves_one o (OSetBatch i f t) a) : orch.
#[export] Hint Extern 2 (acc_moves ?a (insert_response ?o ?r ?a)) => exact (moves_one o (OInsertResponse r) a) : orch.
#[export] Hint Extern 2 (acc_moves ?a (mark_batch_submitted ?o ?i ?a)) => exact (moves_one o (OMarkSubmitted i) a) : orch.
#[export] Hint Extern 2 (acc_moves ?a (purge_responses ?o ?bs ?a)) => exact (moves_one o (OPurge bs) a) : orch.
#[export] Hint Extern 2 (acc_moves ?a (delete_batch_signature ?o ?i ?a)) => exact (moves_one o (ODeleteSignature i) a) : orch.
#[export] Hint Extern 2 (acc_moves ?a (mark_dispatched ?o ?i ?h ?l ?n ?m ?p ?a)) =>
  exact (moves_one o (ODispatch i h l n m p) a) : orch.
#[export] Hint Extern 2 (acc_moves ?a (mark_dispatched_external ?o ?i ?h ?l ?a)) =>
  exact (moves_one o (ODispatchExternal i h l) a) : orch.
#[export] Hint Extern 2 (acc_moves ?a (record_rbf_bump ?o ?i ?h ?m ?p ?a)) => exact (moves_one o (ORbfBump i h m p) a) : orch.
#[export] Hint Extern 2 (acc_moves ?a (record_dispatched_l1_block ?o ?i ?l ?a)) => exact (moves_one o (OL1Block i l) a) : orch.
#[export] Hint Extern 2 (acc_moves ?a (undispatch ?o ?i ?a).2) => exact (moves_one o (OUndispatch i) a) : orch.
#[export] Hint Extern 2 (acc_moves ?a (finalize_dispatched ?o ?i ?a).2) => exact (moves_one o (OFinalize i) a) : orch.

(** [set_batch] with two outcomes is an operation and a database call. *)
Lemma moves_set_batch o1 o2 i f t a : acc_moves a (set_batch o1 o2 i f t a).
Proof.
  destruct (bool_decide (is_Some (dispatched a !! i)) || bool_decide (is_Some (batches a !! i))) eqn:Eb.
  { unfold set_batch. rewrite Eb. constructor. }
  set (acc := bool_decide (i ∈ buffered_blobs_accepted a)).
  set (a1 := persist (fun d => save_batch o2 (new_batch i f t acc)
               (if acc then delete_pending_blobs_accepted o1 i d else d)) a).
  assert (E : set_batch o1 o2 i f t a = persist (fun _ => acc_db a1) (set_batch (fun _ => false) (fun _ => false) i f t a1)).
  { assert (Eb1 : bool_decide (is_Some (dispatched a1 !! i)) || bool_decide (is_Some (batches a1 !! i)) = false) by exact Eb.
    unfold set_batch. rewrite Eb, Eb1. unfold a1, persist, with_batches, with_buffered. cbn.
    fold acc. destruct acc; reflexivity. }
  rewrite E. transitivity a1; [apply moves_persist|].
  transitivity (acc_step (fun _ => false) (OSetBatch i f t) a1); [apply moves_one|apply moves_persist].
Qed.
#[export] Hint Resolve moves_set_batch : orch.

(** Updates of the other fields, and updates of the accumulator. *)
Definition same_core (s s' : OrchestratorState) : Prop :=
  accumulator s' = accumulator s /\ checkpoint s' = checkpoint s /\ confirmed s' = confirmed s.

Lemma evolves_core s s' : same_core s s' -> evolves s s'.
Proof. intros (H1 & H2 & H3). split_and!; [rewrite H1; constructor|done|done]. Qed.

Lemma evolves_acc f s : acc_moves (accumulator s) (f (accumulator s)) -> evolves s (on_accumulator f s).
Proof. by repeat split. Qed.

Lemma evolves_db f s : evolves s (db_call f s).
Proof. apply evolves_acc, moves_persist. Qed.

Lemma try_sign_core s : same_core s (try_sign_next_batch s).
Proof.
  unfold try_sign_next_batch. destruct (signing_batch s); [done|].
  destruct (first_ready_unsigned _) as [i|]; [|done]. by destruct (batches _ !! i).
Qed.

Lemma try_dispatch_core now s : same_core s (try_dispatch_next_batch now s).
Proof.
  unfold try_dispatch_next_batch. destruct (dispatching_batch s); [done|].
  destruct (global_next_dispatch_allowed s) as [at_|]; [case_bool_decide; [done|]|];
    (destruct (pending_key_check s); [done|]); by destruct (first_sequential_signed _) as [[i sig]|].
Qed.

Lemma evolves_dispatch now s s' : evolves s s' -> evolves s (try_dispatch_next_batch now s').
Proof. intros H. etransitivity; [exact H|]. apply evolves_core, try_dispatch_core. Qed.

Lemma evolves_sign_dispatch now s s' :
  evolves s s' -> evolves s (try_dispatch_next_batch now (try_sign_next_batch s')).
Proof. intros H. apply evolves_dispatch. etransitivity; [exact H|]. apply evolves_core, try_sign_core. Qed.

Lemma evolves_then s s' s'' : same_core s' s'' -> evolves s s' -> evolves s s''.
Proof. intros H1 H2. etransitivity; [exact H2|by apply evolves_core]. Qed.

Lemma evolves_backoff now s s' : evolves s s' -> evolves s (apply_dispatch_backoff now s').
Proof. by apply evolves_then. Qed.

Lemma evolves_clear f s :
  acc_moves (accumulator s) (f (accumulator s)) -> evolves s (on_accumulator f (clear_backoff s)).
Proof. by repeat split. Qed.

Lemma evolves_cleared s s' : evolves s s' -> evolves s (clear_backoff s').
Proof. by apply evolves_then. Qed.

#[export] Hint Resolve evolves_cleared evolves_acc evolves_db evolves_dispatch evolves_sign_dispatch evolves_backoff evolves_clear : orch.

Lemma evolves_l1_event o now e s : evolves s (on_l1_event o now e s).
Proof.
  destruct e; cbn [on_l1_event]; auto with orch.
  - by apply (evolves_then _ (db_call (wipe_for_revert (o 0%nat) from_batch_index (u64 (l1_block + 1))) s)), evolves_db.
Qed.

Lemma evolves_bump o b e s : evolves s (on_rbf_bump o b e s).
Proof.
  destruct e; [|apply evolves_acc; auto with orch|done]. apply evolves_clear; auto with orch.
Qed.

Lemma evolves_sign_done o now b r s : evolves s (on_sign_done o now b r s).
Proof.
  unfold on_sign_done. transitivity (set_signing_batch None s); [by apply evolves_core|].
  set (s0 := set_signing_batch None s). clearbody s0. destruct r as [resp|bad addr|]; [| |done].
  - apply evolves_sign_dispatch. set (s1 := on_accumulator (cache_signature b resp) s0).
    assert (H1 : evolves s0 s1) by (apply evolves_acc; auto with orch). clearbody s1.
    destruct (batches (accumulator s1) !! b); [|done]. etransitivity; [exact H1|]. auto with orch.
  - eapply (evolves_then _ (on_accumulator (delete_batch_signature (o 1%nat) b)
      (on_accumulator (purge_responses (o 0%nat) bad) s0))).
    + assert (Hf : forall l s, same_core s (foldl (fun s b => spawn_re_execution b s) s l)).
      { clear. induction l as [|x l IH]; intros s; [done|]. cbn. destruct (IH (spawn_re_execution x s)) as (H1 & H2 & H3).
        by repeat split. }
      match goal with |- context [foldl _ ?x ?l] => destruct (Hf l x) as (H1 & H2 & H3) end. by repeat split.
    + transitivity (on_accumulator (purge_responses (o 0%nat) bad) s0); auto with orch.
Qed.

Lemma evolves_dispatch_done o now b r s : evolves s (on_dispatch_done o now b r s).
Proof.
  unfold on_dispatch_done. set (s0 := if decide (dispatching_batch s = Some b) then _ else s).
  assert (H0 : evolves s s0) by (unfold s0; case_decide; [by apply evolves_core|done]).
  etransitivity; [exact H0|]. clearbody s0.
  transitivity (on_dispatch_cancel (fun c => c ∖ {[ b ]}) s0); [by apply evolves_core|].
  set (s1 := on_dispatch_cancel _ _). clearbody s1.
  destruct r as [h l| |h [|]|h l|]; auto 8 with orch.
Qed.

Lemma evolves_observation o now out ob s : evolves s (apply_observation o now out ob s).2.
Proof.
  destruct ob as [[b h] [|kind| |]]; cbn; [| | |done].
  - destruct (finalize_dispatched _ _ _) as [[d|] a] eqn:E; [|by apply evolves_core].
    assert (Hev : evolves s (on_accumulator (fun _ => a) s)).
    { apply evolves_acc. change a with ((Some d, a).2). rewrite <- E. auto with orch. }
    destruct Hev as (Hm & _ & _). split_and!; [|done..]. cbn in *. etransitivity; [exact Hm|]. apply moves_persist.
  - case_decide; [|by apply evolves_core]. destruct (undispatch _ _ _) as [did a] eqn:E.
    assert (Hev : evolves s (on_accumulator (fun _ => a) s)).
    { apply evolves_acc. change a with ((did, a).2). rewrite <- E. auto with orch. }
    destruct Hev as (Hm & _ & _). by destruct did; split_and!.
  - case_decide; by apply evolves_core.
Qed.

Lemma evolves_changes o now d s : evolves s (apply_finalization_changes o now d s).2.
Proof.
  destruct d as [obs| |]; [|done..]. cbn [apply_finalization_changes].
  generalize (imap pair obs) {| changed := false; backoff_logic := false |}. intros l. revert s.
  induction l as [|x l IH]; intros s out; [done|]. cbn [foldl].
  destruct (apply_observation _ _ _ _ _) as [out' s'] eqn:E. etransitivity; [|apply IH].
  pose proof (evolves_observation (o x.1) now out x.2 s) as Hs. cbn [fst snd] in E. by rewrite E in Hs.
Qed.

Lemma evolves_finalization_done o now d s : evolves s (on_finalization_done o now d s).
Proof.
  unfold on_finalization_done. transitivity (on_finalization_in_flight (fun _ => false) s); [by apply evolves_core|].
  pose proof (evolves_changes o now d (on_finalization_in_flight (fun _ => false) s)) as H.
  destruct (apply_finalization_changes _ _ _ _) as [out s1].
  destruct (backoff_logic out), (changed out); auto with orch.
Qed.

Lemma evolves_key_check now a r s : evolves s (on_key_check now a r s).
Proof. destruct r; [apply evolves_sign_dispatch|]; by apply evolves_core. Qed.

(** ** The watermark *)

(** Blocks are received from a watermark on: everything up to [checkpoint] has
    been handled, and the next block is not waiting in [confirmed]. *)
Definition tight (s : OrchestratorState) : Prop := u64 (checkpoint s + 1) ∉ confirmed s.

Definition in_range (s : OrchestratorState) : Prop :=
  0 <= checkpoint s < u64_max /\ forall b, b ∈ confirmed s -> 0 <= b < u64_max.

Lemma u64_next c : 0 <= c < u64_max -> u64 (c + 1) = c + 1.
Proof. unfold u64, u64_max. intros. rewrite Z.mod_small; lia. Qed.

Lemma advance_spec fuel : forall s,
  (base.size (confirmed s) < fuel)%nat -> in_range s ->
  let s' := advance fuel s in
  in_range s' /\ accumulator s' = accumulator s /\ known_responses s' = known_responses s /\
  checkpoint s <= checkpoint s' /\ tight s' /\
  (forall b, b ∈ confirmed s' <-> b ∈ confirmed s /\ ~ checkpoint s < b <= checkpoint s') /\
  (forall b, checkpoint s < b <= checkpoint s' -> b ∈ confirmed s).
Proof.
  induction fuel as [|fuel IH]; intros s Hfuel [H0 Hb]; [lia|]. cbn [advance].
  destruct (decide (u64 (checkpoint s + 1) ∈ confirmed s)) as [Hin|Hin].
  - rewrite u64_next in Hin by done. set (s1 := on_confirmed _ _).
    assert (Ec : checkpoint s1 = checkpoint s + 1) by (by apply u64_next).
    assert (Ef : confirmed s1 = confirmed s ∖ {[ checkpoint s + 1 ]}) by (unfold s1; cbn; by rewrite u64_next).
    destruct (IH s1) as (HR & HA & HK & Hc & Ht & H1 & H2).
    + rewrite Ef. assert (base.size (confirmed s ∖ {[ (checkpoint s + 1)%Z ]}) < base.size (confirmed s))%nat; [|lia].
      apply subset_size. set_solver.
    + split; [rewrite Ec; specialize (Hb _ Hin); lia|]. rewrite Ef. intros b Hb'. apply Hb. set_solver.
    + cbn zeta. rewrite Ec, Ef in *. split_and!; [done..|lia|done| |].
      * intros b. rewrite H1, elem_of_difference, elem_of_singleton. intuition lia.
      * intros b ?. destruct (decide (b = checkpoint s + 1)) as [->|]; [done|].
        assert (b ∈ confirmed s ∖ {[checkpoint s + 1]}) by (apply H2; lia). set_solver.
  - split_and!; try done; intros b; intuition lia.
Qed.

Definition skipped (r : BlockResult) (s : OrchestratorState) : Prop :=
  result_block_number r ∈ known_responses s \/
  exists lbe, last_batch_end s = Some lbe /\ result_block_number r <= lbe.

Lemma block_result_skipped o now r s : skipped r s -> on_block_result o now r s = s.
Proof.
  intros Hs. unfold on_block_result. case_decide; [done|]. destruct Hs as [?|(lbe & -> & Hle)]; [done|].
  by rewrite bool_decide_true.
Qed.

(** The state a handled result leaves, before the loop looks for new work. *)
Definition recorded (o : nat -> outcomes) (r : BlockResult) (s : OrchestratorState) : OrchestratorState :=
  on_confirmed (fun c => {[ result_block_number r ]} ∪ c)
    (on_known_responses (fun k => {[ result_block_number r ]} ∪ k)
      (on_accumulator (insert_response (o 0%nat) (result_response r)) s)).

Lemma block_result_handled o now r s :
  ~ skipped r s ->
  exists s1, s1 = advance (S (base.size (confirmed (recorded o r s)))) (recorded o r s) /\
    on_block_result o now r s =
      try_dispatch_next_batch now (try_sign_next_batch (db_call (save_checkpoint (o 1%nat) (checkpoint s1)) s1)).
Proof.
  intros Hs. eexists; split; [done|]. unfold on_block_result. rewrite decide_False by (contradict Hs; by left).
  destruct (last_batch_end s) as [lbe|] eqn:El; [|done].
  rewrite bool_decide_false; [done|]. contradict Hs. right. eauto.
Qed.

Lemma known_dispatch now s : known_responses (try_dispatch_next_batch now (try_sign_next_batch s)) = known_responses s.
Proof.
  assert (E : known_responses (try_sign_next_batch s) = known_responses s).
  { unfold try_sign_next_batch. destruct (signing_batch s); [done|].
    destruct (first_ready_unsigned _) as [i|]; [|done]. by destruct (batches _ !! i). }
  rewrite <- E. generalize (try_sign_next_batch s). clear. intros s. unfold try_dispatch_next_batch.
  destruct (dispatching_batch s); [done|].
  destruct (global_next_dispatch_allowed s) as [at_|]; [case_bool_decide; [done|]|];
    (destruct (pending_key_check s); [done|]); by destruct (first_sequential_signed _) as [[i sig]|].
Qed.

Lemma sign_dispatch_core now s : same_core s (try_dispatch_next_batch now (try_sign_next_batch s)).
Proof.
  destruct (try_dispatch_core now (try_sign_next_batch s)) as (E1 & E2 & E3).
  destruct (try_sign_core s) as (F1 & F2 & F3). repeat split; congruence.
Qed.

(** C22: a block result.  A block already known, or below the last finalized
    batch, changes nothing.  Any other is recorded in the accumulator, and the
    watermark moves to the end of the longest run of received blocks above it:
    over received blocks only, as far as they go, keeping exactly the received
    blocks above it for later.  When the store accepts the writes, the response
    and the new watermark are durable. *)
Theorem block_result_watermark o now r s :
  in_range s -> 0 <= result_block_number r < u64_max ->
  let n := result_block_number r in
  let resp := result_response r in
  let s' := on_block_result o now r s in
  (skipped r s -> s' = s) /\
  (~ skipped r s ->
    (forall b, checkpoint s < b <= checkpoint s' -> b = n \/ b ∈ confirmed s) /\
    checkpoint s <= checkpoint s' /\ checkpoint s' + 1 ∉ confirmed s' /\
    (forall b, b ∈ confirmed s' <-> (b = n \/ b ∈ confirmed s) /\ ~ checkpoint s < b <= checkpoint s') /\
    n ∈ known_responses s' /\ responses (accumulator s') !! block_number resp = Some resp /\
    (o 0%nat = all_ok -> o 1%nat = all_ok ->
      get_checkpoint (acc_db (accumulator s')) = checkpoint s' /\
      block_responses (acc_db (accumulator s')) !! block_number resp = Some resp)).
Proof.
  intros HR Hn. cbn zeta. split; [apply block_result_skipped|]. intros Hs.
  destruct (block_result_handled o now r s Hs) as (s1 & Es1 & ->).
  set (s2 := db_call _ s1). pose proof (known_dispatch now s2) as HK.
  destruct (sign_dispatch_core now s2) as (EA & EC & EF). rewrite HK, EA, EC, EF.
  destruct (advance_spec (S (base.size (confirmed (recorded o r s)))) (recorded o r s)) as (H1 & H2 & H3 & H4 & H5 & H6 & H7).
  - lia.
  - destruct HR as [HR0 HR]. split; [done|]. cbn. intros b. rewrite elem_of_union, elem_of_singleton.
    intros [->|]; auto.
  - rewrite <- Es1 in H1, H2, H3, H4, H5, H6, H7. clear Es1.
    change (known_responses s2) with (known_responses s1). change (confirmed s2) with (confirmed s1).
    change (checkpoint s2) with (checkpoint s1). unfold tight in H5. destruct H1 as [H1 _]. rewrite u64_next in H5 by exact H1.
    cbn in H4, H6, H7. setoid_rewrite elem_of_union in H6. setoid_rewrite elem_of_singleton in H6.
    setoid_rewrite elem_of_union in H7. setoid_rewrite elem_of_singleton in H7.
    split_and!; try done.
    + rewrite H3. cbn. set_solver.
    + unfold s2. cbn. rewrite H2. cbn. apply lookup_insert_eq.
    + intros E0 E1. unfold s2. cbn. rewrite H2, E1. cbn. rewrite E0. cbn. split; [|apply lookup_insert_eq].
      unfold get_checkpoint. cbn. by rewrite lookup_insert_eq.
Qed.

(** ** Every reachable state *)

Lemma advance_tight fuel : forall s, (base.size (confirmed s) < fuel)%nat -> tight (advance fuel s).
Proof.
  induction fuel as [|fuel IH]; intros s Hfuel; [lia|]. cbn [advance].
  destruct (decide (u64 (checkpoint s + 1) ∈ confirmed s)) as [Hin|Hin]; [|done].
  apply IH. cbn.
  assert (base.size (confirmed s ∖ {[ u64 (checkpoint s + 1) ]}) < base.size (confirmed s))%nat; [|lia].
  apply subset_size. set_solver.
Qed.

Lemma advance_accumulator fuel : forall s, accumulator (advance fuel s) = accumulator s.
Proof. induction fuel as [|fuel IH]; intros s; [done|]. cbn [advance]. case_decide; [|done]. by rewrite IH. Qed.

(** What the handlers keep of the data. *)
Definition sound (s : OrchestratorState) : Prop := acc_wf (accumulator s) /\ tight s.

Lemma sound_evolves s s' : evolves s s' -> sound s -> sound s'.
Proof.
  intros (Hm & Ec & Ef) [Hw Ht]. split; [by eapply acc_moves_wf|]. unfold tight. by rewrite Ec, Ef.
Qed.

Lemma sound_block_result o now r s : sound s -> sound (on_block_result o now r s).
Proof.
  intros [Hw Ht].
  assert (Hcase : skipped r s \/ ~ skipped r s).
  { unfold skipped. destruct (decide (result_block_number r ∈ known_responses s)); [by left; left|].
    destruct (last_batch_end s) as [lbe|]; [|right; intros [?|(? & ? & _)]; done].
    destruct (decide (result_block_number r <= lbe)); [left; right; eauto|].
    right. intros [?|(? & [= <-] & ?)]; done. }
  destruct Hcase as [Hs|Hs]; [by rewrite block_result_skipped|].
  destruct (block_result_handled o now r s Hs) as (s1 & -> & ->).
  eapply (sound_evolves (advance (S (base.size (confirmed (recorded o r s)))) (recorded o r s))).
  - etransitivity; [apply evolves_db|]. apply evolves_core, sign_dispatch_core.
  - split; [|apply advance_tight; lia]. rewrite advance_accumulator.
    by apply (acc_wf_step (o 0%nat) (OInsertResponse (result_response r))).
Qed.

Lemma sound_receive o now y y' : sound (orch y) -> receive o now y = Some y' -> sound (orch y').
Proof.
  intros HS. unfold receive. destruct (shutdown (orch y)); [done|].
  destruct (finalization_done y) as [|d fd].
  2:{ intros [= <-]. by eapply sound_evolves, HS; apply evolves_finalization_done. }
  destruct (results y) as [|r rs].
  2:{ intros [= <-]. by apply sound_block_result. }
  destruct (l1_events y) as [|e es].
  2:{ intros [= <-]. by eapply sound_evolves, HS; apply evolves_l1_event. }
  destruct (sign_done y) as [|[b r] sd].
  2:{ intros [= <-]. by eapply sound_evolves, HS; apply evolves_sign_done. }
  destruct (dispatch_done y) as [|[b r] dd].
  2:{ intros [= <-]. by eapply sound_evolves, HS; apply evolves_dispatch_done. }
  destruct (rbf_bump y) as [|[b e] bs].
  2:{ intros [= <-]. by eapply sound_evolves, HS; apply evolves_bump. }
  destruct (key_check y) as [|[a r] ks]; [done|].
  intros [= <-]. by eapply sound_evolves, HS; apply evolves_key_check.
Qed.

Lemma sound_step y y' : sound (orch y) -> step y y' -> sound (orch y').
Proof.
  intros HS Hstep. destruct Hstep; try case_decide; cbn; try done.
  - by eapply sound_receive.
  - eapply sound_evolves, HS. apply evolves_core. unfold try_start_finalization.
    destruct (finalization_in_flight _); [done|]. by destruct (negb _).
  - eapply (sound_evolves (on_tasks (fun _ => pre ++ post) (orch y))); [|done].
    destruct r; [apply evolves_db|done|done].
Qed.

(** ** Startup *)

(** No batch is stored both as pending and as dispatched. *)
Definition store_disjoint (d : Db) : Prop :=
  forall b c, b ∈ load_batches d -> c ∈ load_dispatched_batches d -> pb_batch_index b <> db_batch_index c.

#[export] Instance store_disjoint_dec d : Decision (store_disjoint d).
Proof.
  refine (cast_if (decide (Forall (fun b => Forall (fun c => pb_batch_index b <> db_batch_index c)
    (load_dispatched_batches d)) (load_batches d)))); unfold store_disjoint.
  - intros b c Hb Hc. rewrite Forall_forall in f. specialize (f b Hb). rewrite Forall_forall in f. auto.
  - intros H. apply n, Forall_forall. intros b Hb. apply Forall_forall. auto.
Defined.

Lemma lookup_filed {V} (key : V -> Z) (l : list V) i v :
  (list_to_map ((fun v => (key v, v)) <$> l) : gmap Z V) !! i = Some v -> key v = i /\ v ∈ l.
Proof.
  intros H%elem_of_list_to_map_2. apply list_elem_of_fmap in H as (v' & [= -> ->] & Hin). done.
Qed.

Lemma acc_wf_with_db o d : store_disjoint d -> acc_wf (with_db o d).
Proof.
  intros Hd. split; cbn.
  - intros i b H. by apply lookup_filed in H as [].
  - intros i r H. rewrite <- fmap_reverse in H. by apply lookup_filed in H as [].
  - intros i c H. by apply lookup_filed in H as [].
  - intros i [b Hb]. apply eq_None_not_Some. intros [c Hc].
    apply lookup_filed in Hb as [Hb Hbin], Hc as [Hc Hcin]. apply list_elem_of_filter in Hcin as [_ Hcin].
    destruct (Hd b c Hbin Hcin). congruence.
Qed.

(** Resume workers are tasks only the dispatch gate knows. *)
Lemma resume_same s d : gates [] 0 [] 0 false s -> gates [] 0 [] 0 false (resume_one s d).
Proof.
  intros HG. unfold resume_one.
  destruct (db_nonce d), (max_fee_per_gas d), (max_priority_fee_per_gas d); try done.
  destruct (get_batch_signature _ _); [|done]. apply gates_spawn_other; [done..|].
  eapply gates_same; [|exact HG]. by repeat split.
Qed.

Lemma resume_core s d : same_core s (resume_one s d).
Proof.
  unfold resume_one. destruct (db_nonce d), (max_fee_per_gas d), (max_priority_fee_per_gas d); try done.
  by destruct (get_batch_signature _ _).
Qed.

Lemma start_spec o of_ now provider d :
  store_disjoint d -> gates [] 0 [] 0 false (start o of_ now provider d) /\ sound (start o of_ now provider d).
Proof.
  intros Hd. unfold start. set (s0 := Build_OrchestratorState _ _ _ _ _ _ _ _ _ _ _ _ _ _ _ _).
  assert (G0 : gates [] 0 [] 0 false s0) by (by split).
  assert (S0 : sound s0) by (split; [by apply acc_wf_with_db|apply not_elem_of_empty]).
  cbn zeta. set (s1 := if has_dispatched (accumulator s0) then _ else s0).
  assert (H1 : gates [] 0 [] 0 false s1 /\ sound s1 /\ confirmed s1 = ∅).
  { unfold s1. destruct (has_dispatched (accumulator s0)); [|done].
    set (done_ := check_finalized_batches_query _ _). split_and!.
    - eapply gates_same, G0. apply changes_same.
    - eapply sound_evolves, S0. apply evolves_changes.
    - apply (evolves_changes of_ now done_ s0). }
  clearbody s1. clear s0 G0 S0. destruct H1 as (G1 & [W1 _] & E1).
  set (s2 := on_checkpoint _ s1).
  assert (G2 : gates [] 0 [] 0 false s2) by (eapply gates_same, G1; by repeat split).
  assert (S2 : sound s2) by (split; [done|]; unfold tight; cbn; rewrite E1; apply not_elem_of_empty).
  clearbody s2. generalize (btree_values (dispatched (accumulator s2))). intros l.
  revert s2 G2 S2. induction l as [|x l IH]; intros s2 G2 S2; [done|]. cbn [foldl].
  apply IH; [by apply resume_same|]. eapply sound_evolves, S2. apply evolves_core, resume_core.
Qed.

Lemma reach_sound d y : store_disjoint d -> reach d y -> sys_gates y /\ sound (orch y).
Proof.
  intros Hd. induction 1 as [o of_ now provider|y y' _ [HG HS] Hstep].
  - by apply start_spec.
  - split; [by eapply step_gates|by eapply sound_step].
Qed.

(** C12: the invariants of the main loop.  Started on any store that does not
    hold a batch both as pending and as dispatched, whatever the tasks, the
    workers, the L1 listener and SQL do, in every reachable state:
    - the accumulator files every batch, response and dispatch under its own
      index, and no batch is pending and dispatched at once;
    - the watermark is tight: the next block is not waiting in [confirmed];
    - a closed signing gate has exactly one signing task running or one report
      queued, for its batch, and an open one has none; the same for the
      finalization gate;
    - while no guard's report was dropped, a closed dispatch gate has a worker
      running or a report queued for its batch, and a pending key check has a
      check running or a report queued: no gate stays closed for good. *)
Theorem orchestrator_invariants d y :
  store_disjoint d -> reach d y ->
  let s := orch y in
  acc_wf (accumulator s) /\ u64 (checkpoint s + 1) ∉ confirmed s /\
  omap sign_of (tasks s) ++ (sign_done y).*1 ≡ₚ option_list (signing_batch s) /\
  (length (omap finalization_of (tasks s)) + length (finalization_done y) =
    if finalization_in_flight s then 1 else 0)%nat /\
  (dropped y = false ->
    (forall b, dispatching_batch s = Some b -> b ∈ omap rbf_of (tasks s) ++ (dispatch_done y).*1) /\
    (pending_key_check s <> None -> (0 < length (omap key_of (tasks s)) + length (key_check y))%nat)).
Proof.
  intros Hd Hr. destruct (reach_sound d y Hd Hr) as [[G1 G2 G3 G4] [Hw Ht]]. split_and!; auto.
Qed.
