(* ===== verification/OrchestratorRuns.v ===== *)
(** * Runs of the main loop

    Concrete runs: the example of the loop's invariants, and behaviours the
    comments of the code rule out: two workers for one batch, a batch finalized
    before its transaction is, a revert after which one L1 block is never read,
    and an answer about one enclave key taken for another. *)
From S2P Require Import Prelude NitroTypes Db Accumulator AccRecovery RollupClient Rbf Orchestrator Startup OrchestratorLoop OrchestratorSafety.
From stdpp Require Import strings.
#[local] Open Scope Z_scope.

(** ** Steps of the main loop as functions *)

Definition oks : nat -> nat -> outcomes := fun _ _ => all_ok.

(** The loop handles one message, all SQL succeeding. *)
Definition handle (now : Z) (y : System) : System := default y (receive oks now y).

Lemma reach_handle d now y : reach d y -> is_Some (receive oks now y) -> reach d (handle now y).
Proof.
  intros Hr [y' E]. unfold handle. rewrite E. cbn. eapply reach_step; [exact Hr|]. by eapply step_receive.
Qed.

Lemma reach_l1 d e now y :
  reach d y -> (length (l1_events y) < 64)%nat -> let y1 := on_l1_events (fun c => c ++ [e]) y in
  is_Some (receive oks now y1) -> reach d (handle now y1).
Proof. intros Hr Hl y1 Hs. apply reach_handle; [|done]. eapply reach_step; [exact Hr|by apply step_l1]. Qed.

Definition take_l1 (now : Z) (e : L1Event) (y : System) : System := handle now (on_l1_events (fun c => c ++ [e]) y).
Definition take_result (now : Z) (r : BlockResult) (y : System) : System := handle now (on_results (fun c => c ++ [r]) y).
Definition tick (y : System) : System := with_orch (try_start_finalization (orch y)) y.

Definition no_l1 : FinalityRpc := {|
  finalized_block_number := None; receipt_status := fun _ => Ok None; tx_gas_limit := fun _ => Ok None |}.

(** ** A batch from its commitment to its dispatch *)

Definition fresh_system : System := initial (start (fun _ => all_ok) oks 0 no_l1 open).

Definition block_result (n : Z) : BlockResult :=
  {| result_block_number := n; result_response := sample_resp n |}.

Definition before_signing : System :=
  take_result 0 (block_result 1) (take_l1 0 (BatchSubmitted 1) (take_l1 0 (BatchCommitted 1 1 1) fresh_system)).

Definition after_signing : System :=
  handle 0 (on_channels id (fun c => c ++ [(1, Signed sample_sig)]) id id id
    (with_orch (sign_effect all_ok 1 (Signed sample_sig) (on_tasks (fun _ => []) (orch before_signing))) before_signing)).

Ltac has_message := apply (bool_decide_unpack _); vm_compute; exact I.
Ltac queue_room := apply Nat.ltb_lt; vm_compute; reflexivity.

Lemma reach_before_signing : reach open before_signing.
Proof.
  unfold before_signing, take_result, take_l1.
  assert (H0 : reach open fresh_system) by constructor.
  assert (H1 : reach open (take_l1 0 (BatchCommitted 1 1 1) fresh_system))
    by (apply reach_l1; [exact H0|queue_room|]; has_message).
  assert (H2 : reach open (take_l1 0 (BatchSubmitted 1) (take_l1 0 (BatchCommitted 1 1 1) fresh_system)))
    by (apply reach_l1; [exact H1|queue_room|]; has_message).
  apply reach_handle; [|has_message]. eapply reach_step; [exact H2|]. apply step_result. queue_room.
Qed.

Lemma reach_after_signing : reach open after_signing.
Proof.
  apply reach_handle; [|has_message]. eapply reach_step; [exact reach_before_signing|].
  eapply (step_sign all_ok 1 1 1 [sample_resp 1] (Signed sample_sig) [] []).
  - vm_compute. reflexivity.
  - done.
  - queue_room.
Qed.

Lemma orchestrator_invariants_witness :
  let s := orch after_signing in
  omap rbf_of (tasks s) = [1] /\ dispatching_batch s = Some 1 /\ checkpoint s = 1 /\
  acc_wf (accumulator s) /\ u64 (checkpoint s + 1) ∉ confirmed s /\
  omap sign_of (tasks s) ++ (sign_done after_signing).*1 ≡ₚ option_list (signing_batch s) /\
  (length (omap finalization_of (tasks s)) + length (finalization_done after_signing) =
    if finalization_in_flight s then 1 else 0)%nat /\
  (dropped after_signing = false ->
    (forall b, dispatching_batch s = Some b -> b ∈ omap rbf_of (tasks s) ++ (dispatch_done after_signing).*1) /\
    (pending_key_check s <> None -> (0 < length (omap key_of (tasks s)) + length (key_check after_signing))%nat)).
Proof.
  cbv zeta. split; [vm_compute; reflexivity|]. split; [vm_compute; reflexivity|]. split; [vm_compute; reflexivity|].
  apply (orchestrator_invariants open after_signing); [apply (bool_decide_unpack _); vm_compute; exact I|exact reach_after_signing].
Defined.

(** A result above the watermark waits for the one below it. *)
Definition waiting : OrchestratorState := orch (take_result 0 (block_result 2) fresh_system).

Lemma block_result_watermark_witness :
  let s' := on_block_result (fun _ => all_ok) 0 (block_result 1) waiting in
  checkpoint waiting = 0 /\ checkpoint s' = 2 /\
  (skipped (block_result 1) waiting -> s' = waiting) /\
  (~ skipped (block_result 1) waiting ->
    (forall b, checkpoint waiting < b <= checkpoint s' -> b = 1 \/ b ∈ confirmed waiting) /\
    checkpoint waiting <= checkpoint s' /\ checkpoint s' + 1 ∉ confirmed s' /\
    (forall b, b ∈ confirmed s' <-> (b = 1 \/ b ∈ confirmed waiting) /\ ~ checkpoint waiting < b <= checkpoint s') /\
    1 ∈ known_responses s' /\ responses (accumulator s') !! 1 = Some (sample_resp 1) /\
    (all_ok = all_ok -> all_ok = all_ok ->
      get_checkpoint (acc_db (accumulator s')) = checkpoint s' /\
      block_responses (acc_db (accumulator s')) !! 1 = Some (sample_resp 1))).
Proof.
  cbv zeta. split; [vm_compute; reflexivity|]. split; [vm_compute; reflexivity|].
  apply (block_result_watermark (fun _ => all_ok) 0 (block_result 1) waiting).
  - assert (E : confirmed waiting = {[ 2 ]}) by (apply (bool_decide_unpack _); vm_compute; exact I).
    split; [vm_compute; split; [discriminate|reflexivity]|]. rewrite E. unfold u64_max. set_solver by lia.
  - vm_compute. split; [discriminate|reflexivity].
Defined.

(** ** Two workers for one batch *)

(** A store with one dispatched batch, as a process leaves it that stops after
    the first broadcast. *)
Definition dispatched_store : Db := acc_db (acc_run (healthy
  [ OSetBatch 1 1 1; OMarkSubmitted 1; OInsertResponse (sample_resp 1); OSign 1 sample_sig;
    ODispatch 1 sample_hash 0 5 100 10 ]) empty_acc).

(** L1 says the transaction reverted, out of gas. *)
Definition reverted_l1 : FinalityRpc := {|
  finalized_block_number := Some 10; receipt_status := fun _ => Ok (Some (false, 99));
  tx_gas_limit := fun _ => Ok (Some 100) |}.

Definition resumed : System := initial (start (fun _ => all_ok) oks 0 no_l1 dispatched_store).
Definition checking : System := tick resumed.
Definition resume_task : task := RbfTask 1 (signature sample_sig)
  (Some {| resume_nonce := 5; resume_tx_hash := sample_hash; resume_max_fee_per_gas := 100;
           resume_max_priority_fee_per_gas := 10 |}).
Definition doubled : System :=
  handle 0 (on_channels (fun c => c ++ [check_finalized_batches_query reverted_l1 [(1, sample_hash, 0)]]) id id id id
    (finish (FinalizationTask [(1, sample_hash, 0)]) ([resume_task] ++ []) checking)).

Lemma reach_doubled : reach dispatched_store doubled.
Proof.
  apply reach_handle; [|has_message]. apply (reach_step _ checking).
  - apply (reach_step _ resumed); [constructor|]. apply step_tick. vm_compute. reflexivity.
  - apply (step_finalization [(1, sample_hash, 0)] reverted_l1 [resume_task] [] checking);
      [vm_compute; reflexivity|queue_room].
Qed.

(** A batch can have two workers.  The finalization ticker may see the
    revert of a transaction before the worker that resumed it does; the batch
    goes back to pending and a fresh worker is spawned for it while the first,
    whose cancel token nothing fires, is still running.  When the first then
    reports the revert, the gate of the second opens and its dispatch is undone. *)
Theorem two_workers_for_one_batch :
  exists d y y', store_disjoint d /\ reach d y /\ reach d y' /\
    omap rbf_of (tasks (orch y)) = [1; 1] /\ dispatching_batch (orch y) = Some 1 /\
    omap rbf_of (tasks (orch y')) = [1; 1] /\
    (exists h, dispatched_tx_hash 1 (accumulator (orch y)) = None /\
      dispatched_tx_hash 1 (accumulator (orch y')) = None /\
      first_sequential_signed (accumulator (orch y')) = Some (1, h)).
Proof.
  set (bump := on_channels id id id (fun c => c ++ [(1, InitialBroadcast [42] 6 100 10)]) id doubled).
  set (fresh := RbfTask 1 (signature sample_sig) None).
  set (late := on_channels id id (fun c => c ++ [(1, Reverted sample_hash Oog)]) id id
    (finish resume_task ([] ++ [fresh]) (handle 0 bump))).
  exists dispatched_store, doubled, (handle 0 late).
  assert (Hb : reach dispatched_store (handle 0 bump)).
  { apply reach_handle; [|has_message]. eapply reach_step; [exact reach_doubled|].
    apply (step_bump 1 (signature sample_sig) None (InitialBroadcast [42] 6 100 10)); [|queue_room].
    assert (E : tasks (orch doubled) = [resume_task; fresh]) by (vm_compute; reflexivity).
    rewrite E. right. left. }
  split; [apply (bool_decide_unpack _); vm_compute; exact I|]. split; [exact reach_doubled|]. split.
  { apply reach_handle; [|has_message]. apply (reach_step _ _ _ Hb).
    eapply (step_dispatched 1 _ _ (Reverted sample_hash Oog) [] [fresh]); [vm_compute; reflexivity|done|queue_room]. }
  split; [vm_compute; reflexivity|]. split; [vm_compute; reflexivity|]. split; [vm_compute; reflexivity|].
  eexists. split; [vm_compute; reflexivity|]. split; [vm_compute; reflexivity|]. vm_compute. reflexivity.
Qed.

(** ** Finality of a transaction not yet located *)

(** Until the worker reports the block of its transaction, the finality
    filter does not filter.  A first broadcast of a pending batch is recorded
    with block 0, so the next finality check asks for its receipt whatever the
    finalized block is, and a successful receipt, of any block, finalizes the
    batch: it is no longer dispatched, and results for its blocks are dropped. *)
Theorem placeholder_block_passes_finality o o' now provider b h nonce fee tip batch f gas s :
  batches (accumulator s) !! b = Some batch ->
  finalized_block_number provider = Some f -> 0 <= f ->
  receipt_status provider h = Ok (Some (true, gas)) ->
  let s1 := on_rbf_bump o b (InitialBroadcast h nonce fee tip) s in
  exists observations,
    check_finalized_batches_query provider (dispatched_snapshot (accumulator s1)) = Observed observations /\
    (b, h, Found) ∈ observations /\
    let s2 := (apply_observation o' now {| changed := false; backoff_logic := false |} (b, h, Found) s1).2 in
    dispatched (accumulator s1) !! b <> None /\ dispatched (accumulator s2) !! b = None /\
    exists lbe, last_batch_end s2 = Some lbe /\ pb_to_block batch <= lbe.
Proof.
  intros Hb Hf H0 Hr s1.
  set (d := {| db_batch_index := b; db_from_block := pb_from_block batch; db_to_block := pb_to_block batch;
    tx_hash := h; l1_block := 0; db_nonce := Some nonce; max_fee_per_gas := Some fee;
    max_priority_fee_per_gas := Some tip |}).
  assert (Hd : dispatched (accumulator s1) !! b = Some d).
  { unfold s1. cbn [on_rbf_bump on_accumulator accumulator clear_backoff on_global_next_dispatch_allowed on_global_dispatch_attempts].
    unfold mark_dispatched. rewrite Hb. cbn. rewrite lookup_insert_eq. reflexivity. }
  unfold check_finalized_batches_query. rewrite Hf.
  assert (Hin : (b, h, 0) ∈ filter (fun c : Z * list Z * Z => c.2 <= f) (dispatched_snapshot (accumulator s1))).
  { apply list_elem_of_filter. split; [done|]. apply list_elem_of_fmap. exists d. split; [done|].
    apply elem_of_btree_values. by exists b. }
  destruct (filter _ _) as [|c cs] eqn:Ef; [by apply not_elem_of_nil in Hin|].
  eexists. split; [reflexivity|]. split.
  { apply list_elem_of_fmap. exists (b, h, 0). split; [|done]. cbn. unfold check_receipt. by rewrite Hr. }
  cbn zeta. rewrite Hd. split; [done|].
  cbn [apply_observation on_missing_receipt_first_seen accumulator]. unfold finalize_dispatched. rewrite Hd.
  cbn. split; [apply lookup_delete_eq|]. eexists. split; [reflexivity|]. destruct (last_batch_end _); cbn; lia.
Qed.

Definition mined_l1 : FinalityRpc := {|
  finalized_block_number := Some 0; receipt_status := fun _ => Ok (Some (true, 1)); tx_gas_limit := fun _ => Ok None |}.

Lemma placeholder_block_passes_finality_witness :
  let s1 := on_rbf_bump (fun _ => all_ok) 1 (InitialBroadcast [42] 6 100 10) (orch before_signing) in
  exists observations,
    check_finalized_batches_query mined_l1 (dispatched_snapshot (accumulator s1)) = Observed observations /\
    (1, [42], Found) ∈ observations /\
    let s2 := (apply_observation (fun _ => all_ok) 0 {| changed := false; backoff_logic := false |} (1, [42], Found) s1).2 in
    dispatched (accumulator s1) !! 1 <> None /\ dispatched (accumulator s2) !! 1 = None /\
    exists lbe, last_batch_end s2 = Some lbe /\ 1 <= lbe.
Proof.
  apply (placeholder_block_passes_finality (fun _ => all_ok) (fun _ => all_ok) 0 mined_l1 1 [42] 6 100 10
    (new_batch 1 1 1 true) 0 1 (orch before_signing)); [vm_compute; reflexivity|reflexivity|lia|reflexivity].
Defined.

(** ** The L1 block after a revert *)

Lemma l1_checkpoint_meta d d' : meta d' = meta d -> get_l1_checkpoint d' = get_l1_checkpoint d.
Proof. unfold get_l1_checkpoint. by intros ->. Qed.

Lemma l1_checkpoint_other k v d :
  k <> "l1_checkpoint"%string -> get_l1_checkpoint (with_meta <[k := v]> d) = get_l1_checkpoint d.
Proof. intros Hk. unfold get_l1_checkpoint. cbn. by rewrite lookup_insert_ne. Qed.

Lemma l1_checkpoint_save o n d : get_l1_checkpoint (save_checkpoint o n d) = get_l1_checkpoint d.
Proof. unfold save_checkpoint, execute. destruct (o 0%nat); [by apply l1_checkpoint_other|done]. Qed.

Lemma l1_checkpoint_save_end o n d : get_l1_checkpoint (save_last_batch_end o n d) = get_l1_checkpoint d.
Proof. unfold save_last_batch_end, execute. destruct (o 0%nat); [by apply l1_checkpoint_other|done]. Qed.

Lemma l1_checkpoint_clear o d : get_l1_checkpoint (clear_start_batch_id o d) = get_l1_checkpoint d.
Proof.
  unfold clear_start_batch_id, execute. destruct (o 0%nat); [|done]. unfold get_l1_checkpoint. cbn.
  by rewrite lookup_delete_ne.
Qed.

Lemma l1_checkpoint_normalise o d : get_l1_checkpoint (normalise o d) = get_l1_checkpoint d.
Proof.
  unfold normalise. set (r := normalize_startup_checkpoint _ _ _ _).
  set (d1 := match earliest_gap r with Some _ => _ | None => d end).
  assert (E : get_l1_checkpoint d1 = get_l1_checkpoint d).
  { unfold d1. destruct (earliest_gap r); [|done]. generalize (imap pair (stale_signature_indexes r)). clear.
    intros l. revert d. induction l as [|x l IH]; intros d; [done|]. cbn [foldl]. rewrite IH.
    unfold delete_batch_signature_row, execute. by destruct (o (S x.1) 0%nat). }
  case_decide; [done|]. by rewrite l1_checkpoint_save.
Qed.

(** Startup resolves the start batch a revert left, and keeps its L1 anchor. *)
Lemma l1_checkpoint_startup o env resolve d d' i :
  get_start_batch_id d = Some i -> resolve_start o env resolve d = Ok d' ->
  get_l1_checkpoint d' = get_l1_checkpoint d.
Proof.
  intros Hi. unfold resolve_start. rewrite Hi. case_decide; [|by intros [= <-]].
  destruct (resolve i) as [[[l2 l1] x]| |]; [|done..]. intros [= <-]. rewrite l1_checkpoint_clear.
  destruct (get_last_batch_end _); [|rewrite l1_checkpoint_save_end]; by rewrite l1_checkpoint_save.
Qed.

(** A revert event of L1 block [l1] makes the next process skip a block.
    The store keeps [l1 + 1] as the last block read, although its documentation
    says it keeps the event's block; the next process listens from the block
    after it, so events of block [l1 + 1] are never read. *)
Theorem revert_restart_skips_a_block o now from_ l1 s o1 o2 env resolve deploy lfb w cp d' :
  o 0%nat = all_ok -> 0 <= l1 -> l1 + 2 < 2 ^ 64 -> deploy <= l1 ->
  let d := acc_db (accumulator (on_l1_event o now (BatchReverted from_ l1) s)) in
  startup o1 o2 env resolve deploy d = Ok ((lfb, w, cp), d') ->
  get_l1_checkpoint d = Some (l1 + 1) /\ lfb = l1 + 2.
Proof.
  intros Ho H0 Hl Hd. cbn [on_l1_event on_shutdown db_call on_accumulator accumulator persist acc_db].
  rewrite Ho. unfold u64. rewrite (Z.mod_small (l1 + 1)) by lia.
  set (d := wipe_for_revert all_ok from_ (l1 + 1) _).
  assert (Hi : get_start_batch_id d = Some from_) by reflexivity.
  assert (Hk : get_l1_checkpoint d = Some (l1 + 1)) by reflexivity. clearbody d. split; [done|].
  revert H. unfold startup. destruct (resolve_start o1 env resolve d) as [d1| |] eqn:E; cbn; [|done..].
  intros [= <- _ _ _]. rewrite l1_checkpoint_normalise, (l1_checkpoint_startup _ _ _ _ _ _ Hi E), Hk.
  unfold u64. rewrite Z.mod_small by lia. lia.
Qed.

Definition after_revert : Db := acc_db (accumulator (on_l1_event (fun _ => all_ok) 0 (BatchReverted 3 100) (orch fresh_system))).
Definition resolve_11 (_ : Z) : outcome string (Z * Z * Z) := Ok (11, 90, 0).
Definition restarted_store : Db :=
  match startup (fun _ => all_ok) (fun _ => all_ok) None resolve_11 5 after_revert with Ok (_, d) => d | _ => open end.

Lemma revert_restart_skips_a_block_witness :
  startup (fun _ => all_ok) (fun _ => all_ok) None resolve_11 5 after_revert = Ok ((102, 11, 10), restarted_store) /\
  get_l1_checkpoint after_revert = Some (100 + 1) /\ 102 = 100 + 2.
Proof.
  assert (E : startup (fun _ => all_ok) (fun _ => all_ok) None resolve_11 5 after_revert = Ok ((102, 11, 10), restarted_store))
    by (vm_compute; reflexivity).
  split; [exact E|].
  apply (revert_restart_skips_a_block (fun _ => all_ok) 0 3 100 (orch fresh_system) (fun _ => all_ok) (fun _ => all_ok)
    None resolve_11 5 102 11 10 restarted_store); [reflexivity|lia|lia|lia|exact E].
Defined.
