(* ===== verification/L1Listener.v ===== *)
(** * The L1 event listener ([bin/witness-orchestrator/src/l1_listener.rs])

    A task polls the rollup contract's logs page by page and sends what they
    say to the main loop, then a checkpoint.  The loop that polls runs for a
    given number of rounds here, and the loop over the pages of one poll has as
    much fuel as [poll_fuel] gives it, which is enough ([poll_ends]). *)
From S2P Require Import Prelude NitroTypes Interaction Text RollupClient Rbf Orchestrator.
From stdpp Require Import strings.
#[local] Open Scope Z_scope.

Definition MAX_POLL_BACKOFF_SECS : Z := 120.
Definition MIN_PAGE : Z := 100.
Definition MAX_PAGE : Z := 10000.
Definition INITIAL_PAGE : Z := 2000.

Definition is_too_many_results (err_msg : string) : bool :=
  let s := to_ascii_lowercase err_msg in
  contains "-32005" s ||
  contains "limit exceeded" s ||
  contains "too many results" s ||
  contains "log response size exceeded" s ||
  contains "query returned more than" s ||
  contains "please limit your query" s ||
  contains "range is too large" s.

Inductive PollOutcome : Type :=
  | Complete (block : Z)
  | Partial (block : Z).

Section Listener.
Context `{RollupAbi}.
Abbreviation io := (eff (L1Call L1Event) string).
Context (contract_addr : list Z).

(** [tx.send(event).await.is_err()]. *)
Definition emit (e : L1Event) : io unit :=
  open ← do (Send e);
  if (open : bool) then mret tt else throw "L1 event channel closed".

(** [{:?}] of an optional block number. *)
Definition show_block (o : option Z) : string :=
  match o with Some n => "Some(" +:+ str n +:+ ")" | None => "None" end.

Definition fetch_l2_number (what : string) (hash : list Z) : io Z :=
  block ← context ("L2 RPC failed to fetch " +:+ what +:+ " (" +:+ show_hash hash +:+ "): ")
            (ask (GetL2BlockByHash hash));
  ok_or ("Block " +:+ show_hash hash +:+ " not found on L2 Node") block.

(** The body of [for log in &logs]. *)
Definition process_log (log : Log) : io unit :=
  let topic0 := default (replicate 32 0) (topic0 log) in
  let at_ := " at L1 block " +:+ show_block (log_block_number log) +:+ ": " in
  if decide (topic0 = BatchCommitted_SIGNATURE_HASH) then
    event ← context ("Failed to decode BatchCommitted v1" +:+ at_) (of_outcome (BatchCommitted_decode log));
    let '(batchIndex, from_hash, to_hash, _) := event in
    batch_index ← try_into_u64 ("batchIndex to big: " +:+ str batchIndex) batchIndex;
    from_block ← fetch_l2_number "fromBlockHash" from_hash;
    let from_block_number := u64 (from_block + 1) in
    to_block_number ← fetch_l2_number "toBlockHash" to_hash;
    emit (BatchCommitted batch_index from_block_number to_block_number)
  else if decide (topic0 = BatchSubmitted_SIGNATURE_HASH) then
    batchIndex ← context ("Failed to decode BatchSubmitted" +:+ at_) (of_outcome (BatchSubmitted_decode log));
    batch_index ← try_into_u64 ("batchIndex overflow: " +:+ str batchIndex) batchIndex;
    emit (BatchSubmitted batch_index)
  else if decide (topic0 = BatchPreconfirmed_SIGNATURE_HASH) then
    batchIndex ← context ("Failed to decode BatchPreconfirmed" +:+ at_) (of_outcome (BatchPreconfirmed_decode log));
    batch_index ← try_into_u64 ("batchIndex overflow: " +:+ str batchIndex) batchIndex;
    tx_hash ← ok_or "BatchPreconfirmed log missing transaction_hash" (log_transaction_hash log);
    l1_block ← ok_or "BatchPreconfirmed log missing block_number" (log_block_number log);
    emit (BatchPreconfirmed batch_index tx_hash l1_block)
  else if decide (topic0 = BatchReverted_SIGNATURE_HASH) then
    fromBatchIndex ← context ("Failed to decode BatchReverted" +:+ at_) (of_outcome (BatchReverted_decode log));
    from_batch_index ← try_into_u64 ("fromBatchIndex overflow: " +:+ str fromBatchIndex) fromBatchIndex;
    l1_block ← ok_or "BatchReverted log missing block_number" (log_block_number log);
    emit (BatchReverted from_batch_index l1_block)
  else mret tt.

Fixpoint process_logs (logs : list Log) : io unit :=
  match logs with
  | [] => mret tt
  | log :: logs => _ ← process_log log; process_logs logs
  end.

Definition page_filter (from to_ : Z) : RollupClient.Filter := {|
  filter_address := contract_addr;
  filter_topic0 := [BatchCommitted_SIGNATURE_HASH; BatchSubmitted_SIGNATURE_HASH;
                    BatchPreconfirmed_SIGNATURE_HASH; BatchReverted_SIGNATURE_HASH];
  filter_topic1 := None; filter_from_block := from; filter_to_block := to_ |}.

Definition process_page (from to_ : Z) : io unit :=
  logs ← context ("Log query failed [" +:+ str from +:+ ".." +:+ str to_ +:+ "]: ")
           (ask (GetLogs (page_filter from to_)));
  process_logs logs.

(** [while current <= latest_block]: the outcome and the page size left. *)
Fixpoint poll_pages (fuel : nat) (latest_block current last_ok page_size : Z)
  : io (option (PollOutcome * Z)) :=
  match fuel with
  | O => mret None
  | S fuel =>
      if decide (current <= latest_block) then
        let page_end := Z.min (u64 (current + page_size - 1)) latest_block in
        r ← attempt (process_page current page_end);
        match r with
        | Panic => of_outcome Panic
        | Ok _ => poll_pages fuel latest_block (u64 (page_end + 1)) page_end (Z.min (page_size + 100) MAX_PAGE)
        | Err e =>
            if is_too_many_results e then
              cancelled ← do IsCancelled;
              if (cancelled : bool) then mret (Some (Partial last_ok, page_size))
              else
                let smaller := Z.max (page_size / 2) MIN_PAGE in
                if decide (page_size = MIN_PAGE) then mret (Some (Partial last_ok, smaller))
                else poll_pages fuel latest_block current last_ok smaller
            else mret (Some (Partial last_ok, page_size))
        end
      else mret (Some (Complete latest_block, page_size))
  end.

Definition poll_fuel (latest_block from_block : Z) : nat := Z.to_nat (16 * (latest_block - from_block) + 32).

(** Fails only before the page size changes. *)
Definition poll_once (from_block safe_blocks page_size : Z) : io (option (PollOutcome * Z)) :=
  raw_latest ← context "Failed to get latest block: " (ask GetBlockNumber);
  let latest_block := sat_sub raw_latest safe_blocks in
  if decide (latest_block < from_block) then mret (Some (Complete (sat_sub from_block 1), page_size))
  else poll_pages (poll_fuel latest_block from_block) latest_block from_block (sat_sub from_block 1) page_size.

(** The listener's loop. *)
Fixpoint listen (rounds : nat) (poll_interval_secs safe_blocks from_block backoff_secs page_size : Z)
  : io (option unit) :=
  match rounds with
  | O => mret None
  | S rounds =>
      cancelled ← do IsCancelled;
      if (cancelled : bool) then mret (Some tt)
      else
        closed ← do IsClosed;
        if (closed : bool) then mret (Some tt)
        else
          polled ← attempt (poll_once from_block safe_blocks page_size);
          match polled with
          | Panic => of_outcome Panic
          | Ok None => mret None
          | Ok (Some (Complete latest, page_size)) =>
              open ← do (Send (Checkpoint latest));
              if (open : bool) then
                stop ← do SleepOrCancelled;
                if (stop : bool) then mret (Some tt)
                else listen rounds poll_interval_secs safe_blocks (u64 (latest + 1)) poll_interval_secs page_size
              else mret (Some tt)
          | Ok (Some (Partial last_ok, page_size)) =>
              open ← do (Send (Checkpoint last_ok));
              if (open : bool) then
                stop ← do SleepOrCancelled;
                if (stop : bool) then mret (Some tt)
                else listen rounds poll_interval_secs safe_blocks (u64 (last_ok + 1))
                       (Z.min (u64 (backoff_secs * 2)) MAX_POLL_BACKOFF_SECS) page_size
              else mret (Some tt)
          | Err _ =>
              stop ← do SleepOrCancelled;
              if (stop : bool) then mret (Some tt)
              else listen rounds poll_interval_secs safe_blocks from_block
                     (Z.min (u64 (backoff_secs * 2)) MAX_POLL_BACKOFF_SECS) page_size
          end
  end.

(** [run]. *)
Definition run_listener (rounds : nat) (from_block poll_interval_secs safe_blocks : Z) : io (option unit) :=
  listen rounds poll_interval_secs safe_blocks from_block poll_interval_secs INITIAL_PAGE.
End Listener.
