(* ===== verification/L1ListenerSpec.v ===== *)
(** * What the L1 listener delivers

    Against a node that answers log queries truthfully, every checkpoint the
    listener sends comes after all events of the blocks it covers, in order,
    whatever fails in between. *)
From S2P Require Import Prelude NitroTypes Interaction Text RollupClient Rbf RbfSpec Orchestrator L1Listener.
From stdpp Require Import strings.
#[local] Open Scope Z_scope.

Section Delivery.
Context `{RollupAbi}.
Abbreviation io := (eff (L1Call L1Event) string).

(** The contract's logs of each L1 block, and the number of each L2 block. *)
Context (chain : Z -> list Log) (l2 : list Z -> option Z).

Definition chain_logs (from to_ : Z) : list Log := range_incl from to_ ≫= chain.

(** The event a log stands for: [None] when it cannot be read. *)
Definition log_event (log : Log) : option (option L1Event) :=
  let topic0 := default (replicate 32 0) (topic0 log) in
  let index (o : outcome string Z) (f : Z -> option L1Event) : option (option L1Event) :=
    match o with Ok i => if decide (i < 2 ^ 64) then Some <$> f i else None | _ => None end in
  if decide (topic0 = BatchCommitted_SIGNATURE_HASH) then
    match BatchCommitted_decode log with
    | Ok (i, from_hash, to_hash, _) =>
        index (Ok i) (fun i => f ← l2 from_hash; t ← l2 to_hash; Some (BatchCommitted i (u64 (f + 1)) t))
    | _ => None
    end
  else if decide (topic0 = BatchSubmitted_SIGNATURE_HASH) then
    index (BatchSubmitted_decode log) (fun i => Some (BatchSubmitted i))
  else if decide (topic0 = BatchPreconfirmed_SIGNATURE_HASH) then
    index (BatchPreconfirmed_decode log)
      (fun i => h ← log_transaction_hash log; n ← log_block_number log; Some (BatchPreconfirmed i h n))
  else if decide (topic0 = BatchReverted_SIGNATURE_HASH) then
    index (BatchReverted_decode log) (fun i => n ← log_block_number log; Some (BatchReverted i n))
  else Some None.

Fixpoint events_of (logs : list Log) : option (list L1Event) :=
  match logs with
  | [] => Some []
  | log :: logs => e ← log_event log; es ← events_of logs; Some (option_list e ++ es)
  end.

Lemma events_of_app l1 l2' e1 e2 :
  events_of l1 = Some e1 -> events_of l2' = Some e2 -> events_of (l1 ++ l2') = Some (e1 ++ e2).
Proof.
  revert e1. induction l1 as [|log l1 IH]; intros e1 E1 E2; cbn in *; [by injection E1 as <-|].
  destruct (log_event log) as [e|]; cbn in *; [|done]. destruct (events_of l1) as [es|]; cbn in *; [|done].
  injection E1 as <-. rewrite (IH es eq_refl E2). cbn. by rewrite app_assoc.
Qed.

Lemma chain_logs_split a b c : a <= b + 1 -> b <= c -> chain_logs a c = chain_logs a b ++ chain_logs (b + 1) c.
Proof.
  intros. unfold chain_logs, range_incl. rewrite <- bind_app. f_equal.
  replace (c - a + 1) with ((b - a + 1) + (c - (b + 1) + 1)) by lia. rewrite seqZ_app by lia.
  do 2 f_equal. lia.
Qed.

(** A truthful answer; L1 is far from the end of its numbers. *)
Definition honest (R : Type) (c : L1Call L1Event R) : R -> Prop :=
  match c in L1Call _ R return R -> Prop with
  | GetLogs f => fun r => forall logs, r = Ok logs -> logs = chain_logs (filter_from_block f) (filter_to_block f)
  | GetL2BlockByHash h => fun r => forall n, r = Ok n -> n = l2 h
  | GetBlockNumber => fun r => forall n, r = Ok n -> 0 <= n < 2 ^ 63
  | _ => fun _ => True
  end.

(** The message a call delivers. *)
Definition delivers (R : Type) (c : L1Call L1Event R) : R -> list L1Event :=
  match c in L1Call _ R return R -> list L1Event with
  | Send m => fun open => if (open : bool) then [m] else []
  | _ => fun _ => []
  end.

(** ** The ghost state: what was delivered, and whether answers were truthful *)
Record seen : Type := { sent : list L1Event; truthful : Prop }.

Definition observe (R : Type) (g : seen) (c : L1Call L1Event R) (r : R) : seen := {|
  sent := sent g ++ delivers R c r; truthful := truthful g /\ honest R c r |}.

Context (start_block : Z).

(** All events of the blocks up to [n] are in [ms], in order. *)
Definition covered (n : Z) (ms : list L1Event) : Prop :=
  exists evs, events_of (chain_logs start_block n) = Some evs /\ evs `sublist_of` ms.

Definition allowed (R : Type) (g : seen) (c : L1Call L1Event R) : Prop :=
  match c with
  | Send (Checkpoint n) => truthful g -> covered n (sent g)
  | _ => True
  end.

Abbreviation checked := (checked allowed observe).

Lemma covered_grows n ms extra : covered n ms -> covered n (ms ++ extra).
Proof. intros (evs & E & Hs). exists evs. split; [done|]. by apply sublist_inserts_r. Qed.

Lemma covered_page a b ms evs extra :
  start_block <= a -> a <= b + 1 -> covered (a - 1) ms -> events_of (chain_logs a b) = Some evs ->
  evs `sublist_of` extra -> covered b (ms ++ extra).
Proof.
  intros Ha Hb (evs0 & E0 & Hs0) E Hs. exists (evs0 ++ evs). split; [|by apply sublist_app].
  destruct (decide (a = b + 1)) as [->|].
  - replace (b + 1 - 1) with b in * by lia. unfold chain_logs in E. unfold range_incl in E.
    replace (b - (b + 1) + 1) with 0 in E by lia. cbn in E. injection E as <-. by rewrite app_nil_r.
  - rewrite (chain_logs_split start_block (a - 1) b) by lia. replace (a - 1 + 1) with a by lia.
    by apply events_of_app.
Qed.

(** What a part of the listener does: it only adds messages; when it succeeds
    against truthful answers, it added [P]. *)
Definition adds {A} (g : seen) (P : list L1Event -> A -> Prop) (g' : seen) (r : outcome string A) : Prop :=
  exists extra, sent g' = sent g ++ extra /\ (truthful g' -> truthful g) /\
    (truthful g' -> forall a, r = Ok a -> P extra a).

Lemma adds_observe {A R} (g : seen) (c : L1Call L1Event R) (x : R) P g' (r : outcome string A) :
  adds (observe R g c x) (fun extra a => honest R c x -> P (delivers R c x ++ extra) a) g' r -> adds g P g' r.
Proof.
  intros (extra & Es & Ht & Hp). exists (delivers R c x ++ extra). cbn in *. rewrite app_assoc. split_and!; [done| |].
  - intros T. by destruct (Ht T).
  - intros T a E. by apply Hp; [..|apply (Ht T)].
Qed.

Lemma adds_fail {A} g (P : list L1Event -> A -> Prop) r : (forall a, r <> Ok a) -> adds g P g r.
Proof. intros Hr. exists []. rewrite app_nil_r. split_and!; [done|done|]. intros _ a ->. by destruct (Hr a). Qed.

Lemma adds_ok {A} g (P : list L1Event -> A -> Prop) a : P [] a -> adds g P g (Ok a).
Proof. intros Hp. exists []. rewrite app_nil_r. split_and!; [done|done|]. by intros _ ? [= <-]. Qed.

(** Rules for [adds] along a function. *)
Lemma adds_ask {A B} text (c : L1Call L1Event (outcome string A)) (k : A -> io B) P g :
  allowed _ g c -> delivers _ c = (fun _ => []) ->
  (forall a g1, checked g1 (k a) (adds g1 (fun extra b => honest _ c (Ok a) -> P extra b))) ->
  checked g (context text (ask c) ≫= k) (adds g P).
Proof.
  intros Ha Hd Hk. apply checked_ask; [exact Ha|]. intros [a|e|].
  - eapply checked_mono; [|apply Hk]. intros g' r Hr. eapply adds_observe. by rewrite Hd.
  - eapply adds_observe. apply adds_fail. done.
  - eapply adds_observe. apply adds_fail. done.
Qed.

Lemma adds_outcome {A B} text (o : outcome string A) (k : A -> io B) P g :
  (forall a, o = Ok a -> checked g (k a) (adds g P)) -> checked g (context text (of_outcome o) ≫= k) (adds g P).
Proof. intros Hk. apply checked_outcome. destruct o; [by apply Hk|by apply adds_fail..]. Qed.

Lemma adds_of_outcome {A B} (o : outcome string A) (k : A -> io B) P g :
  (forall a, o = Ok a -> checked g (k a) (adds g P)) -> checked g (of_outcome o ≫= k) (adds g P).
Proof. intros Hk. apply checked_of_outcome. destruct o; [by apply Hk|by apply adds_fail..]. Qed.

Lemma adds_u64 {B} text n (k : Z -> io B) P g :
  (n < 2 ^ 64 -> checked g (k n) (adds g P)) -> checked g (try_into_u64 text n ≫= k) (adds g P).
Proof. intros Hk. apply adds_of_outcome. intros a. case_decide; [|done]. intros [= <-]. auto. Qed.

Lemma adds_ok_or {A B} text (o : option A) (k : A -> io B) P g :
  (forall a, o = Some a -> checked g (k a) (adds g P)) -> checked g (ok_or text o ≫= k) (adds g P).
Proof. intros Hk. apply adds_of_outcome. intros a. destruct o; [|done]. intros [= <-]. auto. Qed.

Lemma adds_seq {A B} (p : io A) (k : A -> io B) P1 P g :
  checked g p (adds g P1) ->
  (forall a g1, checked g1 (k a) (adds g1 (fun extra b => forall ex1, P1 ex1 a -> P (ex1 ++ extra) b))) ->
  checked g (p ≫= k) (adds g P).
Proof.
  intros Hp Hk. apply checked_eff_bind. eapply checked_mono; [|exact Hp].
  intros g1 [a|e|] (ex1 & Es1 & Ht1 & Hp1); cbn.
  - eapply checked_mono; [|apply Hk]. intros g2 r (ex2 & Es2 & Ht2 & Hp2). exists (ex1 ++ ex2).
    rewrite app_assoc, <- Es1. split_and!; [done|auto|]. intros T b E. apply Hp2; [done..|]. apply Hp1; auto.
  - exists ex1. by split_and!.
  - exists ex1. by split_and!.
Qed.

Lemma adds_fetch {B} what hash (k : Z -> io B) P g :
  (forall n g1, checked g1 (k n) (adds g1 (fun extra b => l2 hash = Some n -> P extra b))) ->
  checked g (fetch_l2_number what hash ≫= k) (adds g P).
Proof.
  intros Hk. apply (adds_seq _ _ (fun ex n => ex = [] /\ l2 hash = Some n)).
  - apply adds_ask; [done|done|]. intros [n|] g1; cbn.
    + apply adds_ok. intros Hh. by rewrite (Hh _ eq_refl).
    + by apply adds_fail.
  - intros n g1. eapply checked_mono; [|apply Hk]. intros g' r (ex & Es & Ht & Hp). exists ex. split_and!; [exact Es|exact Ht|].
    intros T a E ex1 [-> Hn]. by apply Hp.
Qed.

Definition is_event (e : L1Event) : Prop := match e with Checkpoint _ => False | _ => True end.

Lemma adds_emit e (P : list L1Event -> unit -> Prop) g :
  is_event e -> P [e] tt -> checked g (emit e) (adds g P).
Proof.
  intros He HP. apply checked_lift; [by destruct e|]. intros [|].
  - eapply adds_observe. by apply adds_ok.
  - eapply adds_observe. by apply adds_fail.
Qed.

Lemma process_log_adds log g :
  checked g (process_log log) (adds g (fun extra _ => exists e, log_event log = Some e /\ extra = option_list e)).
Proof.
  unfold process_log, log_event. cbn zeta. set (t0 := default (replicate 32 0) (topic0 log)).
  destruct (decide (t0 = BatchCommitted_SIGNATURE_HASH)) as [->|].
  - apply adds_outcome. intros [[[i fh] th] nb] ->. apply adds_u64. intros Hi. rewrite decide_True by done.
    apply adds_fetch. intros f g1. apply adds_fetch. intros t g2. apply adds_emit; [done|].
    intros Ht Hf. rewrite Hf, Ht. by eexists.
  - destruct (decide (t0 = BatchSubmitted_SIGNATURE_HASH)) as [->|].
    + apply adds_outcome. intros i ->. apply adds_u64. intros Hi. rewrite decide_True by done.
      apply adds_emit; [done|]. by eexists.
    + destruct (decide (t0 = BatchPreconfirmed_SIGNATURE_HASH)) as [->|].
      * apply adds_outcome. intros i ->. apply adds_u64. intros Hi. rewrite decide_True by done.
        apply adds_ok_or. intros h ->. apply adds_ok_or. intros l1 ->. apply adds_emit; [done|]. by eexists.
      * destruct (decide (t0 = BatchReverted_SIGNATURE_HASH)) as [->|].
        -- apply adds_outcome. intros i ->. apply adds_u64. intros Hi. rewrite decide_True by done.
           apply adds_ok_or. intros l1 ->. apply adds_emit; [done|]. by eexists.
        -- apply adds_ok. by exists None.
Qed.

Lemma process_logs_adds logs : forall g,
  checked g (process_logs logs) (adds g (fun extra _ => events_of logs = Some extra)).
Proof.
  induction logs as [|log logs IH]; intros g; [by apply adds_ok|].
  cbn [process_logs]. eapply adds_seq; [apply process_log_adds|]. intros u g1.
  eapply checked_mono; [|apply IH]. intros g' r (ex & Es & Ht & Hp). exists ex. split_and!; [exact Es|exact Ht|].
  intros T a E ex1 (e & He & ->). cbn [events_of]. rewrite He. cbn. by rewrite (Hp T a E).
Qed.

Context (contract_addr : list Z).

Lemma process_page_adds from_ to_ g :
  checked g (process_page contract_addr from_ to_) (adds g (fun extra _ => events_of (chain_logs from_ to_) = Some extra)).
Proof.
  apply adds_ask; [done|done|]. intros logs g1. eapply checked_mono; [|apply process_logs_adds].
  intros g' r (ex & Es & Ht & Hp). exists ex. split_and!; [exact Es|exact Ht|]. intros T a E Hl.
  pose proof (Hl logs eq_refl) as El. cbn in El. rewrite <- El. by eapply Hp.
Qed.

Definition page_ok (p : Z) : Prop := MIN_PAGE <= p <= MAX_PAGE.

(** Where a poll is: everything below [current] is delivered. *)
Definition polling (latest current last_ok : Z) (ms : list L1Event) : Prop :=
  1 <= start_block <= current /\ current <= latest + 1 /\ 0 <= latest < 2 ^ 63 /\ last_ok = current - 1 /\
  covered (current - 1) ms.

(** What a poll leaves. *)
Definition polled (g' : seen) (r : outcome string (option (PollOutcome * Z))) : Prop :=
  match r with
  | Ok (Some (out, p)) =>
      page_ok p /\
      (truthful g' -> let n := match out with Complete n | Partial n => n end in
        1 <= start_block <= n + 1 /\ n < 2 ^ 63 /\ covered n (sent g'))
  | Err _ => False
  | _ => True
  end.

Lemma shrunk_ok p : page_ok p -> page_ok (Z.max (p / 2) MIN_PAGE).
Proof. unfold page_ok, MIN_PAGE, MAX_PAGE. intros. split; [lia|]. assert (p / 2 <= p) by dlia. lia. Qed.

Lemma grown_ok p : page_ok p -> page_ok (Z.min (p + 100) MAX_PAGE).
Proof. unfold page_ok, MIN_PAGE, MAX_PAGE. lia. Qed.

Lemma page_end_ok latest current page :
  page_ok page -> 0 <= current <= latest -> 0 <= latest < 2 ^ 63 ->
  let page_end := Z.min (u64 (current + page - 1)) latest in
  current <= page_end <= latest /\ u64 (page_end + 1) = page_end + 1.
Proof.
  unfold page_ok, MIN_PAGE, MAX_PAGE. intros Hp Hc Hl. cbn zeta.
  assert (E : u64 (current + page - 1) = current + page - 1).
  { unfold u64. apply Z.mod_small. change (2 ^ 63) with 9223372036854775808 in *.
    change (2 ^ 64) with 18446744073709551616. lia. }
  rewrite E. split; [lia|]. unfold u64. apply Z.mod_small.
  change (2 ^ 63) with 9223372036854775808 in *. change (2 ^ 64) with 18446744073709551616. lia.
Qed.

Lemma partial_polled g latest current last_ok page :
  page_ok page -> (truthful g -> polling latest current last_ok (sent g)) ->
  polled g (Ok (Some (Partial last_ok, page))).
Proof.
  intros Hp Hg. split; [done|]. intros T. destruct (Hg T) as (? & ? & ? & -> & Hc). cbn. split_and!; [lia..|done].
Qed.

Lemma polling_grows latest current last_ok (g g' : seen) extra :
  sent g' = sent g ++ extra -> (truthful g' -> truthful g) ->
  (truthful g -> polling latest current last_ok (sent g)) -> truthful g' -> polling latest current last_ok (sent g').
Proof.
  intros Es Ht Hg T. destruct (Hg (Ht T)) as (? & ? & ? & ? & Hc). rewrite Es. split_and!; try lia.
  by apply covered_grows.
Qed.

Lemma poll_pages_checked fuel latest : forall current last_ok page g,
  page_ok page -> (truthful g -> polling latest current last_ok (sent g)) ->
  checked g (poll_pages contract_addr fuel latest current last_ok page) polled.
Proof.
  induction fuel as [|fuel IH]; intros current last_ok page g Hp Hg; cbn [poll_pages]; [done|].
  destruct (decide (current <= latest)) as [Hle|Hgt].
  2:{ split; [done|]. intros T. destruct (Hg T) as (? & ? & ? & ? & Hc).
      replace latest with (current - 1) by lia. cbn. split_and!; [lia..|done]. }
  cbn zeta. set (page_end := Z.min _ latest).
  apply checked_eff_bind, checked_attempt. eapply checked_mono; [|apply process_page_adds].
  intros g1 r (extra & Es & Ht & Hadd). cbn [eff_post].
  pose proof (polling_grows _ _ _ _ _ _ Es Ht Hg) as Hg1.
  destruct r as [u|e|]; [| |done].
  - apply IH; [by apply grown_ok|]. intros T. destruct (Hg (Ht T)) as (? & ? & ? & ? & Hc).
    destruct (page_end_ok latest current page Hp ltac:(lia) ltac:(lia)) as [Hpe Hnext]. fold page_end in Hpe, Hnext.
    rewrite Hnext. split_and!; [lia..|]. replace (page_end + 1 - 1) with page_end by lia. rewrite Es. eapply (covered_page current page_end); [lia|lia|exact Hc| |reflexivity]. by apply (Hadd T u).
  - destruct (is_too_many_results e).
    + apply checked_lift; [done|]. intros cancelled.
      assert (Hg2 : truthful (observe bool g1 IsCancelled cancelled) ->
        polling latest current last_ok (sent (observe bool g1 IsCancelled cancelled))).
      { eapply polling_grows; [reflexivity| |exact Hg1]. by intros []. }
      destruct cancelled; [by eapply partial_polled|].
      destruct (decide (page = MIN_PAGE)).
      * eapply partial_polled; [by apply shrunk_ok|exact Hg2].
      * apply IH; [by apply shrunk_ok|exact Hg2].
    + by eapply partial_polled.
Qed.

(** Where the listener is between two polls. *)
Definition ready (from_block : Z) (g : seen) : Prop :=
  truthful g -> 1 <= start_block <= from_block /\ from_block <= 2 ^ 63 /\ covered (from_block - 1) (sent g).

Lemma poll_once_checked safe_blocks from_block page g :
  page_ok page -> 0 <= safe_blocks -> ready from_block g ->
  checked g (poll_once contract_addr from_block safe_blocks page) (fun g' r =>
    match r with Err _ => ready from_block g' | _ => polled g' r end).
Proof.
  intros Hp Hs Hg. apply checked_ask; [done|].
  intros [raw|e|]; [|intros [T _]; cbn; rewrite app_nil_r; by apply Hg|done].
  set (g1 := observe _ g _ _).
  assert (Hg1 : ready from_block g1 /\ (truthful g1 -> 0 <= raw < 2 ^ 63)).
  { split; [intros [T _]; cbn; rewrite app_nil_r; by apply Hg|]. intros [_ Hh]. by apply Hh. }
  clearbody g1. destruct Hg1 as [Hg1 Hraw]. cbn zeta. case_decide as Hlt.
  - split; [done|]. intros T. destruct (Hg1 T) as (? & ? & Hc). cbn. unfold sat_sub. rewrite Z.max_l by lia.
    split_and!; [lia..|done].
  - eapply checked_mono; [|apply poll_pages_checked; [exact Hp|]].
    + intros g' [|e|]; cbn; [auto|done|auto].
    + intros T. destruct (Hg1 T) as (? & ? & Hc). specialize (Hraw T). unfold sat_sub in *.
      split_and!; try lia. done.
Qed.

Lemma ready_grows from_block g g' :
  ready from_block g -> (truthful g' -> truthful g) -> sent g' = sent g -> ready from_block g'.
Proof. intros Hg Ht Es T. rewrite Es. by apply Hg, Ht. Qed.

(** A checkpoint, then a pause. *)
Lemma checkpoint_step {A} n (k : bool -> io A) (Q : seen -> outcome string A -> Prop) g :
  (truthful g -> 1 <= start_block <= n + 1 /\ n < 2 ^ 63 /\ covered n (sent g)) ->
  (forall stop g', ready (u64 (n + 1)) g' -> checked g' (k stop) Q) ->
  checked g (open ← do (Send (Checkpoint n)); if (open : bool) then (stop ← do SleepOrCancelled; k stop) else k true) Q.
Proof.
  intros Hg Hk. apply checked_lift; [by intros T; apply Hg|]. intros open.
  assert (Hr : ready (u64 (n + 1)) (observe bool g (Send (Checkpoint n)) open)).
  { intros [T _]. destruct (Hg T) as (? & ? & Hc).
    assert (E : u64 (n + 1) = n + 1).
    { unfold u64. apply Z.mod_small. change (2 ^ 63) with 9223372036854775808 in *.
      change (2 ^ 64) with 18446744073709551616. lia. }
    rewrite E. replace (n + 1 - 1) with n by lia. split_and!; [lia..|]. by apply covered_grows. }
  destruct open; [|by apply Hk]. apply checked_lift; [done|]. intros stop. apply Hk.
  eapply ready_grows; [exact Hr|by intros []|]. cbn. by rewrite app_nil_r.
Qed.

Lemma listen_checked rounds poll_interval safe_blocks : forall from_block backoff page g,
  page_ok page -> 0 <= safe_blocks -> ready from_block g ->
  checked g (listen contract_addr rounds poll_interval safe_blocks from_block backoff page) (fun _ _ => True).
Proof.
  induction rounds as [|rounds IH]; intros from_block backoff page g Hp Hs Hg; [done|].
  cbn [listen]. apply checked_lift; [done|]. intros [|]; [done|]. apply checked_lift; [done|]. intros [|]; [done|].
  apply checked_eff_bind, checked_attempt. eapply checked_mono; [|apply poll_once_checked; [exact Hp|exact Hs|]].
  2:{ eapply ready_grows; [exact Hg|by intros [[] ?]|]. cbn. by rewrite !app_nil_r. }
  intros g1 [[[[n|n] page']|]|e|]; cbn [eff_post]; [| |done| |done].
  - intros [Hp' Hn].
    apply (checkpoint_step n (fun stop => if (stop : bool) then mret (Some tt) else listen contract_addr rounds
      poll_interval safe_blocks (u64 (n + 1)) poll_interval page')); [exact Hn|].
    intros [|] g' Hr; [done|]. by apply IH.
  - intros [Hp' Hn].
    apply (checkpoint_step n (fun stop => if (stop : bool) then mret (Some tt) else listen contract_addr rounds
      poll_interval safe_blocks (u64 (n + 1)) (Z.min (u64 (backoff * 2)) MAX_POLL_BACKOFF_SECS) page')); [exact Hn|].
    intros [|] g' Hr; [done|]. by apply IH.
  - intros Hr. apply checked_lift; [done|]. intros [|]; [done|]. apply IH; [done|done|].
    eapply ready_grows; [exact Hr|by intros []|]. cbn. by rewrite app_nil_r.
Qed.

(** ** Every poll ends *)

Definition anything (R : Type) (g : seen) (c : L1Call L1Event R) : Prop := True.

Lemma checked_truth {A} (p : prog (L1Call L1Event) A) : forall g : seen,
  Interaction.checked anything observe g p (fun g' _ => truthful g' -> truthful g).
Proof.
  induction p as [a|R c k IH]; intros g; [intros T; exact T|]. split; [done|]. intros r.
  eapply checked_mono; [|apply IH]. intros g' a Ht T. by destruct (Ht T).
Qed.

(** A page of less than 200 blocks shrinks to the smallest at once. *)
Definition rank (page : Z) : Z := Z.log2 page + (if decide (page = MIN_PAGE) then 0 else 1).

Lemma rank_bounds page : page_ok page -> 0 <= rank page <= 14.
Proof.
  unfold page_ok, rank, MIN_PAGE, MAX_PAGE. intros Hp. assert (0 <= Z.log2 page <= 13); [|case_decide; lia].
  split; [apply Z.log2_nonneg|]. assert (Z.log2 page < 14); [apply Z.log2_lt_pow2; lia|lia].
Qed.

Lemma rank_shrinks page : page_ok page -> page <> MIN_PAGE -> rank (Z.max (page / 2) MIN_PAGE) < rank page.
Proof.
  unfold page_ok, rank, MIN_PAGE, MAX_PAGE. intros Hp Hne. rewrite (decide_False (P := page = 100)) by done.
  destruct (decide (page < 202)) as [Hlt|Hge].
  - assert (E : Z.max (page / 2) 100 = 100) by dlia. rewrite E, decide_True by done. change (Z.log2 100) with 6.
    assert (6 <= Z.log2 page) by (apply Z.log2_le_pow2; lia). lia.
  - assert (E : Z.max (page / 2) 100 = page / 2) by dlia. rewrite E.
    assert (Hl : Z.log2 (page / 2) + 1 = Z.log2 page).
    { rewrite <- Z.div2_div, Z.div2_spec, Z.log2_shiftr by lia.
      assert (6 <= Z.log2 page) by (apply Z.log2_le_pow2; lia). lia. }
    case_decide; lia.
Qed.

Lemma poll_pages_ends fuel latest : forall current last_ok page g,
  page_ok page ->
  (truthful g -> 0 <= current <= latest + 1 /\ 0 <= latest < 2 ^ 63 /\
    16 * (latest + 1 - current) + rank page < Z.of_nat fuel) ->
  Interaction.checked anything observe g (poll_pages contract_addr fuel latest current last_ok page)
    (fun g' r => truthful g' -> r <> Ok None).
Proof.
  induction fuel as [|fuel IH]; intros current last_ok page g Hp Hg; pose proof (rank_bounds page Hp) as Hr.
  { intros T. specialize (Hg T). lia. }
  cbn [poll_pages]. destruct (decide (current <= latest)) as [Hle|Hgt]; [|done].
  cbn zeta. set (page_end := Z.min _ latest).
  apply checked_eff_bind, checked_attempt. eapply checked_mono; [|apply checked_truth].
  intros g1 r Ht. cbn [eff_post]. destruct r as [u|e|]; [| |done].
  - apply IH; [by apply grown_ok|]. intros T. destruct (Hg (Ht T)) as (? & ? & ?).
    destruct (page_end_ok latest current page Hp ltac:(lia) ltac:(lia)) as [Hpe Hnext]. fold page_end in Hpe, Hnext.
    rewrite Hnext. pose proof (rank_bounds _ (grown_ok page Hp)). lia.
  - destruct (is_too_many_results e); [|done]. apply checked_lift; [done|]. intros [|]; [done|].
    destruct (decide (page = MIN_PAGE)); [done|]. apply IH; [by apply shrunk_ok|].
    intros [T _]. destruct (Hg (Ht T)) as (? & ? & ?). pose proof (rank_shrinks page Hp ltac:(done)). lia.
Qed.

Lemma poll_once_ends safe_blocks from_block page g :
  page_ok page -> 0 <= from_block -> 0 <= safe_blocks ->
  Interaction.checked anything observe g (poll_once contract_addr from_block safe_blocks page)
    (fun g' r => truthful g' -> r <> Ok None).
Proof.
  intros Hp Hf Hs. apply checked_ask; [done|]. intros [raw|e|]; [|done..]. cbn zeta. case_decide as Hlt; [done|].
  apply poll_pages_ends; [exact Hp|]. intros [_ Hh]. pose proof (Hh raw eq_refl) as Hraw.
  pose proof (rank_bounds page Hp). unfold poll_fuel, sat_sub in *. split_and!; lia.
Qed.

(** ** Statements about traces *)

(** The messages a trace delivers, and the truthfulness of its answers. *)
Definition delivered (t : list (event (L1Call L1Event))) : list L1Event := t ≫= fun '(Ev c r) => delivers _ c r.
Definition truthful_trace (t : list (event (L1Call L1Event))) : Prop := Forall (fun '(Ev c r) => honest _ c r) t.

Lemma after_delivered t : forall g,
  sent (after observe g t) = sent g ++ delivered t /\
  (truthful g -> truthful_trace t -> truthful (after observe g t)).
Proof.
  induction t as [|[R c r] t IH]; intros g; cbn; [by rewrite app_nil_r|].
  destruct (IH (observe R g c r)) as [E1 E2]. split; [rewrite E1; cbn; by rewrite <- app_assoc|].
  intros T Ht. inversion_clear Ht. by apply E2.
Qed.

(** Splitting a trace at the call that delivers a message. *)
Lemma delivered_split t pre m post :
  delivered t = pre ++ m :: post ->
  exists t1 open t2, t = t1 ++ Ev (Send m) open :: t2 /\ delivered t1 = pre.
Proof.
  revert pre. induction t as [|[R c r] t IH]; intros pre E; cbn in E; [by destruct pre|].
  assert (Hc : delivers R c r = [] \/ exists m' : L1Event, delivers R c r = [m'] /\ exists open, Ev c r = Ev (Send m') open).
  { destruct c; cbn; auto. destruct r; eauto 10. }
  destruct Hc as [E0|(m' & E0 & open & Eev)]; rewrite E0 in E; cbn in E.
  - destruct (IH pre E) as (t1 & open & t2 & -> & E1). exists (Ev c r :: t1), open, t2.
    split; [done|].
    change (delivers R c r ++ delivered t1 = pre). by rewrite E0.
  - destruct pre as [|m0 pre]; cbn in E.
    + injection E as -> E. exists [], open, t. by rewrite Eev.
    + injection E as -> E. destruct (IH pre E) as (t1 & open' & t2 & -> & E1). exists (Ev c r :: t1), open', t2.
      split; [done|]. change (delivers R c r ++ delivered t1 = m0 :: pre). by rewrite E0, E1.
Qed.
End Delivery.

(** C29: the listener loses no event.  Against nodes that answer log and block
    queries truthfully (they may fail at any time, and the channel may close),
    for any number of rounds: when a checkpoint for L1 block [n] has been
    delivered to the main loop, then every event of every block from the first
    one up to [n] was delivered before it, in order.  And every poll ends: it
    has pages enough whatever is answered. *)
Theorem listener_loses_nothing `{RollupAbi} chain l2 contract_addr rounds from_block poll_interval safe_blocks :
  1 <= from_block <= 2 ^ 63 -> 0 <= safe_blocks ->
  (forall t r pre n post,
    exec (run_listener contract_addr rounds from_block poll_interval safe_blocks) t r ->
    truthful_trace chain l2 t -> delivered t = pre ++ Checkpoint n :: post ->
    exists events, events_of l2 (chain_logs chain from_block n) = Some events /\ events `sublist_of` pre) /\
  (forall current page t r,
    MIN_PAGE <= page <= MAX_PAGE -> 0 <= current ->
    exec (poll_once contract_addr current safe_blocks page) t r -> truthful_trace chain l2 t -> r <> Ok None).
Proof.
  intros Hf Hs. split.
  - intros t r pre n post He Ht E.
    assert (Hc := listen_checked chain l2 from_block contract_addr rounds poll_interval safe_blocks from_block
      poll_interval INITIAL_PAGE {| sent := []; truthful := True |}).
    destruct (checked_sound _ _ _ _ t r _ (Hc ltac:(by unfold page_ok) Hs
      ltac:(intros _; split_and!; [lia..|]; exists []; unfold chain_logs, range_incl;
        replace (from_block - 1 - from_block + 1) with 0 by lia; done)) He) as [Hr _].
    destruct (delivered_split t pre (Checkpoint n) post E) as (t1 & open & t2 & -> & E1).
    apply respects_app in Hr as [_ [Hr _]].
    destruct (after_delivered chain l2 t1 {| sent := []; truthful := True |}) as [Es Htr].
    unfold truthful_trace in Ht. apply Forall_app in Ht as [Ht1 _].
    destruct (Hr (Htr I Ht1)) as (evs & Ev1 & Ev2). exists evs. split; [done|]. by rewrite Es, E1 in Ev2.
  - intros current page t r Hp Hc He Ht.
    destruct (checked_sound _ _ _ _ t r _ (poll_once_ends chain l2 contract_addr safe_blocks current page
      {| sent := []; truthful := True |} Hp Hc Hs) He) as [_ Hr].
    apply Hr. by apply after_delivered.
Qed.

(** ** A run: the first query is refused, a batch is committed in block 5 and
    submitted in block 7, and the head is block 12 *)

Lemma run_truthful `{RollupAbi} chain l2 {A S} (answer : forall R, L1Call L1Event R -> S -> R * S)
    (p : prog (L1Call L1Event) A) :
  (forall R c s, honest chain l2 R c (answer R c s).1) -> forall s, truthful_trace chain l2 (run answer p s).1.2.
Proof.
  intros Ha. induction p as [a|R c k IH]; intros s; cbn; [constructor|].
  pose proof (Ha R c s) as Hc. destruct (answer R c s) as [r s1]. specialize (IH r s1).
  destruct (run answer (k r) s1) as [[a2 t2] s2]. by constructor.
Qed.

#[local] Existing Instance sample_abi.

Definition sample_log (t0 : Z) (d : list Z) (n : Z) : Log := {|
  topics := [[t0]]; data := d; log_block_number := Some n; log_transaction_hash := Some [99] |}.
Definition sample_chain (n : Z) : list Log :=
  if decide (n = 5) then [sample_log 1 [1; 20; 21; 1] 5] else if decide (n = 7) then [sample_log 2 [1] 7] else [].
Definition sample_l2 (h : list Z) : option Z :=
  if decide (h = [20]) then Some 9 else if decide (h = [21]) then Some 10 else None.

Definition listener_answer (R : Type) (c : L1Call L1Event R) (queries : nat) : R * nat :=
  match c in L1Call _ R return R * nat with
  | GetBlockNumber => (Ok 12, queries)
  | GetLogs f =>
      match queries with
      | O => (Err "Query returned more than 10000 results"%string, 1%nat)
      | n => (Ok (chain_logs sample_chain (filter_from_block f) (filter_to_block f)), n)
      end
  | GetL2BlockByHash h => (Ok (sample_l2 h), queries)
  | c => sample_answer _ c queries
  end.

Lemma listener_answer_honest R c s : honest sample_chain sample_l2 R c (listener_answer R c s).1.
Proof.
  destruct c; cbn; try done.
  - intros n [= <-]. lia.
  - destruct s; cbn; [done|]. by intros logs [= <-].
  - by intros n [= <-].
Qed.

Definition listener_run := run listener_answer (run_listener [10] 2 4 1 2) 0%nat.

Lemma listener_loses_nothing_witness :
  delivered listener_run.1.2 = [BatchCommitted 1 10 10; BatchSubmitted 1] ++ Checkpoint 10 :: [Checkpoint 10] /\
  exists events, events_of sample_l2 (chain_logs sample_chain 4 10) = Some events /\
    events `sublist_of` [BatchCommitted 1 10 10; BatchSubmitted 1].
Proof.
  assert (E : delivered listener_run.1.2 = [BatchCommitted 1 10 10; BatchSubmitted 1] ++ Checkpoint 10 :: [Checkpoint 10])
    by (vm_compute; reflexivity).
  split; [exact E|].
  assert (H4 : 1 <= 4 <= 2 ^ 63) by lia. assert (H2 : 0 <= 2) by lia.
  exact (proj1 (listener_loses_nothing sample_chain sample_l2 [10] 2 4 1 2 H4 H2)
    listener_run.1.2 listener_run.1.1 _ 10 _
    (run_sound listener_answer (run_listener [10] 2 4 1 2) 0%nat)
    (run_truthful sample_chain sample_l2 listener_answer _ listener_answer_honest 0%nat) E).
Defined.
