(* ===== verification/Hub.v ===== *)
(** * The cold witness store ([bin/witness-orchestrator/src/hub.rs])

    Witnesses are compressed and kept in one [redb] table, with a byte counter
    beside it; the tip-following path collects them in a buffer first.  A redb
    write transaction commits wholly or not at all: [ok] says which.  The
    compressor is a parameter.  Logs are left out, and with them the size cap,
    which only leads to a warning. *)
From S2P Require Import Prelude.
From stdpp Require Import strings.
#[local] Open Scope Z_scope.

Definition DEFAULT_COLD_BATCH_SIZE : nat := 32.

(** The [zstd] crate. *)
Class Zstd : Type := {
  encode_all : list Z -> Z -> outcome string (list Z);
  decode_all : list Z -> outcome string (list Z) }.

Class ZstdLaws `{Zstd} : Prop := {
  decode_encode_all : forall p level c, encode_all p level = Ok c -> decode_all c = Ok p }.

Record WitnessHub : Type := {
  cold : gmap Z (list Z);
  total_bytes : option Z;
  max_cold_bytes : Z;
  retention_blocks : Z;
  batch_size : nat;
  buffer : list (Z * list Z) }.

Definition with_store (c : gmap Z (list Z)) (n : Z) (h : WitnessHub) : WitnessHub := {|
  cold := c; total_bytes := Some n; max_cold_bytes := max_cold_bytes h;
  retention_blocks := retention_blocks h; batch_size := batch_size h; buffer := buffer h |}.
Definition with_buffer (b : list (Z * list Z)) (h : WitnessHub) : WitnessHub := {|
  cold := cold h; total_bytes := total_bytes h; max_cold_bytes := max_cold_bytes h;
  retention_blocks := retention_blocks h; batch_size := batch_size h; buffer := b |}.

(** [WitnessHub::new] on what the file holds. *)
Definition new_hub (c : gmap Z (list Z)) (n : option Z) (max_cold_bytes retention_blocks : Z) (batch_size : nat)
  : WitnessHub := {|
  cold := c; total_bytes := n; max_cold_bytes := max_cold_bytes; retention_blocks := retention_blocks;
  batch_size := Nat.max batch_size 1; buffer := [] |}.

Definition len64 (b : list Z) : Z := Z.of_nat (length b).

Definition read_total_bytes (n : option Z) : Z := default 0 n.

(** ** [commit_batch_blocking] *)

(** The loop over the entries: the table, the byte counter and the highest
    block. *)
Definition insert_entry (st : gmap Z (list Z) * Z * Z) (e : Z * list Z) : gmap Z (list Z) * Z * Z :=
  let '(c, total, highest) := st in
  let '(block_number, compressed) := e in
  let prior_len := match c !! block_number with Some v => len64 v | None => 0 end in
  (<[block_number := compressed]> c,
   sat_add64 (sat_sub total prior_len) (len64 compressed),
   if decide (highest < block_number) then block_number else highest).

(** The rows with a key that satisfies [P], with their sizes. *)
Definition rows (P : Z -> bool) (c : gmap Z (list Z)) : list (Z * Z) :=
  omap (fun k => if P k then (fun v => (k, len64 v)) <$> c !! k else None) (sorted_keys c).

Definition remove_row (st : gmap Z (list Z) * Z) (row : Z * Z) : gmap Z (list Z) * Z :=
  (base.delete row.1 st.1, sat_sub st.2 row.2).

Definition commit_batch_blocking (ok : bool) (entries : list (Z * list Z)) (h : WitnessHub)
  : outcome string unit * WitnessHub :=
  if ok then
    let '(c, total, highest) := foldl insert_entry (cold h, read_total_bytes (total_bytes h), 0) entries in
    let '(c, total) :=
      if decide (0 < retention_blocks h) then
        let cutoff := sat_sub highest (retention_blocks h) in
        if decide (0 < cutoff)
        then foldl remove_row (c, total) (rows (fun k => bool_decide (k < cutoff)) c)
        else (c, total)
      else (c, total) in
    (Ok tt, with_store c total h)
  else (Err "commit_batch"%string, h).

Definition commit_entries (ok : bool) (entries : list (Z * list Z)) (h : WitnessHub)
  : outcome string unit * WitnessHub :=
  match entries with
  | [] => (Ok tt, h)
  | _ => commit_batch_blocking ok entries h
  end.

(** ** Operations *)

Section Operations.
Context `{Zstd}.

Definition compress_payload (payload : list Z) : outcome string (list Z) :=
  map_err (fun e => "zstd encode: " +:+ e) (encode_all payload 3).

Definition push (ok : bool) (block_number : Z) (payload : list Z) (h : WitnessHub)
  : outcome string unit * WitnessHub :=
  match compress_payload payload with
  | Ok compressed => commit_entries ok [(block_number, compressed)] h
  | Err e => (Err e, h)
  | Panic => (Panic, h)
  end.

Definition push_batched (ok : bool) (block_number : Z) (payload : list Z) (h : WitnessHub)
  : outcome string unit * WitnessHub :=
  match compress_payload payload with
  | Ok compressed =>
      let buf := buffer h ++ [(block_number, compressed)] in
      if decide (batch_size h <= length buf)%nat then commit_entries ok buf (with_buffer [] h)
      else (Ok tt, with_buffer buf h)
  | Err e => (Err e, h)
  | Panic => (Panic, h)
  end.

Definition flush_pending (ok : bool) (h : WitnessHub) : outcome string unit * WitnessHub :=
  match buffer h with
  | [] => (Ok tt, h)
  | entries => commit_entries ok entries (with_buffer [] h)
  end.

(** Removed rows and freed bytes. *)
Definition unwind_above (ok : bool) (target : Z) (h : WitnessHub) : outcome string (Z * Z) * WitnessHub :=
  if ok then
    let stale := rows (fun k => bool_decide (u64 (target + 1) <= k)) (cold h) in
    let '(c, total) := foldl remove_row (cold h, read_total_bytes (total_bytes h)) stale in
    let bytes_freed := foldl (fun n row => sat_add64 n row.2) 0 stale in
    (Ok (Z.of_nat (length stale), bytes_freed), with_store c total h)
  else (Err "cold unwind"%string, h).

Definition last_committed_block (h : WitnessHub) : option Z := last (sorted_keys (cold h)).

(** [read] says whether the read transaction succeeds. *)
Definition get_witness (read : bool) (block_number : Z) (h : WitnessHub) : option (list Z) :=
  let decoded compressed := match decode_all compressed with Ok payload => Some payload | _ => None end in
  match List.find (fun e => bool_decide (e.1 = block_number)) (reverse (buffer h)) with
  | Some (_, compressed) => decoded compressed
  | None => if read then cold h !! block_number ≫= decoded else None
  end.
End Operations.
