(* ===== verification/HubSpec.v ===== *)
(** * What the cold witness store promises

    The byte counter is the size of the table whatever commits fail, and, while
    commits succeed, the store refines a map from blocks to their last pushed
    witness, kept over the retention window. *)
From S2P Require Import Prelude Hub.
From stdpp Require Import strings.
#[local] Open Scope Z_scope.

(** ** The byte counter *)

Definition stored (c : gmap Z (list Z)) : Z := map_fold (fun _ v n => len64 v + n) 0 c.

Lemma stored_insert c k v : c !! k = None -> stored (<[k := v]> c) = len64 v + stored c.
Proof. intros Hk. unfold stored. rewrite map_fold_insert_L; [done|intros; lia|done]. Qed.

Lemma stored_delete c k : stored (base.delete k c) = stored c - from_option len64 0 (c !! k).
Proof.
  destruct (c !! k) as [v|] eqn:E; cbn.
  - rewrite <- (insert_delete_id c k v E) at 2. rewrite stored_insert by apply lookup_delete_eq. lia.
  - rewrite delete_id by done. lia.
Qed.

Lemma stored_overwrite c k v : stored (<[k := v]> c) = stored c - from_option len64 0 (c !! k) + len64 v.
Proof.
  rewrite <- insert_delete_eq, stored_insert by apply lookup_delete_eq. rewrite stored_delete. lia.
Qed.

Lemma len64_nonneg v : 0 <= len64 v.
Proof. unfold len64. lia. Qed.

Lemma stored_nonneg c : 0 <= stored c.
Proof.
  unfold stored. apply (map_fold_weak_ind (fun n _ => 0 <= n)); [done|]. intros i x m r _ Hr. pose proof (len64_nonneg x). lia.
Qed.

Lemma stored_row c k v : c !! k = Some v -> 0 <= len64 v <= stored c.
Proof.
  intros E. pose proof (stored_delete c k) as Hd. rewrite E in Hd. cbn in Hd.
  pose proof (stored_nonneg (base.delete k c)). pose proof (len64_nonneg v). lia.
Qed.

Fixpoint bytes_of (es : list (Z * list Z)) : Z := match es with [] => 0 | e :: es => len64 e.2 + bytes_of es end.

Lemma bytes_of_nonneg es : 0 <= bytes_of es.
Proof. induction es as [|e es IH]; cbn; [done|]. pose proof (len64_nonneg e.2). lia. Qed.

Lemma bytes_of_app e1 e2 : bytes_of (e1 ++ e2) = bytes_of e1 + bytes_of e2.
Proof. induction e1 as [|e e1 IH]; cbn; lia. Qed.

Lemma inserts_stored es : forall c highest,
  stored c + bytes_of es <= u64_max ->
  let '(c', total, _) := foldl insert_entry (c, stored c, highest) es in
  total = stored c' /\ stored c' <= stored c + bytes_of es.
Proof.
  induction es as [|[n v] es IH]; intros c highest Hb; cbn in *; [lia|].
  pose proof (stored_overwrite c n v) as Ho. pose proof (bytes_of_nonneg es).
  assert (Hp : 0 <= match c !! n with Some v => len64 v | None => 0 end <= stored c).
  { destruct (c !! n) as [w|] eqn:E; [|pose proof (stored_nonneg c); lia]. by apply (stored_row c n w). }
  pose proof (len64_nonneg v).
  assert (Et : sat_add64 (sat_sub (stored c) match c !! n with Some v => len64 v | None => 0 end) (len64 v) =
    stored (<[n := v]> c)).
  { rewrite Ho. unfold sat_add64, sat_sub. destruct (c !! n); cbn in *; lia. }
  rewrite Et. specialize (IH (<[n := v]> c) (if decide (highest < n) then n else highest)).
  destruct (foldl insert_entry _ es) as [[c' total] hi]. destruct IH as [E1 E2]; [|split; [done|]];
    destruct (c !! n); cbn in *; lia.
Qed.

Lemma rows_spec P c : NoDup (rows P c).*1 /\ forall k n, (k, n) ∈ rows P c -> P k = true /\ exists v, c !! k = Some v /\ n = len64 v.
Proof.
  split.
  - unfold rows. pose proof (NoDup_sorted_keys c) as Hnd. revert Hnd. generalize (sorted_keys c). intros l.
    induction l as [|k l IH]; intros Hnd; [constructor|]. apply NoDup_cons in Hnd as [Hk Hnd]. cbn.
    destruct (P k); [|auto]. destruct (c !! k) as [v|]; cbn; [|auto]. constructor; [|auto].
    intros ([k' n] & -> & Hin)%list_elem_of_fmap. apply list_elem_of_omap in Hin as (k2 & Hk2 & E).
    destruct (P k2); [|done]. destruct (c !! k2); cbn in E; [|done]. by injection E as <- <-.
  - intros k n Hin. apply list_elem_of_omap in Hin as (k2 & Hk2 & E). destruct (P k2) eqn:EP; [|done].
    destruct (c !! k2) as [v|] eqn:Ev; cbn in E; [|done]. injection E as -> <-. eauto.
Qed.

Lemma removes_stored l : forall c,
  NoDup l.*1 -> (forall k n, (k, n) ∈ l -> exists v, c !! k = Some v /\ n = len64 v) ->
  foldl remove_row (c, stored c) l = (foldl (fun c k => base.delete k c) c l.*1, stored (foldl (fun c k => base.delete k c) c l.*1)) /\
  stored (foldl (fun c k => base.delete k c) c l.*1) <= stored c.
Proof.
  induction l as [|[k n] l IH]; intros c Hnd Hl; cbn; [done|].
  apply NoDup_cons in Hnd as [Hk Hnd]. destruct (Hl k n) as (v & Ev & ->); [left|].
  pose proof (stored_delete c k) as Hd. rewrite Ev in Hd. cbn in Hd. pose proof (stored_row c k v Ev).
  assert (E : remove_row (c, stored c) (k, len64 v) = (base.delete k c, stored (base.delete k c)))
    by (unfold remove_row; cbn; f_equal; unfold sat_sub; lia).
  rewrite E. destruct (IH (base.delete k c) Hnd) as [E1 E2].
  - intros k' n' Hin. destruct (Hl k' n') as (v' & Ev' & ->); [by right|]. exists v'. split; [|done].
    rewrite lookup_delete_ne; [done|]. intros ->. apply Hk, list_elem_of_fmap. by exists (k', len64 v').
  - split; [exact E1|]. lia.
Qed.

(** ** Histories *)

Inductive hub_op : Type :=
  | HPush (block_number : Z) (payload : list Z)
  | HPushBatched (block_number : Z) (payload : list Z)
  | HFlush
  | HUnwind (target : Z).

Section Histories.
Context `{Zstd}.

(** One call, whose transaction succeeds or not. *)
Definition hub_step (h : WitnessHub) (c : bool * hub_op) : WitnessHub :=
  match c.2 with
  | HPush n p => (push c.1 n p h).2
  | HPushBatched n p => (push_batched c.1 n p h).2
  | HFlush => (flush_pending c.1 h).2
  | HUnwind target => (unwind_above c.1 target h).2
  end.

Definition hub_run (h : WitnessHub) (cs : list (bool * hub_op)) : WitnessHub := foldl hub_step h cs.

(** The compressed bytes a call brings. *)
Definition op_bytes (op : hub_op) : Z :=
  match op with
  | HPush _ p | HPushBatched _ p => match compress_payload p with Ok c => len64 c | _ => 0 end
  | _ => 0
  end.

Definition run_bytes (cs : list (bool * hub_op)) : Z := foldr (fun c n => op_bytes c.2 + n) 0 cs.

(** The counter is right and there is room for [more] bytes. *)
Definition counted (more : Z) (h : WitnessHub) : Prop :=
  read_total_bytes (total_bytes h) = stored (cold h) /\ stored (cold h) + bytes_of (buffer h) + more <= u64_max.

Lemma commit_counted ok es more h :
  read_total_bytes (total_bytes h) = stored (cold h) ->
  stored (cold h) + bytes_of es + bytes_of (buffer h) + more <= u64_max -> 0 <= more ->
  counted more (commit_entries ok es h).2.
Proof.
  intros Ec Hb Hm. pose proof (bytes_of_nonneg es) as Hes. pose proof (bytes_of_nonneg (buffer h)).
  destruct es as [|e es]; [split; [done|cbn in *; lia]|]. cbn [commit_entries].
  unfold commit_batch_blocking. destruct ok; [|split; [done|cbn; lia]]. rewrite Ec.
  pose proof (inserts_stored (e :: es) (cold h) 0 ltac:(lia)) as Hi.
  destruct (foldl insert_entry _ _) as [[c total] highest]. destruct Hi as [-> Hle].
  assert (Hdone : counted more (with_store c (stored c) h)) by (split; cbn in *; lia).
  case_decide; [|exact Hdone]. case_decide; [|exact Hdone].
  destruct (rows_spec (fun k => bool_decide (k < sat_sub highest (retention_blocks h))) c) as [Hnd Hrows].
  destruct (removes_stored (rows (fun k => bool_decide (k < sat_sub highest (retention_blocks h))) c) c Hnd) as [-> Hless].
  - intros k n Hin. by apply Hrows in Hin as [_ ?].
  - split; cbn in *; lia.
Qed.

Lemma step_counted more h c : counted (op_bytes c.2 + more) h -> 0 <= more -> counted more (hub_step h c).
Proof.
  intros [Ec Hb] Hm. destruct c as [ok [n p|n p| |target]]; cbn in Hb |- *.
  - unfold push. destruct (compress_payload p) as [z| |]; [|split; [done|cbn; lia]..].
    apply commit_counted; [done|cbn; lia|done].
  - unfold push_batched. destruct (compress_payload p) as [z| |]; [|split; [done|cbn; lia]..].
    case_decide.
    + apply commit_counted; [done|rewrite bytes_of_app; cbn; lia|done].
    + split; [done|]. cbn. rewrite bytes_of_app. cbn. lia.
  - unfold flush_pending. destruct (buffer h) as [|e es] eqn:Eb.
    { split; [done|]. cbn. rewrite Eb. exact Hb. }
    apply commit_counted; [done|cbn in *; lia|done].
  - unfold unwind_above. destruct ok; [|split; [done|cbn; lia]]. rewrite Ec.
    destruct (rows_spec (fun k => bool_decide (u64 (target + 1) <= k)) (cold h)) as [Hnd Hrows].
    destruct (removes_stored (rows (fun k => bool_decide (u64 (target + 1) <= k)) (cold h)) (cold h) Hnd) as [-> Hless].
    + intros k m Hin. by apply Hrows in Hin as [_ ?].
    + split; cbn in *; lia.
Qed.

Lemma run_bytes_nonneg cs : 0 <= run_bytes cs.
Proof.
  induction cs as [|[ok op] cs IH]; [done|]. change (0 <= op_bytes op + run_bytes cs).
  assert (0 <= op_bytes op); [|lia].
  destruct op; cbn; try done; destruct (compress_payload _); try done; apply len64_nonneg.
Qed.

Lemma run_counted cs : forall h, counted (run_bytes cs) h -> counted 0 (hub_run h cs).
Proof.
  induction cs as [|c cs IH]; intros h Hc; [done|]. cbn. apply IH. apply step_counted; [exact Hc|apply run_bytes_nonneg].
Qed.

(** ** Reading back *)

(** The last entry of a block. *)
Definition last_of {A} (es : list (Z * A)) (n : Z) : option A :=
  snd <$> List.find (fun e => bool_decide (e.1 = n)) (reverse es).

Lemma last_of_snoc {A} (es : list (Z * A)) e n :
  last_of (es ++ [e]) n = if decide (e.1 = n) then Some e.2 else last_of es n.
Proof. unfold last_of. rewrite reverse_snoc. cbn. case_bool_decide; by case_decide. Qed.

Lemma last_of_app {A} (a b : list (Z * A)) n :
  last_of (a ++ b) n = match last_of b n with Some v => Some v | None => last_of a n end.
Proof.
  induction b as [|e b IH] using rev_ind; [by rewrite app_nil_r|].
  rewrite app_assoc, !last_of_snoc. by case_decide.
Qed.

(** The highest block of some entries. *)
Fixpoint top {A} (es : list (Z * A)) : Z := match es with [] => 0 | e :: es => Z.max e.1 (top es) end.

Lemma top_nonneg {A} (b : list (Z * A)) : 0 <= top b.
Proof. induction b as [|e b IHb]; cbn [top]; lia. Qed.

Lemma top_app {A} (a b : list (Z * A)) : top (a ++ b) = Z.max (top a) (top b).
Proof.
  induction a as [|e a IH]; cbn [top app]; [pose proof (top_nonneg b)|]; lia.
Qed.

Lemma inserts_lookup es : forall c total highest,
  let '(c', _, highest') := foldl insert_entry (c, total, highest) es in
  (forall n, c' !! n = match last_of es n with Some v => Some v | None => c !! n end) /\
  highest' = Z.max highest (top es) \/ highest < 0.
Proof.
  intros c total highest. destruct (decide (highest < 0)) as [|Hh]; [by destruct (foldl _ _ _) as [[? ?] ?]; right|].
  revert c total highest Hh. induction es as [|[n v] es IH] using rev_ind; intros c total highest Hh.
  { left. split; [done|]. cbn [top]. lia. }
  rewrite foldl_app. specialize (IH c total highest Hh).
  destruct (foldl insert_entry (c, total, highest) es) as [[c1 t1] h1]. destruct IH as [[E1 E2]|]; [|lia].
  cbn. left. split.
  - intros m. rewrite last_of_snoc, lookup_insert, E1. cbn. by repeat case_decide.
  - rewrite top_app, E2. cbn [top fst]. case_decide; lia.
Qed.

Lemma removes_lookup (ks : list Z) : forall (c : gmap Z (list Z)) n,
  foldl (fun c k => base.delete k c) c ks !! n = if decide (n ∈ ks) then None else c !! n.
Proof.
  induction ks as [|k ks IH]; intros c n; cbn; [done|].
  rewrite IH, lookup_delete. repeat case_decide; set_solver.
Qed.

Lemma remove_rows_cold (l : list (Z * Z)) : forall st,
  (foldl remove_row st l).1 = foldl (fun c k => base.delete k c) st.1 l.*1.
Proof. induction l as [|r l IH]; intros st; [done|]. cbn. by rewrite IH. Qed.

Lemma last_of_in {A} (es : list (Z * A)) n v : last_of es n = Some v -> (n, v) ∈ es.
Proof.
  induction es as [|e es IH] using rev_ind; [done|]. rewrite last_of_snoc, elem_of_app. case_decide as E; [|auto].
  intros [= <-]. right. destruct e. cbn in E. subst. apply list_elem_of_here.
Qed.

Lemma last_of_some {A} (es : list (Z * A)) n : n ∈ es.*1 -> is_Some (last_of es n).
Proof.
  induction es as [|e es IH] using rev_ind; [set_solver|]. rewrite last_of_snoc, fmap_app, elem_of_app.
  case_decide; [eauto|]. intros [?|Hin]; [auto|]. cbn in Hin. set_solver.
Qed.

Lemma top_le {A} (es : list (Z * A)) n v : (n, v) ∈ es -> n <= top es.
Proof. induction es as [|e es IH]; [set_solver|]. intros [<-|Hin]%elem_of_cons; cbn; [lia|]. specialize (IH Hin). lia. Qed.

(** The witnesses a history pushes. *)
Definition pushed (cs : list (bool * hub_op)) : list (Z * list Z) :=
  omap (fun c => match c.2 with HPush n p | HPushBatched n p => Some (n, p) | _ => None end) cs.

(** The blocks the retention window keeps. *)
Definition kept (retention highest n : Z) : Prop := retention <= 0 \/ highest - retention <= n.

(** Everything kept is the compressed form of a pushed witness of its block. *)
Definition genuine (ps : list (Z * list Z)) (h : WitnessHub) : Prop :=
  forall n c, cold h !! n = Some c \/ (n, c) ∈ buffer h -> exists p, (n, p) ∈ ps /\ compress_payload p = Ok c.

(** Every pushed block of the window is kept. *)
Definition complete (ps : list (Z * list Z)) (h : WitnessHub) : Prop :=
  forall n, n ∈ ps.*1 -> kept (retention_blocks h) (top ps) n -> is_Some (cold h !! n) \/ n ∈ (buffer h).*1.

(** What a commit leaves in the table. *)
Lemma commit_cold ok es h :
  let h' := (commit_entries ok es h).2 in
  buffer h' = buffer h /\ retention_blocks h' = retention_blocks h /\
  (forall n c, cold h' !! n = Some c -> cold h !! n = Some c \/ (n, c) ∈ es) /\
  (ok = true -> forall n, is_Some (cold h !! n) \/ n ∈ es.*1 ->
    kept (retention_blocks h) (top es) n -> is_Some (cold h' !! n)).
Proof.
  cbn zeta. destruct es as [|e es].
  { cbn. split_and!; auto. intros _ n [?|Hin] _; [done|set_solver]. }
  cbn [commit_entries]. unfold commit_batch_blocking. remember (e :: es) as l eqn:El. clear El.
  destruct ok; [|cbn; split_and!; auto; done].
  pose proof (inserts_lookup l (cold h) (read_total_bytes (total_bytes h)) 0) as Hi.
  destruct (foldl insert_entry _ l) as [[c total] highest]. destruct Hi as [[Hi Eh]|]; [|lia].
  assert (Hc1 : forall n v, c !! n = Some v -> cold h !! n = Some v \/ (n, v) ∈ l).
  { intros n v. rewrite Hi. destruct (last_of l n) eqn:E; [|auto]. intros [= <-]. right. by apply last_of_in. }
  assert (Hc2 : forall n, is_Some (cold h !! n) \/ n ∈ l.*1 -> is_Some (c !! n)).
  { intros n Hn. rewrite Hi. destruct (last_of l n) eqn:E; [eauto|]. destruct Hn as [?|Hn]; [done|].
    apply last_of_some in Hn as [? Hn]. congruence. }
  assert (Hdone : forall c' t', (forall n v, c' !! n = Some v -> c !! n = Some v) ->
    (forall n, kept (retention_blocks h) (top l) n -> is_Some (c !! n) -> is_Some (c' !! n)) ->
    let h' := with_store c' t' h in buffer h' = buffer h /\ retention_blocks h' = retention_blocks h /\
    (forall n v, cold h' !! n = Some v -> cold h !! n = Some v \/ (n, v) ∈ l) /\
    (true = true -> forall n, is_Some (cold h !! n) \/ n ∈ l.*1 -> kept (retention_blocks h) (top l) n ->
      is_Some (cold h' !! n))).
  { intros c' t' H1 H2. cbn. split_and!; auto. }
  case_decide as Hret; [|by apply Hdone]. case_decide as Hcut; [|by apply Hdone].
  destruct (foldl remove_row _ _) as [c' t'] eqn:Er.
  assert (Ec' : c' = foldl (fun c k => base.delete k c) c
    (rows (fun k => bool_decide (k < sat_sub highest (retention_blocks h))) c).*1).
  { pose proof (remove_rows_cold (rows (fun k => bool_decide (k < sat_sub highest (retention_blocks h))) c) (c, total)) as E.
    by rewrite Er in E. }
  apply Hdone; intros n; rewrite Ec', removes_lookup; case_decide as Hin; try done.
  intros [Hk|Hk]; [lia|]. exfalso. apply list_elem_of_fmap in Hin as ([k s] & -> & Hin).
  apply rows_spec in Hin as [Hp _]. apply bool_decide_eq_true in Hp. unfold sat_sub in *. cbn in Hk. lia.
Qed.

Lemma genuine_grows ps ps' h : genuine ps h -> genuine (ps ++ ps') h.
Proof. intros Hg n c Hc. destruct (Hg n c Hc) as (p & Hp & E). exists p. split; [set_solver|done]. Qed.

Lemma genuine_commit ps ok es h :
  genuine ps h -> (forall n c, (n, c) ∈ es -> exists p, (n, p) ∈ ps /\ compress_payload p = Ok c) ->
  genuine ps (commit_entries ok es h).2.
Proof.
  intros Hg He n c Hc. destruct (commit_cold ok es h) as (Eb & _ & Hcold & _). rewrite Eb in Hc.
  destruct Hc as [Hc|Hc]; [|by apply Hg; right]. apply Hcold in Hc as [Hc|Hc]; [by apply Hg; left|auto].
Qed.

Lemma genuine_step ps h c : genuine ps h -> genuine (ps ++ pushed [c]) (hub_step h c).
Proof.
  intros Hg. destruct c as [ok [n p|n p| |target]]; cbn [hub_step pushed omap list_omap fst snd].
  - pose proof (genuine_grows ps [(n, p)] h Hg) as Hg'. unfold push.
    destruct (compress_payload p) as [z| |] eqn:Ez; [|done..]. apply genuine_commit; [done|].
    intros n' c' [= -> ->]%list_elem_of_singleton. exists p. set_solver.
  - pose proof (genuine_grows ps [(n, p)] h Hg) as Hg'. unfold push_batched.
    destruct (compress_payload p) as [z| |] eqn:Ez; [|done..].
    assert (Hbuf : forall n' c', (n', c') ∈ buffer h ++ [(n, z)] -> exists p', (n', p') ∈ ps ++ [(n, p)] /\ compress_payload p' = Ok c').
    { intros n' c' [Hin|Hin]%elem_of_app; [by apply Hg'; right|]. apply list_elem_of_singleton in Hin as [= -> ->].
      exists p. set_solver. }
    case_decide.
    + apply genuine_commit; [|done]. intros n' c' [Hc|Hc]; [by apply Hg'; left|]. cbn in Hc. set_solver.
    + intros n' c' [Hc|Hc]; [by apply Hg'; left|]. by apply Hbuf.
  - rewrite app_nil_r. unfold flush_pending. destruct (buffer h) as [|e es] eqn:Eb; [done|].
    apply genuine_commit; [|intros n c Hin; apply Hg; right; by rewrite Eb].
    intros n c [Hc|Hc]; [by apply Hg; left|]. cbn in Hc. set_solver.
  - rewrite app_nil_r. unfold unwind_above. destruct ok; [|done].
    destruct (foldl remove_row _ _) as [c' t'] eqn:Er. intros n c [Hc|Hc]; [|by apply Hg; right].
    apply Hg. left. cbn in Hc.
    pose proof (remove_rows_cold (rows (fun k => bool_decide (u64 (target + 1) <= k)) (cold h))
      (cold h, read_total_bytes (total_bytes h))) as E. rewrite Er in E. cbn in E.
    rewrite E, removes_lookup in Hc. by case_decide.
Qed.

Definition healthy (c : bool * hub_op) : Prop :=
  c.1 = true /\
  match c.2 with
  | HPush _ p | HPushBatched _ p => exists z, compress_payload p = Ok z
  | HFlush => True
  | HUnwind _ => False
  end.

Lemma kept_mono r a b n : a <= b -> kept r b n -> kept r a n.
Proof. unfold kept. lia. Qed.

Lemma top_incl {A B} (es : list (Z * A)) (ps : list (Z * B)) :
  (forall n, n ∈ es.*1 -> n ∈ ps.*1) -> top es <= top ps.
Proof.
  intros Hin. induction es as [|[n v] es IH]; cbn [top fst]; [apply top_nonneg|].
  assert (Hn : n ∈ ps.*1) by (apply Hin; set_solver). apply list_elem_of_fmap in Hn as ([n' w] & -> & Hn).
  apply top_le in Hn. cbn. assert (top es <= top ps); [|lia]. apply IH. intros m Hm. apply Hin. set_solver.
Qed.

Lemma complete_commit ps es h :
  (forall n, n ∈ es.*1 -> n ∈ ps.*1) ->
  (forall n, n ∈ ps.*1 -> kept (retention_blocks h) (top ps) n -> is_Some (cold h !! n) \/ n ∈ es.*1 \/ n ∈ (buffer h).*1) ->
  complete ps (commit_entries true es h).2.
Proof.
  intros Hes Hc n Hn Hk. destruct (commit_cold true es h) as (Eb & Er & _ & Hcold). rewrite Er in Hk. rewrite Eb.
  assert (Hk' : kept (retention_blocks h) (top es) n) by (eapply kept_mono, Hk; by apply top_incl).
  destruct (Hc n Hn Hk) as [?|[?|?]]; [left; apply Hcold; auto..|by right].
Qed.

Lemma complete_step ps h c :
  genuine ps h -> complete ps h -> healthy c -> complete (ps ++ pushed [c]) (hub_step h c).
Proof.
  intros Hg Hcomp Hh.
  assert (Hgrow : forall ps' n, n ∈ ps.*1 -> kept (retention_blocks h) (top (ps ++ ps')) n ->
    is_Some (cold h !! n) \/ n ∈ (buffer h).*1).
  { intros ps' n Hn Hk. apply Hcomp; [done|]. eapply kept_mono, Hk. rewrite top_app. lia. }
  assert (Hbuf : forall n, n ∈ (buffer h).*1 -> n ∈ ps.*1).
  { intros n ([n' c'] & -> & Hin)%list_elem_of_fmap. destruct (Hg n' c') as (p & Hp & _); [by right|].
    apply list_elem_of_fmap. by exists (n', p). }
  destruct c as [ok [n p|n p| |target]]; destruct Hh as [Eok Hz]; cbn in Eok, Hz; subst ok;
    cbn [hub_step pushed omap list_omap fst snd]; [| | |done].
  - destruct Hz as [z Ez]. unfold push. rewrite Ez. apply complete_commit.
    + intros m. cbn. rewrite fmap_app. set_solver.
    + intros m. rewrite fmap_app, elem_of_app. intros [Hm|Hm] Hk; [destruct (Hgrow _ m Hm Hk); auto|].
      right; left. cbn in *. set_solver.
  - destruct Hz as [z Ez]. unfold push_batched. rewrite Ez. case_decide.
    + apply complete_commit.
      * intros m. rewrite !fmap_app, !elem_of_app. intros [Hm|Hm]; [left; auto|]. cbn in *. set_solver.
      * cbn [retention_blocks cold buffer with_buffer]. intros m. rewrite !fmap_app, !elem_of_app.
        intros [Hm|Hm] Hk; [destruct (Hgrow _ m Hm Hk); auto|]. right; left; right. cbn in *. set_solver.
    + intros m. cbn [retention_blocks cold buffer with_buffer snd]. rewrite !fmap_app, !elem_of_app.
      intros [Hm|Hm] Hk; [destruct (Hgrow _ m Hm Hk); auto|]. right; right. cbn in *. set_solver.
  - rewrite app_nil_r. unfold flush_pending. destruct (buffer h) as [|e es] eqn:Eb; [done|].
    unfold complete in Hcomp. rewrite Eb in Hcomp. apply complete_commit; [intros m Hm; exact (Hbuf m Hm)|].
    intros m Hm Hk. destruct (Hcomp m Hm Hk); auto.
Qed.

Lemma run_genuine cs : forall ps h, genuine ps h -> genuine (ps ++ pushed cs) (hub_run h cs).
Proof.
  induction cs as [|c cs IH]; intros ps h Hg; [by rewrite app_nil_r|].
  change (pushed (c :: cs)) with (pushed ([c] ++ cs)). unfold pushed. rewrite omap_app, app_assoc.
  apply IH, genuine_step, Hg.
Qed.

Lemma run_complete cs : forall ps h,
  genuine ps h -> complete ps h -> Forall healthy cs -> complete (ps ++ pushed cs) (hub_run h cs).
Proof.
  induction cs as [|c cs IH]; intros ps h Hg Hc Hh; [by rewrite app_nil_r|]. inversion_clear Hh.
  change (pushed (c :: cs)) with (pushed ([c] ++ cs)). unfold pushed. rewrite omap_app, app_assoc.
  apply IH; [by apply genuine_step|by apply complete_step|done].
Qed.

Lemma retention_run cs : forall h, retention_blocks (hub_run h cs) = retention_blocks h.
Proof.
  induction cs as [|c cs IH]; intros h; [done|]. cbn. rewrite IH.
  destruct c as [ok [n p|n p| |target]]; cbn.
  - unfold push. destruct (compress_payload p); [apply commit_cold|done..].
  - unfold push_batched. destruct (compress_payload p); [|done..]. case_decide; [|done].
    by destruct (commit_cold ok (buffer h ++ [(n, a)]) (with_buffer [] h)) as (_ & -> & _).
  - unfold flush_pending. destruct (buffer h) as [|e es]; [done|].
    by destruct (commit_cold ok (e :: es) (with_buffer [] h)) as (_ & -> & _).
  - unfold unwind_above. destruct ok; [|done]. by destruct (foldl remove_row _ _).
Qed.

Lemma find_buffer (b : list (Z * list Z)) n :
  match List.find (fun e => bool_decide (e.1 = n)) (reverse b) with
  | Some e => e.1 = n /\ e ∈ b
  | None => n ∉ b.*1
  end.
Proof.
  destruct (List.find _ _) as [e|] eqn:E.
  - apply List.find_some in E as [Hin Hb]. apply bool_decide_eq_true in Hb. split; [done|].
    rewrite <- list_elem_of_In, elem_of_reverse in Hin. exact Hin.
  - intros ([n' c] & -> & Hin)%list_elem_of_fmap. rewrite <- elem_of_reverse, list_elem_of_In in Hin.
    apply (List.find_none _ _ E) in Hin. cbn in Hin. by apply bool_decide_eq_false in Hin.
Qed.

Lemma compressed_back `{!ZstdLaws} p c : compress_payload p = Ok c -> decode_all c = Ok p.
Proof.
  unfold compress_payload. destruct (encode_all p 3) as [z| |] eqn:Eq; [|done..]. intros [= <-].
  by eapply decode_encode_all.
Qed.

Lemma genuine_get `{!ZstdLaws} ps h read n p : genuine ps h -> get_witness read n h = Some p -> (n, p) ∈ ps.
Proof.
  intros Hg. unfold get_witness. pose proof (find_buffer (buffer h) n) as Hf.
  assert (Hread : forall c, (cold h !! n = Some c \/ (n, c) ∈ buffer h) ->
    match decode_all c with Ok payload => Some payload | _ => None end = Some p -> (n, p) ∈ ps).
  { intros c Hc Hd. destruct (Hg n c Hc) as (q & Hq & Ez). rewrite (compressed_back _ _ Ez) in Hd. by injection Hd as ->. }
  destruct (List.find _ _) as [[n' c]|]; [destruct Hf as [<- Hin]; apply Hread; by right|].
  destruct read; [|done]. destruct (cold h !! n) as [c|] eqn:Ec; [|done]. cbn. apply Hread. by left.
Qed.

Lemma genuine_found `{!ZstdLaws} ps h n :
  genuine ps h -> is_Some (cold h !! n) \/ n ∈ (buffer h).*1 -> is_Some (get_witness true n h).
Proof.
  intros Hg Hc. unfold get_witness. pose proof (find_buffer (buffer h) n) as Hf.
  assert (Hread : forall c, (cold h !! n = Some c \/ (n, c) ∈ buffer h) ->
    is_Some match decode_all c with Ok payload => Some payload | _ => None end).
  { intros c Hc'. destruct (Hg n c Hc') as (q & Hq & Ez). rewrite (compressed_back _ _ Ez). eauto. }
  destruct (List.find _ _) as [[n' c]|]; [destruct Hf as [<- Hin]; apply Hread; by right|].
  destruct Hc as [[c Ec]|Hin]; [|done]. rewrite Ec. cbn. apply Hread. by left.
Qed.

(** A push of a witness that is genuine already, and an unwind. *)
Lemma genuine_weaken ps n p h : (n, p) ∈ ps -> genuine (ps ++ [(n, p)]) h -> genuine ps h.
Proof.
  intros Hin Hg m c Hc. destruct (Hg m c Hc) as (q & Hq & E). exists q. split; [|done].
  apply elem_of_app in Hq as [Hq|Hq]; [done|]. by apply list_elem_of_singleton in Hq as [= -> ->].
Qed.

Lemma genuine_push ps ok n p h : (n, p) ∈ ps -> genuine ps h -> genuine ps (push ok n p h).2.
Proof. intros Hin Hg. apply (genuine_weaken _ n p); [done|]. exact (genuine_step ps h (ok, HPush n p) Hg). Qed.

Lemma genuine_push_batched ps ok n p h : (n, p) ∈ ps -> genuine ps h -> genuine ps (push_batched ok n p h).2.
Proof. intros Hin Hg. apply (genuine_weaken _ n p); [done|]. exact (genuine_step ps h (ok, HPushBatched n p) Hg). Qed.

Lemma genuine_unwind ps ok target h : genuine ps h -> genuine ps (unwind_above ok target h).2.
Proof. intros Hg. pose proof (genuine_step ps h (ok, HUnwind target) Hg) as Hs. cbn in Hs. by rewrite app_nil_r in Hs. Qed.
End Histories.


(** ** A store that keeps three blocks, written four at a time; the commit that
    would hold blocks 1 to 4 succeeds, a later one fails *)
#[local] Instance copy_zstd : Zstd := {| encode_all p _ := Ok (p ++ p); decode_all c := Ok (firstn (length c / 2) c) |}.
#[local] Instance copy_zstd_laws : ZstdLaws.
Proof.
  split. intros p level c [= <-].
  assert (E : (length (p ++ p) / 2)%nat = length p).
  { rewrite length_app. replace (length p + length p)%nat with (length p * 2)%nat by lia. by apply Nat.div_mul. }
  unfold decode_all, copy_zstd. rewrite E. f_equal. apply take_app_length.
Qed.

Definition hub_history : list (bool * hub_op) :=
  [(true, HPushBatched 1 [11]); (true, HPushBatched 2 [12]); (true, HPushBatched 3 [13; 3]); (true, HPushBatched 4 [14]);
   (true, HPush 8 [18]); (true, HPushBatched 9 [19])].

