(* ===== verification/Driver.v ===== *)
(** * The embedded forward driver ([bin/witness-orchestrator/src/driver/forward.rs])

    The driver executes the L2 chain block by block into a local reth database
    and hands out a witness for each block.  reth, the L2 node, the EVM and the
    host executor are behind the calls of [DriverCall]; the cold store is the
    model of [Hub].  Logs, metrics and timings are left out.  The catch-up
    prefetches the next batch while one is committed: the batches arrive in
    order all the same, and here each is fetched when it is needed.  The state
    behind the mutex is passed along; a failed operation leaves none, since its
    caller shuts the process down. *)
From S2P Require Import Prelude Interaction Hub.
From stdpp Require Import strings.
#[local] Open Scope Z_scope.

Definition CATCHUP_BATCH_SIZE : Z := 128.

(** The types of reth and alloy, and the pure functions on them. *)
Class NodeTypes : Type := {
  RpcBlock : Type;
  PrimBlock : Type;
  RecoveredBlock : Type;
  ExecOutput : Type;
  HashedState : Type;
  TrieUpdates : Type;
  ExecutorInput : Type;
  into_primitive_block : RpcBlock -> PrimBlock;
  try_into_recovered : PrimBlock -> option RecoveredBlock;
  block_state_root : RecoveredBlock -> list Z;
  from_bundle_state : ExecOutput -> HashedState;
  bincode_serialize : ExecutorInput -> outcome string (list Z);
  MINIMUM_UNWIND_SAFE_DISTANCE : Z }.

Inductive Segment : Type := Headers | Transactions | Receipts.
#[export] Instance Segment_eq_dec : EqDecision Segment.
Proof. solve_decision. Defined.

(** What a state provider shows: the state after a block, or what the open
    transaction has written so far. *)
Inductive StateView : Type :=
  | History (block_number : Z)
  | LatestOfTransaction.

Section Driver.
Context `{NodeTypes}.

Record ExecutedBlock : Type := {
  recovered_block : RecoveredBlock;
  execution_output : ExecOutput;
  hashed_state : HashedState;
  trie_updates : TrieUpdates }.

Record ExecutionTask : Type := { task_block_number : Z; task_payload : list Z }.

Inductive DriverCall : Type -> Type :=
  (* the L2 node *)
  | RpcBlockNumber : DriverCall (outcome string Z)
  | RpcGetBlock (n : Z) : DriverCall (outcome string (option RpcBlock))
  | BatchAddCall (n : Z) : DriverCall (outcome string unit)
  | BatchSend : DriverCall (outcome string unit)
  | BatchWait (n : Z) : DriverCall (outcome string (option RpcBlock))
  (* the local database *)
  | InitGenesis : DriverCall (outcome string unit)
  | BestBlockNumber : DriverCall (outcome string Z)
  | HeaderStateRoot (n : Z) : DriverCall (outcome string (option (list Z)))
  | HistoryByBlockNumber (n : Z) : DriverCall (outcome string unit)
  | Execute (view : StateView) (block : RecoveredBlock) : DriverCall (outcome string ExecOutput)
  | StateRootWithUpdates (view : StateView) (state : HashedState) : DriverCall (outcome string (list Z * TrieUpdates))
  | ProviderRw : DriverCall (outcome string unit)
  | SaveBlock (block : ExecutedBlock) : DriverCall (outcome string unit)
  | CommitTransaction : DriverCall (outcome string unit)
  | RemoveBlocksAbove (n : Z) : DriverCall (outcome string unit)
  | EvictChangesets : DriverCall unit
  (* static files *)
  | HighestStaticBlock (s : Segment) : DriverCall (option Z)
  | HighestStaticTx (s : Segment) : DriverCall (option Z)
  | DatabaseProviderRo : DriverCall (outcome string unit)
  | LastTxNum (n : Z) : DriverCall (outcome string (option Z))
  | GetWriter (n : Z) (s : Segment) : DriverCall (outcome string unit)
  | PruneSegment (s : Segment) (to_delete last_block : Z) : DriverCall (outcome string unit)
  | CommitWriter (s : Segment) : DriverCall (outcome string unit)
  | InitializeIndex : DriverCall (outcome string unit)
  (* the host executor on a view of the database, and the pruner *)
  | ExecuteExexWithBlock (block : PrimBlock) (parent_state_root : list Z) : DriverCall (outcome string ExecutorInput)
  | IsPruningNeeded (n : Z) : DriverCall bool
  | PrunerRun (n : Z) : DriverCall (outcome string unit)
  (* transactions of the cold store succeed or not *)
  | ColdRead : DriverCall bool
  | ColdWrite : DriverCall bool
  (* the process *)
  | IsCancelled : DriverCall bool
  | SleepOrCancelled : DriverCall bool
  | CancelShutdown : DriverCall unit
  | IsKnownResponse (n : Z) : DriverCall bool
  | SendTask (task : ExecutionTask) : DriverCall bool.

Abbreviation io := (eff DriverCall string).

(** [Driver] with its [DriverState]; [pruner] says whether there is one. *)
Record Driver : Type := {
  hub : WitnessHub;
  witness_from_block : Z;
  start_tip : Z;
  ready : bool;
  next : Z;
  pruner : bool;
  l2_safe_blocks : Z }.

Definition with_next (n : Z) (d : Driver) : Driver := {|
  hub := hub d; witness_from_block := witness_from_block d; start_tip := start_tip d; ready := ready d;
  next := n; pruner := pruner d; l2_safe_blocks := l2_safe_blocks d |}.
Definition with_ready (d : Driver) : Driver := {|
  hub := hub d; witness_from_block := witness_from_block d; start_tip := start_tip d; ready := true;
  next := next d; pruner := pruner d; l2_safe_blocks := l2_safe_blocks d |}.
Definition with_pruner (p : bool) (d : Driver) : Driver := {|
  hub := hub d; witness_from_block := witness_from_block d; start_tip := start_tip d; ready := ready d;
  next := next d; pruner := p; l2_safe_blocks := l2_safe_blocks d |}.
Definition with_hub (h : WitnessHub) (d : Driver) : Driver := {|
  hub := h; witness_from_block := witness_from_block d; start_tip := start_tip d; ready := ready d;
  next := next d; pruner := pruner d; l2_safe_blocks := l2_safe_blocks d |}.

Record DriverConfig : Type := {
  cfg_hub : WitnessHub;
  cfg_pruner : bool;
  cfg_witness_from_block : Z;
  orchestrator_checkpoint : Z;
  cfg_l2_safe_blocks : Z }.

Record FetchedBlock : Type := { fetched_number : Z; alloy_block : RpcBlock }.

(** ** Static files *)

(** [f.get_highest_static_file_block(segment).unwrap_or(0)]. *)
Definition highest_or_0 (c : DriverCall (option Z)) : io Z :=
  n ← do c; mret (default 0 n).

Definition prune_segment (mdbx_tip : Z) (s : Segment) (name prune : string) (to_delete : Z) : io unit :=
  _ ← context ("heal: " +:+ name +:+ " writer: ") (ask (GetWriter mdbx_tip s));
  _ ← context ("heal: prune_" +:+ prune +:+ ": ") (ask (PruneSegment s to_delete mdbx_tip));
  context ("heal: " +:+ name +:+ " commit: ") (ask (CommitWriter s)).

(** Transactions and receipts are numbered by transaction. *)
Definition heal_by_tx (mdbx_tip tip last_tx_at_tip : Z) (s : Segment) (name prune : string) : io unit :=
  if decide (mdbx_tip < tip) then
    highest_static ← highest_or_0 (HighestStaticTx s);
    let to_delete := sat_sub highest_static last_tx_at_tip in
    if decide (0 < to_delete) then prune_segment mdbx_tip s name prune to_delete else mret tt
  else mret tt.

Definition heal_static_files_if_needed : io unit :=
  mdbx_tip ← context "best_block_number: " (ask BestBlockNumber);
  if decide (mdbx_tip = 0) then mret tt
  else
    headers_tip ← highest_or_0 (HighestStaticBlock Headers);
    txs_tip ← highest_or_0 (HighestStaticBlock Transactions);
    receipts_tip ← highest_or_0 (HighestStaticBlock Receipts);
    if decide (headers_tip <= mdbx_tip /\ txs_tip <= mdbx_tip /\ receipts_tip <= mdbx_tip) then mret tt
    else
      _ ← (if decide (mdbx_tip < headers_tip)
           then prune_segment mdbx_tip Headers "headers" "headers" (headers_tip - mdbx_tip)
           else mret tt);
      _ ← (if decide (mdbx_tip < txs_tip \/ mdbx_tip < receipts_tip) then
             _ ← context "heal: database_provider_ro: " (ask DatabaseProviderRo);
             body ← context ("heal: block_body_indices(" +:+ str mdbx_tip +:+ "): ") (ask (LastTxNum mdbx_tip));
             last_tx_at_tip ← ok_or ("heal: no block_body_indices for MDBX tip " +:+ str mdbx_tip) body;
             _ ← heal_by_tx mdbx_tip txs_tip last_tx_at_tip Transactions "txs" "transactions";
             heal_by_tx mdbx_tip receipts_tip last_tx_at_tip Receipts "receipts" "receipts"
           else mret tt);
      context "heal: initialize_index: " (ask InitializeIndex).

Definition ensure_genesis_initialized : io unit :=
  tip ← context "best_block_number: " (ask BestBlockNumber);
  if decide (0 < tip) then mret tt else context "init_genesis: " (ask InitGenesis).

(** ** Fetching *)

Definition fetch_block (block_number : Z) : io FetchedBlock :=
  block ← context ("rpc get_block(" +:+ str block_number +:+ "): ") (ask (RpcGetBlock block_number));
  block ← ok_or ("rpc returned no block for " +:+ str block_number) block;
  mret {| fetched_number := block_number; alloy_block := block |}.

Fixpoint add_calls (ns : list Z) : io unit :=
  match ns with
  | [] => mret tt
  | bn :: ns => _ ← context ("rpc batch add_call block " +:+ str bn +:+ ": ") (ask (BatchAddCall bn)); add_calls ns
  end.

Fixpoint wait_calls (ns : list Z) : io (list FetchedBlock) :=
  match ns with
  | [] => mret []
  | bn :: ns =>
      block ← context ("rpc batch get_block(" +:+ str bn +:+ "): ") (ask (BatchWait bn));
      block ← ok_or ("rpc returned no block for " +:+ str bn) block;
      results ← wait_calls ns;
      mret ({| fetched_number := bn; alloy_block := block |} :: results)
  end.

Definition fetch_batch (start end_inclusive : Z) : io (list FetchedBlock) :=
  let waiters := range_incl start end_inclusive in
  _ ← add_calls waiters;
  _ ← context ("rpc batch send [" +:+ str start +:+ "..=" +:+ str end_inclusive +:+ "]: ") (ask BatchSend);
  wait_calls waiters.

(** ** Committing *)

Definition recover (block_number : Z) (prim_block : PrimBlock) : io RecoveredBlock :=
  ok_or ("recover_senders failed for block " +:+ str block_number) (try_into_recovered prim_block).

(** Execution and state root of a recovered block on a view, checked against
    its header; [at_] is the text of the batch path's errors. *)
Definition execute_and_check (view : StateView) (at_ : string) (block_number : Z) (recovered : RecoveredBlock)
  : io ExecutedBlock :=
  exec_output ← context ("execute" +:+ at_ +:+ ": ") (ask (Execute view recovered));
  let hashed := from_bundle_state exec_output in
  r ← context ("state_root_with_updates" +:+ at_ +:+ ": ") (ask (StateRootWithUpdates view hashed));
  let '(state_root, updates) := r in
  if decide (state_root = block_state_root recovered) then
    mret {| recovered_block := recovered; execution_output := exec_output; hashed_state := hashed; trie_updates := updates |}
  else throw ("state_root mismatch at block " +:+ str block_number).

Definition commit_phase (block_number : Z) (prim_block : PrimBlock) : io unit :=
  recovered ← recover block_number prim_block;
  _ ← ask (HistoryByBlockNumber (block_number - 1));
  executed ← execute_and_check (History (block_number - 1)) "" block_number recovered;
  _ ← ask ProviderRw;
  _ ← context "save_blocks: " (ask (SaveBlock executed));
  context "commit: " (ask CommitTransaction).

Fixpoint save_batch (fetched_batch : list FetchedBlock) : io unit :=
  match fetched_batch with
  | [] => mret tt
  | fetched :: fetched_batch =>
      let block_number := fetched_number fetched in
      let at_ := " at " +:+ str block_number in
      recovered ← recover block_number (into_primitive_block (alloy_block fetched));
      executed ← execute_and_check LatestOfTransaction at_ block_number recovered;
      _ ← context ("save_blocks" +:+ at_ +:+ ": ") (ask (SaveBlock executed));
      save_batch fetched_batch
  end.

Definition commit_batch (fetched_batch : list FetchedBlock) : io unit :=
  match fetched_batch with
  | [] => mret tt
  | _ =>
      _ ← context "provider_rw: " (ask ProviderRw);
      _ ← save_batch fetched_batch;
      context "commit: " (ask CommitTransaction)
  end.

(** The pruner is lost when its task does not return. *)
Definition run_pruner_if_needed (slot : bool) (block_number : Z) : io bool :=
  if slot then
    needed ← do (IsPruningNeeded block_number);
    if (needed : bool) then
      res ← attempt (ask (E := string) (PrunerRun block_number));
      mret match res with Panic => false | _ => true end
    else mret true
  else mret false.

(** ** Witnesses *)

Definition build_witness (prim_block : PrimBlock) (parent_state_root : list Z) : io (list Z) :=
  input ← context "execute_exex_with_block: " (ask (ExecuteExexWithBlock prim_block parent_state_root));
  context "bincode: " (of_outcome (bincode_serialize input)).

Definition parent_root (what : string) (block_number : Z) : io (list Z) :=
  root ← context ("header_by_number(" +:+ str (block_number - 1) +:+ "): ") (ask (HeaderStateRoot (block_number - 1)));
  ok_or ("missing header N-1 " +:+ what +:+ " block " +:+ str block_number) root.

Definition hub_get_witness `{Zstd} (block_number : Z) (h : WitnessHub) : io (option (list Z)) :=
  read ← do ColdRead; mret (get_witness read block_number h).

Definition rewitness_phase `{Zstd} (fetched : FetchedBlock) (h : WitnessHub) : io (list Z) :=
  let block_number := fetched_number fetched in
  cached ← hub_get_witness block_number h;
  match cached with
  | Some payload => mret payload
  | None =>
      root ← parent_root "during re-witness of" block_number;
      built ← attempt (build_witness (into_primitive_block (alloy_block fetched)) root);
      _ ← do EvictChangesets;
      context ("re-witness of block " +:+ str block_number +:+ ": ") (of_outcome built)
  end.

Definition get_or_build_witness `{Zstd} (block_number : Z) (d : Driver) : io (option (list Z)) :=
  cached ← hub_get_witness block_number (hub d);
  match cached with
  | Some payload => mret (Some payload)
  | None =>
      if decide (block_number = 0) then mret None
      else
        mdbx_tip ← context "best_block_number: " (ask BestBlockNumber);
        if decide (mdbx_tip < block_number) then mret None
        else
          fetched ← fetch_block block_number;
          payload ← rewitness_phase fetched (hub d);
          mret (Some payload)
  end.

(** The witness server's [get_witness]: status and body. *)
Definition serve_witness `{Zstd} (block_number : Z) (d : Driver) : prog DriverCall (Z * list Z) :=
  prog_bind (fun r => Ret match r with
    | Ok (Some payload) => (200, payload)
    | Ok None => (404, [])
    | _ => (500, [])
    end) (get_or_build_witness block_number d).
End Driver.
