(* ===== verification/DriverLoop.v ===== *)
(** * The driver's life: start, catch-up, one witness after the other

    [Driver::new], [unwind_to], [advance_to_witness_from_block] and
    [try_take_new_block] of [driver/forward.rs], the feeder of
    [orchestrator.rs] that pulls the witnesses, and the part of [main.rs] that
    starts them.  Loops that wait for the network run for a given number of
    rounds and answer [None] when it is used up. *)
From S2P Require Import Prelude Interaction Hub Driver.
From stdpp Require Import strings.
#[local] Open Scope Z_scope.

Section Life.
Context `{NodeTypes, Zstd}.
Abbreviation io := (eff DriverCall string).

(** ** Start *)

(** [UNWIND_TO_BLOCK]. *)
Definition unwind_to (h : WitnessHub) (target : Z) : io WitnessHub :=
  mdbx_tip_before ← context "unwind: best_block_number: " (ask BestBlockNumber);
  if decide (target = 0) then mret h
  else if decide (mdbx_tip_before < target) then mret h
  else if decide (target = mdbx_tip_before) then mret h
  else
    let keep := target - 1 in
    _ ← context "unwind: provider_rw: " (ask ProviderRw);
    _ ← context ("unwind: remove_block_and_execution_above(" +:+ str keep +:+ "): ") (ask (RemoveBlocksAbove keep));
    _ ← context "unwind: provider_rw.commit: " (ask CommitTransaction);
    _ ← do EvictChangesets;
    mdbx_tip_after ← context "unwind: best_block_number post-commit: " (ask BestBlockNumber);
    ok ← do ColdWrite;
    let '(removed, h) := unwind_above ok keep h in
    _ ← context "unwind: cold: " (of_outcome removed);
    mret h.

(** The target [main] unwinds to. *)
Definition unwind_target (unwind_to_block : option Z) (checkpoint : Z) : io (option Z) :=
  match unwind_to_block with
  | Some t => mret (Some t)
  | None =>
      if decide (0 < checkpoint) then
        mdbx_tip ← context "startup best_block_number: " (ask BestBlockNumber);
        if decide (checkpoint < mdbx_tip) then mret (Some checkpoint) else mret None
      else mret None
  end.

Definition startup_unwind (unwind_to_block : option Z) (checkpoint : Z) (h : WitnessHub) : io WitnessHub :=
  target ← unwind_target unwind_to_block checkpoint;
  match target with
  | Some target => unwind_to h target
  | None => mret h
  end.

(** [Driver::new]. *)
Definition new_driver (cfg : DriverConfig) : io Driver :=
  _ ← ensure_genesis_initialized;
  let wfb := cfg_witness_from_block cfg in
  mdbx_tip ← context "best_block_number: " (ask BestBlockNumber);
  read ← do ColdRead;
  _ ← (if (read : bool) then mret tt else throw "hub.last_committed_block");
  let start_tip := mdbx_tip in
  if decide (cfg_pruner cfg = true /\ wfb <= start_tip /\ MINIMUM_UNWIND_SAFE_DISTANCE < start_tip - wfb) then
    throw "PRUNE_FULL=true but the history to re-witness may have been pruned"
  else
    mret {|
      hub := cfg_hub cfg;
      witness_from_block := wfb;
      start_tip := start_tip;
      ready := false;
      next := Z.min (Z.max (u64 (orchestrator_checkpoint cfg + 1)) wfb) (u64 (start_tip + 1));
      pruner := cfg_pruner cfg;
      l2_safe_blocks := cfg_l2_safe_blocks cfg |}.

(** ** Catch-up *)

(** [while s <= catchup_upper]: [fuel] bounds the number of ranges. *)
Fixpoint batch_ranges (fuel : nat) (s catchup_upper : Z) : list (Z * Z) :=
  match fuel with
  | O => []
  | S fuel =>
      if decide (s <= catchup_upper) then
        let e := Z.min (sat_add64 s (CATCHUP_BATCH_SIZE - 1)) catchup_upper in
        (s, e) :: batch_ranges fuel (u64 (e + 1)) catchup_upper
      else []
  end.

Inductive drained : Type :=
  | Cancelled
  | FetchFailed
  | Drained.

(** The loop over the stream of batches. *)
Fixpoint drain_batches (ranges : list (Z * Z)) (d : Driver) : io (drained * Driver) :=
  match ranges with
  | [] => mret (Drained, d)
  | (s, e) :: ranges =>
      cancelled ← do IsCancelled;
      if (cancelled : bool) then mret (Cancelled, d)
      else
        fetch_result ← attempt (fetch_batch s e);
        match fetch_result with
        | Ok fetched_batch =>
            cancelled ← do IsCancelled;
            if (cancelled : bool) then mret (Cancelled, d)
            else
              _ ← commit_batch fetched_batch;
              slot ← run_pruner_if_needed (pruner d) e;
              drain_batches ranges (with_next (u64 (e + 1)) (with_pruner slot d))
        | Err _ =>
            cancelled ← do SleepOrCancelled;
            mret (if (cancelled : bool) then (Cancelled, d) else (FetchFailed, d))
        | Panic => of_outcome Panic
        end
  end.

Fixpoint catch_up (rounds : nat) (d : Driver) : io (option Driver) :=
  match rounds with
  | O => mret None
  | S rounds =>
      cancelled ← do IsCancelled;
      if (cancelled : bool) then mret (Some d)
      else
        remote ← attempt (ask (E := string) RpcBlockNumber);
        match remote with
        | Panic => of_outcome Panic
        | Err _ =>
            cancelled ← do SleepOrCancelled;
            if (cancelled : bool) then mret (Some d) else catch_up rounds d
        | Ok remote_tip =>
            let catchup_upper :=
              Z.min (sat_sub remote_tip (l2_safe_blocks d)) (witness_from_block d - 1) in
            if decide (catchup_upper < next d) then
              cancelled ← do SleepOrCancelled;
              if (cancelled : bool) then mret (Some d) else catch_up rounds d
            else
              r ← drain_batches (batch_ranges (Z.to_nat (catchup_upper - next d + 1)) (next d) catchup_upper) d;
              match r with
              | (Cancelled, d) => mret (Some d)
              | (FetchFailed, d) => catch_up rounds d
              | (Drained, d) =>
                  if decide (witness_from_block d <= next d) then mret (Some (with_ready d)) else catch_up rounds d
              end
        end
  end.

Definition advance_to_witness_from_block (rounds : nat) (d : Driver) : io (option Driver) :=
  if decide (witness_from_block d <= next d) then mret (Some (with_ready d)) else catch_up rounds d.

(** ** One witness *)

(** [tokio::select!] on a transient failure, then [None]. *)
Definition retry_later (d : Driver) : io (option (Z * list Z) * Driver) :=
  _ ← do SleepOrCancelled; mret (None, d).

(** The block is in the database already. *)
Definition retake_block (block_number : Z) (d : Driver) : io (option (Z * list Z) * Driver) :=
  cached ← hub_get_witness block_number (hub d);
  match cached with
  | Some payload => mret (Some (block_number, payload), with_next (u64 (block_number + 1)) d)
  | None =>
      fetched ← attempt (fetch_block block_number);
      match fetched with
      | Panic => of_outcome Panic
      | Err _ => retry_later d
      | Ok fetched =>
          payload ← rewitness_phase fetched (hub d);
          ok ← do ColdWrite;
          let '(pushed, h) := push ok block_number payload (hub d) in
          _ ← of_outcome pushed;
          mret (Some (block_number, payload), with_next (u64 (block_number + 1)) (with_hub h d))
      end
  end.

(** The block is new: witness first, then the commit. *)
Definition take_fresh_block (fetched : FetchedBlock) (d : Driver) : io (option (Z * list Z) * Driver) :=
  let block_number := fetched_number fetched in
  let prim_block := into_primitive_block (alloy_block fetched) in
  root ← parent_root "for" block_number;
  payload ← build_witness prim_block root;
  _ ← commit_phase block_number prim_block;
  ok ← do ColdWrite;
  let '(pushed, h) := push_batched ok block_number payload (hub d) in
  _ ← of_outcome pushed;
  slot ← run_pruner_if_needed (pruner d) block_number;
  mret (Some (block_number, payload), with_next (u64 (block_number + 1)) (with_pruner slot (with_hub h d))).

Definition try_take_new_block (d : Driver) : io (option (Z * list Z) * Driver) :=
  if ready d then
    let block_number := next d in
    if decide (block_number <= start_tip d) then retake_block block_number d
    else
      remote ← attempt (ask (E := string) RpcBlockNumber);
      match remote with
      | Panic => of_outcome Panic
      | Err _ => retry_later d
      | Ok remote_tip =>
          if decide (sat_sub remote_tip (l2_safe_blocks d) < block_number) then mret (None, d)
          else
            fetched ← attempt (fetch_block block_number);
            match fetched with
            | Panic => of_outcome Panic
            | Err _ => retry_later d
            | Ok fetched => take_fresh_block fetched d
            end
      end
  else mret (None, d).

(** ** The feeder *)

Fixpoint feeder_loop (rounds : nat) (d : Driver) : io (option Driver) :=
  match rounds with
  | O => mret None
  | S rounds =>
      cancelled ← do IsCancelled;
      if (cancelled : bool) then mret (Some d)
      else
        taken ← attempt (try_take_new_block d);
        match taken with
        | Panic => of_outcome Panic
        | Err e => _ ← do CancelShutdown; throw e
        | Ok (Some (bn, payload), d) =>
            known ← do (IsKnownResponse bn);
            if (known : bool) then feeder_loop rounds d
            else
              open ← do (SendTask {| task_block_number := bn; task_payload := payload |});
              if (open : bool) then feeder_loop rounds d else mret (Some d)
        | Ok (None, d) =>
            cancelled ← do SleepOrCancelled;
            if (cancelled : bool) then mret (Some d) else feeder_loop rounds d
        end
  end.

(** [main]: heal, unwind, start, catch up, feed.  The catch-up runs in a task
    of its own; the feeder only idles until it is done. *)
Definition run_driver (catch_up_rounds feeder_rounds : nat) (unwind_to_block : option Z) (cfg : DriverConfig)
  : io (option Driver) :=
  _ ← heal_static_files_if_needed;
  h ← startup_unwind unwind_to_block (orchestrator_checkpoint cfg) (cfg_hub cfg);
  d ← new_driver {|
    cfg_hub := h; cfg_pruner := cfg_pruner cfg; cfg_witness_from_block := cfg_witness_from_block cfg;
    orchestrator_checkpoint := orchestrator_checkpoint cfg; cfg_l2_safe_blocks := cfg_l2_safe_blocks cfg |};
  caught_up ← advance_to_witness_from_block catch_up_rounds d;
  match caught_up with
  | None => mret None
  | Some d => feeder_loop feeder_rounds d
  end.
End Life.
