(* ===== verification/DriverSpec.v ===== *)
(** * What the forward driver promises

    Whatever the L2 node, the local database and the process do, as long as
    the node answers with the blocks asked for and the database with what was
    committed: blocks are committed one after the other, on top of the state
    they were executed on, and with the state root their header names; from
    [witness_from_block] on a block is committed only when its witness exists;
    and the witnesses handed out follow each other without a gap, each one built
    for its own block.  The end of the file runs the start of the driver on
    concrete databases: what the automatic unwind does to the checkpoint. *)
From S2P Require Import Prelude Interaction Hub HubSpec Driver DriverLoop.
From stdpp Require Import strings.
#[local] Open Scope Z_scope.

Section Spec.
Context `{NodeTypes, Zstd, !ZstdLaws}.

(** The number in a header; the database's state roots. *)
Context (block_number : PrimBlock -> Z) (recovered_number : RecoveredBlock -> Z).
Context (Hrecovered : forall b r, try_into_recovered b = Some r -> recovered_number r = block_number b).
Context (root_at : Z -> list Z) (wfb checkpoint : Z).

(** ** The world the driver acts on: the committed tip, the tip the open
    transaction would commit, the last state root computed, the witnesses built,
    the last block handed to the feeder's channel or known to need no work *)
Record world : Type := {
  tip : Z;
  pending : Z;
  rooted : option (HashedState * list Z * TrieUpdates);
  built : list (Z * list Z);
  last_fed : option Z }.

Definition with_tips (t p : Z) (g : world) : world := {|
  tip := t; pending := p; rooted := rooted g; built := built g; last_fed := last_fed g |}.
Definition with_rooted (r : option (HashedState * list Z * TrieUpdates)) (g : world) : world := {|
  tip := tip g; pending := pending g; rooted := r; built := built g; last_fed := last_fed g |}.
Definition with_built (b : list (Z * list Z)) (g : world) : world := {|
  tip := tip g; pending := pending g; rooted := rooted g; built := b; last_fed := last_fed g |}.
Definition with_fed (n : Z) (g : world) : world := {|
  tip := tip g; pending := pending g; rooted := rooted g; built := built g; last_fed := Some n |}.

Definition observe (R : Type) (g : world) (c : DriverCall R) : R -> world :=
  match c in DriverCall R return R -> world with
  | ProviderRw => fun r => match r with Ok _ => with_tips (tip g) (tip g) g | _ => g end
  | SaveBlock _ => fun r => match r with Ok _ => with_tips (tip g) (pending g + 1) g | _ => g end
  | RemoveBlocksAbove n => fun r => match r with Ok _ => with_tips (tip g) (Z.min n (pending g)) g | _ => g end
  | CommitTransaction => fun r => match r with Ok _ => with_tips (pending g) (pending g) g | _ => g end
  | StateRootWithUpdates _ h => fun r => match r with Ok (root, u) => with_rooted (Some (h, root, u)) g | _ => g end
  | ExecuteExexWithBlock b _ => fun r =>
      match r with
      | Ok input =>
          match bincode_serialize input with Ok p => with_built (built g ++ [(block_number b, p)]) g | _ => g end
      | _ => g
      end
  | IsKnownResponse n => fun known => if (known : bool) then with_fed n g else g
  | SendTask t => fun open => if (open : bool) then with_fed (task_block_number t) g else g
  | _ => fun _ => g
  end.

(** What the node and the database may answer; numbers stay away from the end
    of [u64]. *)
Definition honest (R : Type) (g : world) (c : DriverCall R) : R -> Prop :=
  match c in DriverCall R return R -> Prop with
  | RpcBlockNumber => fun r => forall n, r = Ok n -> 0 <= n < 2 ^ 62
  | RpcGetBlock n | BatchWait n => fun r => forall b, r = Ok (Some b) -> block_number (into_primitive_block b) = n
  | BestBlockNumber => fun r => forall n, r = Ok n -> n = tip g
  | HeaderStateRoot n => fun r => forall root, r = Ok (Some root) -> root = root_at n
  | _ => fun _ => True
  end.

(** The first witness handed out is at most that of the block after the
    checkpoint, or the first wanted; the next ones follow. *)
Definition fed_next (g : world) (n : Z) : Prop :=
  match last_fed g with
  | Some m => n = m + 1
  | None => wfb <= n <= Z.max wfb (checkpoint + 1)
  end.

Definition allowed (R : Type) (g : world) (c : DriverCall R) : Prop :=
  match c with
  | Execute view b =>
      match view with
      | History n => n = tip g /\ recovered_number b = n + 1
      | LatestOfTransaction => recovered_number b = pending g + 1
      end
  | SaveBlock b =>
      recovered_number (recovered_block b) = pending g + 1 /\
      rooted g = Some (hashed_state b, block_state_root (recovered_block b), trie_updates b)
  | CommitTransaction => forall n, tip g < n <= pending g -> wfb <= n -> n ∈ (built g).*1
  | ExecuteExexWithBlock b root => 1 <= block_number b <= tip g + 1 /\ root = root_at (block_number b - 1)
  | IsKnownResponse n => fed_next g n /\ n <= tip g
  | SendTask t =>
      fed_next g (task_block_number t) /\ task_block_number t <= tip g /\
      (task_block_number t, task_payload t) ∈ built g
  | _ => True
  end.

Abbreviation valid := (valid allowed observe honest).
(** On success [P] holds. *)
Definition on_ok {A} (P : world -> A -> Prop) (g : world) (r : outcome string A) : Prop :=
  match r with Ok a => P g a | _ => True end.
Abbreviation ends g p P := (valid g p (on_ok P)).

Lemma ends_bind {A B} (p : eff DriverCall string A) (f : A -> eff DriverCall string B) P Q g :
  ends g p P -> (forall g a, P g a -> ends g (f a) Q) -> ends g (p ≫= f) Q.
Proof. intros Hp Hf. eapply (valid_eff_bind allowed observe honest p f P); [|exact Hf]. eapply valid_mono; [exact Hp|]. by intros g' [a|e|]. Qed.

Lemma ends_mono {A} (p : eff DriverCall string A) (P Q : world -> A -> Prop) g :
  ends g p P -> (forall g a, P g a -> Q g a) -> ends g p Q.
Proof. intros Hp HQ. eapply valid_mono; [exact Hp|]. intros g' [a|e|]; cbn; auto. Qed.

Lemma ends_ask {A} text (c : DriverCall (outcome string A)) (P : world -> A -> Prop) g :
  allowed _ g c -> (forall a, honest _ g c (Ok a) -> P (observe _ g c (Ok a)) a) -> ends g (context text (ask c)) P.
Proof.
  intros Ha HP. split; [exact Ha|]. intros r Hr. change (on_ok P (observe _ g c r) (map_err (fun e => text +:+ e) r)).
  destruct r; cbn; auto.
Qed.

Lemma ends_bare_ask {A} (c : DriverCall (outcome string A)) (P : world -> A -> Prop) g :
  allowed _ g c -> (forall a, honest _ g c (Ok a) -> P (observe _ g c (Ok a)) a) -> ends g (ask c) P.
Proof. intros Ha HP. split; [exact Ha|]. intros r Hr. destruct r; cbn; auto. Qed.

Lemma ends_do {A} (c : DriverCall A) (P : world -> A -> Prop) g :
  allowed _ g c -> (forall a, honest _ g c a -> P (observe _ g c a) a) -> ends g (do c) P.
Proof. intros Ha HP. split; [exact Ha|]. intros r Hr. cbn. auto. Qed.

Lemma ends_ok_or {A} text (o : option A) (P : world -> A -> Prop) g :
  (forall a, o = Some a -> P g a) -> ends g (ok_or text o) P.
Proof. destruct o; cbn; auto. Qed.

Lemma ends_of_outcome {A} (o : outcome string A) (P : world -> A -> Prop) g :
  (forall a, o = Ok a -> P g a) -> ends g (of_outcome o) P.
Proof. destruct o; cbn; auto. Qed.

Lemma ends_context_of_outcome {A} text (o : outcome string A) (P : world -> A -> Prop) g :
  (forall a, o = Ok a -> P g a) -> ends g (context text (of_outcome o)) P.
Proof. destruct o; cbn; auto. Qed.

Lemma ends_attempt {A B} (p : eff DriverCall string A) (f : outcome string A -> eff DriverCall string B)
    (P : world -> outcome string A -> Prop) Q g :
  valid g p P -> (forall g r, P g r -> ends g (f r) Q) -> ends g (attempt p ≫= f) Q.
Proof. intros Hp Hf. by eapply valid_attempt. Qed.

(** Reading the network leaves the world as it is, also when it fails. *)
Definition reads {A} (g : world) (p : eff DriverCall string A) (P : A -> Prop) : Prop :=
  valid g p (fun g' r => g' = g /\ match r with Ok a => P a | _ => True end).

Lemma reads_bind {A B} (p : eff DriverCall string A) (f : A -> eff DriverCall string B) P Q g :
  reads g p P -> (forall a, P a -> reads g (f a) Q) -> reads g (p ≫= f) Q.
Proof.
  intros Hp Hf. apply (valid_bind allowed observe honest p). eapply valid_mono; [exact Hp|].
  intros g' [a|e|] [-> Ha]; [by apply Hf|done..].
Qed.

Lemma reads_ask {A} text (c : DriverCall (outcome string A)) (P : A -> Prop) g :
  allowed _ g c -> (forall r, observe _ g c r = g) -> (forall a, honest _ g c (Ok a) -> P a) ->
  reads g (context text (ask c)) P.
Proof.
  intros Ha Ho HP. split; [exact Ha|]. intros r Hr. cbn. rewrite Ho. split; [done|]. destruct r; cbn; auto.
Qed.

Lemma reads_ok_or {A} text (o : option A) (P : A -> Prop) g :
  (forall a, o = Some a -> P a) -> reads g (ok_or text o) P.
Proof. destruct o; cbn; auto. Qed.

Lemma reads_ends {A} g (p : eff DriverCall string A) P :
  reads g p P -> ends g p (fun g' a => g' = g /\ P a).
Proof. intros Hp. eapply valid_mono; [exact Hp|]. by intros g' [a|e|] [-> Ha]. Qed.

Lemma reads_mret {A} g (a : A) (P : A -> Prop) : P a -> reads g (mret a : eff DriverCall string A) P.
Proof. done. Qed.

(** ** Fetching *)

Definition fetched (n : Z) (f : FetchedBlock) : Prop :=
  fetched_number f = n /\ block_number (into_primitive_block (alloy_block f)) = n.

Lemma fetch_block_reads g n : reads g (fetch_block n) (fetched n).
Proof.
  eapply (reads_bind _ _ (fun o => forall b, o = Some b -> block_number (into_primitive_block b) = n)).
  - apply reads_ask; [done|done|]. intros o Ho b ->. by apply Ho.
  - intros o Ho. eapply (reads_bind _ _ (fun b => o = Some b)); [by apply reads_ok_or|].
    intros b ->. apply reads_mret. split; [done|]. by apply Ho.
Qed.

Lemma add_calls_reads g ns : reads g (add_calls ns) (fun _ => True).
Proof.
  induction ns as [|n ns IH]; [done|]. eapply (reads_bind _ _ (fun _ => True)); [|intros _ _; exact IH].
  by apply reads_ask.
Qed.

Lemma wait_calls_reads g ns : reads g (wait_calls ns) (Forall2 fetched ns).
Proof.
  induction ns as [|n ns IH]; [by apply reads_mret|].
  eapply (reads_bind _ _ (fun o => forall b, o = Some b -> block_number (into_primitive_block b) = n)).
  - apply reads_ask; [done|done|]. intros o Ho b ->. by apply Ho.
  - intros o Ho. eapply (reads_bind _ _ (fun b => o = Some b)); [by apply reads_ok_or|]. intros b ->.
    eapply reads_bind; [exact IH|]. intros fs Hfs. apply reads_mret. constructor; [|done]. split; [done|]. by apply Ho.
Qed.

Lemma fetch_batch_reads g s e : reads g (fetch_batch s e) (Forall2 fetched (range_incl s e)).
Proof.
  eapply (reads_bind _ _ (fun _ => True)); [apply add_calls_reads|]. intros _ _.
  eapply (reads_bind _ _ (fun _ => True)); [by apply reads_ask|]. intros _ _. apply wait_calls_reads.
Qed.

(** ** Committing *)

(** Only the database moves. *)
Definition frame (g g' : world) : Prop := built g' = built g /\ last_fed g' = last_fed g.

Lemma recover_ends g n b :
  ends g (recover n b) (fun g' r => g' = g /\ recovered_number r = block_number b).
Proof. apply ends_ok_or. intros r Hr. split; [done|]. by apply Hrecovered. Qed.

Lemma check_ends g view at_ n r :
  allowed _ g (Execute view r) ->
  ends g (execute_and_check view at_ n r) (fun g' ex =>
    recovered_block ex = r /\ g' = with_rooted (Some (hashed_state ex, block_state_root r, trie_updates ex)) g).
Proof.
  intros Ha. eapply (ends_bind _ _ (fun g' _ => g' = g)); [by apply ends_ask|]. intros g1 out ->.
  eapply (ends_bind _ _ (fun g' x => g' = with_rooted (Some (from_bundle_state out, x.1, x.2)) g)).
  { apply ends_ask; [done|]. by intros [root u] _. }
  intros g1 [root u] ->. cbn. case_decide as Hroot; [|done]. cbn. by rewrite Hroot.
Qed.

Lemma commit_phase_ends g n b :
  block_number b = n -> n = tip g + 1 -> (wfb <= n -> n ∈ (built g).*1) ->
  ends g (commit_phase n b) (fun g' _ => tip g' = n /\ frame g g').
Proof.
  intros Hb Hn Hbuilt. eapply ends_bind; [apply recover_ends|]. intros g1 r [-> Hr]. cbn beta.
  eapply (ends_bind _ _ (fun g' _ => g' = g)); [by apply ends_bare_ask|]. intros g1 _ ->.
  eapply ends_bind; [apply check_ends; split; lia|]. intros g1 ex [Hex ->]. cbn beta.
  eapply (ends_bind _ _ (fun g' _ => g' = with_tips (tip g) (tip g)
    (with_rooted (Some (hashed_state ex, block_state_root r, trie_updates ex)) g))); [by apply ends_bare_ask|].
  intros g1 _ ->.
  eapply (ends_bind _ _ (fun g' _ => tip g' = tip g /\ pending g' = n /\ frame g g')).
  { apply ends_ask; [cbn; rewrite Hex; split; [lia|done]|]. intros u _. cbn. repeat split; lia. }
  intros g1 _ (Ht & Hp & Hf1 & Hf2). apply ends_ask; cbn.
  - intros m Hm Hw. rewrite Hf1. replace m with n in * by lia. auto.
  - intros u _. done.
Qed.

Lemma save_batch_ends fs : forall g,
  Forall2 fetched (seqZ (pending g + 1) (Z.of_nat (length fs))) fs ->
  ends g (save_batch fs) (fun g' _ => tip g' = tip g /\ pending g' = pending g + Z.of_nat (length fs) /\ frame g g').
Proof.
  induction fs as [|f fs IH]; intros g Hfs; [cbn; repeat split; lia|].
  cbn [length] in Hfs. rewrite seqZ_cons in Hfs by lia. inversion_clear Hfs as [|?? ? ? [Hn Hb] Hfs'].
  eapply ends_bind; [apply recover_ends|]. intros g1 r [-> Hr]. cbn beta.
  eapply ends_bind; [apply check_ends; cbn; lia|]. intros g1 ex [Hex ->]. cbn beta.
  eapply (ends_bind _ _ (fun g' _ => tip g' = tip g /\ pending g' = pending g + 1 /\ frame g g')).
  { apply ends_ask; [cbn; rewrite Hex; split; [lia|done]|]. intros u _. done. }
  intros g1 _ (Ht & Hp & Hf1 & Hf2). eapply ends_mono.
  - apply IH. rewrite Hp. replace (Z.pred (Z.of_nat (S (length fs)))) with (Z.of_nat (length fs)) in Hfs' by lia.
    by replace (pending g + 1 + 1) with (Z.succ (pending g + 1)) by lia.
  - intros g2 _ (Ht2 & Hp2 & Hf3 & Hf4). cbn [length]. repeat split; [lia|lia|congruence..].
Qed.

Lemma commit_batch_ends g s e fs :
  Forall2 fetched (range_incl s e) fs -> s = tip g + 1 -> s <= e < wfb ->
  ends g (commit_batch fs) (fun g' _ => tip g' = e /\ frame g g').
Proof.
  intros Hfs Hs He. pose proof (Forall2_length _ _ _ Hfs) as Hlen.
  pose proof (length_range_incl s e ltac:(lia)) as Hl.
  assert (Hne : fs <> []) by (intros ->; cbn in Hlen; lia).
  unfold commit_batch. destruct fs as [|f fs'] eqn:Efs; [done|]. rewrite <- Efs in *. clear Efs Hne f fs'.
  eapply (ends_bind _ _ (fun g' _ => g' = with_tips (tip g) (tip g) g)); [by apply ends_ask|]. intros g1 _ ->.
  eapply ends_bind.
  { apply save_batch_ends. cbn. unfold range_incl in Hfs, Hl, Hlen. rewrite <- Hs, <- Hlen, Hl. exact Hfs. }
  intros g1 _ (Ht & Hp & Hf1 & Hf2). cbn in Ht, Hp, Hf1, Hf2. apply ends_ask; cbn.
  - intros n Hn Hw. lia.
  - intros u _. cbn. split; [lia|done].
Qed.

Lemma run_pruner_reads slot n g : reads g (run_pruner_if_needed slot n) (fun _ => True).
Proof.
  destruct slot; [|done]. split; [done|]. intros [] _; [|done]. split; [done|]. intros r _. cbn. by destruct r.
Qed.

(** ** Witnesses *)

(** Only witnesses are added. *)
Definition grows (g g' : world) : Prop :=
  tip g' = tip g /\ last_fed g' = last_fed g /\ exists extra, built g' = built g ++ extra.

Lemma grows_refl g : grows g g.
Proof. repeat split. exists []. by rewrite app_nil_r. Qed.

Lemma grows_built g g' x : grows g g' -> x ∈ built g -> x ∈ built g'.
Proof. intros (_ & _ & extra & ->) Hx. apply elem_of_app. by left. Qed.

Lemma genuine_grown g g' h : grows g g' -> genuine (built g) h -> genuine (built g') h.
Proof. intros (_ & _ & extra & ->). apply genuine_grows. Qed.

Lemma hub_get_witness_ends g n h :
  genuine (built g) h ->
  ends g (hub_get_witness n h) (fun g' o => g' = g /\ forall p, o = Some p -> (n, p) ∈ built g).
Proof.
  intros Hg. eapply (ends_bind _ _ (fun g' _ => g' = g)); [by apply ends_do|]. intros g1 read ->.
  split; [done|]. intros p Hp. by eapply genuine_get.
Qed.

Lemma parent_root_ends what g n :
  ends g (parent_root what n) (fun g' root => g' = g /\ root = root_at (n - 1)).
Proof.
  apply (reads_ends g _ (fun root => root = root_at (n - 1))).
  eapply (reads_bind _ _ (fun o => forall root, o = Some root -> root = root_at (n - 1))).
  - apply reads_ask; [done|done|]. intros o Ho root ->. by apply Ho.
  - intros o Ho. apply reads_ok_or. intros root ->. by apply Ho.
Qed.

Lemma build_witness_ends g b root n :
  block_number b = n -> 1 <= n <= tip g + 1 -> root = root_at (n - 1) ->
  ends g (build_witness b root) (fun g' p => grows g g' /\ (n, p) ∈ built g').
Proof.
  intros Hb Hn Hroot.
  eapply (ends_bind _ _ (fun g' input => grows g g' /\ forall p, bincode_serialize input = Ok p -> (n, p) ∈ built g')).
  - apply ends_ask; [cbn; by rewrite Hb|]. intros input _. cbn. rewrite Hb.
    destruct (bincode_serialize input) as [p| |]; cbn; [|by split; [apply grows_refl|]..].
    split; [by repeat split; eexists|]. intros p' [= <-]. set_solver.
  - intros g1 input [Hg1 Hp]. apply ends_context_of_outcome. auto.
Qed.

Lemma rewitness_ends g f h n :
  fetched n f -> 1 <= n <= tip g -> genuine (built g) h ->
  ends g (rewitness_phase f h) (fun g' p => grows g g' /\ (n, p) ∈ built g').
Proof.
  intros [Hf Hb] Hn Hh. unfold rewitness_phase. rewrite Hf.
  eapply ends_bind; [by apply hub_get_witness_ends|]. intros g1 [p|] [-> Hp].
  - split; [apply grows_refl|auto].
  - eapply ends_bind; [apply parent_root_ends|]. intros g1 root [-> Hroot].
    eapply ends_attempt; [apply (build_witness_ends g _ root n); [done|lia|done]|].
    intros g1 r Hr. eapply (ends_bind _ _ (fun g' _ => g' = g1)); [by apply ends_do|]. intros g2 _ ->.
    apply ends_context_of_outcome. intros p ->. exact Hr.
Qed.

(** ** The driver's state *)
Record sound (g : world) (d : Driver) : Prop := {
  sound_hub : genuine (built g) (hub d);
  sound_tip : 0 <= tip g < 2 ^ 62;
  sound_at : tip g = Z.max (start_tip d) (next d - 1);
  sound_next : 1 <= next d;
  sound_wfb : witness_from_block d = wfb;
  sound_safe : 0 <= l2_safe_blocks d;
  sound_ready : ready d = true -> wfb <= next d }.

(** A known or new block was taken: the database has it. *)
Definition takes (g : world) (d : Driver) (g' : world) (r : option (Z * list Z) * Driver) : Prop :=
  last_fed g' = last_fed g /\ sound g' r.2 /\ ready r.2 = ready d /\
  match r.1 with
  | Some (n, p) => n = next d /\ next r.2 = n + 1 /\ n <= tip g' /\ (n, p) ∈ built g'
  | None => next r.2 = next d
  end.

Lemma u64_small n : 0 <= n < 2 ^ 63 -> u64 n = n.
Proof. intros Hn. unfold u64. apply Z.mod_small. lia. Qed.

Lemma sound_moves g g' d h slot :
  sound g d -> genuine (built g') h -> tip g' < 2 ^ 62 -> tip g' = Z.max (start_tip d) (next d) ->
  sound g' (with_next (u64 (next d + 1)) (with_pruner slot (with_hub h d))).
Proof.
  intros [] Hh Hn Ht. assert (E : u64 (next d + 1) = next d + 1) by (apply u64_small; lia).
  split; cbn; rewrite ?E; try done; try lia. intros Hr. specialize (sound_ready0 Hr). lia.
Qed.

Lemma retry_later_ends g d : sound g d -> ends g (retry_later d) (takes g d).
Proof.
  intros Hs. eapply (ends_bind _ _ (fun g' _ => g' = g)); [by apply ends_do|]. intros g1 _ ->. by split_and!.
Qed.

(** ** One witness *)

Lemma retake_ends g d :
  sound g d -> next d <= start_tip d -> ends g (retake_block (next d) d) (takes g d).
Proof.
  intros Hs Hn. pose proof Hs as [Hh Ht Hat Hnext _ _ _].
  eapply ends_bind; [by apply hub_get_witness_ends|]. intros g1 [p|] [-> Hp].
  - split_and!; [done| |done|].
    + apply (sound_moves g g d (hub d) (pruner d)); [done|done|lia|lia].
    + cbn. rewrite u64_small by lia. split_and!; [done|done|lia|auto].
  - eapply (ends_attempt _ _ (fun g' r => g' = g /\ match r with Ok f => fetched (next d) f | _ => True end));
      [apply fetch_block_reads|].
    intros g1 [f|e|] [-> Hf]; [|by apply retry_later_ends|done].
    eapply ends_bind; [apply (rewitness_ends g f (hub d) (next d)); [done|lia|done]|].
    intros g1 p' [Hg1 Hin]. eapply (ends_bind _ _ (fun g' _ => g' = g1)); [by apply ends_do|]. intros g2 ok ->.
    pose proof (genuine_push (built g1) ok (next d) p' (hub d) Hin (genuine_grown _ _ _ Hg1 Hh)) as Hpush.
    destruct (push ok (next d) p' (hub d)) as [pushed h]. cbn in Hpush.
    eapply (ends_bind _ _ (fun g' _ => g' = g1)); [by apply ends_of_outcome|]. intros g2 _ ->.
    destruct Hg1 as (Etip & Efed & _). split_and!; [done| |done|].
    + apply (sound_moves g g1 d h (pruner d)); [done|done|lia|lia].
    + cbn. rewrite u64_small by lia. split_and!; [done|done|lia|done].
Qed.

Lemma take_fresh_ends g d f :
  sound g d -> start_tip d < next d < 2 ^ 62 -> fetched (next d) f ->
  ends g (take_fresh_block f d) (takes g d).
Proof.
  intros Hs Hn [Hf Hb]. pose proof Hs as [Hh Ht Hat Hnext _ _ _].
  unfold take_fresh_block. rewrite Hf.
  eapply ends_bind; [apply parent_root_ends|]. intros g1 root [-> Hroot].
  eapply ends_bind; [apply (build_witness_ends g _ root (next d)); [done|lia|done]|].
  intros g1 p [(Etip & Efed & extra & Ebuilt) Hin].
  eapply ends_bind.
  { apply (commit_phase_ends g1 (next d) _ Hb); [lia|]. intros _. apply list_elem_of_fmap. by exists (next d, p). }
  intros g2 _ (Etip2 & Ebuilt2 & Efed2). eapply (ends_bind _ _ (fun g' _ => g' = g2)); [by apply ends_do|]. intros g3 ok ->.
  assert (Hh2 : genuine (built g2) (hub d)) by (rewrite Ebuilt2, Ebuilt; by apply genuine_grows).
  assert (Hin2 : (next d, p) ∈ built g2) by by rewrite Ebuilt2.
  pose proof (genuine_push_batched (built g2) ok (next d) p (hub d) Hin2 Hh2) as Hpush.
  destruct (push_batched ok (next d) p (hub d)) as [pushed h]. cbn in Hpush.
  eapply (ends_bind _ _ (fun g' _ => g' = g2)); [by apply ends_of_outcome|]. intros g3 _ ->.
  eapply ends_bind; [apply reads_ends, run_pruner_reads|]. intros g3 slot [-> _].
  split_and!; [congruence| |done|].
  - apply (sound_moves g g2 d h slot); [done|done|lia|lia].
  - cbn. rewrite u64_small by lia. split_and!; [done|done|lia|done].
Qed.

Lemma try_take_ends g d : sound g d -> ends g (try_take_new_block d) (takes g d).
Proof.
  intros Hs. pose proof Hs as [_ _ _ _ _ Hsafe _]. unfold try_take_new_block.
  destruct (ready d) eqn:Er; [|by split_and!].
  case_decide as Hn; [by apply retake_ends|].
  eapply (ends_attempt _ _ (fun g' r => g' = g /\ forall n, r = Ok n -> 0 <= n < 2 ^ 62)).
  { split; [done|]. intros r Hr. done. }
  intros g1 [remote|e|] [-> Hr]; [|by apply retry_later_ends|done].
  case_decide as Hr2; [by split_and!|].
  eapply (ends_attempt _ _ (fun g' r => g' = g /\ match r with Ok f => fetched (next d) f | _ => True end));
    [apply fetch_block_reads|].
  intros g1 [f|e|] [-> Hf]; [|by apply retry_later_ends|done].
  apply take_fresh_ends; [done| |done]. specialize (Hr remote eq_refl). unfold sat_sub in Hr2. lia.
Qed.

(** ** The feeder *)

Definition feeds (g : world) (d : Driver) : Prop := sound g d /\ (ready d = true -> fed_next g (next d)).

Lemma feeder_ends rounds : forall g d, feeds g d -> ends g (feeder_loop rounds d) (fun _ _ => True).
Proof.
  induction rounds as [|rounds IH]; intros g d [Hs Hfed]; [done|].
  eapply (ends_bind _ _ (fun g' _ => g' = g)); [by apply ends_do|]. intros g1 cancelled ->.
  destruct cancelled; [done|].
  eapply (ends_attempt _ _ (on_ok (fun g' r => takes g d g' r /\ (r.1 <> None -> ready d = true)))).
  { pose proof (try_take_ends g d Hs) as Ht. unfold try_take_new_block in *.
    destruct (ready d); [eapply ends_mono; [exact Ht|]; auto|]. split; [by apply Ht|done]. }
  intros g1 [[[[n p]|] d']|e|] Ht; [| |by split|done]; destruct Ht as [(Ef & Hs' & Er & Hr) Hready]; cbn in *.
  - destruct Hr as (-> & En & Hn & Hin). specialize (Hready ltac:(done)). specialize (Hfed Hready).
    assert (Hnext : fed_next g1 (next d)) by (unfold fed_next; by rewrite Ef).
    assert (Hgo : feeds (with_fed (next d) g1) d').
    { split; [destruct Hs'; by split|]. intros _. cbn. by rewrite En. }
    split; [done|]. intros [] _; [by apply IH|]. split; [done|]. intros [] _; [by apply IH|done].
  - split; [done|]. intros [] _; [done|]. apply IH. split; [done|]. rewrite Er, Hr. unfold fed_next. by rewrite Ef.
Qed.

(** ** Catch-up *)

Fixpoint chained (s upper : Z) (ranges : list (Z * Z)) : Prop :=
  match ranges with
  | [] => s = upper + 1
  | (a, b) :: ranges => a = s /\ a <= b <= upper /\ chained (b + 1) upper ranges
  end.

Lemma batch_ranges_chained fuel : forall s upper,
  0 <= s -> s <= upper + 1 -> upper < 2 ^ 62 -> upper - s + 1 <= Z.of_nat fuel -> chained s upper (batch_ranges fuel s upper).
Proof.
  induction fuel as [|fuel IH]; intros s upper H0' Hs Hu Hf; cbn; [lia|].
  case_decide; [|cbn; lia]. cbn. unfold sat_add64, CATCHUP_BATCH_SIZE, u64_max.
  split; [done|]. split; [lia|]. rewrite u64_small by lia. apply IH; lia.
Qed.

(** In catch-up the next block follows the tip. *)
Definition catching (g : world) (d : Driver) : Prop :=
  sound g d /\ last_fed g = None /\ ready d = false /\ next d = tip g + 1 /\ start_tip d < next d /\ next d <= wfb.

Lemma drain_ends upper ranges : forall g d,
  catching g d -> chained (next d) upper ranges -> upper < wfb -> upper < 2 ^ 62 ->
  ends g (drain_batches ranges d) (fun g' r => catching g' r.2 /\ (r.1 = Drained -> next r.2 = upper + 1)).
Proof.
  induction ranges as [|[s e] ranges IH]; intros g d Hc Hr Hu Hb.
  { cbn in Hr |- *. split; [exact Hc|]. auto. }
  destruct Hr as (-> & He & Hr). pose proof Hc as (Hs & Hfed & Hready & Hn & Hst & Hw).
  eapply (ends_bind _ _ (fun g' _ => g' = g)); [by apply ends_do|]. intros g1 cancelled ->. destruct cancelled; [by split|].
  eapply (ends_attempt _ _ (fun g' r => g' = g /\ match r with Ok fs => Forall2 fetched (range_incl (next d) e) fs | _ => True end));
    [apply fetch_batch_reads|].
  intros g1 [fs|err|] [-> Hfs]; [| |done].
  - eapply (ends_bind _ _ (fun g' _ => g' = g)); [by apply ends_do|]. intros g1 cancelled ->. destruct cancelled; [by split|].
    eapply ends_bind; [apply (commit_batch_ends g (next d) e fs Hfs Hn); lia|]. intros g1 _ (Et & Eb & Ef).
    eapply ends_bind; [apply reads_ends, run_pruner_reads|]. intros g2 slot [-> _].
    pose proof Hs as [Hh Ht Hat Hnx Hwf Hsf Hrd].
    assert (Eu : u64 (e + 1) = e + 1) by (apply u64_small; lia). rewrite Eu. apply IH; [|done|done|done].
    unfold catching. cbn. split_and!; [|congruence|done|lia|lia|lia].
    split; cbn; try done; try lia; [by rewrite Eb|]. by rewrite Hready.
  - eapply (ends_bind _ _ (fun g' _ => g' = g)); [by apply ends_do|]. intros g1 cancelled ->. by destruct cancelled.
Qed.

(** What the feeder needs. *)
Definition caught_up (g : world) (d : Driver) : Prop :=
  sound g d /\ last_fed g = None /\ (ready d = true -> wfb <= next d <= Z.max wfb (checkpoint + 1)).

Lemma catching_caught_up g d : catching g d -> caught_up g d.
Proof. intros (Hs & Hf & Hr & _). split_and!; [done|done|]. by rewrite Hr. Qed.

Lemma with_ready_sound g d : sound g d -> wfb <= next d -> sound g (with_ready d).
Proof. intros [] Hn. by split. Qed.

Lemma catch_up_ends rounds : forall g d,
  catching g d -> wfb < 2 ^ 62 ->
  ends g (catch_up rounds d) (fun g' r => forall d', r = Some d' -> caught_up g' d').
Proof.
  induction rounds as [|rounds IH]; intros g d Hc Hw; [done|].
  assert (Hstop : forall d', Some d = Some d' -> caught_up g d') by (intros ? [= <-]; by apply catching_caught_up).
  eapply (ends_bind _ _ (fun g' _ => g' = g)); [by apply ends_do|]. intros g1 cancelled ->. destruct cancelled; [done|].
  eapply (ends_attempt _ _ (fun g' r => g' = g)); [by split|].
  assert (Hagain : ends g (cancelled ← do SleepOrCancelled; if (cancelled : bool) then mret (Some d) else catch_up rounds d)
    (fun g' r => forall d', r = Some d' -> caught_up g' d')).
  { eapply (ends_bind _ _ (fun g' _ => g' = g)); [by apply ends_do|]. intros g1 cancelled ->. destruct cancelled; [done|by apply IH]. }
  intros g1 [remote|e|] ->; [|done|done]. cbn zeta. case_decide as Hup; [done|].
  pose proof Hc as (Hs & _ & _ & Hn & _ & _). pose proof Hs as [_ Ht _ Hnx Ewf _ _].
  eapply ends_bind.
  { apply (drain_ends (Z.min (sat_sub remote (l2_safe_blocks d)) (witness_from_block d - 1))); [done| |lia|lia].
    apply batch_ranges_chained; lia. }
  intros g1 [[| |] d1] [Hc1 Hd]; cbn in Hc1, Hd.
  - intros d' [= <-]. by apply catching_caught_up.
  - by apply IH.
  - pose proof Hc1 as (Hs1 & Hf1 & _ & _ & _ & Hle). pose proof Hs1 as [_ _ _ _ Ewf1 _ _].
    case_decide as Hdone; [|by apply IH]. intros d' [= <-].
    split_and!; [apply with_ready_sound; [done|lia]|done|]. intros _. cbn. lia.
Qed.

(** ** Start *)

Lemma highest_reads g s : (forall r, observe _ g s r = g) -> allowed _ g s -> reads g (highest_or_0 s) (fun _ => True).
Proof. intros Ho Ha. split; [exact Ha|]. intros r _. cbn. by rewrite Ho. Qed.

Lemma prune_segment_reads g n s name prune k : reads g (prune_segment n s name prune k) (fun _ => True).
Proof.
  eapply (reads_bind _ _ (fun _ => True)); [by apply reads_ask|]. intros _ _.
  eapply (reads_bind _ _ (fun _ => True)); [by apply reads_ask|]. intros _ _. by apply reads_ask.
Qed.

Lemma heal_by_tx_reads g n t l s name prune : reads g (heal_by_tx n t l s name prune) (fun _ => True).
Proof.
  unfold heal_by_tx. case_decide; [|done]. eapply (reads_bind _ _ (fun _ => True)); [by apply highest_reads|].
  intros k _. cbn zeta. case_decide; [apply prune_segment_reads|done].
Qed.

Lemma heal_reads g : reads g heal_static_files_if_needed (fun _ => True).
Proof.
  eapply (reads_bind _ _ (fun _ => True)); [by apply reads_ask|]. intros t _. case_decide; [done|].
  do 3 (eapply (reads_bind _ _ (fun _ => True)); [by apply highest_reads|]; intros ? _).
  case_decide; [done|].
  eapply (reads_bind _ _ (fun _ => True)); [case_decide; [apply prune_segment_reads|done]|]. intros _ _.
  eapply (reads_bind _ _ (fun _ => True)); [|intros _ _; by apply reads_ask].
  case_decide; [|done].
  eapply (reads_bind _ _ (fun _ => True)); [by apply reads_ask|]. intros _ _.
  eapply (reads_bind _ _ (fun _ => True)); [by apply reads_ask|]. intros o _.
  eapply (reads_bind _ _ (fun _ => True)); [by apply reads_ok_or|]. intros l _.
  eapply (reads_bind _ _ (fun _ => True)); [apply heal_by_tx_reads|]. intros _ _. apply heal_by_tx_reads.
Qed.

(** The world at the start of the process, with its cold store. *)
Definition starts (g : world) (h : WitnessHub) : Prop :=
  genuine (built g) h /\ 0 <= tip g < 2 ^ 62 /\ last_fed g = None.

Lemma best_block_ends text g : ends g (context text (ask BestBlockNumber)) (fun g' n => g' = g /\ n = tip g).
Proof. apply ends_ask; [done|]. intros n Hn. split; [done|]. by apply Hn. Qed.

(** An unwind to [target] leaves the blocks below it. *)
Lemma unwind_to_ends g h target :
  0 <= target -> starts g h ->
  ends g (unwind_to h target) (fun g' h' => starts g' h' /\
    tip g' = if decide (0 < target < tip g) then target - 1 else tip g).
Proof.
  intros Htg Hst. assert (Hstay : ~ 0 < target < tip g -> starts g h /\
    tip g = if decide (0 < target < tip g) then target - 1 else tip g) by (intros ?; by case_decide).
  eapply ends_bind; [apply best_block_ends|]. intros g1 n [-> ->]. cbn beta.
  destruct (decide (target = 0)); [apply Hstay; lia|]. destruct (decide (tip g < target)); [apply Hstay; lia|].
  destruct (decide (target = tip g)); [apply Hstay; lia|].
  destruct Hst as (Hh & Ht & Hf). cbn zeta.
  eapply (ends_bind _ _ (fun g' _ => g' = with_tips (tip g) (tip g) g)); [by apply ends_ask|]. intros g1 _ ->.
  eapply (ends_bind _ _ (fun g' _ => g' = with_tips (tip g) (target - 1) g)).
  { apply ends_ask; [done|]. intros u _. cbn. replace (Z.min (target - 1) (tip g)) with (target - 1) by lia. done. }
  intros g1 _ ->.
  eapply (ends_bind _ _ (fun g' _ => g' = with_tips (target - 1) (target - 1) g)).
  { apply ends_ask; [intros m Hm; cbn in Hm; lia|done]. }
  intros g1 _ ->. eapply (ends_bind _ _ (fun g' _ => g' = with_tips (target - 1) (target - 1) g)); [by apply ends_do|].
  intros g1 _ ->. eapply ends_bind; [apply best_block_ends|]. intros g1 ? [-> _]. cbn beta.
  eapply (ends_bind _ _ (fun g' _ => g' = with_tips (target - 1) (target - 1) g)); [by apply ends_do|]. intros g1 ok ->.
  pose proof (genuine_unwind (built g) ok (target - 1) h Hh) as Hu.
  destruct (unwind_above ok (target - 1) h) as [removed h']. cbn in Hu.
  eapply (ends_bind _ _ (fun g' _ => g' = with_tips (target - 1) (target - 1) g)); [by apply ends_of_outcome|]. intros g1 _ ->.
  split; [split_and!; cbn; [done|lia|lia|done]|]. cbn. case_decide; [done|lia].
Qed.

Lemma startup_unwind_ends g h env :
  0 <= checkpoint -> (forall t, env = Some t -> 0 <= t) -> starts g h ->
  ends g (startup_unwind env checkpoint h) (fun g' h' => starts g' h' /\
    (env = None -> tip g' = if decide (0 < checkpoint < tip g) then checkpoint - 1 else tip g)).
Proof.
  intros Hcp Henv Hst.
  eapply (ends_bind _ _ (fun g' o => g' = g /\ (forall t, o = Some t -> 0 <= t) /\
    (env = None -> o = if decide (0 < checkpoint < tip g) then Some checkpoint else None))).
  { unfold unwind_target. destruct env as [t|]; [by split_and!|].
    destruct (decide (0 < checkpoint)) as [Hc|Hc].
    - eapply ends_bind; [apply best_block_ends|]. intros g1 n [-> ->]. cbn beta.
      destruct (decide (checkpoint < tip g)); (split_and!; [done| |]).
      + intros t E. apply (inj Some) in E as <-. lia.
      + intros _. case_decide; [done|lia].
      + done.
      + intros _. case_decide; [lia|done].
    - split_and!; [done|done|]. intros _. case_decide; [lia|done]. }
  intros g1 o (-> & Ho & Eo). destruct o as [t|].
  - eapply ends_mono; [apply unwind_to_ends; [by apply Ho|done]|]. intros g' h' [Hs' Et]. split; [done|]. intros E.
    specialize (Eo E). destruct (decide (0 < checkpoint < tip g)) as [Hd|]; [|done]. injection Eo as ->.
    by rewrite Et, decide_True.
  - split; [done|]. intros E. specialize (Eo E). by destruct (decide (0 < checkpoint < tip g)).
Qed.

(** What [Driver::new] starts from. *)
Definition fresh_driver (g : world) (d : Driver) : Prop :=
  sound g d /\ last_fed g = None /\ ready d = false /\
  next d = Z.min (Z.max (checkpoint + 1) wfb) (tip g + 1) /\ start_tip d = tip g.

Lemma new_driver_ends g cfg :
  starts g (cfg_hub cfg) -> cfg_witness_from_block cfg = wfb -> orchestrator_checkpoint cfg = checkpoint ->
  0 <= cfg_l2_safe_blocks cfg -> 0 <= checkpoint < 2 ^ 62 -> 0 <= wfb < 2 ^ 62 ->
  ends g (new_driver cfg) fresh_driver.
Proof.
  intros (Hh & Ht & Hf) Ew Ec Hsafe Hc Hw.
  eapply (ends_bind _ _ (fun g' _ => g' = g)).
  { eapply ends_bind; [apply best_block_ends|]. intros g1 n [-> ->]. cbn beta. case_decide; [done|by apply ends_ask]. }
  intros g1 _ ->. eapply ends_bind; [apply best_block_ends|]. intros g1 n [-> ->]. cbn beta.
  eapply (ends_bind _ _ (fun g' _ => g' = g)); [by apply ends_do|]. intros g1 read ->.
  eapply (ends_bind _ _ (fun g' _ => g' = g)); [by destruct read|]. intros g1 _ ->. cbn zeta.
  case_decide; [done|]. rewrite Ew, Ec, !u64_small by lia.
  split_and!; cbn; [|done|done|done|done]. split; cbn; try done; lia.
Qed.

Lemma advance_ends rounds g d :
  fresh_driver g d -> 0 <= wfb < 2 ^ 62 ->
  ends g (advance_to_witness_from_block rounds d) (fun g' r => forall d', r = Some d' -> caught_up g' d').
Proof.
  intros (Hs & Hf & Hr & Hn & Hst) Hw. pose proof Hs as [_ Ht _ _ Ewf _ _].
  unfold advance_to_witness_from_block. case_decide as Hd.
  - intros d' [= <-]. split_and!; [apply with_ready_sound; [done|lia]|done|]. intros _. cbn. lia.
  - apply catch_up_ends; [|lia]. split_and!; [done..|lia|lia|lia].
Qed.
End Spec.

(** C19: the forward driver feeds every block once, in order, with its own
    witness.  Started on any database and cold store, and whatever the L2 node,
    the disk and the process do, as long as the node returns the blocks asked
    for and the database what was committed: a block is executed on the state
    of its predecessor and saved as the successor of the last one, with the
    state root its header names; from [witness_from_block] on it is committed
    only after its witness was built; witnesses are built against the parent's
    root; and the blocks handed to the workers, or known to need no work,
    follow each other without a gap, starting no later than the block after the
    checkpoint, are in the database, and carry a witness built for that very
    block. *)
Theorem driver_feeds_in_order `{NodeTypes, Zstd, !ZstdLaws}
    (block_number : PrimBlock -> Z) (recovered_number : RecoveredBlock -> Z) (root_at : Z -> list Z)
    (Hrecovered : forall b r, try_into_recovered b = Some r -> recovered_number r = block_number b)
    catch_up_rounds feeder_rounds env cfg (g : world)
    (Hstarts : starts g (cfg_hub cfg))
    (Henv : forall t, env = Some t -> 0 <= t)
    (Hcfg : 0 <= cfg_l2_safe_blocks cfg /\ 0 <= orchestrator_checkpoint cfg < 2 ^ 62 /\ 0 <= cfg_witness_from_block cfg < 2 ^ 62)
    t a :
  exec (run_driver catch_up_rounds feeder_rounds env cfg) t a ->
  honest_trace (observe block_number) (honest block_number root_at) g t ->
  respects (allowed block_number recovered_number root_at (cfg_witness_from_block cfg) (orchestrator_checkpoint cfg))
    (observe block_number) g t.
Proof.
  intros Ht Hh. refine (proj1 (valid_sound _ _ _ _ (on_ok (fun _ _ => True)) t a g _ Ht Hh)).
  destruct Hcfg as (Hsafe & Hc & Hw).
  eapply ends_bind; [apply reads_ends, heal_reads|]. intros g1 _ [-> _].
  eapply ends_bind; [by apply startup_unwind_ends; [lia|done|done]|]. intros g1 h [Hs1 _].
  eapply ends_bind; [by apply new_driver_ends|]. intros g2 d Hd.
  eapply ends_bind; [by apply (advance_ends _ _ Hrecovered)|]. intros g3 [d'|] Hd'; [|done].
  destruct (Hd' d' eq_refl) as (Hs & Hf & Hn). eapply feeder_ends; [done|]. split; [done|].
  intros Hr. specialize (Hn Hr). unfold fed_next. by rewrite Hf.
Qed.

(** ** Runs of the forward driver

    A network and a database that answer truthfully; a run over it; and what
    the automatic unwind at startup does to the checkpoint block. *)

(** The automatic unwind at startup removes the checkpoint block.  Its
    comment says that the block of the checkpoint is kept and everything above
    dropped; whenever the database is ahead of a checkpoint and the unwind
    succeeds, the database ends one block below the checkpoint. *)
Theorem auto_unwind_drops_checkpoint `{NodeTypes, Zstd, !ZstdLaws} (block_number : PrimBlock -> Z) (root_at : Z -> list Z)
    (g : world) (h : WitnessHub) checkpoint t h' :
  starts g h -> 0 < checkpoint < tip g ->
  exec (startup_unwind None checkpoint h) t (Ok h') ->
  honest_trace (observe block_number) (honest block_number root_at) g t ->
  tip (after (observe block_number) g t) = checkpoint - 1.
Proof.
  intros Hs Hc Ht Hh.
  assert (Hv := startup_unwind_ends block_number (fun _ => 0) root_at (checkpoint + 1) checkpoint g h None
    ltac:(lia) ltac:(done) Hs).
  destruct (valid_sound _ _ _ _ _ t (Ok h') g Hv Ht Hh) as [_ [_ E]]. rewrite (E eq_refl). by rewrite decide_True.
Qed.

(** ** A truthful environment: blocks are their numbers *)
Section Runs.
Context {C : Type -> Type} {G : Type} (observe : forall R, G -> C R -> R -> G) (honest : forall R, G -> C R -> R -> Prop).

Lemma run_honest {A} (answer : forall R, C R -> G -> R) (p : prog C A) : forall g,
  (forall R c g, honest R g c (answer R c g)) ->
  honest_trace observe honest g (run (fun R c g => (answer R c g, observe R g c (answer R c g))) p g).1.2.
Proof.
  induction p as [a|R c k IH]; intros g Ha; cbn; [done|].
  specialize (IH (answer R c g) (observe R g c (answer R c g)) Ha).
  destruct (run _ (k (answer R c g)) (observe R g c (answer R c g))) as [[a t] g'] eqn:E.
  cbn in *. split; [apply Ha|exact IH].
Qed.
End Runs.

#[local] Instance number_types : NodeTypes := {|
  RpcBlock := Z; PrimBlock := Z; RecoveredBlock := Z; ExecOutput := Z; HashedState := Z; TrieUpdates := unit;
  ExecutorInput := Z; into_primitive_block b := b; try_into_recovered b := Some b; block_state_root b := [b];
  from_bundle_state o := o; bincode_serialize i := Ok [i; i]; MINIMUM_UNWIND_SAFE_DISTANCE := 10064 |}.
Definition own_number (b : Z) : Z := b.
Definition root_of (n : Z) : list Z := [n].
#[local] Instance plain_zstd : Zstd := {| encode_all p _ := Ok p; decode_all c := Ok c |}.
#[local] Instance plain_zstd_laws : ZstdLaws.
Proof. split. by intros p level c [= <-]. Qed.

Definition truthful_answer (R : Type) (c : DriverCall R) : world -> R :=
  match c in DriverCall R return world -> R with
  | RpcBlockNumber => fun _ => Ok 7
  | RpcGetBlock n => fun _ => Ok (Some n)
  | BatchAddCall _ => fun _ => Ok tt
  | BatchSend => fun _ => Ok tt
  | BatchWait n => fun _ => Ok (Some n)
  | InitGenesis => fun _ => Ok tt
  | BestBlockNumber => fun g => Ok (tip g)
  | HeaderStateRoot n => fun _ => Ok (Some [n])
  | HistoryByBlockNumber _ => fun _ => Ok tt
  | Execute _ b => fun _ => Ok b
  | StateRootWithUpdates _ s => fun _ => Ok ([s], tt)
  | ProviderRw => fun _ => Ok tt
  | SaveBlock _ => fun _ => Ok tt
  | CommitTransaction => fun _ => Ok tt
  | RemoveBlocksAbove _ => fun _ => Ok tt
  | EvictChangesets => fun _ => tt
  | HighestStaticBlock s => fun g => Some (if decide (s = Headers) then tip g + 1 else tip g)
  | HighestStaticTx _ => fun _ => None
  | DatabaseProviderRo => fun _ => Ok tt
  | LastTxNum n => fun _ => Ok (Some n)
  | GetWriter _ _ => fun _ => Ok tt
  | PruneSegment _ _ _ => fun _ => Ok tt
  | CommitWriter _ => fun _ => Ok tt
  | InitializeIndex => fun _ => Ok tt
  | ExecuteExexWithBlock b _ => fun _ => Ok b
  | IsPruningNeeded _ => fun _ => false
  | PrunerRun _ => fun _ => Ok tt
  | ColdRead => fun _ => true
  | ColdWrite => fun _ => true
  | IsCancelled => fun _ => false
  | SleepOrCancelled => fun _ => false
  | CancelShutdown => fun _ => tt
  | IsKnownResponse n => fun _ => bool_decide (n = 4)
  | SendTask _ => fun _ => true
  end.

Abbreviation watched := (@observe number_types own_number).
Abbreviation truth := (@honest number_types own_number root_of).

Lemma truthful_answer_honest R c (g : world) : truth R g c (truthful_answer R c g).
Proof. destruct c; cbn; try done; intros; simplify_eq; auto; lia. Qed.

Definition answered (R : Type) (c : DriverCall R) (g : world) : R * world :=
  (truthful_answer R c g, watched R g c (truthful_answer R c g)).

Definition cold_start : WitnessHub := new_hub ∅ None 1000 100 4.
Definition world_at (n : Z) : world := {| tip := n; pending := n; rooted := None; built := []; last_fed := None |}.

Lemma world_at_starts n : 0 <= n < 2 ^ 62 -> starts (world_at n) cold_start.
Proof.
  intros Hn. split; [|by split]. intros m c [Hc|Hc]; [exact (False_ind _ (lookup_empty_Some m c Hc))|].
  set_solver.
Qed.

(** The numbers fed to the workers. *)
Definition sends (R : Type) (c : DriverCall R) : R -> option Z :=
  match c in DriverCall R return R -> option Z with
  | SendTask task => fun open => if (open : bool) then Some (task_block_number task) else None
  | _ => fun _ => None
  end.
Definition fed (t : list (event DriverCall)) : list Z := omap (fun e => match e with Ev c r => sends _ c r end) t.

(** The database is at block 2, the node at 7 with a lag of 1, witnesses are
    wanted from block 4 on, and the response for block 4 is known. *)
Definition sample_config : DriverConfig := {|
  cfg_hub := cold_start; cfg_pruner := true; cfg_witness_from_block := 4; orchestrator_checkpoint := 2;
  cfg_l2_safe_blocks := 1 |}.
Definition sample_run := run answered (run_driver 3 5 None sample_config) (world_at 2).

Lemma driver_feeds_in_order_witness :
  fed sample_run.1.2 = [5; 6] /\ tip sample_run.2 = 6 /\
  respects (@allowed number_types own_number own_number root_of 4 2) watched (world_at 2) sample_run.1.2.
Proof.
  split; [vm_compute; reflexivity|]. split; [vm_compute; reflexivity|].
  apply (driver_feeds_in_order (H := number_types) own_number own_number root_of
    ltac:(intros b r [= ->]; done) 3 5 None sample_config (world_at 2) (world_at_starts 2 ltac:(lia)) ltac:(done)
    ltac:(cbn; lia) sample_run.1.2 sample_run.1.1).
  - exact (run_sound answered _ _).
  - exact (run_honest watched truth truthful_answer _ (world_at 2) truthful_answer_honest).
Defined.

(** The database is at block 9, the checkpoint at 5. *)
Definition sample_unwind := run answered (startup_unwind None 5 cold_start) (world_at 9).

Lemma auto_unwind_drops_checkpoint_witness :
  tip sample_unwind.2 = 4 /\
  tip (after watched (world_at 9) sample_unwind.1.2) = 5 - 1.
Proof.
  split; [vm_compute; reflexivity|].
  assert (E : exists h, sample_unwind.1.1 = Ok h) by (vm_compute; eexists; reflexivity). destruct E as [h E].
  apply (auto_unwind_drops_checkpoint (H := number_types) own_number root_of (world_at 9) cold_start 5 _ h).
  - exact (world_at_starts 9 ltac:(lia)).
  - cbn. lia.
  - rewrite <- E. exact (run_sound answered _ _).
  - exact (run_honest watched truth truthful_answer _ (world_at 9) truthful_answer_honest).
Defined.
