(* ===== verification/Reader.v ===== *)
(** * Readers of byte strings that panic

    The validator's [Cbor] and [Der] walkers keep a buffer and a position.  A
    reader here is a function of the bytes from the position on; it answers its
    value and the bytes that are left, or [None] where the code panics.  The second
    half is the CBOR walker. *)
From S2P Require Import Prelude BytesCodec.
#[local] Open Scope Z_scope.

Definition reader (A : Type) : Type := list Z -> option (A * list Z).

#[export] Instance reader_ret : MRet reader := fun A a b => Some (a, b).
#[export] Instance reader_bind : MBind reader := fun A B f r b =>
  match r b with Some (a, b) => f a b | None => None end.

Definition panic {A} : reader A := fun _ => None.
(** [assert!(..)]. *)
Definition assert_that (P : Prop) `{Decision P} : reader unit := fun b => if decide P then Some (tt, b) else None.
(** [.expect(..)]. *)
Definition expect_some {A} (o : option A) : reader A := fun b => a ← o; Some (a, b).

Definition read_u8 : reader Z := fun b =>
  match b with [] => None | x :: b => Some (x, b) end.

Definition read_bytes (n : Z) : reader (list Z) := fun b =>
  if decide (n <= Z.of_nat (length b)) then Some (take (Z.to_nat n) b, drop (Z.to_nat n) b) else None.

Definition peek_u8 (b : list Z) : option Z := head b.

(** [for _ in 0..n] and [while !try_break()], with a state that the body
    updates.  Every round of both reads a byte, so the bytes that are left bound
    the rounds. *)
Fixpoint repeat_times {A} (fuel : nat) (n : Z) (f : A -> reader A) (a : A) : reader A := fun b =>
  if decide (n <= 0) then Some (a, b)
  else match fuel with
       | O => None
       | S fuel => match f a b with Some (a, b) => repeat_times fuel (n - 1) f a b | None => None end
       end.

(** [try_break] consumes the sentinel [0xff]. *)
Definition try_break (b : list Z) : option (list Z) :=
  match b with x :: b => if decide (x = 255) then Some b else None | [] => None end.

Fixpoint until_break {A} (fuel : nat) (f : A -> reader A) (a : A) : reader A := fun b =>
  match try_break b with
  | Some b => Some (a, b)
  | None =>
      match fuel with
      | O => None
      | S fuel => match f a b with Some (a, b) => until_break fuel f a b | None => None end
      end
  end.

(** A reader that consumes a byte at least. *)
Definition consumes {A} (r : reader A) : Prop :=
  forall b a b', r b = Some (a, b') -> (length b' < length b)%nat.
(** .. or none. *)
Definition keeps {A} (r : reader A) : Prop :=
  forall b a b', r b = Some (a, b') -> (length b' <= length b)%nat.

Lemma consumes_keeps {A} (r : reader A) : consumes r -> keeps r.
Proof. intros Hr b a b' E. apply Hr in E. lia. Qed.

Lemma consumes_bind {A B} (r : reader A) (f : A -> reader B) :
  consumes r -> (forall a, keeps (f a)) -> consumes (r ≫= f).
Proof.
  intros Hr Hf b x b' E. unfold mbind, reader_bind in E. destruct (r b) as [[a b1]|] eqn:E1; [|done].
  apply Hr in E1. apply Hf in E. lia.
Qed.

Lemma keeps_bind {A B} (r : reader A) (f : A -> reader B) :
  keeps r -> (forall a, keeps (f a)) -> keeps (r ≫= f).
Proof.
  intros Hr Hf b x b' E. unfold mbind, reader_bind in E. destruct (r b) as [[a b1]|] eqn:E1; [|done].
  apply Hr in E1. apply Hf in E. lia.
Qed.

Lemma keeps_consumes_bind {A B} (r : reader A) (f : A -> reader B) :
  keeps r -> (forall a, consumes (f a)) -> consumes (r ≫= f).
Proof.
  intros Hr Hf b x b' E. unfold mbind, reader_bind in E. destruct (r b) as [[a b1]|] eqn:E1; [|done].
  apply Hr in E1. apply Hf in E. lia.
Qed.

Lemma keeps_ret {A} (a : A) : keeps (mret a).
Proof. by intros b a' b' [= -> ->]. Qed.

Lemma keeps_assert P `{Decision P} : keeps (assert_that P).
Proof. intros b a b' E. unfold assert_that in E. case_decide; [|done]. by injection E as _ ->. Qed.

Lemma keeps_expect {A} (o : option A) : keeps (expect_some o).
Proof. intros b a b' E. destruct o; cbn in E; [|done]. by injection E as _ ->. Qed.

Lemma consumes_read_u8 : consumes read_u8.
Proof. intros [|x b] a b' E; [done|]. injection E as -> ->. cbn. lia. Qed.

Lemma keeps_read_bytes n : keeps (read_bytes n).
Proof. intros b a b' E. unfold read_bytes in E. case_decide; [|done]. injection E as <- <-. rewrite length_drop. lia. Qed.

(** ** Enough fuel *)

Lemma repeat_times_fuel {A} (f : A -> reader A) : (forall a, consumes (f a)) ->
  forall fuel fuel' n a b, (length b <= fuel)%nat -> (length b <= fuel')%nat ->
  repeat_times fuel n f a b = repeat_times fuel' n f a b.
Proof.
  intros Hf. induction fuel as [|fuel IH]; intros fuel' n a b H1 H2.
  - destruct b; [|cbn in H1; lia]. destruct fuel'; [done|]. cbn. case_decide; [done|].
    destruct (f a []) as [[a' b']|] eqn:E; [|done]. apply Hf in E. cbn in E. lia.
  - destruct fuel' as [|fuel'].
    + destruct b; [|cbn in H2; lia]. cbn. case_decide; [done|].
      destruct (f a []) as [[a' b']|] eqn:E; [|done]. apply Hf in E. cbn in E. lia.
    + cbn. case_decide; [done|]. destruct (f a b) as [[a' b']|] eqn:E; [|done].
      apply Hf in E. apply IH; lia.
Qed.

Lemma until_break_fuel {A} (f : A -> reader A) : (forall a, consumes (f a)) ->
  forall fuel fuel' a b, (length b <= fuel)%nat -> (length b <= fuel')%nat ->
  until_break fuel f a b = until_break fuel' f a b.
Proof.
  intros Hf. induction fuel as [|fuel IH]; intros fuel' a b H1 H2.
  - destruct b; [|cbn in H1; lia]. destruct fuel'; [done|]. cbn.
    destruct (f a []) as [[a' b']|] eqn:E; [|done]. apply Hf in E. cbn in E. lia.
  - destruct fuel' as [|fuel'].
    + destruct b; [|cbn in H2; lia]. cbn.
      destruct (f a []) as [[a' b']|] eqn:E; [|done]. apply Hf in E. cbn in E. lia.
    + cbn [until_break]. destruct (try_break b); [done|]. destruct (f a b) as [[a' b']|] eqn:E; [|done].
      apply Hf in E. apply IH; lia.
Qed.

Lemma keeps_repeat_times {A} (f : A -> reader A) : (forall a, keeps (f a)) ->
  forall fuel n a, keeps (repeat_times fuel n f a).
Proof.
  intros Hf. induction fuel as [|fuel IH]; intros n a b x b' E; cbn in E; case_decide; try done.
  - by injection E as _ ->.
  - by injection E as _ ->.
  - destruct (f a b) as [[a1 b1]|] eqn:E1; [|done]. apply Hf in E1. apply IH in E. lia.
Qed.

Lemma try_break_shrinks b b' : try_break b = Some b' -> b = 255 :: b'.
Proof. destruct b as [|x b]; cbn; [done|]. case_decide; [|done]. intros [= ->]. by subst. Qed.

Lemma keeps_until_break {A} (f : A -> reader A) : (forall a, keeps (f a)) ->
  forall fuel a, keeps (until_break fuel f a).
Proof.
  intros Hf. induction fuel as [|fuel IH]; intros a b x b' E; cbn in E.
  - destruct (try_break b) as [b1|] eqn:Eb; [|done]. apply try_break_shrinks in Eb as ->. injection E as _ ->. cbn. lia.
  - destruct (try_break b) as [b1|] eqn:Eb.
    + apply try_break_shrinks in Eb as ->. injection E as _ ->. cbn. lia.
    + destruct (f a b) as [[a1 b1]|] eqn:E1; [|done]. apply Hf in E1. apply IH in E. lia.
Qed.

(** ** What a reader accepts

    [parses m r P]: on at most [m] bytes, [r] answers [a] from [w ++ b] with [b]
    left exactly when [P w a], whatever follows.  A recursive reader is
    specified by induction on [m]. *)
Definition parses {A} (m : nat) (r : reader A) (P : list Z -> A -> Prop) : Prop :=
  forall b a b', (length b <= m)%nat -> r b = Some (a, b') <-> exists w, b = w ++ b' /\ P w a.

Lemma parses_iff {A} m (r : reader A) P Q : parses m r P -> (forall w a, P w a <-> Q w a) -> parses m r Q.
Proof. intros Hr HPQ b a b' Hm. rewrite (Hr b a b' Hm). by setoid_rewrite HPQ. Qed.

Lemma parses_ext {A} m (r r' : reader A) P : (forall b, r b = r' b) -> parses m r P -> parses m r' P.
Proof. intros Hr HP b a b' Hm. rewrite <- Hr. by apply HP. Qed.

Lemma parses_ret {A} m (x : A) : parses m (mret x) (fun w a => w = [] /\ a = x).
Proof.
  intros b a b' _. unfold mret, reader_ret. split; [intros [= <- <-]; by exists []|].
  by intros (w & -> & -> & ->).
Qed.

Definition follow {A B} (P : list Z -> A -> Prop) (Q : A -> list Z -> B -> Prop) (w : list Z) (x : B) : Prop :=
  exists w1 w2 a, w = w1 ++ w2 /\ P w1 a /\ Q a w2 x.

Lemma parses_bind {A B} m (r : reader A) (f : A -> reader B) P Q :
  parses m r P -> (forall a, parses m (f a) (Q a)) -> parses m (r ≫= f) (follow P Q).
Proof.
  intros Hr Hf b x b' Hm. unfold mbind, reader_bind. split.
  - destruct (r b) as [[a b1]|] eqn:E; [|done]. intros E2. apply Hr in E as (w1 & -> & H1); [|done].
    rewrite length_app in Hm. apply Hf in E2 as (w2 & -> & H2); [|lia].
    exists (w1 ++ w2). split; [by rewrite app_assoc|]. by exists w1, w2, a.
  - intros (w & -> & w1 & w2 & a & -> & H1 & H2). rewrite <- app_assoc in *.
    assert (E : r (w1 ++ w2 ++ b') = Some (a, w2 ++ b')) by (apply Hr; [done|]; by exists w1). rewrite E.
    rewrite length_app in Hm. apply Hf; [lia|]. by exists w2.
Qed.

(** After a byte at least, a specification on fewer bytes is enough. *)
Lemma parses_bind_smaller {A B} m (r : reader A) (f : A -> reader B) P Q :
  consumes r -> parses (S m) r P -> (forall a, parses m (f a) (Q a)) -> parses (S m) (r ≫= f) (follow P Q).
Proof.
  intros Hc Hr Hf b x b' Hm. unfold mbind, reader_bind. split.
  - destruct (r b) as [[a b1]|] eqn:E; [|done]. pose proof (Hc _ _ _ E) as Hl. intros E2.
    apply Hr in E as (w1 & -> & H1); [|done].
    apply Hf in E2 as (w2 & -> & H2); [|lia]. exists (w1 ++ w2). split; [by rewrite app_assoc|]. by exists w1, w2, a.
  - intros (w & -> & w1 & w2 & a & -> & H1 & H2). rewrite <- app_assoc in *.
    assert (E : r (w1 ++ w2 ++ b') = Some (a, w2 ++ b')) by (apply Hr; [done|]; by exists w1).
    pose proof (Hc _ _ _ E) as Hl. rewrite E. apply Hf; [lia|]. by exists w2.
Qed.

Lemma parses_assert m P `{Decision P} : parses m (assert_that P) (fun w _ => w = [] /\ P).
Proof.
  intros b [] b' _. unfold assert_that. split.
  - case_decide; [|done]. intros [= <-]. by exists [].
  - intros (w & -> & -> & HP). by rewrite decide_True.
Qed.

Lemma parses_expect {A} m (o : option A) : parses m (expect_some o) (fun w a => w = [] /\ o = Some a).
Proof.
  intros b a b' _. split.
  - destruct o; cbn; [|done]. intros [= -> ->]. by exists [].
  - by intros (w & -> & -> & ->).
Qed.

Lemma parses_panic {A} m : parses m (@panic A) (fun _ _ => False).
Proof. intros b a b' _. split; [done|]. by intros (w & _ & []). Qed.

Lemma parses_read_u8 m : parses m read_u8 (fun w x => w = [x]).
Proof.
  intros b x b' _. split.
  - destruct b; cbn; [done|]. intros [= -> ->]. by exists [x].
  - by intros (w & -> & ->).
Qed.

Lemma parses_read_bytes m n : parses m (read_bytes n) (fun w s => w = s /\ length s = Z.to_nat n).
Proof.
  intros b s b' _. unfold read_bytes. split.
  - case_decide; [|done]. intros [= <- <-]. exists (take (Z.to_nat n) b). rewrite take_drop, length_take. split_and!; [done|done|lia].
  - intros (w & -> & -> & Hl). rewrite length_app, decide_True by lia.
    rewrite <- Hl. by rewrite take_app_length, drop_app_length.
Qed.

(** [n] rounds of a body with a state. *)
Inductive rounds {A} (P : A -> list Z -> A -> Prop) : nat -> A -> list Z -> A -> Prop :=
  | rounds_nil a : rounds P 0 a [] a
  | rounds_cons k a w1 a1 w2 a2 : P a w1 a1 -> rounds P k a1 w2 a2 -> rounds P (S k) a (w1 ++ w2) a2.

Lemma rounds_mono {A} (P Q : A -> list Z -> A -> Prop) k a w a' :
  (forall a w a', P a w a' -> Q a w a') -> rounds P k a w a' -> rounds Q k a w a'.
Proof. intros HPQ. induction 1; econstructor; eauto. Qed.

Lemma parses_repeat_times {A} m (f : A -> reader A) P a n :
  (forall a, consumes (f a)) -> (forall a, parses m (f a) (P a)) ->
  parses m (fun b => repeat_times (length b) n f a b) (rounds P (Z.to_nat n) a).
Proof.
  intros Hc Hf.
  assert (Hfuel : forall fuel n a b, (length b <= fuel)%nat -> repeat_times fuel n f a b = repeat_times (length b) n f a b).
  { intros. apply repeat_times_fuel; [done|lia..]. }
  intros b a' b' Hm. split.
  - revert n a Hm. induction b as [b IH] using (induction_ltof1 _ (@length Z)). intros n a Hm E.
    destruct b as [|x b0] eqn:Eb.
    + cbn in E. case_decide; [|done]. injection E as <- <-. exists []. split; [done|].
      replace (Z.to_nat n) with 0%nat by lia. constructor.
    + rewrite <- Eb in *. assert (El : length b = S (length b0)) by (by subst). rewrite El in E. cbn in E.
      case_decide; [injection E as <- <-; exists []; split; [done|]; replace (Z.to_nat n) with 0%nat by lia; constructor|].
      destruct (f a b) as [[a1 b1]|] eqn:E1; [|done]. pose proof (Hc _ _ _ _ E1) as Hl.
      apply Hf in E1 as (w1 & Ew1 & H1); [|done]. rewrite Hfuel in E by lia.
      destruct (IH b1 Hl _ _ ltac:(lia) E) as (w2 & Ew2 & H2). exists (w1 ++ w2).
      split; [by rewrite Ew1, Ew2, app_assoc|]. replace (Z.to_nat n) with (S (Z.to_nat (n - 1))) by lia. by econstructor.
  - intros (w & -> & Hr). remember (Z.to_nat n) as k eqn:Ek. revert n Ek Hm.
    induction Hr as [a|k a w1 a1 w2 a2 H1 Hr IH]; intros n Ek Hm.
    + cbn. destruct b'; cbn; by rewrite decide_True by lia.
    + rewrite <- app_assoc in *.
      assert (E1 : f a (w1 ++ w2 ++ b') = Some (a1, w2 ++ b')) by (apply Hf; [done|by exists w1]).
      pose proof (Hc _ _ _ _ E1) as Hl. destruct (length (w1 ++ w2 ++ b')) as [|fuel] eqn:El; [lia|].
      cbn. rewrite decide_False by lia. rewrite E1, Hfuel by lia. apply IH; lia.
Qed.

Lemma parses_until_break {A} m (f : A -> reader A) P a :
  (forall a, consumes (f a)) -> (forall a, parses m (f a) (P a)) ->
  (forall a w a', P a w a' -> head w <> Some 255) ->
  parses m (fun b => until_break (length b) f a b) (fun w a' => exists k u, w = u ++ [255] /\ rounds P k a u a').
Proof.
  intros Hc Hf Hne.
  assert (Hfuel : forall fuel a b, (length b <= fuel)%nat -> until_break fuel f a b = until_break (length b) f a b).
  { intros. apply until_break_fuel; [done|lia..]. }
  intros b a' b' Hm. split.
  - revert a Hm. induction b as [b IH] using (induction_ltof1 _ (@length Z)). intros a Hm E.
    destruct b as [|x b0] eqn:Eb; [done|]. rewrite <- Eb in *.
    assert (El : length b = S (length b0)) by (by subst). rewrite El in E. cbn [until_break] in E.
    destruct (try_break b) as [b1|] eqn:Et.
    + apply try_break_shrinks in Et as ->. injection E as <- <-. exists [255]. split; [done|]. exists 0%nat, []. split; [done|constructor].
    + destruct (f a b) as [[a1 b1]|] eqn:E1; [|done]. pose proof (Hc _ _ _ _ E1) as Hl.
      apply Hf in E1 as (w1 & Ew1 & H1); [|done]. rewrite Hfuel in E by lia.
      destruct (IH b1 Hl _ ltac:(lia) E) as (w2 & Ew2 & k & u & -> & H2).
      exists (w1 ++ u ++ [255]). split; [rewrite Ew1, Ew2; by rewrite !app_assoc|].
      exists (S k), (w1 ++ u). split; [by rewrite app_assoc|by econstructor].
  - intros (w & -> & k & u & -> & Hr). revert Hm. induction Hr as [a|k a w1 a1 w2 a2 H1 Hr IH]; intros Hm.
    + cbn. done.
    + rewrite <- !app_assoc in *.
      assert (E1 : f a (w1 ++ w2 ++ [255] ++ b') = Some (a1, w2 ++ [255] ++ b')) by (apply Hf; [done|by exists w1]).
      pose proof (Hc _ _ _ _ E1) as Hl. destruct (length (w1 ++ w2 ++ [255] ++ b')) as [|fuel] eqn:El; [lia|].
      cbn [until_break].
      assert (Et : try_break (w1 ++ w2 ++ [255] ++ b') = None).
      { destruct w1 as [|x w1]; [exfalso; rewrite app_nil_l in E1; apply Hc in E1; lia|].
        cbn. rewrite decide_False; [done|]. intros ->. by apply (Hne _ _ _ H1). }
      rewrite Et, E1, Hfuel by lia. apply IH. lia.
Qed.

(** ** The CBOR walker of the attestation validator
      ([bin/aws-nitro-validator/src/lib.rs])

    The reader of a byte string's heads, strings, maps and whole items, in
    definite and indefinite lengths, and the writer of the signed structure.
    [usize] has 64 bits. *)

(** [None]: indefinite length. *)
Definition Len : Type := option Z.

Definition read_be (n : Z) : reader Z := b ← read_bytes n; mret (be_decode b).

Definition read_head : reader (Z * Len) :=
  ib ← read_u8;
  let major := Z.shiftr ib 5 in
  let info := Z.land ib 31 in
  if decide (info <= 23) then mret (major, Some info)
  else if decide (info = 24) then arg ← read_u8; mret (major, Some arg)
  else if decide (info = 25) then arg ← read_be 2; mret (major, Some arg)
  else if decide (info = 26) then arg ← read_be 4; mret (major, Some arg)
  else if decide (info = 27) then arg ← read_be 8; mret (major, Some arg)
  else if decide (info = 31) then mret (major, None)
  else panic.

(** A chunk of an indefinite string, added to [out]. *)
Definition read_chunk (major_expected : Z) (out : list Z) : reader (list Z) :=
  head ← read_head;
  let '(m, l) := head in
  _ ← assert_that (m = major_expected);
  n ← expect_some l;
  chunk ← read_bytes n;
  mret (out ++ chunk).

Definition read_str_contents (major_expected : Z) (len : Len) : reader (list Z) :=
  match len with
  | Some n => read_bytes n
  | None => fun b => until_break (length b) (read_chunk major_expected) [] b
  end.

(** [iter_map]; [A] is what the closure updates. *)
Definition iter_map {A} (len : Len) (f : A -> reader A) (a : A) : reader A :=
  match len with
  | Some n => fun b => repeat_times (length b) n f a b
  | None => fun b => until_break (length b) f a b
  end.

Fixpoint skip_item_fuel (fuel : nat) : reader unit :=
  match fuel with
  | O => panic
  | S fuel =>
      head ← read_head;
      let '(major, len) := head in
      if decide (major = 0 \/ major = 1) then mret tt
      else if decide (major = 2 \/ major = 3) then _ ← read_str_contents major len; mret tt
      else if decide (major = 4) then iter_map len (fun _ => skip_item_fuel fuel) tt
      else if decide (major = 5) then
        iter_map len (fun _ => _ ← skip_item_fuel fuel; skip_item_fuel fuel) tt
      else if decide (major = 7) then _ ← expect_some len; mret tt
      else panic
  end.

(** An item inside another is shorter. *)
Definition skip_item : reader unit := fun b => skip_item_fuel (length b) b.

Definition expect_map : reader Len :=
  head ← read_head; let '(m, l) := head in _ ← assert_that (m = 5); mret l.

Definition expect_tstr : reader (list Z) :=
  head ← read_head; let '(m, l) := head in _ ← assert_that (m = 3); read_str_contents 3 l.

Definition expect_uint : reader Z :=
  head ← read_head; let '(m, l) := head in _ ← assert_that (m = 0); expect_some l.

Definition expect_bstr_or_null : reader (option (list Z)) := fun b =>
  if decide (peek_u8 b = Some 246) then Some (None, drop 1 b)
  else
    (head ← read_head; let '(m, l) := head in
     _ ← assert_that (m = 2); s ← read_str_contents 2 l; mret (Some s)) b.

(** ** Writing *)

Definition push_cbor_head (major arg : Z) : list Z :=
  let ib_hi := u8 (Z.shiftl major 5) in
  if decide (arg < 24) then [Z.lor ib_hi arg]
  else if decide (arg <= 255) then [Z.lor ib_hi 24; u8 arg]
  else if decide (arg <= 65535) then Z.lor ib_hi 25 :: be_encode 2 arg
  else if decide (arg <= 4294967295) then Z.lor ib_hi 26 :: be_encode 4 arg
  else Z.lor ib_hi 27 :: be_encode 8 arg.

Definition Signature1 : list Z := [106; 83; 105; 103; 110; 97; 116; 117; 114; 101; 49].

Definition build_sig_structure (protected payload : list Z) : list Z :=
  [132] ++ Signature1 ++
  push_cbor_head 2 (Z.of_nat (length protected)) ++ protected ++ [64] ++
  push_cbor_head 2 (Z.of_nat (length payload)) ++ payload.
