(* ===== verification/CborSpec.v ===== *)
(** * CBOR items

    A grammar of heads, strings and items, as RFC 8949 has them for the majors
    that an attestation uses; the walker of [Cbor] accepts exactly its words. *)
From S2P Require Import Prelude BytesCodec Reader.
#[local] Open Scope Z_scope.

(** How many bytes carry the argument. *)
Definition arg_width (info : Z) : option nat :=
  if decide (info <= 23) then Some 0%nat
  else if decide (info = 24) then Some 1%nat
  else if decide (info = 25) then Some 2%nat
  else if decide (info = 26) then Some 4%nat
  else if decide (info = 27) then Some 8%nat
  else None.

Definition head_word (w : list Z) (hd : Z * Len) : Prop :=
  exists ib arg, w = ib :: arg /\ hd.1 = Z.shiftr ib 5 /\
    let info := Z.land ib 31 in
    match hd.2 with
    | Some n => arg_width info = Some (length arg) /\ n = (if decide (info <= 23) then info else be_decode arg)
    | None => info = 31 /\ arg = []
    end.

(** The contents of a string: definite, or chunks and a break. *)
Definition chunk_word (major : Z) (out w out' : list Z) : Prop :=
  exists h n s, w = h ++ s /\ head_word h (major, Some n) /\ length s = Z.to_nat n /\ out' = out ++ s.

Definition str_word (major : Z) (len : Len) (w s : list Z) : Prop :=
  match len with
  | Some n => w = s /\ length s = Z.to_nat n
  | None => exists k u, w = u ++ [255] /\ rounds (chunk_word major) k [] u s
  end.

Inductive item : list Z -> Prop :=
  | item_int h major len : major = 0 \/ major = 1 -> head_word h (major, len) -> item h
  | item_str h major len w s : major = 2 \/ major = 3 -> head_word h (major, len) -> str_word major len w s -> item (h ++ w)
  | item_array h n w : head_word h (4, Some n) -> items (Z.to_nat n) w -> item (h ++ w)
  | item_array_open h k w : head_word h (4, None) -> items k w -> item (h ++ w ++ [255])
  | item_map h n w : head_word h (5, Some n) -> items (2 * Z.to_nat n) w -> item (h ++ w)
  | item_map_open h k w : head_word h (5, None) -> items (2 * k) w -> item (h ++ w ++ [255])
  | item_simple h n : head_word h (7, Some n) -> item h
with items : nat -> list Z -> Prop :=
  | items_nil : items 0 []
  | items_cons k w ws : item w -> items k ws -> items (S k) (w ++ ws).

(** ** Heads *)

Lemma arg_width_small info : info <= 23 -> arg_width info = Some 0%nat.
Proof. intros. unfold arg_width. by rewrite decide_True. Qed.

Lemma keeps_read_be n : keeps (read_be n).
Proof. apply keeps_bind; [apply keeps_read_bytes|intros b; apply keeps_ret]. Qed.

#[local] Hint Resolve keeps_ret keeps_read_be keeps_read_bytes keeps_assert keeps_expect consumes_read_u8 : reader.
#[local] Hint Resolve consumes_keeps | 5 : reader.

Lemma keeps_panic {A} : keeps (@panic A).
Proof. by intros b a b'. Qed.
#[local] Hint Resolve keeps_panic : reader.

Lemma consumes_read_head : consumes read_head.
Proof.
  apply consumes_bind; [apply consumes_read_u8|]. intros ib. cbn zeta.
  repeat (case_decide; [first [apply keeps_ret | apply keeps_bind; eauto with reader]|]). apply keeps_panic.
Qed.
#[local] Hint Resolve consumes_read_head : reader.

Lemma parses_read_be m n : parses m (read_be n) (fun w x => length w = Z.to_nat n /\ x = be_decode w).
Proof.
  eapply parses_iff; [apply parses_bind; [apply parses_read_bytes|intros s; apply parses_ret]|].
  intros w x. split.
  - intros (w1 & w2 & s & -> & [-> Hl] & -> & ->). by rewrite app_nil_r.
  - intros [Hl ->]. exists w, [], w. by rewrite app_nil_r.
Qed.

(** The readers of the argument. *)
Definition arg_reader (m : nat) (k : nat) (r : reader Z) : Prop :=
  parses m r (fun w x => length w = k /\ x = be_decode w).

Lemma arg_reader_be m k : arg_reader m k (read_be (Z.of_nat k)).
Proof. eapply parses_iff; [apply parses_read_be|]. intros w x. by rewrite Nat2Z.id. Qed.

Lemma arg_reader_u8 m : arg_reader m 1 read_u8.
Proof.
  eapply parses_iff; [apply parses_read_u8|]. intros w x. split.
  - intros ->. split; [done|]. unfold be_decode. cbn. lia.
  - intros [Hl ->]. destruct w as [|y [|? ?]]; try done.
Qed.

Lemma parses_arg m ib k r :
  arg_width (Z.land ib 31) = Some k -> 23 < Z.land ib 31 -> arg_reader m k r ->
  parses m (arg ← r; mret (Z.shiftr ib 5, Some arg)) (fun w hd => head_word (ib :: w) hd).
Proof.
  intros Hk Hi Hr. eapply parses_iff; [apply parses_bind; [exact Hr|intros x; apply parses_ret]|]. intros w hd. split.
  - intros (w1 & w2 & x & -> & [Hl ->] & -> & ->). rewrite app_nil_r. exists ib, w1. cbn.
    rewrite decide_False by lia. by rewrite Hl.
  - intros (ib' & arg & [= <- <-] & H1 & H2). destruct hd as [mj [n|]]; cbn in *; [|destruct H2 as [H31 _]; by rewrite H31 in Hk].
    rewrite decide_False in H2 by lia. destruct H2 as [Hw ->]. subst mj. exists w, [], (be_decode w).
    rewrite app_nil_r. split_and!; [done|congruence|done|done|done].
Qed.

Lemma parses_read_head m : parses m read_head head_word.
Proof.
  set (body ib (w : list Z) (hd : Z * Len) := head_word (ib :: w) hd).
  eapply parses_iff with (P := follow (fun w x => w = [x]) body); cycle 1.
  { intros w hd. split.
    - by intros (w1 & w2 & x & -> & -> & H).
    - intros H. pose proof H as (ib & arg & -> & _). exists [ib], arg, ib. split_and!; [done|done|exact H]. }
  apply parses_bind; [apply parses_read_u8|]. intros ib. subst body. cbn beta zeta.
  case_decide as H23.
  { eapply parses_iff; [apply parses_ret|]. intros w hd. split.
    - intros [-> ->]. exists ib, []. cbn. rewrite decide_True by done. by rewrite arg_width_small.
    - intros (ib' & arg & [= <- <-] & H1 & H2). destruct hd as [mj [n|]]; cbn in *; [|lia].
      rewrite arg_width_small in H2 by done. rewrite decide_True in H2 by done. destruct H2 as [Hw ->]. subst mj.
      destruct w; [done|by cbn in Hw]. }
  case_decide as H24; [apply (parses_arg m ib 1); [by rewrite H24|lia|apply arg_reader_u8]|].
  case_decide as H25; [apply (parses_arg m ib 2); [by rewrite H25|lia|apply (arg_reader_be m 2)]|].
  case_decide as H26; [apply (parses_arg m ib 4); [by rewrite H26|lia|apply (arg_reader_be m 4)]|].
  case_decide as H27; [apply (parses_arg m ib 8); [by rewrite H27|lia|apply (arg_reader_be m 8)]|].
  assert (Hw : arg_width (Z.land ib 31) = None).
  { unfold arg_width. by rewrite !decide_False by lia. }
  case_decide as H31.
  - eapply parses_iff; [apply parses_ret|]. intros w hd. split.
    + intros [-> ->]. exists ib, []. done.
    + intros (ib' & arg & [= <- <-] & H1 & H2). destruct hd as [mj [n|]]; cbn in *; [|destruct H2 as [_ ->]; by subst].
      rewrite Hw in H2. by destruct H2.
  - eapply parses_iff; [apply parses_panic|]. intros w hd. split; [done|].
    intros (ib' & arg & [= <- <-] & H1 & H2). destruct hd as [mj [n|]]; cbn in *; [rewrite Hw in H2; by destruct H2|lia].
Qed.

(** ** Strings *)

Lemma head_word_nonempty h hd : head_word h hd -> (0 < length h)%nat.
Proof. intros (ib & arg & -> & _). cbn. lia. Qed.

Lemma consumes_read_chunk major out : consumes (read_chunk major out).
Proof.
  apply consumes_bind; [apply consumes_read_head|]. intros [m l].
  apply keeps_bind; [apply keeps_assert|]. intros _. apply keeps_bind; [apply keeps_expect|]. intros n.
  apply keeps_bind; [apply keeps_read_bytes|]. intros s. apply keeps_ret.
Qed.

Lemma chunk_word_head major out w out' : 0 <= major < 7 -> chunk_word major out w out' -> head w <> Some 255.
Proof.
  intros Hm (h & n & s & -> & (ib & arg & -> & Hmj & _) & _) [= ->]. change (major = 7) in Hmj. lia.
Qed.

Lemma parses_read_chunk m major out : parses m (read_chunk major out) (chunk_word major out).
Proof.
  eapply parses_iff.
  { apply parses_bind; [apply parses_read_head|]. intros hd.
    instantiate (1 := fun hd w out' => exists n s, hd = (major, Some n) /\ w = s /\ length s = Z.to_nat n /\ out' = out ++ s).
    destruct hd as [mj l].
    eapply parses_iff; [apply parses_bind; [apply parses_assert|intros ?; apply parses_bind; [apply parses_expect|intros n;
      apply parses_bind; [apply parses_read_bytes|intros s; apply parses_ret]]]|].
    intros w o. split.
    - intros (w1 & w2 & [] & -> & [-> ->] & w3 & w4 & n & -> & [-> ->] & w5 & w6 & s & -> & [-> Hl] & -> & ->).
      exists n, s. by rewrite app_nil_r.
    - intros (n & s & [= -> ->] & -> & Hl & ->). exists [], s, tt. split_and!; [done..|].
      exists [], s, n. split_and!; [done..|]. exists s, [], s. by rewrite app_nil_r. }
  intros w o. split.
  - intros (h & s' & hd & -> & Hh & n & s & -> & -> & Hl & ->). exists h, n, s. done.
  - intros (h & n & s & -> & Hh & Hl & ->). exists h, s, (major, Some n). split_and!; [done|done|]. by exists n, s.
Qed.

Lemma keeps_read_str_contents major len : keeps (read_str_contents major len).
Proof.
  destruct len as [n|]; [apply keeps_read_bytes|]. intros b s b' E. cbn in E. revert E. apply keeps_until_break.
  intros out. apply consumes_keeps, consumes_read_chunk.
Qed.

Lemma parses_read_str_contents m major len : 0 <= major < 7 -> parses m (read_str_contents major len) (str_word major len).
Proof.
  intros Hm. destruct len as [n|]; [apply parses_read_bytes|]. cbn.
  apply (parses_until_break m (read_chunk major) (fun out w out' => chunk_word major out w out')).
  - intros out. apply consumes_read_chunk.
  - intros out. apply parses_read_chunk.
  - intros out w out'. by apply chunk_word_head.
Qed.

(** ** Items *)

Scheme item_mut := Induction for item Sort Prop with items_mut := Induction for items Sort Prop.

Lemma item_head w : item w -> (0 < length w)%nat /\ head w <> Some 255.
Proof.
  assert (Hh : forall h major len rest, head_word h (major, len) -> (len = None -> 0 <= major < 7) -> 
    0 <= major <= 7 -> (0 < length (h ++ rest))%nat /\ head (h ++ rest) <> Some 255).
  { intros h major len rest (ib & arg & -> & Hmj & Hl) Hnone Hr. split; [cbn; lia|]. intros [= ->]. change (major = 7) in Hmj. subst major.
    destruct len as [n|]; [|specialize (Hnone eq_refl); lia]. cbn in Hl. destruct Hl as [Hl _]. done. }
  destruct 1 as [h major len Hm Hw|h major len w s Hm Hw _|h n w Hw _|h k w Hw _|h n w Hw _|h k w Hw _|h n Hw];
    [rewrite <- (app_nil_r h)|..|rewrite <- (app_nil_r h)]; (eapply Hh; [exact Hw|..]); try done; lia.
Qed.

Lemma items_double k w : items (2 * k) w <-> rounds (fun _ w _ => exists w1 w2, w = w1 ++ w2 /\ item w1 /\ item w2) k tt w tt.
Proof.
  split.
  - revert w. induction k as [|k IH]; intros w Hi; [inversion Hi; constructor|].
    replace (2 * S k)%nat with (S (S (2 * k))) in Hi by lia. inversion_clear Hi as [|? w1 ws H1 Hi2].
    inversion_clear Hi2 as [|? w2 ws2 H2 Hi]. rewrite app_assoc. econstructor; [by exists w1, w2|by apply IH].
  - generalize tt at 2 as b. generalize tt as a. intros a b.
    induction 1 as [|k a w1 a1 w2 a2 (u & v & -> & Hu & Hv) _ IH]; [constructor|].
    replace (2 * S k)%nat with (S (S (2 * k))) by lia. rewrite <- app_assoc. by repeat constructor.
Qed.

Lemma items_rounds k w : items k w <-> rounds (fun _ w _ => item w) k tt w tt.
Proof.
  split.
  - induction 1; [constructor|by econstructor].
  - generalize tt at 2 as b. generalize tt as a. intros a b. induction 1; by constructor.
Qed.

Lemma consumes_skip_item_fuel fuel : consumes (skip_item_fuel fuel).
Proof.
  induction fuel as [|fuel IH]; [by intros b a b'|].
  apply consumes_bind; [apply consumes_read_head|]. intros [major len].
  case_decide; [apply keeps_ret|].
  case_decide; [apply keeps_bind; [apply keeps_read_str_contents|intros s; apply keeps_ret]|].
  assert (Hloop : forall (f : unit -> reader unit), (forall a, keeps (f a)) -> keeps (iter_map len f tt)).
  { intros f Hf. destruct len as [n|]; intros b a b'; [by apply keeps_repeat_times|by apply keeps_until_break]. }
  case_decide; [apply Hloop; intros _; by apply consumes_keeps|].
  case_decide; [apply Hloop; intros _; by apply keeps_bind; [apply consumes_keeps|intros _; apply consumes_keeps]|].
  case_decide; [apply keeps_bind; [apply keeps_expect|intros s; apply keeps_ret]|apply keeps_panic].
Qed.

Lemma parses_iter_map {A} m len (f : A -> reader A) P a :
  (forall a, consumes (f a)) -> (forall a, parses m (f a) (P a)) -> (forall a w a', P a w a' -> head w <> Some 255) ->
  parses m (iter_map len f a) (fun w a' =>
    match len with
    | Some n => rounds P (Z.to_nat n) a w a'
    | None => exists k u, w = u ++ [255] /\ rounds P k a u a'
    end).
Proof.
  intros Hc Hp Hh. destruct len as [n|]; [by apply parses_repeat_times|by apply parses_until_break].
Qed.

Lemma parses_skip_item_fuel m : parses m (skip_item_fuel m) (fun w _ => item w).
Proof.
  induction m as [|m IH].
  { intros b a b' Hb. split; [done|]. intros (w & -> & Hw). apply item_head in Hw as [Hw _].
    rewrite length_app in Hb. lia. }
  set (body (hd : Z * Len) (w : list Z) (_ : unit) := forall h, head_word h hd -> item (h ++ w)).
  eapply parses_iff with (P := follow head_word (fun hd w a =>
    ((hd.1 = 0 \/ hd.1 = 1) /\ w = []) \/
    ((hd.1 = 2 \/ hd.1 = 3) /\ exists s, str_word hd.1 hd.2 w s) \/
    (hd.1 = 4 /\ match hd.2 with Some n => items (Z.to_nat n) w | None => exists k u, w = u ++ [255] /\ items k u end) \/
    (hd.1 = 5 /\ match hd.2 with Some n => items (2 * Z.to_nat n) w | None => exists k u, w = u ++ [255] /\ items (2 * k) u end) \/
    (hd.1 = 7 /\ w = [] /\ is_Some hd.2))); cycle 1.
  { intros w []. split.
    - intros (h & w' & [major len] & -> & Hh & Hb). cbn in Hb.
      destruct Hb as [[Hm ->]|[[Hm [s Hs]]|[[-> Hb]|[[-> Hb]|(-> & -> & [n ->])]]]].
      + rewrite app_nil_r. by eapply item_int.
      + by eapply item_str.
      + destruct len as [n|]; [by eapply item_array|]. destruct Hb as (k & u & -> & Hb). exact (item_array_open h k u Hh Hb).
      + destruct len as [n|]; [by eapply item_map|]. destruct Hb as (k & u & -> & Hb). exact (item_map_open h k u Hh Hb).
      + rewrite app_nil_r. by eapply item_simple.
    - destruct 1 as [h major len Hm Hw|h major len w s Hm Hw Hs|h n w Hw Hi|h k w Hw Hi|h n w Hw Hi|h k w Hw Hi|h n Hw].
      + exists h, [], (major, len). rewrite app_nil_r. split_and!; [done|done|]. by left.
      + exists h, w, (major, len). split_and!; [done|done|]. right; left. split; [done|by exists s].
      + exists h, w, (4, Some n). split_and!; [done|done|]. do 2 right; left. done.
      + exists h, (w ++ [255]), (4, None). split_and!; [done|done|]. do 2 right; left. split; [done|by exists k, w].
      + exists h, w, (5, Some n). split_and!; [done|done|]. do 3 right; left. done.
      + exists h, (w ++ [255]), (5, None). split_and!; [done|done|]. do 3 right; left. split; [done|by exists k, w].
      + exists h, [], (7, Some n). rewrite app_nil_r. split_and!; [done|done|]. do 4 right. by split_and!. }
  apply parses_bind_smaller; [apply consumes_read_head|apply parses_read_head|]. intros [major len]. cbn [fst snd].
  case_decide as H01.
  { eapply parses_iff; [apply parses_ret|]. intros w []. split; [intros [-> _]; by left|].
    intros [[_ ->]|H]; [done|]. lia. }
  case_decide as H23.
  { eapply parses_iff; [apply parses_bind; [apply parses_read_str_contents; lia|intros s; apply parses_ret]|].
    intros w []. split.
    - intros (w1 & w2 & s & -> & Hs & -> & _). rewrite app_nil_r. right; left. split; [done|by exists s].
    - intros [H|[[_ [s Hs]]|[H|[H|[H _]]]]]; [lia| |lia..]. exists w, [], s. by rewrite app_nil_r. }
  case_decide as H4.
  { eapply parses_iff; [apply (parses_iter_map m len _ (fun _ w _ => item w))|].
    - intros _. apply consumes_skip_item_fuel.
    - intros _. exact IH.
    - intros _ w _ Hw. by apply item_head.
    - intros w []. destruct len as [n|].
      + rewrite <- items_rounds. split; [intros; do 2 right; left; by split|]. intros [?|[?|[[_ ?]|[?|?]]]]; [lia|lia|done|lia|lia].
      + setoid_rewrite <- items_rounds. split; [intros; do 2 right; left; by split|]. intros [?|[?|[[_ ?]|[?|?]]]]; [lia|lia|done|lia|lia]. }
  case_decide as H5.
  { eapply parses_iff; [apply (parses_iter_map m len _ (fun _ w _ => exists w1 w2, w = w1 ++ w2 /\ item w1 /\ item w2))|].
    - intros _. apply consumes_bind; [apply consumes_skip_item_fuel|]. intros _. apply consumes_keeps, consumes_skip_item_fuel.
    - intros _. eapply parses_iff; [apply parses_bind; [exact IH|intros ?; exact IH]|]. intros w []. split.
      + intros (w1 & w2 & _ & -> & H1 & H2). by exists w1, w2.
      + intros (w1 & w2 & -> & H1 & H2). by exists w1, w2, tt.
    - intros _ w _ (w1 & w2 & -> & Hw & _). apply item_head in Hw as [Hl Hw]. destruct w1; [cbn in Hl; lia|done].
    - intros w []. destruct len as [n|].
      + rewrite <- items_double. split; [intros; do 3 right; left; by split|]. intros [?|[?|[?|[[_ ?]|?]]]]; [lia|lia|lia|done|lia].
      + setoid_rewrite <- items_double. split; [intros; do 3 right; left; by split|]. intros [?|[?|[?|[[_ ?]|?]]]]; [lia|lia|lia|done|lia]. }
  case_decide as H7.
  - eapply parses_iff; [apply parses_bind; [apply parses_expect|intros n; apply parses_ret]|]. intros w []. split.
    + intros (w1 & w2 & n & -> & [-> ->] & -> & _). do 4 right. by split_and!.
    + intros [?|[?|[?|[?|(_ & -> & [n ->])]]]]; [lia|lia|lia|lia|]. by exists [], [], n.
  - eapply parses_iff; [apply parses_panic|]. intros w []. split; [done|]. intros [?|[?|[?|[?|?]]]]; lia.
Qed.

Lemma parses_skip_item m : parses m skip_item (fun w _ => item w).
Proof. intros b a b' _. by apply parses_skip_item_fuel. Qed.

(** ** The remaining readers *)

Lemma parses_expect_map m : parses m expect_map (fun w len => head_word w (5, len)).
Proof.
  eapply parses_iff.
  { apply parses_bind; [apply parses_read_head|]. intros hd.
    instantiate (1 := fun hd w len => hd = (5, len) /\ w = []). destruct hd as [mj l].
    eapply parses_iff; [apply parses_bind; [apply parses_assert|intros ?; apply parses_ret]|]. intros w len. split.
    - by intros (w1 & w2 & [] & -> & [-> ->] & -> & ->).
    - intros [[= -> ->] ->]. by exists [], [], tt. }
  intros w len. split; [intros (h & w' & hd & -> & Hh & -> & ->); by rewrite app_nil_r|].
  intros Hh. exists w, [], (5, len). by rewrite app_nil_r.
Qed.

Lemma parses_expect_uint m : parses m expect_uint (fun w n => head_word w (0, Some n)).
Proof.
  eapply parses_iff.
  { apply parses_bind; [apply parses_read_head|]. intros hd.
    instantiate (1 := fun hd w n => hd = (0, Some n) /\ w = []). destruct hd as [mj l].
    eapply parses_iff; [apply parses_bind; [apply parses_assert|intros ?; apply parses_expect]|]. intros w n. split.
    - by intros (w1 & w2 & [] & -> & [-> ->] & -> & ->).
    - intros [[= -> ->] ->]. by exists [], [], tt. }
  intros w n. split; [intros (h & w' & hd & -> & Hh & -> & ->); by rewrite app_nil_r|].
  intros Hh. exists w, [], (0, Some n). by rewrite app_nil_r.
Qed.

(** A whole string of a major type. *)
Definition string_word (major : Z) (w s : list Z) : Prop :=
  exists h len w', w = h ++ w' /\ head_word h (major, len) /\ str_word major len w' s.

Lemma parses_string m major :
  0 <= major < 7 ->
  parses m (head ← read_head; let '(mj, l) := head in _ ← assert_that (mj = major); read_str_contents major l)
    (string_word major).
Proof.
  intros Hm. eapply parses_iff.
  { apply parses_bind; [apply parses_read_head|]. intros hd.
    instantiate (1 := fun hd w s => hd.1 = major /\ str_word major hd.2 w s). destruct hd as [mj l].
    eapply parses_iff; [apply parses_bind; [apply parses_assert|intros ?; by apply parses_read_str_contents]|]. intros w s. split.
    - by intros (w1 & w2 & [] & -> & [-> ->] & Hs).
    - intros [Hmj Hs]. by exists [], w, tt. }
  intros w s. split.
  - intros (h & w' & [mj len] & -> & Hh & Hmj & Hs). cbn in *. subst mj. by exists h, len, w'.
  - intros (h & len & w' & -> & Hh & Hs). by exists h, w', (major, len).
Qed.

Lemma parses_expect_tstr m : parses m expect_tstr (string_word 3).
Proof. by apply parses_string. Qed.

Lemma parses_expect_bstr_or_null m :
  parses m expect_bstr_or_null (fun w o =>
    match o with None => w = [246] | Some s => string_word 2 w s end).
Proof.
  assert (Hs : parses m (head ← read_head; let '(mj, l) := head in _ ← assert_that (mj = 2); s ← read_str_contents 2 l; mret (Some s))
    (fun w o => exists s, o = Some s /\ string_word 2 w s)).
  { eapply parses_iff.
    - eapply parses_ext; [|exact (parses_bind m _ _ _ _ (parses_string m 2 ltac:(lia)) (fun s => parses_ret m (Some s)))].
      intros b. unfold mbind, reader_bind. destruct (read_head b) as [[[mj l] b1]|]; [|done].
      unfold assert_that. by case_decide.
    - intros w o. split.
      + intros (w1 & w2 & s & -> & Hs & -> & ->). rewrite app_nil_r. by exists s.
      + intros (s & -> & Hs). exists w, [], s. by rewrite app_nil_r. }
  intros b o b' Hm. unfold expect_bstr_or_null, peek_u8. case_decide as Hn.
  - destruct b as [|x b]; [done|]. injection Hn as ->. cbn [drop]. rewrite drop_0. split.
    + intros [= <- <-]. by exists [246].
    + intros (w & E & Hw). destruct o as [s|]; [|by subst w; injection E as ->].
      destruct Hw as (h & len & w' & -> & (ib & arg & -> & Hmj & _) & _). injection E as <- _.
      change (2 = 7) in Hmj. done.
  - rewrite (Hs b o b' Hm). split.
    + intros (w & -> & s & -> & Hw). by exists w.
    + intros (w & -> & Hw). exists w. split; [done|]. destruct o as [s|]; [by exists s|]. by subst w.
Qed.

(** ** Writing a head and reading it back *)

Lemma parses_unique {A} (r : reader A) P w1 w2 b1 b2 a1 a2 :
  (forall m, parses m r P) -> P w1 a1 -> P w2 a2 -> w1 ++ b1 = w2 ++ b2 -> a1 = a2 /\ w1 = w2 /\ b1 = b2.
Proof.
  intros Hr H1 H2 E.
  assert (E1 : r (w1 ++ b1) = Some (a1, b1)) by (apply (Hr (length (w1 ++ b1))); [done|by exists w1]).
  assert (E2 : r (w1 ++ b1) = Some (a2, b2)) by (rewrite E; apply (Hr (length (w2 ++ b2))); [done|by exists w2]).
  rewrite E1 in E2. injection E2 as -> ->. by simplify_list_eq.
Qed.

Lemma head_byte major info : 0 <= major < 8 -> 0 <= info < 32 ->
  let ib := Z.lor (u8 (Z.shiftl major 5)) info in Z.shiftr ib 5 = major /\ Z.land ib 31 = info.
Proof.
  intros Hm Hi.
  assert (Hall : Forall (fun major => Forall (fun info =>
    Z.shiftr (Z.lor (u8 (Z.shiftl major 5)) info) 5 = major /\ Z.land (Z.lor (u8 (Z.shiftl major 5)) info) 31 = info)
    (seqZ 0 32)) (seqZ 0 8))
    by (apply (bool_decide_unpack _); vm_compute; exact I).
  rewrite Forall_forall in Hall. specialize (Hall major ltac:(apply elem_of_seqZ; lia)).
  rewrite Forall_forall in Hall. exact (Hall info ltac:(apply elem_of_seqZ; lia)).
Qed.

Lemma push_cbor_head_word major arg : 0 <= major < 8 -> 0 <= arg < 2 ^ 64 -> head_word (push_cbor_head major arg) (major, Some arg).
Proof.
  intros Hm Ha. unfold push_cbor_head. cbn zeta.
  assert (Hwide : forall info bytes, 23 < info < 32 -> arg_width info = Some (length bytes) -> be_decode bytes = arg ->
    head_word (Z.lor (u8 (Z.shiftl major 5)) info :: bytes) (major, Some arg)).
  { intros info bytes Hi Hw Hb. destruct (head_byte major info Hm ltac:(lia)) as [E1 E2].
    eexists _, _. split; [done|]. split; [by rewrite E1|]. cbn [snd]. rewrite E2, decide_False by lia. by rewrite Hb. }
  repeat case_decide.
  - destruct (head_byte major arg Hm ltac:(lia)) as [E1 E2]. eexists _, []. split; [done|]. split; [by rewrite E1|].
    cbn [snd]. rewrite E2, decide_True by lia. by rewrite arg_width_small by lia.
  - apply Hwide; [lia|done|]. unfold u8. rewrite Z.mod_small by lia. unfold be_decode. cbn. lia.
  - apply Hwide; [lia|done|]. apply be_round_trip. lia.
  - apply Hwide; [lia|done|]. apply be_round_trip. lia.
  - apply Hwide; [lia|done|]. apply be_round_trip. lia.
Qed.

Lemma push_cbor_head_unique major n1 n2 b1 b2 :
  0 <= major < 8 -> 0 <= n1 < 2 ^ 64 -> 0 <= n2 < 2 ^ 64 ->
  push_cbor_head major n1 ++ b1 = push_cbor_head major n2 ++ b2 -> n1 = n2 /\ b1 = b2.
Proof.
  intros Hm H1 H2 E.
  destruct (parses_unique read_head head_word _ _ b1 b2 _ _ parses_read_head
    (push_cbor_head_word major n1 Hm H1) (push_cbor_head_word major n2 Hm H2) E) as ([= ->] & _ & ->). done.
Qed.

(** The signed structure determines its parts. *)
Lemma build_sig_structure_inj p1 m1 p2 m2 :
  Z.of_nat (length p1) < 2 ^ 64 -> Z.of_nat (length p2) < 2 ^ 64 ->
  Z.of_nat (length m1) < 2 ^ 64 -> Z.of_nat (length m2) < 2 ^ 64 ->
  build_sig_structure p1 m1 = build_sig_structure p2 m2 -> p1 = p2 /\ m1 = m2.
Proof.
  intros Hp1 Hp2 Hm1 Hm2 E. unfold build_sig_structure in E. do 2 apply app_inv_head in E.
  apply push_cbor_head_unique in E as [El E]; [|lia..]. apply Nat2Z.inj in El.
  apply app_inj_1 in E as [-> E]; [|done]. apply app_inv_head in E.
  by apply push_cbor_head_unique in E as [_ ->]; [|lia..].
Qed.
