(* ===== verification/Validator.v ===== *)
(** * The attestation validator ([bin/aws-nitro-validator/src])

    The SP1 guest that checks an AWS Nitro attestation: the certificate chain
    from the root CA to the leaf, the signature over the document, the enclave
    image, and the key the document carries.  Every failed check is a panic,
    [None] here: no proof is made.  SHA-384 and P-384 are parameters. *)
From S2P Require Import Prelude BytesCodec Rlp Reader.
From stdpp Require Import strings.
#[local] Open Scope Z_scope.

Class NitroCrypto : Type := {
  sha384 : list Z -> list Z;
  (** [VerifyingKey::from_sec1_bytes] followed by [verify_digest] of the SHA-384
      digest of the data, for a DER and a raw signature. *)
  p384_verify_der : list Z -> list Z -> list Z -> bool;
  p384_verify_raw : list Z -> list Z -> list Z -> bool }.

Record CertData : Type := { cert_tbs : list Z; cert_signature : list Z }.

Record GuestInput : Type := {
  root_pubkey : list Z;
  root_subject : list Z;
  chain : list CertData;
  cose_protected : list Z;
  cose_payload : list Z;
  cose_signature : list Z }.

Definition EXPECTED_ROOT_PUBKEY_HASH : list Z :=
  [112; 134; 55; 178; 175; 208; 218; 42; 251; 207; 139; 246; 225; 228; 40; 12;
   40; 231; 160; 169; 194; 87; 221; 139; 212; 122; 57; 72; 180; 17; 235; 44;
   77; 97; 249; 14; 121; 190; 95; 81; 10; 177; 174; 36; 21; 20; 182; 131].

Definition EXPECTED_ROOT_SUBJECT_HASH : list Z :=
  [254; 25; 241; 107; 115; 220; 253; 247; 173; 166; 134; 178; 111; 188; 38; 128;
   14; 139; 73; 51; 160; 193; 231; 169; 180; 12; 212; 234; 128; 159; 24; 41;
   220; 72; 142; 20; 117; 60; 189; 232; 118; 134; 196; 217; 52; 57; 240; 62].

(** The network is a feature of the build. *)
Definition EXPECTED_PCR0 (mainnet : bool) : list Z :=
  if mainnet then
    [154; 74; 220; 175; 62; 135; 4; 52; 161; 50; 167; 117; 209; 238; 43; 9;
     64; 87; 251; 241; 205; 4; 108; 76; 254; 40; 18; 6; 110; 194; 15; 241;
     60; 242; 59; 51; 112; 163; 166; 12; 67; 188; 250; 151; 145; 2; 30; 74]
  else
    [247; 195; 151; 191; 10; 133; 142; 197; 19; 103; 124; 226; 7; 118; 41; 132;
     215; 203; 186; 81; 163; 177; 65; 183; 152; 144; 213; 159; 195; 239; 69; 4;
     123; 90; 130; 241; 203; 87; 4; 198; 160; 41; 150; 111; 149; 16; 180; 227].

Definition ECDSA_WITH_SHA384_ALGID_BODY : list Z := [6; 8; 42; 134; 72; 206; 61; 4; 3; 3].

(** ** The attestation document *)

Definition ascii_bytes (s : string) : list Z :=
  map (fun a => Z.of_N (Ascii.N_of_ascii a)) (String.list_ascii_of_string s).

(** What the closure of [parse_attestation_doc] has found so far. *)
Record found : Type := { pcr0 : option (list Z); user_data : option (list Z); timestamp_ms : option Z }.
Definition with_pcr0 (v : list Z) (st : found) : found :=
  {| pcr0 := Some v; user_data := user_data st; timestamp_ms := timestamp_ms st |}.
Definition with_user_data (v : list Z) (st : found) : found :=
  {| pcr0 := pcr0 st; user_data := Some v; timestamp_ms := timestamp_ms st |}.
Definition with_timestamp (v : Z) (st : found) : found :=
  {| pcr0 := pcr0 st; user_data := user_data st; timestamp_ms := Some v |}.

(** [expect_bstr_or_null().expect(..)]. *)
Definition expect_bstr : reader (list Z) := o ← expect_bstr_or_null; expect_some o.

Definition pcr_entry (st : found) : reader found :=
  idx ← expect_uint;
  val ← expect_bstr;
  if decide (idx = 0) then _ ← assert_that (pcr0 st = None); mret (with_pcr0 val st) else mret st.

Definition doc_entry (st : found) : reader found :=
  key ← expect_tstr;
  if decide (key = ascii_bytes "pcrs") then m ← expect_map; iter_map m pcr_entry st
  else if decide (key = ascii_bytes "user_data") then
    v ← expect_bstr; _ ← assert_that (user_data st = None); mret (with_user_data v st)
  else if decide (key = ascii_bytes "timestamp") then
    v ← expect_uint; _ ← assert_that (timestamp_ms st = None); mret (with_timestamp v st)
  else _ ← skip_item; mret st.

Definition read_attestation_doc : reader found :=
  top ← expect_map;
  iter_map top doc_entry {| pcr0 := None; user_data := None; timestamp_ms := None |}.

Definition parse_attestation_doc (payload : list Z) : option (list Z * list Z * Z) :=
  st ← fst <$> read_attestation_doc payload;
  p ← pcr0 st; u ← user_data st; t ← timestamp_ms st; Some (p, u, t).

(** ** DER *)

Fixpoint read_len_bytes (n : nat) (len : Z) : reader Z :=
  match n with
  | O => mret len
  | S n => b ← read_u8; read_len_bytes n (Z.lor (Z.shiftl len 8) b)
  end.

Definition read_len : reader Z :=
  b ← read_u8;
  if decide (b < 128) then mret b
  else
    let n := Z.land b 127 in
    _ ← assert_that (0 < n <= 4);
    read_len_bytes (Z.to_nat n) 0.

(** Tag, content and the bytes of the whole element. *)
Definition read_tlv : reader (Z * list Z * list Z) := fun b =>
  match (tag ← read_u8; len ← read_len; content ← read_bytes len; mret (tag, content)) b with
  | Some ((tag, content), b') => Some ((tag, content, take (length b - length b') b), b')
  | None => None
  end.

Definition expect_tag (expected_tag : Z) : reader (list Z) :=
  tlv ← read_tlv;
  let '(tag, content, _) := tlv in
  _ ← assert_that (tag = expected_tag);
  mret content.

(** An element of which the raw bytes are wanted. *)
Definition raw_of_tag (expected_tag : Z) : reader (list Z) :=
  tlv ← read_tlv;
  let '(tag, _, raw) := tlv in
  _ ← assert_that (tag = expected_tag);
  mret raw.

Record ParsedTbs : Type := { issuer : list Z; subject : list Z; spki : list Z }.

Definition read_version : reader unit := fun b =>
  if decide (head b = Some 160) then (_ ← read_tlv; mret tt) b else Some (tt, b).

Definition read_spki : reader (list Z) :=
  _ ← expect_tag 48;
  bit_string ← expect_tag 3;
  _ ← assert_that (length bit_string = 98%nat /\ nth 0 bit_string 0 = 0 /\ nth 1 bit_string 0 = 4);
  mret (drop 1 bit_string).

Definition read_tbs_fields : reader ParsedTbs :=
  sigalg ← expect_tag 48;
  _ ← assert_that (sigalg = ECDSA_WITH_SHA384_ALGID_BODY);
  issuer_raw ← raw_of_tag 48;
  _ ← raw_of_tag 48;
  subject_raw ← raw_of_tag 48;
  spki_body ← expect_tag 48;
  key ← expect_some (fst <$> read_spki spki_body);
  mret {| issuer := issuer_raw; subject := subject_raw; spki := key |}.

Definition read_tbs_body : reader ParsedTbs :=
  _ ← read_version;
  _ ← expect_tag 2;
  read_tbs_fields.

Definition parse_tbs (tbs : list Z) : option ParsedTbs :=
  '(tag, body, _, rest) ← read_tlv tbs;
  _ ← guard (tag = 48); _ ← guard (rest = []);
  fst <$> read_tbs_body body.

(** ** The whole check *)

Section Verify.
Context `{Keccak, NitroCrypto}.

(** The loop over the chain; [prev] is the certificate before, which is parsed
    again for its subject. *)
Fixpoint walk_chain (root_subject : list Z) (prev : option CertData) (issuer_key : list Z) (certs : list CertData)
  : option (list Z) :=
  match certs with
  | [] => Some issuer_key
  | cert :: certs =>
      parsed ← parse_tbs (cert_tbs cert);
      prev_subject ← match prev with
                     | None => Some root_subject
                     | Some prev => subject <$> parse_tbs (cert_tbs prev)
                     end;
      _ ← guard (issuer parsed = prev_subject);
      _ ← guard (p384_verify_der issuer_key (cert_tbs cert) (cert_signature cert) = true);
      walk_chain root_subject (Some cert) (spki parsed) certs
  end.

(** The padded address and the attestation time in seconds. *)
Definition verify (mainnet : bool) (input : GuestInput) : option (list Z * Z) :=
  _ ← guard (sha384 (root_pubkey input) = EXPECTED_ROOT_PUBKEY_HASH);
  _ ← guard (sha384 (root_subject input) = EXPECTED_ROOT_SUBJECT_HASH);
  _ ← guard (length (root_pubkey input) = 97%nat);
  _ ← guard (chain input <> []);
  leaf_key ← walk_chain (root_subject input) None (root_pubkey input) (chain input);
  let sig_structure := build_sig_structure (cose_protected input) (cose_payload input) in
  _ ← guard (length (cose_signature input) = 96%nat);
  _ ← guard (p384_verify_raw leaf_key sig_structure (cose_signature input) = true);
  '(pcr0, user_data, timestamp_ms) ← parse_attestation_doc (cose_payload input);
  _ ← guard (pcr0 = EXPECTED_PCR0 mainnet);
  _ ← guard (length user_data = 65%nat);
  _ ← guard (nth 0 user_data 0 = 4);
  _ ← guard (0 < timestamp_ms);
  let timestamp_sec := timestamp_ms / 1000 in
  let hash := keccak256 (drop 1 user_data) in
  Some (replicate 12 0 ++ drop 12 hash, timestamp_sec).

(** The public values the guest commits. *)
Definition guest_main (mainnet : bool) (input : GuestInput) : option (list Z) :=
  '(addr_word, timestamp_sec) ← verify mainnet input;
  Some (addr_word ++ replicate 24 0 ++ be_encode 8 timestamp_sec).
End Verify.
