(* ===== verification/NitroVerifier.v ===== *)
(** * The NitroVerifier contract's bindings
      ([crates/l1-rollup-client/src/nitro_verifier.rs])

    Reading the validator's public values, asking whether a key is registered,
    and submitting an attestation.  The [sol!] encodings are a parameter, the
    L1 node is behind calls. *)
From S2P Require Import Prelude BytesCodec Interaction.
From stdpp Require Import strings.
#[local] Open Scope Z_scope.

Definition ATTESTATION_PUBLIC_VALUES_LEN : nat := 64.

Definition decode_public_values (public_values : list Z) : outcome string (list Z * Z) :=
  if decide (length public_values <> ATTESTATION_PUBLIC_VALUES_LEN) then
    Err ("unexpected attestation public values length: got " +:+ str (Z.of_nat (length public_values)))
  else
    address ← slice 12 32 public_values;
    timestamp_bytes ← slice 56 64 public_values;
    mret (address, be_decode timestamp_bytes).

Class VerifierAbi : Type := {
  verifiedPubkeys_encode : list Z -> list Z;
  verifiedPubkeys_decode_returns : list Z -> outcome string bool;
  verifyAttestation_encode : list Z -> Z -> list Z -> list Z }.

Record SubmitReceipt : Type := { receipt_status : bool; receipt_tx_hash : list Z }.

(** [TimedOut] is the answer [None]. *)
Inductive VerifierCall : Type -> Type :=
  | CallWithTimeout (to_ input_ : list Z) : VerifierCall (outcome string (option (list Z)))
  | SendTransaction (to_ input_ : list Z) : VerifierCall (outcome string (list Z))
  | GetReceipt (pending : list Z) : VerifierCall (outcome string SubmitReceipt).

Section Client.
Context `{VerifierAbi}.
Abbreviation io := (eff VerifierCall string).

Definition is_key_registered (nitro_verifier_addr enclave_address : list Z) : io bool :=
  result ← context "verifiedPubkeys call failed: "
             (ask (CallWithTimeout nitro_verifier_addr (verifiedPubkeys_encode enclave_address)));
  result ← ok_or "verifiedPubkeys call timeout after 10s" result;
  context "Failed to decode verifiedPubkeys result: " (of_outcome (verifiedPubkeys_decode_returns result)).

Definition submit_attestation (nitro_verifier_addr expected_pubkey : list Z) (attestation_time : Z) (proof_bytes : list Z)
  : io (list Z) :=
  pending ← context "Failed to send verifyAttestation tx: "
              (ask (SendTransaction nitro_verifier_addr (verifyAttestation_encode expected_pubkey attestation_time proof_bytes)));
  receipt ← context "verifyAttestation tx failed: " (ask (GetReceipt pending));
  if receipt_status receipt then mret (receipt_tx_hash receipt) else throw "verifyAttestation tx reverted".
End Client.
