(* ===== verification/ValidatorSpec.v ===== *)
(** * What a validated attestation says

    The document and the certificates as grammars, the chain as an inductive
    relation, and the validator as the decision of both.  What it commits is
    read back by the proxy and the contract. *)
From S2P Require Import Prelude BytesCodec Rlp Reader CborSpec Validator NitroVerifier.
From stdpp Require Import strings.
#[local] Open Scope Z_scope.

(** ** Maps *)

Inductive seq_word {E} (Q : list Z -> E -> Prop) : list Z -> list E -> Prop :=
  | seq_nil : seq_word Q [] []
  | seq_cons w e ws es : Q w e -> seq_word Q ws es -> seq_word Q (w ++ ws) (e :: es).

(** The entries of a map, of either length encoding. *)
Definition map_body {E} (Q : list Z -> E -> Prop) (len : Len) (w : list Z) (es : list E) : Prop :=
  match len with
  | Some n => seq_word Q w es /\ length es = Z.to_nat n
  | None => exists u, w = u ++ [255] /\ seq_word Q u es
  end.

Definition map_word {E} (Q : list Z -> E -> Prop) (w : list Z) (es : list E) : Prop :=
  exists h len b, w = h ++ b /\ head_word h (5, len) /\ map_body Q len b es.

Section Steps.
Context {A E : Type} (P : A -> list Z -> A -> Prop) (Q : list Z -> E -> Prop) (X : A -> list E -> A -> Prop).
Context (Hstep : forall a w a', P a w a' <-> exists e, Q w e /\ X a [e] a').
Context (Hnil : forall a a', X a [] a' <-> a = a').
Context (Hcons : forall a e es a', X a (e :: es) a' <-> exists a1, X a [e] a1 /\ X a1 es a').

Lemma rounds_steps k a w a' : rounds P k a w a' <-> exists es, seq_word Q w es /\ length es = k /\ X a es a'.
Proof.
  split.
  - induction 1 as [a|k a w1 a1 w2 a2 H1 _ (es & Hw & Hl & Hx)].
    + exists []. split_and!; [constructor|done|by apply Hnil].
    + apply Hstep in H1 as (e & He & Hx1). exists (e :: es). split_and!; [by constructor|cbn; by rewrite Hl|].
      apply Hcons. eauto.
  - intros (es & Hw & Hl & Hx). subst k. revert a Hx. induction Hw as [|w e ws es He Hw IH]; intros a Hx.
    + apply Hnil in Hx as <-. constructor.
    + apply Hcons in Hx as (a1 & H1 & Hx). cbn. econstructor; [|by apply IH]. apply Hstep. eauto.
Qed.

Lemma parses_map m len (f : A -> reader A) a :
  (forall a, consumes (f a)) -> (forall a, parses m (f a) (P a)) -> (forall w e, Q w e -> head w <> Some 255) ->
  parses m (iter_map len f a) (fun w a' => exists es, map_body Q len w es /\ X a es a').
Proof.
  intros Hc Hp Hh. eapply parses_iff; [apply parses_iter_map; [done|exact Hp|]|].
  - intros a1 w a2 H1. apply Hstep in H1 as (e & He & _). by eapply Hh.
  - intros w a'. destruct len as [n|]; cbn.
    + rewrite rounds_steps. naive_solver.
    + setoid_rewrite rounds_steps. split.
      * intros (k & u & -> & es & Hu & Hl & Hx). exists es. split; [by exists u|done].
      * intros (es & (u & -> & Hu) & Hx). exists (length es), u. split; [done|]. by exists es.
Qed.
End Steps.

Lemma string_word_head major w s : 0 <= major < 7 -> string_word major w s -> head w <> Some 255.
Proof.
  intros Hm (h & len & w' & -> & (ib & arg & -> & Hmj & _) & _) [= ->]. change (major = 7) in Hmj. lia.
Qed.

(** ** The document *)

Inductive entry : Type :=
  | EPcrs (ps : list (Z * list Z))
  | EUserData (s : list Z)
  | ETimestamp (n : Z)
  | EOther (key : list Z).

Definition pcr_word (w : list Z) (p : Z * list Z) : Prop :=
  exists h b, w = h ++ b /\ head_word h (0, Some p.1) /\ string_word 2 b p.2.

Definition entry_word (w : list Z) (e : entry) : Prop :=
  exists kw vw key, w = kw ++ vw /\ string_word 3 kw key /\
    match e with
    | EPcrs ps => key = ascii_bytes "pcrs" /\ map_word pcr_word vw ps
    | EUserData s => key = ascii_bytes "user_data" /\ string_word 2 vw s
    | ETimestamp n => key = ascii_bytes "timestamp" /\ head_word vw (0, Some n)
    | EOther k => k = key /\ key <> ascii_bytes "pcrs" /\ key <> ascii_bytes "user_data" /\
        key <> ascii_bytes "timestamp" /\ item vw
    end.

Definition pcr0s (es : list entry) : list (list Z) :=
  es ≫= fun e => match e with EPcrs ps => omap (fun p => if decide (p.1 = 0) then Some p.2 else None) ps | _ => [] end.
Definition user_datas (es : list entry) : list (list Z) :=
  es ≫= fun e => match e with EUserData s => [s] | _ => [] end.
Definition timestamps (es : list entry) : list Z :=
  es ≫= fun e => match e with ETimestamp n => [n] | _ => [] end.

(** The entries [es] take the fields from [st] to [st']. *)
Definition extends (st : found) (es : list entry) (st' : found) : Prop :=
  option_list (pcr0 st') = option_list (pcr0 st) ++ pcr0s es /\
  option_list (user_data st') = option_list (user_data st) ++ user_datas es /\
  option_list (timestamp_ms st') = option_list (timestamp_ms st) ++ timestamps es.

Lemma option_list_inj {A} (o o' : option A) : option_list o = option_list o' -> o = o'.
Proof. destruct o, o'; cbn; congruence. Qed.

Lemma option_list_split {A} (o' o : option A) l1 l2 :
  option_list o' = option_list o ++ l1 ++ l2 <->
  exists o1, option_list o1 = option_list o ++ l1 /\ option_list o' = option_list o1 ++ l2.
Proof.
  split.
  - intros E. assert (Hl : (length (option_list o ++ l1) <= 1)%nat).
    { pose proof (f_equal length E) as El. rewrite !length_app in *. destruct o'; cbn in El; lia. }
    rewrite app_assoc in E. destruct (option_list o ++ l1) as [|x [|y l]] eqn:E1; [by exists None|by exists (Some x)|cbn in Hl; lia].
  - intros (o1 & E1 & ->). by rewrite E1, app_assoc.
Qed.

Lemma extends_nil st st' : extends st [] st' <-> st = st'.
Proof.
  unfold extends, pcr0s, user_datas, timestamps. cbn. rewrite !app_nil_r. split.
  - intros (H1 & H2 & H3). apply option_list_inj in H1, H2, H3. destruct st, st'; cbn in *. congruence.
  - by intros ->.
Qed.

Lemma extends_app st e1 e2 st' : extends st (e1 ++ e2) st' <-> exists st1, extends st e1 st1 /\ extends st1 e2 st'.
Proof.
  unfold extends, pcr0s, user_datas, timestamps. rewrite !bind_app. rewrite !option_list_split. split.
  - intros ((p & P1 & P2) & (u & U1 & U2) & (t & T1 & T2)). by exists {| pcr0 := p; user_data := u; timestamp_ms := t |}.
  - intros (st1 & (P1 & U1 & T1) & (P2 & U2 & T2)). split_and!; by eexists.
Qed.

Lemma extends_pcrs st p ps st' : extends st [EPcrs (p :: ps)] st' <-> exists st1, extends st [EPcrs [p]] st1 /\ extends st1 [EPcrs ps] st'.
Proof.
  rewrite <- extends_app. unfold extends, pcr0s, user_datas, timestamps. cbn. rewrite !app_nil_r.
  destruct (decide (p.1 = 0)); done.
Qed.

Lemma extends_pcrs_nil st st' : extends st [EPcrs []] st' <-> st = st'.
Proof. rewrite <- extends_nil. done. Qed.

(** One step per kind of entry. *)
Lemma extends_one st e st' : extends st [e] st' <->
  match e with
  | EPcrs [p] => if decide (p.1 = 0) then pcr0 st = None /\ st' = with_pcr0 p.2 st else st' = st
  | EPcrs _ => extends st [e] st'
  | EUserData s => user_data st = None /\ st' = with_user_data s st
  | ETimestamp n => timestamp_ms st = None /\ st' = with_timestamp n st
  | EOther _ => st' = st
  end.
Proof.
  assert (Hone : forall A (o o' : option A) x, option_list o' = option_list o ++ [x] <-> o = None /\ o' = Some x).
  { intros A o o' x. destruct o, o'; cbn; naive_solver. }
  assert (Hsame : forall A (o o' : option A), option_list o' = option_list o <-> o' = o).
  { intros A o o'. split; [apply option_list_inj|by intros ->]. }
  destruct e as [[|p [|p' ps]]|s|n|k]; try done; unfold extends, pcr0s, user_datas, timestamps; cbn; rewrite ?app_nil_r.
  - destruct st, st', (decide (p.1 = 0)); cbn; rewrite ?app_nil_r, ?Hone, !Hsame.
    + split; [by intros ([-> ->] & -> & ->)|by intros (-> & [= -> -> ->])].
    + split; [by intros (-> & -> & ->)|by intros [= -> -> ->]].
  - destruct st, st'; cbn; rewrite Hone, !Hsame. split; [by intros (-> & [-> ->] & ->)|by intros (-> & [= -> -> ->])].
  - destruct st, st'; cbn; rewrite Hone, !Hsame. split; [by intros (-> & -> & [-> ->])|by intros (-> & [= -> -> ->])].
  - destruct st, st'; cbn; rewrite !Hsame. split; [by intros (-> & -> & ->)|by intros [= -> -> ->]].
Qed.

Lemma parses_expect_bstr m : parses m expect_bstr (string_word 2).
Proof.
  eapply parses_iff; [apply parses_bind; [apply parses_expect_bstr_or_null|intros o; apply parses_expect]|]. intros w s. split.
  - intros (w1 & w2 & o & -> & Hs & -> & ->). by rewrite app_nil_r.
  - intros Hs. exists w, [], (Some s). by rewrite app_nil_r.
Qed.

Lemma consumes_string major :
  consumes (head ← read_head; let '(mj, l) := head in _ ← assert_that (mj = major); read_str_contents major l).
Proof.
  apply consumes_bind; [apply consumes_read_head|]. intros [mj l].
  apply keeps_bind; [apply keeps_assert|]. intros _. apply keeps_read_str_contents.
Qed.

Lemma consumes_expect_uint : consumes expect_uint.
Proof.
  apply consumes_bind; [apply consumes_read_head|]. intros [mj l].
  apply keeps_bind; [apply keeps_assert|]. intros _. apply keeps_expect.
Qed.

Lemma keeps_expect_bstr : keeps expect_bstr.
Proof.
  intros b s b' E. apply (parses_expect_bstr (length b)) in E as (w & -> & _); [|done]. rewrite length_app. lia.
Qed.

Lemma keeps_expect_map : keeps expect_map.
Proof.
  intros b s b' E. apply (parses_expect_map (length b)) in E as (w & -> & _); [|done]. rewrite length_app. lia.
Qed.

Lemma consumes_pcr_entry st : consumes (pcr_entry st).
Proof.
  apply consumes_bind; [apply consumes_expect_uint|]. intros idx. apply keeps_bind; [apply keeps_expect_bstr|]. intros v.
  case_decide; [apply keeps_bind; [apply keeps_assert|intros _; apply keeps_ret]|apply keeps_ret].
Qed.

Lemma parses_pcr_entry m st : parses m (pcr_entry st) (fun w st' => exists p, pcr_word w p /\ extends st [EPcrs [p]] st').
Proof.
  eapply parses_iff.
  { apply parses_bind; [apply parses_expect_uint|]. intros idx.
    instantiate (1 := fun idx w st' => exists v, string_word 2 w v /\ extends st [EPcrs [(idx, v)]] st').
    eapply parses_iff; [apply parses_bind; [apply parses_expect_bstr|]|].
    - intros v. instantiate (1 := fun v w st' => w = [] /\ extends st [EPcrs [(idx, v)]] st'). cbn beta.
      eapply parses_iff with (P := fun w st' => w = [] /\
        if decide (idx = 0) then pcr0 st = None /\ st' = with_pcr0 v st else st' = st); [|intros w st'; by rewrite extends_one].
      case_decide; [|apply parses_ret].
      eapply parses_iff; [apply parses_bind; [apply parses_assert|intros ?; apply parses_ret]|]. intros w st'. split.
      + by intros (w1 & w2 & [] & -> & [-> Hn] & -> & ->).
      + intros (-> & Hn & ->). by exists [], [], tt.
    - intros w st'. split.
      + intros (w1 & w2 & v & -> & Hv & -> & Hx). exists v. by rewrite app_nil_r.
      + intros (v & Hv & Hx). exists w, [], v. by rewrite app_nil_r. }
  intros w st'. split.
  - intros (h & b & idx & -> & Hh & v & Hv & Hx). exists (idx, v). split; [by exists h, b|done].
  - intros ([idx v] & (h & b & -> & Hh & Hv) & Hx). exists h, b, idx. split_and!; [done|done|]. by exists v.
Qed.

Lemma pcr_word_head w p : pcr_word w p -> head w <> Some 255.
Proof. intros (h & b & -> & (ib & arg & -> & Hmj & _) & _) [= ->]. change (0 = 7) in Hmj. done. Qed.

(** A field of the document: asserted to be new, then kept. *)
Lemma parses_field {V} m (r : reader V) (Q : list Z -> V -> Prop) (e : V -> entry) (fresh : Prop) `{Decision fresh}
    (set : V -> found) st :
  parses m r Q -> (forall v st', extends st [e v] st' <-> fresh /\ st' = set v) ->
  parses m (v ← r; _ ← assert_that fresh; mret (set v)) (fun w st' => exists v, Q w v /\ extends st [e v] st').
Proof.
  intros Hr He. eapply parses_iff.
  { apply parses_bind; [exact Hr|intros v]. apply parses_bind; [apply parses_assert|intros ?; apply parses_ret]. }
  intros w st'. setoid_rewrite He. split.
  - intros (w1 & w2 & v & -> & Hv & w3 & w4 & [] & -> & [-> Hf] & -> & ->). exists v. by rewrite app_nil_r.
  - intros (v & Hv & Hf & ->). exists w, [], v. rewrite app_nil_r. split_and!; [done|done|]. by exists [], [], tt.
Qed.

Lemma keeps_skip_item : keeps skip_item.
Proof. intros b [] b' E. by apply consumes_skip_item_fuel, Nat.lt_le_incl in E. Qed.

Lemma consumes_doc_entry st : consumes (doc_entry st).
Proof.
  apply consumes_bind; [apply consumes_string|]. intros key.
  case_decide.
  { apply keeps_bind; [apply keeps_expect_map|]. intros [n|]; intros b a b'; [apply keeps_repeat_times|apply keeps_until_break];
      intros st'; apply consumes_keeps, consumes_pcr_entry. }
  case_decide; [|case_decide].
  - apply keeps_bind; [apply keeps_expect_bstr|intros v]. apply keeps_bind; [apply keeps_assert|intros _; apply keeps_ret].
  - apply keeps_bind; [apply consumes_keeps, consumes_expect_uint|intros v].
    apply keeps_bind; [apply keeps_assert|intros _; apply keeps_ret].
  - apply keeps_bind; [apply keeps_skip_item|intros _; apply keeps_ret].
Qed.

Lemma parses_doc_entry m st : parses m (doc_entry st) (fun w st' => exists e, entry_word w e /\ extends st [e] st').
Proof.
  eapply parses_iff.
  { apply parses_bind; [apply parses_expect_tstr|]. intros key.
    instantiate (1 := fun key vw st' => exists e, extends st [e] st' /\ match e with
      | EPcrs ps => key = ascii_bytes "pcrs" /\ map_word pcr_word vw ps
      | EUserData s => key = ascii_bytes "user_data" /\ string_word 2 vw s
      | ETimestamp n => key = ascii_bytes "timestamp" /\ head_word vw (0, Some n)
      | EOther k => k = key /\ key <> ascii_bytes "pcrs" /\ key <> ascii_bytes "user_data" /\
          key <> ascii_bytes "timestamp" /\ item vw
      end). cbn beta.
    case_decide as Hp.
    { eapply parses_iff; [apply parses_bind; [apply parses_expect_map|intros len;
        apply (parses_map (fun st w st' => exists p, pcr_word w p /\ extends st [EPcrs [p]] st') pcr_word
          (fun st ps st' => extends st [EPcrs ps] st')); [done|apply extends_pcrs_nil|intros; apply extends_pcrs|
          apply consumes_pcr_entry|intros; apply parses_pcr_entry|apply pcr_word_head]]|].
      intros w st'. split.
      - intros (h & b & len & -> & Hh & ps & Hb & Hx). exists (EPcrs ps). split; [done|]. split; [done|]. by exists h, len, b.
      - intros ([ps|s|n|k] & Hx & Hk & Hw); [|subst key; done..|by destruct Hw].
        destruct Hw as (h & len & b & -> & Hh & Hb). exists h, b, len. split_and!; [done|done|]. by exists ps. }
    case_decide as Hu.
    { eapply parses_iff; [apply (parses_field m expect_bstr (string_word 2) EUserData (user_data st = None) (fun v => with_user_data v st));
        [apply parses_expect_bstr|intros v ?; apply (extends_one st (EUserData v))]|].
      intros w st'. split; [intros (v & Hv & Hx); by exists (EUserData v)|].
      intros ([ps|s|n|k] & Hx & Hk & Hw); [done|by exists s|by subst key|by destruct Hw as (_ & ? & _)]. }
    case_decide as Ht.
    { eapply parses_iff; [apply (parses_field m expect_uint (fun w n => head_word w (0, Some n)) ETimestamp (timestamp_ms st = None)
        (fun v => with_timestamp v st)); [apply parses_expect_uint|intros v ?; apply (extends_one st (ETimestamp v))]|].
      intros w st'. split; [intros (v & Hv & Hx); by exists (ETimestamp v)|].
      intros ([ps|s|n|k] & Hx & Hk & Hw); [done|done|by exists n|by destruct Hw as (_ & _ & ? & _)]. }
    eapply parses_iff; [apply parses_bind; [apply parses_skip_item|intros ?; apply parses_ret]|]. intros w st'. split.
    - intros (w1 & w2 & ? & -> & Hi & -> & ->). rewrite app_nil_r. exists (EOther key). rewrite extends_one. by split_and!.
    - intros ([ps|s|n|k] & Hx & Hk & Hw); [done..|]. apply (extends_one st (EOther k)) in Hx as ->. destruct Hw as (_ & _ & _ & Hi).
      exists w, [], tt. by rewrite app_nil_r. }
  intros w st'. split.
  - intros (kw & vw & key & -> & Hk & e & Hx & He). exists e. split; [by exists kw, vw, key|done].
  - intros (e & (kw & vw & key & -> & Hk & He) & Hx). exists kw, vw, key. split_and!; [done|done|]. by exists e.
Qed.

Lemma entry_word_head w e : entry_word w e -> head w <> Some 255.
Proof.
  intros (kw & vw & key & -> & Hk & _). pose proof Hk as (h & len & w' & -> & Hh & _).
  apply head_word_nonempty in Hh as Hl. apply string_word_head in Hk; [|lia]. destruct h; [cbn in Hl; lia|done].
Qed.

(** The document: a map with one [pcrs[0]], one [user_data] and one
    [timestamp], whatever else it holds and whatever follows it. *)
Definition attests (payload : list Z) (pcr user_key : list Z) (ms : Z) : Prop :=
  exists w rest es, payload = w ++ rest /\ map_word entry_word w es /\
    pcr0s es = [pcr] /\ user_datas es = [user_key] /\ timestamps es = [ms].

Lemma parse_attestation_doc_spec payload pcr user_key ms :
  parse_attestation_doc payload = Some (pcr, user_key, ms) <-> attests payload pcr user_key ms.
Proof.
  assert (Hdoc : parses (length payload) read_attestation_doc (fun w st => exists es, map_word entry_word w es /\
    extends {| pcr0 := None; user_data := None; timestamp_ms := None |} es st)).
  { eapply parses_iff; [apply parses_bind; [apply parses_expect_map|intros len;
      apply (parses_map (fun st w st' => exists e, entry_word w e /\ extends st [e] st') entry_word extends); 
        [done|apply extends_nil|intros; apply (extends_app _ [_])|apply consumes_doc_entry|intros; apply parses_doc_entry|apply entry_word_head]]|].
    intros w st. split.
    - intros (h & b & len & -> & Hh & es & Hb & Hx). exists es. split; [by exists h, len, b|done].
    - intros (es & (h & len & b & -> & Hh & Hb) & Hx). exists h, b, len. split_and!; [done|done|]. by exists es. }
  unfold parse_attestation_doc, attests. split.
  - intros E. destruct (read_attestation_doc payload) as [[st rest]|] eqn:Er; [|done]. cbn in E.
    apply Hdoc in Er as (w & -> & es & Hw & (H1 & H2 & H3)); [|done]. exists w, rest, es. cbn in H1, H2, H3.
    destruct (pcr0 st), (user_data st), (timestamp_ms st); cbn in *; try done. injection E as -> -> ->. by split_and!.
  - intros (w & rest & es & -> & Hw & H1 & H2 & H3).
    assert (Er : read_attestation_doc (w ++ rest) = Some ({| pcr0 := Some pcr; user_data := Some user_key; timestamp_ms := Some ms |}, rest)).
    { apply Hdoc; [done|]. exists w. split; [done|]. exists es. split; [done|]. by split_and!; cbn. }
    by rewrite Er.
Qed.

(** ** DER elements *)

Definition len_word (w : list Z) (n : Z) : Prop :=
  exists b bytes, w = b :: bytes /\
    ((b < 128 /\ bytes = [] /\ n = b) \/
     (128 <= b /\ 0 < Z.land b 127 <= 4 /\ length bytes = Z.to_nat (Z.land b 127) /\
      n = foldl (fun len b => Z.lor (Z.shiftl len 8) b) 0 bytes)).

Definition tlv_word (tag : Z) (content w : list Z) : Prop :=
  exists lw n, w = tag :: lw ++ content /\ len_word lw n /\ length content = Z.to_nat n.

Lemma parses_read_len_bytes m k : forall len,
  parses m (read_len_bytes k len) (fun w n => length w = k /\ n = foldl (fun len b => Z.lor (Z.shiftl len 8) b) len w).
Proof.
  induction k as [|k IH]; intros len.
  - eapply parses_iff; [apply parses_ret|]. intros w n. split; [by intros [-> ->]|]. intros [Hl ->]. by destruct w.
  - eapply parses_iff; [apply parses_bind; [apply parses_read_u8|intros b; apply IH]|]. intros w n. split.
    + intros (w1 & w2 & b & -> & -> & Hl & ->). cbn. by rewrite Hl.
    + intros [Hl ->]. destruct w as [|b w]; [done|]. exists [b], w, b. cbn in Hl. split_and!; [done|done|lia|done].
Qed.

Lemma parses_read_len m : parses m read_len len_word.
Proof.
  eapply parses_iff; [apply parses_bind; [apply parses_read_u8|]|].
  - intros b. instantiate (1 := fun b bytes n => (b < 128 /\ bytes = [] /\ n = b) \/
     (128 <= b /\ 0 < Z.land b 127 <= 4 /\ length bytes = Z.to_nat (Z.land b 127) /\
      n = foldl (fun len b => Z.lor (Z.shiftl len 8) b) 0 bytes)). cbn beta zeta.
    case_decide as Hb.
    + eapply parses_iff; [apply parses_ret|]. intros w n. split; [intros [-> ->]; by left|]. intros [(_ & -> & ->)|[? _]]; [done|lia].
    + eapply parses_iff; [apply parses_bind; [apply parses_assert|intros ?; apply parses_read_len_bytes]|]. intros w n. split.
      * intros (w1 & w2 & [] & -> & [-> Hn] & Hl & ->). right. split_and!; [lia|lia|lia|done|done].
      * intros [[? _]|(_ & Hn & Hl & ->)]; [lia|]. exists [], w, tt. split_and!; try done; lia.
  - intros w n. split.
    + intros (w1 & bytes & b & -> & -> & Hl). by exists b, bytes.
    + intros (b & bytes & -> & Hl). by exists [b], bytes, b.
Qed.

Lemma parses_read_tlv m : parses m read_tlv (fun w r => let '(tag, content, raw) := r in raw = w /\ tlv_word tag content w).
Proof.
  assert (Hp : parses m (tag ← read_u8; len ← read_len; content ← read_bytes len; mret (tag, content))
    (fun w r => tlv_word r.1 r.2 w)).
  { eapply parses_iff; [apply parses_bind; [apply parses_read_u8|intros tag; apply parses_bind; [apply parses_read_len|intros n;
      apply parses_bind; [apply parses_read_bytes|intros c; apply parses_ret]]]|]. intros w [tag c]. split.
    - intros (w1 & w2 & t & -> & -> & lw & w3 & n & -> & Hn & c' & w4 & c'' & -> & [-> Hl] & -> & [= -> ->]).
      exists lw, n. by rewrite app_nil_r.
    - intros (lw & n & -> & Hn & Hl). exists [tag], (lw ++ c), tag. split_and!; [done|done|].
      exists lw, c, n. split_and!; [done|done|]. exists c, [], c. by rewrite app_nil_r. }
  intros b [[tag c] raw] b' Hm. unfold read_tlv. match type of Hp with parses _ ?r _ => set (rd := r) in * end. split.
  - destruct (rd b) as [[[t c'] b1]|] eqn:E; [|done]. apply Hp in E as (w & -> & Hw); [|done]. intros [= -> -> <- ->].
    exists w. split; [done|]. split; [|done]. rewrite length_app. replace (length w + length b' - length b')%nat with (length w) by lia.
    by rewrite take_app_length.
  - intros (w & -> & -> & Hw). destruct (Hp (w ++ b') (tag, c) b' Hm) as [_ E]. rewrite E by (exists w; split; [done|exact Hw]).
    rewrite length_app. replace (length w + length b' - length b')%nat with (length w) by lia. by rewrite take_app_length.
Qed.

Lemma parses_expect_tag m t : parses m (expect_tag t) (fun w c => tlv_word t c w).
Proof.
  eapply parses_iff; [apply parses_bind; [apply parses_read_tlv|]|].
  - intros [[tag c] raw]. instantiate (1 := fun r w c => r.1.1 = t /\ c = r.1.2 /\ w = []). cbn.
    eapply parses_iff; [apply parses_bind; [apply parses_assert|intros ?; apply parses_ret]|]. intros w c'. split.
    + by intros (w1 & w2 & ? & -> & [-> ->] & -> & ->).
    + intros (-> & -> & ->). by exists [], [], tt.
  - intros w c. split.
    + intros (w1 & w2 & [[tag c'] raw] & -> & [-> Hw] & Ht & -> & ->). cbn in *. subst. by rewrite app_nil_r.
    + intros Hw. exists w, [], (t, c, w). by rewrite app_nil_r.
Qed.

Lemma parses_raw_of_tag m t : parses m (raw_of_tag t) (fun w raw => raw = w /\ exists c, tlv_word t c w).
Proof.
  eapply parses_iff; [apply parses_bind; [apply parses_read_tlv|]|].
  - intros [[tag c] raw]. instantiate (1 := fun r w x => r.1.1 = t /\ x = r.2 /\ w = []). cbn.
    eapply parses_iff; [apply parses_bind; [apply parses_assert|intros ?; apply parses_ret]|]. intros w c'. split.
    + by intros (w1 & w2 & ? & -> & [-> ->] & -> & ->).
    + intros (-> & -> & ->). by exists [], [], tt.
  - intros w x. split.
    + intros (w1 & w2 & [[tag c'] raw] & -> & [-> Hw] & Ht & -> & ->). cbn in *. subst. rewrite app_nil_r. split; [done|by exists c'].
    + intros [-> [c Hw]]. exists w, [], (t, c, w). by rewrite app_nil_r.
Qed.

(** ** Certificates *)

(** The key of a [subjectPublicKeyInfo]: 97 bytes, uncompressed. *)
Definition spki_word (body key : list Z) : Prop :=
  exists alg c bits rest xy, body = alg ++ bits ++ rest /\ tlv_word 48 c alg /\ tlv_word 3 (0 :: key) bits /\
    key = 4 :: xy /\ length xy = 96%nat.

(** The fields of a [tbsCertificate] that are looked at; what follows the key
    (unique identifiers, extensions) is not. *)
Definition tbs_word (tbs : list Z) (p : ParsedTbs) : Prop :=
  exists body version serial sigalg validity spki_w spki_body rest s v i u,
    tlv_word 48 body tbs /\
    body = version ++ serial ++ sigalg ++ issuer p ++ validity ++ subject p ++ spki_w ++ rest /\
    (version = [] \/ exists c, tlv_word 160 c version) /\
    tlv_word 2 s serial /\ tlv_word 48 ECDSA_WITH_SHA384_ALGID_BODY sigalg /\
    tlv_word 48 i (issuer p) /\ tlv_word 48 v validity /\ tlv_word 48 u (subject p) /\
    tlv_word 48 spki_body spki_w /\ spki_word spki_body (spki p).

Lemma read_spki_spec body key : fst <$> read_spki body = Some key <-> spki_word body key.
Proof.
  assert (Hp : parses (length body) read_spki (fun w k => exists alg c bits, w = alg ++ bits /\ tlv_word 48 c alg /\
    tlv_word 3 (0 :: k) bits /\ exists xy, k = 4 :: xy /\ length xy = 96%nat)).
  { eapply parses_iff; [apply parses_bind; [apply parses_expect_tag|intros ?; apply parses_bind; [apply parses_expect_tag|intros ?;
      apply parses_bind; [apply parses_assert|intros ?; apply parses_ret]]]|]. intros w k. split.
    - intros (alg & w2 & c & -> & Ha & bits & w3 & bs & -> & Hb & w4 & w5 & [] & -> & [-> (Hl & H0 & H1)] & -> & ->).
      destruct bs as [|x [|y bs]]; try done. cbn in Hl, H0, H1. subst x y. exists alg, c, bits. rewrite !app_nil_r.
      split_and!; [done|done|done|]. exists bs. split; [done|lia].
    - intros (alg & c & bits & -> & Ha & Hb & xy & -> & Hl). exists alg, bits, c. split_and!; [done|done|].
      exists bits, [], (0 :: 4 :: xy). rewrite app_nil_r. split_and!; [done|done|].
      exists [], [], tt. split_and!; [done|done| |done|done|done|done]. cbn. lia. }
  split.
  - destruct (read_spki body) as [[k rest]|] eqn:E; [|done]. intros [= ->]. apply Hp in E as (w & -> & alg & c & bits & -> & Ha & Hb & xy & -> & Hl); [|done].
    exists alg, c, bits, rest, xy. by rewrite <- app_assoc.
  - intros (alg & c & bits & rest & xy & -> & Ha & Hb & -> & Hl).
    assert (E : read_spki (alg ++ bits ++ rest) = Some (4 :: xy, rest)); [|by rewrite E].
    apply Hp; [done|]. exists (alg ++ bits). split; [by rewrite app_assoc|]. exists alg, c, bits. split_and!; [done|done|done|by exists xy].
Qed.

(** The optional version and the serial number. *)
Lemma parses_version_serial m : parses m (_ ← read_version; expect_tag 2) (fun w s =>
  exists version serial, w = version ++ serial /\ (version = [] \/ exists c, tlv_word 160 c version) /\ tlv_word 2 s serial).
Proof.
  intros b s b' Hm. unfold mbind, reader_bind, read_version. case_decide as Hh.
  - assert (Hp : parses m (_ ← read_tlv; expect_tag 2) (fun w s => exists version tag c serial, w = version ++ serial /\ tlv_word tag c version /\ tlv_word 2 s serial)).
    { eapply parses_iff; [apply parses_bind; [apply parses_read_tlv|intros ?; apply parses_expect_tag]|]. intros w x. split.
      - intros (w1 & w2 & [[tag c] raw] & -> & [-> Hv] & Hs). by exists w1, tag, c, w2.
      - intros (v & tag & c & sw & -> & Hv & Hs). by exists v, sw, (tag, c, v). }
    change (((_ ← (_ ← read_tlv; mret tt); expect_tag 2) : reader (list Z)) b = Some (s, b') <-> exists w, b = w ++ b' /\
      exists version serial, w = version ++ serial /\ (version = [] \/ exists c, tlv_word 160 c version) /\ tlv_word 2 s serial).
    transitivity (((_ ← read_tlv; expect_tag 2) : reader (list Z)) b = Some (s, b')).
    { unfold mbind, reader_bind. by destruct (read_tlv b) as [[? ?]|]. }
    rewrite (Hp b s b' Hm). split.
    + intros (w & -> & v & tag & c & sw & -> & Hv & Hs). exists (v ++ sw). split; [done|]. exists v, sw. split_and!; [done| |done].
      right. pose proof Hv as (lw & n & -> & _). injection Hh as ->. by exists c.
    + intros (w & -> & v & sw & -> & [->|[c Hv]] & Hs).
      * destruct Hs as (lw & n & -> & _). done.
      * exists (v ++ sw). split; [done|]. by exists v, 160, c, sw.
  - rewrite (parses_expect_tag m 2 b s b' Hm). split.
    + intros (w & -> & Hs). exists w. split; [done|]. exists [], w. split_and!; [done|by left|done].
    + intros (w & -> & v & sw & -> & [->|[c (lw & n & -> & _)]] & Hs); [by exists sw|done].
Qed.

(** [?] and guards, one by one. *)
Lemma guard_bind {A} P `{Decision P} (o : option A) x : (_ ← guard P; o) = Some x <-> P /\ o = Some x.
Proof.
  case_guard as HP; cbn; split.
  - intros Ho. by split.
  - by intros [_ Ho].
  - done.
  - by intros [HP' _].
Qed.

Lemma parse_tbs_spec tbs p : parse_tbs tbs = Some p <-> tbs_word tbs p.
Proof.
  assert (Hbody : forall body : list Z, parses (length body) read_tbs_body (fun w p =>
    exists version serial sigalg validity spki_w spki_body s v i u,
    w = version ++ serial ++ sigalg ++ issuer p ++ validity ++ subject p ++ spki_w /\
    (version = [] \/ exists c, tlv_word 160 c version) /\
    tlv_word 2 s serial /\ tlv_word 48 ECDSA_WITH_SHA384_ALGID_BODY sigalg /\
    tlv_word 48 i (issuer p) /\ tlv_word 48 v validity /\ tlv_word 48 u (subject p) /\
    tlv_word 48 spki_body spki_w /\ spki_word spki_body (spki p))).
  { intros body. eapply parses_ext with (r := (_ ← (_ ← read_version; expect_tag 2); read_tbs_fields)).
    { intros b. unfold read_tbs_body, mbind, reader_bind. by destruct (read_version b) as [[? ?]|]. }
    eapply parses_iff; [apply parses_bind; [apply parses_version_serial|intros ?; apply parses_bind; [apply parses_expect_tag|intros ?;
      apply parses_bind; [apply parses_assert|intros ?; apply parses_bind; [apply parses_raw_of_tag|intros ?;
      apply parses_bind; [apply parses_raw_of_tag|intros ?; apply parses_bind; [apply parses_raw_of_tag|intros ?;
      apply parses_bind; [apply parses_expect_tag|intros ?; apply parses_bind; [apply parses_expect|intros ?; apply parses_ret]]]]]]]]|].
    intros w q. split.
    - intros (w1 & w2 & s & -> & (ver & ser & -> & Hv & Hs) & sa & w3 & alg & -> & Ha & w4 & w5 & [] & -> & [-> ->] &
        iw & w6 & ir & -> & [-> [i Hi]] & vw & w7 & vr & -> & [-> [v Hval]] & uw & w8 & ur & -> & [-> [u Hu]] &
        kw & w9 & kb & -> & Hk & w10 & w11 & key & -> & [-> Hkey] & -> & ->).
      apply read_spki_spec in Hkey. exists ver, ser, sa, vw, kw, kb, s, v, i, u. cbn [issuer subject spki].
      split_and!; try done. by rewrite !app_nil_l, !app_nil_r, <- !app_assoc.
    - intros (ver & ser & sa & vw & kw & kb & s & v & i & u & -> & Hv & Hs & Ha & Hi & Hval & Hu & Hk & Hkey).
      exists (ver ++ ser), (sa ++ issuer q ++ vw ++ subject q ++ kw), s. split_and!; [by rewrite <- app_assoc|by exists ver, ser|].
      eexists sa, _, _. split_and!; [done|exact Ha|]. eexists [], _, tt. split_and!; [done|done|done|].
      eexists (issuer q), _, (issuer q). split_and!; [done|done|by exists i|].
      eexists vw, _, vw. split_and!; [done|done|by exists v|]. eexists (subject q), _, (subject q). split_and!; [done|done|by exists u|].
      exists kw, [], kb. split_and!; [by rewrite app_nil_r|done|]. exists [], [], (spki q). split_and!; [done|done|by apply read_spki_spec|done|by destruct q]. }
  unfold parse_tbs. split.
  - destruct (read_tlv tbs) as [[[[tag body] raw] rest]|] eqn:E; [|done].
    apply (parses_read_tlv (length tbs)) in E as (w & -> & -> & Hw); [|done].
    cbn -[guard]. rewrite !guard_bind. intros (-> & -> & Hb). rewrite app_nil_r.
    destruct (read_tbs_body body) as [[q rest]|] eqn:Eb; [|done]. injection Hb as ->.
    apply (Hbody body body p rest ltac:(done)) in Eb as (w' & -> & ver & ser & sa & vw & kw & kb & s & v & i & u & -> & Hrest).
    exists (ver ++ ser ++ sa ++ issuer p ++ vw ++ subject p ++ kw ++ rest), ver, ser, sa, vw, kw, kb, rest, s, v, i, u.
    split; [|by split]. rewrite <- !app_assoc in Hw. exact Hw.
  - intros (body & ver & ser & sa & vw & kw & kb & rest & s & v & i & u & Hw & -> & Hrest).
    assert (E : read_tlv tbs = Some ((48, ver ++ ser ++ sa ++ issuer p ++ vw ++ subject p ++ kw ++ rest, tbs), [])).
    { apply (parses_read_tlv (length tbs)); [done|]. exists tbs. by rewrite app_nil_r. }
    rewrite E. cbn -[guard]. rewrite !guard_bind. split_and!; [done|done|].
    assert (Eb : read_tbs_body (ver ++ ser ++ sa ++ issuer p ++ vw ++ subject p ++ kw ++ rest) = Some (p, rest)); [|by rewrite Eb].
    apply (Hbody _ _ _ _ (Nat.le_refl _)). exists (ver ++ ser ++ sa ++ issuer p ++ vw ++ subject p ++ kw). split; [by rewrite <- !app_assoc|].
    by exists ver, ser, sa, vw, kw, kb, s, v, i, u.
Qed.

(** ** The chain *)

Section Attestation.
Context `{Keccak, NitroCrypto}.

(** From a trusted subject and key to the key of the last certificate. *)
Inductive chain_ok : list Z -> list Z -> list CertData -> list Z -> Prop :=
  | chain_nil subj key : chain_ok subj key [] key
  | chain_cons key cert p certs leaf :
      tbs_word (cert_tbs cert) p ->
      p384_verify_der key (cert_tbs cert) (cert_signature cert) = true ->
      chain_ok (subject p) (spki p) certs leaf ->
      chain_ok (issuer p) key (cert :: certs) leaf.

Lemma walk_chain_spec root_subject certs : forall prev subj key leaf,
  match prev with
  | None => subj = root_subject
  | Some c => exists p, parse_tbs (cert_tbs c) = Some p /\ subj = subject p
  end ->
  walk_chain root_subject prev key certs = Some leaf <-> chain_ok subj key certs leaf.
Proof.
  induction certs as [|cert certs IH]; intros prev subj key leaf Hprev.
  { cbn. split; [intros [= ->]; constructor|]. by inversion 1. }
  assert (Hsubj : match prev with None => Some root_subject | Some c => subject <$> parse_tbs (cert_tbs c) end = Some subj).
  { destruct prev as [c|]; [|by subst]. by destruct Hprev as (p & -> & ->). }
  cbn [walk_chain]. split.
  - destruct (parse_tbs (cert_tbs cert)) as [p|] eqn:Ep; [|done]. cbn -[guard walk_chain]. rewrite Hsubj. cbn -[guard walk_chain].
    rewrite !guard_bind. intros (<- & Hv & Hw). apply (IH (Some cert) (subject p)) in Hw; [|by exists p].
    by econstructor; [apply parse_tbs_spec|..].
  - inversion 1 as [|? ? p ? ? Hp Hv Hc]; subst. apply parse_tbs_spec in Hp. rewrite Hp. cbn -[guard walk_chain].
    rewrite Hsubj. cbn -[guard walk_chain]. rewrite !guard_bind. split_and!; [done|done|].
    apply (IH (Some cert) (subject p)); [by exists p|done].
Qed.

(** What has to be signed by whom for a key to be accepted. *)
Definition attested (mainnet : bool) (input : GuestInput) (user_key : list Z) (ms : Z) : Prop :=
  sha384 (root_pubkey input) = EXPECTED_ROOT_PUBKEY_HASH /\ sha384 (root_subject input) = EXPECTED_ROOT_SUBJECT_HASH /\
  length (root_pubkey input) = 97%nat /\ chain input <> [] /\ length (cose_signature input) = 96%nat /\
  (exists leaf, chain_ok (root_subject input) (root_pubkey input) (chain input) leaf /\
    p384_verify_raw leaf (build_sig_structure (cose_protected input) (cose_payload input)) (cose_signature input) = true) /\
  attests (cose_payload input) (EXPECTED_PCR0 mainnet) user_key ms /\
  length user_key = 65%nat /\ nth 0 user_key 0 = 4 /\ 0 < ms.

Lemma verify_spec mainnet input word t :
  verify mainnet input = Some (word, t) <->
  exists user_key ms, attested mainnet input user_key ms /\
    word = replicate 12 0 ++ drop 12 (keccak256 (drop 1 user_key)) /\ t = ms / 1000.
Proof.
  assert (Hw : forall leaf, walk_chain (root_subject input) None (root_pubkey input) (chain input) = Some leaf <->
    chain_ok (root_subject input) (root_pubkey input) (chain input) leaf) by (intros; by apply walk_chain_spec).
  unfold verify, attested. rewrite !guard_bind. split.
  - intros (H1 & H2 & H3 & H4 & E). destruct (walk_chain _ _ _ _) as [leaf|] eqn:Ew; [|done]. cbn -[guard] in E.
    rewrite !guard_bind in E. destruct E as (H5 & H6 & E).
    destruct (parse_attestation_doc _) as [[[pcr user_key] ms]|] eqn:Ed; [|done]. cbn -[guard] in E.
    rewrite !guard_bind in E. destruct E as (-> & H8 & H9 & H10 & [= <- <-]).
    apply parse_attestation_doc_spec in Ed. exists user_key, ms. split_and!; try done. exists leaf. split; [by apply Hw|done].
  - intros (user_key & ms & (H1 & H2 & H3 & H4 & H5 & (leaf & Hc & H6) & H7 & H8 & H9 & H10) & -> & ->).
    split_and!; try done. apply Hw in Hc. rewrite Hc. cbn -[guard]. rewrite !guard_bind. split_and!; [done|done|].
    apply parse_attestation_doc_spec in H7. rewrite H7. cbn -[guard]. by rewrite !guard_bind.
Qed.

(** The timestamp of a document made of bytes fits 64 bits. *)
Lemma head_arg_bound h major n : Bytes h -> head_word h (major, Some n) -> 0 <= n < 2 ^ 64.
Proof.
  intros Hb (ib & arg & -> & _ & Hw & ->). inversion_clear Hb as [|?? Hib Harg]. unfold is_byte in Hib.
  case_decide as Hi; [split; [apply Z.land_nonneg; lia|lia]|].
  pose proof (be_decode_bound arg Harg). assert (length arg <= 8)%nat.
  { unfold arg_width in Hw. repeat case_decide; try done; injection Hw as <-; lia. }
  split; [lia|]. eapply Z.lt_le_trans; [apply H1|]. apply Z.pow_le_mono_r; lia.
Qed.

Lemma entries_timestamp w es ms : seq_word entry_word w es -> Bytes w -> timestamps es = [ms] -> 0 <= ms < 2 ^ 64.
Proof.
  induction 1 as [|w e ws es (kw & vw & key & -> & _ & He) _ IH]; [done|].
  intros Hb Et. apply Forall_app in Hb as [Hb Hbs]. apply Forall_app in Hb as [_ Hv].
  destruct e as [ps|s|n|k]; try exact (IH Hbs Et). unfold timestamps in Et. cbn in Et.
  injection Et as -> _. destruct He as [_ He]. exact (head_arg_bound vw 0 ms Hv He).
Qed.

Lemma attests_timestamp payload pcr user_key ms : Bytes payload -> attests payload pcr user_key ms -> 0 <= ms < 2 ^ 64.
Proof.
  intros Hb (w & rest & es & -> & (h & len & b & -> & _ & Hm) & _ & _ & Ht).
  apply Forall_app in Hb as [Hb _]. apply Forall_app in Hb as [_ Hb].
  destruct len as [n|]; [destruct Hm as [Hm _]; by eapply entries_timestamp|].
  destruct Hm as (u & -> & Hm). apply Forall_app in Hb as [Hb _]. by eapply entries_timestamp.
Qed.

Lemma decode_committed address t :
  length address = 20%nat -> 0 <= t < 2 ^ 64 ->
  decode_public_values ((replicate 12 0 ++ address) ++ replicate 24 0 ++ be_encode 8 t) = Ok (address, t).
Proof.
  intros Ha Ht. unfold decode_public_values. rewrite decide_False.
  2: { rewrite !length_app, !length_replicate, length_be_encode, Ha. by intros []. }
  unfold slice. rewrite !decide_True by (rewrite !length_app, !length_replicate, length_be_encode, Ha; lia).
  cbn [mbind outcome_bind]. do 10 (destruct address as [|? address]; [done|]).
  do 10 (destruct address as [|? address]; [done|]). destruct address; [|done].
  pose proof (be_round_trip 8 t ltac:(lia)) as E. remember (be_encode 8 t) as bytes eqn:Eb.
  assert (Hl : length bytes = 8%nat) by (subst; apply length_be_encode). clear Eb.
  do 8 (destruct bytes as [|? bytes]; [done|]). destruct bytes; [|done]. cbn -[be_decode]. by rewrite E.
Qed.

(** What the L1 client reads of committed values. *)
Lemma guest_main_decodes mainnet input out : Bytes (cose_payload input) ->
  guest_main mainnet input = Some out ->
  exists user_key ms, attested mainnet input user_key ms /\
    decode_public_values out = Ok (drop 12 (keccak256 (drop 1 user_key)), ms / 1000).
Proof.
  unfold guest_main. intros Hb E. destruct (verify mainnet input) as [[word t]|] eqn:Ev; [|done]. injection E as <-.
  apply verify_spec in Ev as (user_key & ms & Ha & -> & ->). exists user_key, ms. split; [done|].
  pose proof Ha as (_ & _ & _ & _ & _ & _ & Hdoc & _). apply attests_timestamp in Hdoc; [|done].
  rewrite <- (decode_committed (drop 12 (keccak256 (drop 1 user_key)))).
  - done.
  - by rewrite length_drop, keccak256_length.
  - dlia.
Qed.
End Attestation.

(** C10: the attestation guest vouches exactly for attested keys.  It commits
    public values if and only if the certificates chain from the anchored AWS
    root to a leaf key, each signed by the one before it and naming it as its
    issuer, the leaf signed the document, and the document, a CBOR map with
    exactly one image measurement, one key and one time, names the expected
    enclave image and a non-zero time.  What the L1 client decodes from the
    public values is the address of that key and that time in seconds. *)
Theorem guest_commits_attested_key `{Keccak, NitroCrypto} mainnet input (Hb : Bytes (cose_payload input)) :
  (forall user_key ms, attested mainnet input user_key ms ->
    guest_main mainnet input = Some ((replicate 12 0 ++ drop 12 (keccak256 (drop 1 user_key))) ++ replicate 24 0 ++ be_encode 8 (ms / 1000))) /\
  (forall out, guest_main mainnet input = Some out ->
    exists user_key ms, attested mainnet input user_key ms /\
      decode_public_values out = Ok (drop 12 (keccak256 (drop 1 user_key)), ms / 1000)).
Proof.
  split; [|intros out; by apply guest_main_decodes]. intros user_key ms Ha. unfold guest_main.
  assert (E : verify mainnet input = Some (replicate 12 0 ++ drop 12 (keccak256 (drop 1 user_key)), ms / 1000))
    by (apply verify_spec; by exists user_key, ms).
  by rewrite E.
Qed.

(** C25: the document reader and the signed structure leave no ambiguity.  The
    reader finds a measurement, a key and a time in a payload exactly when the
    payload starts with a CBOR map of well-formed entries that holds each of
    them once, in definite or indefinite lengths; and two documents with the
    same signed structure are the same. *)
Theorem attestation_document_unambiguous payload pcr user_key ms :
  (parse_attestation_doc payload = Some (pcr, user_key, ms) <->
   exists w rest es, payload = w ++ rest /\ map_word entry_word w es /\
     pcr0s es = [pcr] /\ user_datas es = [user_key] /\ timestamps es = [ms]) /\
  forall protected protected' payload',
    Z.of_nat (length protected) < 2 ^ 64 -> Z.of_nat (length protected') < 2 ^ 64 ->
    Z.of_nat (length payload) < 2 ^ 64 -> Z.of_nat (length payload') < 2 ^ 64 ->
    build_sig_structure protected payload = build_sig_structure protected' payload' ->
    protected = protected' /\ payload = payload'.
Proof.
  split; [apply parse_attestation_doc_spec|]. intros protected protected' payload' H1 H2 H3 H4.
  by apply build_sig_structure_inj.
Qed.

(** ** An attestation under a toy signature scheme: a root that signs a leaf,
    and a document with an extra entry, in indefinite length *)
#[local] Instance toy_keccak : Keccak := {|
  keccak256 b := replicate 31 0 ++ [u8 (be_decode b)];
  keccak256_length b := eq_refl;
  keccak256_bytes b := ltac:(repeat constructor; try lia; unfold u8; apply Z.mod_pos_bound; lia) |}.
#[local] Instance toy_nitro : NitroCrypto := {|
  sha384 b := if decide (length b = 97%nat) then EXPECTED_ROOT_PUBKEY_HASH else EXPECTED_ROOT_SUBJECT_HASH;
  p384_verify_der key tbs sig := bool_decide (sig = drop 96 key);
  p384_verify_raw key data sig := bool_decide (drop 95 sig = drop 96 key) |}.

Definition der_element (tag : Z) (content : list Z) : list Z :=
  let n := Z.of_nat (length content) in tag :: (if decide (n < 128) then [n] else 130 :: be_encode 2 n) ++ content.
Definition sample_subject : list Z := der_element 48 [1; 2; 3].
Definition sample_tbs : list Z :=
  der_element 48 (der_element 160 [2; 1; 2] ++ der_element 2 [9] ++ der_element 48 ECDSA_WITH_SHA384_ALGID_BODY ++
    sample_subject ++ der_element 48 [] ++ der_element 48 [7] ++
    der_element 48 (der_element 48 [] ++ der_element 3 (0 :: 4 :: replicate 95 6 ++ [8]))).
Definition sample_user_key : list Z := 4 :: replicate 63 0 ++ [77].
Definition text_item (s : string) : list Z :=
  let b := ascii_bytes s in push_cbor_head 3 (Z.of_nat (length b)) ++ b.
Definition bytes_item (b : list Z) : list Z := push_cbor_head 2 (Z.of_nat (length b)) ++ b.
Definition sample_payload : list Z :=
  [191] ++ text_item "digest" ++ [131; 1; 246; 95; 65; 5; 255] ++ text_item "timestamp" ++ push_cbor_head 0 1700000000500 ++
  text_item "pcrs" ++ push_cbor_head 5 2 ++ push_cbor_head 0 0 ++ bytes_item (EXPECTED_PCR0 true) ++ push_cbor_head 0 1 ++ bytes_item [1] ++
  text_item "user_data" ++ bytes_item sample_user_key ++ [255].
Definition sample_attestation : GuestInput := {|
  root_pubkey := 4 :: replicate 95 5 ++ [3]; root_subject := sample_subject;
  chain := [{| cert_tbs := sample_tbs; cert_signature := [3] |}];
  cose_protected := [161]; cose_payload := sample_payload; cose_signature := replicate 95 0 ++ [8] |}.

Definition sample_committed : list Z := replicate 31 0 ++ [77] ++ replicate 24 0 ++ be_encode 8 1700000000.

Lemma guest_commits_attested_key_witness :
  guest_main true sample_attestation = Some sample_committed /\
  exists user_key ms, attested true sample_attestation user_key ms /\
    decode_public_values sample_committed = Ok (drop 12 (keccak256 (drop 1 user_key)), ms / 1000).
Proof.
  assert (E : guest_main true sample_attestation = Some sample_committed) by (vm_compute; reflexivity).
  split; [exact E|].
  assert (Hb : Bytes (cose_payload sample_attestation)) by (apply (bool_decide_unpack _); vm_compute; exact I).
  exact (proj2 (guest_commits_attested_key true sample_attestation Hb) sample_committed E).
Defined.

Lemma attestation_document_unambiguous_witness :
  (exists w rest es, sample_payload = w ++ rest /\ map_word entry_word w es /\
    pcr0s es = [EXPECTED_PCR0 true] /\ user_datas es = [sample_user_key] /\ timestamps es = [1700000000500]) /\
  (forall payload', Z.of_nat (length payload') < 2 ^ 64 ->
    build_sig_structure [161] sample_payload = build_sig_structure [161] payload' -> sample_payload = payload').
Proof.
  destruct (attestation_document_unambiguous sample_payload (EXPECTED_PCR0 true) sample_user_key 1700000000500) as [H1 H2].
  split; [apply H1; vm_compute; reflexivity|].
  intros payload' Hl E. refine (proj2 (H2 [161] [161] payload' _ _ _ Hl E)); [by vm_compute..|].
  apply Z.ltb_lt. vm_compute. reflexivity.
Defined.
