(* ===== verification/Frames.v ===== *)
(** * Messages over a vsock stream

    A message is its length in four bytes, most significant first, and its
    bytes.  Both ends of the enclave's socket: [Proxy] is the framing of
    [bin/proxy/src/enclave.rs], [VsockChannel] that of
    [bin/client/src/nitro/vsock.rs].  The stream is behind calls; [pipe] is a
    stream that delivers what was written to it. *)
From S2P Require Import Prelude BytesCodec Interaction.
From stdpp Require Import strings.
#[local] Open Scope Z_scope.

(** [data.len() as u32]. *)
Definition u32 (z : Z) : Z := z mod 2 ^ 32.

Inductive StreamCall : Type -> Type :=
  | WriteAll (data : list Z) : StreamCall (outcome string unit)
  | Flush : StreamCall (outcome string unit)
  | ReadExact (n : Z) : StreamCall (outcome string (list Z)).

#[local] Abbreviation io := (eff StreamCall string).

Module Proxy.
Definition MAX_FRAME_SIZE : Z := 64 * 1024 * 1024.

Definition write_frame (data : list Z) : io unit :=
  let len := u32 (Z.of_nat (length data)) in
  _ ← wrap_err "Failed to write length prefix" (ask (WriteAll (be_encode 4 len)));
  _ ← wrap_err "Failed to write payload" (ask (WriteAll data));
  _ ← wrap_err "Failed to flush stream" (ask Flush);
  mret tt.

Definition read_frame : io (list Z) :=
  len_buf ← wrap_err "Failed to read length prefix" (ask (ReadExact 4));
  let len := be_decode len_buf in
  if decide (MAX_FRAME_SIZE < len) then throw ("Response frame too large: " +:+ str len)
  else wrap_err "Failed to read payload" (ask (ReadExact len)).
End Proxy.

Module VsockChannel.
(** [params.rs]. *)
Definition MAX_FRAME_SIZE : Z := 512 * 1024 * 1024.

Definition write_frame (data : list Z) : io unit :=
  if decide (Z.of_nat (length data) < 2 ^ 32) then
    _ ← context "Failed to write length prefix: " (ask (WriteAll (be_encode 4 (Z.of_nat (length data)))));
    _ ← context "Failed to write payload: " (ask (WriteAll data));
    _ ← context "Failed to flush stream: " (ask Flush);
    mret tt
  else throw ("Outgoing frame size (" +:+ str (Z.of_nat (length data)) +:+ ") exceeds u32::MAX").

(** [bincode] is the serialization of the response. *)
Definition send_bincode (serialized : outcome string (list Z)) : io unit :=
  serialized ← context "Bincode serialization failed: " (of_outcome serialized);
  write_frame serialized.

Definition receive : io (list Z) :=
  len_buf ← context "Failed to read length prefix: " (ask (ReadExact 4));
  let len := be_decode len_buf in
  if decide (MAX_FRAME_SIZE < len) then throw ("Incoming frame size (" +:+ str len +:+ " bytes) exceeds the maximum limit")
  else context "Failed to read payload: " (ask (ReadExact len)).
End VsockChannel.

(** ** A stream that delivers every byte, in order *)

Definition pipe (R : Type) (c : StreamCall R) (s : list Z) : R * list Z :=
  match c in StreamCall R return R * list Z with
  | WriteAll data => (Ok tt, s ++ data)
  | Flush => (Ok tt, s)
  | ReadExact n =>
      if decide (n <= Z.of_nat (length s)) then (Ok (take (Z.to_nat n) s), drop (Z.to_nat n) s)
      else (Err "failed to fill whole buffer", [])
  end.

(** The answer of a program on a stream holding [s], and what it leaves. *)
Definition on_pipe {A} (p : io A) (s : list Z) : outcome string A * list Z := eval pipe p s.

Lemma on_pipe_bind {A B} (p : io A) (k : A -> io B) s :
  on_pipe (p ≫= k) s =
  match on_pipe p s with
  | (Ok a, s) => on_pipe (k a) s
  | (Err e, s) => (Err e, s)
  | (Panic, s) => (Panic, s)
  end.
Proof. apply eval_bind. Qed.

Lemma on_pipe_last {A} (h : string -> string) (c : StreamCall (outcome string A)) s :
  on_pipe (map_err_p h (trigger c)) s = (map_err h (pipe _ c s).1, (pipe _ c s).2).
Proof. unfold on_pipe. rewrite eval_map_err, eval_trigger. by destruct (pipe _ c s). Qed.

Lemma on_pipe_ask {A B} (h : string -> string) (c : StreamCall (outcome string A)) (k : A -> io B) s :
  on_pipe (map_err_p h (trigger c) ≫= k) s =
  match pipe _ c s with
  | (Ok a, s) => on_pipe (k a) s
  | (Err e, s) => (Err (h e), s)
  | (Panic, s) => (Panic, s)
  end.
Proof. rewrite on_pipe_bind, on_pipe_last. by destruct (pipe _ c s) as [[a|e|] s']. Qed.

Lemma pipe_read n a b : Z.of_nat (length a) = n -> pipe _ (ReadExact n) (a ++ b) = (Ok a, b).
Proof.
  intros <-. cbn. rewrite decide_True by (rewrite length_app; lia).
  by rewrite Nat2Z.id, take_app_length, drop_app_length.
Qed.

(** ** Frames *)

Definition frame (data : list Z) : list Z := be_encode 4 (u32 (Z.of_nat (length data))) ++ data.

Lemma u32_small n : 0 <= n < 2 ^ 32 -> u32 n = n.
Proof. apply Z.mod_small. Qed.

Lemma u32_bound n : 0 <= u32 n < 2 ^ 32.
Proof. apply Z.mod_pos_bound. lia. Qed.

Lemma proxy_writes data s : on_pipe (Proxy.write_frame data) s = (Ok tt, s ++ frame data).
Proof.
  unfold Proxy.write_frame, wrap_err, ask. rewrite !on_pipe_ask. cbn [pipe].
  rewrite on_pipe_ask. cbn [pipe]. rewrite on_pipe_ask. cbn [pipe]. unfold frame. by rewrite app_assoc.
Qed.

Lemma enclave_writes data s :
  on_pipe (VsockChannel.write_frame data) s =
  if decide (Z.of_nat (length data) < 2 ^ 32) then (Ok tt, s ++ frame data)
  else (Err ("Outgoing frame size (" +:+ str (Z.of_nat (length data)) +:+ ") exceeds u32::MAX"), s).
Proof.
  unfold VsockChannel.write_frame. destruct (decide (Z.of_nat (length data) < 2 ^ 32)) as [H|H]; [|done].
  unfold context, ask. rewrite !on_pipe_ask. cbn [pipe].
  rewrite on_pipe_ask. cbn [pipe]. rewrite on_pipe_ask. cbn [pipe].
  unfold frame. rewrite u32_small by lia. by rewrite app_assoc.
Qed.

Section Readers.
Context (max : Z) (too_large : Z -> string) (h1 h2 : string -> string).
Definition reader : io (list Z) :=
  len_buf ← map_err_p h1 (ask (ReadExact 4));
  let len := be_decode len_buf in
  if decide (max < len) then throw (too_large len) else map_err_p h2 (ask (ReadExact len)).

(** What is read of a frame: its data, unless it is too large, or longer than
    its prefix says. *)
Lemma reads data s : let n := u32 (Z.of_nat (length data)) in
  on_pipe reader (frame data ++ s) =
  if decide (max < n) then (Err (too_large n), data ++ s)
  else (Ok (take (Z.to_nat n) data), drop (Z.to_nat n) data ++ s).
Proof.
  intros n. unfold reader, ask. rewrite on_pipe_ask. unfold frame. rewrite <- app_assoc.
  rewrite (pipe_read 4 (be_encode 4 (u32 (Z.of_nat (length data))))) by by rewrite length_be_encode.
  pose proof (u32_bound (Z.of_nat (length data))). rewrite be_round_trip by exact H. fold n.
  destruct (decide (max < n)) as [Hm|Hm]; [done|]. rewrite on_pipe_last.
  assert (Hn : (Z.to_nat n <= length data)%nat).
  { assert (n <= Z.of_nat (length data)) by (unfold n, u32; apply Z.mod_le; lia). lia. }
  rewrite <- (take_drop (Z.to_nat n) data) at 1 2. rewrite <- app_assoc.
  by rewrite (pipe_read n (take (Z.to_nat n) data)) by (rewrite length_take; lia).
Qed.
End Readers.

Lemma proxy_reads data s : let n := u32 (Z.of_nat (length data)) in
  on_pipe Proxy.read_frame (frame data ++ s) =
  if decide (Proxy.MAX_FRAME_SIZE < n) then (Err ("Response frame too large: " +:+ str n), data ++ s)
  else (Ok (take (Z.to_nat n) data), drop (Z.to_nat n) data ++ s).
Proof. exact (reads Proxy.MAX_FRAME_SIZE (fun n => "Response frame too large: " +:+ str n) _ _ data s). Qed.

Lemma enclave_reads data s : let n := u32 (Z.of_nat (length data)) in
  on_pipe VsockChannel.receive (frame data ++ s) =
  if decide (VsockChannel.MAX_FRAME_SIZE < n) then
    (Err ("Incoming frame size (" +:+ str n +:+ " bytes) exceeds the maximum limit"), data ++ s)
  else (Ok (take (Z.to_nat n) data), drop (Z.to_nat n) data ++ s).
Proof.
  exact (reads VsockChannel.MAX_FRAME_SIZE
    (fun n => "Incoming frame size (" +:+ str n +:+ " bytes) exceeds the maximum limit") _ _ data s).
Qed.

(** Many writers, then as many readers. *)
Lemma writes_all (w : list Z -> io unit) msgs :
  Forall (fun data => forall s, on_pipe (w data) s = (Ok tt, s ++ frame data)) msgs -> forall s,
  on_pipe (mapM w msgs) s = (Ok (replicate (length msgs) tt), s ++ concat (map frame msgs)).
Proof.
  induction 1 as [|data msgs Hw _ IH]; intros s; [by rewrite app_nil_r|].
  cbn [mapM length replicate map concat]. rewrite on_pipe_bind, Hw, on_pipe_bind, IH. by rewrite <- app_assoc.
Qed.

Lemma reads_all (r : io (list Z)) msgs :
  Forall (fun data => forall s, on_pipe r (frame data ++ s) = (Ok data, s)) msgs -> forall s,
  on_pipe (mapM (fun _ : list Z => r) msgs) (concat (map frame msgs) ++ s) = (Ok msgs, s).
Proof.
  induction 1 as [|data msgs Hr _ IH]; intros s; [done|].
  cbn [mapM map concat]. rewrite on_pipe_bind, <- app_assoc, Hr, on_pipe_bind, IH. done.
Qed.

Lemma crosses (w : list Z -> io unit) (r : io (list Z)) msgs :
  Forall (fun data => forall s, on_pipe (w data) s = (Ok tt, s ++ frame data)) msgs ->
  Forall (fun data => forall s, on_pipe r (frame data ++ s) = (Ok data, s)) msgs ->
  on_pipe (mapM w msgs ≫= fun _ => mapM (fun _ => r) msgs) [] = (Ok msgs, []).
Proof.
  intros Hw Hr. rewrite on_pipe_bind, (writes_all w msgs Hw). cbn [app].
  rewrite <- (app_nil_r (concat (map frame msgs))). by apply reads_all.
Qed.

Lemma enclave_reads_whole data s : Z.of_nat (length data) <= VsockChannel.MAX_FRAME_SIZE ->
  on_pipe VsockChannel.receive (frame data ++ s) = (Ok data, s).
Proof.
  intros H. rewrite enclave_reads. unfold VsockChannel.MAX_FRAME_SIZE in *.
  rewrite u32_small by lia. rewrite decide_False by lia.
  by rewrite Nat2Z.id, firstn_all, drop_all.
Qed.

Lemma proxy_reads_whole data s : Z.of_nat (length data) <= Proxy.MAX_FRAME_SIZE ->
  on_pipe Proxy.read_frame (frame data ++ s) = (Ok data, s).
Proof.
  intros H. rewrite proxy_reads. unfold Proxy.MAX_FRAME_SIZE in *.
  rewrite u32_small by lia. rewrite decide_False by lia.
  by rewrite Nat2Z.id, firstn_all, drop_all.
Qed.


