(* ===== verification/ProxyDb.v ===== *)
(** * The proxy's SQLite store ([bin/proxy/src/db.rs])

    Two tables, as maps from the primary key to the row.  A statement that
    fails is logged and forgotten, and a poisoned lock gives no store at all, so
    a caller sees either the answer of a statement or nothing: [answers] is that
    choice, made by the environment. *)
From S2P Require Import Prelude.
From stdpp Require Import strings.
#[local] Open Scope Z_scope.

(** [pending_attestation], keyed by the public key. *)
Record PendingRow : Type := {
  attestation : list Z;
  request_id : option (list Z);
  pa_created_at : Z }.

(** The [status] column only ever holds these texts. *)
Inductive Status : Type :=
  | Pending
  | Completed
  | Failed.

(** [challenges], keyed by the challenge id. *)
Record ChallengeRow : Type := {
  sp1_request_id : option (list Z);
  ch_block_number : Z;
  status : Status;
  proof_bytes : option (list Z);
  public_values : option (list Z);
  vk_hash : option (list Z);
  error : option string;
  ch_created_at : Z }.

#[export] Instance PendingRow_eq_dec : EqDecision PendingRow.
Proof. solve_decision. Defined.
#[export] Instance Status_eq_dec : EqDecision Status.
Proof. solve_decision. Defined.
#[export] Instance ChallengeRow_eq_dec : EqDecision ChallengeRow.
Proof. solve_decision. Defined.

Record Db : Type := {
  pending_attestation : gmap (list Z) PendingRow;
  challenges : gmap (list Z) ChallengeRow }.

(** [Db::open] of a new file; the tables of an old one are kept. *)
Definition open : Db := {| pending_attestation := ∅; challenges := ∅ |}.

Definition with_pending (f : gmap (list Z) PendingRow -> gmap (list Z) PendingRow) (d : Db) : Db :=
  {| pending_attestation := f (pending_attestation d); challenges := challenges d |}.
Definition with_challenges (f : gmap (list Z) ChallengeRow -> gmap (list Z) ChallengeRow) (d : Db) : Db :=
  {| pending_attestation := pending_attestation d; challenges := f (challenges d) |}.

(** ** Pending attestations *)

(** [ON CONFLICT(public_key) DO NOTHING]. *)
Definition insert_pending_attestation (pk att : list Z) (now : Z) : Db -> Db :=
  with_pending (fun t =>
    match t !! pk with
    | Some _ => t
    | None => <[pk := {| attestation := att; request_id := None; pa_created_at := now |}]> t
    end).

Definition load_pending_attestations (d : Db) : list (list Z * list Z) :=
  prod_map id attestation <$> map_to_list (pending_attestation d).

(** [B256::try_from] of the column. *)
Definition get_request_id (pk : list Z) (d : Db) : option (list Z) :=
  id ← pending_attestation d !! pk ≫= request_id;
  if decide (length id = 32%nat) then Some id else None.

Definition set_column (id : option (list Z)) (r : PendingRow) : PendingRow :=
  {| attestation := attestation r; request_id := id; pa_created_at := pa_created_at r |}.
Definition set_request_id (pk id : list Z) : Db -> Db := with_pending (alter (set_column (Some id)) pk).
Definition clear_request_id (pk : list Z) : Db -> Db := with_pending (alter (set_column None) pk).
Definition delete_pending_attestation (pk : list Z) : Db -> Db := with_pending (delete pk).

(** ** Challenges *)

(** A second row under the same id is a failed statement. *)
Definition create_challenge (cid : list Z) (block_number now : Z) : Db -> Db :=
  with_challenges (fun t =>
    match t !! cid with
    | Some _ => t
    | None => <[cid := {| sp1_request_id := None; ch_block_number := block_number; status := Pending;
                          proof_bytes := None; public_values := None; vk_hash := None; error := None;
                          ch_created_at := now |}]> t
    end).

Definition update_challenge_sp1_request_id (cid id : list Z) : Db -> Db :=
  with_challenges (alter (fun r =>
    {| sp1_request_id := Some id; ch_block_number := ch_block_number r; status := status r;
       proof_bytes := proof_bytes r; public_values := public_values r; vk_hash := vk_hash r;
       error := error r; ch_created_at := ch_created_at r |}) cid).

Definition set_challenge_completed (cid proof values vk : list Z) : Db -> Db :=
  with_challenges (alter (fun r =>
    {| sp1_request_id := sp1_request_id r; ch_block_number := ch_block_number r; status := Completed;
       proof_bytes := Some proof; public_values := Some values; vk_hash := Some vk;
       error := error r; ch_created_at := ch_created_at r |}) cid).

Definition set_challenge_failed (cid : list Z) (msg : string) : Db -> Db :=
  with_challenges (alter (fun r =>
    {| sp1_request_id := sp1_request_id r; ch_block_number := ch_block_number r; status := Failed;
       proof_bytes := proof_bytes r; public_values := public_values r; vk_hash := vk_hash r;
       error := Some msg; ch_created_at := ch_created_at r |}) cid).

Definition get_challenge (cid : list Z) (d : Db) : option ChallengeRow := challenges d !! cid.

(** ** The statements, as requests *)

Inductive Query : Type -> Type :=
  | InsertPendingAttestation (pk att : list Z) (now : Z) : Query unit
  | LoadPendingAttestations : Query (list (list Z * list Z))
  | GetRequestId (pk : list Z) : Query (option (list Z))
  | SetRequestId (pk id : list Z) : Query unit
  | ClearRequestId (pk : list Z) : Query unit
  | DeletePendingAttestation (pk : list Z) : Query unit
  | CreateChallenge (cid : list Z) (block_number now : Z) : Query unit
  | UpdateChallengeSp1RequestId (cid id : list Z) : Query unit
  | SetChallengeCompleted (cid proof values vk : list Z) : Query unit
  | SetChallengeFailed (cid : list Z) (msg : string) : Query unit
  | GetChallenge (cid : list Z) : Query (option ChallengeRow).

Definition update {R} (q : Query R) : Db -> Db :=
  match q with
  | InsertPendingAttestation pk att now => insert_pending_attestation pk att now
  | SetRequestId pk id => set_request_id pk id
  | ClearRequestId pk => clear_request_id pk
  | DeletePendingAttestation pk => delete_pending_attestation pk
  | CreateChallenge cid n now => create_challenge cid n now
  | UpdateChallengeSp1RequestId cid id => update_challenge_sp1_request_id cid id
  | SetChallengeCompleted cid proof values vk => set_challenge_completed cid proof values vk
  | SetChallengeFailed cid msg => set_challenge_failed cid msg
  | LoadPendingAttestations | GetRequestId _ | GetChallenge _ => id
  end.

(** [r] is what the statement may answer: a row that cannot be read is left out
    of a listing. *)
Definition answers {R} (q : Query R) (d : Db) : R -> Prop :=
  match q in Query R return R -> Prop with
  | LoadPendingAttestations => fun rows => rows ⊆+ load_pending_attestations d
  | GetRequestId pk => fun id => id = get_request_id pk d
  | GetChallenge cid => fun row => row = get_challenge cid d
  | _ => fun _ => True
  end.

(** The answer of a store that works. *)
Definition reply {R} (q : Query R) (d : Db) : R :=
  match q in Query R return R with
  | LoadPendingAttestations => load_pending_attestations d
  | GetRequestId pk => get_request_id pk d
  | GetChallenge cid => get_challenge cid d
  | _ => tt
  end.

Lemma reply_answers {R} (q : Query R) d : answers q d (reply q d).
Proof. by destruct q; cbn; try done. Qed.

(** [None]: no store, or the statement failed. *)
Definition after_query {R} (q : Query R) (r : option R) (d : Db) : Db :=
  match r with
  | Some _ => update q d
  | None => d
  end.

Definition may_answer {R} (q : Query R) (d : Db) (r : option R) : Prop :=
  match r with
  | Some r => answers q d r
  | None => True
  end.

(** ** Rows *)

Lemma with_pending_alter_None pk f d : pending_attestation d !! pk = None -> with_pending (alter f pk) d = d.
Proof.
  intros H. destruct d as [t c]. unfold with_pending. cbn in *. f_equal.
  apply map_eq. intros k. destruct (decide (k = pk)) as [->|Hk].
  - by rewrite lookup_alter_eq, H.
  - by rewrite lookup_alter_ne by done.
Qed.

Lemma pending_set_column pk id d k :
  pending_attestation (with_pending (alter (set_column id) pk) d) !! k =
  (if decide (k = pk) then set_column id else fun r => r) <$> pending_attestation d !! k.
Proof.
  cbn. destruct (decide (k = pk)) as [->|Hk]; [by rewrite lookup_alter_eq|].
  rewrite lookup_alter_ne by done. by destruct (_ !! k).
Qed.

Lemma pending_insert pk att now d k :
  pending_attestation (insert_pending_attestation pk att now d) !! k =
  match pending_attestation d !! k with
  | Some r => Some r
  | None => if decide (k = pk) then Some {| attestation := att; request_id := None; pa_created_at := now |} else None
  end.
Proof.
  cbn. destruct (pending_attestation d !! pk) as [r|] eqn:E.
  - destruct (decide (k = pk)) as [->|Hk]; [by rewrite E|]. by destruct (_ !! k).
  - destruct (decide (k = pk)) as [->|Hk]; [by rewrite lookup_insert_eq, E|].
    rewrite lookup_insert_ne by done. by destruct (_ !! k).
Qed.

Lemma elem_of_pending d pk att :
  (pk, att) ∈ load_pending_attestations d <-> exists r, pending_attestation d !! pk = Some r /\ attestation r = att.
Proof.
  unfold load_pending_attestations. rewrite list_elem_of_fmap. split.
  - intros ([k r] & [= -> ->] & H). exists r. by rewrite elem_of_map_to_list in H.
  - intros (r & H & <-). exists (pk, r). by rewrite elem_of_map_to_list.
Qed.

Lemma NoDup_load_pending d : NoDup (load_pending_attestations d).*1.
Proof.
  unfold load_pending_attestations. rewrite <- list_fmap_compose.
  replace (fst ∘ prod_map id attestation <$> map_to_list (pending_attestation d))
    with (map_to_list (pending_attestation d)).*1; [apply NoDup_fst_map_to_list|].
  apply list_fmap_ext. by intros ? [? ?] _.
Qed.
