(* ===== verification/Attestation.v ===== *)
(** * Proving an enclave's attestation ([bin/proxy/src/attestation])

    [prepare.rs] turns the attestation into the input of the validator guest,
    [network.rs] has it proved by the SP1 network and submits the proof to L1,
    [driver.rs] retries until that is done.  The network, L1, the store and
    sleeping are behind [ProxyCall]; the COSE, CBOR and X.509 libraries of the
    host are parameters.  [tokio::spawn] is a call: the task runs on its own. *)
From S2P Require Import Prelude BytesCodec Rlp Interaction Validator NitroVerifier Frames ProxyDb.
From stdpp Require Import strings.
#[local] Open Scope Z_scope.

(** ** Requests *)

(** The errors of [wait_proof]: those of the network the code tells apart, the
    others of the network, and the rest. *)
Inductive WaitErrorKind : Type :=
  | RequestUnfulfillable
  | RequestUnexecutable
  | RequestTimedOut
  | RequestAuctionTimedOut
  | OtherNetworkError
  | OtherError.
Record WaitError : Type := { wait_kind : WaitErrorKind; wait_text : string }.

(** What the code reads of a proof: its public values, [proof.bytes()] and the
    bincode of [proof.proof]. *)
Record Sp1Proof : Type := {
  proof_public_values : list Z;
  proof_onchain_bytes : list Z;
  proof_bincode : outcome string (list Z) }.

(** What is written to the prover's [SP1Stdin]. *)
Inductive Stdin : Type :=
  | StdinGuestInput (input : GuestInput)
  | StdinSlices (slices : list (list Z)).

Inductive ProxyCall : Type -> Type :=
  (* the store; [None] when there is none or the statement fails *)
  | Sql {R} (q : Query R) : ProxyCall (option R)
  | UnixNow : ProxyCall Z
  (* the SP1 network *)
  | ConnectNetwork : ProxyCall (outcome string unit)
  | GetProversByUptime (high_availability_only : bool) : ProxyCall (outcome string (list (list Z)))
  | RequestProof (stdin : Stdin) (max_price_per_pgu : option Z) (whitelist : list (list Z)) : ProxyCall (outcome string (list Z))
  | WaitProof (id : list Z) : ProxyCall (outcome WaitError Sp1Proof)
  | GetProofRequest (id : list Z) : ProxyCall (outcome string (option (option (list Z))))
  (* L1 *)
  | L1 {R} (c : VerifierCall R) : ProxyCall R
  (* the enclave's socket *)
  | VsockConnect : ProxyCall (outcome string unit)
  | Stream {R} (c : StreamCall R) : ProxyCall R
  (* AWS *)
  | CredentialsProvider : ProxyCall bool
  | ProvideCredentials : ProxyCall (outcome string (string * string * option string))
  (* tasks and the handshake lock *)
  | LockHandshake : ProxyCall unit
  | UnlockHandshake : ProxyCall unit
  | SpawnProve (public_key attestation : list Z) : ProxyCall unit
  | SpawnChallenge (stdin : Stdin) (challenge_id : list Z) (block_number : Z) : ProxyCall unit
  | SleepSecs (n : Z) : ProxyCall unit.

Abbreviation io := (eff ProxyCall string).

(** [if let Some(db) = crate::db::db() { .. }]. *)
Definition sql {R} (q : Query R) : io (option R) := do (Sql q).

Definition insert_pending_attestation (public_key attestation : list Z) : io unit :=
  now ← do UnixNow;
  _ ← sql (InsertPendingAttestation public_key attestation now);
  mret tt.

(** ** [prepare.rs] *)

(** What the code reads of a parsed certificate. *)
Record X509 : Type := {
  tbs_certificate : list Z;
  signature_value : list Z;
  subject_public_key : list Z;
  x509_subject : list Z }.

(** [ciborium] and [x509_parser]. *)
Class HostParsers : Type := {
  (** the protected header, the payload and the signature *)
  cose_sign1_from_reader : list Z -> outcome string (list Z * list Z * list Z);
  cose_payload_bytes b protected payload signature :
    cose_sign1_from_reader b = Ok (protected, payload, signature) -> Bytes payload;
  x509_from_der : list Z -> outcome string X509;
  (** [cabundle] and [certificate] of the document *)
  doc_from_reader : list Z -> outcome string (list (list Z) * list Z) }.

Section Attestation.
Context `{Keccak, NitroCrypto, HostParsers, VerifierAbi}.

Definition extract_sec1 (raw : list Z) : outcome string (list Z) :=
  if decide (length raw = 98%nat /\ head raw = Some 0) then Ok (drop 1 raw)
  else if decide (length raw = 97%nat /\ head raw = Some 4) then Ok raw
  else Err "unexpected P-384 pubkey format".

Definition verify_p384_host (issuer_key tbs sig_bytes : list Z) : outcome string unit :=
  if p384_verify_der issuer_key tbs sig_bytes then Ok tt else Err "signature error".

Definition extract_chain_der (payload : list Z) : outcome string (list (list Z) * list Z) := doc_from_reader payload.

Definition cert_data (der : list Z) : outcome string CertData :=
  parsed ← x509_from_der der;
  mret {| cert_tbs := tbs_certificate parsed; cert_signature := signature_value parsed |}.

(** The host's own check of the chain, from the root's key. *)
Fixpoint verify_chain_host (issuer_pk : list Z) (ders : list (list Z)) : outcome string unit :=
  match ders with
  | [] => Ok tt
  | der :: ders =>
      parsed ← x509_from_der der;
      _ ← verify_p384_host issuer_pk (tbs_certificate parsed) (signature_value parsed);
      issuer_pk ← extract_sec1 (subject_public_key parsed);
      verify_chain_host issuer_pk ders
  end.

Definition prepare_guest_input (attestation_bytes root_cert_der : list Z) : outcome string GuestInput :=
  cose ← cose_sign1_from_reader attestation_bytes;
  let '(protected, payload, signature) := cose in
  if decide (length signature <> 96%nat) then
    Err ("expected 96-byte COSE signature, got " +:+ str (Z.of_nat (length signature)))
  else
    root_cert ← x509_from_der root_cert_der;
    root_pubkey ← extract_sec1 (subject_public_key root_cert);
    let root_subject := x509_subject root_cert in
    if decide (sha384 root_subject <> EXPECTED_ROOT_SUBJECT_HASH) then Err "root CA subject hash mismatch"
    else
      doc ← extract_chain_der payload;
      let '(cabundle, leaf_der) := doc in
      chain ← mapM cert_data cabundle;
      leaf ← cert_data leaf_der;
      _ ← verify_chain_host root_pubkey (cabundle ++ [leaf_der]);
      mret {| root_pubkey := root_pubkey; root_subject := root_subject; chain := chain ++ [leaf];
              cose_protected := protected; cose_payload := payload; cose_signature := signature |}.

(** ** [network.rs] *)

Record AttestationConfig : Type := { nitro_verifier_addr : list Z; ROOT_CERT_DER : list Z }.

(** [Address::from_slice]: a panic unless there are twenty bytes. *)
Definition address_from_slice (b : list Z) : outcome string (list Z) :=
  if decide (length b = 20%nat) then Ok b else Panic.

Definition fetch_ha_whitelist (blacklist : gset (list Z)) : io (list (list Z)) :=
  _ ← context "Failed to connect to SP1 network: " (ask ConnectNetwork);
  response ← context "Failed to fetch HA provers: " (ask (GetProversByUptime false));
  addresses ← of_outcome (mapM address_from_slice response);
  let provers := filter (fun addr => addr ∉ blacklist) addresses in
  match provers with
  | [] => throw "No available HA provers after filtering blacklist"
  | _ => mret provers
  end.

Definition fetch_ha_prover_count : io Z :=
  _ ← context "Failed to connect to SP1 network: " (ask ConnectNetwork);
  response ← context "Failed to fetch HA provers: " (ask (GetProversByUptime true));
  mret (Z.of_nat (length response)).

Definition identify_fulfiller (request_id : list Z) : io (option (list Z)) :=
  request ← attempt (ask (E := string) (GetProofRequest request_id));
  match request with
  | Ok (Some (Some fulfiller_bytes)) =>
      mret (if decide (length fulfiller_bytes = 20%nat) then Some fulfiller_bytes else None)
  | Ok _ | Err _ => mret None
  | Panic => of_outcome Panic
  end.

Definition pubkey_to_address (pubkey : list Z) : outcome string (list Z) :=
  if decide (length pubkey = 65%nat /\ head pubkey = Some 4) then Ok (drop 12 (keccak256 (drop 1 pubkey)))
  else Err "Invalid uncompressed pubkey".

Definition submit_proof_to_l1 (config : AttestationConfig) (public_key : list Z) (proof : Sp1Proof) : io unit :=
  local_address ← of_outcome (pubkey_to_address public_key);
  decoded ← context "Failed to decode attestation public values: " (of_outcome (decode_public_values (proof_public_values proof)));
  let '(committed_address, attestation_time) := decoded in
  if decide (committed_address <> local_address) then throw "Committed enclave address mismatch"
  else
    _ ← hoist (@L1) (submit_attestation (nitro_verifier_addr config) local_address attestation_time (proof_onchain_bytes proof));
    mret tt.

(** The errors after which another prover is tried: of an attestation, and of a
    challenge. *)
Definition is_retriable (k : WaitErrorKind) : bool :=
  match k with
  | RequestUnfulfillable | RequestUnexecutable | RequestTimedOut | RequestAuctionTimedOut => true
  | OtherNetworkError | OtherError => false
  end.

(** The end of a round whose prover failed: the blacklist of the next one. *)
Definition blacklist_fulfiller (id : list Z) (blacklist : gset (list Z)) : io (gset (list Z)) :=
  fulfiller ← identify_fulfiller id;
  mret (match fulfiller with Some fulfiller => {[fulfiller]} ∪ blacklist | None => blacklist end).

Definition reset_blacklist (blacklist : gset (list Z)) : io (gset (list Z)) :=
  ha_count ← attempt fetch_ha_prover_count;
  match ha_count with
  | Panic => of_outcome Panic
  | Ok _ | Err _ =>
      let ha_count := match ha_count with Ok n => n | _ => 0 end in
      mret (if decide (0 < ha_count /\ ha_count <= Z.of_nat (size blacklist)) then ∅ else blacklist)
  end.

(** The proof is there: to L1 with it, and the row is done. *)
Definition finish_proof (config : AttestationConfig) (public_key : list Z) (proof : Sp1Proof) : io unit :=
  _ ← submit_proof_to_l1 config public_key proof;
  _ ← sql (DeletePendingAttestation public_key);
  mret tt.

(** The [loop]; [None] when the rounds are used up. *)
Fixpoint prove_rounds (rounds : nat) (config : AttestationConfig) (public_key : list Z) (guest_input : GuestInput)
    (blacklist : gset (list Z)) : io (option unit) :=
  match rounds with
  | O => mret None
  | S rounds =>
      whitelist ← fetch_ha_whitelist blacklist;
      id ← context "SP1 attestation proof request failed: "
             (ask (RequestProof (StdinGuestInput guest_input) None whitelist));
      _ ← sql (SetRequestId public_key id);
      proof ← do (WaitProof id);
      match proof with
      | Panic => of_outcome Panic
      | Ok proof => _ ← finish_proof config public_key proof; mret (Some tt)
      | Err e =>
          if is_retriable (wait_kind e) then
            blacklist ← blacklist_fulfiller id blacklist;
            _ ← sql (ClearRequestId public_key);
            blacklist ← reset_blacklist blacklist;
            prove_rounds rounds config public_key guest_input blacklist
          else
            _ ← sql (ClearRequestId public_key);
            throw ("SP1 attestation proof failed: " +:+ wait_text e)
      end
  end.

(** A fresh request. *)
Definition prove_fresh (rounds : nat) (config : AttestationConfig) (public_key attestation : list Z) : io (option unit) :=
  guest_input ← context "Failed to prepare guest input: " (of_outcome (prepare_guest_input attestation (ROOT_CERT_DER config)));
  prove_rounds rounds config public_key guest_input ∅.

Definition prove_and_submit_for_key (rounds : nat) (config : AttestationConfig) (public_key attestation : list Z)
  : io (option unit) :=
  saved_id ← sql (GetRequestId public_key);
  match mjoin saved_id with
  | None => prove_fresh rounds config public_key attestation
  | Some id =>
      proof ← do (WaitProof id);
      match proof with
      | Panic => of_outcome Panic
      | Ok proof => _ ← finish_proof config public_key proof; mret (Some tt)
      | Err _ =>
          _ ← sql (ClearRequestId public_key);
          prove_fresh rounds config public_key attestation
      end
  end.

(** ** [driver.rs] *)

(** [run_prove_loop]: [runs] bounds the runs, [rounds] the rounds of each. *)
Fixpoint run_prove_loop (runs rounds : nat) (public_key attestation : list Z) (cfg : AttestationConfig) : io (option unit) :=
  match runs with
  | O => mret None
  | S runs =>
      r ← attempt (prove_and_submit_for_key rounds cfg public_key attestation);
      match r with
      | Ok r => mret r
      | Err _ => _ ← do (SleepSecs 30); run_prove_loop runs rounds public_key attestation cfg
      | Panic => of_outcome Panic
      end
  end.

Fixpoint spawn_all (rows : list (list Z * list Z)) : io unit :=
  match rows with
  | [] => mret tt
  | (public_key, attestation) :: rows => _ ← do (SpawnProve public_key attestation); spawn_all rows
  end.

Definition resume_all_pending (att_cfg : option AttestationConfig) : io unit :=
  match att_cfg with
  | None => mret tt
  | Some _ =>
      rows ← sql LoadPendingAttestations;
      spawn_all (default [] rows)
  end.
End Attestation.
