(* ===== verification/AttestationSpec.v ===== *)
(** * What reaches L1 about an enclave's key

    The task of one key is followed through its calls: the row of the key, the
    requests it has made to the prover network, the proof it holds, and the
    provers it has struck out.  The environment is honest when the store answers
    from its rows, the network gives every request a fresh id, and a proof of a
    request carries the public values the guest commits on the requested input. *)
From S2P Require Import Prelude BytesCodec Rlp Interaction Reader CborSpec Validator NitroVerifier ValidatorSpec.
From S2P Require Import Frames ProxyDb Attestation.
From stdpp Require Import strings.
#[local] Open Scope Z_scope.

(** What the rest of the system has seen of a key's task. *)
Record Progress : Type := {
  row : option PendingRow;                (* the key's row *)
  requests : gmap (list Z) GuestInput;    (* what was requested, by request id *)
  outstanding : option (list Z);          (* the request whose outcome is not known *)
  proven : option Sp1Proof;               (* the last proof received *)
  confirmed : bool;                       (* L1 has accepted a submission *)
  listed : list (list Z);                 (* the provers last listed *)
  banned : gset (list Z) }.               (* the provers that failed *)

Definition with_row v g := {| row := v; requests := requests g; outstanding := outstanding g; proven := proven g;
  confirmed := confirmed g; listed := listed g; banned := banned g |}.
Definition with_outstanding v g := {| row := row g; requests := requests g; outstanding := v; proven := proven g;
  confirmed := confirmed g; listed := listed g; banned := banned g |}.
Definition with_request id input g := {| row := row g; requests := <[id := input]> (requests g); outstanding := outstanding g;
  proven := proven g; confirmed := confirmed g; listed := listed g; banned := banned g |}.
Definition with_proven v g := {| row := row g; requests := requests g; outstanding := None; proven := v;
  confirmed := confirmed g; listed := listed g; banned := banned g |}.
Definition with_confirmed g := {| row := row g; requests := requests g; outstanding := outstanding g; proven := proven g;
  confirmed := true; listed := listed g; banned := banned g |}.
Definition with_listed v g := {| row := row g; requests := requests g; outstanding := outstanding g; proven := proven g;
  confirmed := confirmed g; listed := v; banned := banned g |}.
Definition with_banned v g := {| row := row g; requests := requests g; outstanding := outstanding g; proven := proven g;
  confirmed := confirmed g; listed := listed g; banned := v |}.

Section Pipeline.
Context `{Keccak, NitroCrypto, HostParsers, VerifierAbi}.
Context (mainnet : bool) (cfg : AttestationConfig) (pk att : list Z).

(** A store with the key's row only: no other row matters to the task. *)
Definition row_db (r : option PendingRow) : Db :=
  {| pending_attestation := match r with Some r => {[pk := r]} | None => ∅ end; challenges := ∅ |}.

(** ** How the calls change the ghost state *)

Definition observe_sql {R} (q : Query R) (r : option R) (g : Progress) : Progress :=
  let g := with_row (pending_attestation (after_query q r (row_db (row g))) !! pk) g in
  match q in Query R return option R -> Progress with
  | GetRequestId _ => fun r => match mjoin r with Some id => with_outstanding (Some id) g | None => g end
  | _ => fun _ => g
  end r.

Definition observe_l1 {R} (c : VerifierCall R) (g : Progress) : R -> Progress :=
  match c in VerifierCall R return R -> Progress with
  | GetReceipt _ => fun r => match r with Ok receipt => if receipt_status receipt then with_confirmed g else g | _ => g end
  | _ => fun _ => g
  end.

(** A pause ends a run: the next one starts without a blacklist. *)
Definition observe (R : Type) (g : Progress) (c : ProxyCall R) : R -> Progress :=
  match c in ProxyCall R return R -> Progress with
  | Sql q => fun r => observe_sql q r g
  | GetProversByUptime false => fun r => match r with Ok l => with_listed l g | _ => g end
  | GetProversByUptime true => fun r =>
      match r with
      | Ok l => if decide (0 < length l /\ length l <= size (banned g))%nat then with_banned ∅ g else g
      | _ => g
      end
  | RequestProof stdin _ _ => fun r =>
      match r, stdin with
      | Ok id, StdinGuestInput input => with_outstanding (Some id) (with_request id input g)
      | _, _ => g
      end
  | WaitProof _ => fun r => with_proven (match r with Ok p => Some p | _ => None end) g
  | GetProofRequest _ => fun r =>
      match r with
      | Ok (Some (Some b)) => if decide (length b = 20%nat) then with_banned ({[b]} ∪ banned g) g else g
      | _ => g
      end
  | L1 c => observe_l1 c g
  | SleepSecs _ => fun _ => with_banned ∅ g
  | _ => fun _ => g
  end.

(** ** Honest answers *)

Definition honest (R : Type) (g : Progress) (c : ProxyCall R) : R -> Prop :=
  match c in ProxyCall R return R -> Prop with
  | Sql q => fun r => may_answer q (row_db (row g)) r
  | RequestProof _ _ _ => fun r => forall id, r = Ok id -> length id = 32%nat /\ requests g !! id = None
  | WaitProof id => fun r => forall p input, r = Ok p -> requests g !! id = Some input ->
      guest_main mainnet input = Some (proof_public_values p)
  | _ => fun _ => True
  end.

(** ** What the task may do, and when *)

(** The transaction: the proven statement about an attestation of this key. *)
Definition vouches (g : Progress) (to_ input_ : list Z) : Prop :=
  exists proof input user_key ms address,
    proven g = Some proof /\ prepare_guest_input att (ROOT_CERT_DER cfg) = Ok input /\
    attested mainnet input user_key ms /\
    address = drop 12 (keccak256 (drop 1 user_key)) /\ pubkey_to_address pk = Ok address /\
    to_ = nitro_verifier_addr cfg /\
    input_ = verifyAttestation_encode address (ms / 1000) (proof_onchain_bytes proof).

Definition allowed_sql {R} (q : Query R) (g : Progress) : Prop :=
  match q with
  | GetRequestId k => k = pk
  | SetRequestId k id => k = pk /\ outstanding g = Some id
  | ClearRequestId k => k = pk /\ outstanding g = None
  | DeletePendingAttestation k => k = pk /\ confirmed g = true
  | _ => False
  end.

Definition allowed (R : Type) (g : Progress) (c : ProxyCall R) : Prop :=
  match c with
  | Sql q => allowed_sql q g
  | ConnectNetwork | GetProversByUptime _ | SleepSecs _ => True
  | RequestProof stdin _ whitelist =>
      outstanding g = None /\ (exists input, stdin = StdinGuestInput input /\
        prepare_guest_input att (ROOT_CERT_DER cfg) = Ok input) /\
      whitelist <> [] /\ whitelist ⊆ listed g /\ Forall (fun a => a ∉ banned g) whitelist
  | WaitProof id => outstanding g = Some id
  | GetProofRequest _ => proven g = None
  | L1 (SendTransaction to_ input_) => vouches g to_ input_
  | L1 (GetReceipt _) => proven g <> None
  | _ => False
  end.

Abbreviation valid := (valid allowed observe honest).

(** The row's request, if any, was made for the input of this attestation. *)
Definition row_ok (g : Progress) : Prop :=
  forall id, get_request_id pk (row_db (row g)) = Some id ->
    exists input, prepare_guest_input att (ROOT_CERT_DER cfg) = Ok input /\ requests g !! id = Some input.

Definition idle (g : Progress) : Prop := row_ok g /\ outstanding g = None.

(** ** Choosing provers *)

Lemma with_listed_id g : with_listed (listed g) g = g.
Proof. by destruct g. Qed.
Lemma with_banned_id g : with_banned (banned g) g = g.
Proof. by destruct g. Qed.

Lemma mapM_address l l' : mapM address_from_slice l = Ok l' -> l' = l.
Proof.
  intros E. apply mapM_Ok in E. induction E as [|x y l l' Hx _ IH]; [done|].
  unfold address_from_slice in Hx. destruct (decide (length x = 20%nat)); [|done]. injection Hx as ->. by subst.
Qed.

Lemma valid_whitelist g : valid g (fetch_ha_whitelist (banned g)) (fun g' r =>
  (exists l, g' = with_listed l g) /\
  forall wl, r = Ok wl -> wl <> [] /\ wl ⊆ listed g' /\ Forall (fun a => a ∉ banned g') wl).
Proof.
  apply valid_ask; [exact I|]. intros [[]|e|] _; cbn [observe].
  2,3: split; [exists (listed g); by rewrite with_listed_id|done].
  apply valid_ask; [exact I|]. intros [l|e|] _; cbn [observe].
  2,3: split; [exists (listed g); by rewrite with_listed_id|done].
  apply valid_of_outcome. destruct (mapM address_from_slice l) as [l'|e|] eqn:E; [|split; [by exists l|done]..].
  apply mapM_address in E as ->. cbn zeta.
  assert (Hwl : filter (fun addr => addr ∉ banned g) l ⊆ l /\ Forall (fun a => a ∉ banned g) (filter (fun addr => addr ∉ banned g) l)).
  { split; [intros x Hx; by apply list_elem_of_filter in Hx as [_ Hx]|apply Forall_forall; intros x Hx; by apply list_elem_of_filter in Hx as [Hx _]]. }
  destruct (filter (fun addr => addr ∉ banned g) l) as [|a wl] eqn:Ew; (split; [by exists l|]); [done|].
  by intros ? [= <-].
Qed.

Lemma valid_identify g id : proven g = None ->
  valid g (blacklist_fulfiller id (banned g)) (fun g' r => exists b, g' = with_banned b g /\ r = Ok b \/ g' = g /\ r = Panic).
Proof.
  intros Hp. unfold blacklist_fulfiller, identify_fulfiller.
  apply (valid_bind allowed observe honest). apply (valid_attempt _ _ _ _ _ (fun g' r => g' = observe _ g (GetProofRequest id) r)).
  { split; [done|]. by intros r _. }
  intros g' r ->. destruct r as [[[b|]|]|e|].
  - cbn. destruct (decide (length b = 20%nat)); cbn; eexists; left; [done|]. by rewrite with_banned_id.
  - exists (banned g). left. cbn. by rewrite with_banned_id.
  - exists (banned g). left. cbn. by rewrite with_banned_id.
  - exists (banned g). left. cbn. by rewrite with_banned_id.
  - cbn. exists ∅. by right.
Qed.

(** Only the blacklist moves. *)
Definition rebanned (g g' : Progress) : Prop := exists b, g' = with_banned b g.
Definition rebans (g : Progress) (g' : Progress) (r : outcome string (gset (list Z))) : Prop :=
  rebanned g g' /\ forall b, r = Ok b -> banned g' = b.

Lemma valid_reset g : valid g (reset_blacklist (banned g)) (rebans g).
Proof.
  unfold reset_blacklist.
  apply (valid_attempt _ _ _ _ _ (fun g' r => rebanned g g' /\ match r with
    | Ok n => banned g' = if decide (0 < n /\ n <= Z.of_nat (size (banned g))) then ∅ else banned g
    | _ => g' = g end)).
  - assert (Hg : rebanned g g) by (exists (banned g); by rewrite with_banned_id).
    apply valid_ask; [exact I|]. intros [[]|e|] _; cbn [observe]; [|done..].
    apply valid_ask; [exact I|]. intros [l|e|] _; cbn [observe]; [|done..].
    destruct (decide (0 < length l /\ length l <= size (banned g))%nat) as [Hl|Hl].
    + split; [by exists ∅|]. by rewrite decide_True by lia.
    + split; [done|]. by rewrite decide_False by lia.
  - intros g' r [Hg Hr]. destruct r as [n|e|]; cbn; [| |done].
    + split; [done|]. intros b [= <-]. exact Hr.
    + rewrite decide_False by lia. subst. split; [done|]. by intros b [= <-].
Qed.

(** ** Statements on the key's row *)

Lemma row_of r : pending_attestation (row_db r) !! pk = r.
Proof. destruct r; [apply lookup_singleton_eq|apply lookup_empty]. Qed.

Lemma request_id_of r : get_request_id pk (row_db r) =
  (id ← r ≫= request_id; if decide (length id = 32%nat) then Some id else None).
Proof. unfold get_request_id. by rewrite row_of. Qed.

(** What a statement does to the row. *)
Lemma observe_get g r : may_answer (GetRequestId pk) (row_db (row g)) r ->
  exists o, observe _ g (Sql (GetRequestId pk)) r = (match o with Some id => with_outstanding (Some id) g | None => g end) /\
    mjoin r = o /\ (forall id, o = Some id -> get_request_id pk (row_db (row g)) = Some id).
Proof.
  intros Hr. exists (mjoin r). cbn. unfold observe_sql.
  assert (E : with_row (pending_attestation (after_query (GetRequestId pk) r (row_db (row g))) !! pk) g = g).
  { destruct r; cbn [after_query update]; unfold id; rewrite row_of; by destruct g. }
  rewrite E. split_and!; [done..|]. destruct r as [r|]; cbn in *; [|done]. by intros id ->.
Qed.

Definition columned (id : option (list Z)) (g g' : Progress) : Prop :=
  g' = g \/ g' = with_row (set_column id <$> row g) g.

Lemma observe_set g id r : columned (Some id) g (observe _ g (Sql (SetRequestId pk id)) r).
Proof.
  cbn. unfold observe_sql. destruct r; cbn [after_query update].
  - right. unfold set_request_id. rewrite pending_set_column, row_of, decide_True by done. done.
  - left. rewrite row_of. by destruct g.
Qed.

Lemma observe_clear g r : columned None g (observe _ g (Sql (ClearRequestId pk)) r).
Proof.
  cbn. unfold observe_sql. destruct r; cbn [after_query update].
  - right. unfold clear_request_id. rewrite pending_set_column, row_of, decide_True by done. done.
  - left. rewrite row_of. by destruct g.
Qed.

Lemma columned_row_ok id g g' : columned id g g' -> row_ok g ->
  (forall x, id = Some x -> exists input, prepare_guest_input att (ROOT_CERT_DER cfg) = Ok input /\ requests g !! x = Some input) ->
  row_ok g'.
Proof.
  intros [->| ->] Hok Hid; [done|]. intros x Hx. rewrite request_id_of in Hx. cbn in Hx.
  destruct (row g) as [r|]; cbn in Hx; [|done]. destruct id as [id|]; cbn in Hx; [|done].
  destruct (decide (length id = 32%nat)); [|done]. injection Hx as <-. by apply Hid.
Qed.

Lemma columned_idle id g g' : columned id g g' -> outstanding g' = outstanding g /\ proven g' = proven g /\
  confirmed g' = confirmed g /\ requests g' = requests g /\ banned g' = banned g /\ listed g' = listed g.
Proof. by intros [->| ->]. Qed.

Lemma observe_delete g r : exists v, observe _ g (Sql (DeletePendingAttestation pk)) r = with_row v g /\ (v = row g \/ v = None).
Proof.
  cbn. unfold observe_sql. eexists. split; [done|]. destruct r; cbn [after_query update]; [right|left; apply row_of].
  cbn. by rewrite lookup_delete_eq.
Qed.

(** ** Submitting *)

Abbreviation prepared := (fun input => prepare_guest_input att (ROOT_CERT_DER cfg) = Ok input).

(** A proof made from this attestation. *)
Definition good_proof (p : Sp1Proof) (g : Progress) : Prop :=
  proven g = Some p /\ exists input, prepared input /\ guest_main mainnet input = Some (proof_public_values p).

Lemma prepared_bytes input : prepared input -> Bytes (cose_payload input).
Proof.
  intros E. unfold prepare_guest_input in E.
  destruct (cose_sign1_from_reader att) as [[[protected payload] signature]|e|] eqn:Ec; cbn in E; [|done..].
  destruct (decide (length signature <> 96%nat)); [done|]. inv_ok.
  destruct (decide (sha384 (x509_subject a) <> EXPECTED_ROOT_SUBJECT_HASH)); [done|]. inv_ok.
  destruct a1 as [cabundle leaf_der]. inv_ok. injection E as <-. cbn. exact (cose_payload_bytes _ _ _ _ Ec).
Qed.

Lemma valid_submit p g : good_proof p g -> valid g (submit_proof_to_l1 cfg pk p) (fun g' r =>
  (g' = g \/ g' = with_confirmed g) /\ (r = Ok tt -> confirmed g' = true)).
Proof.
  intros [Hp (input & Hi & Hm)]. apply valid_of_outcome.
  destruct (pubkey_to_address pk) as [local|e|] eqn:Ea; [|by split; [left|]..].
  apply (valid_of_outcome allowed observe honest (map_err _ (decode_public_values (proof_public_values p)))).
  destruct (guest_main_decodes mainnet input _ (prepared_bytes input Hi) Hm) as (user_key & ms & Ha & ->).
  cbn [map_err]. cbn zeta.
  destruct (decide (drop 12 (keccak256 (drop 1 user_key)) <> local)) as [?|Hl]; [by split; [left|]|].
  apply dec_stable in Hl. subst local.
  eapply (valid_eff_bind allowed observe honest _ _ (fun g' _ => g' = with_confirmed g)).
  2: { intros g' tx ->. cbn. by split; [right|]. }
  apply valid_hoist. unfold submit_attestation.
  apply valid_ask. { cbn. by exists p, input, user_key, ms, (drop 12 (keccak256 (drop 1 user_key))). }
  intros [tx|e|] _; cbn [observe observe_l1]; [|by split; [left|]..].
  apply valid_ask. { cbn. by rewrite Hp. }
  intros [receipt|e|] _; cbn [observe observe_l1]; [|by split; [left|]..].
  destruct (receipt_status receipt) eqn:Er; cbn; [done|by split; [left|]].
Qed.

(** What every run leaves behind. *)
Definition settled {A} (done_ : A -> Prop) (g' : Progress) (r : outcome string A) : Prop :=
  idle g' /\ forall a, r = Ok a -> done_ a -> confirmed g' = true.

Lemma settled_fail {A} (d : A -> Prop) g' r : idle g' -> (forall a, r <> Ok a) -> settled d g' r.
Proof. intros Hi Hr. split; [done|]. intros a ->. by destruct (Hr a). Qed.

Lemma idle_confirmed g : idle g -> idle (with_confirmed g).
Proof. done. Qed.

Lemma idle_row v g : idle g -> v = row g \/ v = None -> idle (with_row v g).
Proof.
  intros [Hr Ho] Hv. split; [|done]. intros id Hid. apply Hr. rewrite request_id_of in *. cbn in Hid.
  by destruct Hv as [->| ->].
Qed.

Lemma valid_finish p g : idle g -> good_proof p g ->
  valid g (finish_proof cfg pk p) (settled (fun _ => True)).
Proof.
  intros Hi Hp. eapply (valid_eff_bind allowed observe honest _ _ (fun g' _ => idle g' /\ confirmed g' = true)).
  { eapply valid_mono; [by apply valid_submit|]. intros g' [[]|e|] [Hg Hc]; cbn.
    - split; [|by apply Hc]. by destruct Hg as [->| ->].
    - apply settled_fail; [|done]. by destruct Hg as [->| ->].
    - apply settled_fail; [|done]. by destruct Hg as [->| ->]. }
  intros g' _ [Hi' Hc]. apply valid_lift; [by split|]. intros r _.
  destruct (observe_delete g' r) as (v & -> & Hv). cbn. split; [by apply idle_row|by intros ? _ _].
Qed.

(** ** The rounds *)

Lemma requested g id input : requests g !! id = None -> row_ok g -> row_ok (with_outstanding (Some id) (with_request id input g)).
Proof.
  intros Hf Hr x Hx. destruct (Hr x Hx) as (input' & Hp & Hl). exists input'. split; [done|]. cbn.
  rewrite lookup_insert_ne; [done|]. intros ->. by rewrite Hl in Hf.
Qed.

(** The proof of a known request is a good one. *)
Lemma received g id input r : row_ok g -> prepared input -> requests g !! id = Some input ->
  honest _ g (WaitProof id) r -> idle (observe _ g (WaitProof id) r) /\
  forall p, r = Ok p -> good_proof p (observe _ g (WaitProof id) r).
Proof.
  intros Hr Hi Hl Hh. split; [by split|]. intros p ->. split; [done|]. exists input. split; [done|]. by eapply Hh.
Qed.

Lemma cleared g r : idle g -> idle (observe _ g (Sql (ClearRequestId pk)) r) /\
  banned (observe _ g (Sql (ClearRequestId pk)) r) = banned g /\ proven (observe _ g (Sql (ClearRequestId pk)) r) = proven g.
Proof.
  intros [Hr Ho]. pose proof (observe_clear g r) as Hc. pose proof (columned_idle _ _ _ Hc) as (Ho' & Hp & _ & _ & Hb & _).
  split_and!; [|done..]. split; [|by rewrite Ho']. by eapply columned_row_ok.
Qed.

(** A failed prover is struck out and the row freed before the next round. *)
Lemma valid_next_round (id : list Z) (f : gset (list Z) -> io (option unit)) g : idle g -> proven g = None ->
  (forall g', idle g' -> valid g' (f (banned g')) (settled (fun o => o = Some tt))) ->
  valid g (blacklist ← blacklist_fulfiller id (banned g);
           _ ← sql (ClearRequestId pk);
           blacklist ← reset_blacklist blacklist;
           f blacklist) (settled (fun o => o = Some tt)).
Proof.
  intros Hi Hp Hf. eapply (valid_eff_bind allowed observe honest _ _ (fun g' b => idle g' /\ banned g' = b)).
  { eapply valid_mono; [by apply valid_identify|]. intros g' r' (b & [[-> ->]|[-> ->]]); cbn; [done|by apply settled_fail]. }
  intros g1 b (Hi1 & <-). apply valid_lift; [split; [done|apply Hi1]|]. intros r' _.
  destruct (cleared g1 r' Hi1) as (Hi2 & Hb2 & _). rewrite <- Hb2. set (g2 := observe _ g1 _ r') in *.
  eapply (valid_eff_bind allowed observe honest _ _ (fun g' b => idle g' /\ banned g' = b)).
  { eapply valid_mono; [by apply valid_reset|]. intros g' [b|e'|] [[b' ->] Hr]; cbn;
      [split; [done|by apply Hr]|by apply settled_fail..]. }
  intros g3 b (Hi3 & <-). by apply Hf.
Qed.

(** A success is a submission. *)
Lemma valid_done p g : idle g -> good_proof p g ->
  valid g (_ ← finish_proof cfg pk p; mret (Some tt)) (settled (fun o => o = Some tt)).
Proof.
  intros Hi Hp. eapply (valid_eff_bind allowed observe honest _ _ (fun g' _ => idle g' /\ confirmed g' = true)).
  { eapply valid_mono; [by apply valid_finish|]. intros g' [[]|e|] [Hi' Hc']; cbn;
      [split; [done|by eapply Hc']|by apply settled_fail..]. }
  intros g' _ [Hi' Hc']. cbn. split; [done|by intros].
Qed.

Lemma valid_rounds input n : prepared input -> forall g, idle g ->
  valid g (prove_rounds n cfg pk input (banned g)) (settled (fun o => o = Some tt)).
Proof.
  intros Hi. induction n as [|n IH]; intros g Hg; [by split; [|intros ? [= <-]]|].
  eapply (valid_eff_bind allowed observe honest _ _ (fun g' wl => (exists l, g' = with_listed l g) /\
    wl <> [] /\ wl ⊆ listed g' /\ Forall (fun a => a ∉ banned g') wl)).
  { eapply valid_mono; [apply valid_whitelist|]. intros g' [wl|e|] [Hl Hw]; cbn;
      [split; [done|by apply Hw]|by apply settled_fail; [destruct Hl as [l ->]|]..]. }
  intros g1 wl [[l Hl] Hw]. assert (Hi1 : idle g1) by by subst. assert (Hb1 : banned g1 = banned g) by by subst.
  rewrite <- Hb1. clear Hl Hb1 Hg g l. apply valid_ask. { split; [apply Hi1|]. split; [by exists input|done]. }
  intros [id|e|] Hh; cbn [observe]; [|by apply settled_fail..]. destruct (Hh id eq_refl) as [Hid Hfresh].
  set (g2 := with_outstanding _ _).
  apply valid_lift; [by split|]. intros r _. pose proof (observe_set g2 id r) as Hc.
  set (g3 := observe _ g2 _ r) in *. pose proof (columned_idle _ _ _ Hc) as (Ho & _ & _ & Hq & Hb & _).
  assert (Hq3 : requests g3 !! id = Some input) by (rewrite Hq; apply lookup_insert_eq).
  assert (Hr3 : row_ok g3).
  { eapply columned_row_ok; [exact Hc|by apply requested; [|apply Hi1]|]. intros x [= <-]. exists input.
    split; [done|]. apply lookup_insert_eq. }
  apply valid_lift; [exact Ho|]. intros r' Hp. destruct (received g3 id input r' Hr3 Hi Hq3 Hp) as [Hi4 Hp4].
  destruct r' as [p|e|]; [by apply valid_done; [|apply Hp4]| |by apply settled_fail].
  set (g4 := observe _ g3 _ _) in *. assert (Hb4 : banned g4 = banned g1) by exact Hb. rewrite <- Hb4.
  destruct (is_retriable (wait_kind e)); [by apply valid_next_round|].
  apply valid_lift; [split; [done|apply Hi4]|]. intros r' _. apply settled_fail; [by apply cleared|done].
Qed.

(** ** A run, and the loop *)

Lemma valid_fresh n g : idle g -> banned g = ∅ ->
  valid g (prove_fresh n cfg pk att) (settled (fun o => o = Some tt)).
Proof.
  intros Hi Hb. apply (valid_of_outcome allowed observe honest (map_err _ (prepare_guest_input att (ROOT_CERT_DER cfg)))).
  destruct (prepare_guest_input att (ROOT_CERT_DER cfg)) as [input|e|] eqn:E; cbn [map_err]; [|by apply settled_fail..].
  rewrite <- Hb. by apply valid_rounds.
Qed.

Lemma valid_run n g : idle g -> banned g = ∅ ->
  valid g (prove_and_submit_for_key n cfg pk att) (settled (fun o => o = Some tt)).
Proof.
  intros Hi Hb. apply valid_lift; [done|]. intros r Hr. destruct (observe_get g r Hr) as (o & -> & -> & Ho).
  destruct o as [id|]; [|by apply valid_fresh]. destruct Hi as [Hok Hout].
  destruct (Hok id (Ho id eq_refl)) as (input & Hp & Hq).
  set (g1 := with_outstanding (Some id) g). assert (Hr1 : row_ok g1) by done.
  apply valid_lift; [done|]. intros r' Hr'. destruct (received g1 id input r' Hr1 Hp Hq Hr') as [Hi2 Hp2].
  destruct r' as [p|e|]; [by apply valid_done; [|apply Hp2]| |by apply settled_fail].
  set (g2 := observe _ g1 _ _) in *. apply valid_lift; [split; [done|apply Hi2]|]. intros r' _.
  destruct (cleared g2 r' Hi2) as (Hi3 & Hb3 & _). apply valid_fresh; [done|]. by rewrite Hb3.
Qed.

Lemma valid_loop runs n : forall g, idle g -> banned g = ∅ ->
  valid g (run_prove_loop runs n pk att cfg) (settled (fun o => o = Some tt)).
Proof.
  induction runs as [|runs IH]; intros g Hi Hb; [by split; [|intros ? [= <-]]|].
  apply (valid_attempt allowed observe honest (prove_and_submit_for_key n cfg pk att) _ (settled (fun o => o = Some tt)));
    [by apply valid_run|]. intros g' [o|e|] [Hi' Hc]; [| |by apply settled_fail].
  - split; [done|]. intros a [= <-]. by apply Hc.
  - apply valid_lift; [done|]. intros [] _. by apply IH.
Qed.
End Pipeline.

(** A task that starts with its row. *)
Definition fresh_task (r : option PendingRow) (reqs : gmap (list Z) GuestInput) : Progress := {|
  row := r; requests := reqs; outstanding := None; proven := None; confirmed := false; listed := []; banned := ∅ |}.

(** C13: what the proxy submits about a key.  Against an honest store and prover
    network, along every run of the key's task, over all its retries and over
    restarts that find the row of an earlier run: a transaction goes to the
    NitroVerifier only for this key's address, with a proof whose public values
    are those of an AWS-rooted attestation of that very key by the expected
    image and with its time in seconds; the network is asked for a proof only
    of this attestation, only while no known request is outstanding, and only
    from listed provers that have not failed; the key's row, and no other, is
    changed, and it is deleted only after L1 confirmed the transaction.  When
    the task ends, L1 has confirmed it. *)
Theorem attestation_pipeline `{Keccak, NitroCrypto, HostParsers, VerifierAbi} mainnet cfg pk att r reqs runs rounds t res
    (Hrow : row_ok cfg pk att (fresh_task r reqs))
    (Hexec : exec (run_prove_loop runs rounds pk att cfg) t res)
    (Hhonest : honest_trace (observe pk) (honest mainnet pk) (fresh_task r reqs) t) :
  respects (allowed mainnet cfg pk att) (observe pk) (fresh_task r reqs) t /\
  row_ok cfg pk att (after (observe pk) (fresh_task r reqs) t) /\
  (res = Ok (Some tt) -> confirmed (after (observe pk) (fresh_task r reqs) t) = true).
Proof.
  assert (Hv := valid_loop mainnet cfg pk att runs rounds (fresh_task r reqs) (conj Hrow eq_refl) eq_refl).
  destruct (valid_sound _ _ _ _ _ t res _ Hv Hexec Hhonest) as [Hr [[Hi _] Hc]].
  split; [exact Hr|]. split; [exact Hi|]. intros ->. by eapply Hc.
Qed.
