(* ===== verification/AttestationRuns.v ===== *)
(** * The attestation task comes to an end

    A prover network that lists provers, fails some of the requests and then
    serves: the task of a key ends with one transaction on L1 and its row
    deleted, whatever the errors and whoever is struck out on the way.  The last
    part is a concrete run with an attestation the guest accepts. *)
From S2P Require Import Prelude BytesCodec Rlp Interaction Validator NitroVerifier Frames ProxyDb Attestation.
From S2P Require Import Reader CborSpec ValidatorSpec AttestationSpec.
From stdpp Require Import strings.
#[local] Open Scope Z_scope.

(** The store, the failures to come, the number of requests, what L1 received. *)
Record World : Type := {
  store : Db;
  faults : list WaitError;
  issued : nat;
  sent : list (list Z * list Z) }.

Definition with_store d w := {| store := d; faults := faults w; issued := issued w; sent := sent w |}.
Definition with_faults fs w := {| store := store w; faults := fs; issued := issued w; sent := sent w |}.
Definition with_issue w := {| store := store w; faults := faults w; issued := S (issued w); sent := sent w |}.
Definition with_sent tx w := {| store := store w; faults := faults w; issued := issued w; sent := sent w ++ [tx] |}.

Section Network.
Context (provers ha_provers : list (list Z)) (fulfiller : list Z -> outcome string (option (option (list Z)))) (proof : Sp1Proof).

Definition l1_answers {R} (c : VerifierCall R) (w : World) : R * World :=
  match c in VerifierCall R return R * World with
  | CallWithTimeout _ _ => (Ok None, w)
  | SendTransaction to_ input_ => (Ok [], with_sent (to_, input_) w)
  | GetReceipt _ => (Ok {| receipt_status := true; receipt_tx_hash := [] |}, w)
  end.

Definition network_answers (R : Type) (c : ProxyCall R) (w : World) : R * World :=
  match c in ProxyCall R return R * World with
  | Sql q => (Some (reply q (store w)), with_store (update q (store w)) w)
  | UnixNow => (0, w)
  | ConnectNetwork => (Ok tt, w)
  | GetProversByUptime high_availability_only => (Ok (if high_availability_only then ha_provers else provers), w)
  | RequestProof _ _ _ => (Ok (be_encode 32 (Z.of_nat (issued w))), with_issue w)
  | WaitProof _ => match faults w with [] => (Ok proof, w) | e :: fs => (Err e, with_faults fs w) end
  | GetProofRequest id => (fulfiller id, w)
  | L1 c => l1_answers c w
  | VsockConnect => (Err "no enclave", w)
  | Stream c => match c in StreamCall R return R * World with
                | WriteAll _ | Flush => (Err "no enclave", w)
                | ReadExact _ => (Err "no enclave", w)
                end
  | CredentialsProvider => (false, w)
  | ProvideCredentials => (Err "no credentials", w)
  | LockHandshake | UnlockHandshake | SpawnProve _ _ | SpawnChallenge _ _ _ | SleepSecs _ => (tt, w)
  end.

Abbreviation eval := (eval network_answers).

Context `{Keccak, NitroCrypto, HostParsers, VerifierAbi}.
Context (cfg : AttestationConfig) (pk att : list Z) (input : GuestInput) (address : list Z) (time : Z).
Context (Hprovers : provers <> []) (Haddr : Forall (fun p => length p = 20%nat) provers).
Context (Hful : forall id, fulfiller id <> Panic).
Context (Hinput : prepare_guest_input att (ROOT_CERT_DER cfg) = Ok input).
Context (Hvalues : decode_public_values (proof_public_values proof) = Ok (address, time)).
Context (Hpk : pubkey_to_address pk = Ok address).

Definition the_transaction : list Z * list Z :=
  (nitro_verifier_addr cfg, verifyAttestation_encode address time (proof_onchain_bytes proof)).

(** Only the key's row changed. *)
Definition others_kept (w w' : World) : Prop :=
  delete pk (pending_attestation (store w')) = delete pk (pending_attestation (store w)) /\
  challenges (store w') = challenges (store w).

(** The task is done: one transaction, no row. *)
Definition finished (w w' : World) : Prop :=
  others_kept w w' /\ pending_attestation (store w') !! pk = None /\ sent w' = sent w ++ [the_transaction].

(** A run failed; [n] of the failures are behind it. *)
Definition failed (n : nat) (w w' : World) : Prop :=
  others_kept w w' /\ sent w' = sent w /\ (length (faults w') + n <= length (faults w))%nat.

Lemma others_kept_refl w : others_kept w w.
Proof. done. Qed.
Lemma others_kept_trans w1 w2 w3 : others_kept w1 w2 -> others_kept w2 w3 -> others_kept w1 w3.
Proof. unfold others_kept. intros [E1 E2] [E3 E4]. by rewrite E3, E4. Qed.
Lemma others_kept_alter f w d : d = with_pending (alter f pk) (store w) -> others_kept w (with_store d w).
Proof.
  intros ->. split; [|done]. cbn. apply map_eq. intros k. destruct (decide (k = pk)) as [->|Hk].
  - by rewrite !lookup_delete_eq.
  - by rewrite !lookup_delete_ne, lookup_alter_ne by done.
Qed.
Lemma finished_trans w1 w2 w3 n : failed n w1 w2 -> finished w2 w3 -> finished w1 w3.
Proof.
  intros (K1 & E1 & _) (K2 & Hn & E2). split; [by eapply others_kept_trans|]. split; [done|]. by rewrite E2, E1.
Qed.
Lemma failed_trans w1 w2 w3 m n : failed m w1 w2 -> failed n w2 w3 -> failed (m + n) w1 w3.
Proof.
  intros (K1 & E1 & L1) (K2 & E2 & L2). split; [by eapply others_kept_trans|]. split; [by rewrite E2|]. lia.
Qed.
Lemma failed_refl w : failed 0 w w.
Proof. split; [done|]. split; [done|]. lia. Qed.

(** ** Evaluation of the steps *)

Lemma eval_sql {R A} (q : Query R) (k : option R -> io A) w :
  eval (sql q ≫= k) w = eval (k (Some (reply q (store w)))) (with_store (update q (store w)) w).
Proof. unfold sql, do. by rewrite eval_bind, eval_lift. Qed.

Lemma eval_finish w : exists w', eval (finish_proof cfg pk proof) w = (Ok tt, w') /\ finished w w'.
Proof.
  eexists. split.
  - unfold finish_proof. rewrite eval_bind. unfold submit_proof_to_l1. rewrite eval_bind. unfold of_outcome at 1.
    rewrite Hpk. cbn [eval run]. rewrite eval_bind. unfold context. rewrite eval_map_err. unfold of_outcome. rewrite Hvalues.
    cbn [eval run map_err]. cbn zeta. rewrite decide_False by (intros Hn; by apply Hn).
    rewrite eval_bind, eval_hoist. reflexivity.
  - split; [split|split]; cbn.
    + by rewrite delete_delete_eq.
    + done.
    + apply lookup_delete_eq.
    + done.
Qed.

Lemma mapM_addresses l : Forall (fun p => length p = 20%nat) l -> mapM address_from_slice l = Ok l.
Proof.
  induction 1 as [|p l Hp _ IH]; [done|]. cbn [mapM].
  assert (E : address_from_slice p = Ok p) by (unfold address_from_slice; by rewrite decide_True). rewrite E.
  cbn [mbind outcome_bind]. by rewrite IH.
Qed.

(** Without a blacklist there is somebody to ask. *)
Lemma eval_whitelist bl w : exists r, eval (fetch_ha_whitelist bl) w = (r, w) /\
  match r with Ok _ => True | Err _ => bl <> ∅ | Panic => False end.
Proof.
  unfold fetch_ha_whitelist, context, ask. rewrite eval_bind, eval_map_err, eval_trigger. cbn [network_answers map_err].
  rewrite eval_bind, eval_map_err, eval_trigger. cbn [network_answers map_err].
  rewrite eval_bind. unfold of_outcome. rewrite mapM_addresses by done. cbn [eval run]. cbn zeta.
  destruct (filter (fun addr => addr ∉ bl) provers) as [|a l] eqn:E; eexists; (split; [reflexivity|]); [|done].
  intros ->. destruct provers as [|p ps]; [done|]. assert (Hin : p ∈ @nil (list Z)); [|by apply not_elem_of_nil in Hin].
  rewrite <- E. apply list_elem_of_filter. split; [set_solver|left].
Qed.

Lemma eval_identify id bl w : exists bl', eval (blacklist_fulfiller id bl) w = (Ok bl', w).
Proof.
  unfold blacklist_fulfiller, identify_fulfiller, ask. rewrite !eval_bind, eval_attempt, eval_trigger.
  cbn [network_answers]. specialize (Hful id). destruct (fulfiller id) as [[[b|]|]|e|]; [by eexists..|done].
Qed.

Lemma eval_reset bl w : exists bl', eval (reset_blacklist bl) w = (Ok bl', w).
Proof.
  unfold reset_blacklist. rewrite eval_bind, eval_attempt. unfold fetch_ha_prover_count, context, ask.
  rewrite eval_bind, eval_map_err, eval_trigger. cbn [network_answers map_err].
  rewrite eval_bind, eval_map_err, eval_trigger. cbn [network_answers map_err]. by eexists.
Qed.

(** How a run of the task may end, with at least [n] failures behind it when it
    does not succeed. *)
Definition run_end (n : nat) (w w' : World) (r : outcome string (option unit)) : Prop :=
  match r with
  | Ok (Some tt) => finished w w'
  | Err _ => failed n w w'
  | _ => False
  end.

Lemma run_end_after n m w1 w2 w3 r : failed n w1 w2 -> run_end m w2 w3 r -> run_end (n + m) w1 w3 r.
Proof.
  intros Hf Hr. destruct r as [[[]|]|e|]; cbn in *; try done; [by eapply finished_trans|by eapply failed_trans].
Qed.

Lemma run_end_weaken n m w w' r : (m <= n)%nat -> run_end n w w' r -> run_end m w w' r.
Proof.
  intros Hm Hr. destruct r as [[[]|]|e|]; cbn in *; try done. destruct Hr as (K & E & L). split; [done|]. split; [done|lia].
Qed.

Lemma eval_done w : exists w', eval (_ ← finish_proof cfg pk proof; mret (Some tt)) w = (Ok (Some tt), w') /\ finished w w'.
Proof. destruct (eval_finish w) as (w' & E & Hf). exists w'. by rewrite eval_bind, E. Qed.

(** A failure is consumed, and the row's request forgotten. *)
Lemma failed_one w e fs : faults w = e :: fs ->
  failed 1 w (with_store (clear_request_id pk (store w)) (with_faults fs w)).
Proof.
  intros E. split; [|split; [done|cbn; rewrite E; cbn; lia]].
  eapply (others_kept_trans w (with_faults fs w)); [done|]. by eapply others_kept_alter.
Qed.

Lemma eval_rounds n : forall bl w, (length (faults w) < n)%nat ->
  exists r w', eval (prove_rounds n cfg pk input bl) w = (r, w') /\ run_end (if decide (bl = ∅) then 1 else 0) w w' r.
Proof.
  induction n as [|n IH]; intros bl w Hn; [lia|]. cbn [prove_rounds]. rewrite eval_bind.
  destruct (eval_whitelist bl w) as (wl & -> & Hwl). destruct wl as [wl|e|]; [| |done].
  2: { exists (Err e), w. split; [done|]. rewrite decide_False by done. apply failed_refl. }
  unfold context, ask. rewrite eval_bind, eval_map_err, eval_trigger. cbn [network_answers map_err].
  rewrite eval_sql. set (w1 := with_store _ _).
  assert (Hf1 : failed 0 w w1).
  { split; [|split; [done|cbn; lia]]. eapply (others_kept_trans w (with_issue w)); [done|]. by eapply others_kept_alter. }
  assert (Hw1 : faults w1 = faults w) by done. clearbody w1.
  unfold do. rewrite eval_bind, eval_lift. cbn [network_answers].
  destruct (faults w1) as [|e fs] eqn:Ef.
  { destruct (eval_done w1) as (w2 & -> & Hf). exists (Ok (Some tt)), w2. split; [done|].
    apply (run_end_after 0 _ w w1 w2); [done|]. by destruct (decide (bl = ∅)). }
  pose proof (failed_trans _ _ _ _ _ Hf1 (failed_one w1 e fs Ef)) as Hf. cbn in Hf.
  destruct (is_retriable (wait_kind e)).
  - rewrite eval_bind. destruct (eval_identify (be_encode 32 (Z.of_nat (issued w))) bl (with_faults fs w1)) as (bl1 & ->).
    rewrite eval_sql, eval_bind. cbn [update]. edestruct eval_reset as (bl2 & ->).
    set (w2 := with_store (clear_request_id pk (store w1)) (with_faults fs w1)) in Hf.
    change (with_store _ (with_faults fs w1)) with w2. assert (Hl : (length (faults w2) < n)%nat).
    { change (faults w2) with fs. rewrite <- Hw1 in Hn. by apply Nat.succ_lt_mono. }
    destruct (IH bl2 w2 Hl) as (r & w3 & -> & Hr). exists r, w3. split; [done|].
    apply (run_end_weaken 1); [by destruct (decide (bl = ∅)); auto|]. apply (run_end_after 1 0 w w2 w3); [done|].
    eapply run_end_weaken; [|exact Hr]. lia.
  - rewrite eval_sql. cbn [update]. eexists _, _. split; [reflexivity|]. eapply (run_end_weaken 1 _ w _ (Err _)); [by destruct (decide (bl = ∅)); auto|exact Hf].
Qed.

(** One run of the task, from a row with or without a saved request. *)
Lemma eval_fresh n w : (length (faults w) < n)%nat ->
  exists r w', eval (prove_fresh n cfg pk att) w = (r, w') /\ run_end 1 w w' r.
Proof.
  intros Hn. unfold prove_fresh, context. rewrite eval_bind, eval_map_err. unfold of_outcome. rewrite Hinput.
  cbn [eval run map_err]. destruct (eval_rounds n ∅ w Hn) as (r & w' & E & Hr). exists r, w'. by rewrite decide_True in Hr.
Qed.

Lemma eval_run n w : (length (faults w) < n)%nat ->
  exists r w', eval (prove_and_submit_for_key n cfg pk att) w = (r, w') /\ run_end 1 w w' r.
Proof.
  intros Hn. unfold prove_and_submit_for_key. rewrite eval_sql. cbn [reply update].
  replace (with_store (id (store w)) w) with w by by destruct w.
  cbn [mjoin option_join]. destruct (get_request_id pk (store w)) as [id|]; [|by apply eval_fresh].
  unfold do. rewrite eval_bind, eval_lift. cbn [network_answers]. destruct (faults w) as [|e fs] eqn:Ef.
  { destruct (eval_done w) as (w' & -> & Hf). by exists (Ok (Some tt)), w'. }
  rewrite eval_sql. cbn [update]. pose proof (failed_one w e fs Ef) as Hf.
  set (w1 := with_store (clear_request_id pk (store w)) (with_faults fs w)) in Hf.
  change (with_store _ (with_faults fs w)) with w1.
  destruct (eval_fresh n w1) as (r & w2 & -> & Hr); [change (faults w1) with fs; cbn in Hn; lia|].
  exists r, w2. split; [done|]. eapply run_end_weaken; [|by eapply run_end_after]. lia.
Qed.

Lemma eval_loop rounds runs : forall w, (length (faults w) < rounds)%nat -> (length (faults w) < runs)%nat ->
  exists w', eval (run_prove_loop runs rounds pk att cfg) w = (Ok (Some tt), w') /\ finished w w'.
Proof.
  induction runs as [|runs IH]; intros w Hrounds Hruns; [lia|]. cbn [run_prove_loop].
  rewrite eval_bind, eval_attempt. destruct (eval_run rounds w Hrounds) as (r & w1 & -> & Hr).
  destruct r as [[[]|]|e|]; cbn in Hr; try done; [by exists w1|].
  unfold do. rewrite eval_bind, eval_lift. cbn [network_answers].
  destruct (IH w1) as (w2 & -> & Hf); [destruct Hr as (_ & _ & L); lia..|].
  exists w2. split; [done|]. by eapply finished_trans.
Qed.
End Network.

(** C37: the attestation task comes to an end.  If the network lists provers, the
    first [faults] waits fail, each with any error, retriable or not, and the
    next one brings a proof of this key, then the task of the key returns within
    as many runs and rounds as there are failures, plus one: L1 has received one
    transaction, the one for this key and its time, the key's row is gone and
    every other row is as before. *)
Theorem attestation_completes `{Keccak, NitroCrypto, HostParsers, VerifierAbi} provers ha_provers fulfiller proof cfg pk att
    input address time w runs rounds
    (Hprovers : provers <> []) (Haddr : Forall (fun p => length p = 20%nat) provers)
    (Hful : forall id, fulfiller id <> Panic)
    (Hinput : prepare_guest_input att (ROOT_CERT_DER cfg) = Ok input)
    (Hvalues : decode_public_values (proof_public_values proof) = Ok (address, time))
    (Hpk : pubkey_to_address pk = Ok address)
    (Hrounds : (length (faults w) < rounds)%nat) (Hruns : (length (faults w) < runs)%nat) :
  exists w', eval (network_answers provers ha_provers fulfiller proof) (run_prove_loop runs rounds pk att cfg) w = (Ok (Some tt), w') /\
    sent w' = sent w ++ [(nitro_verifier_addr cfg, verifyAttestation_encode address time (proof_onchain_bytes proof))] /\
    pending_attestation (store w') !! pk = None /\
    (forall k, k <> pk -> pending_attestation (store w') !! k = pending_attestation (store w) !! k) /\
    challenges (store w') = challenges (store w).
Proof.
  destruct (eval_loop provers ha_provers fulfiller proof cfg pk att input address time Hprovers Haddr Hful Hinput Hvalues Hpk
    rounds runs w Hrounds Hruns) as (w' & E & [Ho Hc] & Hn & Hs).
  exists w'. split; [exact E|]. split; [exact Hs|]. split; [exact Hn|]. split; [|exact Hc].
  intros k Hk. apply (f_equal (lookup k)) in Ho. by rewrite !lookup_delete_ne in Ho.
Qed.

(** ** An attestation of the guest's example, proved after two failures *)

#[local] Existing Instance toy_keccak.
#[local] Existing Instance toy_nitro.

#[local] Instance sample_parsers : HostParsers.
Proof.
  refine {|
    cose_sign1_from_reader b :=
      if decide (b = [1]) then Ok (cose_protected sample_attestation, sample_payload, cose_signature sample_attestation) else Err "not COSE";
    x509_from_der der :=
      if decide (der = [2]) then
        Ok {| tbs_certificate := []; signature_value := []; subject_public_key := root_pubkey sample_attestation; x509_subject := sample_subject |}
      else if decide (der = [3]) then
        Ok {| tbs_certificate := sample_tbs; signature_value := [3]; subject_public_key := 0 :: 4 :: replicate 95 6 ++ [8]; x509_subject := sample_subject |}
      else Err "not a certificate";
    doc_from_reader _ := Ok ([], [3]) |}.
  intros b protected payload signature E. destruct (decide (b = [1])); [|done]. injection E as _ <- _.
  apply (bool_decide_unpack _). vm_compute. exact I.
Defined.

#[local] Instance sample_verifier_abi : VerifierAbi := {|
  verifiedPubkeys_encode k := k;
  verifiedPubkeys_decode_returns _ := Ok true;
  verifyAttestation_encode a t p := a ++ be_encode 8 t ++ p |}.

Definition sample_cfg : AttestationConfig := {| nitro_verifier_addr := [9]; ROOT_CERT_DER := [2] |}.
Definition sample_proof : Sp1Proof := {| proof_public_values := sample_committed; proof_onchain_bytes := [5; 5]; proof_bincode := Ok [5] |}.
Definition sample_row : PendingRow := {| attestation := [1]; request_id := None; pa_created_at := 0 |}.
Definition other_row : PendingRow := {| attestation := [7]; request_id := None; pa_created_at := 0 |}.
Definition sample_prover : list Z := replicate 20 1.
Definition sample_provers : list (list Z) := [sample_prover; replicate 20 2].
Definition sample_fulfiller (id : list Z) : outcome string (option (option (list Z))) := Ok (Some (Some sample_prover)).
Definition sample_world : World := {|
  store := {| pending_attestation := <[sample_user_key := sample_row]> {[ [8] := other_row ]}; challenges := ∅ |};
  faults := [{| wait_kind := RequestUnfulfillable; wait_text := "unfulfillable" |}; {| wait_kind := OtherError; wait_text := "io" |}];
  issued := 0; sent := [] |}.

Lemma sample_prepared : prepare_guest_input [1] (ROOT_CERT_DER sample_cfg) = Ok sample_attestation.
Proof. vm_compute. reflexivity. Qed.

Definition sample_address : list Z := replicate 19 0 ++ [77].

Lemma attestation_completes_witness :
  exists w', eval (network_answers sample_provers [] sample_fulfiller sample_proof)
      (run_prove_loop 3 3 sample_user_key [1] sample_cfg) sample_world = (Ok (Some tt), w') /\
    sent w' = sent sample_world ++ [(nitro_verifier_addr sample_cfg,
      verifyAttestation_encode sample_address 1700000000 (proof_onchain_bytes sample_proof))] /\
    pending_attestation (store w') !! sample_user_key = None /\
    (forall k, k <> sample_user_key -> pending_attestation (store w') !! k = pending_attestation (store sample_world) !! k) /\
    challenges (store w') = challenges (store sample_world).
Proof.
  apply (attestation_completes sample_provers [] sample_fulfiller sample_proof sample_cfg sample_user_key [1]
    sample_attestation sample_address 1700000000 sample_world 3 3).
  - done.
  - repeat constructor.
  - done.
  - apply sample_prepared.
  - vm_compute. reflexivity.
  - vm_compute. reflexivity.
  - cbn. lia.
  - cbn. lia.
Defined.

(** The same task with no failure: its trace. *)
Definition sample_id : list Z := be_encode 32 0.
Definition sample_submission : list Z := sample_address ++ be_encode 8 1700000000 ++ [5; 5].
Definition sample_trace : list (event ProxyCall) := [
  Ev (Sql (GetRequestId sample_user_key)) (Some None);
  Ev ConnectNetwork (Ok tt);
  Ev (GetProversByUptime false) (Ok sample_provers);
  Ev (RequestProof (StdinGuestInput sample_attestation) None sample_provers) (Ok sample_id);
  Ev (Sql (SetRequestId sample_user_key sample_id)) (Some tt);
  Ev (WaitProof sample_id) (Ok sample_proof);
  Ev (L1 (SendTransaction [9] sample_submission)) (Ok []);
  Ev (L1 (GetReceipt [])) (Ok {| receipt_status := true; receipt_tx_hash := [] |});
  Ev (Sql (DeletePendingAttestation sample_user_key)) (Some tt)].

Definition calm_world : World := {| store := store sample_world; faults := []; issued := 0; sent := [] |}.

Lemma sample_exec : exec (run_prove_loop 1 1 sample_user_key [1] sample_cfg) sample_trace (Ok (Some tt)).
Proof.
  pose proof (run_sound (network_answers sample_provers [] sample_fulfiller sample_proof)
    (run_prove_loop 1 1 sample_user_key [1] sample_cfg) calm_world) as E.
  assert (Er : run (network_answers sample_provers [] sample_fulfiller sample_proof)
    (run_prove_loop 1 1 sample_user_key [1] sample_cfg) calm_world =
    (Ok (Some tt), sample_trace, {| store := delete_pending_attestation sample_user_key (store sample_world);
       faults := []; issued := 1; sent := [([9], sample_submission)] |})) by (vm_compute; reflexivity).
  by rewrite Er in E.
Qed.

Lemma sample_honest : honest_trace (observe sample_user_key) (honest true sample_user_key) (fresh_task (Some sample_row) ∅) sample_trace.
Proof.
  unfold sample_trace. repeat (split; [|]). all: try done. all: cbn [honest].
  - injection H as <-. reflexivity.
  - intros p input Ep Hq. injection Ep as <-.
    change (requests _) with (<[sample_id := sample_attestation]> (∅ : gmap (list Z) GuestInput)) in Hq.
    rewrite lookup_insert_eq in Hq. injection Hq as <-. vm_compute. reflexivity.
Qed.

Lemma attestation_pipeline_witness :
  respects (allowed true sample_cfg sample_user_key [1]) (observe sample_user_key) (fresh_task (Some sample_row) ∅) sample_trace /\
  confirmed (after (observe sample_user_key) (fresh_task (Some sample_row) ∅) sample_trace) = true.
Proof.
  destruct (attestation_pipeline true sample_cfg sample_user_key [1] (Some sample_row) ∅ 1 1 sample_trace (Ok (Some tt))) as (Hr & _ & Hc).
  - intros id Hid. exfalso. unfold get_request_id in Hid. rewrite row_of in Hid. discriminate Hid.
  - exact sample_exec.
  - exact sample_honest.
  - split; [exact Hr|]. by apply Hc.
Defined.
