(* ===== verification/ProxyEnclave.v ===== *)
(** * The proxy's side of the enclave ([bin/proxy/src/enclave.rs],
      [attestation/driver.rs])

    One request per connection: a frame out, a frame back.  A call that finds the
    enclave without a key runs the handshake, which stores the new key's
    attestation and starts its task, and repeats the request once.  The enclave's
    messages are those of [EnclaveLoop]; their bincode and that of the answers
    are parameters. *)
From S2P Require Import Prelude BytesCodec Rlp Interaction NitroTypes WitnessDb Executor EnclaveLoop.
From S2P Require Import Validator NitroVerifier Frames ProxyDb Attestation.
From stdpp Require Import strings.
#[local] Open Scope Z_scope.

(** [EnclaveResponse] as it arrives: errors are texts. *)
Inductive Response : Type :=
  | KeyGenerated (public_key attestation : list Z)
  | AlreadyInitialized (public_key attestation : list Z)
  | NotInitialized
  | ExecutionResult (resp : EthExecutionResponse)
  | SubmitBatchResult (resp : SubmitBatchResponse)
  | InvalidSignatures (invalid_blocks : list Z) (enclave_address : list Z)
  | Error (text : string).

(** [{:?}] of a response. *)
Class Bincode `{ChainTypes, !Reth} : Type := {
  serialize_incoming : EnclaveIncoming -> outcome string (list Z);
  deserialize_response : list Z -> outcome string Response;
  debug_response : Response -> string }.

Section Enclave.
Context `{Keccak, NitroCrypto, HostParsers, VerifierAbi, ChainTypes, !Reth, !Bincode}.

(** ** One request *)

Definition over_stream {A} (p : eff StreamCall string A) : io A := hoist (@Stream) p.

Definition send_to_enclave (msg : EnclaveIncoming) : io Response :=
  payload ← context "Failed to serialize enclave request: " (of_outcome (serialize_incoming msg));
  _ ← context "VSOCK connect failed: " (ask VsockConnect);
  _ ← over_stream (Proxy.write_frame payload);
  resp_bytes ← over_stream Proxy.read_frame;
  context "Failed to deserialize enclave response: " (of_outcome (deserialize_response resp_bytes)).

(** ** The handshake *)

Definition resolve_aws_credentials : io AwsCredentials :=
  provider ← do CredentialsProvider;
  if (provider : bool) then
    creds ← wrap_err "Failed to resolve AWS credentials" (ask ProvideCredentials);
    let '(access_key_id, secret_access_key, session_token) := creds in
    mret {| access_key_id := access_key_id; secret_access_key := secret_access_key;
            session_token := default EmptyString session_token |}
  else throw "No AWS credentials provider available".

(** Public key, attestation, and whether the key is new. *)
Definition handshake_with_enclave : io (list Z * list Z * bool) :=
  credentials ← resolve_aws_credentials;
  resp ← wrap_err "Handshake with enclave failed" (send_to_enclave (Handshake credentials));
  match resp with
  | KeyGenerated public_key attestation => mret (public_key, attestation, true)
  | AlreadyInitialized public_key attestation => mret (public_key, attestation, false)
  | Error e => throw ("Enclave returned error: " +:+ e)
  | other => throw ("Unexpected handshake response: " +:+ debug_response other)
  end.

(** The guard of the lock is dropped on every way out. *)
Definition with_lock {A} (p : io A) : io A :=
  _ ← do LockHandshake;
  r ← attempt p;
  _ ← do UnlockHandshake;
  of_outcome r.

Definition ensure_handshake_locked (att_cfg : option AttestationConfig) : io unit :=
  r ← handshake_with_enclave;
  let '(public_key, attestation, is_new_key) := r in
  if (is_new_key : bool) then
    _ ← insert_pending_attestation public_key attestation;
    match att_cfg with
    | Some _ => do (SpawnProve public_key attestation)
    | None => mret tt
    end
  else mret tt.

Definition ensure_handshake (att_cfg : option AttestationConfig) : io unit :=
  with_lock (ensure_handshake_locked att_cfg).

(** ** Requests that need a key *)

Definition execute_block_inner (msg : EnclaveIncoming) (att_cfg : option AttestationConfig) : io EthExecutionResponse :=
  resp ← send_to_enclave msg;
  match resp with
  | ExecutionResult r => mret r
  | NotInitialized =>
      _ ← ensure_handshake att_cfg;
      retry ← send_to_enclave msg;
      match retry with
      | ExecutionResult r => mret r
      | Error e => throw ("Enclave error on retry: " +:+ e)
      | other => throw ("Unexpected response on retry: " +:+ debug_response other)
      end
  | Error e => throw ("Enclave error: " +:+ e)
  | other => throw ("Unexpected response: " +:+ debug_response other)
  end.

Definition submit_batch_inner (msg : EnclaveIncoming) (att_cfg : option AttestationConfig) : io Response :=
  resp ← send_to_enclave msg;
  match resp with
  | SubmitBatchResult _ | InvalidSignatures _ _ => mret resp
  | NotInitialized =>
      _ ← ensure_handshake att_cfg;
      retry ← send_to_enclave msg;
      match retry with
      | SubmitBatchResult _ | InvalidSignatures _ _ => mret retry
      | Error e => throw ("Enclave error on retry: " +:+ e)
      | other => throw ("Unexpected response on retry: " +:+ debug_response other)
      end
  | Error e => throw ("Enclave error: " +:+ e)
  | other => throw ("Unexpected response: " +:+ debug_response other)
  end.

Definition execute_block (input : ClientExecutorInput) (att_cfg : option AttestationConfig) : io EthExecutionResponse :=
  execute_block_inner (ExecuteBlock input) att_cfg.

Definition submit_batch (from_ to_ : Z) (responses : list EthExecutionResponse) (blobs : list (list Z))
    (att_cfg : option AttestationConfig) : io Response :=
  submit_batch_inner (SubmitBatch from_ to_ responses blobs) att_cfg.

(** What [main] does with the attestations before it listens. *)
Definition attestation_startup (att_cfg : option AttestationConfig) : io unit :=
  _ ← resume_all_pending att_cfg;
  ensure_handshake att_cfg.
End Enclave.
