(* ===== verification/ProxyEnclaveSpec.v ===== *)
(** * The proxy and the enclave together

    The enclave of [EnclaveLoop] is put at the other end of the proxy's socket: it
    receives the frames the proxy writes, handles one message, executes the job
    it queued, and answers with a frame.  Seen through both framings and both
    serialisations, a request of the proxy is one application of the enclave's
    own functions, and the first one registers the enclave's key. *)
From S2P Require Import Prelude BytesCodec Rlp BlobPayload BlobRoundtrip Interaction NitroTypes Network EthState WitnessDb Executor.
From S2P Require Enclave.
From S2P Require Import Mpt MptWire EnclaveLoop EnclaveSafety Validator NitroVerifier Frames ProxyDb Attestation ProxyEnclave.
From stdpp Require Import strings.
#[local] Open Scope Z_scope.

(** The enclave's own serialisation. *)
Class EnclaveBincode `{ChainTypes, !Reth} : Type := {
  deserialize_incoming : list Z -> option EnclaveIncoming;
  serialize_response : Enclave.EnclaveResponse -> outcome string (list Z);
  error_text : option Enclave.EnclaveError -> string }.

Section Link.
Context `{Keccak, AlloyRlp, RlpReader, Brotli, AccountCodec, ChainTypes, !Reth, Enclave.EnclaveCrypto}.
Context `{NitroCrypto, HostParsers, VerifierAbi, !Bincode, !EnclaveBincode}.
Context (net : network) (dev : Devices) (aws : string * string * option string).

(** ** The enclave as a server *)

(** The worker that takes the only job of the queue. *)
Definition work (st : EnclaveState) : outcome unit (EnclaveState * Enclave.EnclaveResponse) :=
  match queue st with
  | [] => Panic
  | job :: rest =>
      let '(result, mutex) := EnclaveLoop.execute_block net (job_input job) (signing_key (job_identity job)) (block_store st) in
      Ok ({| identity := identity st; block_store := mutex; queue := rest; running := running st |}, job_response result)
  end.

(** One message, [None] when it does not deserialize. *)
Definition call (st : EnclaveState) (m : option EnclaveIncoming) : outcome unit (EnclaveState * Enclave.EnclaveResponse) :=
  r ← handle_message net dev 0 m st;
  match r with
  | (st, Some resp) => Ok (st, resp)
  | (st, None) => work st
  end.

Definition serve (st : EnclaveState) (bytes : list Z) : outcome unit (EnclaveState * Enclave.EnclaveResponse) :=
  call st (deserialize_incoming bytes).

Definition idle (st : EnclaveState) : Prop := queue st = [] /\ running st = [].

(** Serving is a run of the enclave: the message, then the job. *)
Lemma call_reach st m st' resp : idle st -> call st m = Ok (st', resp) ->
  forall hist, reach net st hist -> exists evs, reach net st' (hist ++ evs) /\ idle st'.
Proof.
  intros [Hq Hr] E hist Hst. unfold call in E.
  destruct (handle_message net dev 0 m st) as [[st1 [resp1|]]|e|] eqn:Eh; cbn in E; [| |done..].
  - injection E as <- <-. exists [EvMessage 0 m (Some resp1)]. split.
    + eapply reach_step; [exact Hst|]. by eapply step_message.
    + unfold handle_message in Eh. destruct m as [[| |]|]; repeat case_match; cbn in *; inv_ok; by simplify_eq.
  - unfold work in E. destruct (queue st1) as [|job rest] eqn:Eq; [done|].
    destruct (EnclaveLoop.execute_block net _ _ _) as [result mutex] eqn:Ex. injection E as <- <-.
    assert (Hs : running st1 = [] /\ rest = []).
    { unfold handle_message in Eh. destruct m as [[| |]|]; repeat case_match; cbn in *; inv_ok; simplify_eq; cbn in *.
      rewrite Hq in Eq. by injection Eq as _ <-. }
    destruct Hs as [Hr1 ->].
    exists [EvMessage 0 m None; EvTake (channel job); EvDone (channel job) (job_input job) (job_response result)].
    split; [|by split; [|by rewrite Hr1]].
    match goal with |- reach _ _ (hist ++ [?a; ?b; ?c]) => replace (hist ++ [a; b; c]) with (((hist ++ [a]) ++ [b]) ++ [c]) by by rewrite <- !app_assoc end.
    eapply reach_step; [eapply reach_step; [eapply reach_step; [exact Hst|by eapply step_message]|]|].
    + apply (step_take net job []); [done|rewrite Hr1; cbn; unfold EXECUTE_WORKER_COUNT; lia].
    + rewrite Hr1. apply (step_done net [] job [] {| identity := identity st1; block_store := block_store st1; queue := []; running := [job] |}
        result mutex); [done|exact Ex].
Qed.

(** ** The socket between them *)

(** What the proxy makes of an answer. *)
Definition view (r : Enclave.EnclaveResponse) : Response :=
  match r with
  | Enclave.KeyGenerated k a => KeyGenerated k a
  | Enclave.AlreadyInitialized k a => AlreadyInitialized k a
  | Enclave.NotInitialized => NotInitialized
  | Enclave.ExecutionResult r => ExecutionResult r
  | Enclave.SubmitBatchResult r => SubmitBatchResult r
  | Enclave.InvalidSignaturesResult blocks address => InvalidSignatures blocks address
  | Enclave.ErrorResponse e => Error (error_text e)
  end.

(** Messages that bincode carries over and that fit the readers' limits. *)
Definition carried_in (m : EnclaveIncoming) : Prop :=
  exists b, serialize_incoming m = Ok b /\ Z.of_nat (length b) <= VsockChannel.MAX_FRAME_SIZE /\ deserialize_incoming b = Some m.
Definition carried_out (r : Enclave.EnclaveResponse) : Prop :=
  exists b, serialize_response r = Ok b /\ Z.of_nat (length b) <= Proxy.MAX_FRAME_SIZE /\ deserialize_response b = Ok (view r).

(** The enclave, the bytes under way, the proxy's store, the tasks it started
    and its handshake lock. *)
Record World : Type := {
  enclave : EnclaveState;
  inbound : list Z;
  outbound : list Z;
  store : Db;
  spawned : list (list Z * list Z);
  locked : bool }.

Definition with_wire st i o w := {| enclave := st; inbound := i; outbound := o; store := store w; spawned := spawned w; locked := locked w |}.
Definition with_store d w := {| enclave := enclave w; inbound := inbound w; outbound := outbound w; store := d; spawned := spawned w; locked := locked w |}.
Definition with_spawned t w := {| enclave := enclave w; inbound := inbound w; outbound := outbound w; store := store w; spawned := spawned w ++ [t]; locked := locked w |}.
Definition with_locked b w := {| enclave := enclave w; inbound := inbound w; outbound := outbound w; store := store w; spawned := spawned w; locked := b |}.

(** The enclave answers when a frame is there and the proxy waits. *)
Definition respond (w : World) : World :=
  match outbound w, on_pipe VsockChannel.receive (inbound w) with
  | [], (Ok bytes, rest) =>
      match serve (enclave w) bytes with
      | Ok (st, resp) => with_wire st rest (on_pipe (VsockChannel.send_bincode (serialize_response resp)) []).2 w
      | _ => w
      end
  | _, _ => w
  end.

Definition on_socket {R} (c : StreamCall R) (w : World) : R * World :=
  match c in StreamCall R return R * World with
  | WriteAll data => (Ok tt, with_wire (enclave w) (inbound w ++ data) (outbound w) w)
  | Flush => (Ok tt, w)
  | ReadExact n =>
      let w := respond w in
      let '(r, o) := pipe _ (ReadExact n) (outbound w) in (r, with_wire (enclave w) (inbound w) o w)
  end.

(** A working network, store and AWS; a free lock is taken. *)
Definition answers (R : Type) (c : ProxyCall R) (w : World) : R * World :=
  match c in ProxyCall R return R * World with
  | Sql q => (Some (reply q (store w)), with_store (update q (store w)) w)
  | UnixNow => (0, w)
  | VsockConnect => (Ok tt, with_wire (enclave w) [] [] w)
  | Stream c => on_socket c w
  | CredentialsProvider => (true, w)
  | ProvideCredentials => (Ok aws, w)
  | LockHandshake => (tt, with_locked true w)
  | UnlockHandshake => (tt, with_locked false w)
  | SpawnProve k a => (tt, with_spawned (k, a) w)
  | SpawnChallenge _ _ _ | SleepSecs _ => (tt, w)
  | ConnectNetwork | GetProversByUptime _ | RequestProof _ _ _ | GetProofRequest _ => (Err "no network", w)
  | WaitProof _ => (Err {| wait_kind := OtherError; wait_text := "no network" |}, w)
  | L1 c => match c in VerifierCall R return R * World with
            | CallWithTimeout _ _ => (Err "no L1", w)
            | SendTransaction _ _ => (Err "no L1", w)
            | GetReceipt _ => (Err "no L1", w)
            end
  end.

Abbreviation eval := (eval answers).

Lemma respond_keeps w : respond w = with_wire (enclave (respond w)) (inbound (respond w)) (outbound (respond w)) w.
Proof.
  unfold respond. destruct w as [e i o d t l]. cbn [inbound outbound enclave]. destruct o; [|done].
  destruct (on_pipe VsockChannel.receive i) as [[bytes|?|] rest]; [|done..]. by destruct (serve e bytes) as [[??]|?|].
Qed.

(** A frame out. *)
Lemma eval_write data w :
  eval (over_stream (Proxy.write_frame data)) w = (Ok tt, with_wire (enclave w) (inbound w ++ frame data) (outbound w) w).
Proof.
  unfold over_stream. rewrite eval_hoist. unfold Proxy.write_frame, wrap_err, ask.
  rewrite eval_bind, eval_map_err, eval_trigger. cbn [answers on_socket map_err].
  rewrite eval_bind, eval_map_err, eval_trigger. cbn [answers on_socket map_err].
  rewrite eval_bind, eval_map_err, eval_trigger. cbn [answers on_socket map_err].
  unfold frame, with_wire. cbn -[be_encode]. by rewrite <- app_assoc.
Qed.

(** A frame in, once the enclave has answered. *)
Lemma eval_read data w : outbound (respond w) = frame data -> Z.of_nat (length data) <= Proxy.MAX_FRAME_SIZE ->
  inbound (respond w) = [] ->
  eval (over_stream Proxy.read_frame) w = (Ok data, with_wire (enclave (respond w)) [] [] w).
Proof.
  intros Ho Hl Hi. unfold over_stream. rewrite eval_hoist. unfold Proxy.read_frame, wrap_err, ask.
  rewrite eval_bind, eval_map_err, eval_trigger. cbn [answers on_socket]. rewrite Ho. unfold frame.
  rewrite (pipe_read 4 (be_encode 4 (u32 (Z.of_nat (length data))))) by by rewrite length_be_encode.
  cbn [map_err]. unfold Proxy.MAX_FRAME_SIZE in *. rewrite u32_small by lia. rewrite be_round_trip by lia.
  cbn zeta. rewrite decide_False by lia. rewrite eval_map_err, eval_trigger. cbn [answers on_socket].
  set (w1 := with_wire _ _ _ _). assert (E : respond w1 = w1).
  { unfold respond. cbn [outbound w1 with_wire]. destruct data as [|b data]; [|done].
    cbn [inbound w1 with_wire]. by rewrite Hi. }
  rewrite E. cbn [outbound w1 with_wire]. rewrite <- (app_nil_r data) at 2.
  rewrite (pipe_read (Z.of_nat (length data)) data []) by done. cbn [map_err]. 
  assert (Hw : store (respond w) = store w /\ spawned (respond w) = spawned w /\ locked (respond w) = locked w)
    by by rewrite respond_keeps.
  destruct Hw as (Hs & Hp & Hk). unfold w1, with_wire. cbn. by rewrite Hi, Hs, Hp, Hk.
Qed.

(** ** One request *)

Lemma eval_send m w st resp : carried_in m -> call (enclave w) (Some m) = Ok (st, resp) -> carried_out resp ->
  eval (send_to_enclave m) w = (Ok (view resp), with_wire st [] [] w).
Proof.
  intros (b & Hb & Hl & Hd) Hc (b' & Hb' & Hl' & Hd'). unfold send_to_enclave, context, ask.
  rewrite eval_bind, eval_map_err. unfold of_outcome at 1. rewrite Hb, eval_ret. cbn [map_err].
  rewrite eval_bind, eval_map_err, eval_trigger. cbn [answers map_err].
  rewrite eval_bind, eval_write. cbn [enclave inbound outbound with_wire app]. set (w1 := with_wire _ _ _ _).
  assert (E : respond w1 = with_wire st [] (frame b') w).
  { unfold respond. cbn [enclave inbound outbound with_wire w1]. rewrite <- (app_nil_r (frame b)).
    rewrite (enclave_reads_whole b []) by done. unfold serve. rewrite Hd, Hc.
    rewrite Hb'. change (VsockChannel.send_bincode (Ok b')) with (VsockChannel.write_frame b'). rewrite enclave_writes.
    rewrite decide_True by (unfold Proxy.MAX_FRAME_SIZE in *; lia). done. }
  rewrite eval_bind, (eval_read b' w1); [|by rewrite E|done|by rewrite E]. rewrite E.
  rewrite eval_map_err. unfold of_outcome. by rewrite Hd', eval_ret.
Qed.

(** ** The handshake *)

Definition credentials : AwsCredentials :=
  let '(access_key_id, secret_access_key, session_token) := aws in
  {| access_key_id := access_key_id; secret_access_key := secret_access_key; session_token := default EmptyString session_token |}.

Definition with_identity (id : EnclaveIdentity) (st : EnclaveState) : EnclaveState :=
  {| identity := Some id; block_store := block_store st; queue := queue st; running := running st |}.

Lemma call_handshake st id : identity st = None -> generate_key dev credentials = Ok id ->
  call st (Some (Handshake credentials)) = Ok (with_identity id st, Enclave.KeyGenerated (EnclaveLoop.public_key id) (EnclaveLoop.attestation id)).
Proof. intros Hi Hk. unfold call, handle_message. by rewrite Hi, Hk. Qed.

Lemma call_handshake_fails st e : identity st = None -> generate_key dev credentials = Err e ->
  call st (Some (Handshake credentials)) = Ok (st, Enclave.ErrorResponse (Some e)).
Proof. intros Hi Hk. unfold call, handle_message. by rewrite Hi, Hk. Qed.

Lemma eval_credentials w : eval resolve_aws_credentials w = (Ok credentials, w).
Proof.
  unfold resolve_aws_credentials, do, wrap_err, ask. rewrite eval_bind, eval_lift. cbn [answers].
  rewrite eval_bind, eval_map_err, eval_trigger. cbn [answers map_err]. unfold credentials. by destruct aws as [[??]?].
Qed.

Lemma eval_handshake w st resp : carried_in (Handshake credentials) ->
  call (enclave w) (Some (Handshake credentials)) = Ok (st, resp) -> carried_out resp ->
  eval handshake_with_enclave w =
  (match view resp with
   | KeyGenerated k a => Ok (k, a, true)
   | AlreadyInitialized k a => Ok (k, a, false)
   | Error e => Err ("Enclave returned error: " +:+ e)
   | other => Err ("Unexpected handshake response: " +:+ debug_response other)
   end, with_wire st [] [] w).
Proof.
  intros Hin Hc Hout. unfold handshake_with_enclave, wrap_err.
  rewrite eval_bind, eval_credentials, eval_bind, eval_map_err, (eval_send _ w st resp) by done.
  cbn [map_err]. by destruct (view resp).
Qed.

(** A key and its row, and the task that proves it; or nothing. *)
Lemma eval_ensure w att_cfg id : carried_in (Handshake credentials) -> identity (enclave w) = None ->
  generate_key dev credentials = Ok id -> carried_out (Enclave.KeyGenerated (EnclaveLoop.public_key id) (EnclaveLoop.attestation id)) ->
  eval (ensure_handshake att_cfg) w = (Ok tt, {|
    enclave := with_identity id (enclave w); inbound := []; outbound := [];
    store := ProxyDb.insert_pending_attestation (EnclaveLoop.public_key id) (EnclaveLoop.attestation id) 0 (store w);
    spawned := spawned w ++ (if att_cfg then [(EnclaveLoop.public_key id, EnclaveLoop.attestation id)] else []);
    locked := false |}).
Proof.
  intros Hin Hi Hk Hout. unfold ensure_handshake, with_lock, do. rewrite eval_bind, eval_lift. cbn [answers].
  rewrite eval_bind, eval_attempt. unfold ensure_handshake_locked.
  rewrite eval_bind, (eval_handshake (with_locked true w) _ _ Hin (call_handshake _ _ Hi Hk) Hout). cbn [view].
  unfold insert_pending_attestation, sql, do. rewrite !eval_bind, eval_lift. cbn [answers]. rewrite eval_bind, eval_lift. cbn [answers].
  destruct att_cfg; cbn; [done|]. by rewrite app_nil_r.
Qed.

Lemma eval_ensure_fails w att_cfg e : carried_in (Handshake credentials) -> identity (enclave w) = None ->
  generate_key dev credentials = Err e -> carried_out (Enclave.ErrorResponse (Some e)) ->
  eval (ensure_handshake att_cfg) w =
    (Err ("Enclave returned error: " +:+ error_text (Some e)), with_locked false (with_wire (enclave w) [] [] w)).
Proof.
  intros Hin Hi Hk Hout. unfold ensure_handshake, with_lock, do. rewrite eval_bind, eval_lift. cbn [answers].
  rewrite eval_bind, eval_attempt. unfold ensure_handshake_locked.
  by rewrite eval_bind, (eval_handshake (with_locked true w) _ _ Hin (call_handshake_fails _ _ Hi Hk) Hout).
Qed.

(** An enclave that has a key, with or without a row for it: nothing happens. *)
Lemma eval_ensure_again w att_cfg id : carried_in (Handshake credentials) -> identity (enclave w) = Some id ->
  carried_out (Enclave.AlreadyInitialized (EnclaveLoop.public_key id) (EnclaveLoop.attestation id)) ->
  eval (ensure_handshake att_cfg) w = (Ok tt, with_locked false (with_wire (enclave w) [] [] w)).
Proof.
  intros Hin Hi Hout. unfold ensure_handshake, with_lock, do. rewrite eval_bind, eval_lift. cbn [answers].
  rewrite eval_bind, eval_attempt. unfold ensure_handshake_locked.
  assert (Hc : call (enclave (with_locked true w)) (Some (Handshake credentials)) =
    Ok (enclave w, Enclave.AlreadyInitialized (EnclaveLoop.public_key id) (EnclaveLoop.attestation id))).
  { unfold call, handle_message. cbn [enclave with_locked]. by rewrite Hi. }
  by rewrite eval_bind, (eval_handshake (with_locked true w) _ _ Hin Hc Hout).
Qed.

(** ** Executing *)

(** The job, done by the enclave's own function. *)
Definition job (st : EnclaveState) (id : EnclaveIdentity) (input : ClientExecutorInput) :=
  EnclaveLoop.execute_block net input (signing_key id) (block_store st).
Definition executed (st : EnclaveState) (id : EnclaveIdentity) (mutex : Enclave.Mutex) : EnclaveState :=
  {| identity := Some id; block_store := mutex; queue := []; running := [] |}.
Definition answer_of (prefix : string) (r : outcome Enclave.EnclaveError EthExecutionResponse) : outcome string EthExecutionResponse :=
  match r with
  | Ok out => Ok out
  | Err e => Err (prefix +:+ error_text (Some e))
  | Panic => Err (prefix +:+ error_text None)
  end.

Lemma call_execute st id input : idle st -> identity st = Some id ->
  call st (Some (ExecuteBlock input)) = Ok (executed st id (job st id input).2, job_response (job st id input).1).
Proof.
  intros [Hq Hr] Hi. unfold call, handle_message. rewrite Hi, Hq, Hr. cbn -[execute_block job]. unfold work, job. cbn -[EnclaveLoop.execute_block].
  rewrite decide_True by (unfold EXECUTE_WORKER_COUNT; lia). cbn -[EnclaveLoop.execute_block].
  by destruct (EnclaveLoop.execute_block net input (signing_key id) (block_store st)).
Qed.

Lemma eval_execute w att_cfg id input : idle (enclave w) -> identity (enclave w) = Some id ->
  carried_in (ExecuteBlock input) -> carried_out (job_response (job (enclave w) id input).1) ->
  eval (execute_block input att_cfg) w =
    (answer_of "Enclave error: " (job (enclave w) id input).1, with_wire (executed (enclave w) id (job (enclave w) id input).2) [] [] w).
Proof.
  intros Hidle Hi Hin Hout. unfold execute_block, execute_block_inner.
  rewrite eval_bind, (eval_send _ w _ _ Hin (call_execute _ _ _ Hidle Hi) Hout).
  by destruct (job (enclave w) id input) as [[out|e|] mutex].
Qed.

Lemma eval_execute_first w att_cfg id input : idle (enclave w) -> identity (enclave w) = None ->
  generate_key dev credentials = Ok id -> carried_in (ExecuteBlock input) -> carried_in (Handshake credentials) ->
  carried_out Enclave.NotInitialized ->
  carried_out (Enclave.KeyGenerated (EnclaveLoop.public_key id) (EnclaveLoop.attestation id)) ->
  carried_out (job_response (job (enclave w) id input).1) ->
  eval (execute_block input att_cfg) w = (answer_of "Enclave error on retry: " (job (enclave w) id input).1, {|
    enclave := executed (enclave w) id (job (enclave w) id input).2; inbound := []; outbound := [];
    store := ProxyDb.insert_pending_attestation (EnclaveLoop.public_key id) (EnclaveLoop.attestation id) 0 (store w);
    spawned := spawned w ++ (if att_cfg then [(EnclaveLoop.public_key id, EnclaveLoop.attestation id)] else []);
    locked := false |}).
Proof.
  intros Hidle Hi Hk Hin Hinh Hno Hkey Hout. unfold execute_block, execute_block_inner.
  assert (Hc : call (enclave w) (Some (ExecuteBlock input)) = Ok (enclave w, Enclave.NotInitialized)).
  { unfold call, handle_message. by rewrite Hi. }
  rewrite eval_bind, (eval_send _ w _ _ Hin Hc Hno). cbn [view].
  rewrite eval_bind, (eval_ensure (with_wire (enclave w) [] [] w) att_cfg id) by done.
  set (w1 := {| enclave := _ |}).
  assert (Hj : job (enclave w1) id input = job (enclave w) id input) by done.
  assert (Hidle1 : idle (enclave w1)) by exact Hidle.
  rewrite <- Hj in Hout |- *.
  rewrite eval_bind, (eval_send _ w1 _ _ Hin (call_execute (enclave w1) id input Hidle1 eq_refl) Hout).
  by destruct (job (enclave w1) id input) as [[out|e|] mutex].
Qed.
End Link.

(** C11: the first execution registers the key that signs it.  The proxy asks an
    enclave without a key to execute a block, over the socket: it is told so, runs
    the handshake and asks again.  The answer is the enclave's own execution of
    that block, signed with the new key; the store has a row for exactly this
    key, with the NSM's attestation of it and no request yet; the task that gets
    it to L1 was started once, if attestations are configured; the handshake lock
    is free; and the enclave went through one of its own runs.  From then on
    executions are single requests and change nothing but the enclave. *)
Theorem first_execution_registers_key
    `{Keccak, AlloyRlp, RlpReader, Brotli, AccountCodec, ChainTypes, !Reth, Enclave.EnclaveCrypto}
    `{!Bincode, !EnclaveBincode}
    net dev aws w att_cfg id input hist
    (Hidle : idle (enclave w)) (Hreach : reach net (enclave w) hist)
    (Hnone : identity (enclave w) = None) (Hkey : generate_key dev (credentials aws) = Ok id)
    (Hin : carried_in (ExecuteBlock input) /\ carried_in (Handshake (credentials aws)))
    (Hout : Forall carried_out [Enclave.NotInitialized; Enclave.KeyGenerated (EnclaveLoop.public_key id) (EnclaveLoop.attestation id);
                                job_response (job net (enclave w) id input).1])
    (Hrow : pending_attestation (store w) !! EnclaveLoop.public_key id = None) :
  EnclaveLoop.public_key id = Enclave.encoded_point (Enclave.verifying_key (signing_key id)) /\
  nsm_attestation dev (EnclaveLoop.public_key id) = Some (EnclaveLoop.attestation id) /\
  exists w1, eval (answers net dev aws) (execute_block input att_cfg) w =
      (answer_of "Enclave error on retry: " (job net (enclave w) id input).1, w1) /\
    pending_attestation (store w1) !! EnclaveLoop.public_key id =
      Some {| attestation := EnclaveLoop.attestation id; request_id := None; pa_created_at := 0 |} /\
    spawned w1 = spawned w ++ (if att_cfg then [(EnclaveLoop.public_key id, EnclaveLoop.attestation id)] else []) /\
    locked w1 = false /\ identity (enclave w1) = Some id /\
    (exists evs, reach net (enclave w1) (hist ++ evs)) /\
    forall cfg' input', carried_in (ExecuteBlock input') -> carried_out (job_response (job net (enclave w1) id input').1) ->
      eval (answers net dev aws) (execute_block input' cfg') w1 =
        (answer_of "Enclave error: " (job net (enclave w1) id input').1,
         with_wire (executed (enclave w1) id (job net (enclave w1) id input').2) [] [] w1).
Proof.
  destruct Hin as [Hin Hinh]. apply Forall_cons in Hout as [Hno Hout]. apply Forall_cons in Hout as [Hk Hout].
  apply Forall_cons in Hout as [Hj _].
  assert (Hpub : EnclaveLoop.public_key id = Enclave.encoded_point (Enclave.verifying_key (signing_key id)) /\
    nsm_attestation dev (EnclaveLoop.public_key id) = Some (EnclaveLoop.attestation id)).
  { unfold generate_key in Hkey. inv_ok. destruct (Enclave.signing_key_of_secret a1) as [key|]; [|done]. inv_ok.
    unfold of_device in *. destruct (nsm_attestation dev _) as [att|] eqn:E; [|done]. inv_ok. by split. }
  split; [apply Hpub|]. split; [apply Hpub|]. eexists. split; [by apply eval_execute_first|]. cbn -[job ProxyDb.insert_pending_attestation executed].
  split; [by rewrite pending_insert, Hrow, decide_True|]. split; [done|]. split; [done|]. split; [done|]. split.
  - assert (Hc : call net dev (enclave w) (Some (ExecuteBlock input)) = Ok (enclave w, Enclave.NotInitialized))
      by (unfold call, handle_message; by rewrite Hnone).
    destruct (call_reach net dev _ _ _ _ Hidle Hc hist Hreach) as (evs0 & Hr0 & Hi0).
    destruct (call_reach net dev _ _ _ _ Hi0 (call_handshake net dev aws (enclave w) id Hnone Hkey) _ Hr0) as (evs & Hr & Hi).
    destruct (call_reach net dev _ _ _ _ Hi (call_execute net dev (with_identity id (enclave w)) id input Hi eq_refl) _ Hr) as (evs' & Hr' & _).
    exists (evs0 ++ evs ++ evs'). rewrite !app_assoc. exact Hr'.
  - intros cfg' input' Hin' Hout'. by apply eval_execute.
Qed.

(** ** The enclave's sample run, over the socket *)
Section Samples.
#[local] Existing Instance RefRlp.alloy.
#[local] Existing Instance RefRlp.reader.
#[local] Existing Instance sample_keccak.
#[local] Existing Instance sample_codec.
#[local] Existing Instance sample_types.
#[local] Existing Instance sample_reth.
#[local] Existing Instance toy_brotli.
#[local] Existing Instance sample_crypto.

#[local] Instance sample_bincode : Bincode := {|
  serialize_incoming m := match m with Handshake _ => Ok [1] | ExecuteBlock _ => Ok [2] | SubmitBatch _ _ _ _ => Err "too long" end;
  deserialize_response b := match b with
    | [3] => Ok NotInitialized
    | [4] => Ok (KeyGenerated (EnclaveLoop.public_key sample_identity) (EnclaveLoop.attestation sample_identity))
    | [5] => Ok (ExecutionResult sample_response)
    | _ => Err "invalid tag"
    end;
  debug_response _ := EmptyString |}.

#[local] Instance sample_enclave_bincode : EnclaveBincode := {|
  deserialize_incoming b := match b with [1] => Some (Handshake sample_creds) | [2] => Some (ExecuteBlock sample_input) | _ => None end;
  serialize_response r := match r with
    | Enclave.NotInitialized => Ok [3]
    | Enclave.KeyGenerated _ _ => Ok [4]
    | Enclave.ExecutionResult _ => Ok [5]
    | _ => Ok [6]
    end;
  error_text _ := EmptyString |}.

Definition sample_aws : string * string * option string := ("id", "key", Some "token")%string.
Definition sample_link : World := {|
  enclave := init_state; inbound := []; outbound := []; store := ProxyDb.open; spawned := []; locked := false |}.

Lemma sample_job_done : job mainnet (enclave sample_link) sample_identity sample_input = (Ok sample_response, filled_store).
Proof. exact sample_run_block. Qed.

Lemma carried_in_sample m b : serialize_incoming m = Ok b -> deserialize_incoming b = Some m -> length b = 1%nat -> carried_in m.
Proof. intros Hs Hd Hl. exists b. rewrite Hl. by split. Qed.

Lemma first_execution_registers_key_witness :
  exists w1, eval (answers mainnet sample_devices sample_aws) (execute_block sample_input (Some {| nitro_verifier_addr := []; ROOT_CERT_DER := [] |})) sample_link
      = (Ok sample_response, w1) /\
    pending_attestation (store w1) !! EnclaveLoop.public_key sample_identity =
      Some {| attestation := [9]; request_id := None; pa_created_at := 0 |} /\
    spawned w1 = [(EnclaveLoop.public_key sample_identity, [9])].
Proof.
  destruct (first_execution_registers_key mainnet sample_devices sample_aws sample_link
    (Some {| nitro_verifier_addr := []; ROOT_CERT_DER := [] |}) sample_identity sample_input []) as (_ & _ & w1 & E & Hrow & Hs & _).
  - by split.
  - constructor.
  - done.
  - exact sample_keygen.
  - split; [apply (carried_in_sample _ [2])|apply (carried_in_sample _ [1])]; done.
  - rewrite sample_job_done. repeat (apply Forall_cons; split); [| | |by apply Forall_nil].
    + by exists [3].
    + by exists [4].
    + by exists [5].
  - done.
  - exists w1. rewrite sample_job_done in E. split; [exact E|]. split; [exact Hrow|exact Hs].
Defined.
End Samples.
