(* ===== verification/ProxyServer.v ===== *)
(** * The proxy's HTTP handlers ([bin/proxy/src/main.rs])

    Signing endpoints pass their input to the enclave; challenge endpoints build
    the input of the SP1 guest themselves, from the cold witness store or from
    the L2 node, and start the task that has it proved.  A handler answers a body
    or an error with its status; the extractors of axum and the JSON of bodies
    are parameters.  Of the errors of libraries the prefix of the message is
    kept. *)
From S2P Require Import Prelude BytesCodec Text Rlp NitroTypes Network BlobCodec BlobPayload WitnessDb Executor EnclaveLoop Sp1.
From S2P Require Import Interaction RollupClient Hub Validator NitroVerifier Frames ProxyDb Attestation ProxyEnclave.
From stdpp Require Import strings.
#[local] Open Scope Z_scope.

(** ** Challenge proofs ([bin/proxy/src/challenge.rs])

    The background task of one challenge: it asks the SP1 network for a proof
    until there is one or the failure is final, and records the outcome. *)

(** A challenge is not repeated when it could not be executed. *)
Definition is_retriable_challenge (k : WaitErrorKind) : bool :=
  match k with
  | RequestUnfulfillable | RequestTimedOut | RequestAuctionTimedOut => true
  | RequestUnexecutable | OtherNetworkError | OtherError => false
  end.

Definition MAX_PRICE_PER_PGU : Z := 500000000.

(** [db.set_challenge_failed(..); return]. *)
Definition abandon (challenge_id : list Z) (e : string) : io (option unit) :=
  _ ← sql (SetChallengeFailed challenge_id e);
  mret (Some tt).

Definition record_proof (challenge_id vk_hash : list Z) (proof : Sp1Proof) : io (option unit) :=
  match proof_bincode proof with
  | Ok proof_bytes =>
      _ ← sql (SetChallengeCompleted challenge_id proof_bytes (proof_public_values proof) vk_hash);
      mret (Some tt)
  | Err e => abandon challenge_id ("Failed to serialize proof: " +:+ e)
  | Panic => of_outcome Panic
  end.

(** The [loop]; [None] when the rounds are used up. *)
Fixpoint challenge_rounds (rounds : nat) (vk_hash : list Z) (stdin : Stdin) (challenge_id : list Z)
    (blacklist : gset (list Z)) : io (option unit) :=
  match rounds with
  | O => mret None
  | S rounds =>
      whitelist ← attempt (fetch_ha_whitelist blacklist);
      match whitelist with
      | Panic => of_outcome Panic
      | Err e => abandon challenge_id e
      | Ok whitelist =>
          id ← attempt (ask (E := string) (RequestProof stdin (Some MAX_PRICE_PER_PGU) whitelist));
          match id with
          | Panic => of_outcome Panic
          | Err e => abandon challenge_id e
          | Ok id =>
              _ ← sql (UpdateChallengeSp1RequestId challenge_id id);
              proof ← do (WaitProof id);
              match proof with
              | Panic => of_outcome Panic
              | Ok proof => record_proof challenge_id vk_hash proof
              | Err e =>
                  if is_retriable_challenge (wait_kind e) then
                    blacklist ← blacklist_fulfiller id blacklist;
                    blacklist ← reset_blacklist blacklist;
                    challenge_rounds rounds vk_hash stdin challenge_id blacklist
                  else abandon challenge_id (wait_text e)
              end
          end
      end
  end.

Definition run_challenge_proof (rounds : nat) (vk_hash : list Z) (stdin : Stdin) (challenge_id : list Z) : io (option unit) :=
  challenge_rounds rounds vk_hash stdin challenge_id ∅.

(** ** Requests and responses *)

Record SignBatchRootRequest : Type := {
  req_from_block : Z;
  req_to_block : Z;
  req_batch_index : Z;
  req_responses : list EthExecutionResponse;
  req_blobs : list (list Z) }.

Record ChallengeSp1Request : Type := {
  challenged_number : option Z;
  challenged_hash : option (list Z);
  challenged_batch : Z }.

Inductive Body : Type :=
  | BodyExecution (r : EthExecutionResponse)
  | BodyBatch (r : SubmitBatchResponse)
  | BodyInvalidSignatures (invalid_blocks : list Z) (enclave_address : list Z)
  | BodyRequestId (request_id : list Z)
  | BodyProof (vk_hash public_values proof_bytes : list Z)
  | BodyMock (success : bool) (error : option string)
  | BodyError (error : string)
  | BodyEmpty.
Record HttpResponse : Type := { http_status : Z; http_body : Body }.

(** A [POST] request as it arrives. *)
Record HttpRequest : Type := { req_path : string; req_headers : list (string * string); req_body : list Z }.

Record HandlerError : Type := { error_status : Z; error_message : string }.
Definition bad_request (msg : string) : HandlerError := {| error_status := 400; error_message := msg |}.
Definition internal (msg : string) : HandlerError := {| error_status := 500; error_message := msg |}.

Definition ok_response (b : Body) : HttpResponse := {| http_status := 200; http_body := b |}.

(** A header that is there may not be text. *)
Definition header_value : Type := option (option string).

(** [HeaderMap::get] on headers that are text. *)
Fixpoint get_header (name : string) (headers : list (string * string)) : header_value :=
  match headers with
  | [] => None
  | (k, v) :: headers => if decide (k = name) then Some (Some v) else get_header name headers
  end.

(** What is configured. *)
Record L1State : Type := { contract_addr : list Z; deploy_block : Z }.
Record AppState : Type := {
  api_key : string;
  att_cfg : option AttestationConfig;
  sp1 : bool;
  sp1_elf_bytes : option (list Z);
  l1 : option L1State;
  witness_hub : bool }.

(** ** Calls *)

Section Calls.
Context `{ChainTypes, !Reth}.

(** [L2Blocks] is the answers of the L2 node during one fetch: each block is
    asked for once.  [HostExecute] is [HostExecutor::execute]. *)
Inductive ServerCall : Type -> Type :=
  | ToProxy {R} (c : ProxyCall R) : ServerCall R
  | ToRollup {R} (c : L1Call Empty_set R) : ServerCall R
  | CreateProvider : ServerCall (outcome string unit)
  | L2Blocks : ServerCall (Z -> outcome string FetchedBlock)
  | GetBlockByHash (hash : list Z) : ServerCall (outcome string (option Z))
  | HostExecute (block_number : Z) : ServerCall (outcome string ClientExecutorInput)
  | HubGet (block_number : Z) : ServerCall (outcome string Z)
  | HubBody : ServerCall (outcome string (list Z))
  | Sp1Ready : ServerCall bool
  | RandomB256 : ServerCall (list Z)
  | ExecuteLocally (elf : list Z) (stdin : Stdin) : ServerCall (outcome string (outcome string unit)).
End Calls.

(** [bincode] of the inputs, and the host's [c_kzg]. *)
Class ServerCodec `{ChainTypes, !Reth} : Type := {
  serialize_executor_input : ClientExecutorInput -> outcome string (list Z);
  deserialize_executor_input : list Z -> outcome string ClientExecutorInput;
  serialize_blob_input : BlobVerificationInput -> outcome string (list Z) }.
Class KzgHost : Type := {
  parse_kzg_trusted_setup : outcome string unit;
  ckzg_blob_from_bytes : list Z -> outcome string unit;
  host_blob_to_kzg_commitment : list Z -> outcome string (list Z);
  compute_blob_kzg_proof : list Z -> list Z -> outcome string (list Z) }.

(** axum's [Json] extractor, with the status and text of its rejection, and
    the JSON of a body. *)
Class ServerJson : Type := {
  extract_batch_request : header_value -> list Z -> outcome (Z * string) SignBatchRootRequest;
  extract_challenge_request : header_value -> list Z -> outcome (Z * string) ChallengeSp1Request;
  extract_status_request : header_value -> list Z -> outcome (Z * string) (list Z);
  body_bytes : Body -> list Z }.

Section Server.
Context `{Keccak, AlloyRlp, Brotli, ChainTypes, !Reth, !Bincode, !ServerCodec, KzgHost, Zstd, RollupAbi}.
Abbreviation handler := (eff ServerCall HandlerError).

(** [.map_err(|e| internal(format!("..{e}")))] and the like. *)
Definition or_internal {A} (text : string) (p : eff ServerCall string A) : handler A := map_err_p (fun e => internal (text +:+ e)) p.
Definition or_bad_request {A} (text : string) (p : eff ServerCall string A) : handler A := map_err_p (fun e => bad_request (text +:+ e)) p.

Definition on_proxy {A} (p : eff ProxyCall string A) : eff ServerCall string A := hoist (@ToProxy _ _) p.
Definition on_rollup {A} (p : eff (L1Call Empty_set) string A) : eff ServerCall string A := hoist (@ToRollup _ _) p.

(** ** Access *)

Definition require_api_key (state : AppState) (x_api_key : header_value) (next : prog ServerCall (option HttpResponse))
  : prog ServerCall (option HttpResponse) :=
  let provided := default EmptyString (mjoin x_api_key) in
  if decide (provided <> api_key state) then
    Ret (Some {| http_status := 401; http_body := BodyError "Invalid or missing x-api-key" |})
  else next.

(** The response of a handler; a handler that panics takes its connection down. *)
Definition into_response (f : outcome HandlerError HttpResponse) : option HttpResponse :=
  match f with
  | Ok r => Some r
  | Err e => Some {| http_status := error_status e; http_body := BodyError (error_message e) |}
  | Panic => None
  end.

(** ** Signing *)

Definition maybe_decompress (content_encoding : header_value) (body : list Z) : outcome HandlerError (list Z) :=
  match content_encoding with
  | None => Ok body
  | Some None => Err (bad_request "Invalid content-encoding header")
  | Some (Some encoding) =>
      if decide (encoding = "zstd"%string) then map_err (fun e => bad_request ("zstd decompression failed: " +:+ e)) (decode_all body)
      else Err (bad_request ("Unsupported content-encoding: " +:+ encoding))
  end.

Definition decode_bincode (body : list Z) : outcome HandlerError ClientExecutorInput :=
  map_err (fun e => bad_request ("Bincode deserialization failed: " +:+ e)) (deserialize_executor_input body).

Definition sign_block_execution (state : AppState) (content_encoding : header_value) (body : list Z) : handler HttpResponse :=
  body ← of_outcome (maybe_decompress content_encoding body);
  input ← of_outcome (decode_bincode body);
  response ← or_internal "Enclave execution failed: " (on_proxy (execute_block input (att_cfg state)));
  mret (ok_response (BodyExecution response)).

Definition sign_batch_root (state : AppState) (req : SignBatchRootRequest) : handler HttpResponse :=
  if decide (req_to_block req < req_from_block req) then
    throw (bad_request ("invalid range: from_block (" +:+ str (req_from_block req) +:+ ") > to_block (" +:+ str (req_to_block req) +:+ ")"))
  else if decide (req_blobs req = []) then throw (bad_request "blobs field is required and must not be empty")
  else
    outcome ← or_internal "Batch submission failed: " (on_proxy
      (submit_batch (req_from_block req) (req_to_block req) (req_responses req) (req_blobs req) (att_cfg state)));
    match outcome with
    | SubmitBatchResult resp => mret (ok_response (BodyBatch resp))
    | InvalidSignatures invalid_blocks enclave_address =>
        mret {| http_status := 409; http_body := BodyInvalidSignatures invalid_blocks enclave_address |}
    | other => throw (internal ("Unexpected enclave response: " +:+ debug_response other))
    end.

(** ** The input of a challenge *)

Definition require_sp1 (state : AppState) : handler unit :=
  if sp1 state then
    ready ← do Sp1Ready;
    if (ready : bool) then mret tt else throw (internal "SP1 prover still initializing, please retry")
  else throw (internal "SP1 prover not configured (set SP1_ELF_PATH)").

Definition require_l1 (state : AppState) : handler L1State :=
  match l1 state with
  | Some l1 => mret l1
  | None => throw (internal "L1 not configured (set L1_RPC_URL, L1_ROLLUP_ADDR)")
  end.

(** Commitment and proof of one blob. *)
Definition witness_blob (raw : list Z) : outcome HandlerError (list Z * list Z) :=
  _ ← map_err (fun e => bad_request ("Invalid blob bytes: " +:+ e)) (ckzg_blob_from_bytes raw);
  commitment ← map_err (fun e => internal ("KZG commitment failed: " +:+ e)) (host_blob_to_kzg_commitment raw);
  proof ← map_err (fun e => internal ("KZG proof generation failed: " +:+ e)) (compute_blob_kzg_proof raw commitment);
  Ok (commitment, proof).

Definition prepare_blob_input (raw_blobs : list (list Z)) : outcome HandlerError BlobVerificationInput :=
  _ ← map_err (fun e => internal ("Failed to parse KZG settings: " +:+ e)) parse_kzg_trusted_setup;
  witnesses ← mapM witness_blob raw_blobs;
  Ok {| blobs := raw_blobs; commitments := witnesses.*1; proofs := witnesses.*2 |}.

(** [rsp_blob_builder::build_blobs_from_l2], over a caller's L2 node. *)
Definition build_blobs_from_l2 {C : Type -> Type} (l2_blocks : C (Z -> outcome string FetchedBlock)) (from_block to_block : Z)
  : eff C string (list (list Z)) :=
  get ← do l2_blocks;
  blocks ← of_outcome (fetch_blocks get from_block to_block);
  of_outcome (map_err (fun _ => EmptyString) (build_blobs blocks)).

Definition fetch_challenge_blobs (l1 : L1State) (batch_index : Z) : handler (list (list Z)) :=
  _ ← or_internal "Failed to build L2 provider: " (ask CreateProvider);
  range ← or_internal "Batch range lookup failed: "
            (on_rollup (fetch_batch_range (contract_addr l1) batch_index (deploy_block l1)));
  let '(from_block, to_block) := range in
  or_internal "Blob construction failed: " (build_blobs_from_l2 L2Blocks from_block to_block).

(** A hash decides, if there is one. *)
Definition resolve_block_number (block_number : option Z) (block_hash : option (list Z)) : handler Z :=
  match block_number, block_hash with
  | _, Some hash =>
      block ← or_internal "RPC error: " (ask (GetBlockByHash hash));
      match block with
      | Some n => mret n
      | None => throw (bad_request "Block not found for hash")
      end
  | Some number, None => mret number
  | None, None => throw (bad_request "Either block_number or block_hash must be provided")
  end.

Definition build_client_input (block_number : option Z) (block_hash : option (list Z)) : handler ClientExecutorInput :=
  _ ← or_internal "Failed to build provider: " (ask CreateProvider);
  block_number ← resolve_block_number block_number block_hash;
  or_internal "Block execution failed: " (ask (HostExecute block_number)).

(** [WitnessHubClient::fetch]. *)
Definition hub_fetch (block_number : Z) : handler (option (list Z)) :=
  resp ← attempt (ask (E := string) (HubGet block_number));
  match resp with
  | Panic => of_outcome Panic
  | Err _ => mret None
  | Ok status =>
      if decide (status = 200) then
        body ← attempt (ask (E := string) HubBody);
        match body with
        | Ok body => mret (Some body)
        | Err _ => mret None
        | Panic => of_outcome Panic
        end
      else mret None
  end.

Definition from_cold_hub (block_number : option Z) (witness_hub : bool) : handler (option ClientExecutorInput) :=
  match block_number, witness_hub with
  | Some num, true =>
      bytes ← hub_fetch num;
      mret (match bytes with
            | Some bytes => match deserialize_executor_input bytes with Ok input => Some input | _ => None end
            | None => None
            end)
  | _, _ => mret None
  end.

Definition build_client_input_cold_first (block_number : option Z) (block_hash : option (list Z)) (witness_hub : bool)
  : handler ClientExecutorInput :=
  cold ← from_cold_hub block_number witness_hub;
  match cold with
  | Some input => mret input
  | None => build_client_input block_number block_hash
  end.

(** What the challenge and the mock endpoint prove: the block and the blobs. *)
Definition challenge_stdin (client_input : ClientExecutorInput) (blob_input : BlobVerificationInput) : handler Stdin :=
  serialized_input ← or_internal "Failed to serialize client input: " (of_outcome (serialize_executor_input client_input));
  serialized_blobs ← or_internal "Failed to serialize blob input: " (of_outcome (serialize_blob_input blob_input));
  mret (StdinSlices [serialized_input; serialized_blobs]).

(** ** Challenges *)

Definition create_challenge (challenge_id : list Z) (block_number : Z) : io unit :=
  now ← do UnixNow;
  _ ← sql (CreateChallenge challenge_id block_number now);
  mret tt.

Definition block_number_of (input : ClientExecutorInput) : Z := WitnessDb.number (Executor.header (current_block input)).

Definition challenge_sp1_request (state : AppState) (req : ChallengeSp1Request) : handler HttpResponse :=
  _ ← require_sp1 state;
  l1 ← require_l1 state;
  raw_blobs ← fetch_challenge_blobs l1 (challenged_batch req);
  client_input ← build_client_input_cold_first (challenged_number req) (challenged_hash req) (witness_hub state);
  let block_number := block_number_of client_input in
  blob_input ← of_outcome (prepare_blob_input raw_blobs);
  stdin ← challenge_stdin client_input blob_input;
  challenge_id ← do RandomB256;
  _ ← or_internal EmptyString (on_proxy (create_challenge challenge_id block_number));
  _ ← do (ToProxy (SpawnChallenge stdin challenge_id block_number));
  mret (ok_response (BodyRequestId challenge_id)).

(** [<[u8; 32]>::try_from], [unwrap_or_default]. *)
Definition vk_hash_of (b : option (list Z)) : list Z :=
  match b with
  | Some b => if decide (length b = 32%nat) then b else replicate 32 0
  | None => replicate 32 0
  end.

Definition status_response (row : option ChallengeRow) : HttpResponse :=
  match row with
  | None => {| http_status := 404; http_body := BodyError "Challenge not found" |}
  | Some row =>
      match status row with
      | Completed => ok_response (BodyProof (vk_hash_of (vk_hash row)) (default [] (public_values row)) (default [] (proof_bytes row)))
      | Failed => {| http_status := 500; http_body := BodyError (default "Unknown error"%string (error row)) |}
      | Pending => {| http_status := 202; http_body := BodyEmpty |}
      end
  end.

Definition challenge_sp1_status (request_id : list Z) : prog ServerCall HttpResponse :=
  prog_bind (fun row : option (option ChallengeRow) => Ret (status_response (mjoin row)))
    (trigger (ToProxy (Sql (GetChallenge request_id)))).

(** ** The local run *)

Definition mock_sp1_request (state : AppState) (req : ChallengeSp1Request) : handler HttpResponse :=
  elf ← (match sp1_elf_bytes state with Some elf => mret elf | None => throw (internal "SP1 ELF not configured (set SP1_ELF_PATH)") end);
  l1 ← require_l1 state;
  raw_blobs ← fetch_challenge_blobs l1 (challenged_batch req);
  client_input ← build_client_input_cold_first (challenged_number req) (challenged_hash req) (witness_hub state);
  blob_input ← of_outcome (prepare_blob_input raw_blobs);
  stdin ← challenge_stdin client_input blob_input;
  result ← or_internal "SP1 execution task panicked: " (ask (ExecuteLocally elf stdin));
  match result with
  | Ok _ => mret (ok_response (BodyMock true None))
  | Err e => mret (ok_response (BodyMock false (Some e)))
  | Panic => of_outcome Panic
  end.

(** ** Routing *)

Definition respond (p : handler HttpResponse) : prog ServerCall (option HttpResponse) :=
  prog_bind (fun r => Ret (into_response r)) p.

Definition extracted {A} (request : outcome (Z * string) A) (next : A -> prog ServerCall (option HttpResponse))
  : prog ServerCall (option HttpResponse) :=
  match request with
  | Ok a => next a
  | Err (status, text) => Ret (Some {| http_status := status; http_body := BodyError text |})
  | Panic => Ret None
  end.

(** The routes, behind the check of the key. *)
Definition serve `{!ServerJson} (state : AppState) (req : HttpRequest) : prog ServerCall (option HttpResponse) :=
  let content_type := get_header "content-type" (req_headers req) in
  let authorized next := require_api_key state (get_header "x-api-key" (req_headers req)) next in
  if decide (req_path req = "/sign-block-execution"%string) then
    authorized (respond (sign_block_execution state (get_header "content-encoding" (req_headers req)) (req_body req)))
  else if decide (req_path req = "/sign-batch-root"%string) then
    authorized (extracted (extract_batch_request content_type (req_body req)) (fun r => respond (sign_batch_root state r)))
  else if decide (req_path req = "/challenge/sp1/request"%string) then
    authorized (extracted (extract_challenge_request content_type (req_body req)) (fun r => respond (challenge_sp1_request state r)))
  else if decide (req_path req = "/challenge/sp1/status"%string) then
    authorized (extracted (extract_status_request content_type (req_body req))
      (fun id => prog_bind (fun r => Ret (Some r)) (challenge_sp1_status id)))
  else if decide (req_path req = "/mock/sp1/request"%string) then
    authorized (extracted (extract_challenge_request content_type (req_body req)) (fun r => respond (mock_sp1_request state r)))
  else Ret (Some {| http_status := 404; http_body := BodyEmpty |}).
End Server.

(** ** The start of the process ([main], and [AttestationConfig::from_env] of
    [attestation/network.rs])

    SP1 is set up in the background and what it needs of the network is behind
    [SetupValidator] and [SpawnSp1Setup]; [root_cert] is the certificate that is
    compiled in. *)
Section Start.
Context `{ChainTypes, !Reth, !Bincode, EnvLibs} (net : network) (root_cert : list Z).

Inductive StartCall : Type -> Type :=
  | OfProxy {R} (c : ProxyCall R) : StartCall R
  | OpenDb (path : string) : StartCall (outcome string unit)
  | ReadFile (path : string) : StartCall (outcome string (list Z))
  | SpawnSp1Setup (elf : list Z) : StartCall unit
  | SetupValidator (elf : list Z) : StartCall (outcome string unit)
  | NewL1Provider (url : string) : StartCall (outcome string unit)
  | BuildHttpClient (timeout_secs : Z) : StartCall (outcome string unit)
  | Bind (listen_addr : string) : StartCall (outcome string unit)
  | AxumServe (state : AppState) : StartCall (outcome string unit).
Abbreviation start := (eff StartCall string).

Definition url_of (text url : string) : start unit := ok_or text (if parse_url url then Some tt else None).

Definition from_env (env : Env) : start AttestationConfig :=
  elf_path ← ok_or "NITRO_VALIDATOR_ELF_PATH not set" (env "NITRO_VALIDATOR_ELF_PATH"%string);
  elf_bytes ← context ("Failed to read nitro validator ELF " +:+ elf_path +:+ ": ") (ask (ReadFile elf_path));
  _ ← context "Failed to setup nitro validator proving key: " (ask (SetupValidator elf_bytes));
  l1_rpc ← ok_or "L1_RPC_URL not set" (env "L1_RPC_URL"%string);
  _ ← url_of "" l1_rpc;
  _ ← ask (NewL1Provider l1_rpc);
  key_hex ← ok_or "L1_SUBMITTER_KEY not set" (env "L1_SUBMITTER_KEY"%string);
  _ ← ok_or "Invalid L1_SUBMITTER_KEY: " (signer_address key_hex);
  mret {| nitro_verifier_addr := NITRO_VERIFIER_ADDRESS net; ROOT_CERT_DER := root_cert |}.

Definition start_sp1 (env : Env) : start (option (list Z)) :=
  match env "SP1_ELF_PATH"%string with
  | None => mret None
  | Some elf_path =>
      elf_bytes ← context ("Failed to read SP1 ELF " +:+ elf_path +:+ ": ") (ask (ReadFile elf_path));
      _ ← do (SpawnSp1Setup elf_bytes);
      mret (Some elf_bytes)
  end.

Definition start_l1 (env : Env) : start (option L1State) :=
  match env "L1_RPC_URL"%string, env "L1_ROLLUP_ADDR"%string with
  | Some l1_rpc, Some l1_addr =>
      _ ← url_of "Invalid L1_RPC_URL: " l1_rpc;
      _ ← ask (NewL1Provider l1_rpc);
      contract_addr ← ok_or "Invalid L1_ROLLUP_ADDR: " (parse_address l1_addr);
      mret (Some {| contract_addr := contract_addr; deploy_block := uint_or env u64_max "L1_ROLLUP_DEPLOY_BLOCK" 0 |})
  | _, _ => mret None
  end.

Definition start_hub (env : Env) : start bool :=
  match env "WITNESS_HUB_URL"%string with
  | Some _ => _ ← context "build reqwest client: " (ask (BuildHttpClient 30)); mret true
  | None => mret false
  end.

(** Up to the socket the proxy listens on. *)
Definition proxy_start (env : Env) : start AppState :=
  _ ← ask (OpenDb (var_or env "PROXY_DB_PATH" "./proxy.db"));
  sp1 ← start_sp1 env;
  l1 ← start_l1 env;
  cfg ← attempt (from_env env);
  att_cfg ← match cfg with Ok cfg => mret (Some cfg) | Err _ => mret None | Panic => Ret Panic end;
  _ ← hoist (@OfProxy) (attestation_startup att_cfg);
  api_key ← ok_or "environment variable not found" (env "API_KEY"%string);
  hub ← start_hub env;
  _ ← ask (Bind (var_or env "LISTEN_ADDR" "0.0.0.0:8080"));
  mret {| api_key := api_key; att_cfg := att_cfg; sp1 := bool_decide (is_Some sp1); sp1_elf_bytes := sp1; l1 := l1; witness_hub := hub |}.

Definition main (env : Env) : start unit :=
  state ← proxy_start env;
  ask (AxumServe state).

Lemma exec_ok_or {A} text (o : option A) t a : exec (ok_or (C := StartCall) text o) t (Ok a) -> t = [] /\ o = Some a.
Proof. intros [-> E]%exec_ok_outcome. destruct o; [by injection E as ->|done]. Qed.

(** The proxy listens only after the attestations of earlier runs were resumed
    and a handshake with the enclave succeeded; the key of its clients is the
    configured one, and what is not configured is switched off. *)
Theorem proxy_started env t state : exec (proxy_start env) t (Ok state) ->
  env "API_KEY"%string = Some (api_key state) /\
  (sp1 state = true <-> is_Some (env "SP1_ELF_PATH"%string)) /\
  (is_Some (l1 state) <-> is_Some (env "L1_RPC_URL"%string) /\ is_Some (env "L1_ROLLUP_ADDR"%string)) /\
  (witness_hub state = true <-> is_Some (env "WITNESS_HUB_URL"%string)) /\
  exists t0 t1 t2, t = t0 ++ map (hoist_event (@OfProxy)) t1 ++ t2 ++ [Ev (Bind (var_or env "LISTEN_ADDR" "0.0.0.0:8080")) (Ok tt)] /\
    exec (attestation_startup (att_cfg state)) t1 (Ok tt).
Proof.
  intros E. unfold proxy_start in E.
  apply exec_ok_bind in E as ([] & s0 & t' & -> & _ & E). apply exec_ok_bind in E as (elf & s1 & t2 & -> & Esp1 & E).
  apply exec_ok_bind in E as (l1' & s2 & t3 & -> & El1 & E). apply exec_ok_bind in E as (cfg & s3 & t4 & -> & _ & E).
  apply exec_ok_bind in E as (att & s4 & t5 & -> & _ & E). apply exec_ok_bind in E as ([] & s5 & t6 & -> & Eh & E).
  apply exec_ok_bind in E as (key & s6 & t7 & -> & [-> Ekey]%exec_ok_or & E). apply exec_ok_bind in E as (hub & s7 & t8 & -> & Ehub & E).
  apply exec_ok_bind in E as ([] & s8 & t9 & -> & Eb & [-> [= ->]]). apply exec_ask in Eb as ->. cbn [api_key sp1 l1 witness_hub att_cfg].
  apply exec_hoist in Eh as (t1 & -> & Eh).
  split; [done|]. split; [|split; [|split]].
  - unfold start_sp1 in Esp1. destruct (env "SP1_ELF_PATH"%string).
    + apply exec_ok_bind in Esp1 as (b & ? & ? & _ & _ & E). apply exec_ok_bind in E as (? & ? & ? & _ & _ & [_ [= ->]]). done.
    + destruct Esp1 as [_ [= ->]]. rewrite bool_decide_eq_true. done.
  - unfold start_l1 in El1. destruct (env "L1_RPC_URL"%string), (env "L1_ROLLUP_ADDR"%string); try (destruct El1 as [_ [= ->]]; split; [by intros []|by intros [[] []]]).
    apply exec_ok_bind in El1 as (? & ? & ? & _ & _ & E). apply exec_ok_bind in E as (? & ? & ? & _ & _ & E).
    apply exec_ok_bind in E as (? & ? & ? & _ & _ & [_ [= ->]]). done.
  - unfold start_hub in Ehub. destruct (env "WITNESS_HUB_URL"%string).
    + apply exec_ok_bind in Ehub as (? & ? & ? & _ & _ & [_ [= ->]]). done.
    + destruct Ehub as [_ [= ->]]. by split; [|intros []].
  - eexists (s0 ++ s1 ++ s2 ++ s3 ++ s4), t1, s7. split; [|exact Eh]. by rewrite !app_nil_l, app_nil_r, <- !app_assoc.
Qed.
End Start.

