(* ===== verification/ChallengeSpec.v ===== *)
(** * What a challenge answers

    The task of one challenge is followed through its calls with the challenge's
    row; what the status endpoint says of the row is then what became of the
    proof. *)
From S2P Require Import Prelude BytesCodec Rlp BlobCodec BlobPayload Interaction NitroTypes WitnessDb Executor.
From S2P Require Import EnclaveLoop RollupClient Sp1 Hub Validator NitroVerifier Frames ProxyDb Attestation ProxyEnclave ProxyServer.
From stdpp Require Import strings.
#[local] Open Scope Z_scope.

Record Course : Type := {
  row : option ChallengeRow;          (* the challenge's row *)
  recorded : bool;                    (* every statement so far succeeded *)
  outstanding : option (list Z);      (* the request whose outcome is not known *)
  proven : option Sp1Proof }.         (* the proof received *)

Section Task.
Context (vk : list Z) (input : Stdin) (cid : list Z).

Definition row_db (r : option ChallengeRow) : Db :=
  {| pending_attestation := ∅; challenges := match r with Some r => {[cid := r]} | None => ∅ end |}.

Definition observe (R : Type) (g : Course) (c : ProxyCall R) : R -> Course :=
  match c in ProxyCall R return R -> Course with
  | Sql q => fun r => {| row := challenges (after_query q r (row_db (row g))) !! cid;
      recorded := recorded g && (if r then true else false); outstanding := outstanding g; proven := proven g |}
  | RequestProof _ _ _ => fun r =>
      {| row := row g; recorded := recorded g; outstanding := match r with Ok id => Some id | _ => None end; proven := proven g |}
  | WaitProof _ => fun r =>
      {| row := row g; recorded := recorded g; outstanding := None; proven := match r with Ok p => Some p | _ => None end |}
  | _ => fun _ => g
  end.

(** The task asks only for this proof, never while a request is outstanding,
    and writes only its own row, and there only what it received. *)
Definition allowed (R : Type) (g : Course) (c : ProxyCall R) : Prop :=
  match c with
  | Sql (UpdateChallengeSp1RequestId k id) => k = cid /\ outstanding g = Some id
  | Sql (SetChallengeCompleted k b values vk') => k = cid /\ vk' = vk /\ exists p,
      proven g = Some p /\ proof_bincode p = Ok b /\ values = proof_public_values p
  | Sql (SetChallengeFailed k _) => k = cid /\ outstanding g = None
  | RequestProof s price whitelist => s = input /\ price = Some MAX_PRICE_PER_PGU /\ outstanding g = None /\ whitelist <> []
  | WaitProof id => outstanding g = Some id
  | ConnectNetwork | GetProversByUptime _ | GetProofRequest _ => True
  | _ => False
  end.

Abbreviation checked := (checked allowed observe).

(** Choosing provers leaves everything as it is. *)
Lemma checked_whitelist bl g : checked g (fetch_ha_whitelist bl) (fun g' r => g' = g /\ forall wl, r = Ok wl -> wl <> []).
Proof.
  apply checked_ask; [exact I|]. intros [[]|e|]; cbn [observe]; [|done..].
  apply checked_ask; [exact I|]. intros [l|e|]; cbn [observe]; [|done..].
  apply checked_of_outcome. destruct (mapM address_from_slice l) as [l'|e|]; [|done..]. cbn zeta.
  destruct (filter (fun addr => addr ∉ bl) l') as [|a wl]; cbn; (split; [done|]); [done|by intros ? [= <-]].
Qed.

Lemma checked_fulfiller id bl g : checked g (blacklist_fulfiller id bl) (fun g' r => g' = g /\ forall e, r <> Err e).
Proof. split; [exact I|]. intros [[[b|]|]|e|]; done. Qed.

Lemma checked_reset bl g : checked g (reset_blacklist bl) (fun g' r => g' = g /\ forall e, r <> Err e).
Proof. split; [exact I|]. intros [[]|e|]; [|done..]. split; [exact I|]. by intros [l|e|]. Qed.

(** ** The outcome *)

(** Nothing decided yet. *)
Definition undecided (g : Course) : Prop := exists r, row g = Some r /\ status r = Pending.

(** What the row says: the proof, or an error. *)
Definition decided (g : Course) : Prop := exists r, row g = Some r /\
  ((status r = Completed /\ exists p b, proven g = Some p /\ proof_bincode p = Ok b /\
      proof_bytes r = Some b /\ public_values r = Some (proof_public_values p) /\ vk_hash r = Some vk) \/
   (status r = Failed /\ exists e, error r = Some e)).

Definition ends (g : Course) (r : outcome string (option unit)) : Prop :=
  match r with
  | Ok (Some tt) => recorded g = true -> decided g
  | Err _ => False
  | _ => undecided g
  end.

Lemma challenge_row_of r : challenges (row_db r) !! cid = r.
Proof. destruct r; [apply lookup_singleton_eq|apply lookup_empty]. Qed.

Lemma row_alter f r : challenges (with_challenges (alter f cid) (row_db r)) !! cid = f <$> r.
Proof. cbn. rewrite lookup_alter_eq. f_equal. apply challenge_row_of. Qed.

(** A statement that rewrites the row. *)
Lemma observe_update {R} (q : Query R) f r g : update q = with_challenges (alter f cid) ->
  observe _ g (Sql q) r = {| row := if r then f <$> row g else row g; recorded := recorded g && (if r then true else false);
    outstanding := outstanding g; proven := proven g |}.
Proof. intros E. unfold observe. f_equal. destruct r; cbn [after_query]; [rewrite E; apply row_alter|apply challenge_row_of]. Qed.

Lemma checked_abandon e g : undecided g -> outstanding g = None -> checked g (abandon cid e) ends.
Proof.
  intros (r & Hr & Hp) Ho. apply checked_lift; [by split|]. intros o. erewrite observe_update by reflexivity.
  cbn. destruct o; [|by rewrite andb_false_r]. intros _. rewrite Hr. eexists. split; [done|]. right. split; [done|by eexists].
Qed.

Lemma checked_record p g : undecided g -> proven g = Some p -> outstanding g = None ->
  checked g (record_proof cid vk p) ends.
Proof.
  intros Hu Hp Ho. unfold record_proof. destruct (proof_bincode p) as [b|e|] eqn:Eb; [|by apply checked_abandon|done].
  apply checked_lift; [cbn; by eauto 10|]. destruct Hu as (r & Hr & _). intros o. erewrite observe_update by reflexivity.
  cbn. destruct o; [|by rewrite andb_false_r]. intros _. rewrite Hr. eexists. split; [done|]. left. cbn. split; [done|by exists p, b].
Qed.

Lemma checked_rounds n : forall bl g, undecided g -> outstanding g = None ->
  checked g (challenge_rounds n vk input cid bl) ends.
Proof.
  induction n as [|n IH]; intros bl g Hu Ho; [exact Hu|]. cbn [challenge_rounds].
  apply checked_eff_bind, checked_attempt. eapply checked_mono; [|apply checked_whitelist].
  intros g' r [-> Hwl]. destruct r as [wl|e|]; cbn [eff_post]; [|by apply checked_abandon|done].
  split; [split_and!; [done..|by apply Hwl]|]. intros [id|e|]; [|apply checked_abandon; [exact Hu|done]|exact Hu].
  apply checked_lift; [done|]. intros o. erewrite observe_update by reflexivity. set (g1 := {| row := _ |}).
  assert (Hu1 : undecided g1).
  { destruct Hu as (r & Hr & Hp). unfold undecided, g1. cbn. rewrite Hr. destruct o; by eexists. }
  apply checked_lift; [done|]. intros [p|e|]; [by apply checked_record| |exact Hu1].
  destruct (is_retriable_challenge (wait_kind e)); [|by apply checked_abandon].
  apply checked_eff_bind. eapply checked_mono; [|apply checked_fulfiller].
  intros g2 [bl'|e'|] [-> He]; cbn [eff_post]; [|by destruct (He e')|exact Hu1].
  apply checked_eff_bind. eapply checked_mono; [|apply checked_reset].
  intros g3 [bl''|e'|] [-> He']; cbn [eff_post]; [by apply IH|by destruct (He' e')|exact Hu1].
Qed.
End Task.

(** C35: the status of a challenge is what became of it.  Along any run of the
    task of a challenge whose row was created, whatever the network and the store
    answer: the prover network is asked only for this input, at the fixed price,
    never while a request is outstanding; only the challenge's row is written.
    While the task runs, the status endpoint answers 202.  When it has ended and
    every statement succeeded, it answers 200 with the public values and the
    bytes of a proof the network delivered and the verification key's hash, or 500
    with the error; for an id without a row, 404. *)
Theorem challenge_status_truthful vk input cid rounds t res r
    (Hvk : length vk = 32%nat) (Hnew : status r = Pending)
    (Hexec : exec (run_challenge_proof rounds vk input cid) t res) :
  let g0 := {| row := Some r; recorded := true; outstanding := None; proven := None |} in
  let g := after (observe cid) g0 t in
  respects (allowed vk input cid) (observe cid) g0 t /\
  match res with
  | Ok (Some tt) => recorded g = true ->
      (exists p b, proven g = Some p /\ proof_bincode p = Ok b /\
        status_response (row g) = ok_response (BodyProof vk (proof_public_values p) b)) \/
      (exists e, status_response (row g) = {| http_status := 500; http_body := BodyError e |})
  | Err _ => False
  | _ => status_response (row g) = {| http_status := 202; http_body := BodyEmpty |}
  end /\ http_status (status_response None) = 404.
Proof.
  intros g0 g. assert (Hc : checked (allowed vk input cid) (observe cid) g0 (run_challenge_proof rounds vk input cid) (ends vk))
    by (apply checked_rounds; [by exists r|done]).
  destruct (checked_sound _ _ _ _ t res _ Hc Hexec) as [Hr He]. split; [exact Hr|]. split; [|done].
  fold g in He. destruct res as [[[]|]|e|]; cbn in He; [|by destruct He as (x & -> & Hx); cbn; rewrite Hx|done|by destruct He as (x & -> & Hx); cbn; rewrite Hx].
  intros Hrec. destruct (He Hrec) as (x & -> & [(Hx & p & b & Hp & Hb & Hpb & Hpv & Hvh)|(Hx & e & Hee)]); cbn; rewrite Hx.
  - left. exists p, b. split; [done|]. split; [done|]. rewrite Hpb, Hpv, Hvh. cbn. by rewrite decide_True.
  - right. exists e. by rewrite Hee.
Qed.

(** A task that gets its proof from the second prover. *)
Definition sample_vk : list Z := replicate 32 7.
Definition sample_stdin : Stdin := StdinSlices [[1]; [2]].
Definition sample_challenge : ChallengeRow := {| sp1_request_id := None; ch_block_number := 5; status := Pending;
  proof_bytes := None; public_values := None; vk_hash := None; error := None; ch_created_at := 0 |}.
Definition sample_proof : Sp1Proof := {| proof_public_values := [4; 4]; proof_onchain_bytes := [8]; proof_bincode := Ok [6] |}.
Definition sample_trace : list (Interaction.event ProxyCall) := [
  Ev ConnectNetwork (Ok tt);
  Ev (GetProversByUptime false) (Ok [replicate 20 1; replicate 20 2]);
  Ev (RequestProof sample_stdin (Some 500000000) [replicate 20 1; replicate 20 2]) (Ok [10]);
  Ev (Sql (UpdateChallengeSp1RequestId [3] [10])) (Some tt);
  Ev (WaitProof [10]) (Err {| wait_kind := RequestTimedOut; wait_text := "timed out" |});
  Ev (GetProofRequest [10]) (Ok (Some (Some (replicate 20 1))));
  Ev ConnectNetwork (Ok tt);
  Ev (GetProversByUptime true) (Ok [replicate 20 1; replicate 20 2]);
  Ev ConnectNetwork (Ok tt);
  Ev (GetProversByUptime false) (Ok [replicate 20 1; replicate 20 2]);
  Ev (RequestProof sample_stdin (Some 500000000) [replicate 20 2]) (Ok [11]);
  Ev (Sql (UpdateChallengeSp1RequestId [3] [11])) (Some tt);
  Ev (WaitProof [11]) (Ok sample_proof);
  Ev (Sql (SetChallengeCompleted [3] [6] [4; 4] sample_vk)) (Some tt)].

(** The network of that run; the state is the number of requests. *)
Definition sample_answers (R : Type) (c : ProxyCall R) (n : Z) : R * Z :=
  match c in ProxyCall R return R * Z with
  | Sql q => (Some (reply q ProxyDb.open), n)
  | ConnectNetwork => (Ok tt, n)
  | GetProversByUptime _ => (Ok [replicate 20 1; replicate 20 2], n)
  | RequestProof _ _ _ => (Ok [10 + n], n + 1)
  | WaitProof _ => (if decide (n = 1) then Err {| wait_kind := RequestTimedOut; wait_text := "timed out" |} else Ok sample_proof, n)
  | GetProofRequest _ => (Ok (Some (Some (replicate 20 1))), n)
  | UnixNow => (0, n)
  | VsockConnect => (Err EmptyString, n)
  | L1 c => match c in VerifierCall R return R * Z with
            | CallWithTimeout _ _ => (Err EmptyString, n) | SendTransaction _ _ => (Err EmptyString, n) | GetReceipt _ => (Err EmptyString, n) end
  | Stream c => match c in StreamCall R return R * Z with
                | WriteAll _ => (Err EmptyString, n) | Flush => (Err EmptyString, n) | ReadExact _ => (Err EmptyString, n) end
  | CredentialsProvider => (false, n)
  | ProvideCredentials => (Err EmptyString, n)
  | LockHandshake | UnlockHandshake | SpawnProve _ _ | SpawnChallenge _ _ _ | SleepSecs _ => (tt, n)
  end.

Lemma sample_challenge_exec : exec (run_challenge_proof 2 sample_vk sample_stdin [3]) sample_trace (Ok (Some tt)).
Proof.
  pose proof (run_sound sample_answers (run_challenge_proof 2 sample_vk sample_stdin [3]) 0) as E.
  assert (Er : run sample_answers (run_challenge_proof 2 sample_vk sample_stdin [3]) 0 = (Ok (Some tt), sample_trace, 2))
    by (vm_compute; reflexivity).
  by rewrite Er in E.
Qed.

Lemma challenge_status_truthful_witness :
  status_response (row (after (observe [3]) {| row := Some sample_challenge; recorded := true; outstanding := None; proven := None |} sample_trace))
    = ok_response (BodyProof sample_vk [4; 4] [6]).
Proof.
  destruct (challenge_status_truthful sample_vk sample_stdin [3] 2 sample_trace (Ok (Some tt)) sample_challenge) as (_ & H & _); [done|done|exact sample_challenge_exec|].
  destruct (H eq_refl) as [(p & b & Hp & Hb & Hs)|(e & He)].
  - rewrite Hs. cbn in Hp. injection Hp as <-. cbn in Hb. injection Hb as <-. done.
  - vm_compute in He. discriminate He.
Defined.
