(* ===== verification/ChallengeInput.v ===== *)
(** * An accepted challenge can be proved

    From the handler that accepts a challenge, through the blob builder and the
    host's KZG witnesses, to the public values the SP1 guest commits: the input
    the proxy prepares passes every check of the guest. *)
From S2P Require Import Prelude BytesCodec Rlp BlobCodec BlobPayload BlobRoundtrip Interaction NitroTypes Network.
From S2P Require Import Merkle EventsHash EthState WitnessDb Executor.
From S2P Require MptWire Enclave EnclaveSafety RbfSpec ChallengeSpec.
From S2P Require Import EnclaveLoop RollupClient Sp1 Hub Validator NitroVerifier Frames ProxyDb Attestation ProxyEnclave ProxyServer.
From stdpp Require Import strings.
#[local] Open Scope Z_scope.

Section Input.
Context `{Keccak, AlloyRlp, RlpReader, Brotli, AccountCodec, ChainTypes, !Reth, Enclave.EnclaveCrypto, KzgRs}.
Context `{!Bincode, !ServerCodec, KzgHost, Zstd, RollupAbi}.
Context {laws : AlloyRlpLaws} {blaws : BrotliLaws}.

(** The host's commitment and proof of a full blob verify, and the enclave
    computes the same commitment. *)
Definition kzg_complete : Prop := forall blob commitment proof,
  length blob = BYTES_PER_BLOB -> host_blob_to_kzg_commitment blob = Ok commitment ->
  compute_blob_kzg_proof blob commitment = Ok proof ->
  blob_from_slice blob = true /\ bytes48_from_slice commitment = true /\ bytes48_from_slice proof = true /\
  verify_blob_kzg_proof blob commitment proof = Some true /\
  Enclave.kzg_blob_from_bytes blob = true /\ Enclave.blob_to_kzg_commitment blob = Some commitment.

Lemma witness_verifies raw c p k : kzg_complete -> length raw = BYTES_PER_BLOB -> witness_blob raw = Ok (c, p) ->
  verify_one (raw, c, p) = Ok (1 :: drop 1 (Enclave.sha256 c)) /\
  (if decide (length (k, raw).2 = BYTES_PER_BLOB) then Enclave.blob_to_versioned_hash raw else Err (Enclave.BadBlobSize k)) =
    Ok (1 :: drop 1 (Enclave.sha256 c)).
Proof.
  intros Hk Hl E. unfold witness_blob in E.
  destruct (ckzg_blob_from_bytes raw) as [[]|?|]; cbn in E; [|done..].
  destruct (host_blob_to_kzg_commitment raw) as [c'|?|] eqn:Ec; cbn in E; [|done..].
  destruct (compute_blob_kzg_proof raw c') as [p'|?|] eqn:Ep; cbn in E; [|done..]. injection E as -> ->.
  destruct (Hk raw c p Hl Ec Ep) as (H1' & H2' & H3' & H4' & H5' & H6'). split.
  - unfold verify_one. by rewrite H1', H2', H3', H4'.
  - cbn. rewrite decide_True by done. unfold Enclave.blob_to_versioned_hash. by rewrite H5', H6'.
Qed.

Lemma witnesses_verify raws : forall ws k, kzg_complete -> Forall (fun b => length b = BYTES_PER_BLOB) raws ->
  mapM witness_blob raws = Ok ws -> exists vhs, length ws = length raws /\
  mapM verify_one (zip (zip raws ws.*1) ws.*2) = Ok vhs /\
  mapM (fun ib => if decide (length ib.2 = BYTES_PER_BLOB) then Enclave.blob_to_versioned_hash ib.2 else Err (Enclave.BadBlobSize ib.1))
    (zip (seq k (length raws)) raws) = Ok vhs.
Proof.
  induction raws as [|raw raws IH]; intros ws k Hk Hl E.
  { injection E as <-. by exists []. }
  apply mapM_Ok in E. inversion E as [|? [c p] ? ws' Hw Hws]; subst. apply mapM_Ok in Hws.
  apply Forall_cons in Hl as [Hl Hls]. destruct (witness_verifies raw c p k Hk Hl Hw) as [Hv Hh].
  destruct (IH ws' (S k) Hk Hls Hws) as (vhs & Hlen & Hvs & Hhs).
  exists ((1 :: drop 1 (Enclave.sha256 c)) :: vhs). split; [cbn; lia|]. split.
  - apply mapM_Ok. cbn. constructor; [done|]. by apply mapM_Ok.
  - apply mapM_Ok. cbn [length seq zip zip_with]. constructor; [exact Hh|]. by apply mapM_Ok.
Qed.

(** The search finds a block that is there. *)
Lemma any_block_complete target it items fuel : collect fuel it = Some items ->
  Ok target ∈ items /\ Forall (fun x => x <> Panic) items -> any_block fuel target it = Ok true.
Proof.
  revert it items. induction fuel as [|fuel IH]; intros it items Hc [Hin Hp]; [done|]. cbn [collect any_block] in *.
  destruct (next it) as [it' [x|]]; [|by injection Hc as <-; apply not_elem_of_nil in Hin].
  destruct (collect fuel it') as [rest|] eqn:Er; [|done]. injection Hc as <-. apply Forall_cons in Hp as [Hx Hp].
  apply elem_of_cons in Hin as [<-|Hin]; [by rewrite decide_True|].
  destruct x as [h|e|]; [|by apply (IH it' rest)|done]. destruct (decide (h = target)); [done|]. by apply (IH it' rest).
Qed.

(** ** What an accepted challenge leaves behind *)

(** The blobs are the builder's, of the L2 blocks of the batch. *)
Definition batch_blobs (l1 : L1State) (batch : Z) (t : list (Interaction.event ServerCall)) (blocks : list FetchedBlock) (raws : list (list Z)) : Prop :=
  exists from_block to_block get t1,
    exec (fetch_batch_range (contract_addr l1) batch (deploy_block l1)) t1 (Ok (from_block, to_block)) /\
    map (hoist_event (@ToRollup _ _)) t1 ⊆ t /\ Ev L2Blocks get ∈ t /\
    fetch_blocks get from_block to_block = Ok blocks /\ build_blobs blocks = Ok raws.

(** The witness is one the cold store held, or the host's own. *)
Definition prepared_input (t : list (Interaction.event ServerCall)) (input : ClientExecutorInput) : Prop :=
  (exists bytes, Ev HubBody (Ok bytes) ∈ t /\ deserialize_executor_input bytes = Ok input) \/
  (exists n, Ev (HostExecute n) (Ok input) ∈ t).

(** The row, then the task. *)
Definition recorded_and_started (t : list (Interaction.event ServerCall)) (challenge_id : list Z) (n : Z) (stdin : Stdin) : Prop :=
  exists t1 now r t2, t = t1 ++ Ev (ToProxy (Sql (CreateChallenge challenge_id n now))) r ::
    Ev (ToProxy (SpawnChallenge stdin challenge_id n)) tt :: t2.

Lemma batch_blobs_mono l1 batch t t' blocks raws : t ⊆ t' -> batch_blobs l1 batch t blocks raws -> batch_blobs l1 batch t' blocks raws.
Proof.
  intros Ht (a & b & get & t1 & E & Hs & Hg & Hr). exists a, b, get, t1. split; [done|]. split; [by etransitivity|]. split; [by apply Ht|done].
Qed.

Lemma fetch_challenge_blobs_from l1 batch t raws :
  exec (fetch_challenge_blobs l1 batch) t (Ok raws) -> exists blocks, batch_blobs l1 batch t blocks raws.
Proof.
  intros E. unfold fetch_challenge_blobs in E.
  apply exec_ok_bind in E as ([] & t0 & t1 & -> & _ & E).
  apply exec_ok_bind in E as ([from_block to_block] & t2 & t3 & -> & E2 & E).
  apply exec_ok_map_err in E2. apply exec_hoist in E2 as (t2' & -> & E2).
  apply exec_ok_map_err in E. unfold build_blobs_from_l2 in E.
  apply exec_ok_bind in E as (get & t4 & t5 & -> & E4 & E). apply exec_lift in E4 as ->.
  apply exec_ok_bind in E as (blocks & t6 & t7 & -> & E6 & E). apply exec_ok_outcome in E6 as [-> Hb].
  apply exec_ok_outcome in E as [-> Hr]. exists blocks, from_block, to_block, get, t2'.
  split; [exact E2|]. split; [|split; [set_solver|split; [exact Hb|]]].
  - intros x Hx. set_solver.
  - destruct (build_blobs blocks); by inversion Hr.
Qed.

Lemma prepared_input_mono t t' input : t ⊆ t' -> prepared_input t input -> prepared_input t' input.
Proof. intros Ht [(bytes & Hb & E)|(n & Hn)]; [left; exists bytes|right; exists n]; auto. Qed.

Lemma hub_fetch_from n t bytes : exec (hub_fetch n) t (Ok (Some bytes)) -> Ev HubBody (Ok bytes) ∈ t.
Proof.
  intros E. unfold hub_fetch in E. apply exec_ok_bind in E as (resp & t0 & t1 & -> & _ & E).
  destruct resp as [st|e|]; [|by destruct E|by destruct E]. case_decide; [|by destruct E].
  apply exec_ok_bind in E as (body & t2 & t3 & -> & E2 & E).
  destruct body as [b|e|]; [|by destruct E|by destruct E]. destruct E as [-> [= ->]].
  apply exec_ok_attempt, exec_ask in E2 as ->. set_solver.
Qed.

Lemma build_client_input_from n h t input : exec (build_client_input n h) t (Ok input) -> prepared_input t input.
Proof.
  intros E. unfold build_client_input in E. apply exec_ok_bind in E as (? & t0 & t1 & -> & _ & E).
  apply exec_ok_bind in E as (bn & t2 & t3 & -> & _ & E). apply exec_ok_map_err, exec_ask in E as ->.
  right. exists bn. set_solver.
Qed.

Lemma cold_first_from n h hub t input : exec (build_client_input_cold_first n h hub) t (Ok input) -> prepared_input t input.
Proof.
  intros E. unfold build_client_input_cold_first in E. apply exec_ok_bind in E as (cold & t0 & t1 & -> & E0 & E).
  destruct cold as [i|].
  - destruct E as [-> [= ->]]. eapply prepared_input_mono; [|left]; [apply list_subseteq_app_l; reflexivity|].
    unfold from_cold_hub in E0. destruct n as [n|]; [|by destruct E0]. destruct hub; [|by destruct E0].
    apply exec_ok_bind in E0 as (bytes & t2 & t3 & -> & E2 & E0). destruct E0 as [-> [= E0]].
    destruct bytes as [bytes|]; [|done]. exists bytes. apply hub_fetch_from in E2. split; [set_solver|].
    destruct (deserialize_executor_input bytes); by inversion E0.
  - apply build_client_input_from in E. eapply prepared_input_mono; [|exact E]. set_solver.
Qed.

Lemma prepare_blob_input_inv raws bi : prepare_blob_input raws = Ok bi -> exists ws, mapM witness_blob raws = Ok ws /\
  bi = {| blobs := raws; commitments := ws.*1; proofs := ws.*2 |}.
Proof.
  unfold prepare_blob_input. intros E. destruct parse_kzg_trusted_setup as [[]|?|]; cbn in E; [|done..].
  destruct (mapM witness_blob raws) as [ws|?|]; cbn in E; [|done..]. injection E as <-. by exists ws.
Qed.

Lemma challenge_stdin_inv input bi t s : exec (challenge_stdin input bi) t (Ok s) -> exists eb bb,
  serialize_executor_input input = Ok eb /\ serialize_blob_input bi = Ok bb /\ s = StdinSlices [eb; bb].
Proof.
  intros E. unfold challenge_stdin in E.
  apply exec_ok_bind in E as (eb & t1 & t2 & -> & E1 & E). apply exec_ok_map_err in E1. apply exec_ok_outcome in E1 as [-> H1'].
  apply exec_ok_bind in E as (bb & t3 & t4 & -> & E3 & E). apply exec_ok_map_err in E3. apply exec_ok_outcome in E3 as [-> H3'].
  destruct E as [_ [= ->]]. by exists eb, bb.
Qed.

Lemma create_challenge_trace cid n t u : exec (on_proxy (create_challenge cid n)) t (Ok u) ->
  exists now r, t = [Ev (ToProxy UnixNow) now; Ev (ToProxy (Sql (CreateChallenge cid n now))) r].
Proof.
  intros E. apply exec_hoist in E as (t' & -> & E). unfold create_challenge in E.
  apply exec_ok_bind in E as (now & t1 & t2 & -> & E1 & E). apply exec_lift in E1 as ->.
  apply exec_ok_bind in E as (r & t3 & t4 & -> & E3 & E). apply exec_lift in E3 as ->. destruct E as [-> _]. by exists now, r.
Qed.

Lemma challenge_accepted state req t resp : exec (challenge_sp1_request state req) t (Ok resp) ->
  exists l1 cid input bi blocks eb bb,
    ProxyServer.l1 state = Some l1 /\ resp = ok_response (BodyRequestId cid) /\
    recorded_and_started t cid (block_number_of input) (StdinSlices [eb; bb]) /\
    prepared_input t input /\ batch_blobs l1 (challenged_batch req) t blocks (blobs bi) /\
    prepare_blob_input (blobs bi) = Ok bi /\
    serialize_executor_input input = Ok eb /\ serialize_blob_input bi = Ok bb.
Proof.
  intros E. unfold challenge_sp1_request in E.
  apply exec_ok_bind in E as ([] & t0 & t1 & -> & _ & E).
  apply exec_ok_bind in E as (l1 & t2 & t3 & -> & E2 & E).
  apply exec_ok_bind in E as (raws & t4 & t5 & -> & E4 & E). apply fetch_challenge_blobs_from in E4 as [blocks Hb].
  apply exec_ok_bind in E as (input & t6 & t7 & -> & E6 & E). apply cold_first_from in E6.
  apply exec_ok_bind in E as (bi & t8 & t9 & -> & E8 & E). apply exec_ok_outcome in E8 as [-> Hbi].
  assert (Eraws : raws = blobs bi) by (by apply prepare_blob_input_inv in Hbi as (ws & _ & ->)). subst raws.
  apply exec_ok_bind in E as (s & t10 & t11 & -> & E10 & E). apply challenge_stdin_inv in E10 as (eb & bb & Heb & Hbb & ->).
  apply exec_ok_bind in E as (cid & t12 & t13 & -> & _ & E).
  apply exec_ok_bind in E as (u & t14 & t15 & -> & E14 & E). apply exec_ok_map_err, create_challenge_trace in E14 as (now & r & ->).
  apply exec_ok_bind in E as ([] & t16 & t17 & -> & E16 & E). apply exec_lift in E16 as ->. destruct E as [-> [= ->]].
  exists l1, cid, input, bi, blocks, eb, bb. split; [|split; [done|split; [|split; [|split; [|done]]]]].
  - unfold require_l1 in E2. destruct (ProxyServer.l1 state); [|by destruct E2]. destruct E2 as [_ [= ->]]. done.
  - exists (t0 ++ t2 ++ t4 ++ t6 ++ t10 ++ t12 ++ [Ev (ToProxy UnixNow) now]), now, r, []. by rewrite <- !app_assoc.
  - eapply prepared_input_mono; [|exact E6]. set_solver.
  - eapply batch_blobs_mono; [|exact Hb]. set_solver.
Qed.
End Input.

(** C7: an accepted challenge can be proved.  When the proxy accepts a challenge,
    it has recorded its row and then started its task, whose input is a witness of
    the cold store or of the host, and the blobs the batch builder makes of the L2 blocks of the batch,
    with the host's KZG witnesses.  The SP1 guest, when it reads them as they were
    written, accepts that input as soon as the executor accepts the witness and
    the block is one of the batch: it commits the block's public values, followed
    by the versioned hashes that the enclave computes for the same blobs when it
    signs the batch. *)
Theorem accepted_challenge_provable
    `{Keccak, AlloyRlp, RlpReader, Brotli, AccountCodec, ChainTypes, !Reth, Enclave.EnclaveCrypto, KzgRs}
    `{!ServerCodec, KzgHost, Zstd, RollupAbi} {laws : AlloyRlpLaws} {blaws : BrotliLaws}
    net des_input des_blobs state req t resp
    (Hkzg : kzg_complete)
    (Hexec : exec (challenge_sp1_request state req) t (Ok resp)) :
  exists l1 cid input bi blocks eb bb,
    ProxyServer.l1 state = Some l1 /\ resp = ok_response (BodyRequestId cid) /\
    recorded_and_started t cid (block_number_of input) (StdinSlices [eb; bb]) /\
    serialize_executor_input input = Ok eb /\ serialize_blob_input bi = Ok bb /\
    prepared_input t input /\ batch_blobs l1 (challenged_batch req) t blocks (blobs bi) /\
    prepare_blob_input (blobs bi) = Ok bi /\
    forall h hashes,
      Forall (fun b => rlp_list (header_rlp b)) blocks -> Z.of_nat (length (encode_batch_payload blocks)) < 2 ^ 64 ->
      des_input MAX_INPUT_SIZE eb = Some input -> des_blobs MAX_INPUT_SIZE bb = Some bi ->
      eth net (custom_beneficiary input) input = Ok (h, hashes) ->
      hash_slow h ∈ map (fun b => keccak256 (header_rlp b)) blocks ->
      exists vhs, Enclave.compute_versioned_hashes (blobs bi) = Ok vhs /\
        Sp1.main net des_input des_blobs eb bb =
          Ok (parent_hash h ++ hash_slow h ++ withdrawal_hash hashes ++ deposit_hash hashes ++ concat vhs).
Proof.
  apply challenge_accepted in Hexec as (l1 & cid & input & bi & blocks & eb & bb & Hl1 & -> & Hrec & Hin0 & Hb & Hbi & Heb & Hbb).
  exists l1, cid, input, bi, blocks, eb, bb. repeat (split; [done|]).
  intros h hashes Hh Hlen Hde Hdb Hex Hin. destruct Hb as (_ & _ & _ & _ & _ & _ & _ & _ & Hr).
  assert (Hc : is_Some (brotli_compress (encode_batch_payload blocks))).
  { unfold build_blobs in Hr. destruct (brotli_compress _); [by eexists|done]. }
  destruct (batch_blobs_ok blocks Hh Hlen Hc) as (raws & Hr' & Hlens & Hdec & Hblocks). rewrite Hr in Hr'. injection Hr' as <-.
  apply prepare_blob_input_inv in Hbi as (ws & Hw & Ebi).
  destruct (witnesses_verify (blobs bi) ws 0 Hkzg Hlens Hw) as (vhs & Hl & Hv & Hvh). exists vhs. split; [exact Hvh|].
  assert (Ecs : commitments bi = ws.*1) by by rewrite Ebi. assert (Eps : proofs bi = ws.*2) by by rewrite Ebi.
  apply (main_succeeds net des_input des_blobs eb bb input bi h hashes (encode_batch_payload blocks) vhs); try done.
  - apply any_block_complete with (map (fun b => Ok (keccak256 (header_rlp b))) blocks); [exact Hblocks|].
    apply list_elem_of_fmap in Hin as (b & Eb & Hb). split; [|by apply Forall_forall; intros x (b' & -> & _)%list_elem_of_fmap].
    rewrite Eb. apply list_elem_of_fmap. by exists b.
  - by rewrite Ecs, length_fmap.
  - by rewrite Eps, length_fmap.
  - by rewrite Ecs, Eps.
Qed.

(** ** A challenge that is proved *)
Section Samples.
#[local] Existing Instance RefRlp.alloy.
#[local] Existing Instance RefRlp.reader.
#[local] Existing Instance MptWire.sample_keccak.
#[local] Existing Instance sample_codec.
#[local] Existing Instance sample_types.
#[local] Existing Instance sample_reth.
#[local] Existing Instance toy_brotli.
#[local] Existing Instance EnclaveSafety.sample_crypto.
#[local] Existing Instance Sp1.sample_kzg.
#[local] Existing Instance RbfSpec.sample_abi.

#[local] Instance sample_server_codec : ServerCodec := {|
  serialize_executor_input _ := Ok [1];
  deserialize_executor_input _ := Ok sample_input;
  serialize_blob_input _ := Ok [2] |}.
#[local] Instance sample_kzg_host : KzgHost := {|
  parse_kzg_trusted_setup := Ok tt;
  ckzg_blob_from_bytes _ := Ok tt;
  host_blob_to_kzg_commitment _ := Ok (replicate 48 3);
  compute_blob_kzg_proof _ _ := Ok (replicate 48 4) |}.
#[local] Instance sample_zstd : Zstd := {| encode_all p _ := Ok p; decode_all c := Ok c |}.

Definition sample_state_l1 : AppState := {| api_key := "key"; att_cfg := None; sp1 := true; sp1_elf_bytes := None;
  ProxyServer.l1 := Some {| contract_addr := [10]; deploy_block := 0 |}; witness_hub := true |}.
Definition sample_request : ChallengeSp1Request :=
  {| challenged_number := Some 7; challenged_hash := None; challenged_batch := 1 |}.

(** The batch of one block after block 6; its witness is in the cold store. *)
Definition sample_log : RollupClient.Log :=
  {| topics := [[1]]; data := [1; 6; 7; 1]; log_block_number := Some 5; log_transaction_hash := None |}.
Definition sample_l1_answer {M} (R : Type) (c : L1Call M R) : R :=
  match c in L1Call _ R return R with
  | GetLogs _ => Ok [sample_log]
  | GetL2BlockByHash _ => Ok (Some 6)
  | c => (RbfSpec.sample_answer _ c 0%nat).1
  end.
Definition sample_server_answer (R : Type) (c : ServerCall R) : R :=
  match c in ServerCall R return R with
  | ToProxy c => (ChallengeSpec.sample_answers _ c 0).1
  | ToRollup c => sample_l1_answer _ c
  | CreateProvider => Ok tt
  | L2Blocks => fun _ => Ok EnclaveSafety.sample_block
  | GetBlockByHash _ => Ok None
  | HostExecute _ => Ok sample_input
  | HubGet _ => Ok 200
  | HubBody => Ok [1]
  | Sp1Ready => true
  | RandomB256 => [3]
  | ExecuteLocally _ _ => Ok (Ok tt)
  end.
Definition sample_raws : list (list Z) := match build_blobs [EnclaveSafety.sample_block] with Ok raws => raws | _ => [] end.
Definition sample_witnesses : BlobVerificationInput :=
  {| blobs := sample_raws; commitments := map (fun _ => replicate 48 3) sample_raws; proofs := map (fun _ => replicate 48 4) sample_raws |}.

Lemma sample_kzg_complete : kzg_complete.
Proof.
  intros blob c p _ Hc Hp. injection Hc as <-. injection Hp as <-. by split_and!.
Qed.

Definition sample_exec := run (constantly sample_server_answer) (challenge_sp1_request sample_state_l1 sample_request) tt.

Lemma sample_accepted : sample_exec.1.1 = Ok (ok_response (BodyRequestId [3])).
Proof. vm_compute. reflexivity. Qed.

Lemma sample_input_only t input : Forall (answered_by sample_server_answer) t -> prepared_input t input -> input = sample_input.
Proof.
  intros Ht [(bytes & _ & E)|(n & Hn)]; [by injection E as <-|].
  rewrite Forall_forall in Ht. specialize (Ht _ Hn). cbn in Ht. by injection Ht as ->.
Qed.

Lemma sample_batch t l1 blocks raws : Forall (answered_by sample_server_answer) t ->
  contract_addr l1 = [10] -> deploy_block l1 = 0 -> batch_blobs l1 1 t blocks raws -> blocks = [EnclaveSafety.sample_block].
Proof.
  intros Ht Hc Hd (a & b & get & t1 & E & Hs & Hg & Hb & _). rewrite Forall_forall in Ht.
  assert (E1 : Forall (answered_by sample_l1_answer) t1).
  { apply Forall_forall. intros [R c r] He. apply (Ht (hoist_event (@ToRollup _ _) (Ev c r))), Hs. apply list_elem_of_fmap. by exists (Ev c r). }
  rewrite Hc, Hd in E. apply (exec_answered _ _ _ _ E) in E1. vm_compute in E1. injection E1 as -> ->.
  specialize (Ht _ Hg). cbn in Ht. subst get. vm_compute in Hb. by injection Hb as <-.
Qed.

Definition sample_des_input : Z -> list Z -> option ClientExecutorInput := fun _ _ => Some sample_input.
Definition sample_des_blobs : Z -> list Z -> option BlobVerificationInput := fun _ _ => Some sample_witnesses.

Lemma sample_blob_input : match prepare_blob_input sample_raws with Ok bi => bi = sample_witnesses | _ => False end.
Proof.
  unfold prepare_blob_input, sample_witnesses. cbn [parse_kzg_trusted_setup sample_kzg_host map_err mbind outcome_bind].
  assert (E : mapM witness_blob sample_raws = Ok (map (fun _ => (replicate 48 3, replicate 48 4)) sample_raws)).
  { apply mapM_Ok. induction sample_raws as [|r rs IH]; cbn [map]; by constructor. }
  rewrite E. cbn [mbind outcome_bind]. f_equal; by rewrite map_map.
Qed.

(** The same challenge, and its proof. *)
Lemma accepted_challenge_provable_witness : exists h hashes vhs,
  Enclave.compute_versioned_hashes sample_raws = Ok vhs /\
  Sp1.main mainnet sample_des_input sample_des_blobs [1] [2] =
    Ok (parent_hash h ++ hash_slow h ++ withdrawal_hash hashes ++ deposit_hash hashes ++ concat vhs).
Proof.
  assert (Hexec : exec (challenge_sp1_request sample_state_l1 sample_request) sample_exec.1.2 (Ok (ok_response (BodyRequestId [3])))).
  { rewrite <- sample_accepted. exact (run_sound _ _ tt). }
  destruct (accepted_challenge_provable (laws := RefRlp.alloy_laws) (blaws := toy_brotli_laws) mainnet
    sample_des_input sample_des_blobs sample_state_l1 sample_request _ _ sample_kzg_complete Hexec)
    as (l1 & cid & input & bi & blocks & eb & bb & Hl1 & _ & _ & Heb & Hbb & Hi & Hb & Hbi & Hall).
  injection Heb as <-. injection Hbb as <-. injection Hl1 as <-.
  apply sample_input_only in Hi; [|apply run_answered]. subst input.
  pose proof Hb as (_ & _ & _ & _ & _ & _ & _ & _ & Hr).
  apply sample_batch in Hb; [|apply run_answered|done|done]. subst blocks.
  assert (Eraws : sample_raws = blobs bi) by (unfold sample_raws; by rewrite Hr).
  pose proof sample_blob_input as Hp. rewrite Eraws, Hbi in Hp. subst bi.
  destruct EnclaveSafety.sample_execute as (h & hashes & E & Er). exists h, hashes.
  rewrite Eraws. apply (Hall h hashes); [|vm_compute; reflexivity|done|done|exact E|].
  - apply Forall_cons; split; [|apply Forall_nil; exact I].
    exists [string_encode (be_encode 8 7)]. split; [reflexivity|vm_compute; reflexivity].
  - change (hash_slow h) with (result_hash (execution_result h hashes)). rewrite <- Er.
    apply list_elem_of_fmap. exists EnclaveSafety.sample_block. split; [vm_compute; reflexivity|apply list_elem_of_here].
Defined.
End Samples.
