(* ===== verification/WitnessCover.v ===== *)
(** * When the witness is enough ([crates/executor/client/src/io.rs], completeness)

    [WitnessDb] shows that an accepted witness never answers wrongly; here is
    when it is accepted, and that the accepted database answers from the tries
    it was given: hashing them first changes nothing but their caches. *)
From S2P Require Import Prelude BytesCodec Nibbles Mpt MptInv MptMap Rlp MptHash MptCache.
From S2P Require Import MptWire MptProof MptTries EthState StateShape WitnessDb.

Section WitnessCover.
Context `{Keccak, AlloyRlp, RlpReader, AccountCodec, ChainTypes}.

(** The same tries, some of them hashed. *)
Record hashed (st st' : EthereumState) : Prop := {
  hashed_trie : same (state_trie st) (state_trie st');
  hashed_storage : forall a, option_Forall2 same (storage_tries st !! a) (storage_tries st' !! a) }.

Lemma hashed_same st st' : hashed st st' -> same_state st st'.
Proof.
  intros [Ht Hs]. split; [done|]. intros a. specialize (Hs a). destruct Hs; [done|apply same_null].
Qed.

Lemma same_refl t : cache_ok t -> same t t.
Proof. by split. Qed.

Lemma same_hashed t : cache_ok t -> same t (hash t).2.
Proof. intros Hc. destruct (hash_spec t Hc) as (_ & E & Hc'). by split. Qed.

(** Storage tries whose roots the state records. *)
Definition roots_recorded (st : EthereumState) : Prop := forall a t,
  storage_tries st !! a = Some t -> cache_ok t /\ recorded_root (state_trie st) a (hash_of t).

Lemma check_storages_accept st0 l : (forall a t, (a, t) ∈ l -> storage_tries st0 !! a = Some t) -> roots_recorded st0 ->
  forall st, state_trie st = state_trie st0 -> hashed st0 st ->
  exists st', for_each check_storage st l = Ok st' /\ state_trie st' = state_trie st0 /\ hashed st0 st'.
Proof.
  intros Hl Hr. induction l as [|[a t] l IH]; intros st Ht Hh; [by exists st|].
  pose proof (Hl a t (list_elem_of_here _ _)) as Ha. destruct (Hr a t Ha) as (Hc & account & Hg & Hroot).
  destruct (hash_spec t Hc) as (Eh & _ & _). pose proof (same_hashed t Hc) as Hs. cbn [for_each].
  assert (E : check_storage st (a, t) = Ok {| state_trie := state_trie st; storage_tries := <[a := (hash t).2]> (storage_tries st) |}).
  { unfold check_storage. rewrite Ht, Hg. cbn [unwrap_res mbind outcome_bind]. destruct (hash t) as [root t'].
    cbn [fst snd] in *. rewrite decide_False; [done|]. intros Hne. apply Hne. congruence. }
  rewrite E. cbn [mbind outcome_bind].
  apply IH; [intros b u Hb; apply Hl; by right|done|].
  split; cbn [state_trie storage_tries]; [apply Hh|]. intros b. rewrite lookup_insert. case_decide as Hd; [|apply Hh].
  subst b. rewrite Ha. by constructor.
Qed.

(** Linked headers pass, and every ancestor's hash is filed under its number. *)
Lemma links_accept hs : forall m, linked hs -> NoDup (map number hs) ->
  exists m', for_each check_link m (tuple_windows (map seal_slow hs)) = Ok m' /\
    (forall hd, hd ∈ tail hs -> m' !! number hd = Some (hash_slow hd)) /\
    (forall n, n ∉ map number (tail hs) -> m' !! n = m !! n).
Proof.
  induction hs as [|child hs IH]; intros m Hl Hnd; [exists m; split; [done|]; split; [by intros ? []%elem_of_nil|done]|].
  destruct hs as [|parent hs]; [exists m; split; [done|]; split; [by intros ? []%elem_of_nil|done]|].
  destruct Hl as (Hn & Hp & Hl). apply NoDup_cons in Hnd as [Hni Hnd]. pose proof Hnd as Hnd'. apply NoDup_cons in Hnd' as [Hnp _].
  change (tuple_windows (map seal_slow (child :: parent :: hs))) with
    ((seal_slow child, seal_slow parent) :: tuple_windows (map seal_slow (parent :: hs))).
  assert (E : check_link m (seal_slow child, seal_slow parent) = Ok (<[number parent := parent_hash child]> m)).
  { unfold check_link, seal_slow. cbn [fst snd]. rewrite decide_False by (intros Hne; by apply Hne).
    by rewrite decide_False by (intros Hne; by apply Hne). }
  cbn [for_each]. rewrite E.
  cbn [mbind outcome_bind]. destruct (IH (<[number parent := parent_hash child]> m) Hl Hnd) as (m' & E' & Hin & Hout).
  exists m'. split; [exact E'|]. cbn [tail] in *. split.
  - intros hd [->|Hhd]%elem_of_cons; [|by apply Hin]. rewrite Hout by done. rewrite lookup_insert_eq. congruence.
  - intros n [Hne Hn']%not_elem_of_cons. rewrite Hout by done. by rewrite lookup_insert_ne by done.
Qed.

Definition codes_by_hash (codes : list Bytecode) : gmap (list Z) Bytecode :=
  foldl (fun m code => <[bytecode_hash_slow code := code]> m) ∅ codes.

Lemma codes_by_hash_in codes c : c ∈ codes ->
  (forall c', c' ∈ codes -> bytecode_hash_slow c' = bytecode_hash_slow c -> c' = c) ->
  codes_by_hash codes !! bytecode_hash_slow c = Some c.
Proof.
  unfold codes_by_hash. generalize (∅ : gmap (list Z) Bytecode).
  assert (G : forall codes (m : gmap (list Z) Bytecode),
    (forall c', c' ∈ codes -> bytecode_hash_slow c' = bytecode_hash_slow c -> c' = c) ->
    m !! bytecode_hash_slow c = Some c \/ c ∈ codes ->
    foldl (fun m code => <[bytecode_hash_slow code := code]> m) m codes !! bytecode_hash_slow c = Some c).
  { clear codes. induction codes as [|d codes IH]; intros m Hu Hc; [by destruct Hc as [|[]%elem_of_nil]|].
    cbn [foldl]. apply IH; [intros c' Hc'; apply Hu; by right|].
    rewrite lookup_insert. case_decide as Hd.
    - left. f_equal. apply Hu; [by left|done].
    - destruct Hc as [Hc|[->|Hc]%elem_of_cons]; [by left|done|by right]. }
  intros m Hin Hu. apply G; [done|by right].
Qed.

Lemma witness_db_accepts st codes headers : cache_ok (state_trie st) -> roots_recorded st ->
  linked headers -> NoDup (map number headers) ->
  exists db, witness_db st (hash_of (state_trie st)) codes (map seal_slow headers) = Ok db /\
    hashed st (inner db) /\ bytecode_by_hash db = codes_by_hash codes /\
    forall hd, hd ∈ tail headers -> block_hashes db !! number hd = Some (hash_slow hd).
Proof.
  intros Hc Hr Hl Hnd. unfold witness_db. destruct (hash_spec _ Hc) as (Eh & Heq & _). pose proof (same_hashed _ Hc) as Hs.
  destruct (hash (state_trie st)) as [root trie]. cbn [fst snd] in *. rewrite decide_False by (intros Hne; by apply Hne).
  set (st1 := {| state_trie := trie; storage_tries := storage_tries st |}).
  assert (Hr1 : roots_recorded st1).
  { intros a t Ha. destruct (Hr a t Ha) as (Hct & account & Hg & Ho). split; [done|]. exists account. split; [|done].
    rewrite <- Hg. by apply get_rlp_same. }
  assert (Hst : forall a, option_Forall2 same (storage_tries st !! a) (storage_tries st !! a)).
  { intros a. destruct (storage_tries st !! a) as [t|] eqn:Ea; constructor. by apply same_refl, (Hr a t). }
  destruct (check_storages_accept st1 (map_to_list (storage_tries st1))) with (st := st1) as (st' & E & Ht & Hh); [|done|done| |].
  { intros a t. by rewrite elem_of_map_to_list. }
  { split; [|done]. apply same_refl, Hs. }
  change (for_each check_storage {| state_trie := trie; storage_tries := storage_tries st |}) with (for_each check_storage st1).
  rewrite E. cbn [mbind outcome_bind]. destruct (links_accept headers ∅ Hl Hnd) as (m & Em & Hm & _). rewrite Em.
  cbn [mbind outcome_bind]. eexists. split; [reflexivity|]. cbn [inner bytecode_by_hash block_hashes]. split; [|done].
  split; [|apply Hh]. rewrite Ht. exact Hs.
Qed.

(** ** Reads *)

Lemma same_get t t' k : same t t' -> get t k = get t' k.
Proof. intros [E _]. unfold get. by apply get_equiv. Qed.

Lemma basic_ref_hashed st db a account : hashed st (inner db) -> get_rlp (state_trie st) (keccak256 a) = Ok account ->
  basic_ref db a = Ok (option_map account_info account).
Proof. intros [[E _] _] Hg. unfold basic_ref. by rewrite <- (get_rlp_same _ _ _ E), Hg. Qed.

Lemma storage_ref_hashed st db a i t o : hashed st (inner db) -> storage_tries st !! keccak256 a = Some t ->
  get_u256 t (keccak256 (be_encode 32 i)) = Ok o -> storage_ref db a i = Ok (default 0 o).
Proof.
  intros [_ Hs] Ht Hg. unfold storage_ref. specialize (Hs (keccak256 a)). rewrite Ht in Hs. inversion Hs as [? t' Hsame E1 E2|]; subst.
  cbn [unwrap mbind outcome_bind]. unfold get_u256 in *. by rewrite <- (same_get _ _ _ Hsame), Hg.
Qed.
End WitnessCover.
