(* ===== verification/HostDb.v ===== *)
(** * The host's database ([crates/storage/rpc-db/src/exex.rs])

    The orchestrator executes a block against reth's storage, through a database
    that remembers what was read: that is what the witness must contain.  The
    state trie of the witness is built from two multiproofs over the same
    targets, one of the state before the block and one of the state with the
    execution's changes laid over it.  Reth's providers are records of functions:
    what they answer during one execution. *)
From S2P Require Import Prelude BytesCodec Nibbles Mpt MptInv MptMap Rlp MptHash MptWire.
From S2P Require Import MptProof MptTries EthState Network Merkle EventsHash WitnessDb Executor Interaction.
From stdpp Require Import strings.
#[local] Open Scope Z_scope.

(** [RpcDbError]. *)
Inductive RpcDbError : Type :=
  | Transport (e : string)
  | Provider (e : string)
  | FromProof (e : FromProofError)
  | GetProofError (address : list Z) (e : string)
  | GetCodeError (address : list Z) (e : string)
  | GetStorageError (address : list Z) (index : Z) (e : string)
  | GetBlockError (number : Z) (e : string)
  | BlockNotFound (number : Z)
  | PreimageNotFound
  | Poisoned.

(** [reth_primitives_traits::Account]. *)
Record ProviderAccount : Type := {
  pa_nonce : Z;
  pa_balance : Z;
  pa_bytecode_hash : option (list Z) }.

(** [MultiProofTargets]: hashed addresses with hashed slots. *)
Abbreviation MultiProofTargets := (gmap (list Z) (gset (list Z))).

Section Providers.
Context `{ChainTypes}.

(** [StateProvider], [StateProofProvider]: the state of one block.  [multiproof]
    takes the post-state that is laid over it, if any. *)
Record StateProvider : Type := {
  basic_account : list Z -> outcome string (option ProviderAccount);
  bytecode_by_hash : list Z -> outcome string (option Bytecode);
  storage : list Z -> list Z -> outcome string (option Z);
  multiproof : option HashedPostState -> MultiProofTargets -> outcome string MultiProof }.

(** [StateProviderFactory], [HeaderProvider], [BlockHashReader]. *)
Record ProviderFactory : Type := {
  state_by_block_hash : list Z -> outcome string StateProvider;
  history_by_block_number : Z -> outcome string StateProvider;
  header_by_number : Z -> outcome string (option Header);
  block_hash : Z -> outcome string (option (list Z)) }.

(** [revm::state::AccountInfo] with its code. *)
Record FetchedAccount : Type := {
  fetched_info : AccountInfo;
  fetched_code : Bytecode }.

Record ExExDb : Type := {
  provider_factory : ProviderFactory;
  block_number : Z;
  db_state_root : list Z;
  db_parent_hash : list Z;
  before_provider : StateProvider;
  db_accounts : gmap (list Z) (option FetchedAccount);
  db_storage_reads : gmap (list Z) (gmap Z Z);
  oldest_ancestor : Z }.

Definition with_accounts (m : gmap (list Z) (option FetchedAccount)) (db : ExExDb) : ExExDb := {|
  provider_factory := provider_factory db; block_number := block_number db; db_state_root := db_state_root db;
  db_parent_hash := db_parent_hash db; before_provider := before_provider db; db_accounts := m;
  db_storage_reads := db_storage_reads db; oldest_ancestor := oldest_ancestor db |}.
Definition with_storage (m : gmap (list Z) (gmap Z Z)) (db : ExExDb) : ExExDb := {|
  provider_factory := provider_factory db; block_number := block_number db; db_state_root := db_state_root db;
  db_parent_hash := db_parent_hash db; before_provider := before_provider db; db_accounts := db_accounts db;
  db_storage_reads := m; oldest_ancestor := oldest_ancestor db |}.
Definition with_oldest (n : Z) (db : ExExDb) : ExExDb := {|
  provider_factory := provider_factory db; block_number := block_number db; db_state_root := db_state_root db;
  db_parent_hash := db_parent_hash db; before_provider := before_provider db; db_accounts := db_accounts db;
  db_storage_reads := db_storage_reads db; oldest_ancestor := n |}.
End Providers.

(** What the host uses of [revm] and [reth] beyond [Reth]: the touched accounts
    of a bundle state with the slots written, the bundle's hashed form, the empty
    bytecode, and the union of the receipts' blooms. *)
Class HostLibs `{ChainTypes, !Reth} : Type := {
  bundle_state : ExecutionOutput -> list (list Z * list Z);
  from_bundle_state : ExecutionOutput -> HashedPostState;
  default_bytecode : Bytecode;
  accrued_bloom : list Receipt -> list Z }.

Section ExEx.
Context `{Keccak, AlloyRlp, RlpReader, AccountCodec, ChainTypes, !Reth, !HostLibs}.

Definition KECCAK_EMPTY : list Z := keccak256 [].

(** [state_by_block_hash(..).or_else(|_| history_by_block_number(..))]. *)
Definition state_before (provider_factory : ProviderFactory) (parent_hash : list Z) (block_number : Z)
  : outcome RpcDbError StateProvider :=
  match state_by_block_hash provider_factory parent_hash with
  | Ok p => Ok p
  | Err _ => map_err Provider (history_by_block_number provider_factory (sat_sub block_number 1))
  | Panic => Panic
  end.

(** [ExExDb::new]. *)
Definition new_exex_db (provider_factory : ProviderFactory) (block_number : Z) (parent_hash state_root : list Z)
  : outcome RpcDbError ExExDb :=
  before_provider ← state_before provider_factory parent_hash block_number;
  Ok {| provider_factory := provider_factory; block_number := block_number; db_state_root := state_root;
        db_parent_hash := parent_hash; before_provider := before_provider; db_accounts := ∅;
        db_storage_reads := ∅; oldest_ancestor := block_number |}.

Definition account_code_hash (account : ProviderAccount) : list Z :=
  let hash := default KECCAK_EMPTY (pa_bytecode_hash account) in
  if decide (hash = B256_ZERO) then KECCAK_EMPTY else hash.

(** What [fetch_account_info] answers, before it is recorded. *)
Definition account_answer (provider : StateProvider) (address : list Z) : outcome RpcDbError (option FetchedAccount) :=
  account ← map_err (GetProofError address) (basic_account provider address);
  match account with
  | Some account =>
      let code_hash := account_code_hash account in
      bytecode ← map_err (GetCodeError address) (bytecode_by_hash provider code_hash);
      Ok (Some {| fetched_info := {| info_balance := pa_balance account; info_nonce := pa_nonce account; info_code_hash := code_hash |};
                  fetched_code := default default_bytecode bytecode |})
  | None => Ok None
  end.

Definition fetch_account_info (address : list Z) (db : ExExDb) : outcome RpcDbError (option FetchedAccount) * ExExDb :=
  match account_answer (before_provider db) address with
  | Ok result => (Ok result, with_accounts (<[address := result]> (db_accounts db)) db)
  | Err e => (Err e, db)
  | Panic => (Panic, db)
  end.

Definition storage_answer (provider : StateProvider) (address : list Z) (index : Z) : outcome RpcDbError Z :=
  value ← map_err (GetStorageError address index) (storage provider address (be_encode 32 index));
  Ok (default 0 value).

Definition fetch_storage_at (address : list Z) (index : Z) (db : ExExDb) : outcome RpcDbError Z * ExExDb :=
  match storage_answer (before_provider db) address index with
  | Ok value =>
      let entry := default ∅ (db_storage_reads db !! address) in
      (Ok value, with_storage (<[address := <[index := value]> entry]> (db_storage_reads db)) db)
  | Err e => (Err e, db)
  | Panic => (Panic, db)
  end.

Definition fetch_code_by_hash (code_hash : list Z) (db : ExExDb) : outcome RpcDbError Bytecode :=
  if decide (code_hash = KECCAK_EMPTY \/ code_hash = B256_ZERO) then Ok default_bytecode
  else
    bytecode ← map_err (GetCodeError (replicate 20 0)) (bytecode_by_hash (before_provider db) code_hash);
    match bytecode with
    | Some bytecode => Ok bytecode
    | None => Err (GetCodeError (replicate 20 0) "bytecode not found for hash")
    end.

Definition fetch_block_hash (number : Z) (db : ExExDb) : outcome RpcDbError (list Z) * ExExDb :=
  match map_err (GetBlockError number) (block_hash (provider_factory db) number) with
  | Ok (Some hash) => (Ok hash, with_oldest (Z.min number (oldest_ancestor db)) db)
  | Ok None => (Err (BlockNotFound number), db)
  | Err e => (Err e, db)
  | Panic => (Panic, db)
  end.

(** ** What the witness must contain *)

Definition hashed_slot (key : Z) : list Z := keccak256 (be_encode 32 key).

(** [targets.entry(hashed_address).or_default()], then the slots. *)
Definition add_target (targets : MultiProofTargets) (address : list Z) (keys : list Z) : MultiProofTargets :=
  let hashed_address := keccak256 address in
  <[hashed_address := default ∅ (targets !! hashed_address) ∪ list_to_set (map hashed_slot keys)]> targets.

Definition read_keys (db : ExExDb) (address : list Z) : list Z :=
  match db_storage_reads db !! address with
  | Some storage_map => (map_to_list storage_map).*1
  | None => []
  end.

(** The reads, then the slots that were written. *)
Definition get_targets (bundle : list (list Z * list Z)) (db : ExExDb) : MultiProofTargets :=
  let read := (map_to_list (db_accounts db)).*1 ++ (map_to_list (db_storage_reads db)).*1 in
  let targets := foldl (fun targets address => add_target targets address (read_keys db address)) ∅ read in
  foldl (fun targets account => add_target targets account.1 account.2) targets bundle.

(** [ExExDb::state]; [fuel] is for [resolve_nodes]. *)
Definition exex_state (fuel : nat) (output : ExecutionOutput) (db : ExExDb) : outcome RpcDbError EthereumState :=
  let before_targets := get_targets (bundle_state output) db in
  before_provider ← state_before (provider_factory db) (db_parent_hash db) (block_number db);
  before_multiproof ← map_err (GetProofError (replicate 20 0)) (multiproof before_provider None before_targets);
  let after_targets := get_targets (bundle_state output) db in
  after_base_provider ← state_before (provider_factory db) (db_parent_hash db) (block_number db);
  after_multiproof ← map_err (GetProofError (replicate 20 0))
    (multiproof after_base_provider (Some (from_bundle_state output)) after_targets);
  map_err FromProof (transition_multiproofs_to_tries fuel (db_state_root db) before_multiproof after_multiproof).

(** [ExExDb::bytecodes]: one per code hash. *)
Fixpoint unique_codes (seen : gset (list Z)) (accounts : list FetchedAccount) : list Bytecode :=
  match accounts with
  | [] => []
  | account :: accounts =>
      let hash := info_code_hash (fetched_info account) in
      if decide (hash = KECCAK_EMPTY \/ hash = B256_ZERO \/ hash ∈ seen) then unique_codes seen accounts
      else fetched_code account :: unique_codes ({[hash]} ∪ seen) accounts
  end.
Definition exex_bytecodes (db : ExExDb) : list Bytecode := unique_codes ∅ (omap id (map_to_list (db_accounts db)).*2).

Definition header_at (provider_factory : ProviderFactory) (height : Z) : outcome RpcDbError Header :=
  header ← map_err (GetBlockError height) (header_by_number provider_factory height);
  match header with
  | Some header => Ok header
  | None => Err (BlockNotFound height)
  end.

(** [ExExDb::ancestor_headers]: the parent first. *)
Definition exex_ancestor_headers (db : ExExDb) : outcome RpcDbError (list Header) :=
  let oldest_ancestor := oldest_ancestor db in
  let end_ := block_number db in
  if decide (end_ <= oldest_ancestor) then
    header ← header_at (provider_factory db) (u64 (block_number db - 1));
    Ok [header]
  else mapM (header_at (provider_factory db)) (reverse (range_incl oldest_ancestor (end_ - 1))).

(** ** [DatabaseRef] *)

(** Errors of the database are texts to [revm]. *)
Definition as_provider_error {A} (r : outcome RpcDbError A) : outcome unit A := map_err (fun _ => tt) r.

Definition exex_basic_ref (address : list Z) (db : ExExDb) : outcome unit (option FetchedAccount) * ExExDb :=
  let '(r, db) := fetch_account_info address db in (as_provider_error r, db).
Definition exex_code_by_hash_ref (code_hash : list Z) (db : ExExDb) : outcome unit Bytecode :=
  as_provider_error (fetch_code_by_hash code_hash db).
Definition exex_storage_ref (address : list Z) (index : Z) (db : ExExDb) : outcome unit Z * ExExDb :=
  let '(r, db) := fetch_storage_at address index db in (as_provider_error r, db).
Definition exex_block_hash_ref (number : Z) (db : ExExDb) : outcome unit (list Z) * ExExDb :=
  let '(r, db) := fetch_block_hash number db in (as_provider_error r, db).
End ExEx.
