(* ===== verification/HostExecutor.v ===== *)
(** * The host executor ([crates/executor/host/src/host_executor.rs])

    The orchestrator runs a block natively before anything is proved, and turns
    what the run read into the guest's input.  The EVM is a program over the
    four reads of a database: on the host the reads go to [ExExDb], which
    remembers them; in the guest they go to the witness. *)
From S2P Require Import Prelude BytesCodec Nibbles Mpt MptInv MptMap Rlp MptHash MptCache MptWire.
From S2P Require Import MptProof MptTries EthState Network Merkle EventsHash WitnessDb Executor Interaction HostDb.
From stdpp Require Import strings.
#[local] Open Scope Z_scope.

(** [error.rs]. *)
Inductive HostError : Type :=
  | ParseError
  | TransportError (e : string)
  | RpcDb (e : RpcDbError)
  | FailedToRecoverSenders
  | PostExecutionCheck
  | ExecutionFailed
  | FromProofFailed (e : FromProofError)
  | ExpectedBlock (number : Z)
  | HeaderMismatch (found expected : list Z)
  | StateRootMismatch (found expected : list Z).

(** ** The EVM's reads *)
Section Reads.
Context `{ChainTypes}.

(** The calls of [revm] on its database; a read that fails ends the execution. *)
Inductive Read : Type -> Type :=
  | ReadBasic (address : list Z) : Read (option AccountInfo)
  | ReadCode (code_hash : list Z) : Read Bytecode
  | ReadStorage (address : list Z) (index : Z) : Read Z
  | ReadBlockHash (number : Z) : Read (list Z).

Definition ask_database (db : DatabaseRef) {R} (c : Read R) : outcome unit R :=
  match c with
  | ReadBasic address => db_basic db address
  | ReadCode code_hash => db_code_by_hash db code_hash
  | ReadStorage address index => db_storage db address index
  | ReadBlockHash number => db_block_hash db number
  end.

Fixpoint on_database {A} (db : DatabaseRef) (p : prog Read (outcome unit A)) : outcome unit A :=
  match p with
  | Ret r => r
  | Vis c k => match ask_database db c with
               | Ok r => on_database db (k r)
               | Err e => Err e
               | Panic => Panic
               end
  end.
End Reads.

(** [BasicBlockExecutor::execute] of the host's configuration, as a program. *)
Class Evm `{ChainTypes, !Reth} : Type := {
  evm_program : Header -> Body -> Senders -> prog Read (outcome unit ExecutionOutput) }.

Section HostExecutor.
Context `{Keccak, AlloyRlp, RlpReader, AccountCodec, ChainTypes, !Reth, !HostLibs, !Evm}.

(** [CacheDB] keeps the code an account came with, under its hash. *)
Definition cached_code (code_hash : list Z) (db : ExExDb) : option Bytecode :=
  fetched_code <$> head (filter (fun account => info_code_hash (fetched_info account) = code_hash)
                           (omap id (map_to_list (db_accounts db)).*2)).

Definition ask_host {R} (c : Read R) (db : ExExDb) : outcome unit R * ExExDb :=
  match c with
  | ReadBasic address =>
      let '(account, db) := exex_basic_ref address db in (option_map fetched_info <$> account, db)
  | ReadCode code_hash =>
      (match cached_code code_hash db with Some code => Ok code | None => exex_code_by_hash_ref code_hash db end, db)
  | ReadStorage address index => exex_storage_ref address index db
  | ReadBlockHash number => exex_block_hash_ref number db
  end.

Fixpoint on_host {A} (p : prog Read (outcome unit A)) (db : ExExDb) : outcome unit A * ExExDb :=
  match p with
  | Ret r => (r, db)
  | Vis c k => let '(r, db) := ask_host c db in
               match r with
               | Ok r => on_host (k r) db
               | Err e => (Err e, db)
               | Panic => (Panic, db)
               end
  end.

(** [derive_header]: as the guest's, but with the bloom of the receipts. *)
Definition derive_host_header (h : Header) (state_root logs_bloom : list Z) : Header := {|
  parent_hash := parent_hash h;
  ommers_hash := ommers_hash h;
  beneficiary := beneficiary h;
  header_state_root := state_root;
  transactions_root := transactions_root h;
  receipts_root := receipts_root h;
  logs_bloom := logs_bloom;
  difficulty := difficulty h;
  number := number h;
  gas_limit := gas_limit h;
  gas_used := gas_used h;
  timestamp := timestamp h;
  extra_data := extra_data h;
  mix_hash := mix_hash h;
  header_nonce := header_nonce h;
  base_fee_per_gas := base_fee_per_gas h;
  withdrawals_root := withdrawals_root h;
  blob_gas_used := blob_gas_used h;
  excess_blob_gas := excess_blob_gas h;
  parent_beacon_block_root := parent_beacon_block_root h;
  requests_hash := requests_hash h;
  block_access_list_hash := None;
  slot_number := None |}.

Definition verify_header_hash (derived original : Header) : outcome HostError unit :=
  let constructed := hash_slow derived in
  let expected := hash_slow original in
  if decide (constructed <> expected) then Err (HeaderMismatch constructed expected) else Ok tt.

(** From the database on, [execute_exex] and [execute_exex_with_block] are the
    same; [fuel] is for [resolve_nodes]. *)
Definition execute_on (fuel : nat) (chain_id : Z) (block : Block) (exex_db : ExExDb)
    (custom_beneficiary : option (list Z)) : outcome HostError ClientExecutorInput :=
  match recover_senders (header block) (body block) with
  | None => Err FailedToRecoverSenders
  | Some senders =>
      if negb (validate_header chain_id (header block)) then Err PostExecutionCheck else
      let '(execution_output, exex_db) := on_host (evm_program (header block) (body block) senders) exex_db in
      execution_output ← map_err (fun _ => ExecutionFailed) execution_output;
      if negb (beacon_validate_post_execution chain_id (header block) (body block) execution_output)
      then Err PostExecutionCheck else
      let logs_bloom := accrued_bloom (execution_receipts execution_output) in
      state ← map_err RpcDb (exex_state fuel execution_output exex_db);
      let hashed_post_state := from_bundle_state execution_output in
      verification_state ← infallible (update hashed_post_state state);
      let root := state_root verification_state in
      if decide (root <> header_state_root (header block))
      then Err (StateRootMismatch root (header_state_root (header block))) else
      let derived := derive_host_header (header block) root logs_bloom in
      ancestor_headers ← map_err RpcDb (exex_ancestor_headers exex_db);
      _ ← verify_header_hash derived (header block);
      Ok {| current_block := block;
            ancestor_headers := ancestor_headers;
            parent_state := state;
            bytecodes := exex_bytecodes exex_db;
            custom_beneficiary := custom_beneficiary;
            opcode_tracking := false |}
  end.

(** The block comes with the notification. *)
Definition execute_exex_with_block (fuel : nat) (chain_id : Z) (current_block : Block) (parent_state_root : list Z)
    (provider : ProviderFactory) (custom_beneficiary : option (list Z)) : outcome HostError ClientExecutorInput :=
  exex_db ← map_err RpcDb
    (new_exex_db provider (number (header current_block)) (parent_hash (header current_block)) parent_state_root);
  execute_on fuel chain_id current_block exex_db custom_beneficiary.

(** The blocks are looked up; [BlockReader] is a provider of its own here. *)
Definition expected_block (block_by_number : Z -> outcome string (option Block)) (block_number : Z)
  : outcome HostError Block :=
  block ← map_err (fun _ => ExpectedBlock block_number) (block_by_number block_number);
  match block with Some block => Ok block | None => Err (ExpectedBlock block_number) end.

Definition execute_exex (fuel : nat) (chain_id block_number : Z) (block_by_number : Z -> outcome string (option Block))
    (provider : ProviderFactory) (custom_beneficiary : option (list Z)) : outcome HostError ClientExecutorInput :=
  current_block ← expected_block block_by_number block_number;
  previous_block ← expected_block block_by_number (u64 (block_number - 1));
  exex_db ← map_err RpcDb
    (new_exex_db provider block_number (parent_hash (header current_block)) (header_state_root (header previous_block)));
  execute_on fuel chain_id current_block exex_db custom_beneficiary.
End HostExecutor.
