(* ===== verification/HostSpec.v ===== *)
(** * What the host accepts, the guest accepts

    The prover spends hours on an input the host has made; here is why the guest
    does not reject it.  First what a run leaves in the host's database: the
    targets contain everything read or written, the run can be repeated on any
    database that gives the recorded answers, and the ancestors reach back to the
    oldest block hash read.  Then, when the providers tell the truth about the
    parent state and the chain, the witness answers every read of the guest's run,
    so that the guest computes the same output and state root. *)
From S2P Require Import Prelude BytesCodec Rlp Nibbles Mpt MptInv MptMap MptHash MptCache.
From S2P Require Import MptWire MptProof MptTries MptCover EthState StateShape Merkle Network.
From S2P Require Import EventsHash WitnessDb Executor Interaction WitnessCover HostDb.
From S2P Require Import HostExecutor.
From stdpp Require Import strings.
#[local] Open Scope Z_scope.

Section HostReads.
Context `{Keccak, AlloyRlp, RlpReader, AccountCodec, ChainTypes, !Reth, !HostLibs, !Evm}.

(** ** Targets *)

Definition has_account (targets : MultiProofTargets) (h : list Z) : Prop := is_Some (targets !! h).
Definition has_slot (targets : MultiProofTargets) (h slot : list Z) : Prop := exists slots, targets !! h = Some slots /\ slot ∈ slots.

Lemma add_target_lookup targets a ks h : add_target targets a ks !! h =
  if decide (keccak256 a = h) then Some (default ∅ (targets !! h) ∪ list_to_set (map hashed_slot ks)) else targets !! h.
Proof. unfold add_target. rewrite lookup_insert. case_decide as E; [by rewrite E|done]. Qed.

Lemma add_target_has targets a ks : has_account (add_target targets a ks) (keccak256 a) /\
  (forall k, k ∈ ks -> has_slot (add_target targets a ks) (keccak256 a) (hashed_slot k)) /\
  (forall h, has_account targets h -> has_account (add_target targets a ks) h) /\
  (forall h slot, has_slot targets h slot -> has_slot (add_target targets a ks) h slot).
Proof.
  unfold has_account, has_slot. split_and!.
  - rewrite add_target_lookup, decide_True by done. done.
  - intros k Hk. rewrite add_target_lookup, decide_True by done. eexists. split; [done|].
    apply elem_of_union. right. apply elem_of_list_to_set, list_elem_of_fmap. by exists k.
  - intros h Hh. rewrite add_target_lookup. by case_decide.
  - intros h slot (slots & E & Hs). rewrite add_target_lookup. rewrite E. case_decide; [|by exists slots].
    eexists. split; [done|]. cbn [default]. apply elem_of_union. by left.
Qed.

Lemma fold_targets {X} (f : X -> list Z) (g : X -> list Z) (l : list X) : forall targets,
  let targets' := foldl (fun t x => add_target t (f x) (g x)) targets l in
  (forall x, x ∈ l -> has_account targets' (keccak256 (f x))) /\
  (forall x k, x ∈ l -> k ∈ g x -> has_slot targets' (keccak256 (f x)) (hashed_slot k)) /\
  (forall h, has_account targets h -> has_account targets' h) /\
  (forall h slot, has_slot targets h slot -> has_slot targets' h slot) /\
  (forall h, has_account targets' h -> has_account targets h \/ exists x, x ∈ l /\ h = keccak256 (f x)).
Proof.
  induction l as [|x l IH]; intros targets; cbn [foldl].
  { split_and!; [by intros ? []%elem_of_nil|by intros ? ? []%elem_of_nil|done|done|by left]. }
  destruct (IH (add_target targets (f x) (g x))) as (Ha & Hs & Hka & Hks & Hb).
  destruct (add_target_has targets (f x) (g x)) as (Ha1 & Hs1 & Hka1 & Hks1). split_and!; [| |auto|auto|].
  - intros y [->|Hy]%elem_of_cons; auto.
  - intros y k [->|Hy]%elem_of_cons Hk; auto.
  - intros h [Hh|(y & Hy & ->)]%Hb; [|right; exists y; split; [by right|done]].
    unfold has_account in Hh. rewrite add_target_lookup in Hh. case_decide as E; [|by left].
    right. exists x. split; [by left|done].
Qed.

Lemma elem_of_keys {V} (m : gmap (list Z) V) a : a ∈ (map_to_list m).*1 <-> is_Some (m !! a).
Proof.
  rewrite list_elem_of_fmap. split.
  - intros ([a' v] & -> & Hv%elem_of_map_to_list). by eexists.
  - intros [v Hv]. exists (a, v). split; [done|]. by apply elem_of_map_to_list.
Qed.

Definition slot_read (db : ExExDb) (a : list Z) (i : Z) : Prop :=
  exists m, db_storage_reads db !! a = Some m /\ is_Some (m !! i).

Lemma read_keys_spec db a i : i ∈ read_keys db a <-> slot_read db a i.
Proof.
  unfold read_keys, slot_read. destruct (db_storage_reads db !! a) as [m|].
  - rewrite list_elem_of_fmap. split.
    + intros ([i' v] & -> & Hv%elem_of_map_to_list). exists m. split; [done|by eexists].
    + intros (m' & [= <-] & v & Hv). exists (i, v). split; [done|]. by apply elem_of_map_to_list.
  - split; [by intros []%elem_of_nil|by intros (m & ? & _)].
Qed.

(** What is read or written is a target, and nothing else is. *)
Lemma get_targets_have bundle db : let targets := get_targets bundle db in
  (forall a, is_Some (db_accounts db !! a) -> has_account targets (keccak256 a)) /\
  (forall a i, slot_read db a i -> has_slot targets (keccak256 a) (hashed_slot i)) /\
  (forall a keys i, (a, keys) ∈ bundle -> i ∈ keys -> has_slot targets (keccak256 a) (hashed_slot i)) /\
  (forall h, has_account targets h -> exists a, h = keccak256 a /\
     (is_Some (db_accounts db !! a) \/ is_Some (db_storage_reads db !! a) \/ a ∈ bundle.*1)).
Proof.
  cbv zeta. unfold get_targets.
  set (read := (map_to_list (db_accounts db)).*1 ++ (map_to_list (db_storage_reads db)).*1).
  destruct (fold_targets (fun a => a) (read_keys db) read ∅) as (Ha & Hs & _ & _ & Hb).
  set (t1 := foldl _ ∅ read) in *.
  destruct (fold_targets fst snd bundle t1) as (Ha2 & Hs2 & Hka & Hks & Hb2). split_and!.
  - intros a E. apply Hka, Ha. apply elem_of_app. left. by apply elem_of_keys.
  - intros a i Hr. apply Hks, Hs; [|by apply read_keys_spec]. apply elem_of_app. right. apply elem_of_keys.
    destruct Hr as (m & E & _). by eexists.
  - intros a keys i Hin Hi. by apply (Hs2 (a, keys)).
  - intros h [Hh|((a & keys) & Hin & ->)]%Hb2.
    + apply Hb in Hh as [[? Hh]|(a & Hin & ->)]; [by rewrite lookup_empty in Hh|]. exists a. split; [done|].
      apply elem_of_app in Hin as [Hin|Hin]; apply elem_of_keys in Hin; auto.
    + exists a. split; [done|]. right. right. apply list_elem_of_fmap. by exists (a, keys).
Qed.

(** ** Runs *)
Context (p : StateProvider) (f : ProviderFactory) (N : Z) (parent root : list Z).

(** The codes of accounts are there. *)
Definition codes_present : Prop := forall a account,
  basic_account p a = Ok (Some account) -> account_code_hash account <> KECCAK_EMPTY ->
  exists c, bytecode_by_hash p (account_code_hash account) = Ok (Some c) /\ bytecode_hash_slow c = account_code_hash account.

(** A database of this block over its parent's state, whose records are the provider's answers. *)
Record good (db : ExExDb) : Prop := {
  good_factory : provider_factory db = f;
  good_provider : before_provider db = p;
  good_number : block_number db = N;
  good_parent : db_parent_hash db = parent;
  good_root : db_state_root db = root;
  good_accounts : forall a r, db_accounts db !! a = Some r -> account_answer p a = Ok r;
  good_oldest : 0 <= oldest_ancestor db <= N }.

(** The calls [revm] makes: codes are loaded by the hash of an account it has
    read, block hashes are those of ancestors. *)
Definition allowed (R : Type) (g : list (list Z)) (c : Read R) : Prop :=
  match c with
  | ReadCode h => h ∈ g /\ h <> KECCAK_EMPTY
  | ReadBlockHash n => 0 <= n < N
  | _ => True
  end.
Definition observe (R : Type) (g : list (list Z)) (c : Read R) : R -> list (list Z) :=
  match c in Read R return R -> list (list Z) with
  | ReadBasic _ => fun r => match r with Some i => info_code_hash i :: g | None => g end
  | _ => fun _ => g
  end.

(** What the database records of a read and its answer. *)
Definition recorded (db : ExExDb) {R} (c : Read R) : R -> Prop :=
  match c in Read R return R -> Prop with
  | ReadBasic a => fun r => exists account, db_accounts db !! a = Some account /\ r = option_map fetched_info account
  | ReadCode h => fun c => bytecode_by_hash p h = Ok (Some c) /\ h <> KECCAK_EMPTY /\
      exists a account, db_accounts db !! a = Some (Some account) /\ info_code_hash (fetched_info account) = h
  | ReadStorage a i => fun r => storage_answer p a i = Ok r /\ slot_read db a i
  | ReadBlockHash n => fun h => block_hash f n = Ok (Some h) /\ oldest_ancestor db <= n < N
  end.

Record extends (db db' : ExExDb) : Prop := {
  more_accounts : db_accounts db ⊆ db_accounts db';
  more_slots : forall a i, slot_read db a i -> slot_read db' a i;
  more_ancestors : oldest_ancestor db' <= oldest_ancestor db }.

Lemma new_db_good db : 0 <= N -> state_before f parent N = Ok p -> new_exex_db f N parent root = Ok db -> good db.
Proof.
  intros HN Hs E. unfold new_exex_db in E. rewrite Hs in E. injection E as <-. by split.
Qed.

Lemma extends_refl db : extends db db.
Proof. by split. Qed.
Lemma extends_trans db1 db2 db3 : extends db1 db2 -> extends db2 db3 -> extends db1 db3.
Proof. intros [A B C] [A' B' C']. split; [by etransitivity|auto|lia]. Qed.

Lemma recorded_more db db' {R} (c : Read R) r : extends db db' -> recorded db c r -> recorded db' c r.
Proof.
  intros [A B C]. destruct c; cbn [recorded].
  - intros (account & E & ->). exists account. split; [|done]. by eapply lookup_weaken.
  - intros (E & Hne & a & account & Ea & Eh). split; [done|]. split; [done|]. exists a, account. split; [|done]. by eapply lookup_weaken.
  - intros [E Hs]. auto.
  - intros [E Hn]. split; [done|lia].
Qed.

(** The code hashes seen are those of recorded accounts. *)
Definition known (g : list (list Z)) (db : ExExDb) : Prop := forall h, h ∈ g ->
  exists a account, db_accounts db !! a = Some (Some account) /\ info_code_hash (fetched_info account) = h.

Lemma known_more g db db' : extends db db' -> known g db -> known g db'.
Proof. intros [A _ _] Hk h Hh. destruct (Hk h Hh) as (a & account & E & Eh). exists a, account. split; [|done]. by eapply lookup_weaken. Qed.

Lemma account_answer_code a account : codes_present -> account_answer p a = Ok (Some account) ->
  info_code_hash (fetched_info account) <> KECCAK_EMPTY ->
  bytecode_by_hash p (info_code_hash (fetched_info account)) = Ok (Some (fetched_code account)) /\
  bytecode_hash_slow (fetched_code account) = info_code_hash (fetched_info account).
Proof.
  intros Hc E. unfold account_answer in E. apply bind_Ok in E as (o & Eo & E).
  destruct (basic_account p a) as [o'| |] eqn:Eb; [|done..]. injection Eo as <-. destruct o' as [acc|]; [|done].
  apply bind_Ok in E as (b & Ec & E). injection E as <-. cbn [fetched_info fetched_code info_code_hash]. intros Hne.
  destruct (Hc a acc Eb Hne) as (c & Ec' & Hh). rewrite Ec' in Ec. injection Ec as <-. done.
Qed.

Lemma cached_code_Some h db c : cached_code h db = Some c ->
  exists a account, db_accounts db !! a = Some (Some account) /\ info_code_hash (fetched_info account) = h /\ c = fetched_code account.
Proof.
  unfold cached_code. intros (account & Hh & ->)%fmap_Some.
  assert (Hin : account ∈ filter (fun account => info_code_hash (fetched_info account) = h) (omap id (map_to_list (db_accounts db)).*2)).
  { by apply head_Some_elem_of. }
  apply list_elem_of_filter in Hin as [Eh Hin]. apply list_elem_of_omap in Hin as (o & Ho & Eo). cbn in Eo. subst o.
  apply list_elem_of_fmap in Ho as ([a o] & Eo & Ho%elem_of_map_to_list). cbn in Eo. subst o. by exists a, account.
Qed.

Lemma cached_code_exists a account h db : db_accounts db !! a = Some (Some account) ->
  info_code_hash (fetched_info account) = h -> is_Some (cached_code h db).
Proof.
  intros Ea Eh. unfold cached_code. apply fmap_is_Some.
  assert (Hin : account ∈ filter (fun account => info_code_hash (fetched_info account) = h) (omap id (map_to_list (db_accounts db)).*2)).
  { apply list_elem_of_filter. split; [done|]. apply list_elem_of_omap. exists (Some account). split; [|done].
    apply list_elem_of_fmap. exists (a, Some account). split; [done|]. by apply elem_of_map_to_list. }
  by destruct (filter _ _); [apply elem_of_nil in Hin|].
Qed.

Lemma ask_host_recorded {R} (c : Read R) r g db db' : codes_present -> good db -> known g db -> allowed R g c ->
  ask_host c db = (Ok r, db') -> good db' /\ extends db db' /\ recorded db' c r /\ known (observe R g c r) db'.
Proof.
  intros Hcodes Hg Hk Ha E. destruct c as [a|h|a i|n]; cbn [ask_host observe recorded] in *.
  - unfold exex_basic_ref, fetch_account_info in E. rewrite (good_provider _ Hg) in E.
    destruct (account_answer p a) as [o| |] eqn:Eo; [|done..]. cbn in E. injection E as <- <-.
    assert (Hx : extends db (with_accounts (<[a:=o]> (db_accounts db)) db)).
    { split; [|done|done]. cbn. destruct (db_accounts db !! a) as [o'|] eqn:Ea; [|by apply insert_subseteq].
      pose proof (good_accounts _ Hg a o' Ea) as Eo'. rewrite insert_id; [done|]. congruence. }
    split_and!; [|done|exists o; split; [apply lookup_insert_eq|done]|].
    + destruct Hg as [? ? ? ? ? Hacc ?]. split; try done. intros b r. cbn. rewrite lookup_insert. case_decide as Hd; [|apply Hacc].
      subst b. by intros [= <-].
    + destruct o as [account|]; [|by eapply known_more]. intros h [->|Hh]%elem_of_cons.
      * exists a, account. split; [apply lookup_insert_eq|done].
      * by eapply known_more.
  - destruct Ha as [Hin Hne]. destruct (Hk h Hin) as (a & account & Ea & Eh).
    assert (G : bytecode_by_hash p h = Ok (Some r) /\ db' = db).
    { destruct (cached_code h db) as [c|] eqn:Ec.
      - injection E as <- <-. split; [|done]. apply cached_code_Some in Ec as (b & acc & Eb & <- & ->).
        apply (account_answer_code b); [done|by apply (good_accounts _ Hg)|done].
      - exfalso. destruct (cached_code_exists a account h db Ea Eh) as [c Ec']. congruence. }
    destruct G as [Gb ->]. split_and!; [done|apply extends_refl|done|done|by exists a, account|done].
  - unfold exex_storage_ref, fetch_storage_at in E. rewrite (good_provider _ Hg) in E.
    destruct (storage_answer p a i) as [v| |] eqn:Ev; [|done..]. cbn in E. injection E as <- <-.
    set (db2 := with_storage _ db).
    assert (Hnew : slot_read db2 a i).
    { eexists. cbn. split; [apply lookup_insert_eq|]. rewrite lookup_insert_eq. by eexists. }
    assert (Hx : extends db db2).
    { split; [done| |done]. intros b j (m & Em & Hm). unfold slot_read, db2. cbn. destruct (decide (a = b)) as [<-|Hd].
      - exists (<[i := v]> m). rewrite lookup_insert_eq, Em. split; [done|]. rewrite lookup_insert. by case_decide; [eexists|].
      - exists m. by rewrite lookup_insert_ne by done. }
    split_and!; [by destruct Hg|done|done|done|by eapply known_more].
  - unfold exex_block_hash_ref, fetch_block_hash in E. rewrite (good_factory _ Hg) in E.
    destruct (block_hash f n) as [[h|]| |] eqn:Eh; [|done..]. cbn in E. injection E as <- <-.
    cbn in Ha. destruct Hg as [? ? ? ? ? ? Ho].
    split_and!; [split; try done; cbn; lia|split; [done|done|cbn; lia]|done|cbn; lia|lia|exact Hk].
Qed.

(** A run that succeeds is repeated by every database that gives the recorded
    answers. *)
Lemma run_replays {A} (q : prog Read (outcome unit A)) (out : A) : codes_present ->
  forall g db db', checked allowed observe g q (fun _ _ => True) -> good db -> known g db ->
  on_host q db = (Ok out, db') ->
  good db' /\ extends db db' /\
  forall gdb, (forall R (c : Read R) r, recorded db' c r -> ask_database gdb c = Ok r) ->
    on_database gdb q = Ok out.
Proof.
  intros Hcodes. induction q as [r|R c k IH]; intros g db db' Hq Hg Hk E; cbn [on_host] in E.
  { injection E as -> <-. split; [done|]. split; [apply extends_refl|]. done. }
  destruct Hq as [Ha Hq]. destruct (ask_host c db) as [[r| |] db1] eqn:Ec; [|done..].
  destruct (ask_host_recorded c r g db db1 Hcodes Hg Hk Ha Ec) as (Hg1 & Hx1 & Hr & Hk1).
  destruct (IH r _ db1 db' (Hq r) Hg1 Hk1 E) as (Hg' & Hx & Hrep). split; [done|]. split; [by eapply extends_trans|].
  intros gdb Hgdb. cbn [on_database]. rewrite (Hgdb R c r (recorded_more _ _ _ _ Hx Hr)).
  by apply Hrep.
Qed.
End HostReads.

(** The EVM is a function of its reads, whether or not opcodes are counted; it
    reads as [allowed] says; and [hash_state_slow] hashes the bundle. *)
Class EvmLaws `{Keccak, ChainTypes, !Reth, !HostLibs, !Evm} : Prop := {
  evm_execute_reads track db h b s : evm_execute track db h b s = on_database db (evm_program h b s);
  evm_program_reads h b s : checked (allowed (number h)) observe [] (evm_program h b s) (fun _ _ => True);
  hash_state_bundle o : hash_state_slow o = from_bundle_state o }.

Section Ancestors.
Context `{ChainTypes} (canon : Z -> Header).

(** The [k] headers below [n], the nearest first. *)
Fixpoint ancestors (n : Z) (k : nat) : list Header :=
  match k with
  | O => []
  | S k => canon (n - 1) :: ancestors (n - 1) k
  end.

Lemma elem_of_ancestors h k : forall n, h ∈ ancestors n k <-> exists i, n - Z.of_nat k <= i < n /\ h = canon i.
Proof.
  induction k as [|k IH]; intros n; cbn [ancestors].
  - rewrite elem_of_nil. split; [done|]. intros (i & ? & _). lia.
  - rewrite elem_of_cons, IH. split.
    + intros [->|(i & Hi & ->)]; [exists (n - 1)|exists i]; split; (done || lia).
    + intros (i & Hi & ->). destruct (decide (i = n - 1)) as [->|]; [by left|]. right. exists i. split; [lia|done].
Qed.

Lemma ancestors_range n k : map canon (reverse (range_incl (n - Z.of_nat k) (n - 1))) = ancestors n k.
Proof.
  revert n. induction k as [|k IH]; intros n; cbn [ancestors].
  - unfold range_incl. by rewrite seqZ_nil by lia.
  - specialize (IH (n - 1)). rewrite <- IH. unfold range_incl.
    replace (n - 1 - (n - Z.of_nat (S k)) + 1) with (Z.of_nat (S k)) by lia.
    replace (n - 1 - 1 - (n - 1 - Z.of_nat k) + 1) with (Z.of_nat k) by lia.
    rewrite <- (Nat.add_1_r k) at 2. rewrite Nat2Z.inj_add, seqZ_app by lia. rewrite reverse_app.
    replace (n - Z.of_nat (S k)) with (n - 1 - Z.of_nat k) by lia. cbn.
    rewrite (seqZ_cons _ 1), seqZ_nil by lia. cbn. do 2 f_equal. lia.
Qed.

Context (N : Z) (Hnum : forall n, 0 <= n <= N -> number (canon n) = n) (HN : N < 2 ^ 64)
  (Hlink : forall n, 1 <= n <= N -> parent_hash (canon n) = hash_slow (canon (n - 1))).

Lemma ancestors_linked k : forall n, 0 <= n - Z.of_nat k -> n <= N -> linked (canon n :: ancestors n k).
Proof.
  induction k as [|k IH]; intros n Hk Hn; [done|]. cbn [ancestors]. split; [|split].
  - rewrite !Hnum by lia. unfold u64. rewrite Z.mod_small; lia.
  - symmetry. apply Hlink. lia.
  - apply IH; lia.
Qed.

Lemma ancestors_NoDup k : forall n, 0 <= n - Z.of_nat k -> n <= N -> NoDup (map number (canon n :: ancestors n k)).
Proof.
  induction k as [|k IH]; intros n Hk Hn; [apply NoDup_singleton|]. apply NoDup_cons. split; [|apply IH; lia].
  intros (h & E & Hin)%list_elem_of_fmap. apply elem_of_ancestors in Hin as (i & Hi & ->).
  rewrite !Hnum in E by lia. lia.
Qed.
End Ancestors.

Section HostSpec.
Context `{Keccak, AlloyRlp, RlpReader, AccountCodec, ChainTypes, !Reth, !HostLibs, !Evm}.
Context {laws : AlloyRlpLaws} {rlaws : RlpReaderLaws} {elaws : EvmLaws}.
Hypothesis Hempty : keccak256 [EMPTY_STRING_CODE] = EMPTY_ROOT.

(** The parent state by its full tries, the chain up to the block, and the
    providers that speak for them. *)
Context (T : MptNode) (storage_of : list Z -> MptNode) (canon : Z -> Header) (net : network) (block : Block)
  (f : ProviderFactory) (p : StateProvider).
Context (HT : wire_ok T /\ resolved T) (HS : forall a, wire_ok (storage_of a) /\ resolved (storage_of a)).

Definition provider_info (account : ProviderAccount) : AccountInfo :=
  {| info_balance := pa_balance account; info_nonce := pa_nonce account; info_code_hash := account_code_hash account |}.

(** A multiproof with the nodes on the way of every target. *)
Record proves (targets : MultiProofTargets) (before : MultiProof) : Prop := {
  proves_nodes : proof_of_state storage_of before;
  proves_root : account_subtree before <> [];
  proves_accounts : forall h, has_account targets h <-> h ∈ (storages before).*1;
  proves_account : forall h, has_account targets h -> covers_key (account_subtree before) T (to_nibs h);
  proves_slot : forall h smp, (h, smp) ∈ storages before -> smp_root smp <> B256_ZERO /\
    forall slot, has_slot targets h slot ->
      is_null (storage_of h) \/ covers_key (smp_subtree smp) (storage_of h) (to_nibs slot) }.

(** Reth's providers tell the truth about the state before the block. *)
Record honest_state : Prop := {
  h_provider : state_before f (parent_hash (header block)) (number (header block)) = Ok p;
  h_accounts : forall a, exists account acct, basic_account p a = Ok account /\
    get_rlp T (keccak256 a) = Ok acct /\ option_map provider_info account = option_map account_info acct;
  h_slots : forall a i, exists v o, storage p a (be_encode 32 i) = Ok v /\
    get_u256 (storage_of (keccak256 a)) (hashed_slot i) = Ok o /\ default 0 v = default 0 o;
  h_codes : codes_present p;
  h_roots : forall a, recorded_root T (keccak256 a) (hash_of (storage_of (keccak256 a)));
  h_before : forall targets before, multiproof p None targets = Ok before -> proves targets before;
  h_after : forall post targets after, multiproof p (Some post) targets = Ok after -> proof_of_nodes after }.

(** The headers they answer are the chain below the block. *)
Record honest_chain : Prop := {
  c_block : canon (number (header block)) = header block;
  c_bounds : 1 <= number (header block) < 2 ^ 64;
  c_number : forall n, 0 <= n <= number (header block) -> number (canon n) = n;
  c_link : forall n, 1 <= n <= number (header block) -> parent_hash (canon n) = hash_slow (canon (n - 1));
  c_root : header_state_root (canon (number (header block) - 1)) = hash_of T;
  c_headers : forall n, 0 <= n < number (header block) -> header_by_number f n = Ok (Some (canon n));
  c_hashes : forall n h, 0 <= n < number (header block) -> block_hash f n = Ok (Some h) -> h = hash_slow (canon n);
  c_valid : forall n, 0 <= n < number (header block) -> validate_header (FLUENT_CHAIN_ID net) (canon n) = true;
  c_follows : forall n, 1 <= n <= number (header block) ->
    beacon_validate_header_against_parent (FLUENT_CHAIN_ID net) (canon n) (canon (n - 1)) = true }.

Abbreviation N := (number (header block)).
Abbreviation good := (good p f N (parent_hash (header block)) (hash_of T)).

(** ** The state of the witness *)

(** It answers what the run has read. *)
Record answers_reads (db : ExExDb) (st : EthereumState) : Prop := {
  ar_cache : cache_ok (state_trie st);
  ar_root : hash_of (state_trie st) = hash_of T;
  ar_account : forall a, is_Some (db_accounts db !! a) ->
    get (state_trie st) (keccak256 a) = get T (keccak256 a);
  ar_slot : forall a i, slot_read db a i -> exists t, storage_tries st !! keccak256 a = Some t /\
    get t (hashed_slot i) = get (storage_of (keccak256 a)) (hashed_slot i);
  ar_roots : forall h t, storage_tries st !! h = Some t -> exists a, h = keccak256 a /\
    cache_ok t /\ hash_of t = hash_of (storage_of h) /\ get (state_trie st) h = get T h }.

Lemma exex_state_answers K fuel out db st : coll_free K -> state_in T storage_of K st ->
  honest_state -> good db -> exex_state fuel out db = Ok st -> answers_reads db st.
Proof.
  intros HK Hin Hh Hg E. unfold exex_state in E. rewrite (good_factory _ _ _ _ _ _ Hg), (good_parent _ _ _ _ _ _ Hg),
    (good_number _ _ _ _ _ _ Hg), (good_root _ _ _ _ _ _ Hg), (h_provider Hh) in E. cbn [mbind outcome_bind] in E.
  destruct (get_targets_have (bundle_state out) db) as (Ha & Hs & _ & Hb).
  set (targets := get_targets (bundle_state out) db) in *.
  apply bind_Ok in E as (before & Eb & E). destruct (multiproof p None targets) as [before'| |] eqn:Eb'; [|done..].
  injection Eb as ->. apply bind_Ok in E as (after & Ea & E).
  destruct (multiproof p (Some _) targets) as [after'| |] eqn:Ea'; [|done..]. injection Ea as ->.
  destruct (transition_multiproofs_to_tries fuel (hash_of T) before after) as [st'| |] eqn:Et; [|done..]. injection E as ->.
  pose proof (h_before Hh _ _ Eb') as Hp.
  destruct (multiproofs_stand_in Hempty T storage_of HT HS K HK fuel before after st (proves_nodes _ _ Hp) (h_after Hh _ _ _ Ea')
    (proves_root _ _ Hp) Hin Et) as [(_ & Hc & Hr & Hget) Hst]. split; [done|done|..].
  - intros a Hina. apply Hget. right. by apply (proves_account _ _ Hp), Ha.
  - intros a i Hr'. specialize (Hst (keccak256 a)). pose proof (Hs a i Hr') as Hslot.
    assert (Hacc : has_account targets (keccak256 a)) by (destruct Hslot as (? & ? & _); by eexists).
    destruct (storage_tries st !! keccak256 a) as [t|]; [|exfalso; by apply Hst, (proves_accounts _ _ Hp)].
    destruct Hst as (smp & Hins & Hsi). exists t. split; [done|]. destruct (proves_slot _ _ Hp _ _ Hins) as [Hz Hcov].
    destruct (Hsi Hz) as (_ & _ & _ & Hg'). by apply Hg', Hcov.
  - intros h t E. specialize (Hst h). rewrite E in Hst. destruct Hst as (smp & Hins & Hsi).
    destruct (proves_slot _ _ Hp _ _ Hins) as [Hz _]. destruct (Hsi Hz) as (_ & Hct & Hrt & _).
    assert (Hacc : has_account targets h) by (apply (proves_accounts _ _ Hp), list_elem_of_fmap; by exists (h, smp)).
    destruct (Hb h Hacc) as (a & -> & _). exists a. split_and!; [done..|]. apply Hget. right. by apply (proves_account _ _ Hp).
Qed.

Lemma get_rlp_get t t' k : get t k = get t' k -> get_rlp t k = get_rlp t' k.
Proof. intros E. unfold get_rlp. by rewrite E. Qed.

Lemma answers_recorded db st : honest_state -> answers_reads db st -> roots_recorded st.
Proof.
  intros Hh Ha h t Hin. destruct (ar_roots _ _ Ha h t Hin) as (a & -> & Hc & Hr & Hg). split; [done|].
  destruct (h_roots Hh a) as (acct & Eg & Er). exists acct. by rewrite (get_rlp_get _ _ _ Hg), Hr.
Qed.

(** ** The guest's database *)

Lemma account_answer_info a account acc : account_answer p a = Ok account -> basic_account p a = Ok acc ->
  option_map fetched_info account = option_map provider_info acc.
Proof.
  intros E Eb. unfold account_answer in E. rewrite Eb in E. cbn [map_err mbind outcome_bind] in E.
  destruct acc as [acc|]; [|by injection E as <-]. apply bind_Ok in E as (code & _ & E). by injection E as <-.
Qed.

Lemma account_answer_nonzero a account : account_answer p a = Ok (Some account) ->
  info_code_hash (fetched_info account) <> KECCAK_EMPTY -> info_code_hash (fetched_info account) <> B256_ZERO.
Proof.
  intros E. unfold account_answer in E. apply bind_Ok in E as ([acc|] & _ & E); [|done].
  apply bind_Ok in E as (code & _ & E). injection E as <-. cbn [fetched_info info_code_hash]. unfold account_code_hash.
  by case_decide.
Qed.

Lemma unique_codes_in account accounts : forall seen, account ∈ accounts ->
  info_code_hash (fetched_info account) <> KECCAK_EMPTY -> info_code_hash (fetched_info account) <> B256_ZERO ->
  info_code_hash (fetched_info account) ∉ seen ->
  exists account', account' ∈ accounts /\ info_code_hash (fetched_info account') = info_code_hash (fetched_info account) /\
    fetched_code account' ∈ unique_codes seen accounts.
Proof.
  induction accounts as [|b accounts IH]; intros seen Hin He Hz Hs; [by apply elem_of_nil in Hin|]. cbn [unique_codes].
  destruct (decide (info_code_hash (fetched_info b) = info_code_hash (fetched_info account))) as [Eb|Hne].
  { exists b. split; [by left|]. split; [done|]. rewrite decide_False by (rewrite Eb; tauto). by left. }
  apply elem_of_cons in Hin as [->|Hin]; [done|].
  case_decide.
  - destruct (IH seen Hin He Hz Hs) as (a' & Ha' & E & Hc). exists a'. split; [by right|done].
  - destruct (IH ({[info_code_hash (fetched_info b)]} ∪ seen) Hin He Hz) as (a' & Ha' & E & Hc); [set_solver|].
    exists a'. split; [by right|]. split; [done|]. by right.
Qed.

Lemma unique_codes_from c accounts : forall seen, c ∈ unique_codes seen accounts ->
  exists account, account ∈ accounts /\ c = fetched_code account /\ info_code_hash (fetched_info account) <> KECCAK_EMPTY.
Proof.
  induction accounts as [|b accounts IH]; intros seen Hin; [by apply elem_of_nil in Hin|]. cbn [unique_codes] in Hin.
  case_decide as Hd.
  - destruct (IH _ Hin) as (a & Ha & E). exists a. split; [by right|done].
  - apply elem_of_cons in Hin as [->|Hin]; [exists b; split; [by left|tauto]|].
    destruct (IH _ Hin) as (a & Ha & E). exists a. split; [by right|done].
Qed.

Lemma elem_of_accounts (db : ExExDb) account : account ∈ omap id (map_to_list (db_accounts db)).*2 <->
  exists a, db_accounts db !! a = Some (Some account).
Proof.
  rewrite list_elem_of_omap. split.
  - intros (o & ([a o'] & -> & Hin%elem_of_map_to_list)%list_elem_of_fmap & Eo). cbn in *. subst o'. by exists a.
  - intros (a & Ea). exists (Some account). split; [|done]. apply list_elem_of_fmap. exists (a, Some account). split; [done|].
    by apply elem_of_map_to_list.
Qed.

(** One code for every hash the run may have asked for. *)
Lemma exex_bytecodes_have db h c : honest_state -> good db -> recorded p f N db (ReadCode h) c ->
  codes_by_hash (exex_bytecodes db) !! h = Some c.
Proof.
  intros Hh Hg (Ec & Hne & a & account & Ea & Eh). subst h.
  assert (Hcode : forall b acc, db_accounts db !! b = Some (Some acc) -> info_code_hash (fetched_info acc) <> KECCAK_EMPTY ->
    bytecode_by_hash p (info_code_hash (fetched_info acc)) = Ok (Some (fetched_code acc)) /\
    bytecode_hash_slow (fetched_code acc) = info_code_hash (fetched_info acc)).
  { intros b acc Eb Hb. eapply account_answer_code; [apply (h_codes Hh)|by apply (good_accounts _ _ _ _ _ _ Hg)|done]. }
  destruct (unique_codes_in account (omap id (map_to_list (db_accounts db)).*2) ∅) as (account' & Hin & E' & Hc); [|done| | |].
  { apply elem_of_accounts. by exists a. }
  { eapply account_answer_nonzero; [by apply (good_accounts _ _ _ _ _ _ Hg)|done]. }
  { set_solver. }
  apply elem_of_accounts in Hin as (a' & Ea'). rewrite <- E' in *. destruct (Hcode a' account' Ea' Hne) as [Eb Ehash].
  assert (c = fetched_code account') as -> by congruence. rewrite <- Ehash. apply codes_by_hash_in; [done|].
  intros c' (acc & Hacc & -> & Hk)%unique_codes_from Ehc. apply elem_of_accounts in Hacc as (b & Ebacc).
  destruct (Hcode b acc Ebacc Hk) as [Eb2 Eh2]. congruence.
Qed.

Lemma guest_answers db st gdb : honest_state -> honest_chain -> good db -> answers_reads db st -> hashed st (inner gdb) ->
  WitnessDb.bytecode_by_hash gdb = codes_by_hash (exex_bytecodes db) ->
  (forall n, oldest_ancestor db <= n < N -> block_hashes gdb !! n = Some (hash_slow (canon n))) ->
  forall R (c : Read R) r, recorded p f N db c r -> ask_database (wrap_database_ref gdb) c = Ok r.
Proof.
  intros Hh Hc Hg Ha Hst Hcodes Hhashes R c r Hr. destruct c as [a|h|a i|n]; cbn [ask_database wrap_database_ref db_basic db_code_by_hash db_storage db_block_hash].
  - destruct Hr as (account & Ea & ->). pose proof (ar_account _ _ Ha a ltac:(by eexists)) as Hget.
    destruct (h_accounts Hh a) as (acc & acct & Eb & Eg & Eacc). rewrite <- (get_rlp_get _ _ _ Hget) in Eg.
    rewrite (basic_ref_hashed st gdb a acct Hst Eg). f_equal. rewrite <- Eacc. symmetry.
    apply (account_answer_info a); [|done]. by apply (good_accounts _ _ _ _ _ _ Hg).
  - unfold code_by_hash_ref. by rewrite Hcodes, (exex_bytecodes_have db h r Hh Hg Hr).
  - destruct Hr as [Ev Hslot]. destruct (ar_slot _ _ Ha a i Hslot) as (t & Et & Hget).
    destruct (h_slots Hh a i) as (v & o & Es & Eg & Evo). unfold storage_answer in Ev. rewrite Es in Ev.
    cbn [map_err mbind outcome_bind] in Ev. injection Ev as <-. rewrite Evo. eapply storage_ref_hashed; [done|done|].
    rewrite <- Eg. unfold get_u256. unfold hashed_slot in Hget. by rewrite Hget.
  - destruct Hr as [Eh Hn]. unfold block_hash_ref. rewrite Hhashes by lia. cbn [unwrap]. f_equal. symmetry.
    apply (c_hashes Hc); [|done]. pose proof (good_oldest _ _ _ _ _ _ Hg). lia.
Qed.

(** ** The ancestors *)

Lemma header_at_canon db n : honest_chain -> good db -> 0 <= n < N -> header_at (provider_factory db) n = Ok (canon n).
Proof. intros Hc Hg Hn. unfold header_at. by rewrite (good_factory _ _ _ _ _ _ Hg), (c_headers Hc n Hn). Qed.

Lemma exex_ancestors db hs : honest_chain -> good db -> exex_ancestor_headers db = Ok hs ->
  exists k, hs = ancestors canon N (S k) /\ 0 <= N - Z.of_nat (S k) /\ N - Z.of_nat (S k) <= oldest_ancestor db.
Proof.
  intros Hc Hg E. pose proof (good_oldest _ _ _ _ _ _ Hg) as Ho. pose proof (c_bounds Hc) as HN.
  unfold exex_ancestor_headers in E. rewrite (good_number _ _ _ _ _ _ Hg) in E. case_decide as Hd.
  - unfold u64 in E. rewrite Z.mod_small in E by lia. rewrite (header_at_canon db) in E by (done || lia). injection E as <-.
    exists 0%nat. split; [done|lia].
  - exists (Z.to_nat (N - oldest_ancestor db - 1)). set (k := Z.to_nat _).
    assert (Hk : N - Z.of_nat (S k) = oldest_ancestor db) by lia. split; [|lia].
    rewrite <- ancestors_range, Hk. rewrite (mapM_known _ canon) in E; [by injection E as <-|].
    intros n Hn. rewrite elem_of_reverse in Hn. apply elem_of_range_incl in Hn. apply header_at_canon; (done || lia).
Qed.

Lemma windows_valid k : forall n, honest_chain -> 0 <= n - Z.of_nat k -> n <= N ->
  for_each (validate_window (FLUENT_CHAIN_ID net)) tt (tuple_windows (map seal_slow (canon n :: ancestors canon n k))) = Ok tt.
Proof.
  induction k as [|k IH]; intros n Hc Hk Hn; [done|].
  change (tuple_windows (map seal_slow (canon n :: ancestors canon n (S k)))) with
    ((seal_slow (canon n), seal_slow (canon (n - 1))) :: tuple_windows (map seal_slow (canon (n - 1) :: ancestors canon (n - 1) k))).
  assert (E : validate_window (FLUENT_CHAIN_ID net) tt (seal_slow (canon n), seal_slow (canon (n - 1))) = Ok tt).
  { unfold validate_window, seal_slow. cbn [fst snd]. rewrite (c_valid Hc), (c_follows Hc) by lia. done. }
  cbn [for_each]. rewrite E. cbn [mbind outcome_bind]. apply IH; (done || lia).
Qed.

(** ** The guest's run *)

(** The checks that are left when the database is there. *)
Lemma execute_passes input gdb senders out st' root hashes : current_block input = block ->
  input_witness_db input (sealed_headers input) = Ok gdb ->
  recover_senders (header block) (body block) = Some senders ->
  validate_block (FLUENT_CHAIN_ID net) block = true ->
  for_each (validate_window (FLUENT_CHAIN_ID net)) tt (tuple_windows (sealed_headers input)) = Ok tt ->
  evm_execute (opcode_tracking input) (wrap_database_ref gdb) (header block) (body block) senders = Ok out ->
  beacon_validate_post_execution (FLUENT_CHAIN_ID net) (header block) (body block) out = true ->
  update (hash_state_slow out) (inner gdb) = Ok st' -> state_root st' = root -> root = header_state_root (header block) ->
  calculate_bridge_hashes net (BRIDGE_INFO net) [execution_receipts out] = Ok hashes ->
  execute net input = Ok (derive_header (header block) root, hashes).
Proof.
  intros Eb Edb Es Ev Ew Eo Ep Eu <- Er Eh. unfold execute. rewrite Eb, Edb. cbn [unwrap_res mbind outcome_bind].
  rewrite Es, Ev. cbn [ensure]. rewrite Ew. rewrite Eo. cbn [map_err mbind outcome_bind]. rewrite Ep. cbn [negb]. rewrite Eu.
  cbn [infallible mbind outcome_bind]. rewrite decide_False by (intros Hne; by apply Hne). by rewrite Eh.
Qed.

(** What a run of the host that succeeds has established. *)
Lemma execute_on_inv fuel db beneficiary input : execute_on fuel (FLUENT_CHAIN_ID net) block db beneficiary = Ok input ->
  exists senders out db' st',
    recover_senders (header block) (body block) = Some senders /\ validate_header (FLUENT_CHAIN_ID net) (header block) = true /\
    on_host (evm_program (header block) (body block) senders) db = (Ok out, db') /\
    beacon_validate_post_execution (FLUENT_CHAIN_ID net) (header block) (body block) out = true /\
    exex_state fuel out db' = Ok (parent_state input) /\ update (from_bundle_state out) (parent_state input) = Ok st' /\
    state_root st' = header_state_root (header block) /\ exex_ancestor_headers db' = Ok (ancestor_headers input) /\
    current_block input = block /\ bytecodes input = exex_bytecodes db'.
Proof.
  intros E. unfold execute_on in E. destruct (recover_senders _ _) as [senders|]; [|done].
  destruct (validate_header _ _); [|done]. cbn [negb] in E.
  destruct (on_host (evm_program (header block) (body block) senders) db) as [[out| |] db'] eqn:Erun; [|done..].
  cbn [map_err mbind outcome_bind] in E. destruct (beacon_validate_post_execution _ _ _ out) eqn:Ep; [|done]. cbn [negb] in E.
  apply bind_Ok in E as (st & Es & E). apply bind_Ok in E as (st' & Eu & E). case_decide as Hroot; [done|].
  apply bind_Ok in E as (hs & Ea & E). apply bind_Ok in E as ([] & _ & E). injection E as <-.
  exists senders, out, db', st'. cbn [parent_state ancestor_headers current_block bytecodes]. apply infallible_Ok in Eu.
  split_and!; try done.
  - by destruct (exex_state fuel out db'); [injection Es as ->|..].
  - by destruct (exex_ancestor_headers db'); [injection Ea as ->|..].
Qed.

(** The encodings of the nodes of the full tries and of those in the input. *)
Definition input_encodings (input : ClientExecutorInput) : list (list Z) :=
  node_encodings T ++ node_encodings (state_trie (parent_state input)) ++
  all_encodings (fun e => node_encodings e.2 ++ node_encodings (storage_of e.1)) (map_to_list (storage_tries (parent_state input))).

Lemma input_encodings_in input : state_in T storage_of (input_encodings input) (parent_state input).
Proof.
  unfold input_encodings. split.
  - by apply sub_app_l.
  - by apply sub_app_r, sub_app_l.
  - intros a t Ha%elem_of_map_to_list. split; do 2 apply sub_app_r; apply (all_encodings_in _ _ _ _ Ha);
      [by apply sub_app_l|by apply sub_app_r].
Qed.

(** C4: what the host accepts, the guest accepts.  Let the providers tell the
    truth about the state before the block, given by its full tries, and about
    the chain below it, and let the block's body fit its header.  Whenever
    [execute_exex_with_block] returns an input, and no two encodings of nodes of
    those tries and of the input's collide under Keccak-256, the guest's [execute]
    on it succeeds, with the block's own header and the bridge hashes of its
    receipts: no read of the guest is missing from the witness, no check of the
    guest fails. *)
Theorem host_accepted_executes fuel beneficiary input : honest_state -> honest_chain ->
  validate_body_against_header (body block) (header block) = true ->
  execute_exex_with_block fuel (FLUENT_CHAIN_ID net) block (hash_of T) f beneficiary = Ok input ->
  coll_free (input_encodings input) ->
  exists hashes, execute net input = Ok (derive_header (header block) (header_state_root (header block)), hashes).
Proof.
  intros Hh Hc Hbody E HK. unfold execute_exex_with_block in E. apply bind_Ok in E as (db & Edb & E).
  destruct (new_exex_db f N (parent_hash (header block)) (hash_of T)) as [db0| |] eqn:Enew; [|done..]. injection Edb as ->.
  pose proof (c_bounds Hc) as HN. apply (new_db_good p) in Enew; [|lia|apply (h_provider Hh)].
  apply execute_on_inv in E as (senders & out & db' & st' & Es & Ev & Eo & Ep & Est & Eu & Er & Ea & Eb & Ecodes).
  destruct (run_replays p f N _ _ (evm_program (header block) (body block) senders) out (h_codes Hh) [] db db'
    (evm_program_reads _ _ senders) Enew) as (Hg & _ & Hrep); [by intros h []%elem_of_nil|exact Eo|].
  pose proof (exex_state_answers _ fuel out db' (parent_state input) HK (input_encodings_in input) Hh Hg Est) as Hans.
  pose proof (answers_recorded _ _ Hh Hans) as Hroots.
  destruct (exex_ancestors db' _ Hc Hg Ea) as (k & Ehs & Hk & Hold).
  assert (Hsealed : sealed_headers input = map seal_slow (canon N :: ancestors canon N (S k))).
  { by rewrite sealed_headers_map, Eb, Ehs, (c_block Hc). }
  destruct (witness_db_accepts (parent_state input) (bytecodes input) (canon N :: ancestors canon N (S k))) as (gdb & Egdb & Hst & Hgc & Hgh);
    [apply (ar_cache _ _ Hans)|done|by apply (ancestors_linked canon N (c_number Hc)); [lia|apply (c_link Hc)|lia..]|
     by apply (ancestors_NoDup canon N (c_number Hc)); lia|].
  assert (Ewdb : input_witness_db input (sealed_headers input) = Ok gdb).
  { unfold input_witness_db, parent_header. rewrite Hsealed, Ehs. cbn [ancestors head unwrap mbind outcome_bind].
    rewrite (c_root Hc), <- (ar_root _ _ Hans). exact Egdb. }
  assert (Eout : on_database (wrap_database_ref gdb) (evm_program (header block) (body block) senders) = Ok out).
  { apply Hrep. apply (guest_answers db' (parent_state input)); try done; [by rewrite Hgc, Ecodes|]. intros n Hn.
    rewrite <- (c_number Hc n) at 1 by (pose proof (good_oldest _ _ _ _ _ _ Hg); lia). apply Hgh. apply elem_of_ancestors.
    exists n. split; [lia|done]. }
  pose proof (update_same (from_bundle_state out) _ _ (hashed_same _ _ Hst)) as Hup. rewrite Eu in Hup.
  destruct (update (from_bundle_state out) (inner gdb)) as [st2| |] eqn:Eu2; [|done..].
  destruct (bridge_hashes_spec net (BRIDGE_INFO net) [execution_receipts out]) as (root & _ & Ebh).
  eexists. eapply execute_passes; [done|exact Ewdb|done| | | |exact Ep| | |done|exact Ebh].
  - unfold validate_block. by rewrite Ev.
  - rewrite Hsealed. apply windows_valid; (done || lia).
  - rewrite evm_execute_reads. exact Eout.
  - rewrite hash_state_bundle. exact Eu2.
  - rewrite <- Er. symmetry. by apply same_state_root.
Qed.
End HostSpec.

(** ** The theorem at a concrete block

    A state with one account that has code and one slot; a program that reads
    all of it and a block hash; and a block that changes the account. *)
Section Samples.
#[local] Existing Instance RefRlp.alloy.
#[local] Existing Instance RefRlp.reader.
#[local] Existing Instance sample_keccak.
#[local] Existing Instance sample_types.
#[local] Existing Instance byte_codec.

Definition addr : list Z := replicate 20 9.
Definition haddr : list Z := keccak256 addr.
Definition hslot : list Z := hashed_slot 5.
Definition code : list Z := [96; 0].
Definition leaf_at (key v : list Z) : MptNode := from_data (Leaf (to_encoded_path (to_nibs key) true) v).

Definition the_storage : MptNode := leaf_at hslot [7].
Definition the_account : TrieAccount :=
  {| nonce := 1; balance := 100; storage_root := hash_of the_storage; code_hash := keccak256 code |}.
Definition the_state : MptNode := leaf_at haddr (account_encode the_account).
Definition the_storages (h : list Z) : MptNode := if decide (h = haddr) then the_storage else default_node.

(** ** Tries of one leaf *)

Lemma leaf_at_fits key v : Bytes key -> length key = 32%nat -> Bytes v -> Z.of_nat (string_length v) < 2 ^ 63 ->
  (forall i, Z.of_nat (string_length (to_encoded_path (drop i (to_nibs key)) true)) < 2 ^ 63) ->
  wire_ok (leaf_at key v) /\ resolved (leaf_at key v) /\ forall l, encodes (l, enc_of (leaf_at key v)) (leaf_at key v).
Proof.
  intros Hk Hl Hv Hs Hp. assert (Hw : wire_ok (leaf_at key v)).
  { apply wire_Leaf; [by apply to_nibs_nibs|done|]. specialize (Hp 0%nat). rewrite drop_0 in Hp. lia. }
  split; [done|]. split; [constructor|]. intros l. split; [done|]. split; [done|]. split; [|done].
  intros q i Hq. unfold nibs in Hq. cbn [leaf_at from_data as_data] in Hq.
  rewrite prefix_nibs_to_encoded_path in Hq by by apply to_nibs_nibs. injection Hq as <-. specialize (Hp i).
  cbn [leaf_at from_data as_data]. lia.
Qed.

Lemma get_leaf_at key v k : Bytes key -> Bytes k -> get (leaf_at key v) k = Ok (if decide (k = key) then Some v else None).
Proof.
  intros Hkey Hk. unfold get, leaf_at. cbn [get_internal from_data].
  rewrite prefix_nibs_to_encoded_path by by apply to_nibs_nibs. cbn [unwrap mbind outcome_bind].
  destruct (decide (k = key)) as [->|Hne]; [by rewrite decide_True|].
  rewrite decide_False; [done|]. intros E. apply Hne. by apply to_nibs_inj.
Qed.

Lemma covers_leaf_at entries key v k : (exists e, e ∈ entries /\ encodes e (leaf_at key v)) -> covers_key entries (leaf_at key v) k.
Proof. intros He t' Hp _. by inversion Hp. Qed.

(** Paths of two byte strings of 32 bytes are short. *)
Lemma sample_paths key : key = haddr \/ key = hslot ->
  forall i, Z.of_nat (string_length (to_encoded_path (drop i (to_nibs key)) true)) < 2 ^ 63.
Proof.
  intros Hk i. destruct (decide (i < 64)%nat) as [Hi|Hi].
  - assert (F : Forall (fun i => Z.of_nat (string_length (to_encoded_path (drop i (to_nibs key)) true)) < 2 ^ 63) (seq 0 64)).
    { destruct Hk as [-> | ->]; apply (bool_decide_unpack _); by vm_compute. }
    rewrite Forall_forall in F. apply F. apply elem_of_seq. lia.
  - rewrite drop_ge; [by vm_compute|]. rewrite length_to_nibs. destruct Hk as [-> | ->].
    + unfold haddr. rewrite keccak256_length. lia.
    + unfold hslot, hashed_slot. rewrite keccak256_length. lia.
Qed.

Lemma the_state_fits : wire_ok the_state /\ resolved the_state /\ forall l, encodes (l, enc_of the_state) the_state.
Proof.
  apply leaf_at_fits; [apply keccak256_bytes|apply keccak256_length| |by vm_compute|apply sample_paths; by left].
  apply (bool_decide_unpack _). by vm_compute.
Qed.

Lemma the_storage_fits : wire_ok the_storage /\ resolved the_storage /\ forall l, encodes (l, enc_of the_storage) the_storage.
Proof.
  apply leaf_at_fits; [apply keccak256_bytes|apply keccak256_length| |by vm_compute|apply sample_paths; by right].
  apply (bool_decide_unpack _). by vm_compute.
Qed.

Lemma the_storages_fit h : wire_ok (the_storages h) /\ resolved (the_storages h) /\
  forall l, encodes (l, enc_of (the_storages h)) (the_storages h).
Proof.
  unfold the_storages. case_decide; [apply the_storage_fits|]. split; [constructor|]. split; [constructor|].
  intros l. split; [constructor|]. by split; [|split].
Qed.

(** ** The libraries *)

Definition sample_program (h : Header) (receipts : list Receipt) : prog Read (outcome unit (list Receipt)) :=
  Vis (ReadBasic addr) (fun account =>
    match account with
    | Some info =>
        if decide (info_code_hash info = KECCAK_EMPTY) then Ret (Err tt) else
        Vis (ReadCode (info_code_hash info)) (fun c =>
        Vis (ReadStorage addr 5) (fun v =>
        if decide (4 < number h) then
          Vis (ReadBlockHash 4) (fun b => Ret (if decide (c = code /\ v = 7 /\ b = sample_hash 4) then Ok receipts else Err tt))
        else Ret (Err tt)))
    | None => Ret (Err tt)
    end).

Definition sample_change : HashedPostState := {|
  accounts := [(haddr, Some {| acct_nonce := 2; acct_balance := 90; bytecode_hash := keccak256 code |})];
  post_storages := {[ haddr := {| wiped := false; hs_storage := [(hslot, 8); (hashed_slot 6, 3)] |} ]} |}.

#[local] Instance reading_reth : Reth := {|
  Body := list Receipt;
  Senders := unit;
  ExecutionOutput := list Receipt;
  recover_senders _ _ := Some tt;
  beacon_validate_header _ _ := None;
  validate_body_against_header _ _ := true;
  beacon_validate_header_against_parent _ _ _ := true;
  named_chain _ := None;
  evm_execute _ db h b _ := on_database db (sample_program h b);
  beacon_validate_post_execution _ _ _ _ := true;
  execution_receipts o := o;
  hash_state_slow _ := sample_change |}.

#[local] Instance sample_host_libs : HostLibs := {|
  bundle_state _ := [(addr, [5; 6])];
  from_bundle_state _ := sample_change;
  default_bytecode := [];
  accrued_bloom _ := [] |}.

#[local] Instance sample_evm : Evm := {| evm_program h b _ := sample_program h b |}.

Lemma sample_evm_laws : EvmLaws.
Proof.
  split; [done| |done]. intros h b s. cbn [evm_program sample_evm]. split; [done|]. intros [info|]; [|done]. cbn [observe].
  case_decide; [done|]. split; [split; [by left|done]|]. intros c. split; [done|]. intros v. case_decide; [|done].
  split; [cbn; lia|]. intros b'. by case_decide.
Qed.

(** ** The providers *)

Definition proof_of (targets : MultiProofTargets) : MultiProof := {|
  account_subtree := [([], enc_of the_state)];
  storages := (fun e => (e.1, {| smp_root := hash_of (the_storages e.1); smp_subtree := [([], enc_of (the_storages e.1))] |}))
                <$> map_to_list targets |}.

Definition the_provider : StateProvider := {|
  basic_account a := Ok (if decide (keccak256 a = haddr)
    then Some {| pa_nonce := 1; pa_balance := 100; pa_bytecode_hash := Some (keccak256 code) |} else None);
  bytecode_by_hash h := Ok (if decide (h = keccak256 code) then Some code else None);
  storage a k := Ok (if decide (keccak256 a = haddr /\ keccak256 k = hslot) then Some 7 else None);
  multiproof _ targets := Ok (proof_of targets) |}.

Definition new_root : list Z :=
  match update sample_change {| state_trie := the_state; storage_tries := {[haddr := the_storage]} |} with
  | Ok st => state_root st
  | _ => []
  end.
Definition sample_block : Block := {| header := sample_header 7 new_root (sample_hash 6); body := concat sample_receipts |}.
Definition the_chain (n : Z) : Header :=
  if decide (n = 7) then header sample_block else sample_header n (hash_of the_state) (sample_hash (n - 1)).
Definition the_factory : ProviderFactory := {|
  state_by_block_hash _ := Ok the_provider;
  history_by_block_number _ := Ok the_provider;
  header_by_number n := Ok (Some (the_chain n));
  block_hash n := Ok (Some (sample_hash n)) |}.

Lemma the_chain_number n : number (the_chain n) = n.
Proof. unfold the_chain. by case_decide. Qed.

Lemma sample_chain_honest : honest_chain the_state the_chain mainnet sample_block the_factory.
Proof.
  split; try done.
  - intros n _. apply the_chain_number.
  - intros n _. transitivity (sample_hash (n - 1)); [unfold the_chain; by case_decide as E; [rewrite E|]|].
    cbn [hash_slow sample_types]. by rewrite the_chain_number.
  - intros n h _ [= <-]. cbn [hash_slow sample_types]. by rewrite the_chain_number.
Qed.

Lemma proof_of_proves targets : proves the_state the_storages targets (proof_of targets).
Proof.
  assert (Hin : forall h smp, (h, smp) ∈ storages (proof_of targets) <-> is_Some (targets !! h) /\
    smp = {| smp_root := hash_of (the_storages h); smp_subtree := [([], enc_of (the_storages h))] |}).
  { intros h smp. cbn [storages proof_of]. rewrite list_elem_of_fmap. split.
    - intros ([h' s] & [= -> ->] & E%elem_of_map_to_list). split; [by eexists|done].
    - intros [[s E] ->]. exists (h, s). split; [done|]. by apply elem_of_map_to_list. }
  split.
  - split; [apply Forall_singleton; eexists; apply the_state_fits|]. split.
    + cbn [storages proof_of]. rewrite <- list_fmap_compose. apply (NoDup_fst_map_to_list targets).
    + intros h smp [_ ->]%Hin. cbn [smp_root smp_subtree]. split; [|done]. apply Forall_singleton. eexists. apply the_storages_fit.
  - done.
  - intros h. cbn [storages proof_of]. rewrite <- list_fmap_compose. symmetry. apply (elem_of_keys targets h).
  - intros h _. apply covers_leaf_at. eexists. split; [by left|]. apply the_state_fits.
  - intros h smp [_ ->]%Hin. cbn [smp_root smp_subtree]. unfold the_storages. case_decide.
    + split; [by vm_compute|]. intros slot _. right. apply covers_leaf_at. eexists. split; [by left|]. apply the_storage_fits.
    + split; [by vm_compute|]. intros slot _. by left.
Qed.

Lemma sample_state_honest : honest_state the_state the_storages sample_block the_factory the_provider.
Proof.
  assert (Hk : forall a, get the_state (keccak256 a) = Ok (if decide (keccak256 a = haddr) then Some (account_encode the_account) else None)).
  { intros a. apply get_leaf_at; apply keccak256_bytes. }
  split; try done.
  - intros a. eexists _, (if decide (keccak256 a = haddr) then Some the_account else None). split; [reflexivity|].
    unfold get_rlp. rewrite Hk. case_decide; [|by split]. split; by vm_compute.
  - intros a i. eexists _, (if decide (keccak256 a = haddr /\ hashed_slot i = hslot) then Some 7 else None).
    split; [reflexivity|]. unfold get_u256, the_storages. case_decide.
    + unfold the_storage. rewrite get_leaf_at by apply keccak256_bytes. unfold hashed_slot. case_decide as E.
      * by rewrite decide_True.
      * rewrite !decide_False by tauto. done.
    + rewrite !decide_False by tauto. done.
  - intros a account [= E] Hne. case_decide; [|done]. injection E as <-. exists code. by vm_compute.
  - intros a. unfold recorded_root, get_rlp. rewrite Hk. unfold the_storages. case_decide.
    + eexists. split; [reflexivity|]. vm_compute. reflexivity.
    + by eexists.
  - intros targets before [= <-]. apply proof_of_proves.
  - intros post targets after [= <-]. destruct (proof_of_proves targets) as [(He & _ & Hs) _ _ _ _]. split; [done|].
    intros h smp Hin. by destruct (Hs h smp Hin).
Qed.

Lemma host_accepted_executes_witness : exists input,
  execute_exex_with_block 10 (FLUENT_CHAIN_ID mainnet) sample_block (hash_of the_state) the_factory None = Ok input /\
  exists hashes, execute mainnet input = Ok (derive_header (header sample_block) new_root, hashes).
Proof.
  assert (Hk : keccak256 [EMPTY_STRING_CODE] = EMPTY_ROOT) by (vm_compute; reflexivity).
  assert (E : exists input, execute_exex_with_block 10 (FLUENT_CHAIN_ID mainnet) sample_block (hash_of the_state) the_factory None = Ok input /\
    coll_free (input_encodings the_state the_storages input)).
  { assert (Hok : match execute_exex_with_block 10 (FLUENT_CHAIN_ID mainnet) sample_block (hash_of the_state) the_factory None with
      | Ok input => bool_decide (coll_free (input_encodings the_state the_storages input)) | _ => false end = true) by (vm_compute; reflexivity).
    destruct (execute_exex_with_block _ _ _ _ _ _) as [input| |]; [|discriminate Hok..]. exists input. split; [done|].
    exact (bool_decide_eq_true_1 _ Hok). }
  destruct E as (input & E & HK). exists input. split; [exact E|].
  exact (host_accepted_executes (laws := RefRlp.alloy_laws) (rlaws := RefRlp.reader_laws) (elaws := sample_evm_laws) Hk the_state the_storages
    the_chain mainnet sample_block the_factory the_provider (conj (proj1 the_state_fits) (proj1 (proj2 the_state_fits)))
    (fun h => conj (proj1 (the_storages_fit h)) (proj1 (proj2 (the_storages_fit h)))) 10 None input
    sample_state_honest sample_chain_honest eq_refl E HK).
Defined.
End Samples.
