(* ===== verification/RpcDb.v ===== *)
(** * The databases over RPC ([crates/storage/rpc-db/src/basic.rs], [execution_witness.rs])

    When the host has no node of its own it executes against a node's JSON-RPC
    endpoint, with one of two databases behind the trait [RpcDb]: one fetches what
    is read and proves it afterwards, the other starts from the node's execution
    witness.  The endpoint is a record of functions: what it answers during one
    execution.  The locks of the code are never poisoned: no holder panics. *)
From S2P Require Import Prelude BytesCodec Nibbles Mpt MptInv MptMap Rlp MptHash MptWire.
From S2P Require Import MptProof MptTries EthState MptWitness Network Merkle EventsHash WitnessDb Executor Interaction.
From S2P Require Import HostDb HostExecutor.
From stdpp Require Import strings sorting.
#[local] Open Scope Z_scope.

(** [EIP1186AccountProofResponse], [EIP1186StorageProof]. *)
Record EIP1186StorageProof : Type := {
  esp_key : list Z;
  esp_value : Z;
  esp_proof : list (list Z) }.
Record EIP1186AccountProofResponse : Type := {
  eip_address : list Z;
  eip_balance : Z;
  eip_code_hash : list Z;
  eip_nonce : Z;
  eip_storage_hash : list Z;
  eip_account_proof : list (list Z);
  eip_storage_proof : list EIP1186StorageProof }.

(** [ExecutionWitness] of [debug_executionWitness]. *)
Record ExecutionWitness : Type := {
  witness_state : list (list Z);
  witness_codes : list (list Z);
  witness_headers : list (list Z) }.

(** ** [account_proof.rs] *)

(** The storage root the proof is checked against: an account that is not there
    is answered with zeros. *)
Definition eip1186_storage_root (proof : EIP1186AccountProofResponse) : list Z :=
  if (eip_nonce proof =? 0) && (eip_balance proof =? 0) && bool_decide (eip_storage_hash proof = B256_ZERO) &&
     bool_decide (eip_code_hash proof = B256_ZERO)
  then EMPTY_ROOT else eip_storage_hash proof.

Definition eip1186_proof_to_account_proof (proof : EIP1186AccountProofResponse) : AccountProof := {|
  ap_proof := eip_account_proof proof;
  ap_storage_root := eip1186_storage_root proof;
  ap_storage_proofs := (fun sp => {| sp_key := esp_key sp; sp_proof := esp_proof sp |}) <$> eip_storage_proof proof |}.

Section Providers.
Context `{ChainTypes, !Reth}.

(** A block of the endpoint, with the hash it claims for its header. *)
Record RpcBlock : Type := {
  rpc_hash : list Z;
  rpc_block : Block }.

(** [alloy_provider::Provider], with [eth_getRawCode] and [debug_executionWitness]. *)
Record RpcProvider : Type := {
  get_proof : list Z -> list (list Z) -> Z -> outcome string EIP1186AccountProofResponse;
  get_raw_code : list Z -> Z -> outcome string (list Z);
  get_storage_at : list Z -> Z -> Z -> outcome string Z;
  get_block_by_number : Z -> outcome string (option RpcBlock);
  debug_execution_witness : Z -> outcome string ExecutionWitness }.
End Providers.

(** [Bytecode::new_raw] and [Header::decode]. *)
Class RawTypes `{ChainTypes} : Type := {
  new_raw : list Z -> Bytecode;
  header_decode : list Z -> option Header }.

(** The trait [RpcDb]: a [DatabaseRef] with interior mutability, and what the
    input is made of. *)
Class RpcDatabase `{ChainTypes, !Reth} (DB : Type) : Type := {
  rpc_ask : forall R, Read R -> DB -> outcome unit R * DB;
  rpc_state : nat -> ExecutionOutput -> DB -> outcome RpcDbError EthereumState;
  rpc_bytecodes : DB -> list Bytecode;
  rpc_ancestor_headers : DB -> outcome RpcDbError (list Header) }.

Section Basic.
Context `{Keccak, AlloyRlp, RlpReader, AccountCodec, ChainTypes, !Reth, !HostLibs, !RawTypes}.

(** ** [BasicRpcDb] *)
Record BasicRpcDb : Type := {
  basic_provider : RpcProvider;
  basic_block_number : Z;
  basic_state_root : list Z;
  basic_accounts : gmap (list Z) FetchedAccount;
  basic_storage : gmap (list Z) (gmap Z Z);
  basic_oldest_ancestor : Z }.

Definition with_basic (accounts : gmap (list Z) FetchedAccount) (storage : gmap (list Z) (gmap Z Z)) (oldest_ancestor : Z)
    (db : BasicRpcDb) : BasicRpcDb := {|
  basic_provider := basic_provider db; basic_block_number := basic_block_number db; basic_state_root := basic_state_root db;
  basic_accounts := accounts; basic_storage := storage; basic_oldest_ancestor := oldest_ancestor |}.

Definition new_basic_db (provider : RpcProvider) (block_number : Z) (state_root : list Z) : BasicRpcDb := {|
  basic_provider := provider; basic_block_number := block_number; basic_state_root := state_root;
  basic_accounts := ∅; basic_storage := ∅; basic_oldest_ancestor := block_number |}.

Definition basic_fetch_account_info (address : list Z) (db : BasicRpcDb) : outcome RpcDbError FetchedAccount * BasicRpcDb :=
  match map_err (GetProofError address) (get_proof (basic_provider db) address [] (basic_block_number db)) with
  | Ok proof =>
      match map_err (GetCodeError address) (get_raw_code (basic_provider db) address (basic_block_number db)) with
      | Ok code =>
          let code_hash := if decide (eip_code_hash proof = B256_ZERO) then KECCAK_EMPTY else eip_code_hash proof in
          let account_info := {|
            fetched_info := {| info_balance := eip_balance proof; info_nonce := eip_nonce proof; info_code_hash := code_hash |};
            fetched_code := new_raw code |} in
          (Ok account_info, with_basic (<[address := account_info]> (basic_accounts db)) (basic_storage db) (basic_oldest_ancestor db) db)
      | Err e => (Err e, db)
      | Panic => (Panic, db)
      end
  | Err e => (Err e, db)
  | Panic => (Panic, db)
  end.

Definition basic_fetch_storage_at (address : list Z) (index : Z) (db : BasicRpcDb) : outcome RpcDbError Z * BasicRpcDb :=
  match map_err (GetStorageError address index) (get_storage_at (basic_provider db) address index (basic_block_number db)) with
  | Ok value =>
      let entry := default ∅ (basic_storage db !! address) in
      (Ok value, with_basic (basic_accounts db) (<[address := <[index := value]> entry]> (basic_storage db)) (basic_oldest_ancestor db) db)
  | Err e => (Err e, db)
  | Panic => (Panic, db)
  end.

Definition basic_fetch_block_hash (number : Z) (db : BasicRpcDb) : outcome RpcDbError (list Z) * BasicRpcDb :=
  match map_err (GetBlockError number) (get_block_by_number (basic_provider db) number) with
  | Ok (Some block) =>
      (Ok (rpc_hash block), with_basic (basic_accounts db) (basic_storage db) (Z.min number (basic_oldest_ancestor db)) db)
  | Ok None => (Err (BlockNotFound number), db)
  | Err e => (Err e, db)
  | Panic => (Panic, db)
  end.

(** [DatabaseRef]: an account that is not there is answered like an empty one;
    [code_by_hash_ref] is [unimplemented!()]. *)
Definition basic_ask (R : Type) (c : Read R) (db : BasicRpcDb) : outcome unit R * BasicRpcDb :=
  match c in Read R return outcome unit R * BasicRpcDb with
  | ReadBasic address =>
      let '(account, db) := basic_fetch_account_info address db in
      ((fun account => Some (fetched_info account)) <$> as_provider_error account, db)
  | ReadCode _ => (Panic, db)
  | ReadStorage address index => let '(value, db) := basic_fetch_storage_at address index db in (as_provider_error value, db)
  | ReadBlockHash number => let '(h, db) := basic_fetch_block_hash number db in (as_provider_error h, db)
  end.

(** [CacheDB] answers code from the accounts it has read. *)
Definition basic_cached_code (code_hash : list Z) (db : BasicRpcDb) : option Bytecode :=
  fetched_code <$> head (filter (fun account => info_code_hash (fetched_info account) = code_hash) (map_to_list (basic_accounts db)).*2).
Definition basic_rpc_ask (R : Type) (c : Read R) (db : BasicRpcDb) : outcome unit R * BasicRpcDb :=
  match c in Read R return outcome unit R * BasicRpcDb with
  | ReadCode code_hash =>
      match basic_cached_code code_hash db with
      | Some code => (Ok code, db)
      | None => basic_ask _ (ReadCode code_hash) db
      end
  | c => basic_ask _ c db
  end.

(** The slots read, of every address seen. *)
Definition get_state_requests (db : BasicRpcDb) : gmap (list Z) (gset Z) :=
  list_to_map ((fun address => (address, dom (default ∅ (basic_storage db !! address)))) <$>
    ((map_to_list (basic_accounts db)).*1 ++ (map_to_list (basic_storage db)).*1)).

(** [BTreeSet<B256>]: in order. *)
Definition sorted_slots (keys : gset Z) : list (list Z) := be_encode 32 <$> merge_sort Z.le (elements keys).

(** One account: its proofs before and after the block. *)
Definition request_proofs (provider : RpcProvider) (block_number : Z) (modified : gmap (list Z) (list Z))
    (entry : list Z * gset Z) : outcome RpcDbError ((list Z * AccountProof) * (list Z * AccountProof)) :=
  let '(address, used_keys) := entry in
  let modified_keys := default [] (modified !! address) in
  let keys := sorted_slots (used_keys ∪ list_to_set modified_keys) in
  before ← map_err Transport (get_proof provider address keys block_number);
  after ← map_err Transport (get_proof provider address keys (u64 (block_number + 1)));
  Ok ((eip_address before, eip1186_proof_to_account_proof before), (eip_address after, eip1186_proof_to_account_proof after)).

Definition basic_state (fuel : nat) (output : ExecutionOutput) (db : BasicRpcDb) : outcome RpcDbError EthereumState :=
  proofs ← mapM (request_proofs (basic_provider db) (basic_block_number db) (list_to_map (bundle_state output)))
    (map_to_list (get_state_requests db));
  let before_storage_proofs : gmap (list Z) AccountProof := list_to_map (reverse proofs.*1) in
  let after_storage_proofs : gmap (list Z) AccountProof := list_to_map (reverse proofs.*2) in
  map_err FromProof (transition_proofs_to_tries fuel (basic_state_root db) (map_to_list before_storage_proofs) after_storage_proofs).

(** [BTreeMap<B256, Bytecode>]: in order of the hashes. *)
Definition basic_bytecodes (db : BasicRpcDb) : list Bytecode :=
  btree_values (list_to_map (reverse ((fun account => (be_decode (bytecode_hash_slow (fetched_code account)), fetched_code account)) <$>
    (map_to_list (basic_accounts db)).*2))).

Definition basic_header_at (provider : RpcProvider) (height : Z) : outcome RpcDbError Header :=
  block ← map_err Transport (get_block_by_number provider height);
  match block with
  | Some block => let h := header (rpc_block block) in Ok (derive_header h (header_state_root h))
  | None => Err (BlockNotFound height)
  end.

Definition basic_ancestor_headers (db : BasicRpcDb) : outcome RpcDbError (list Header) :=
  mapM (basic_header_at (basic_provider db)) (reverse (range_incl (basic_oldest_ancestor db) (basic_block_number db))).

#[global] Instance basic_database : RpcDatabase BasicRpcDb := {|
  rpc_ask := basic_rpc_ask; rpc_state := basic_state; rpc_bytecodes := basic_bytecodes; rpc_ancestor_headers := basic_ancestor_headers |}.

(** ** [ExecutionWitnessRpcDb] *)
Record ExecutionWitnessRpcDb : Type := {
  ew_state : EthereumState;
  ew_codes : gmap (list Z) Bytecode;
  ew_ancestor_headers : gmap Z Header }.

Definition new_execution_witness_db (fuel : nat) (provider : RpcProvider) (block_number : Z) (state_root : list Z)
  : outcome RpcDbError ExecutionWitnessRpcDb :=
  execution_witness ← map_err Transport (debug_execution_witness provider (u64 (block_number + 1)));
  state ← unwrap_res (from_execution_witness fuel (witness_state execution_witness) state_root);
  let codes := list_to_map (reverse ((fun encoded => (keccak256 encoded, new_raw encoded)) <$> witness_codes execution_witness)) in
  headers ← mapM (fun encoded => unwrap (header_decode encoded)) (witness_headers execution_witness);
  let ancestor_headers := list_to_map (reverse ((fun h => (number h, h)) <$> headers)) in
  Ok {| ew_state := state; ew_codes := codes; ew_ancestor_headers := ancestor_headers |}.

Definition ew_basic_ref (db : ExecutionWitnessRpcDb) (address : list Z) : outcome unit (option AccountInfo) :=
  let hash := keccak256 address in
  bytes ← map_err (fun _ => tt) (get (state_trie (ew_state db)) hash);
  match bytes with
  | Some bytes => match account_decode bytes with Some account => Ok (Some (account_info account)) | None => Err tt end
  | None => Ok None
  end.
Definition ew_code_by_hash_ref (db : ExecutionWitnessRpcDb) (code_hash : list Z) : outcome unit Bytecode :=
  match ew_codes db !! code_hash with Some code => Ok code | None => Err tt end.
(** A missing storage trie reads as zero. *)
Definition ew_storage_ref (db : ExecutionWitnessRpcDb) (address : list Z) (index : Z) : outcome unit Z :=
  let hashed_address := keccak256 address in
  let hashed_slot := keccak256 (be_encode 32 index) in
  value ← match storage_tries (ew_state db) !! hashed_address with
          | Some storage_trie => unwrap_res (get storage_trie hashed_slot)
          | None => Ok None
          end;
  match value with
  | Some value => match u256_decode value with Some value => Ok value | None => Err tt end
  | None => Ok 0
  end.
Definition ew_block_hash_ref (db : ExecutionWitnessRpcDb) (number : Z) : outcome unit (list Z) :=
  match ew_ancestor_headers db !! number with Some header => Ok (hash_slow header) | None => Err tt end.

Definition ew_database_ref (db : ExecutionWitnessRpcDb) : DatabaseRef := {|
  db_basic := ew_basic_ref db; db_code_by_hash := ew_code_by_hash_ref db;
  db_storage := ew_storage_ref db; db_block_hash := ew_block_hash_ref db |}.

(** The newest first. *)
Definition ew_sorted_headers (db : ExecutionWitnessRpcDb) : list Header := reverse (btree_values (ew_ancestor_headers db)).

#[global] Instance execution_witness_database : RpcDatabase ExecutionWitnessRpcDb := {|
  rpc_ask _ c db := (ask_database (ew_database_ref db) c, db);
  rpc_state _ _ db := Ok (ew_state db);
  rpc_bytecodes db := (map_to_list (ew_codes db)).*2;
  rpc_ancestor_headers db := Ok (ew_sorted_headers db) |}.
End Basic.

(** ** [HostExecutor::execute] *)
Section Execute.
Context `{Keccak, AlloyRlp, RlpReader, AccountCodec, ChainTypes, !Reth, !HostLibs, !Evm, !RawTypes}.

Fixpoint on_rpc {DB} `{!RpcDatabase DB} {A} (p : prog Read (outcome unit A)) (db : DB) : outcome unit A * DB :=
  match p with
  | Ret r => (r, db)
  | Vis c k => let '(r, db) := rpc_ask _ c db in
               match r with
               | Ok r => on_rpc (k r) db
               | Err e => (Err e, db)
               | Panic => (Panic, db)
               end
  end.

(** Both misses name the requested height. *)
Definition fetch_block (provider : RpcProvider) (block_number height : Z) : outcome HostError Block :=
  block ← map_err TransportError (get_block_by_number provider height);
  match block with Some block => Ok (rpc_block block) | None => Err (ExpectedBlock block_number) end.

(** From the database on. *)
Definition execute_rpc_on {DB} `{!RpcDatabase DB} (fuel : nat) (chain_id : Z) (block : Block) (rpc_db : DB)
    (custom_beneficiary : option (list Z)) (opcode_tracking : bool) : outcome HostError ClientExecutorInput :=
  match recover_senders (header block) (body block) with
  | None => Err FailedToRecoverSenders
  | Some senders =>
      if negb (validate_header chain_id (header block)) then Err PostExecutionCheck else
      let '(execution_output, rpc_db) := on_rpc (evm_program (header block) (body block) senders) rpc_db in
      execution_output ← map_err (fun _ => ExecutionFailed) execution_output;
      if negb (beacon_validate_post_execution chain_id (header block) (body block) execution_output)
      then Err PostExecutionCheck else
      let logs_bloom := accrued_bloom (execution_receipts execution_output) in
      state ← map_err RpcDb (rpc_state fuel execution_output rpc_db);
      mutated_state ← infallible (update (from_bundle_state execution_output) state);
      let root := state_root mutated_state in
      if decide (root <> header_state_root (header block))
      then Err (StateRootMismatch root (header_state_root (header block))) else
      let derived := derive_host_header (header block) root logs_bloom in
      ancestor_headers ← map_err RpcDb (rpc_ancestor_headers rpc_db);
      _ ← verify_header_hash derived (header block);
      Ok {| current_block := block;
            ancestor_headers := ancestor_headers;
            parent_state := state;
            bytecodes := rpc_bytecodes rpc_db;
            custom_beneficiary := custom_beneficiary;
            opcode_tracking := opcode_tracking |}
  end.

(** The feature [execution-witness] chooses the database. *)
Definition execute_rpc (execution_witness : bool) (fuel : nat) (chain_id block_number : Z) (provider : RpcProvider)
    (custom_beneficiary : option (list Z)) (opcode_tracking : bool) : outcome HostError ClientExecutorInput :=
  current_block ← fetch_block provider block_number block_number;
  previous_block ← fetch_block provider block_number (u64 (block_number - 1));
  let parent := u64 (block_number - 1) in
  let parent_state_root := header_state_root (header previous_block) in
  if execution_witness then
    rpc_db ← map_err RpcDb (new_execution_witness_db fuel provider parent parent_state_root);
    execute_rpc_on fuel chain_id current_block rpc_db custom_beneficiary opcode_tracking
  else execute_rpc_on fuel chain_id current_block (new_basic_db provider parent parent_state_root) custom_beneficiary opcode_tracking.
End Execute.
