(* ===== verification/RpcSpec.v ===== *)
(** * Blocks executed over an execution witness

    The host that executes over [ExecutionWitnessRpcDb] sends the guest the tries
    it has read from, so the guest reads the same; with one exception: an account
    without a storage trie reads as zero on the host and panics in the guest. *)
From S2P Require Import Prelude BytesCodec Rlp Nibbles Mpt MptInv MptMap MptHash.
From S2P Require Import MptCache MptWire MptProof MptTries MptCover EthState StateShape MptWitness.
From S2P Require Import Merkle Network EventsHash WitnessDb Executor Interaction WitnessCover.
From S2P Require Import HostDb HostExecutor HostSpec RpcDb.
From stdpp Require Import strings.
#[local] Open Scope Z_scope.

Section RpcSpec.
Context `{Keccak, AlloyRlp, RlpReader, AccountCodec, ChainTypes, !Reth, !HostLibs, !Evm, !RawTypes}.
Context {elaws : EvmLaws}.
(** [Bytecode::hash_slow] of raw bytes. *)
Hypothesis new_raw_hash : forall code, bytecode_hash_slow (new_raw code) = keccak256 code.

(** Codes under their hashes, headers under their numbers. *)
Definition well_filed (db : ExecutionWitnessRpcDb) : Prop :=
  (forall h c, ew_codes db !! h = Some c -> bytecode_hash_slow c = h) /\
  (forall n h, ew_ancestor_headers db !! n = Some h -> number h = n).

Lemma new_db_well_filed fuel provider n root db : new_execution_witness_db fuel provider n root = Ok db ->
  well_filed db /\ exists w, from_execution_witness fuel w root = Ok (ew_state db).
Proof.
  intros E. unfold new_execution_witness_db in E. apply bind_Ok in E as (w & _ & E). apply bind_Ok in E as (st & Est & E).
  apply unwrap_res_Ok in Est. apply bind_Ok in E as (headers & _ & E). injection E as <-. split; [|by exists (witness_state w)].
  split; cbn [ew_codes ew_ancestor_headers]; intros k v Hk%elem_of_list_to_map_2; rewrite elem_of_reverse in Hk;
    apply list_elem_of_fmap in Hk as (x & [= -> ->] & _); [apply new_raw_hash|done].
Qed.

(** The accounts a run reads slots of. *)
Fixpoint stored_reads {A} (db : DatabaseRef) (p : prog Read (outcome unit A)) : list (list Z) :=
  match p with
  | Ret _ => []
  | Vis c k =>
      match ask_database db c with
      | Ok r => match c with ReadStorage a _ => [a] | _ => [] end ++ stored_reads db (k r)
      | _ => []
      end
  end.

Definition has_storage (st : EthereumState) (a : list Z) : Prop := is_Some (storage_tries st !! keccak256 a).
#[local] Instance has_storage_dec st a : Decision (has_storage st a).
Proof. unfold has_storage. apply _. Defined.

(** ** The two databases *)

Lemma on_rpc_pure {A} (p : prog Read (outcome unit A)) (db : ExecutionWitnessRpcDb) :
  on_rpc p db = (on_database (ew_database_ref db) p, db).
Proof.
  induction p as [r|R c k IH]; [done|]. cbn [on_rpc on_database rpc_ask execution_witness_database].
  destruct (ask_database (ew_database_ref db) c); [apply IH|done..].
Qed.

Section Guest.
Context (db : ExecutionWitnessRpcDb) (gdb : TrieDB) (Hfiled : well_filed db)
  (Hst : hashed (ew_state db) (inner gdb))
  (Hcodes : WitnessDb.bytecode_by_hash gdb = codes_by_hash (map_to_list (ew_codes db)).*2)
  (Hhashes : forall n h, ew_ancestor_headers db !! n = Some h -> block_hashes gdb !! n = Some (hash_slow h)).

Lemma guest_basic a r : ew_basic_ref db a = Ok r -> basic_ref gdb a = Ok r.
Proof.
  unfold ew_basic_ref. intros E. apply bind_Ok in E as (bytes & Eb & E).
  assert (Eg : get (state_trie (ew_state db)) (keccak256 a) = Ok bytes) by (by destruct (get _ _); [injection Eb as ->|..]).
  destruct bytes as [bytes|].
  - destruct (account_decode bytes) as [acct|] eqn:Ed; [|done]. injection E as <-.
    apply (basic_ref_hashed (ew_state db) gdb a (Some acct) Hst). unfold get_rlp. rewrite Eg. cbn [mbind outcome_bind]. by rewrite Ed.
  - injection E as <-. apply (basic_ref_hashed (ew_state db) gdb a None Hst). unfold get_rlp. by rewrite Eg.
Qed.

Lemma guest_code h c : ew_code_by_hash_ref db h = Ok c -> code_by_hash_ref gdb h = Ok c.
Proof.
  unfold ew_code_by_hash_ref, code_by_hash_ref. destruct (ew_codes db !! h) as [c'|] eqn:Ec; [|done]. intros [= ->].
  rewrite Hcodes. pose proof (proj1 Hfiled h c Ec) as Eh. rewrite <- Eh.
  assert (Hin : forall d, d ∈ (map_to_list (ew_codes db)).*2 -> ew_codes db !! bytecode_hash_slow d = Some d).
  { intros d ([k d'] & -> & Hd%elem_of_map_to_list)%list_elem_of_fmap. cbn [snd]. by rewrite (proj1 Hfiled k d' Hd). }
  rewrite codes_by_hash_in; [done| |].
  - apply list_elem_of_fmap. exists (h, c). split; [done|]. by apply elem_of_map_to_list.
  - intros d Hd Ed. apply Hin in Hd. rewrite Ed, Eh in Hd. congruence.
Qed.

Lemma guest_storage a i v : ew_storage_ref db a i = Ok v ->
  storage_ref gdb a i = if decide (has_storage (ew_state db) a) then Ok v else Panic.
Proof.
  intros E. unfold ew_storage_ref in E. destruct (storage_tries (ew_state db) !! keccak256 a) as [t|] eqn:Et.
  - rewrite decide_True by (by eexists). apply bind_Ok in E as (o & Eo & E). apply unwrap_res_Ok in Eo.
    assert (Eg : get_u256 t (keccak256 (be_encode 32 i)) = Ok (match o with Some _ => Some v | None => None end) /\ default 0 (match o with Some _ => Some v | None => None end) = v).
    { unfold get_u256. rewrite Eo. cbn [mbind outcome_bind]. destruct o as [b|]; [|by injection E as <-].
      destruct (u256_decode b); [|done]. by injection E as <-. }
    destruct Eg as [Eg Ev]. rewrite (storage_ref_hashed _ _ _ _ _ _ Hst Et Eg). by rewrite Ev.
  - rewrite decide_False by (intros [t Ht]; congruence). pose proof (hashed_storage _ _ Hst (keccak256 a)) as Hs. rewrite Et in Hs.
    unfold storage_ref. by inversion Hs.
Qed.

Lemma guest_block_hash n h : ew_block_hash_ref db n = Ok h -> block_hash_ref gdb n = Ok h.
Proof.
  unfold ew_block_hash_ref, block_hash_ref. destruct (ew_ancestor_headers db !! n) as [hd|] eqn:En; [|done].
  intros [= <-]. by rewrite (Hhashes n hd En).
Qed.

(** The guest repeats the run, up to the first slot of an account without a
    storage trie. *)
Lemma guest_repeats {A} (p : prog Read (outcome unit A)) out : on_database (ew_database_ref db) p = Ok out ->
  on_database (wrap_database_ref gdb) p =
  if decide (Forall (has_storage (ew_state db)) (stored_reads (ew_database_ref db) p)) then Ok out else Panic.
Proof.
  induction p as [r|R c k IH]; intros E; cbn [on_database stored_reads] in *; [by rewrite decide_True|].
  destruct (ask_database (ew_database_ref db) c) as [r| |] eqn:Ec; [|done..]. specialize (IH r E).
  destruct c as [a|h|a i|n]; cbn [ask_database ew_database_ref wrap_database_ref db_basic db_code_by_hash db_storage db_block_hash app] in *.
  - by rewrite (guest_basic a r Ec).
  - by rewrite (guest_code h r Ec).
  - rewrite (guest_storage a i r Ec). destruct (decide (has_storage (ew_state db) a)) as [Ha|Ha].
    + rewrite IH. destruct (decide (Forall _ (stored_reads _ _))) as [Hf|Hf];
        [rewrite decide_True by (by apply Forall_cons)|rewrite decide_False by (rewrite Forall_cons; tauto)]; done.
    + rewrite decide_False; [done|]. rewrite Forall_cons. tauto.
  - by rewrite (guest_block_hash n r Ec).
Qed.
End Guest.

(** ** The guest's run *)

Lemma execute_panics net input gdb senders : input_witness_db input (sealed_headers input) = Ok gdb ->
  recover_senders (header (current_block input)) (body (current_block input)) = Some senders ->
  validate_block (FLUENT_CHAIN_ID net) (current_block input) = true ->
  for_each (validate_window (FLUENT_CHAIN_ID net)) tt (tuple_windows (sealed_headers input)) = Ok tt ->
  evm_execute (opcode_tracking input) (wrap_database_ref gdb) (header (current_block input)) (body (current_block input)) senders = Panic ->
  execute net input = Panic.
Proof.
  intros Edb Es Ev Ew Eo. unfold execute. rewrite Edb. cbn [unwrap_res mbind outcome_bind]. rewrite Es, Ev. cbn [ensure].
  rewrite Ew. by rewrite Eo.
Qed.

(** What a successful run over an execution witness has established. *)
Lemma execute_rpc_on_inv fuel chain_id block db beneficiary tracking input :
  execute_rpc_on (DB := ExecutionWitnessRpcDb) fuel chain_id block db beneficiary tracking = Ok input ->
  exists senders out st',
    recover_senders (header block) (body block) = Some senders /\ validate_header chain_id (header block) = true /\
    on_database (ew_database_ref db) (evm_program (header block) (body block) senders) = Ok out /\
    beacon_validate_post_execution chain_id (header block) (body block) out = true /\
    parent_state input = ew_state db /\ update (from_bundle_state out) (ew_state db) = Ok st' /\
    state_root st' = header_state_root (header block) /\ ancestor_headers input = ew_sorted_headers db /\
    current_block input = block /\ bytecodes input = (map_to_list (ew_codes db)).*2 /\ opcode_tracking input = tracking.
Proof.
  intros E. unfold execute_rpc_on in E. destruct (recover_senders _ _) as [senders|]; [|done].
  destruct (validate_header _ _); [|done]. cbn [negb] in E. rewrite on_rpc_pure in E.
  destruct (on_database (ew_database_ref db) (evm_program (header block) (body block) senders)) as [out| |] eqn:Erun; [|done..].
  cbn [map_err mbind outcome_bind] in E. destruct (beacon_validate_post_execution _ _ _ out) eqn:Ep; [|done].
  cbn [negb rpc_state rpc_ancestor_headers rpc_bytecodes execution_witness_database map_err mbind outcome_bind] in E.
  apply bind_Ok in E as (st' & Eu & E). case_decide as Hroot; [done|]. apply bind_Ok in E as ([] & _ & E). injection E as <-.
  exists senders, out, st'. apply infallible_Ok in Eu. by split_and!.
Qed.

(** The headers of a witness are the chain below the block. *)
Record chained (net : network) (input : ClientExecutorInput) : Prop := {
  chained_linked : linked (header (current_block input) :: ancestor_headers input);
  chained_numbers : NoDup (map number (header (current_block input) :: ancestor_headers input));
  chained_valid : for_each (validate_window (FLUENT_CHAIN_ID net)) tt (tuple_windows (sealed_headers input)) = Ok tt;
  chained_parent : exists parent rest, ancestor_headers input = parent :: rest /\
    header_state_root parent = hash_of (state_trie (parent_state input)) }.

Lemma witness_state_accepted fuel w root st : from_execution_witness fuel w root = Ok st ->
  cache_ok (state_trie st) /\ roots_recorded st.
Proof.
  intros E. destruct (execution_witness_sound fuel w root st E) as (Hc & _ & Hr). split; [done|]. intros a t Ht.
  destruct (Hr a t Ht) as (Hct & account & Eg & Er). split; [done|]. by exists (Some account).
Qed.

(** C17: what the host has executed over a node's execution witness, the guest
    executes too, unless the block reads a slot of an account without a storage
    trie.  Let the headers of the witness be the chain below the block and the
    body fit its header.  Every input [execute] returns passes the checks of the
    guest's witness database; its run reads what the host's has read, and ends
    with the block's header and the bridge hashes when every account whose slots
    were read has a storage trie; otherwise the guest panics, although the host
    has read a zero. *)
Theorem witnessed_input_executes fuel net n provider beneficiary tracking input :
  execute_rpc true fuel (FLUENT_CHAIN_ID net) n provider beneficiary tracking = Ok input ->
  chained net input -> validate_body_against_header (body (current_block input)) (header (current_block input)) = true ->
  exists db senders out,
    parent_state input = ew_state db /\
    on_database (ew_database_ref db) (evm_program (header (current_block input)) (body (current_block input)) senders) = Ok out /\
    let reads := stored_reads (ew_database_ref db) (evm_program (header (current_block input)) (body (current_block input)) senders) in
    (Forall (has_storage (parent_state input)) reads -> exists hashes,
       execute net input = Ok (derive_header (header (current_block input)) (header_state_root (header (current_block input))), hashes)) /\
    (~ Forall (has_storage (parent_state input)) reads -> execute net input = Panic).
Proof.
  intros E [Hlink Hnd Hw (parent & rest & Eanc & Eroot)] Hbody. unfold execute_rpc in E.
  apply bind_Ok in E as (block & _ & E). apply bind_Ok in E as (previous & _ & E). apply bind_Ok in E as (db & Edb & E).
  destruct (new_execution_witness_db _ _ _ _) as [db'| |] eqn:Enew; [|done..]. injection Edb as ->.
  apply new_db_well_filed in Enew as [Hfiled (w & Est)]. apply witness_state_accepted in Est as [Hc Hroots].
  apply execute_rpc_on_inv in E as (senders & out & st' & Es & Ev & Erun & Ep & Epar & Eu & Er & Ea & Eb & Ecodes & Etrack).
  subst block. rewrite <- Epar in Hc, Hroots.
  destruct (witness_db_accepts (parent_state input) (bytecodes input) _ Hc Hroots Hlink Hnd) as (gdb & Egdb & Hst & Hgc & Hgh).
  assert (Ewdb : input_witness_db input (sealed_headers input) = Ok gdb).
  { unfold input_witness_db, parent_header. rewrite Eanc. cbn [head unwrap mbind outcome_bind]. by rewrite Eroot, sealed_headers_map. }
  assert (Hhashes : forall m h, ew_ancestor_headers db !! m = Some h -> block_hashes gdb !! m = Some (hash_slow h)).
  { intros m h Hm. rewrite <- (proj2 Hfiled m h Hm). apply Hgh. cbn [tail]. rewrite Ea. unfold ew_sorted_headers.
    apply elem_of_reverse, elem_of_btree_values. by exists m. }
  rewrite Epar, Ecodes in *.
  pose proof (guest_repeats db gdb Hfiled Hst Hgc Hhashes _ out Erun) as Hrep. rewrite <- (evm_execute_reads tracking) in Hrep.
  assert (Hval : validate_block (FLUENT_CHAIN_ID net) (current_block input) = true) by (unfold validate_block; by rewrite Ev).
  exists db, senders, out. split; [done|]. split; [done|]. split.
  - intros Hall. rewrite decide_True in Hrep by done.
    pose proof (update_same (from_bundle_state out) _ _ (hashed_same _ _ Hst)) as Hup. rewrite Eu in Hup.
    destruct (update (from_bundle_state out) (inner gdb)) as [st2| |] eqn:Eu2; [|done..].
    destruct (bridge_hashes_spec net (BRIDGE_INFO net) [execution_receipts out]) as (root & _ & Ebh).
    eexists. eapply execute_passes; [done|exact Ewdb|done|done|done| |exact Ep| | |done|exact Ebh].
    + by rewrite Etrack.
    + rewrite hash_state_bundle. exact Eu2.
    + rewrite <- Er. symmetry. by apply same_state_root.
  - intros Hnot. rewrite decide_False in Hrep by done. eapply execute_panics; try done. by rewrite Etrack.
Qed.
End RpcSpec.

(** ** The block of [HostSpec], served by a JSON-RPC endpoint *)
Section Samples.
#[local] Existing Instance RefRlp.alloy.
#[local] Existing Instance RefRlp.reader.
#[local] Existing Instance sample_keccak.
#[local] Existing Instance sample_types.
#[local] Existing Instance byte_codec.
#[local] Existing Instance reading_reth.
#[local] Existing Instance sample_host_libs.
#[local] Existing Instance sample_evm.

(** A header is sent as its number. *)
#[local] Instance sample_raw : RawTypes := {|
  new_raw code := code;
  header_decode bs := match bs with [n] => Some (the_chain n) | _ => None end |}.

Definition the_endpoint (nodes : list (list Z)) : RpcProvider := {|
  get_proof _ _ _ := Err "not served"%string;
  get_raw_code _ _ := Err "not served"%string;
  get_storage_at _ _ _ := Err "not served"%string;
  get_block_by_number n := Ok (Some {| rpc_hash := sample_hash n;
    rpc_block := {| header := the_chain n; body := if decide (n = 7) then body sample_block else [] |} |});
  debug_execution_witness _ := Ok {| witness_state := nodes; witness_codes := [code]; witness_headers := [[4]; [5]; [6]] |} |}.

Definition witnessed : outcome HostError ClientExecutorInput :=
  execute_rpc true 10 (FLUENT_CHAIN_ID mainnet) 7 (the_endpoint [enc_of the_state; enc_of the_storage]) None false.

Definition the_input : ClientExecutorInput :=
  match witnessed with
  | Ok input => input
  | _ => {| current_block := sample_block; ancestor_headers := []; parent_state := {| state_trie := default_node; storage_tries := ∅ |};
            bytecodes := []; custom_beneficiary := None; opcode_tracking := false |}
  end.

Lemma witnessed_ok : witnessed = Ok the_input.
Proof.
  assert (Hok : match witnessed with Ok _ => true | _ => false end = true) by (vm_compute; reflexivity).
  unfold the_input. revert Hok. generalize witnessed. by intros [input| |].
Qed.

Lemma the_input_chained : chained mainnet the_input.
Proof.
  split.
  - by vm_compute.
  - apply (bool_decide_unpack _). by vm_compute.
  - by vm_compute.
  - exists (the_chain 6), [the_chain 5; the_chain 4]. split; by vm_compute.
Qed.

Lemma witnessed_input_executes_witness : exists db senders out,
  parent_state the_input = ew_state db /\
  on_database (ew_database_ref db) (evm_program (header (current_block the_input)) (body (current_block the_input)) senders) = Ok out /\
  let reads := stored_reads (ew_database_ref db) (evm_program (header (current_block the_input)) (body (current_block the_input)) senders) in
  (Forall (has_storage (parent_state the_input)) reads -> exists hashes,
     execute mainnet the_input = Ok (derive_header (header (current_block the_input)) (header_state_root (header (current_block the_input))), hashes)) /\
  (~ Forall (has_storage (parent_state the_input)) reads -> execute mainnet the_input = Panic).
Proof.
  exact (witnessed_input_executes (elaws := sample_evm_laws) (fun _ => eq_refl) 10 mainnet 7
    (the_endpoint [enc_of the_state; enc_of the_storage]) None false the_input witnessed_ok the_input_chained eq_refl).
Defined.
End Samples.
