(* ===== verification/SigningClient.v ===== *)
(** * Asking the proxy for signatures
      ([execution_worker], [sign_batch_io] and their requests in
      [bin/witness-orchestrator/src/orchestrator.rs])

    The workers that have blocks executed, and the task that has a batch signed,
    are clients of the proxy: each request is repeated until its answer is
    definitive.  reqwest, the channels, the driver and the database are behind
    calls; JSON is a parameter.  The loops take a number of rounds and answer
    [None] when they are used up.  Durations are in milliseconds. *)
From S2P Require Import Prelude BytesCodec Rlp NitroTypes BlobCodec BlobPayload Db Accumulator WitnessDb Executor Interaction.
From S2P Require Import RollupClient Rbf Orchestrator Hub Driver ProxyServer.
From stdpp Require Import strings.
#[local] Open Scope Z_scope.

Definition ZSTD_COMPRESSION_LEVEL : Z := 3.

(** What [reqwest] tells of a failed request. *)
Record TransportError : Type := {
  is_connect : bool;
  is_timeout : bool;
  is_request : bool;
  error_display : string;
  error_sources : list string }.

(** One poll of a channel of tasks. *)
Inductive Polled : Type :=
  | Ready (t : ExecutionTask)
  | Pending
  | Closed.

(** [SleepOrShutdown] and [PollShutdown] answer whether the shutdown won.
    [CachedSignature] and [StoreSignature] run on the blocking pool. *)
Inductive ClientCall : Type -> Type :=
  | Post (url : string) (timeout_secs : Z) (headers : list (string * string)) (body : list Z)
      : ClientCall (outcome TransportError Z)
  | ResponseBytes : ClientCall (outcome string (list Z))
  | ResponseText : ClientCall (outcome string string)
  | L2Node : ClientCall (Z -> outcome string BlobPayload.FetchedBlock)
  | CachedSignature (batch_index : Z) : ClientCall (option SubmitBatchResponse)
  | StoreSignature (batch_index : Z) (resp : SubmitBatchResponse) : ClientCall unit
  | SleepOrShutdown (ms : Z) : ClientCall bool
  | PollShutdown : ClientCall bool
  | PollHigh : ClientCall Polled
  | PollNormal : ClientCall Polled
  | WaitTasks : ClientCall unit
  | SendResult (result : BlockResult) : ClientCall bool.

(** Queueing a block again asks the driver for its witness. *)
Inductive RequeueCall `{NodeTypes} : Type -> Type :=
  | SendHigh (t : ExecutionTask) : RequeueCall bool
  | ToDriver {R} (c : DriverCall R) : RequeueCall R.

(** The JSON of requests and responses, and [Display] of a status. *)
Class ClientJson : Type := {
  batch_request_json : SignBatchRootRequest -> outcome TransportError (list Z);
  parse_execution : list Z -> outcome string EthExecutionResponse;
  parse_batch : list Z -> outcome string SubmitBatchResponse;
  parse_invalid_signatures : list Z -> outcome string (list Z * list Z);
  show_status : Z -> string }.

Record ClientConfig : Type := { proxy_url : string; client_api_key : string }.

Inductive SignBatchError : Type :=
  | StaleSignatures (invalid_blocks : list Z) (enclave_address : list Z)
  | OtherFailure (text : string).

Definition is_success (status : Z) : bool := bool_decide (200 <= status < 300).

(** [backoff = (backoff * 2).min(limit)]. *)
Definition longer (limit backoff : Z) : Z := Z.min (backoff * 2) limit.

Section Client.
Context `{AlloyRlp, Brotli, Zstd, ClientJson} (cfg : ClientConfig).
Abbreviation io := (eff ClientCall string).

(** ** Requests *)

Definition send_block_request (block_number : Z) (payload : list Z) : io EthExecutionResponse :=
  status ← map_err_p (fun e => "HTTP POST failed: " +:+ error_display e)
    (ask (Post (proxy_url cfg +:+ "/sign-block-execution") 30
      [("content-type", "application/octet-stream"); ("x-block-number", str block_number);
       ("x-api-key", client_api_key cfg); ("content-encoding", "zstd")]%string payload));
  if is_success status then
    body ← context "Failed to parse response: " (ask ResponseBytes);
    context "Failed to parse response: " (of_outcome (parse_execution body))
  else
    text ← attempt (ask ResponseText);
    match text with
    | Ok text => throw ("proxy returned " +:+ show_status status +:+ ": " +:+ text)
    | Err _ => throw ("proxy returned " +:+ show_status status +:+ ": <unreadable>")
    | Panic => of_outcome Panic
    end.

Definition describe (e : TransportError) : string :=
  let kind := if is_connect e then "connect"
              else if is_timeout e then "timeout"
              else if is_request e then "request" else "unknown" in
  let chain := foldl (fun chain cause => chain +:+ " → " +:+ cause) (error_display e) (error_sources e) in
  "sign-batch-root failed (" +:+ kind +:+ "): " +:+ chain.

Definition call_sign_batch_root (from_block to_block batch_index : Z) (responses : list EthExecutionResponse)
    (blobs : list (list Z)) : eff ClientCall SignBatchError SubmitBatchResponse :=
  let request := {| req_from_block := from_block; req_to_block := to_block; req_batch_index := batch_index;
                    req_responses := responses; req_blobs := blobs |} in
  body ← map_err_p (fun e => OtherFailure (describe e)) (of_outcome (batch_request_json request));
  status ← map_err_p (fun e => OtherFailure (describe e))
    (ask (Post (proxy_url cfg +:+ "/sign-batch-root") 300
      [("x-api-key", client_api_key cfg); ("content-type", "application/json")]%string body));
  if decide (status = 409) then
    body ← map_err_p (fun e => OtherFailure ("Failed to parse 409: " +:+ e)) (ask ResponseBytes);
    parsed ← map_err_p (fun e => OtherFailure ("Failed to parse 409: " +:+ e)) (of_outcome (parse_invalid_signatures body));
    let '(invalid_blocks, enclave_address) := parsed in throw (StaleSignatures invalid_blocks enclave_address)
  else if is_success status then
    body ← map_err_p (fun e => OtherFailure ("Failed to parse SubmitBatchResponse: " +:+ e)) (ask ResponseBytes);
    map_err_p (fun e => OtherFailure ("Failed to parse SubmitBatchResponse: " +:+ e)) (of_outcome (parse_batch body))
  else
    text ← attempt (ask (E := string) ResponseText);
    match text with
    | Panic => of_outcome Panic
    | text => throw (OtherFailure ("sign-batch-root returned " +:+ show_status status +:+ ": " +:+
                match text with Ok text => text | _ => EmptyString end))
    end.

(** ** Signing a batch *)

(** [Some None]: the shutdown came first. *)
Fixpoint blob_rounds (rounds : nat) (from_block to_block backoff : Z) : io (option (option (list (list Z)))) :=
  match rounds with
  | O => mret None
  | S rounds =>
      r ← attempt (build_blobs_from_l2 L2Node from_block to_block);
      match r with
      | Panic => of_outcome Panic
      | Ok blobs => mret (Some (Some blobs))
      | Err _ =>
          stop ← do (SleepOrShutdown backoff);
          if (stop : bool) then mret (Some None) else blob_rounds rounds from_block to_block (longer 30000 backoff)
      end
  end.

Fixpoint sign_rounds (rounds : nat) (batch_index from_block to_block : Z) (responses : list EthExecutionResponse)
    (blobs : list (list Z)) (backoff : Z) : io (option SignOutcome) :=
  match rounds with
  | O => mret None
  | S rounds =>
      r ← attempt (call_sign_batch_root from_block to_block batch_index responses blobs);
      match r with
      | Panic => of_outcome Panic
      | Ok resp =>
          _ ← do (StoreSignature batch_index resp);
          mret (Some (Signed resp))
      | Err (StaleSignatures invalid_blocks enclave_address) =>
          mret (Some (InvalidSignatures invalid_blocks enclave_address))
      | Err (OtherFailure _) =>
          stop ← do (SleepOrShutdown backoff);
          if (stop : bool) then mret (Some SignTaskFailed)
          else sign_rounds rounds batch_index from_block to_block responses blobs (longer 30000 backoff)
      end
  end.

Definition sign_batch_io (rounds : nat) (batch_index from_block to_block : Z) (responses : list EthExecutionResponse)
  : io (option SignOutcome) :=
  cached ← do (CachedSignature batch_index);
  match cached with
  | Some resp => mret (Some (Signed resp))
  | None =>
      blobs ← blob_rounds rounds from_block to_block 1000;
      match blobs with
      | None => mret None
      | Some None => mret (Some SignTaskFailed)
      | Some (Some blobs) => sign_rounds rounds batch_index from_block to_block responses blobs 1000
      end
  end.

(** The spawned task: its guard reports a panic. *)
Definition sign_task (rounds : nat) (batch_index from_block to_block : Z) (responses : list EthExecutionResponse)
  : prog ClientCall (option SignOutcome) :=
  prog_bind (fun r => Ret (match r with Ok out => out | _ => Some SignTaskFailed end))
    (sign_batch_io rounds batch_index from_block to_block responses).

(** ** Executing blocks *)

(** The biased [select!]: a closed channel is no branch.  [Some None] ends the
    worker. *)
Fixpoint next_task (rounds : nat) : io (option (option ExecutionTask)) :=
  match rounds with
  | O => mret None
  | S rounds =>
      shutdown ← do PollShutdown;
      if (shutdown : bool) then mret (Some None)
      else
        high ← do PollHigh;
        match high with
        | Ready t => mret (Some (Some t))
        | _ =>
            normal ← do PollNormal;
            match high, normal with
            | _, Ready t => mret (Some (Some t))
            | Closed, Closed => mret (Some None)
            | _, _ => _ ← do WaitTasks; next_task rounds
            end
        end
  end.

(** One task until it is answered; [Some false] when the shutdown came first. *)
Fixpoint request_rounds (rounds : nat) (block_number : Z) (payload : list Z) (backoff : Z) : io (option bool) :=
  match rounds with
  | O => mret None
  | S rounds =>
      r ← attempt (send_block_request block_number payload);
      match r with
      | Panic => of_outcome Panic
      | Ok response =>
          _ ← do (SendResult {| result_block_number := block_number; result_response := response |});
          mret (Some true)
      | Err _ =>
          stop ← do (SleepOrShutdown backoff);
          if (stop : bool) then mret (Some false) else request_rounds rounds block_number payload (longer 2000 backoff)
      end
  end.

Fixpoint execution_worker (tasks rounds : nat) : io (option unit) :=
  match tasks with
  | O => mret None
  | S tasks =>
      t ← next_task rounds;
      match t with
      | None => mret None
      | Some None => mret (Some tt)
      | Some (Some task) =>
          match encode_all (task_payload task) ZSTD_COMPRESSION_LEVEL with
          | Panic => of_outcome Panic
          | Err _ => execution_worker tasks rounds
          | Ok payload =>
              r ← request_rounds rounds (task_block_number task) payload 50;
              match r with
              | None => mret None
              | Some false => mret (Some tt)
              | Some true => execution_worker tasks rounds
              end
          end
      end
  end.

End Client.

(** The task that queues a block again. *)
Definition re_execution_task `{NodeTypes, Zstd} (block_number : Z) (d : Driver) : eff RequeueCall string unit :=
  r ← attempt (hoist (@ToDriver _) (get_or_build_witness block_number d));
  match r with
  | Panic => of_outcome Panic
  | Ok (Some payload) =>
      _ ← do (SendHigh {| task_block_number := block_number; task_payload := payload |}); mret tt
  | Ok None | Err _ => mret tt
  end.
