(* ===== verification/SigningSpec.v ===== *)
(** * From a witness to a signed batch

    The orchestrator's client is run against the proxy's own handlers, and those
    against the enclave: a request crosses HTTP, the handler, the frames and the
    enclave's loop.  The execution worker then delivers, task by task, the
    enclave's signed result of that task's input, and the signing task ends with
    the enclave's signature of the batch, whatever finite run of transport
    failures comes in between. *)
From S2P Require Import Prelude BytesCodec Rlp NitroTypes Network Merkle BlobCodec BlobPayload BlobRoundtrip EventsHash.
From S2P Require Import EthState Db Accumulator WitnessDb Executor.
From S2P Require Enclave EnclaveBatch MptWire RbfSpec ChallengeInput.
From S2P Require Import EnclaveLoop EnclaveSafety Interaction RollupClient Rbf Orchestrator Hub Driver Validator NitroVerifier Frames.
From S2P Require Import ProxyDb Attestation ProxyEnclave ProxyEnclaveSpec ProxyServer SigningClient.
From stdpp Require Import strings.
#[local] Open Scope Z_scope.

(** The rest of a URL after its base. *)
Fixpoint path_of (base url : string) : option string :=
  match base, url with
  | EmptyString, url => Some url
  | String.String a base, String.String b url => if decide (a = b) then path_of base url else None
  | _, _ => None
  end.

Lemma path_of_app base p : path_of base (base +:+ p) = Some p.
Proof.
  induction base as [|a base IH]; [done|].
  change (path_of (String.String a base) (String.String a base +:+ p)) with
    (if decide (a = a) then path_of base (base +:+ p) else None). by rewrite decide_True.
Qed.

Section Link.
Context `{Keccak, AlloyRlp, RlpReader, Brotli, AccountCodec, ChainTypes, !Reth, Enclave.EnclaveCrypto}.
Context `{NitroCrypto, HostParsers, VerifierAbi, !Bincode, !EnclaveBincode}.
Context `{!ServerCodec, KzgHost, Zstd, !ZstdLaws, RollupAbi, !ServerJson, ClientJson}.

(** The orchestrator, the network to the proxy, and the proxy with its enclave.
    [faults] are what the next requests meet instead of the proxy: a failure of
    the transport or a status of some gateway; [reply] is the body of the
    last response, [high] and [normal] the queues of tasks. *)
Record Net : Type := {
  proxy : World;
  db : Db.Db;
  reply : list Z;
  faults : list (TransportError + Z);
  high : list ExecutionTask;
  normal : list ExecutionTask;
  results : list BlockResult }.

Definition with_proxy w s := {| proxy := w; db := db s; reply := reply s; faults := faults s; high := high s; normal := normal s; results := results s |}.
Definition with_db d s := {| proxy := proxy s; db := d; reply := reply s; faults := faults s; high := high s; normal := normal s; results := results s |}.
Definition with_reply b s := {| proxy := proxy s; db := db s; reply := b; faults := faults s; high := high s; normal := normal s; results := results s |}.
Definition with_faults f s := {| proxy := proxy s; db := db s; reply := reply s; faults := f; high := high s; normal := normal s; results := results s |}.
Definition with_high q s := {| proxy := proxy s; db := db s; reply := reply s; faults := faults s; high := q; normal := normal s; results := results s |}.
Definition with_normal q s := {| proxy := proxy s; db := db s; reply := reply s; faults := faults s; high := high s; normal := q; results := results s |}.
Definition with_results r s := {| proxy := proxy s; db := db s; reply := reply s; faults := faults s; high := high s; normal := normal s; results := r |}.

Context (net : network) (dev : Devices) (aws : string * string * option string).
Context (state : AppState) (cfg : ClientConfig) (l2 : Z -> outcome string BlobPayload.FetchedBlock).
Context (others : forall R, ServerCall R -> R).

(** ** The parties *)

(** The signing handlers only talk to the enclave. *)
Definition server_answers (R : Type) (c : ServerCall R) (w : World) : R * World :=
  match c in ServerCall R return R * World with
  | ToProxy c => answers net dev aws _ c w
  | c => (others _ c, w)
  end.

Definition pop {R} (q : list ExecutionTask) (k : list ExecutionTask -> R) (rest : R) : Polled * R :=
  match q with
  | t :: q => (Ready t, k q)
  | [] => (Closed, rest)
  end.

(** Channels whose senders are gone once they are empty, and no shutdown. *)
Definition client_answers (R : Type) (c : ClientCall R) (s : Net) : R * Net :=
  match c in ClientCall R return R * Net with
  | Post url _ headers body =>
      match faults s, path_of (proxy_url cfg) url with
      | inl e :: rest, _ => (Err e, with_faults rest s)
      | inr status :: rest, _ => (Ok status, with_faults rest s)
      | [], None => (Err {| is_connect := true; is_timeout := false; is_request := false; error_display := "no host"; error_sources := [] |}, s)
      | [], Some path =>
          match eval server_answers (serve state {| req_path := path; req_headers := headers; req_body := body |}) (proxy s) with
          | (Some resp, w) => (Ok (http_status resp), with_reply (body_bytes (http_body resp)) (with_proxy w s))
          | (None, w) => (Err {| is_connect := false; is_timeout := false; is_request := true; error_display := "closed"; error_sources := [] |}, with_proxy w s)
          end
      end
  | ResponseBytes => (Ok (reply s), s)
  | ResponseText => (Ok EmptyString, s)
  | L2Node => (l2, s)
  | CachedSignature b => (get_batch_signature b (db s), s)
  | StoreSignature b r => (tt, with_db (save_batch_signature all_ok b r (db s)) s)
  | SleepOrShutdown _ | PollShutdown => (false, s)
  | PollHigh => pop (high s) (fun q => with_high q s) s
  | PollNormal => pop (normal s) (fun q => with_normal q s) s
  | WaitTasks => (tt, s)
  | SendResult r => (true, with_results (results s ++ [r]) s)
  end.

Abbreviation on_server := (eval server_answers).
Abbreviation on_client := (eval client_answers).

Lemma eval_on_proxy {A} (p : eff ProxyCall string A) w : on_server (on_proxy p) w = eval (answers net dev aws) p w.
Proof. unfold on_proxy. by rewrite eval_hoist. Qed.

(** A fault that says nothing about the request. *)
Definition transient (f : TransportError + Z) : Prop :=
  match f with
  | inl _ => True
  | inr status => is_success status = false /\ status <> 409
  end.

Context {laws : AlloyRlpLaws} {blaws : BrotliLaws} (Hkey : client_api_key cfg = api_key state).

(** ** Executing one block *)

Definition execution_headers (block_number : Z) : list (string * string) :=
  [("content-type", "application/octet-stream"); ("x-block-number", str block_number);
   ("x-api-key", client_api_key cfg); ("content-encoding", "zstd")]%string.

(** A task the enclave executes: its payload crosses every codec. *)
Record runs (st : EnclaveState) (id : EnclaveIdentity) (task : ExecutionTask) (input : ClientExecutorInput)
    (r : EthExecutionResponse) (mutex : Enclave.Mutex) : Prop := {
  run_compressed : exists c, encode_all (task_payload task) ZSTD_COMPRESSION_LEVEL = Ok c;
  run_deserializes : deserialize_executor_input (task_payload task) = Ok input;
  run_carried_in : carried_in (ExecuteBlock input);
  run_job : job net st id input = (Ok r, mutex);
  run_carried_out : carried_out (Enclave.ExecutionResult r);
  run_json : parse_execution (body_bytes (BodyExecution r)) = Ok r }.

Lemma eval_serve_execution w id task input r mutex c :
  idle (enclave w) -> identity (enclave w) = Some id -> runs (enclave w) id task input r mutex ->
  encode_all (task_payload task) ZSTD_COMPRESSION_LEVEL = Ok c ->
  on_server (serve state {| req_path := "/sign-block-execution"; req_headers := execution_headers (task_block_number task); req_body := c |}) w =
    (Some (ok_response (BodyExecution r)), with_wire (executed (enclave w) id mutex) [] [] w).
Proof.
  intros Hidle Hi [_ Hd Hin Hj Hout _] Hc. unfold serve. cbn [req_path req_headers req_body].
  rewrite decide_True by done. unfold require_api_key.
  assert (Ek : get_header "x-api-key" (execution_headers (task_block_number task)) = Some (Some (client_api_key cfg))) by done.
  assert (Ee : get_header "content-encoding" (execution_headers (task_block_number task)) = Some (Some "zstd"%string)) by done.
  rewrite Ek, Ee. cbn [mjoin option_join default]. rewrite Hkey, decide_False by naive_solver.
  unfold respond. rewrite eval_prog_bind. unfold sign_block_execution.
  rewrite eval_bind. unfold of_outcome at 1. rewrite eval_ret. cbn [maybe_decompress]. rewrite decide_True by done.
  rewrite (decode_encode_all _ _ _ Hc). cbn [map_err].
  rewrite eval_bind. unfold of_outcome at 1. rewrite eval_ret. unfold decode_bincode. rewrite Hd. cbn [map_err].
  unfold or_internal. rewrite eval_bind, eval_map_err, eval_on_proxy.
  assert (Hout' : carried_out (job_response (job net (enclave w) id input).1)) by by rewrite Hj.
  rewrite (eval_execute net dev aws w (att_cfg state) id input Hidle Hi Hin Hout'), Hj. done.
Qed.

(** ** The worker *)

(** The net after an answered request of a block. *)
Definition delivered (s : Net) (id : EnclaveIdentity) (task : ExecutionTask) (r : EthExecutionResponse) (mutex : Enclave.Mutex) : Net :=
  {| proxy := with_wire (executed (enclave (proxy s)) id mutex) [] [] (proxy s); db := db s;
     reply := body_bytes (BodyExecution r); faults := []; high := high s; normal := normal s;
     results := results s ++ [{| result_block_number := task_block_number task; result_response := r |}] |}.

Lemma eval_block_request s id task input r mutex c : faults s = [] ->
  idle (enclave (proxy s)) -> identity (enclave (proxy s)) = Some id -> runs (enclave (proxy s)) id task input r mutex ->
  encode_all (task_payload task) ZSTD_COMPRESSION_LEVEL = Ok c ->
  on_client (send_block_request cfg (task_block_number task) c) s =
    (Ok r, with_reply (body_bytes (BodyExecution r)) (with_proxy (with_wire (executed (enclave (proxy s)) id mutex) [] [] (proxy s)) s)).
Proof.
  intros Hf Hidle Hi Hr Hc. unfold send_block_request, ask. rewrite eval_bind, eval_map_err, eval_trigger.
  cbn [client_answers]. rewrite Hf, path_of_app.
  change (eval server_answers _ (proxy s)) with (on_server (serve state {| req_path := "/sign-block-execution";
    req_headers := execution_headers (task_block_number task); req_body := c |}) (proxy s)).
  rewrite (eval_serve_execution _ id task input r mutex c Hidle Hi Hr Hc). cbn [map_err ok_response http_status http_body].
  change (is_success 200) with true. cbn iota. unfold context. rewrite eval_bind, eval_map_err, eval_trigger.
  cbn [client_answers map_err reply with_reply]. rewrite eval_map_err. unfold of_outcome. rewrite eval_ret.
  by rewrite (run_json _ _ _ _ _ _ Hr).
Qed.

Lemma eval_block_fault s f fs n c : faults s = f :: fs -> transient f ->
  exists e, on_client (send_block_request cfg n c) s = (Err e, with_faults fs s).
Proof.
  intros Hf Ht. unfold send_block_request, ask. rewrite eval_bind, eval_map_err, eval_trigger.
  cbn [client_answers]. rewrite Hf. destruct f as [e|status]; [by eexists|]. destruct Ht as [Hs _].
  cbn [map_err]. rewrite Hs, eval_bind, eval_attempt, eval_trigger. cbn [client_answers]. by eexists.
Qed.

Lemma eval_request_rounds id task input r mutex c fs : forall rounds backoff s, faults s = fs -> Forall transient fs ->
  (length fs < rounds)%nat -> idle (enclave (proxy s)) -> identity (enclave (proxy s)) = Some id ->
  runs (enclave (proxy s)) id task input r mutex -> encode_all (task_payload task) ZSTD_COMPRESSION_LEVEL = Ok c ->
  on_client (request_rounds cfg rounds (task_block_number task) c backoff) s = (Ok (Some true), delivered s id task r mutex).
Proof.
  induction fs as [|f fs IH]; intros [|rounds] backoff s Hf Ht Hl Hidle Hi Hr Hc; cbn [length] in Hl; [lia| |lia|];
    cbn [request_rounds]; rewrite eval_bind, eval_attempt.
  - rewrite (eval_block_request s id task input r mutex c) by done. unfold do. rewrite eval_bind, eval_lift.
    cbn [client_answers]. unfold delivered, with_results, with_reply, with_proxy. cbn. by rewrite Hf.
  - apply Forall_cons in Ht as [Hf1 Ht]. destruct (eval_block_fault s f fs (task_block_number task) c Hf Hf1) as [e E].
    rewrite E. unfold do. rewrite eval_bind, eval_lift. cbn [client_answers].
    rewrite (IH rounds (longer 2000 backoff) (with_faults fs s)); [done|done|done|lia|done..].
Qed.

(** The tasks one after the other, with the enclave's states. *)
Inductive runs_all (id : EnclaveIdentity) : EnclaveState -> list ExecutionTask -> list EthExecutionResponse -> EnclaveState -> Prop :=
  | runs_nil st : runs_all id st [] [] st
  | runs_cons st task input r mutex tasks rs st' :
      runs st id task input r mutex -> runs_all id (executed st id mutex) tasks rs st' ->
      runs_all id st (task :: tasks) (r :: rs) st'.

Definition result_of (tr : ExecutionTask * EthExecutionResponse) : BlockResult :=
  {| result_block_number := task_block_number tr.1; result_response := tr.2 |}.

(** What the worker leaves, and what it does not touch. *)
Definition worked (s : Net) (st : EnclaveState) (rs : list BlockResult) (s' : Net) : Prop :=
  results s' = results s ++ rs /\ enclave (proxy s') = st /\ db s' = db s /\ store (proxy s') = store (proxy s).

(** Taking the next task: the first of the high queue, else of the normal one. *)
Lemma eval_next_task rounds s : 
  on_client (next_task (S rounds)) s =
  match high s, normal s with
  | t :: q, _ => (Ok (Some (Some t)), with_high q s)
  | [], t :: q => (Ok (Some (Some t)), with_normal q s)
  | [], [] => (Ok (Some None), s)
  end.
Proof.
  cbn [next_task]. unfold do. rewrite eval_bind, eval_lift. cbn [client_answers].
  rewrite eval_bind, eval_lift. cbn [client_answers]. destruct (high s) as [|t q] eqn:Eh; cbn [pop]; [|done].
  rewrite eval_bind, eval_lift. cbn [client_answers]. by destruct (normal s).
Qed.

Lemma eval_worker id tasks : forall fuel rounds s rs st', runs_all id (enclave (proxy s)) tasks rs st' ->
  high s ++ normal s = tasks -> idle (enclave (proxy s)) -> identity (enclave (proxy s)) = Some id ->
  Forall transient (faults s) -> (length tasks < fuel)%nat -> (length (faults s) < rounds)%nat ->
  exists s', on_client (execution_worker cfg fuel rounds) s = (Ok (Some tt), s') /\ worked s st' (map result_of (zip tasks rs)) s'.
Proof.
  induction tasks as [|task tasks IH]; intros [|fuel] [|rounds] s rs st' Hrun Hq Hidle Hi Ht Hfu Hro; cbn [length] in *; try lia;
    inversion Hrun as [|? ? input r mutex ? rs' ? Hr Hrs]; subst; cbn [execution_worker]; rewrite eval_bind, eval_next_task.
  - apply app_eq_nil in Hq as [Hh Hn]. rewrite Hh, Hn. exists s. split; [done|]. unfold worked. by rewrite app_nil_r.
  - assert (Hs : exists s1, match high s, normal s with
        | t :: q, _ => (Ok (Some (Some t)), with_high q s)
        | [], t :: q => (Ok (Some (Some t)), with_normal q s)
        | [], [] => (Ok (Some None), s)
        end = (@Ok string _ (Some (Some task)), s1) /\ high s1 ++ normal s1 = tasks /\ proxy s1 = proxy s /\ db s1 = db s /\
        results s1 = results s /\ faults s1 = faults s).
    { destruct (high s) as [|t q] eqn:Eh; [destruct (normal s) as [|t q] eqn:En; [done|]|]; injection Hq as -> Hq;
        eexists; (split; [reflexivity|]); cbn; by rewrite ?Eh. }
    destruct Hs as (s1 & -> & Hq1 & Hp1 & Hd1 & Hr1 & Hf1).
    destruct (run_compressed _ _ _ _ _ _ Hr) as [c Hc]. rewrite Hc, eval_bind. 
    rewrite (eval_request_rounds id task input r mutex c (faults s1) (S rounds) 50 s1) by (rewrite ?Hp1, ?Hf1; done || lia).
    destruct (IH fuel (S rounds) (delivered s1 id task r mutex) rs' st') as (s' & E & W);
      cbn; rewrite ?Hp1; try done; try lia.
    exists s'. split; [exact E|]. destruct W as (W1 & W2 & W3 & W4). cbn in W1, W3, W4. rewrite Hp1 in W4.
    unfold worked. rewrite W1, W3, W4, Hr1, <- app_assoc. by rewrite Hd1.
Qed.

(** ** Signing a batch *)

Section Batch.
Context (id : EnclaveIdentity) (batch_index from_block to_block : Z) (responses : list EthExecutionResponse) (blobs : list (list Z)).

Definition batch_request : SignBatchRootRequest :=
  {| req_from_block := from_block; req_to_block := to_block; req_batch_index := batch_index;
     req_responses := responses; req_blobs := blobs |}.
Definition batch_headers : list (string * string) :=
  [("x-api-key", client_api_key cfg); ("content-type", "application/json")]%string.

(** The request and the answer cross every codec. *)
Record carried (resp : Enclave.EnclaveResponse) : Prop := {
  carried_json : exists body, batch_request_json batch_request = Ok body /\
    extract_batch_request (Some (Some "application/json"%string)) body = Ok batch_request;
  carried_submit : carried_in (SubmitBatch from_block to_block responses blobs);
  carried_answer : carried_out resp;
  carried_back : match resp with
    | Enclave.SubmitBatchResult r => parse_batch (body_bytes (BodyBatch r)) = Ok r
    | Enclave.InvalidSignaturesResult b a => parse_invalid_signatures (body_bytes (BodyInvalidSignatures b a)) = Ok (b, a)
    | _ => True
    end }.

(** The enclave's own answer. *)
Definition verdict (st : EnclaveState) : outcome Enclave.SubmitBatchError SubmitBatchResponse :=
  Enclave.handle_submit_batch net from_block to_block responses blobs (signing_key id) (block_store st).
Definition answer (st : EnclaveState) : outcome unit Enclave.EnclaveResponse :=
  Enclave.submit_batch_to_response (verdict st) (EnclaveLoop.public_key id).

Lemma eval_submit w att_cfg resp : identity (enclave w) = Some id -> answer (enclave w) = Ok resp -> carried resp ->
  eval (answers net dev aws) (submit_batch from_block to_block responses blobs att_cfg) w =
  (match view resp with
   | SubmitBatchResult _ | ProxyEnclave.InvalidSignatures _ _ => Ok (view resp)
   | Error e => Err ("Enclave error: " +:+ e)
   | other => Err ("Unexpected response: " +:+ debug_response other)
   end, with_wire (enclave w) [] [] w).
Proof.
  intros Hi Ha Hc. unfold submit_batch, submit_batch_inner.
  assert (Hcall : call net dev (enclave w) (Some (SubmitBatch from_block to_block responses blobs)) = Ok (enclave w, resp)).
  { unfold call, handle_message. rewrite Hi. unfold answer, verdict in Ha. by rewrite Ha. }
  rewrite eval_bind, (eval_send net dev aws _ w _ _ (carried_submit _ Hc) Hcall (carried_answer _ Hc)).
  unfold answer, verdict in Ha. destruct (Enclave.handle_submit_batch _ _ _ _ _ _ _) as [r|[bad|e]|]; by inversion Ha.
Qed.

Lemma eval_serve_batch w resp body : from_block <= to_block -> blobs <> [] ->
  identity (enclave w) = Some id -> answer (enclave w) = Ok resp -> carried resp ->
  extract_batch_request (Some (Some "application/json"%string)) body = Ok batch_request ->
  on_server (serve state {| req_path := "/sign-batch-root"; req_headers := batch_headers; req_body := body |}) w =
    (Some match view resp with
     | SubmitBatchResult r => ok_response (BodyBatch r)
     | ProxyEnclave.InvalidSignatures b a => {| http_status := 409; http_body := BodyInvalidSignatures b a |}
     | Error e => {| http_status := 500; http_body := BodyError ("Batch submission failed: " +:+ ("Enclave error: " +:+ e)) |}
     | other => {| http_status := 500; http_body := BodyError ("Batch submission failed: " +:+ ("Unexpected response: " +:+ debug_response other)) |}
     end, with_wire (enclave w) [] [] w).
Proof.
  intros Hle Hne Hi Ha Hc Hx. unfold serve. cbn [req_path req_headers req_body].
  rewrite decide_False by done. rewrite decide_True by done. unfold require_api_key.
  assert (Ek : get_header "x-api-key" batch_headers = Some (Some (client_api_key cfg))) by done.
  assert (Et : get_header "content-type" batch_headers = Some (Some "application/json"%string)) by done.
  rewrite Ek, Et, Hx. cbn [mjoin option_join default extracted]. rewrite Hkey, decide_False by naive_solver.
  unfold respond. rewrite eval_prog_bind. unfold sign_batch_root. cbn [req_from_block req_to_block req_blobs req_responses batch_request].
  rewrite decide_False by lia. rewrite decide_False by done.
  unfold or_internal. rewrite eval_bind, eval_map_err, eval_on_proxy, (eval_submit w (att_cfg state) resp Hi Ha Hc).
  by destruct (view resp).
Qed.

Context (Hle : from_block <= to_block) (Hne : blobs <> []).

(** One request that reaches the proxy. *)
Lemma eval_call_batch s resp : faults s = [] -> identity (enclave (proxy s)) = Some id ->
  answer (enclave (proxy s)) = Ok resp -> carried resp ->
  exists body out, on_client (call_sign_batch_root cfg from_block to_block batch_index responses blobs) s =
    (out, with_reply body (with_proxy (with_wire (enclave (proxy s)) [] [] (proxy s)) s)) /\
  match resp with
  | Enclave.SubmitBatchResult r => out = Ok r
  | Enclave.InvalidSignaturesResult b a => out = Err (StaleSignatures b a)
  | _ => exists text, out = Err (OtherFailure text)
  end.
Proof.
  intros Hf Hi Ha Hc. destruct (carried_json _ Hc) as (json & Hj & Hx). unfold call_sign_batch_root, ask.
  change {| req_from_block := from_block; req_to_block := to_block; req_batch_index := batch_index;
            req_responses := responses; req_blobs := blobs |} with batch_request.
  rewrite eval_bind, eval_map_err. unfold of_outcome at 1. rewrite eval_ret, Hj. cbn [map_err].
  rewrite eval_bind, eval_map_err, eval_trigger. cbn [client_answers]. rewrite Hf, path_of_app.
  change (eval server_answers _ (proxy s)) with (on_server (serve state {| req_path := "/sign-batch-root";
    req_headers := batch_headers; req_body := json |}) (proxy s)).
  rewrite (eval_serve_batch _ resp json Hle Hne Hi Ha Hc Hx). cbn [map_err].
  pose proof (carried_back _ Hc) as Hb. unfold answer in Ha.
  destruct (verdict (enclave (proxy s))) as [r|[b|e]|]; cbn in Ha; inversion Ha; subst resp;
    cbn [view ok_response http_status http_body].
  - rewrite decide_False by done.
    change (is_success 200) with true. cbn iota. rewrite eval_bind, eval_map_err, eval_trigger.
    cbn [client_answers map_err]. rewrite eval_map_err. unfold of_outcome. rewrite eval_ret. cbn [with_reply reply].
    rewrite Hb. by eexists _, _.
  - rewrite decide_True by done. rewrite eval_bind, eval_map_err, eval_trigger. cbn [client_answers map_err].
    rewrite eval_bind, eval_map_err. unfold of_outcome. rewrite eval_ret. cbn [with_reply reply]. rewrite Hb. by eexists _, _.
  - rewrite decide_False by done. change (is_success 500) with false. cbn iota.
    rewrite eval_bind, eval_attempt, eval_trigger. cbn [client_answers]. eexists _, _. split; [reflexivity|]. by eexists.
Qed.

Lemma eval_batch_fault s f fs : faults s = f :: fs -> transient f -> (exists body, batch_request_json batch_request = Ok body) ->
  exists text, on_client (call_sign_batch_root cfg from_block to_block batch_index responses blobs) s =
    (Err (OtherFailure text), with_faults fs s).
Proof.
  intros Hf Ht [json Hj]. unfold call_sign_batch_root, ask.
  change {| req_from_block := from_block; req_to_block := to_block; req_batch_index := batch_index;
            req_responses := responses; req_blobs := blobs |} with batch_request.
  rewrite eval_bind, eval_map_err. unfold of_outcome at 1. rewrite eval_ret, Hj. cbn [map_err].
  rewrite eval_bind, eval_map_err, eval_trigger. cbn [client_answers]. rewrite Hf.
  destruct f as [e|status]; [by eexists|]. destruct Ht as [Hs Hn]. cbn [map_err].
  rewrite decide_False by done. rewrite Hs, eval_bind, eval_attempt, eval_trigger. cbn [client_answers]. by eexists.
Qed.

(** What a task makes of the enclave's answer: an answer that is neither a
    signature nor a list of stale blocks is asked for again. *)
Definition outcome_of (resp : Enclave.EnclaveResponse) : option SignOutcome :=
  match resp with
  | Enclave.SubmitBatchResult r => Some (Signed r)
  | Enclave.InvalidSignaturesResult b a => Some (Orchestrator.InvalidSignatures b a)
  | _ => None
  end.
Definition stored (resp : Enclave.EnclaveResponse) (d : Db.Db) : Db.Db :=
  match resp with Enclave.SubmitBatchResult r => save_batch_signature all_ok batch_index r d | _ => d end.

(** What a signing task leaves. *)
Definition signed (s : Net) (resp : Enclave.EnclaveResponse) (s' : Net) : Prop :=
  db s' = stored resp (db s) /\ enclave (proxy s') = enclave (proxy s) /\ results s' = results s.

Lemma eval_sign_refused resp : outcome_of resp = None -> carried resp -> forall rounds backoff s, faults s = [] ->
  identity (enclave (proxy s)) = Some id -> answer (enclave (proxy s)) = Ok resp ->
  exists s', on_client (sign_rounds cfg rounds batch_index from_block to_block responses blobs backoff) s = (Ok None, s') /\
    signed s resp s'.
Proof.
  intros Ho Hc. induction rounds as [|rounds IH]; intros backoff s Hf Hi Ha; [exists s; by destruct resp|].
  cbn [sign_rounds]. rewrite eval_bind, eval_attempt.
  destruct (eval_call_batch s resp Hf Hi Ha Hc) as (body & out & -> & Hout).
  destruct resp; try done; destruct Hout as [text ->]; unfold do; rewrite eval_bind, eval_lift; cbn [client_answers];
    destruct (IH (longer 30000 backoff) (with_reply body (with_proxy (with_wire (enclave (proxy s)) [] [] (proxy s)) s)))
      as (s' & -> & Hs); by try exists s'.
Qed.

Lemma eval_sign_rounds resp fs : forall rounds backoff s, faults s = fs -> Forall transient fs -> (length fs < rounds)%nat ->
  identity (enclave (proxy s)) = Some id -> answer (enclave (proxy s)) = Ok resp -> carried resp ->
  exists s', on_client (sign_rounds cfg rounds batch_index from_block to_block responses blobs backoff) s =
    (Ok (outcome_of resp), s') /\ signed s resp s'.
Proof.
  induction fs as [|f fs IH]; intros [|rounds] backoff s Hf Ht Hl Hi Ha Hc; cbn [length] in Hl; try lia.
  - destruct (outcome_of resp) as [o|] eqn:Ho; [|by apply eval_sign_refused].
    cbn [sign_rounds]. rewrite eval_bind, eval_attempt.
    destruct (eval_call_batch s resp Hf Hi Ha Hc) as (body & out & -> & Hout).
    destruct resp; try done; injection Ho as <-; rewrite Hout; [|by eexists].
    unfold do. rewrite eval_bind, eval_lift. cbn [client_answers]. by eexists.
  - apply Forall_cons in Ht as [Hf1 Ht]. cbn [sign_rounds]. rewrite eval_bind, eval_attempt.
    destruct (carried_json _ Hc) as (json & Hj & _).
    destruct (eval_batch_fault s f fs Hf Hf1 (ex_intro _ json Hj)) as [text ->].
    unfold do. rewrite eval_bind, eval_lift. cbn [client_answers].
    destruct (IH rounds (longer 30000 backoff) (with_faults fs s)) as (s' & -> & Hs); try done; [lia|]. by exists s'.
Qed.

(** The whole task of a batch that has no signature yet. *)
Lemma eval_sign_batch_io resp blocks rounds s : get_batch_signature batch_index (db s) = None ->
  fetch_blocks l2 from_block to_block = Ok blocks -> build_blobs blocks = Ok blobs ->
  Forall transient (faults s) -> (length (faults s) < rounds)%nat ->
  identity (enclave (proxy s)) = Some id -> answer (enclave (proxy s)) = Ok resp -> carried resp ->
  exists s', on_client (sign_batch_io cfg rounds batch_index from_block to_block responses) s = (Ok (outcome_of resp), s') /\
    signed s resp s'.
Proof.
  intros Hn Hf Hb Ht Hl Hi Ha Hc. unfold sign_batch_io, do. rewrite eval_bind, eval_lift. cbn [client_answers]. rewrite Hn.
  destruct rounds as [|rounds]; [lia|]. cbn [blob_rounds]. rewrite eval_bind, eval_bind, eval_attempt.
  unfold build_blobs_from_l2, do. rewrite eval_bind, eval_lift. cbn [client_answers].
  rewrite eval_bind. unfold of_outcome at 1. rewrite eval_ret, Hf. unfold of_outcome. rewrite eval_ret, Hb. cbn [map_err].
  by apply (eval_sign_rounds resp (faults s)).
Qed.
End Batch.

(** ** Executed blocks make a batch *)

Definition own_signature (id : EnclaveIdentity) (r : EthExecutionResponse) : Prop :=
  resp_signature r = Enclave.sign (signing_key id) (Enclave.execution_sign_payload (block_number r) (leaf r) (block_hash r)).

Lemma job_signed st id input r mutex : job net st id input = (Ok r, mutex) ->
  own_signature id r /\ Enclave.poisoned mutex = false.
Proof.
  unfold job, EnclaveLoop.execute_block, run_block. intros E.
  destruct (eth net (custom_beneficiary input) input) as [[h hashes]|e|]; [|done..]. cbn zeta in E.
  destruct (Enclave.poisoned (block_store st)); [done|].
  destruct (Enclave.block_store_insert _ _ _) as [m|e|]; [|done..].
  injection E as <- <-. done.
Qed.

Lemma runs_all_signed id st tasks rs st' : runs_all id st tasks rs st' ->
  Forall (own_signature id) rs /\ length rs = length tasks /\ identity st' = (if tasks then identity st else Some id) /\
  (rs <> [] \/ Enclave.poisoned (block_store st) = false -> Enclave.poisoned (block_store st') = false).
Proof.
  induction 1 as [st|st task input r mutex tasks rs st' Hr _ (Hs & Hl & Hi & Hp)].
  { split; [by apply Forall_nil|]. split_and!; [done..|]. by intros [?|?]. }
  destruct (job_signed _ _ _ _ _ (run_job _ _ _ _ _ _ Hr)) as [Hsig Hpo].
  split; [by apply Forall_cons|]. split; [cbn; by rewrite Hl|]. split; [by destruct tasks|].
  intros _. apply Hp. by right.
Qed.

Lemma find_number rs r : NoDup (map block_number rs) -> r ∈ rs ->
  List.find (fun x => block_number x =? block_number r) rs = Some r.
Proof.
  induction rs as [|x rs IH]; intros Hnd Hin; [by apply not_elem_of_nil in Hin|]. cbn [List.find map] in *.
  apply NoDup_cons in Hnd as [Hx Hnd]. apply elem_of_cons in Hin as [->|Hin]; [by rewrite Z.eqb_refl|].
  assert (block_number x <> block_number r) by (intros E; apply Hx; rewrite E; by apply list_elem_of_fmap_2).
  rewrite (proj2 (Z.eqb_neq _ _)) by done. by apply IH.
Qed.

(** What the libraries document: signatures verify with their key; a canonical
    blob has a commitment; digests are 32 bytes; and a digest of 32 bytes can be
    signed, with a low [s]. *)
Definition working_crypto (key : Enclave.SigningKey) : Prop :=
  (forall m, Enclave.signature_from_slice (Enclave.sign key m) = true /\
             Enclave.verify (Enclave.verifying_key key) m (Enclave.sign key m) = true) /\
  (forall blob, canonical_blob blob ->
     Enclave.kzg_blob_from_bytes blob = true /\ is_Some (Enclave.blob_to_kzg_commitment blob)) /\
  (forall m, length (Enclave.sha256 m) = 32%nat) /\
  (forall d, length d = 32%nat ->
     exists sig recid, Enclave.sign_digest_recoverable key d = Some (sig, recid) /\ Enclave.is_high_s sig = false).

Lemma verdict_signs id from_block to_block rs blobs blocks st : working_crypto (signing_key id) ->
  from_block <= to_block -> Enclave.snapshot_fits from_block to_block ->
  map block_number rs = range_incl from_block to_block -> Forall (own_signature id) rs ->
  Enclave.poisoned (block_store st) = false ->
  Forall2 (fun b r => keccak256 (header_rlp b) = block_hash r) blocks rs ->
  Forall canonical_blob blobs -> decode_blob_payload blobs = Ok (encode_batch_payload blocks) ->
  blocks_of (encode_batch_payload blocks) = Some (map (fun b => Ok (keccak256 (header_rlp b))) blocks) ->
  exists r, verdict id from_block to_block rs blobs st = Ok r /\
    calculate_merkle_root (map leaf rs) = Some (batch_root r) /\ Enclave.compute_versioned_hashes blobs = Ok (versioned_hashes r).
Proof.
  intros (Hver & Hkzg & Hsha & Hsig) Hle Hfit Hns Hown Hpo Hbs Hlen Hdec Hblocks.
  assert (Hnd : NoDup (map block_number rs)) by (rewrite Hns; apply NoDup_range_incl).
  assert (Hne : map leaf rs <> []).
  { destruct rs; [|done]. pose proof (length_range_incl from_block to_block Hle). rewrite <- Hns in *. cbn in *. lia. }
  destruct (proj2 (proj1 (merkle_roots_agree (map leaf rs)) Hne)) as [root Hroot].
  assert (Hv : exists vhs, Enclave.compute_versioned_hashes blobs = Ok vhs).
  { apply mapM_total, Forall_forall. intros [i b] Hin. apply elem_of_zip_r in Hin. cbn [fst snd].
    rewrite Forall_forall in Hlen. rewrite decide_True by apply (Hlen b Hin). unfold Enclave.blob_to_versioned_hash.
    destruct (Hkzg b (Hlen b Hin)) as [-> [c ->]]. by eexists. }
  destruct Hv as [vhs Hv].
  assert (Hs : exists r, Enclave.sign_batch net root vhs (signing_key id) = Ok r).
  { unfold Enclave.sign_batch. destruct (Hsig _ (Hsha (Enclave.abi_encode_batch net root vhs))) as (sig & recid & E & Eh).
    rewrite E. cbn. rewrite Eh. by eexists. }
  destruct Hs as [r Hs]. destruct (EnclaveBatch.sign_batch_fields _ _ _ _ _ Hs) as [Er Ev]. exists r.
  split; [|by rewrite Er, Ev]. unfold verdict.
  apply (proj1 (proj2 (EnclaveBatch.handle_submit_batch_exact net from_block to_block rs blobs (signing_key id) (block_store st)))).
  split; [done|]. exists (map (fun r => (leaf r, block_hash r)) rs), (encode_batch_payload blocks).
  rewrite map_map. cbn [fst]. rewrite Er, Ev. split_and!; try done.
  - rewrite <- Hns. apply Forall2_fmap_2, Forall_Forall2_diag, Forall_forall. intros x Hx.
    unfold EnclaveBatch.trusted_block. rewrite (find_number rs x Hnd Hx). unfold EnclaveBatch.verified.
    rewrite Forall_forall in Hown. rewrite (Hown x Hx). by destruct (Hver (Enclave.execution_sign_payload (block_number x) (leaf x) (block_hash x))) as [-> ->].
  - rewrite Hblocks, map_map. cbn [snd]. f_equal. clear -Hbs. by induction Hbs as [|b r bs rs E _ IH]; [|cbn; rewrite E, IH].
Qed.

(** A batch that is signed stays signed: no request is made for it. *)
Lemma eval_cached batch_index from_block to_block rs rounds s r : get_batch_signature batch_index (db s) = Some r ->
  on_client (sign_batch_io cfg rounds batch_index from_block to_block rs) s = (Ok (Some (Signed r)), s).
Proof. intros E. unfold sign_batch_io, do. rewrite eval_bind, eval_lift. cbn [client_answers]. by rewrite E. Qed.

Lemma pipeline id s tasks rs st' from_block to_block batch_index blocks fs fuel rounds :
  idle (enclave (proxy s)) -> identity (enclave (proxy s)) = Some id -> working_crypto (signing_key id) ->
  high s ++ normal s = tasks -> runs_all id (enclave (proxy s)) tasks rs st' ->
  from_block <= to_block -> Enclave.snapshot_fits from_block to_block ->
  map block_number rs = range_incl from_block to_block ->
  fetch_blocks l2 from_block to_block = Ok blocks -> Forall2 (fun b r => keccak256 (header_rlp b) = block_hash r) blocks rs ->
  Forall (fun b => rlp_list (header_rlp b)) blocks -> Z.of_nat (length (encode_batch_payload blocks)) < 2 ^ 64 ->
  (exists c, brotli_compress (encode_batch_payload blocks) = Some c /\ Bytes c) -> get_batch_signature batch_index (db s) = None ->
  Forall transient (faults s ++ fs) -> (length tasks < fuel)%nat -> (length (faults s ++ fs) < rounds)%nat ->
  (forall blobs r, build_blobs blocks = Ok blobs -> verdict id from_block to_block rs blobs st' = Ok r ->
     carried batch_index from_block to_block rs blobs (Enclave.SubmitBatchResult r)) ->
  exists s1 blobs r s2,
    on_client (execution_worker cfg fuel rounds) s = (Ok (Some tt), s1) /\
    results s1 = results s ++ map result_of (zip tasks rs) /\
    build_blobs blocks = Ok blobs /\ decode_blob_payload blobs = Ok (encode_batch_payload blocks) /\
    on_client (sign_batch_io cfg rounds batch_index from_block to_block rs) (with_faults fs s1) = (Ok (Some (Signed r)), s2) /\
    calculate_merkle_root (map leaf rs) = Some (batch_root r) /\ Enclave.compute_versioned_hashes blobs = Ok (versioned_hashes r) /\
    get_batch_signature batch_index (db s2) = Some r /\
    forall rounds', on_client (sign_batch_io cfg rounds' batch_index from_block to_block rs) s2 = (Ok (Some (Signed r)), s2).
Proof.
  intros Hidle Hid Hcrypto Hq Hruns Hle Hfit Hns Hl2 Hhash Hheaders Hsize (c & Hc & Hcb) Hun Hft Hfu Hro Hcar.
  apply Forall_app in Hft as [Hf1 Hf2]. rewrite length_app in Hro.
  destruct (eval_worker id tasks fuel rounds s rs st' Hruns Hq Hidle Hid Hf1 Hfu ltac:(lia)) as (s1 & E1 & W1 & W2 & W3 & _).
  destruct (runs_all_signed _ _ _ _ _ Hruns) as (Hown & Hlen & Hi & Hpo).
  destruct (batch_blobs_ok blocks Hheaders Hsize (ex_intro _ c Hc)) as (blobs & Hb & _ & Hdec & Hbo).
  pose proof (built_blobs_canonical blocks c blobs Hc Hcb Hb) as Hbl.
  assert (Hne : rs <> []).
  { intros ->. pose proof (length_range_incl from_block to_block Hle) as Hl. rewrite <- Hns in Hl. cbn in Hl. lia. }
  destruct (verdict_signs id from_block to_block rs blobs blocks st' Hcrypto Hle Hfit Hns Hown (Hpo (or_introl Hne)) Hhash Hbl Hdec Hbo)
    as (r & Hr & Hroot & Hvh).
  assert (Hid' : identity st' = Some id) by (rewrite Hi; by destruct tasks).
  destruct (eval_sign_batch_io id batch_index from_block to_block rs blobs Hle ltac:(by destruct blobs)
    (Enclave.SubmitBatchResult r) blocks rounds (with_faults fs s1)) as (s2 & E2 & D2 & _); cbn; try done; try lia.
  - by rewrite W3.
  - by rewrite W2.
  - unfold answer. by rewrite W2, Hr.
  - by apply Hcar.
  - assert (Hsaved : get_batch_signature batch_index (db s2) = Some r) by (rewrite D2; apply lookup_insert_eq).
    exists s1, blobs, r, s2. split_and!; try done. intros rounds'. by apply eval_cached.
Qed.
End Link.

(** C3: witnesses become a signed batch.  Tasks for the blocks of a range are
    queued, a range short enough for the enclave's vectors, the enclave executes each of their inputs, the L2 node has blocks with
    the hashes it computed, and any finite number of connection failures and
    gateway errors happen.  Then an execution worker ends with the enclave's
    signed result of every task, delivered under its number and in order; the
    signing task, given these results, ends with a signature of the enclave for
    the Merkle root of their leaves and the versioned hashes of the blobs that
    carry the L2 blocks; the signature is stored, and asking for it again makes
    no request.  Requests go through HTTP, the handlers, the frames and the
    enclave's own loop. *)
Theorem pipeline_signs_batch
    `{Keccak, AlloyRlp, RlpReader, Brotli, AccountCodec, ChainTypes, !Reth, Enclave.EnclaveCrypto}
    `{!Bincode, !EnclaveBincode, !ServerCodec, KzgHost, Zstd, !ZstdLaws, RollupAbi, !ServerJson, ClientJson}
    {laws : AlloyRlpLaws} {blaws : BrotliLaws}
    net dev aws state cfg l2 others id s rs st' from_block to_block batch_index blocks fs fuel rounds
    (Hkey : client_api_key cfg = api_key state)
    (Henclave : idle (enclave (proxy s)) /\ identity (enclave (proxy s)) = Some id /\ working_crypto (signing_key id))
    (Hruns : runs_all net id (enclave (proxy s)) (high s ++ normal s) rs st')
    (Hrange : from_block <= to_block /\ Enclave.snapshot_fits from_block to_block /\ map block_number rs = range_incl from_block to_block)
    (Hl2 : fetch_blocks l2 from_block to_block = Ok blocks /\
           Forall2 (fun b r => keccak256 (header_rlp b) = block_hash r) blocks rs)
    (Hblocks : Forall (fun b => rlp_list (header_rlp b)) blocks /\
               Z.of_nat (length (encode_batch_payload blocks)) < 2 ^ 64 /\
               exists c, brotli_compress (encode_batch_payload blocks) = Some c /\ Bytes c)
    (Hunsigned : get_batch_signature batch_index (db s) = None)
    (Hfaults : Forall transient (faults s ++ fs))
    (Hrounds : (length (high s ++ normal s) < fuel)%nat /\ (length (faults s ++ fs) < rounds)%nat)
    (Hcarried : forall blobs r, build_blobs blocks = Ok blobs -> verdict net id from_block to_block rs blobs st' = Ok r ->
       carried batch_index from_block to_block rs blobs (Enclave.SubmitBatchResult r)) :
  let client {A} := eval (A := A) (client_answers net dev aws state cfg l2 others) in
  exists s1 blobs r s2,
    client (execution_worker cfg fuel rounds) s = (Ok (Some tt), s1) /\
    results s1 = results s ++ map result_of (zip (high s ++ normal s) rs) /\
    build_blobs blocks = Ok blobs /\ decode_blob_payload blobs = Ok (encode_batch_payload blocks) /\
    client (sign_batch_io cfg rounds batch_index from_block to_block rs) (with_faults fs s1) = (Ok (Some (Signed r)), s2) /\
    calculate_merkle_root (map leaf rs) = Some (batch_root r) /\ Enclave.compute_versioned_hashes blobs = Ok (versioned_hashes r) /\
    get_batch_signature batch_index (db s2) = Some r /\
    forall rounds', client (sign_batch_io cfg rounds' batch_index from_block to_block rs) s2 = (Ok (Some (Signed r)), s2).
Proof.
  destruct Henclave as (Hidle & Hid & Hcrypto), Hrange as (Hle & Hfit & Hns), Hl2 as [Hfetch Hhash], Hblocks as (Hheaders & Hsize & Hc), Hrounds as [Hfu Hro].
  by apply (pipeline net dev aws state cfg l2 others Hkey id s (high s ++ normal s) rs st' from_block to_block batch_index blocks fs).
Qed.

(** ** The proxy's client of the witness server *)

(** The calls of one fetch, answered by a response of the server. *)
Definition hub_answers `{ChainTypes, !Reth} (others : forall R, ServerCall R -> R) (resp : Z * list Z) (R : Type) (c : ServerCall R) : R :=
  match c in ServerCall R return R with
  | HubGet _ => Ok resp.1
  | HubBody => Ok resp.2
  | c => others _ c
  end.

(** What the server finds is what the client gets: the payload when there is
    one, and nothing when the block is missing or cannot be built. *)
Theorem hub_fetch_served `{ChainTypes, !Reth, NodeTypes, Zstd} others n d t resp :
  exec (serve_witness n d) t resp -> exists r, exec (get_or_build_witness n d) t r /\
    eval (constantly (hub_answers others resp)) (hub_fetch n) tt = (Ok (match r with Ok w => w | _ => None end), tt).
Proof.
  intros E. apply (exec_bind _ (get_or_build_witness n d)) in E as (r & t1 & t2 & -> & E & -> & ->).
  rewrite app_nil_r. exists r. split; [exact E|]. unfold hub_fetch. rewrite eval_bind, eval_attempt. unfold ask.
  rewrite eval_trigger. cbn [constantly hub_answers]. destruct r as [[payload|]|e|]; cbn [fst snd]; [|done..].
  rewrite decide_True by done. rewrite eval_bind, eval_attempt, eval_trigger. done.
Qed.

(** ** One block, from its witness to the signature of its batch *)
Section Samples.
#[local] Existing Instance RefRlp.alloy.
#[local] Existing Instance RefRlp.reader.
#[local] Existing Instance MptWire.sample_keccak.
#[local] Existing Instance sample_codec.
#[local] Existing Instance sample_types.
#[local] Existing Instance sample_reth.
#[local] Existing Instance toy_brotli.
#[local] Existing Instance RbfSpec.sample_abi.

(** A signature is the key before the message. *)
#[local] Instance plain_crypto : Enclave.EnclaveCrypto := {|
  Enclave.SigningKey := list Z;
  Enclave.VerifyingKey := list Z;
  Enclave.verifying_key k := k;
  Enclave.encoded_point vk := 4 :: vk;
  Enclave.signing_key_of_secret s := Some s;
  Enclave.sign k m := k ++ m;
  Enclave.sign_digest_recoverable k d := if decide (length d = 32%nat) then Some (k ++ d, 0) else None;
  Enclave.is_high_s _ := false;
  Enclave.signature_from_slice sig := bool_decide (hd_error sig = Some 8);
  Enclave.verify vk m sig := bool_decide (sig = vk ++ m);
  Enclave.sha256 := keccak256;
  Enclave.hkdf_extract a b := a ++ b;
  Enclave.hkdf_expand prk info n := Some (replicate n 1);
  Enclave.kzg_blob_from_bytes blob := bool_decide (length blob = BYTES_PER_BLOB);
  Enclave.blob_to_kzg_commitment blob :=
    if decide (Forall (fun e => be_decode e < BLS_MODULUS) (chunks 32 blob)) then Some (1 :: replicate 47 3) else None |}.

Definition plain_identity : EnclaveIdentity :=
  {| signing_key := [8]; EnclaveLoop.public_key := [4; 8]; EnclaveLoop.attestation := [9] |}.
Definition plain_response : EthExecutionResponse := sign_execution sample_result [8].
Definition plain_enclave : EnclaveState :=
  {| identity := Some plain_identity; block_store := empty_store; queue := []; running := [] |}.
Definition plain_after : EnclaveState :=
  {| identity := Some plain_identity; block_store := filled_store; queue := []; running := [] |}.

Lemma plain_job : job mainnet plain_enclave plain_identity sample_input = (Ok plain_response, filled_store).
Proof.
  destruct sample_execute as (h & hashes & E & Er). unfold job, EnclaveLoop.execute_block, run_block.
  change (custom_beneficiary sample_input) with (@None (list Z)). rewrite E. cbn zeta. rewrite <- Er.
  change (block_store plain_enclave) with empty_store. unfold Enclave.block_store_insert.
  cbn [Enclave.poisoned Enclave.store empty_store].
  rewrite map_size_insert_None, map_size_empty by apply lookup_empty. cbn [Enclave.evict].
  rewrite decide_False; [done|].
  rewrite map_size_insert_None, map_size_empty by apply lookup_empty. unfold Enclave.MAX_ENTRIES.
  change (Z.shiftl 1 18) with 262144. lia.
Qed.

Definition plain_blobs : list (list Z) := match build_blobs [sample_block] with Ok blobs => blobs | _ => [] end.
Definition plain_verdict : outcome Enclave.SubmitBatchError SubmitBatchResponse :=
  verdict mainnet plain_identity 7 7 [plain_response] plain_blobs plain_after.
Definition unsigned : SubmitBatchResponse := {| batch_root := []; versioned_hashes := []; signature := [] |}.
Definition signed_or (o : outcome Enclave.SubmitBatchError SubmitBatchResponse) : SubmitBatchResponse :=
  match o with Ok r => r | _ => unsigned end.
Definition plain_signed : SubmitBatchResponse := signed_or plain_verdict.
Definition plain_request : SignBatchRootRequest := batch_request 1 7 7 [plain_response] plain_blobs.

#[local] Instance plain_bincode : Bincode := {|
  serialize_incoming m := match m with Handshake _ => Ok [1] | ExecuteBlock _ => Ok [2] | SubmitBatch _ _ _ _ => Ok [4] end;
  deserialize_response b := match b with
    | [5] => Ok (ExecutionResult plain_response)
    | [7] => Ok (SubmitBatchResult plain_signed)
    | _ => Err "invalid tag"
    end;
  debug_response _ := EmptyString |}.
#[local] Instance plain_enclave_bincode : EnclaveBincode := {|
  deserialize_incoming b := match b with
    | [2] => Some (ExecuteBlock sample_input)
    | [4] => Some (SubmitBatch 7 7 [plain_response] plain_blobs)
    | _ => None
    end;
  serialize_response r := match r with
    | Enclave.ExecutionResult _ => Ok [5]
    | Enclave.SubmitBatchResult _ => Ok [7]
    | _ => Ok [6]
    end;
  error_text _ := EmptyString |}.
#[local] Instance plain_server_codec : ServerCodec := {|
  serialize_executor_input _ := Ok [1];
  deserialize_executor_input _ := Ok sample_input;
  serialize_blob_input _ := Ok [2] |}.
#[local] Instance plain_kzg_host : KzgHost := {|
  parse_kzg_trusted_setup := Ok tt;
  ckzg_blob_from_bytes _ := Ok tt;
  host_blob_to_kzg_commitment _ := Ok (replicate 48 3);
  compute_blob_kzg_proof _ _ := Ok (replicate 48 4) |}.
#[local] Instance plain_zstd : Zstd := {| encode_all p _ := Ok p; decode_all c := Ok c |}.
#[local] Instance plain_zstd_laws : ZstdLaws.
Proof. constructor. by intros p level c [= ->]. Qed.
#[local] Instance plain_server_json : ServerJson := {|
  extract_batch_request _ _ := Ok plain_request;
  extract_challenge_request _ _ := Err (400, EmptyString);
  extract_status_request _ _ := Ok [];
  body_bytes _ := [] |}.
#[local] Instance plain_client_json : ClientJson := {|
  batch_request_json _ := Ok [6];
  parse_execution _ := Ok plain_response;
  parse_batch _ := Ok plain_signed;
  parse_invalid_signatures _ := Err EmptyString;
  show_status _ := EmptyString |}.

Definition plain_state : AppState := {| api_key := "key"; att_cfg := None; sp1 := false; sp1_elf_bytes := None;
  l1 := None; witness_hub := false |}.
Definition plain_config : ClientConfig := {| proxy_url := "http://proxy"; client_api_key := "key" |}.
Definition refused : TransportError :=
  {| is_connect := true; is_timeout := false; is_request := false; error_display := "refused"; error_sources := [] |}.

(** The task is queued; the first request finds no proxy, the second a gateway
    that has lost it. *)
Definition plain_net : Net := {|
  proxy := {| enclave := plain_enclave; inbound := []; outbound := []; store := ProxyDb.open; spawned := []; locked := false |};
  db := Db.open; reply := []; faults := [inl refused; inr 502]; high := [];
  normal := [{| task_block_number := 7; task_payload := [1] |}]; results := [] |}.

Lemma plain_encodable : Forall (fun b => rlp_list (header_rlp b)) [sample_block] /\
  Z.of_nat (length (encode_batch_payload [sample_block])) < 2 ^ 64 /\
  exists c, brotli_compress (encode_batch_payload [sample_block]) = Some c /\ Bytes c.
Proof.
  split_and!.
  - apply Forall_cons; split; [|by apply Forall_nil].
    exists [string_encode (be_encode 8 7)]. split; [reflexivity|vm_compute; reflexivity].
  - vm_compute. reflexivity.
  - eexists. split; [vm_compute; reflexivity|]. apply (bool_decide_unpack _). vm_compute. exact I.
Qed.

Lemma plain_blobs_built : build_blobs [sample_block] = Ok plain_blobs.
Proof.
  destruct plain_encodable as (Hh & Hl & c & Hc & _). unfold plain_blobs.
  by destruct (batch_blobs_ok (laws := RefRlp.alloy_laws) (blaws := toy_brotli_laws) [sample_block] Hh Hl (ex_intro _ c Hc)) as (blobs & -> & _).
Qed.

Lemma plain_carried blobs r : build_blobs [sample_block] = Ok blobs ->
  verdict mainnet plain_identity 7 7 [plain_response] blobs plain_after = Ok r ->
  carried 1 7 7 [plain_response] blobs (Enclave.SubmitBatchResult r).
Proof.
  rewrite plain_blobs_built. intros [= <-] Hr.
  change (plain_verdict = Ok r) in Hr. assert (Er : r = plain_signed) by (unfold plain_signed; by rewrite Hr). subst r. constructor.
  - exists [6]. split; reflexivity.
  - exists [4]. split; [reflexivity|split; [vm_compute; discriminate|reflexivity]].
  - exists [7]. split; [reflexivity|split; [vm_compute; discriminate|reflexivity]].
  - reflexivity.
Qed.

Lemma plain_crypto_works : working_crypto (signing_key plain_identity).
Proof.
  split_and!.
  - intros m. split; by apply bool_decide_eq_true.
  - intros blob (Hl & es & -> & Hes). split; [by apply bool_decide_eq_true|].
    cbn [Enclave.blob_to_kzg_commitment plain_crypto]. rewrite decide_True; [by eexists|]. clear Hl.
    induction Hes as [|e es (Hle & _ & He) _ IH]; [by apply Forall_nil|].
    cbn [concat]. rewrite chunks_app by (done || lia). by apply Forall_cons.
  - apply keccak256_length.
  - intros d Hd. cbn [Enclave.sign_digest_recoverable plain_crypto]. rewrite decide_True by done. by eexists _, _.
Qed.

Lemma plain_runs : runs_all mainnet plain_identity plain_enclave [{| task_block_number := 7; task_payload := [1] |}] [plain_response] plain_after.
Proof.
  apply (runs_cons mainnet plain_identity plain_enclave _ sample_input plain_response filled_store); [|apply runs_nil]. split.
  - by exists [1].
  - reflexivity.
  - exists [2]. split; [reflexivity|split; [vm_compute; discriminate|reflexivity]].
  - exact plain_job.
  - exists [5]. split; [reflexivity|split; [vm_compute; discriminate|reflexivity]].
  - reflexivity.
Qed.

Lemma pipeline_signs_batch_witness : exists s1 r s2,
  results s1 = [{| result_block_number := 7; result_response := plain_response |}] /\
  eval (client_answers mainnet sample_devices sample_aws plain_state plain_config (fun _ => Ok sample_block) ChallengeInput.sample_server_answer)
    (sign_batch_io plain_config 4 1 7 7 [plain_response]) (with_faults [inr 503] s1) = (Ok (Some (Signed r)), s2) /\
  get_batch_signature 1 (db s2) = Some r.
Proof.
  destruct (pipeline_signs_batch (laws := RefRlp.alloy_laws) (blaws := toy_brotli_laws) mainnet sample_devices sample_aws plain_state plain_config
    (fun _ => Ok sample_block) ChallengeInput.sample_server_answer plain_identity plain_net [plain_response] plain_after 7 7 1
    [sample_block] [inr 503] 2 4) as (s1 & blobs & r & s2 & _ & E1 & _ & _ & E2 & _ & _ & E3 & _).
  - reflexivity.
  - exact (conj (conj eq_refl eq_refl) (conj eq_refl plain_crypto_works)).
  - exact plain_runs.
  - split; [lia|]. split; vm_compute; [discriminate|reflexivity].
  - split; [reflexivity|]. apply Forall2_cons. split; [vm_compute; reflexivity|apply Forall2_nil; exact I].
  - exact plain_encodable.
  - reflexivity.
  - repeat (apply Forall_cons; split); try apply Forall_nil; cbn; try exact I; (split; [reflexivity|discriminate]).
  - cbn. lia.
  - exact plain_carried.
  - exists s1, r, s2. split; [exact E1|]. split; [exact E2|exact E3].
Defined.
End Samples.
