(* ===== verification/Kms.v ===== *)
(** * The enclave's KMS client ([bin/client/src/nitro/kms.rs])

    One signed HTTP request over TLS and vsock, and the reading of its response.
    Texts are strings of bytes; SHA-256, HMAC and JSON are parameters, the
    socket and the clock are behind calls.  Header values come from the parent
    host, which is not trusted: [one_request] shows that they cannot change what
    is sent beyond their own header, and [answered_random] what a response must be
    like for its bytes to be used. *)
From stdpp Require Import strings pretty.
From S2P Require Import Prelude BytesCodec Text Interaction EnclaveLoop.
#[local] Open Scope Z_scope.

Definition CR : Ascii.ascii := Ascii.ascii_of_nat 13.
Definition LF : Ascii.ascii := Ascii.ascii_of_nat 10.
Definition CRLF : string := String.String CR (String.String LF EmptyString).

(** [REGION], [KMS_HOST] and the other constants of [params.rs]. *)
Definition CONTENT_TYPE : string := "application/x-amz-json-1.1".
Definition TARGET_GENERATE_RANDOM : string := "TrentService.GenerateRandom".
Definition KMS_MAX_RESPONSE_BYTES : Z := 512 * 1024.
Definition REGION (testnet : bool) : string := if testnet then "us-east-1" else "eu-central-2".
Definition KMS_HOST (testnet : bool) : string := "kms." +:+ REGION testnet +:+ ".amazonaws.com".

(** ** Strings of the standard library *)

(** [str.strip_prefix]. *)
Fixpoint strip (needle s : string) : option string :=
  match needle, s with
  | EmptyString, s => Some s
  | String.String a needle, String.String b s => if decide (a = b) then strip needle s else None
  | _, EmptyString => None
  end.

(** [s.find(needle)], with what is before and after the needle. *)
Fixpoint find (needle s : string) : option (string * string) :=
  match strip needle s with
  | Some rest => Some (EmptyString, rest)
  | None =>
      match s with
      | EmptyString => None
      | String.String c s => prod_map (String.String c) id <$> find needle s
      end
  end.

Definition is_space (c : Ascii.ascii) : bool :=
  let n := Ascii.nat_of_ascii c in ((9 <=? n) && (n <=? 13) || (n =? 32))%nat.

(** [str::trim], on ASCII texts. *)
Fixpoint trim_start (s : string) : string :=
  match s with
  | String.String c s' => if is_space c then trim_start s' else s
  | EmptyString => EmptyString
  end.
Fixpoint trim_end (s : string) : string :=
  match s with
  | EmptyString => EmptyString
  | String.String c s' =>
      match trim_end s' with
      | EmptyString => if is_space c then EmptyString else String.String c EmptyString
      | t => String.String c t
      end
  end.
Definition trim (s : string) : string := trim_end (trim_start s).

(** The first word of [split_whitespace] and the rest. *)
Fixpoint word (s : string) : string * string :=
  match s with
  | String.String c s' => if is_space c then (EmptyString, s) else prod_map (String.String c) id (word s')
  | EmptyString => (EmptyString, EmptyString)
  end.

(** [s.lines().next()]: up to the first line feed, without a final return. *)
Fixpoint until_lf (s : string) : string :=
  match s with
  | String.String c s' => if decide (c = LF) then EmptyString else String.String c (until_lf s')
  | EmptyString => EmptyString
  end.
Fixpoint drop_last_cr (s : string) : string :=
  match s with
  | String.String c EmptyString => if decide (c = CR) then EmptyString else s
  | String.String c s' => String.String c (drop_last_cr s')
  | EmptyString => EmptyString
  end.
Definition first_line (s : string) : option string :=
  if decide (s = EmptyString) then None
  else Some (let l := until_lf s in if decide (l = s) then l else drop_last_cr l).

Definition digit (c : Ascii.ascii) : option Z :=
  let n := Z.of_nat (Ascii.nat_of_ascii c) in if decide (48 <= n <= 57) then Some (n - 48) else None.

(** [str::parse::<u16>]: a plus sign is allowed, overflow is an error. *)
Fixpoint parse_digits (s : string) (acc : Z) : option Z :=
  match s with
  | EmptyString => Some acc
  | String.String c s =>
      d ← digit c;
      let acc := acc * 10 + d in
      if decide (65535 < acc) then None else parse_digits s acc
  end.
Definition parse_u16 (s : string) : option Z :=
  let s := match s with String.String c s' => if decide (c = Ascii.ascii_of_nat 43) then s' else s | EmptyString => s end in
  if decide (s = EmptyString) then None else parse_digits s 0.

(** ** The client *)

Class KmsCrypto : Type := {
  sha256 : list Z -> list Z;
  hmac_sha256 : list Z -> list Z -> list Z }.

(** [serde_json], and standard base64. *)
Class KmsJson : Type := {
  Value : Type;
  value_from_str : string -> outcome string Value;
  value_get : Value -> string -> option Value;
  value_as_str : Value -> option string;
  value_to_string : Value -> string;
  random_request : string;
  base64_decode : string -> outcome string (list Z) }.

(** [Now] answers the time as [%Y%m%dT%H%M%SZ] and as [%Y%m%d]; [Connect] is the
    vsock connection with its timeouts and the TLS handshake with the host. *)
Inductive KmsCall : Type -> Type :=
  | Now : KmsCall (string * string)
  | Connect (server_name : string) : KmsCall (outcome string unit)
  | WriteAll (request : string) : KmsCall (outcome string unit)
  | Flush : KmsCall (outcome string unit)
  | ReadToString (limit : Z) : KmsCall (outcome string string).

Record KmsClient : Type := { creds : AwsCredentials; region : string; host : string }.
Definition new (testnet : bool) (creds : AwsCredentials) : KmsClient :=
  {| creds := creds; region := REGION testnet; host := KMS_HOST testnet |}.

Fixpoint any_byte (p : Ascii.ascii -> bool) (s : string) : bool :=
  match s with
  | EmptyString => false
  | String.String c s => p c || any_byte p s
  end.

Definition unsafe_byte (c : Ascii.ascii) : bool :=
  bool_decide (c = CR) || bool_decide (c = LF) || bool_decide (c = Ascii.zero).

Definition assert_header_safe (name value : string) : outcome string unit :=
  if any_byte unsafe_byte value then Err ("unsafe bytes in header value: " +:+ name) else Ok tt.

(** [headers.sort_by_key(|a| a.0)]: stable. *)
Fixpoint insert_header (h : string * string) (headers : list (string * string)) : list (string * string) :=
  match headers with
  | [] => [h]
  | h' :: rest => if String.leb h.1 h'.1 then h :: headers else h' :: insert_header h rest
  end.
Definition sort_headers (headers : list (string * string)) : list (string * string) := foldr insert_header [] headers.

Definition concat_strings (l : list string) : string := foldr String.append EmptyString l.
Fixpoint join (sep : string) (l : list string) : string :=
  match l with
  | [] => EmptyString
  | [s] => s
  | s :: l => s +:+ sep +:+ join sep l
  end.

Section Client.
Context `{KmsCrypto, KmsJson} (c : KmsClient).
Abbreviation io := (eff KmsCall string).

Definition hex (bs : list Z) : string := hex_digits bs.

Definition get_signature_key (date : string) : list Z :=
  let k_date := hmac_sha256 (bytes_of_string ("AWS4" +:+ secret_access_key (creds c))) (bytes_of_string date) in
  let k_region := hmac_sha256 k_date (bytes_of_string (region c)) in
  let k_service := hmac_sha256 k_region (bytes_of_string "kms") in
  hmac_sha256 k_service (bytes_of_string "aws4_request").

(** The headers that are signed, in their order. *)
Definition signed_header_list (target amz_date : string) : list (string * string) :=
  sort_headers ([("content-type", CONTENT_TYPE); ("host", host c); ("x-amz-date", amz_date); ("x-amz-target", target)]%string ++
                [("x-amz-security-token", session_token (creds c))]%string).

Definition canonical_headers (headers : list (string * string)) : string :=
  concat_strings (map (fun h => h.1 +:+ ":" +:+ trim h.2 +:+ String.String LF EmptyString) headers).
Definition signed_headers (headers : list (string * string)) : string := join ";" (map fst headers).

Definition line (l : string) : string := l +:+ String.String LF EmptyString.

Definition canonical_request (headers : list (string * string)) (body : string) : string :=
  line "POST" +:+ line "/" +:+ line "" +:+ line (canonical_headers headers) +:+ line (signed_headers headers) +:+
  hex (sha256 (bytes_of_string body)).

Definition credential_scope (date_stamp : string) : string := date_stamp +:+ "/" +:+ region c +:+ "/kms/aws4_request".

Definition string_to_sign (amz_date date_stamp : string) (headers : list (string * string)) (body : string) : string :=
  line "AWS4-HMAC-SHA256" +:+ line amz_date +:+ line (credential_scope date_stamp) +:+
  hex (sha256 (bytes_of_string (canonical_request headers body))).

Definition auth_header (amz_date date_stamp : string) (headers : list (string * string)) (body : string) : string :=
  let signature := hex (hmac_sha256 (get_signature_key date_stamp)
                         (bytes_of_string (string_to_sign amz_date date_stamp headers body))) in
  "AWS4-HMAC-SHA256 Credential=" +:+ access_key_id (creds c) +:+ "/" +:+ credential_scope date_stamp +:+
  ", SignedHeaders=" +:+ signed_headers headers +:+ ", Signature=" +:+ signature.

Definition build_signed_request (now : string * string) (target body : string) : outcome string string :=
  let '(amz_date, date_stamp) := now in
  _ ← assert_header_safe "host" (host c);
  _ ← assert_header_safe "x-amz-date" amz_date;
  _ ← assert_header_safe "x-amz-security-token" (session_token (creds c));
  _ ← assert_header_safe "access_key_id" (access_key_id (creds c));
  _ ← assert_header_safe "secret_access_key" (secret_access_key (creds c));
  let headers := signed_header_list target amz_date in
  let req := "POST / HTTP/1.1" +:+ CRLF in
  let req := req +:+ ("Content-Length: " +:+ str (Z.of_nat (String.length body)) +:+ CRLF) in
  let req := foldl (fun req h => req +:+ (h.1 +:+ ": " +:+ h.2 +:+ CRLF)) req headers in
  let req := req +:+ ("Authorization: " +:+ auth_header amz_date date_stamp headers body +:+ CRLF) in
  let req := req +:+ ("Connection: close" +:+ CRLF) in
  let req := req +:+ CRLF in
  Ok (req +:+ body).

Definition split_http (resp : string) : string * string :=
  default (resp, EmptyString) (find (CRLF +:+ CRLF) resp).

Definition parse_status_code (headers : string) : outcome string Z :=
  match
    line ← first_line headers;
    let rest := (word (trim_start line)).2 in
    let code := (word (trim_start rest)).1 in
    if decide (code = EmptyString) then None else parse_u16 code
  with
  | Some status => Ok status
  | None => Err "Failed to parse HTTP status code"
  end.

(** What is made of a whole response. *)
Definition read_response (resp_str : string) : outcome string Value :=
  if decide (KMS_MAX_RESPONSE_BYTES < Z.of_nat (String.length resp_str)) then
    Err ("KMS response exceeded " +:+ str KMS_MAX_RESPONSE_BYTES +:+ "-byte cap")
  else
    let '(status_line, body_part) := split_http resp_str in
    status_code ← parse_status_code status_line;
    if decide (status_code < 200 \/ 300 <= status_code) then Err ("KMS returned HTTP " +:+ str status_code +:+ ": " +:+ body_part)
    else
      parsed ← value_from_str body_part;
      match value_get parsed "__type" with
      | Some err => Err ("KMS API Error " +:+ value_to_string err +:+ ": " +:+ body_part)
      | None => Ok parsed
      end.

Definition call_kms (target body : string) : io Value :=
  now ← do Now;
  http_req ← of_outcome (build_signed_request now target body);
  _ ← ask (Connect (host c));
  _ ← ask (WriteAll http_req);
  _ ← ask Flush;
  resp_str ← context "Failed to read KMS response: " (ask (ReadToString (KMS_MAX_RESPONSE_BYTES + 1)));
  of_outcome (read_response resp_str).

Definition plaintext (resp : Value) : outcome string (list Z) :=
  match value_get resp "Plaintext" ≫= value_as_str with
  | None => Err "Response missing Plaintext field"
  | Some b64_str => map_err (fun e => "Failed to decode Plaintext: " +:+ e) (base64_decode b64_str)
  end.

Definition generate_random : io (list Z) :=
  resp ← call_kms TARGET_GENERATE_RANDOM random_request;
  of_outcome (plaintext resp).
End Client.

(** ** A reader of requests *)

Record Request : Type := {
  start_line : string;
  request_headers : list (string * string);
  request_body : string }.

(** Lines end with CRLF. *)
Fixpoint lines_of (fuel : nat) (s : string) : list string :=
  match fuel, find CRLF s with
  | S fuel, Some (l, rest) => l :: lines_of fuel rest
  | _, _ => [s]
  end.

(** The head ends at the first empty line; a header is its name, a colon and a
    space, and its value. *)
Definition parse_request (s : string) : option Request :=
  '(head, body) ← find (CRLF +:+ CRLF) s;
  match lines_of (String.length head) head with
  | [] => None
  | start :: ls =>
      headers ← mapM (find ": ") ls;
      Some {| start_line := start; request_headers := headers; request_body := body |}
  end.

(** ** Lemmas on strings *)

Lemma any_byte_app p a b : any_byte p (a +:+ b) = any_byte p a || any_byte p b.
Proof.
  induction a as [|x a IH]; [done|]. change (p x || any_byte p (a +:+ b) = (p x || any_byte p a) || any_byte p b).
  by rewrite IH, orb_assoc.
Qed.

(** No carriage return. *)
Definition is_cr (c : Ascii.ascii) : bool := bool_decide (c = CR).
Abbreviation clean s := (any_byte is_cr s = false).

Lemma clean_app a b : clean (a +:+ b) <-> clean a /\ clean b.
Proof. by rewrite any_byte_app, orb_false_iff. Qed.

Lemma safe_clean s : any_byte unsafe_byte s = false -> clean s.
Proof.
  induction s as [|x s IH]; [done|]. cbn. rewrite !orb_false_iff. intros [Hx Hs]. split; [|auto].
  unfold unsafe_byte in Hx. rewrite !orb_false_iff in Hx. by destruct Hx as [[? _] _].
Qed.

Lemma find_skip n needle x s : x <> n -> find (String.String n needle) (String.String x s) =
  prod_map (String.String x) id <$> find (String.String n needle) s.
Proof. intros Hx. cbn [find strip]. by rewrite decide_False by congruence. Qed.

Lemma find_over n needle l s : any_byte (fun x => bool_decide (x = n)) l = false ->
  find (String.String n needle) (l +:+ s) = prod_map (String.append l) id <$> find (String.String n needle) s.
Proof.
  induction l as [|x l IH]; intros Hl; cbn [any_byte] in Hl.
  - change (EmptyString +:+ s) with s. destruct (find _ s) as [[??]|]; done.
  - apply orb_false_iff in Hl as [Hx Hl]. apply bool_decide_eq_false in Hx.
    change (String.String x l +:+ s) with (String.String x (l +:+ s)). rewrite find_skip, IH by done.
    by destruct (find _ s) as [[??]|].
Qed.

Lemma strip_app needle s : strip needle (needle +:+ s) = Some s.
Proof.
  induction needle as [|x needle IH]; [by destruct s|].
  change (strip (String.String x needle) (String.String x (needle +:+ s)) = Some s). cbn [strip]. by rewrite decide_True.
Qed.

Lemma find_here n needle s : find (String.String n needle) (String.String n needle +:+ s) = Some (EmptyString, s).
Proof.
  change (String.String n needle +:+ s) with (String.String n (needle +:+ s)). cbn [find strip].
  rewrite decide_True by done. by rewrite strip_app.
Qed.

Lemma find_line l s : clean l -> find CRLF (l +:+ CRLF +:+ s) = Some (l, s).
Proof.
  intros Hl. unfold CRLF at 1. rewrite find_over by done. fold CRLF.
  change (find CRLF (CRLF +:+ s)) with (find (String.String CR (String.String LF EmptyString)) (String.String CR (String.String LF EmptyString) +:+ s)).
  rewrite find_here. cbn. by rewrite append_nil_r.
Qed.

(** The lines of a head, each with its end. *)
Definition ended (l : string) : string := l +:+ CRLF.

Lemma concat_strings_app a b : concat_strings (a ++ b) = concat_strings a +:+ concat_strings b.
Proof. induction a as [|x a IH]; [done|]. cbn [concat_strings foldr app] in *. unfold concat_strings in *. cbn. by rewrite IH, app_assoc_s. Qed.

Lemma foldl_append {A} (f : A -> string) l s : foldl (fun s x => s +:+ f x) s l = s +:+ concat_strings (map f l).
Proof.
  revert s. induction l as [|x l IH]; intros s; cbn [foldl map]; [by rewrite append_nil_r|].
  rewrite IH, app_assoc_s. done.
Qed.

Definition is_line (l : string) : Prop := clean l /\ l <> EmptyString.

Lemma find_two l s : is_line l -> find (CRLF +:+ CRLF) (l +:+ s) = prod_map (String.append l) id <$> find (CRLF +:+ CRLF) s.
Proof. intros [Hl _]. by apply find_over. Qed.

Lemma find_two_crlf l s : is_line l ->
  find (CRLF +:+ CRLF) (CRLF +:+ l +:+ s) = prod_map (String.append CRLF) id <$> find (CRLF +:+ CRLF) (l +:+ s).
Proof.
  intros [Hl Hne]. destruct l as [|x l]; [done|]. cbn [any_byte] in Hl. apply orb_false_iff in Hl as [Hx _].
  apply bool_decide_eq_false in Hx.
  change (CRLF +:+ String.String x l +:+ s) with (String.String CR (String.String LF (String.String x (l +:+ s)))).
  change (String.String x l +:+ s) with (String.String x (l +:+ s)). set (rest := String.String x (l +:+ s)).
  assert (E : strip (CRLF +:+ CRLF) (String.String CR (String.String LF rest)) = None).
  { unfold rest. cbn [strip CRLF]. change (CRLF +:+ CRLF) with (String.String CR (String.String LF CRLF)).
    cbn [strip]. rewrite !decide_True by done. unfold CRLF. cbn [strip]. by rewrite decide_False by congruence. }
  change (find (CRLF +:+ CRLF) (String.String CR (String.String LF rest))) with
    (match strip (CRLF +:+ CRLF) (String.String CR (String.String LF rest)) with
     | Some rest => Some (EmptyString, rest)
     | None => prod_map (String.String CR) id <$> find (CRLF +:+ CRLF) (String.String LF rest) end).
  rewrite E. change (CRLF +:+ CRLF) with (String.String CR (String.String LF CRLF)). rewrite find_skip by done.
  by destruct (find _ rest) as [[??]|].
Qed.

Lemma find_head ls body : ls <> [] -> Forall is_line ls ->
  find (CRLF +:+ CRLF) (concat_strings (map ended ls) +:+ CRLF +:+ body) = Some (join CRLF ls, body).
Proof.
  intros Hne Hls. induction Hls as [|l ls Hl Hls IH]; [done|]. clear Hne.
  change (concat_strings (map ended (l :: ls))) with (ended l +:+ concat_strings (map ended ls)). unfold ended at 1.
  rewrite !app_assoc_s, find_two by done. destruct ls as [|l' ls].
  - change (concat_strings (map ended [])) with EmptyString. change (EmptyString +:+ CRLF +:+ body) with (CRLF +:+ body).
    rewrite <- (app_assoc_s CRLF CRLF body).
    change (find (CRLF +:+ CRLF) ((CRLF +:+ CRLF) +:+ body)) with
      (find (String.String CR (String.String LF CRLF)) (String.String CR (String.String LF CRLF) +:+ body)).
    rewrite find_here. cbn. by rewrite append_nil_r.
  - pose proof Hls as Hls'. apply Forall_cons in Hls' as [Hl' _]. specialize (IH ltac:(done)).
    change (concat_strings (map ended (l' :: ls))) with (ended l' +:+ concat_strings (map ended ls)) in IH |- *.
    unfold ended in IH at 1. unfold ended at 1. rewrite !app_assoc_s in IH |- *. rewrite find_two_crlf by done. rewrite IH. done.
Qed.

Lemma lines_of_join ls : ls <> [] -> Forall (fun l => clean l) ls -> forall fuel, (length ls <= S fuel)%nat ->
  lines_of fuel (join CRLF ls) = ls.
Proof.
  intros Hne Hls. induction Hls as [|l ls Hl Hls IH]; [done|]. clear Hne. intros fuel Hf. destruct ls as [|l' ls].
  - assert (E : find CRLF l = None).
    { clear -Hl. induction l as [|x l IH]; [done|]. cbn [any_byte] in Hl. apply orb_false_iff in Hl as [Hx Hl].
      apply bool_decide_eq_false in Hx. unfold CRLF. rewrite find_skip by done. fold CRLF. by rewrite IH. }
    destruct fuel; cbn [lines_of join]; [done|]. by rewrite E.
  - cbn [length] in Hf. destruct fuel as [|fuel]; [lia|].
    change (join CRLF (l :: l' :: ls)) with (l +:+ CRLF +:+ join CRLF (l' :: ls)). cbn [lines_of].
    rewrite find_line by done. f_equal. apply IH; [done|cbn [length]; lia].
Qed.

Lemma find_header k v : any_byte (fun x => bool_decide (x = Ascii.ascii_of_nat 58)) k = false ->
  find ": " (k +:+ ": " +:+ v) = Some (k, v).
Proof.
  intros Hk. change ": "%string with (String.String (Ascii.ascii_of_nat 58) (String.String (Ascii.ascii_of_nat 32) EmptyString)).
  rewrite find_over by done. rewrite find_here. cbn. by rewrite append_nil_r.
Qed.

Lemma clean_pretty_N_go x : forall s, clean s -> clean (pretty_N_go x s).
Proof.
  induction (N.lt_wf_0 x) as [x _ IH]; intros s Hs. destruct (decide (0 < x)%N) as [Hx|Hx].
  - rewrite pretty_N_go_step by done. apply IH; [by apply N.div_lt|]. cbn [any_byte]. rewrite Hs, orb_false_r.
    unfold pretty_N_char. by repeat case_match.
  - assert (x = 0%N) as -> by lia. by rewrite pretty_N_go_0.
Qed.

Lemma clean_str n : 0 <= n -> clean (str n).
Proof.
  intros Hn. destruct n as [|p|p]; [done| |lia]. change (clean (pretty (N.pos p))). unfold pretty, pretty_N.
  rewrite decide_False by done. by apply clean_pretty_N_go.
Qed.

Lemma clean_hex bs : Forall is_byte bs -> clean (hex bs).
Proof.
  assert (Hd : forall n, 0 <= n < 16 -> is_cr (hex_digit n) = false).
  { apply (hex_digit_all (fun c => is_cr c = false)). by repeat constructor. }
  unfold hex. induction 1 as [|b bs [H1 H2] _ IH]; [done|]. cbn [hex_digits any_byte].
  rewrite !Hd; [done|apply Z.mod_pos_bound; lia|]. split; [apply Z.div_pos; lia|apply Z.div_lt_upper_bound; lia].
Qed.

(** ** One request *)

(** HMAC yields bytes. *)
Class KmsCryptoLaws `{KmsCrypto} : Prop := { hmac_bytes : forall k m, Forall is_byte (hmac_sha256 k m) }.

Section Sent.
Context `{KmsCrypto, !KmsCryptoLaws, KmsJson} (c : KmsClient).

(** The request that is meant. *)
Definition meant (now : string * string) (target body : string) : Request := {|
  start_line := "POST / HTTP/1.1";
  request_headers :=
    ("Content-Length", str (Z.of_nat (String.length body)))%string :: signed_header_list c target now.1 ++
    [("Authorization", auth_header c now.1 now.2 (signed_header_list c target now.1) body); ("Connection", "close")]%string;
  request_body := body |}.

(** What the host and the credentials contribute. *)
Definition supplied (now : string * string) : list string :=
  [host c; now.1; session_token (creds c); access_key_id (creds c); secret_access_key (creds c)].

Definition header_line (h : string * string) : string := h.1 +:+ ": " +:+ h.2.

Lemma build_lines now target body req : build_signed_request c now target body = Ok req ->
  Forall (fun v => any_byte unsafe_byte v = false) (supplied now) /\
  req = concat_strings (map ended (start_line (meant now target body) :: map header_line (request_headers (meant now target body))))
        +:+ CRLF +:+ body.
Proof.
  destruct now as [amz_date date_stamp]. unfold build_signed_request, assert_header_safe, supplied. cbn [fst snd].
  destruct (any_byte unsafe_byte (host c)) eqn:E1; [done|]. destruct (any_byte unsafe_byte amz_date) eqn:E2; [done|].
  destruct (any_byte unsafe_byte (session_token (creds c))) eqn:E3; [done|].
  destruct (any_byte unsafe_byte (access_key_id (creds c))) eqn:E4; [done|].
  destruct (any_byte unsafe_byte (secret_access_key (creds c))) eqn:E5; [done|].
  intros E. apply Ok_inj in E as <-. split; [repeat (apply Forall_cons; split; [done|]); by apply Forall_nil|].
  rewrite foldl_append. unfold meant. cbn [start_line request_headers fst snd map].
  rewrite map_app, map_app. cbn [map]. set (auth := auth_header _ _ _ _ _). set (hs := signed_header_list _ _ _).
  set (n := str _). rewrite (map_ext (fun h => h.1 +:+ ": " +:+ h.2 +:+ CRLF) (fun h => ended (header_line h))) by
    (intros h; unfold ended, header_line; by rewrite !app_assoc_s). rewrite <- (map_map header_line ended).
  change (concat_strings (ended ?a :: ended ?b :: ?l)) with (ended a +:+ (ended b +:+ concat_strings l)).
  rewrite concat_strings_app. set (middle := concat_strings (map ended (map header_line hs))).
  change (concat_strings [?a; ?b]) with (a +:+ (b +:+ EmptyString)).
  unfold ended, header_line. cbn [fst snd]. by rewrite append_nil_r, !app_assoc_s.
Qed.

(** Texts without a return in the place of the clock's date, the region and the target. *)
Lemma meant_lines now target body : Forall (fun v => any_byte unsafe_byte v = false) (supplied now) ->
  clean now.2 -> clean (region c) -> clean target ->
  Forall is_line (start_line (meant now target body) :: map header_line (request_headers (meant now target body))) /\
  mapM (find ": ") (map header_line (request_headers (meant now target body))) = Some (request_headers (meant now target body)).
Proof.
  intros Hs Hd Hr Ht. unfold supplied in Hs.
  apply Forall_cons in Hs as [S1 Hs]. apply Forall_cons in Hs as [S2 Hs]. apply Forall_cons in Hs as [S3 Hs].
  apply Forall_cons in Hs as [S4 Hs]. apply Forall_cons in Hs as [S5 _].
  apply safe_clean in S1, S2, S3, S4.
  assert (Ha : clean (auth_header c now.1 now.2 (signed_header_list c target now.1) body)).
  { unfold auth_header, credential_scope. cbn zeta. repeat (apply clean_app; split); try done. apply clean_hex, hmac_bytes. }
  assert (Hn : clean (str (Z.of_nat (String.length body)))) by (apply clean_str; lia).
  assert (Hline : forall k v, clean k -> k <> EmptyString -> clean v -> is_line (header_line (k, v))).
  { intros k v Hk Hk0 Hv. split; [unfold header_line; cbn [fst snd]; repeat (apply clean_app; split); done|]. by destruct k. }
  unfold meant. cbn [start_line request_headers map].
  change (signed_header_list c target now.1) with [("content-type", CONTENT_TYPE); ("host", host c); ("x-amz-date", now.1);
    ("x-amz-security-token", session_token (creds c)); ("x-amz-target", target)]%string.
  cbn [app map]. split.
  - repeat (apply Forall_cons; split); try (by apply Hline); try apply Forall_nil; done.
  - unfold header_line. cbn [fst snd mapM]. rewrite !find_header by done. done.
Qed.

Lemma build_parses now target body req : build_signed_request c now target body = Ok req ->
  clean now.2 -> clean (region c) -> clean target -> parse_request req = Some (meant now target body).
Proof.
  intros E Hd Hr Ht. apply build_lines in E as [Hs ->]. destruct (meant_lines now target body Hs Hd Hr Ht) as [Hl Hm].
  unfold parse_request. rewrite find_head by done. cbn [mbind option_bind].
  rewrite lines_of_join; [|done|eapply Forall_impl; [exact Hl|by intros l [? _]]|].
  - by rewrite Hm.
  - clear -Hl. induction Hl as [|l ls [_ Hne] _ IH]; [cbn; lia|]. destruct ls as [|l' ls]; [cbn; lia|].
    change (join CRLF (l :: l' :: ls)) with (l +:+ CRLF +:+ join CRLF (l' :: ls)). rewrite !length_app_s.
    destruct l; [done|]. cbn [String.length] in *. cbn [length] in *. lia.
Qed.
End Sent.

Section Exchange.
Context `{KmsCrypto, !KmsCryptoLaws, KmsJson}.

Lemma read_response_Ok resp v : read_response resp = Ok v -> Z.of_nat (String.length resp) <= KMS_MAX_RESPONSE_BYTES /\
  (exists status, parse_status_code (split_http resp).1 = Ok status /\ 200 <= status < 300) /\
  value_from_str (split_http resp).2 = Ok v /\ value_get v "__type" = None.
Proof.
  unfold read_response. case_decide as Hl; [done|]. destruct (split_http resp) as [head body]. intros E.
  apply bind_Ok in E as (status & Hs & E). case_decide as Hr; [done|]. apply bind_Ok in E as (v' & Hv & E).
  destruct (value_get v' "__type") eqn:Eg; [done|]. apply Ok_inj in E as ->. split; [lia|].
  split; [exists status; split; [done|lia]|done].
Qed.

Lemma build_unsafe c now target body : Exists (fun v => any_byte unsafe_byte v = true) (supplied c now) ->
  exists e, build_signed_request c now target body = Err e.
Proof.
  intros Hx. destruct (build_signed_request c now target body) as [req|e|] eqn:E; [|by eexists|].
  - apply build_lines in E as [Hs _]. exfalso. apply Exists_exists in Hx as (v & Hv & Ev).
    rewrite Forall_forall in Hs. by rewrite Hs in Ev.
  - exfalso. destruct now. unfold build_signed_request, assert_header_safe in E. by repeat case_match.
Qed.

(** Events of different calls differ. *)
Definition kind (e : Interaction.event KmsCall) : nat + string :=
  let '(Ev c _) := e in
  match c with Now => inl 0%nat | Connect _ => inl 1%nat | WriteAll req => inr req | Flush => inl 2%nat | ReadToString _ => inl 3%nat end.

Lemma written (t : list (Interaction.event KmsCall)) req a : Ev (WriteAll req) a ∈ t -> inr req ∈ map kind t.
Proof. exact (list_elem_of_fmap_2 kind t (Ev (WriteAll req) a)). Qed.

#[local] Ltac stops H := destruct H as [-> ->]; split; [cbn; set_solver|done].

(** C16: one request, as meant.  Whatever the parent host supplies as credentials
    and whatever KMS answers, an exchange writes at most one request, and a
    reader of HTTP finds in it exactly the headers that are meant, with the
    supplied texts as the values of their own headers, and the body: nothing
    supplied can end a header, add one or reach the body.  When a supplied text
    holds a return, a line feed or a zero byte nothing is sent at all.  Bytes are
    used only of a complete exchange with the KMS host, whose response is within
    the cap, has a status between 200 and 299, and holds a JSON value without
    [__type] whose [Plaintext] they are. *)
Theorem kms_exchange testnet credentials t r
    (Hclock : forall now, Ev Now now ∈ t -> clean now.2)
    (Hexec : exec (generate_random (new testnet credentials)) t r) :
  let c := new testnet credentials in
  exists now, head t = Some (Ev Now now) /\
    (forall req answer, Ev (WriteAll req) answer ∈ t -> parse_request req = Some (meant c now TARGET_GENERATE_RANDOM random_request)) /\
    (Exists (fun v => any_byte unsafe_byte v = true) (supplied c now) -> t = [Ev Now now] /\ exists e, r = Err e) /\
    (forall bytes, r = Ok bytes -> exists req resp status v,
       t = [Ev Now now; Ev (Connect (KMS_HOST testnet)) (Ok tt); Ev (WriteAll req) (Ok tt); Ev Flush (Ok tt);
            Ev (ReadToString (KMS_MAX_RESPONSE_BYTES + 1)) (Ok resp)] /\
       Z.of_nat (String.length resp) <= KMS_MAX_RESPONSE_BYTES /\
       parse_status_code (split_http resp).1 = Ok status /\ 200 <= status < 300 /\
       value_from_str (split_http resp).2 = Ok v /\ value_get v "__type" = None /\ plaintext v = Ok bytes).
Proof.
  intros c. fold c in Hexec. unfold generate_random, call_kms in Hexec.
  destruct Hexec as (now & t1 & -> & Hexec). exists now. split; [done|].
  assert (Hparse : forall req, build_signed_request c now TARGET_GENERATE_RANDOM random_request = Ok req ->
    parse_request req = Some (meant c now TARGET_GENERATE_RANDOM random_request)).
  { intros req E. apply (build_parses c now _ _ req E); [by apply Hclock; left|by destruct testnet|done]. }
  pose proof (build_unsafe c now TARGET_GENERATE_RANDOM random_request) as Hun.
  change (host c) with (KMS_HOST testnet) in Hexec.
  cbn -[build_signed_request read_response plaintext KMS_HOST KMS_MAX_RESPONSE_BYTES] in Hexec.
  destruct (build_signed_request c now TARGET_GENERATE_RANDOM random_request) as [req|e|] eqn:Eb.
  2-3: destruct Hexec as [-> ->]; split; [by intros req a Hin; apply written in Hin; cbn in Hin; set_solver|];
    split; [intros Hx; destruct (Hun Hx); naive_solver|done].
  specialize (Hparse req eq_refl).
  assert (Hall : (forall req', inr req' ∈ map kind t1 -> req' = req) /\ (forall bytes, r = Ok bytes -> exists resp v,
    t1 = [Ev (Connect (KMS_HOST testnet)) (Ok tt); Ev (WriteAll req) (Ok tt); Ev Flush (Ok tt);
          Ev (ReadToString (KMS_MAX_RESPONSE_BYTES + 1)) (Ok resp)] /\ read_response resp = Ok v /\ plaintext v = Ok bytes)).
  { destruct Hexec as ([[]|e|] & t2 & -> & Hexec); [|stops Hexec..].
    destruct Hexec as ([[]|e|] & t3 & -> & Hexec); [|stops Hexec..].
    destruct Hexec as ([[]|e|] & t4 & -> & Hexec); [|stops Hexec..].
    destruct Hexec as ([resp|e|] & t5 & -> & Hexec); [|stops Hexec..].
    cbn -[read_response plaintext] in Hexec. destruct (read_response resp) as [v|e|] eqn:Er; [|stops Hexec..].
    destruct Hexec as [-> ->]. split; [cbn; set_solver|]. intros bytes Hb. by exists resp, v. }
  destruct Hall as [Hall Hok]. split; [|split].
  - intros req' a Hin. apply written in Hin. cbn [map kind] in Hin. apply elem_of_cons in Hin as [Hin|Hin]; [done|].
    by rewrite (Hall req' Hin).
  - intros Hx. by destruct (Hun Hx).
  - intros bytes E. destruct (Hok bytes E) as (resp & v & -> & Hr & Hp).
    destruct (read_response_Ok resp v Hr) as (Hl & (status & Hs & Hrange) & Hv & Hg). by exists req, resp, status, v.
Qed.
End Exchange.

(** ** An exchange *)
Section Samples.
#[local] Instance sample_crypto : KmsCrypto := {| sha256 _ := [1]; hmac_sha256 _ _ := [2; 171] |}.
#[local] Instance sample_crypto_laws : KmsCryptoLaws.
Proof. constructor. intros k m. repeat (apply Forall_cons; split); try apply Forall_nil; unfold is_byte; lia. Qed.
#[local] Instance sample_json : KmsJson := {|
  Value := string;
  value_from_str s := Ok s;
  value_get v k := if decide (k = "Plaintext"%string) then Some v else None;
  value_as_str v := Some v;
  value_to_string v := v;
  random_request := "{NumberOfBytes:32}";
  base64_decode s := if decide (s = "Bwg="%string) then Ok [7; 8] else Err "invalid" |}.

Definition sample_kms (session_token : string) : KmsClient :=
  new false {| access_key_id := "AKIA"; secret_access_key := "secret"; session_token := session_token |}.
Definition sample_answer (R : Type) (c : KmsCall R) : R :=
  match c in KmsCall R return R with
  | Now => ("20260101T000000Z", "20260101")%string
  | Connect _ | WriteAll _ | Flush => Ok tt
  | ReadToString _ => Ok ("HTTP/1.1 200 OK" +:+ CRLF +:+ "Date: today" +:+ CRLF +:+ CRLF +:+ "Bwg=")
  end.
Definition sample_session (session_token : string) :=
  run (constantly sample_answer) (generate_random (sample_kms session_token)) tt.

Example status_sample : parse_status_code ("HTTP/1.1 200 OK" +:+ CRLF +:+ "Date: x") = Ok 200.
Proof. reflexivity. Qed.
Example request_sample : exists req, build_signed_request (sample_kms "tok") ("20260101T000000Z", "20260101")%string "t" "b" = Ok req /\
  parse_request req = Some (meant (sample_kms "tok") ("20260101T000000Z", "20260101")%string "t" "b").
Proof. eexists. split; vm_compute; reflexivity. Qed.

(** A token that ends its header and adds one: nothing is sent. *)
Lemma kms_exchange_witness :
  (sample_session "tok").1.1 = Ok [7; 8] /\
  (exists req, Ev (WriteAll req) (Ok tt) ∈ (sample_session "tok").1.2 /\
     parse_request req = Some (meant (sample_kms "tok") ("20260101T000000Z", "20260101")%string TARGET_GENERATE_RANDOM random_request)) /\
  (sample_session ("x" +:+ CRLF +:+ "x-amz-target: TrentService.Decrypt")).1.2 = [Ev Now ("20260101T000000Z", "20260101")%string].
Proof.
  assert (Hclock : forall token now, Ev Now now ∈ (sample_session token).1.2 -> any_byte is_cr now.2 = false).
  { intros token now Hin. pose proof (run_answered sample_answer (generate_random (sample_kms token)) tt) as Ha.
    rewrite Forall_forall in Ha. specialize (Ha _ Hin). cbn in Ha. by rewrite Ha. }
  assert (E1 : (sample_session "tok").1.1 = Ok [7; 8]) by (vm_compute; reflexivity). split; [exact E1|]. split.
  - destruct (kms_exchange false (creds (sample_kms "tok")) (sample_session "tok").1.2 (sample_session "tok").1.1 (Hclock "tok"%string)
      (run_sound _ _ _)) as (now & Hn & Hw & _ & Hok).
    destruct (Hok _ E1) as (req & resp & status & v & Et & _).
    assert (Hin : Ev (WriteAll req) (Ok tt) ∈ (sample_session "tok").1.2) by (rewrite Et; do 2 apply list_elem_of_further; apply list_elem_of_here).
    exists req. split; [exact Hin|]. rewrite (Hw _ _ Hin).
    pose proof (run_answered sample_answer (generate_random (sample_kms "tok")) tt) as Ha.
    change (run (constantly sample_answer) (generate_random (sample_kms "tok")) tt) with (sample_session "tok") in Ha.
    rewrite Et in Ha. apply Forall_cons in Ha as [Ha _]. cbn in Ha. by rewrite Ha.
  - set (token := "x" +:+ CRLF +:+ "x-amz-target: TrentService.Decrypt").
    destruct (kms_exchange false (creds (sample_kms token)) (sample_session token).1.2 (sample_session token).1.1 (Hclock token)
      (run_sound _ _ _)) as (now & _ & _ & Hx & _).
    destruct Hx as [Et _]; [by apply Exists_cons; right; apply Exists_cons; right; apply Exists_cons; left|].
    pose proof (run_answered sample_answer (generate_random (sample_kms token)) tt) as Ha.
    change (run (constantly sample_answer) (generate_random (sample_kms token)) tt) with (sample_session token) in Ha.
    rewrite Et in Ha |- *. apply Forall_cons in Ha as [Ha _]. cbn in Ha. by rewrite Ha.
Defined.
End Samples.
