(* ===== verification/Genesis.v ===== *)
(** * The generated genesis ([crates/primitives/build.rs])

    Before the crate is compiled, a build script fetches the genesis file of each
    network, builds alloy's [Genesis] from it, checks the identity of mainnet's,
    and writes a Rust source file with the genesis, its header and the chain
    specification, beside one binary file per contract.  Texts are strings of
    bytes; JSON, the literals of alloy and reth's header of a genesis are
    parameters.  Of alloy's structures the fields the script sets are kept: the
    others are the default on both sides. *)
From Stdlib Require Import Ascii.
From stdpp Require Import strings pretty.
From S2P Require Import Prelude BytesCodec Text.
#[local] Open Scope Z_scope.

Definition QUOTE : string := String.String (Ascii.ascii_of_nat 34) EmptyString.
Definition NL : string := String.String (Ascii.ascii_of_nat 10) EmptyString.

Definition FLUENT_TESTNET_CHAIN_ID : Z := 0x5202.
Definition FLUENT_MAINNET_CHAIN_ID : Z := 25363.

(** ** Network definitions *)

(** reth's condition. *)
Inductive ForkCondition : Type :=
  | Block (block : Z)
  | TTD (activation_block_number : Z) (fork_block : option Z) (total_difficulty : Z)
  | Timestamp (time : Z)
  | Never.

Record NetworkDef : Type := {
  feature : string;
  tag : string;
  channel : option string;
  osaka_fork : ForkCondition;
  def_chain_id : Z }.

Definition network_defs : list NetworkDef := [
  {| feature := "mainnet"; tag := "v1.0.0"; channel := Some "mainnet"%string;
     osaka_fork := Timestamp 0; def_chain_id := FLUENT_MAINNET_CHAIN_ID |};
  {| feature := "testnet"; tag := "v0.3.4-dev"; channel := None;
     osaka_fork := Block 21300000; def_chain_id := FLUENT_TESTNET_CHAIN_ID |}].

(** The URL and the name of a network's file. *)
Definition genesis_urls (tag : string) (channel : option string) : string * string :=
  let base := "https://github.com/fluentlabs-xyz/fluentbase/releases/download/" +:+ tag in
  let gz_name := match channel with
                 | Some channel => "genesis-" +:+ channel +:+ "-" +:+ tag +:+ ".json.gz"
                 | None => "genesis-" +:+ tag +:+ ".json.gz"
                 end in
  (base +:+ "/" +:+ gz_name, gz_name).

(** A hardfork by its name. *)
Definition Hardforks : Type := list (string * ForkCondition).

Definition fluent_default_chain_hardforks (osaka_fork : ForkCondition) : Hardforks := [
  ("Frontier", Block 0); ("Homestead", Block 0); ("Dao", Block 0); ("Tangerine", Block 0);
  ("SpuriousDragon", Block 0); ("Byzantium", Block 0); ("Constantinople", Block 0);
  ("Petersburg", Block 0); ("Istanbul", Block 0); ("Berlin", Block 0); ("London", Block 0);
  ("Paris", TTD 0 None 0);
  ("Shanghai", Timestamp 0); ("Cancun", Timestamp 0); ("Prague", Timestamp 0);
  ("Osaka", osaka_fork)]%string.

(** ** alloy's structures *)

(** [storage] and [private_key] are [None] wherever an account is built. *)
Record GenesisAccount : Type := {
  balance : Z;
  acc_nonce : option Z;
  code : option (list Z) }.

Record ChainConfig : Type := {
  chain_id : Z;
  homestead_block : option Z;
  dao_fork_block : option Z;
  dao_fork_support : bool;
  eip150_block : option Z;
  eip155_block : option Z;
  eip158_block : option Z;
  byzantium_block : option Z;
  constantinople_block : option Z;
  petersburg_block : option Z;
  istanbul_block : option Z;
  muir_glacier_block : option Z;
  berlin_block : option Z;
  london_block : option Z;
  arrow_glacier_block : option Z;
  gray_glacier_block : option Z;
  merge_netsplit_block : option Z;
  shanghai_time : option Z;
  cancun_time : option Z;
  prague_time : option Z;
  osaka_time : option Z;
  terminal_total_difficulty_passed : bool }.

Record Genesis : Type := {
  config : ChainConfig;
  nonce : Z;
  timestamp : Z;
  gas_limit : Z;
  number : option Z;
  difficulty : Z;
  mix_hash : list Z;
  coinbase : list Z;
  extra_data : list Z;
  alloc : gmap (list Z) GenesisAccount }.

Record Header : Type := {
  parent_hash : list Z;
  ommers_hash : list Z;
  beneficiary : list Z;
  state_root : list Z;
  transactions_root : list Z;
  receipts_root : list Z;
  logs_bloom : list Z;
  h_difficulty : Z;
  h_number : Z;
  h_gas_limit : Z;
  gas_used : Z;
  h_timestamp : Z;
  h_extra_data : list Z;
  h_mix_hash : list Z;
  h_nonce : list Z;
  base_fee_per_gas : option Z;
  withdrawals_root : option (list Z);
  blob_gas_used : option Z;
  excess_blob_gas : option Z;
  parent_beacon_block_root : option (list Z);
  requests_hash : option (list Z);
  block_access_list_hash : option (list Z);
  slot_number : option Z }.

(** gzip, serde_json ([index] of a missing key is a null), the readers of alloy's
    literals and what reth makes of a genesis. *)
Class GenesisLibs : Type := {
  Value : Type;
  gunzip_json : list Z -> option Value;
  index : Value -> string -> Value;
  as_str : Value -> option string;
  as_u64 : Value -> option Z;
  as_bool : Value -> option bool;
  as_object : Value -> option (list (string * Value));
  u256_from_str : string -> option Z;
  bytes_from_str : string -> option (list Z);
  address_from_str : string -> option (list Z);
  b256_from_str : string -> option (list Z);
  make_genesis_header : Genesis -> Hardforks -> Header;
  seal_hash : Header -> list Z }.

(** ** Formatting helpers *)

(** [write_if_changed] and [write_bin_if_changed]. *)
Definition write_if_changed {C} `{EqDecision C} (path : string) (content : C) (files : gmap string C) : gmap string C :=
  if decide (files !! path = Some content) then files else <[path := content]> files.

Definition fmt_b256 (val : list Z) : string := "b256!(" +:+ QUOTE +:+ hex_digits val +:+ QUOTE +:+ ")".

Definition fmt_opt_b256 (val : option (list Z)) : string :=
  match val with Some v => "Some(" +:+ fmt_b256 v +:+ ")" | None => "None" end.

Definition fmt_opt_u64 (val : option Z) : string :=
  match val with Some v => "Some(" +:+ pretty v +:+ "u64)" | None => "None" end.

Definition fmt_byte_list (bytes : list Z) : string := String.concat "," (map pretty bytes).

Definition fmt_u256 (val : Z) : string :=
  if val =? 0 then "U256::ZERO" else "U256::from_be_bytes([" +:+ fmt_byte_list (be_encode 32 val) +:+ "])".

Definition fmt_bloom (bloom : list Z) : string :=
  if forallb (Z.eqb 0) bloom then "Bloom::ZERO" else "Bloom::new([" +:+ fmt_byte_list bloom +:+ "])".

Definition fmt_bytes (bytes : list Z) : string :=
  match bytes with
  | [] => "Bytes::default()"
  | _ => "Bytes::from_static(&[" +:+ fmt_byte_list bytes +:+ "])"
  end.

(** [s.trim_start_matches("0x")]: as often as it is there. *)
Fixpoint trim_0x (s : string) : string :=
  match s with
  | String.String a (String.String b s') => if Ascii.eqb a "0" && Ascii.eqb b "x" then trim_0x s' else s
  | _ => s
  end.

Definition hex_value (c : Ascii.ascii) : option Z :=
  let n := Z.of_nat (Ascii.nat_of_ascii c) in
  if (48 <=? n) && (n <=? 57) then Some (n - 48)
  else if (97 <=? n) && (n <=? 102) then Some (n - 87)
  else if (65 <=? n) && (n <=? 70) then Some (n - 55)
  else None.

Fixpoint hex_number (acc : Z) (s : string) : option Z :=
  match s with
  | EmptyString => Some acc
  | String.String c s' => v ← hex_value c; if u64_max <? 16 * acc + v then None else hex_number (16 * acc + v) s'
  end.

(** [u64::from_str_radix(s, 16)]. *)
Definition u64_from_hex (s : string) : option Z :=
  match s with
  | EmptyString => None
  | String.String c EmptyString => hex_number 0 s
  | String.String c s' => if Ascii.eqb c "+" then hex_number 0 s' else hex_number 0 s
  end.

(** [format!("{:0>width$}", s)]. *)
Definition pad_zeros (width : nat) (s : string) : string :=
  String.concat "" (repeat "0"%string (width - String.length s)) +:+ s.

Definition canonical_addr (raw : string) : string := pad_zeros 40 (to_ascii_lowercase (trim_0x raw)).

Section Build.
Context `{GenesisLibs}.

Definition parse_json_u64 (val : Value) : Z :=
  match as_u64 val with
  | Some num => num
  | None => match as_str val with
            | Some s => default 0 (u64_from_hex (trim_0x s))
            | None => 0
            end
  end.

(** ** The genesis object *)

Definition str_or (val : Value) (d : string) : string := default d (as_str val).

Definition code_of (account : Value) : option (list Z) :=
  c ← as_str (index account "code");
  match default [] (bytes_from_str c) with [] => None | b => Some b end.

Definition nonce_of (account : Value) : option Z :=
  let nonce_val := parse_json_u64 (index account "nonce") in if 0 <? nonce_val then Some nonce_val else None.

Definition balance_of (account : Value) : Z := default 0 (u256_from_str (str_or (index account "balance") "0x0")).

Definition genesis_account (account : Value) : GenesisAccount :=
  {| balance := balance_of account; acc_nonce := nonce_of account; code := code_of account |}.

(** An address that does not parse panics. *)
Fixpoint build_alloc (alloc_obj : list (string * Value)) (alloc : gmap (list Z) GenesisAccount) : outcome Empty_set (gmap (list Z) GenesisAccount) :=
  match alloc_obj with
  | [] => Ok alloc
  | (addr, account) :: alloc_obj =>
      address ← unwrap (address_from_str (canonical_addr addr));
      build_alloc alloc_obj (<[address := genesis_account account]> alloc)
  end.

Definition build_config (cfg : Value) (id : Z) : ChainConfig := {|
  chain_id := id;
  homestead_block := as_u64 (index cfg "homesteadBlock");
  dao_fork_block := as_u64 (index cfg "daoForkBlock");
  dao_fork_support := default false (as_bool (index cfg "daoForkSupport"));
  eip150_block := as_u64 (index cfg "eip150Block");
  eip155_block := as_u64 (index cfg "eip155Block");
  eip158_block := as_u64 (index cfg "eip158Block");
  byzantium_block := as_u64 (index cfg "byzantiumBlock");
  constantinople_block := as_u64 (index cfg "constantinopleBlock");
  petersburg_block := as_u64 (index cfg "petersburgBlock");
  istanbul_block := as_u64 (index cfg "istanbulBlock");
  muir_glacier_block := as_u64 (index cfg "muirGlacierBlock");
  berlin_block := as_u64 (index cfg "berlinBlock");
  london_block := as_u64 (index cfg "londonBlock");
  arrow_glacier_block := as_u64 (index cfg "arrowGlacierBlock");
  gray_glacier_block := as_u64 (index cfg "grayGlacierBlock");
  merge_netsplit_block := as_u64 (index cfg "mergeNetsplitBlock");
  shanghai_time := as_u64 (index cfg "shanghaiTime");
  cancun_time := as_u64 (index cfg "cancunTime");
  prague_time := as_u64 (index cfg "pragueTime");
  osaka_time := match as_u64 (index cfg "osakaTime") with Some t => Some t | None => Some 999999999999 end;
  terminal_total_difficulty_passed := default false (as_bool (index cfg "terminalTotalDifficultyPassed")) |}.

Definition build_genesis_object (json : Value) (id : Z) : outcome Empty_set Genesis :=
  alloc ← build_alloc (default [] (as_object (index json "alloc"))) ∅;
  let mix_hash_str := pad_zeros 64 (trim_0x (str_or (index json "mixHash") "0x0")) in
  let coinbase_str := pad_zeros 40 (trim_0x (str_or (index json "coinbase") "0x0")) in
  mret {|
    config := build_config (index json "config") id;
    nonce := parse_json_u64 (index json "nonce");
    timestamp := parse_json_u64 (index json "timestamp");
    gas_limit := parse_json_u64 (index json "gasLimit");
    number := Some (parse_json_u64 (index json "number"));
    difficulty := default 0 (u256_from_str (str_or (index json "difficulty") "0x0"));
    mix_hash := default (repeat 0 32) (b256_from_str mix_hash_str);
    coinbase := default (repeat 0 20) (address_from_str coinbase_str);
    extra_data := default [] (bytes_from_str (str_or (index json "extraData") "0x"));
    alloc := alloc |}.

(** ** Emitted text *)

(** The line of a field in a structure. *)
Definition field (name value : string) : string := "            " +:+ name +:+ ": " +:+ value +:+ "," +:+ NL.

Definition fmt_u64 (v : Z) : string := pretty v +:+ "u64".
Definition fmt_address (a : list Z) : string := "address!(" +:+ QUOTE +:+ hex_digits a +:+ QUOTE +:+ ")".
Definition fmt_bool (b : bool) : string := if b then "true" else "false".

Definition code_fname (network addr_clean : string) : string := "code_" +:+ network +:+ "_" +:+ addr_clean +:+ ".bin".

(** The text of an account, and the directory with its code. *)
Definition emit_account (network addr_clean : string) (account : Value) (bin_dir : gmap string (list Z)) : string * gmap string (list Z) :=
  let balance_lit := fmt_u256 (default 0 (u256_from_str (str_or (index account "balance") "0x0"))) in
  let nonce_val := parse_json_u64 (index account "nonce") in
  let nonce_lit := if 0 <? nonce_val then "Some(" +:+ pretty nonce_val +:+ "u64)" else "None" in
  let fname := code_fname network addr_clean in
  let '(code_lit, bin_dir) :=
    match as_str (index account "code") with
    | Some code_hex =>
        match default [] (bytes_from_str code_hex) with
        | [] => ("None"%string, bin_dir)
        | bytes =>
            ("Some(Bytes::from_static(include_bytes!(concat!(env!(" +:+ QUOTE +:+ "OUT_DIR" +:+ QUOTE +:+ "), " +:+ QUOTE
               +:+ "/fluent_genesis_bin/" +:+ fname +:+ QUOTE +:+ "))))",
             write_if_changed fname bytes bin_dir)
        end
    | None => ("None"%string, bin_dir)
    end in
  ("(address!(" +:+ QUOTE +:+ addr_clean +:+ QUOTE +:+ "), GenesisAccount { balance: " +:+ balance_lit +:+ ", code: " +:+ code_lit
     +:+ ", nonce: " +:+ nonce_lit +:+ ", storage: None, private_key: None })", bin_dir).

Definition emit_chain_config (cfg : ChainConfig) : string :=
  "        let config = ChainConfig {" +:+ NL +:+
  field "chain_id" (fmt_u64 (chain_id cfg)) +:+
  field "homestead_block" (fmt_opt_u64 (homestead_block cfg)) +:+
  field "dao_fork_block" (fmt_opt_u64 (dao_fork_block cfg)) +:+
  field "dao_fork_support" (fmt_bool (dao_fork_support cfg)) +:+
  field "eip150_block" (fmt_opt_u64 (eip150_block cfg)) +:+
  field "eip155_block" (fmt_opt_u64 (eip155_block cfg)) +:+
  field "eip158_block" (fmt_opt_u64 (eip158_block cfg)) +:+
  field "byzantium_block" (fmt_opt_u64 (byzantium_block cfg)) +:+
  field "constantinople_block" (fmt_opt_u64 (constantinople_block cfg)) +:+
  field "petersburg_block" (fmt_opt_u64 (petersburg_block cfg)) +:+
  field "istanbul_block" (fmt_opt_u64 (istanbul_block cfg)) +:+
  field "muir_glacier_block" (fmt_opt_u64 (muir_glacier_block cfg)) +:+
  field "berlin_block" (fmt_opt_u64 (berlin_block cfg)) +:+
  field "london_block" (fmt_opt_u64 (london_block cfg)) +:+
  field "arrow_glacier_block" (fmt_opt_u64 (arrow_glacier_block cfg)) +:+
  field "gray_glacier_block" (fmt_opt_u64 (gray_glacier_block cfg)) +:+
  field "merge_netsplit_block" (fmt_opt_u64 (merge_netsplit_block cfg)) +:+
  field "shanghai_time" (fmt_opt_u64 (shanghai_time cfg)) +:+
  field "cancun_time" (fmt_opt_u64 (cancun_time cfg)) +:+
  field "prague_time" (fmt_opt_u64 (prague_time cfg)) +:+
  field "osaka_time" (fmt_opt_u64 (osaka_time cfg)) +:+
  field "terminal_total_difficulty_passed" (fmt_bool (terminal_total_difficulty_passed cfg)) +:+
  "            ..Default::default()" +:+ NL +:+ "        };" +:+ NL +:+ NL.

Definition emit_genesis_struct (g : Genesis) : string :=
  "        Genesis {" +:+ NL +:+ "            config," +:+ NL +:+
  field "nonce" (fmt_u64 (nonce g)) +:+
  field "timestamp" (fmt_u64 (timestamp g)) +:+
  field "gas_limit" (fmt_u64 (gas_limit g)) +:+
  field "number" (fmt_opt_u64 (number g)) +:+
  field "difficulty" (fmt_u256 (difficulty g)) +:+
  field "mix_hash" (fmt_b256 (mix_hash g)) +:+
  field "coinbase" (fmt_address (coinbase g)) +:+
  field "extra_data" (fmt_bytes (extra_data g)) +:+
  "            alloc," +:+ NL +:+ "            ..Default::default()" +:+ NL +:+ "        }" +:+ NL.

(** [{:016x}] of a 64-bit integer. *)
Definition fmt_016x (z : Z) : string := hex_digits (be_encode 8 z).

Definition emit_header_fields (h : Header) : string :=
  field "parent_hash" (fmt_b256 (parent_hash h)) +:+
  field "ommers_hash" (fmt_b256 (ommers_hash h)) +:+
  field "beneficiary" (fmt_address (beneficiary h)) +:+
  field "state_root" (fmt_b256 (state_root h)) +:+
  field "transactions_root" (fmt_b256 (transactions_root h)) +:+
  field "receipts_root" (fmt_b256 (receipts_root h)) +:+
  field "logs_bloom" (fmt_bloom (logs_bloom h)) +:+
  field "difficulty" (fmt_u256 (h_difficulty h)) +:+
  field "number" (fmt_u64 (h_number h)) +:+
  field "gas_limit" (fmt_u64 (h_gas_limit h)) +:+
  field "gas_used" (fmt_u64 (gas_used h)) +:+
  field "timestamp" (fmt_u64 (h_timestamp h)) +:+
  field "extra_data" (fmt_bytes (h_extra_data h)) +:+
  field "mix_hash" (fmt_b256 (h_mix_hash h)) +:+
  field "nonce" ("0x" +:+ fmt_016x (be_decode (h_nonce h)) +:+ "u64.into()") +:+
  field "base_fee_per_gas" (fmt_opt_u64 (base_fee_per_gas h)) +:+
  field "withdrawals_root" (fmt_opt_b256 (withdrawals_root h)) +:+
  field "blob_gas_used" (fmt_opt_u64 (blob_gas_used h)) +:+
  field "excess_blob_gas" (fmt_opt_u64 (excess_blob_gas h)) +:+
  field "parent_beacon_block_root" (fmt_opt_b256 (parent_beacon_block_root h)) +:+
  field "requests_hash" (fmt_opt_b256 (requests_hash h)) +:+
  field "block_access_list_hash" "None" +:+
  field "slot_number" "None".

(** [BTreeMap<String, Value>] collected from the entries, iterated in key order. *)
Definition collect_alloc (alloc_obj : list (string * Value)) : gmap string Value :=
  foldl (fun m '(a, v) => <[canonical_addr a := v]> m) ∅ alloc_obj.

Definition string_le (a b : string * Value) : Prop := String.leb a.1 b.1 = true.
#[export] Instance string_le_dec : RelDecision string_le.
Proof. intros a b. unfold string_le. apply _. Defined.

Definition sorted_alloc (m : gmap string Value) : list (string * Value) := merge_sort string_le (map_to_list m).

Fixpoint emit_alloc (network : string) (entries : list (string * Value)) (bin_dir : gmap string (list Z)) : string * gmap string (list Z) :=
  match entries with
  | [] => (EmptyString, bin_dir)
  | (addr_clean, account) :: entries =>
      let '(t, bin_dir) := emit_account network addr_clean account bin_dir in
      let '(ts, bin_dir) := emit_alloc network entries bin_dir in
      (("            " +:+ t +:+ "," +:+ NL) +:+ ts, bin_dir)
  end.

Definition fmt_osaka (osaka_fork : ForkCondition) : string :=
  match osaka_fork with
  | Block b => "ForkCondition::Block(" +:+ pretty b +:+ ")"
  | Timestamp t => "ForkCondition::Timestamp(" +:+ pretty t +:+ ")"
  | _ => "ForkCondition::Block(0)"
  end.

Definition emit_chainspec (osaka_fork : ForkCondition) (id : Z) : string :=
  "    pub fn chainspec() -> ChainSpec {" +:+ NL +:+
  "        let gen = genesis();" +:+ NL +:+
  "        let hardforks = fluent_default_chain_hardforks(" +:+ fmt_osaka osaka_fork +:+ ");" +:+ NL +:+
  "        ChainSpec {" +:+ NL +:+
  "            chain: reth_chainspec::Chain::from(" +:+ pretty id +:+ "u64)," +:+ NL +:+
  "            genesis_header: SealedHeader::new_unhashed(genesis_header())," +:+ NL +:+
  "            genesis: gen," +:+ NL +:+
  "            paris_block_and_final_difficulty: Some((0, U256::ZERO))," +:+ NL +:+
  "            hardforks," +:+ NL +:+
  "            base_fee_params: BaseFeeParamsKind::Constant(BaseFeeParams::ethereum())," +:+ NL +:+
  "            deposit_contract: None," +:+ NL +:+
  "            ..Default::default()" +:+ NL +:+
  "        }" +:+ NL +:+
  "    }" +:+ NL.

Definition cfg_attr (feat : string) : string := "#[cfg(feature = " +:+ QUOTE +:+ feat +:+ QUOTE +:+ ")]".

(** The text around what the emitters above write. *)
Definition alloc_open : string :=
  "    pub fn genesis_alloc() -> [(Address, GenesisAccount); ALLOC_LEN] {" +:+ NL +:+ "        [" +:+ NL.
Definition alloc_close : string := "        ]" +:+ NL +:+ "    }" +:+ NL +:+ NL.
Definition genesis_open : string :=
  "    pub fn genesis() -> Genesis {" +:+ NL +:+
  "        let alloc: BTreeMap<Address, GenesisAccount> = genesis_alloc().into_iter().collect();" +:+ NL +:+ NL.
Definition genesis_close : string := "    }" +:+ NL +:+ NL.
Definition header_open : string := "    pub fn genesis_header() -> Header {" +:+ NL +:+ "        Header {" +:+ NL.
Definition header_close : string := "        }" +:+ NL +:+ "    }" +:+ NL +:+ NL.

Definition emit_network (bin_dir : gmap string (list Z)) (json : Value) (genesis_obj : Genesis) (hardforks : Hardforks) (net_def : NetworkDef)
    : string * gmap string (list Z) :=
  let header := make_genesis_header genesis_obj hardforks in
  let alloc_map := collect_alloc (default [] (as_object (index json "alloc"))) in
  let feat := feature net_def in
  let '(accounts, bin_dir) := emit_alloc feat (sorted_alloc alloc_map) bin_dir in
  (cfg_attr feat +:+ NL +:+
   "mod " +:+ feat +:+ "_genesis {" +:+ NL +:+ "    use super::*;" +:+ NL +:+ NL +:+
   "    pub const ALLOC_LEN: usize = " +:+ pretty (Z.of_nat (size alloc_map)) +:+ ";" +:+ NL +:+ NL +:+
   alloc_open +:+ accounts +:+ alloc_close +:+
   genesis_open +:+ emit_chain_config (config genesis_obj) +:+ emit_genesis_struct genesis_obj +:+ genesis_close +:+
   header_open +:+ emit_header_fields header +:+ header_close +:+
   emit_chainspec (osaka_fork net_def) (chain_id (config genesis_obj)) +:+
   "} // mod " +:+ feat +:+ "_genesis" +:+ NL +:+ NL +:+
   cfg_attr feat +:+ NL +:+
   "pub use " +:+ feat +:+ "_genesis::*;" +:+ NL +:+ NL, bin_dir).

(** The head of the file: imports, and [fluent_default_chain_hardforks] again as text. *)
Definition emit_uses : string :=
  "// @generated — do not edit manually" +:+ NL +:+
  "use alloy_primitives::{address, b256, U256, Bytes, Address, Bloom};" +:+ NL +:+
  "use alloy_genesis::{Genesis, GenesisAccount, ChainConfig};" +:+ NL +:+
  "use reth_primitives_traits::Header;" +:+ NL +:+
  "use reth_chainspec::{ChainSpec, ChainHardforks, EthereumHardfork, ForkCondition, BaseFeeParamsKind, BaseFeeParams, Hardfork};" +:+ NL +:+
  "use reth_primitives_traits::SealedHeader;" +:+ NL +:+
  "use std::collections::BTreeMap;" +:+ NL +:+ NL.

Definition emit_hardforks : string := NL +:+
"pub fn fluent_default_chain_hardforks(osaka_fork: ForkCondition) -> ChainHardforks {
    ChainHardforks::new(vec![
        (EthereumHardfork::Frontier.boxed(), ForkCondition::Block(0)),
        (EthereumHardfork::Homestead.boxed(), ForkCondition::Block(0)),
        (EthereumHardfork::Dao.boxed(), ForkCondition::Block(0)),
        (EthereumHardfork::Tangerine.boxed(), ForkCondition::Block(0)),
        (EthereumHardfork::SpuriousDragon.boxed(), ForkCondition::Block(0)),
        (EthereumHardfork::Byzantium.boxed(), ForkCondition::Block(0)),
        (EthereumHardfork::Constantinople.boxed(), ForkCondition::Block(0)),
        (EthereumHardfork::Petersburg.boxed(), ForkCondition::Block(0)),
        (EthereumHardfork::Istanbul.boxed(), ForkCondition::Block(0)),
        (EthereumHardfork::Berlin.boxed(), ForkCondition::Block(0)),
        (EthereumHardfork::London.boxed(), ForkCondition::Block(0)),
        (
            EthereumHardfork::Paris.boxed(),
            ForkCondition::TTD {
                activation_block_number: 0,
                fork_block: None,
                total_difficulty: U256::ZERO,
            },
        ),
        (EthereumHardfork::Shanghai.boxed(), ForkCondition::Timestamp(0)),
        (EthereumHardfork::Cancun.boxed(), ForkCondition::Timestamp(0)),
        (EthereumHardfork::Prague.boxed(), ForkCondition::Timestamp(0)),
        (EthereumHardfork::Osaka.boxed(), osaka_fork),
    ])
}
".

(** ** [main] *)

Record Build : Type := {
  cache : gmap string (list Z);
  bins : gmap string (list Z);
  referenced_bins : gset string;
  out : string }.

(** A file of the cache is used as it is; a failed download panics. *)
Definition download_and_cache_genesis (fetch : string -> option (list Z)) (tag : string) (channel : option string) (cache : gmap string (list Z))
    : outcome Empty_set (Value * gmap string (list Z)) :=
  let '(gz_url, gz_name) := genesis_urls tag channel in
  cache ← match cache !! gz_name with
          | Some _ => mret cache
          | None => bytes ← unwrap (fetch gz_url); mret (<[gz_name := bytes]> cache)
          end;
  gz_bytes ← unwrap (cache !! gz_name);
  val ← unwrap (gunzip_json gz_bytes);
  mret (val, cache).

Definition MAINNET_TIMESTAMP : Z := 0x69b8194c.
Definition MAINNET_HASH : list Z := be_encode 32 0x7dd092d6e2aba158839db2a264d8049e7518540b342929822aac85f550c18465.

Definition check_mainnet (net : NetworkDef) (genesis_obj : Genesis) (hardforks : Hardforks) : outcome Empty_set unit :=
  if String.eqb (feature net) "mainnet" then
    let header := make_genesis_header genesis_obj hardforks in
    _ ← ensure (h_timestamp header =? MAINNET_TIMESTAMP);
    ensure (bool_decide (seal_hash header = MAINNET_HASH))
  else mret tt.

Definition add_referenced (net : NetworkDef) (alloc_obj : list (string * Value)) (refs : gset string) : gset string :=
  foldl (fun refs '(addr, account) =>
    match code_of account with
    | Some _ => {[ code_fname (feature net) (canonical_addr addr) ]} ∪ refs
    | None => refs
    end) refs alloc_obj.

Definition process_network (fetch : string -> option (list Z)) (b : Build) (net : NetworkDef) : outcome Empty_set Build :=
  '(json, cache) ← download_and_cache_genesis fetch (tag net) (channel net) (cache b);
  genesis_obj ← build_genesis_object json (def_chain_id net);
  let hardforks := fluent_default_chain_hardforks (osaka_fork net) in
  _ ← check_mainnet net genesis_obj hardforks;
  let referenced_bins := add_referenced net (default [] (as_object (index json "alloc"))) (referenced_bins b) in
  let '(text, bins) := emit_network (bins b) json genesis_obj hardforks net in
  mret {| cache := cache; bins := bins; referenced_bins := referenced_bins; out := out b +:+ text |}.

Fixpoint process_networks (fetch : string -> option (list Z)) (b : Build) (networks : list NetworkDef) : outcome Empty_set Build :=
  match networks with
  | [] => Ok b
  | net :: networks => b ← process_network fetch b net; process_networks fetch b networks
  end.

Definition ends_with (suffix s : string) : bool :=
  String.eqb (String.substring (String.length s - String.length suffix) (String.length suffix) s) suffix.

(** The orphans that can be removed go. *)
Definition drop_orphans (removable : string -> bool) (referenced_bins : gset string) (bins : gmap string (list Z)) : gmap string (list Z) :=
  filter (fun '(name, _) => ~ (ends_with ".bin" name = true /\ name ∉ referenced_bins /\ removable name = true)) bins.

(** The script over the cache, the directory of codes and the output directory
    that earlier builds left. *)
Definition main (fetch : string -> option (list Z)) (removable : string -> bool) (gz_files bin_dir : gmap string (list Z)) (out_dir : gmap string string)
    : outcome Empty_set (gmap string (list Z) * gmap string (list Z) * gmap string string) :=
  b ← process_networks fetch
        {| cache := gz_files; bins := bin_dir; referenced_bins := ∅; out := emit_uses +:+ emit_hardforks |} network_defs;
  mret (cache b, drop_orphans removable (referenced_bins b) (bins b),
        write_if_changed "fluent_genesis.rs" (out b) out_dir).
End Build.
