(* ===== verification/GenesisSpec.v ===== *)
(** * What the generated genesis means

    A reader of the Rust text that the build script writes, with the files the
    text includes.  [generated_is_built]: read back, the generated modules hold
    the genesis objects the script built, their headers as reth makes them, and
    the hardforks of the script itself; mainnet's header is the one whose hash
    was checked. *)
From Stdlib Require Import Ascii.
From stdpp Require Import strings pretty.
From S2P Require Import Prelude BytesCodec Text Genesis.
#[local] Open Scope Z_scope.

(** ** Readers *)

Definition Reader (A : Type) : Type := string -> option (A * string).

#[export] Instance Reader_ret : MRet Reader := fun A x s => Some (x, s).
#[export] Instance Reader_bind : MBind Reader := fun A B k r s =>
  match r s with Some (x, s') => k x s' | None => None end.

#[export] Instance Reader_fmap : FMap Reader := fun A B f r s =>
  match r s with Some (x, s') => Some (f x, s') | None => None end.

Definition reject {A} : Reader A := fun _ => None.

Definition guarded (b : bool) : Reader unit := if b then mret tt else reject.

Definition alt {A} (r1 r2 : Reader A) : Reader A := fun s =>
  match r1 s with Some x => Some x | None => r2 s end.

(** A literal piece of text. *)
Fixpoint expect (lit : string) : Reader unit := fun s =>
  match lit, s with
  | EmptyString, _ => Some (tt, s)
  | String.String a lit, String.String b s => if Ascii.eqb a b then expect lit s else None
  | _, EmptyString => None
  end.

Fixpoint read_digits (acc : Z) (s : string) : Z * string :=
  match s with
  | String.String c s' => match decimal_value c with Some v => read_digits (10 * acc + v) s' | None => (acc, s) end
  | EmptyString => (acc, s)
  end.

(** A decimal literal. *)
Definition decimal : Reader Z := fun s =>
  match s with
  | String.String c _ => match decimal_value c with Some _ => Some (read_digits 0 s) | None => None end
  | EmptyString => None
  end.

(** A decimal literal of a type that holds the values below [bound]. *)
Definition number_to (bound : Z) (suffix : string) : Reader Z :=
  n ← decimal; _ ← guarded (n <? bound); _ ← expect suffix; mret n.

Definition lower_hex (c : ascii) : option Z :=
  v ← hex_value c; if Ascii.eqb c (hex_digit v) then Some v else None.

(** As many bytes as the literal's type has. *)
Fixpoint hex_bytes (n : nat) : Reader (list Z) :=
  match n with
  | O => mret []
  | S n => fun s =>
      match s with
      | String.String a (String.String b s) =>
          match lower_hex a, lower_hex b with
          | Some x, Some y => match hex_bytes n s with Some (l, s) => Some (16 * x + y :: l, s) | None => None end
          | _, _ => None
          end
      | _ => None
      end
  end.

(** Bytes up to the closing bracket. *)
Fixpoint byte_list (fuel : nat) : Reader (list Z) :=
  match fuel with
  | O => reject
  | S fuel => b ← number_to 256 ""; alt (_ ← expect "]"; mret [b]) (_ ← expect ","; l ← byte_list fuel; mret (b :: l))
  end.

Definition array (n : nat) : Reader (list Z) := l ← byte_list n; _ ← guarded (length l =? n)%nat; mret l.

Definition opt {A} (r : Reader A) : Reader (option A) :=
  alt (_ ← expect "None"; mret None) (_ ← expect "Some("; x ← r; _ ← expect ")"; mret (Some x)).

Definition u64_lit : Reader Z := number_to (2 ^ 64) "u64".
Definition bool_lit : Reader bool := alt (_ ← expect "true"; mret true) (_ ← expect "false"; mret false).
Definition b256_lit : Reader (list Z) := _ ← expect ("b256!(" +:+ QUOTE); l ← hex_bytes 32; _ ← expect (QUOTE +:+ ")"); mret l.
Definition address_lit : Reader (list Z) := _ ← expect ("address!(" +:+ QUOTE); l ← hex_bytes 20; _ ← expect (QUOTE +:+ ")"); mret l.
Definition u256_lit : Reader Z :=
  alt (_ ← expect "U256::ZERO"; mret 0)
      (_ ← expect "U256::from_be_bytes(["; l ← array 32; _ ← expect ")"; mret (be_decode l)).
Definition bloom_lit : Reader (list Z) :=
  alt (_ ← expect "Bloom::ZERO"; mret (repeat 0 256)) (_ ← expect "Bloom::new(["; l ← array 256; _ ← expect ")"; mret l).
Definition bytes_lit : Reader (list Z) :=
  alt (_ ← expect "Bytes::default()"; mret [])
      (_ ← expect "Bytes::from_static(&["; l ← (fun s => byte_list (String.length s) s); _ ← expect ")"; mret l).
Definition nonce_lit : Reader (list Z) := _ ← expect "0x"; l ← hex_bytes 8; _ ← expect "u64.into()"; mret l.
Definition none_lit {A} : Reader (option A) := _ ← expect "None"; mret None.

(** The field of a structure expression. *)
Definition read_field {A} (name : string) (r : Reader A) : Reader A :=
  _ ← expect ("            " +:+ name +:+ ": "); x ← r; _ ← expect ("," +:+ NL); mret x.

Fixpoint until (stop : ascii) (s : string) : option (string * string) :=
  match s with
  | EmptyString => None
  | String.String c s' =>
      if Ascii.eqb c stop then Some (EmptyString, s)
      else match until stop s' with Some (t, r) => Some (String.String c t, r) | None => None end
  end.

(** [include_bytes!] of a file of the directory. *)
Definition code_lit (bins : gmap string (list Z)) : Reader (list Z) :=
  _ ← expect ("Bytes::from_static(include_bytes!(concat!(env!(" +:+ QUOTE +:+ "OUT_DIR" +:+ QUOTE +:+ "), " +:+ QUOTE +:+ "/fluent_genesis_bin/");
  fname ← (until (ascii_of_nat 34) : Reader string);
  _ ← expect (QUOTE +:+ ")))");
  match bins !! fname with Some b => mret b | None => reject end.

Definition read_account (bins : gmap string (list Z)) : Reader (list Z * GenesisAccount) :=
  _ ← expect "            (";
  address ← address_lit;
  _ ← expect ", GenesisAccount { balance: ";
  balance ← u256_lit;
  _ ← expect ", code: ";
  code ← opt (code_lit bins);
  _ ← expect ", nonce: ";
  nonce ← opt u64_lit;
  _ ← expect (", storage: None, private_key: None })" +:+ "," +:+ NL);
  mret (address, {| balance := balance; acc_nonce := nonce; code := code |}).

Fixpoint times {A} (n : nat) (r : Reader A) : Reader (list A) :=
  match n with
  | O => mret []
  | S n => x ← r; l ← times n r; mret (x :: l)
  end.

Definition read_chain_config : Reader ChainConfig :=
  _ ← expect ("        let config = ChainConfig {" +:+ NL);
  chain_id ← read_field "chain_id" u64_lit;
  homestead_block ← read_field "homestead_block" (opt u64_lit);
  dao_fork_block ← read_field "dao_fork_block" (opt u64_lit);
  dao_fork_support ← read_field "dao_fork_support" bool_lit;
  eip150_block ← read_field "eip150_block" (opt u64_lit);
  eip155_block ← read_field "eip155_block" (opt u64_lit);
  eip158_block ← read_field "eip158_block" (opt u64_lit);
  byzantium_block ← read_field "byzantium_block" (opt u64_lit);
  constantinople_block ← read_field "constantinople_block" (opt u64_lit);
  petersburg_block ← read_field "petersburg_block" (opt u64_lit);
  istanbul_block ← read_field "istanbul_block" (opt u64_lit);
  muir_glacier_block ← read_field "muir_glacier_block" (opt u64_lit);
  berlin_block ← read_field "berlin_block" (opt u64_lit);
  london_block ← read_field "london_block" (opt u64_lit);
  arrow_glacier_block ← read_field "arrow_glacier_block" (opt u64_lit);
  gray_glacier_block ← read_field "gray_glacier_block" (opt u64_lit);
  merge_netsplit_block ← read_field "merge_netsplit_block" (opt u64_lit);
  shanghai_time ← read_field "shanghai_time" (opt u64_lit);
  cancun_time ← read_field "cancun_time" (opt u64_lit);
  prague_time ← read_field "prague_time" (opt u64_lit);
  osaka_time ← read_field "osaka_time" (opt u64_lit);
  terminal_total_difficulty_passed ← read_field "terminal_total_difficulty_passed" bool_lit;
  _ ← expect ("            ..Default::default()" +:+ NL +:+ "        };" +:+ NL +:+ NL);
  mret {|
    chain_id := chain_id; homestead_block := homestead_block; dao_fork_block := dao_fork_block; dao_fork_support := dao_fork_support;
    eip150_block := eip150_block; eip155_block := eip155_block; eip158_block := eip158_block; byzantium_block := byzantium_block;
    constantinople_block := constantinople_block; petersburg_block := petersburg_block; istanbul_block := istanbul_block;
    muir_glacier_block := muir_glacier_block; berlin_block := berlin_block; london_block := london_block;
    arrow_glacier_block := arrow_glacier_block; gray_glacier_block := gray_glacier_block; merge_netsplit_block := merge_netsplit_block;
    shanghai_time := shanghai_time; cancun_time := cancun_time; prague_time := prague_time; osaka_time := osaka_time;
    terminal_total_difficulty_passed := terminal_total_difficulty_passed |}.

(** The structure expression, in the scope of [config] and [alloc]. *)
Definition read_genesis_struct (config : ChainConfig) (alloc : gmap (list Z) GenesisAccount) : Reader Genesis :=
  _ ← expect ("        Genesis {" +:+ NL +:+ "            config," +:+ NL);
  nonce ← read_field "nonce" u64_lit;
  timestamp ← read_field "timestamp" u64_lit;
  gas_limit ← read_field "gas_limit" u64_lit;
  number ← read_field "number" (opt u64_lit);
  difficulty ← read_field "difficulty" u256_lit;
  mix_hash ← read_field "mix_hash" b256_lit;
  coinbase ← read_field "coinbase" address_lit;
  extra_data ← read_field "extra_data" bytes_lit;
  _ ← expect ("            alloc," +:+ NL +:+ "            ..Default::default()" +:+ NL +:+ "        }" +:+ NL);
  mret {| config := config; nonce := nonce; timestamp := timestamp; gas_limit := gas_limit; number := number;
          difficulty := difficulty; mix_hash := mix_hash; coinbase := coinbase; extra_data := extra_data; alloc := alloc |}.

Definition read_header_fields : Reader Header :=
  parent_hash ← read_field "parent_hash" b256_lit;
  ommers_hash ← read_field "ommers_hash" b256_lit;
  beneficiary ← read_field "beneficiary" address_lit;
  state_root ← read_field "state_root" b256_lit;
  transactions_root ← read_field "transactions_root" b256_lit;
  receipts_root ← read_field "receipts_root" b256_lit;
  logs_bloom ← read_field "logs_bloom" bloom_lit;
  difficulty ← read_field "difficulty" u256_lit;
  number ← read_field "number" u64_lit;
  gas_limit ← read_field "gas_limit" u64_lit;
  gas_used ← read_field "gas_used" u64_lit;
  timestamp ← read_field "timestamp" u64_lit;
  extra_data ← read_field "extra_data" bytes_lit;
  mix_hash ← read_field "mix_hash" b256_lit;
  nonce ← read_field "nonce" nonce_lit;
  base_fee_per_gas ← read_field "base_fee_per_gas" (opt u64_lit);
  withdrawals_root ← read_field "withdrawals_root" (opt b256_lit);
  blob_gas_used ← read_field "blob_gas_used" (opt u64_lit);
  excess_blob_gas ← read_field "excess_blob_gas" (opt u64_lit);
  parent_beacon_block_root ← read_field "parent_beacon_block_root" (opt b256_lit);
  requests_hash ← read_field "requests_hash" (opt b256_lit);
  block_access_list_hash ← read_field "block_access_list_hash" (opt b256_lit);
  slot_number ← read_field "slot_number" (opt u64_lit);
  mret {|
    parent_hash := parent_hash; ommers_hash := ommers_hash; beneficiary := beneficiary; state_root := state_root;
    transactions_root := transactions_root; receipts_root := receipts_root; logs_bloom := logs_bloom; h_difficulty := difficulty;
    h_number := number; h_gas_limit := gas_limit; gas_used := gas_used; h_timestamp := timestamp; h_extra_data := extra_data;
    h_mix_hash := mix_hash; h_nonce := nonce; base_fee_per_gas := base_fee_per_gas; withdrawals_root := withdrawals_root;
    blob_gas_used := blob_gas_used; excess_blob_gas := excess_blob_gas; parent_beacon_block_root := parent_beacon_block_root;
    requests_hash := requests_hash; block_access_list_hash := block_access_list_hash; slot_number := slot_number |}.

Definition fork_condition : Reader ForkCondition :=
  alt (_ ← expect "ForkCondition::Block("; n ← number_to (2 ^ 64) ")"; mret (Block n))
      (_ ← expect "ForkCondition::Timestamp("; n ← number_to (2 ^ 64) ")"; mret (Timestamp n)).

(** An entry of the list; [None] is the argument of the function. *)
Definition read_hardfork : Reader (string * option ForkCondition) :=
  alt (_ ← expect "        (EthereumHardfork::";
       name ← (until "." : Reader string);
       _ ← expect ".boxed(), ";
       c ← alt (_ ← expect "osaka_fork"; mret None) (Some <$> fork_condition : Reader _);
       _ ← expect (")," +:+ NL);
       mret (name, c))
      (_ ← expect ("        (" +:+ NL +:+ "            EthereumHardfork::");
       name ← (until "." : Reader string);
       _ ← expect (".boxed()," +:+ NL +:+ "            ForkCondition::TTD {" +:+ NL +:+ "                activation_block_number: ");
       n ← number_to (2 ^ 64) ("," +:+ NL);
       _ ← expect ("                fork_block: None," +:+ NL +:+ "                total_difficulty: ");
       d ← u256_lit;
       _ ← expect ("," +:+ NL +:+ "            }," +:+ NL +:+ "        )," +:+ NL);
       mret (name, Some (TTD n None d))).

Definition read_hardforks : Reader (list (string * option ForkCondition)) :=
  _ ← expect (NL +:+ "pub fn fluent_default_chain_hardforks(osaka_fork: ForkCondition) -> ChainHardforks {" +:+ NL
                +:+ "    ChainHardforks::new(vec![" +:+ NL);
  l ← times 16 read_hardfork;
  _ ← expect ("    ])" +:+ NL +:+ "}" +:+ NL);
  mret l.

Definition call_hardforks (body : list (string * option ForkCondition)) (osaka_fork : ForkCondition) : Hardforks :=
  map (fun '(name, c) => (name, default osaka_fork c)) body.

(** What the functions of a generated module return. *)
Record Generated : Type := {
  gen_genesis : Genesis;
  gen_header : Header;
  gen_chain : Z;
  gen_hardforks : Hardforks }.

(** [genesis_alloc().into_iter().collect()]: of two entries the later one. *)
Definition collect (l : list (list Z * GenesisAccount)) : gmap (list Z) GenesisAccount :=
  foldl (fun m '(a, x) => <[a := x]> m) ∅ l.

Definition read_chainspec (body : list (string * option ForkCondition)) : Reader (Z * Hardforks) :=
  _ ← expect ("    pub fn chainspec() -> ChainSpec {" +:+ NL +:+ "        let gen = genesis();" +:+ NL
                +:+ "        let hardforks = fluent_default_chain_hardforks(");
  osaka_fork ← fork_condition;
  _ ← expect (");" +:+ NL +:+ "        ChainSpec {" +:+ NL +:+ "            chain: reth_chainspec::Chain::from(");
  id ← u64_lit;
  _ ← expect (")," +:+ NL +:+
        "            genesis_header: SealedHeader::new_unhashed(genesis_header())," +:+ NL +:+
        "            genesis: gen," +:+ NL +:+
        "            paris_block_and_final_difficulty: Some((0, U256::ZERO))," +:+ NL +:+
        "            hardforks," +:+ NL +:+
        "            base_fee_params: BaseFeeParamsKind::Constant(BaseFeeParams::ethereum())," +:+ NL +:+
        "            deposit_contract: None," +:+ NL +:+
        "            ..Default::default()" +:+ NL +:+ "        }" +:+ NL +:+ "    }" +:+ NL);
  mret (id, call_hardforks body osaka_fork).

Definition read_module (bins : gmap string (list Z)) (body : list (string * option ForkCondition)) (feat : string) : Reader Generated :=
  _ ← expect (cfg_attr feat +:+ NL +:+ "mod " +:+ feat +:+ "_genesis {" +:+ NL +:+ "    use super::*;" +:+ NL +:+ NL
                +:+ "    pub const ALLOC_LEN: usize = ");
  n ← number_to (2 ^ 64) ";";
  _ ← expect (NL +:+ NL +:+ alloc_open);
  accounts ← times (Z.to_nat n) (read_account bins);
  _ ← expect (alloc_close +:+ genesis_open);
  config ← read_chain_config;
  genesis ← read_genesis_struct config (collect accounts);
  _ ← expect (genesis_close +:+ header_open);
  header ← read_header_fields;
  _ ← expect header_close;
  '(id, hardforks) ← read_chainspec body;
  _ ← expect ("} // mod " +:+ feat +:+ "_genesis" +:+ NL +:+ NL +:+ cfg_attr feat +:+ NL
                +:+ "pub use " +:+ feat +:+ "_genesis::*;" +:+ NL +:+ NL);
  mret {| gen_genesis := genesis; gen_header := header; gen_chain := id; gen_hardforks := hardforks |}.

Fixpoint read_modules (bins : gmap string (list Z)) (body : list (string * option ForkCondition)) (feats : list string) : Reader (list Generated) :=
  match feats with
  | [] => mret []
  | feat :: feats => m ← read_module bins body feat; ms ← read_modules bins body feats; mret (m :: ms)
  end.

(** The whole file: nothing may be left. *)
Definition read_file (bins : gmap string (list Z)) (feats : list string) (text : string) : option (list Generated) :=
  match (_ ← expect emit_uses; body ← read_hardforks; read_modules bins body feats) text with
  | Some (ms, EmptyString) => Some ms
  | _ => None
  end.

(** ** What is printed is read *)

Definition prints {A} (r : Reader A) (s : string) (x : A) : Prop := forall rest, r (s +:+ rest) = Some (x, rest).

Lemma prints_bind {A B} (r : Reader A) (k : A -> Reader B) s t x y :
  prints r s x -> prints (k x) t y -> prints (r ≫= k) (s +:+ t) y.
Proof. intros Hr Hk rest. rewrite app_assoc_s. unfold mbind, Reader_bind. by rewrite Hr, Hk. Qed.

(** Two printed pieces read by one reader. *)
Lemma prints_two {A B} (r : Reader A) (k : A -> Reader B) a b t x y :
  prints r (a +:+ b) x -> prints (k x) t y -> prints (r ≫= k) (a +:+ b +:+ t) y.
Proof. intros Hr Hk. rewrite <- app_assoc_s. by eapply (prints_bind r k). Qed.

Lemma prints_last {A B} (r : Reader A) (f : A -> B) s x : prints r s x -> prints (x ← r; mret (f x)) s (f x).
Proof. intros Hr rest. unfold mbind, Reader_bind. by rewrite Hr. Qed.

Lemma prints_map {A B} (f : A -> B) (r : Reader A) s x : prints r s x -> prints (f <$> r) s (f x).
Proof. intros Hr rest. unfold fmap, Reader_fmap. by rewrite Hr. Qed.

Lemma expect_self lit : prints (expect lit) lit tt.
Proof. intros rest. induction lit as [|c lit IH]; [done|]. rewrite append_cons. cbn. by rewrite Ascii.eqb_refl. Qed.

Lemma prints_end {A} lit (y : A) : prints (_ ← expect lit; mret y) lit y.
Proof. intros rest. unfold mbind, Reader_bind. by rewrite expect_self. Qed.

Lemma prints_left {A} (r1 r2 : Reader A) s x : prints r1 s x -> prints (alt r1 r2) s x.
Proof. intros Hr rest. unfold alt. by rewrite Hr. Qed.

Definition refuses {A} (r : Reader A) (s : string) : Prop := forall rest, r (s +:+ rest) = None.

Lemma prints_right {A} (r1 r2 : Reader A) s x : refuses r1 s -> prints r2 s x -> prints (alt r1 r2) s x.
Proof. intros H1 H2 rest. unfold alt. by rewrite H1. Qed.

(** ** Numbers *)

Definition no_digit (s : string) : Prop := match s with String.String c _ => decimal_value c = None | EmptyString => True end.

Lemma read_digits_stop acc s : no_digit s -> read_digits acc s = (acc, s).
Proof. destruct s as [|c s]; [done|]. cbn. by intros ->. Qed.

Lemma digit_char x : (x < 10)%N -> decimal_value (pretty_N_char x) = Some (Z.of_N x).
Proof.
  intros Hx. assert (F : Forall (fun x => decimal_value (pretty_N_char x) = Some (Z.of_N x)) (N.of_nat <$> seq 0 10)) by by repeat constructor.
  apply (proj1 (Forall_forall _ _) F), list_elem_of_fmap. exists (N.to_nat x). rewrite elem_of_seq. lia.
Qed.

Lemma read_pretty_go x : forall s acc rest, exists p, read_digits acc (pretty_N_go x s +:+ rest) = read_digits (acc * p + Z.of_N x) (s +:+ rest).
Proof.
  induction (N.lt_wf_0 x) as [x _ IH]; intros s acc rest. destruct (decide (x = 0%N)) as [->|Hx].
  - exists 1. rewrite pretty_N_go_0. f_equal. lia.
  - rewrite pretty_N_go_step by lia. destruct (IH (x / 10)%N (N.div_lt x 10 ltac:(lia) eq_refl) (String.String (pretty_N_char (x mod 10)) s) acc rest) as [p E].
    exists (10 * p). rewrite E. rewrite append_cons. cbn [read_digits]. rewrite digit_char by (apply N.mod_lt; lia).
    f_equal. rewrite N2Z.inj_div, N2Z.inj_mod. change (Z.of_N 10) with 10. assert (Hd := Z.div_mod (Z.of_N x) 10). lia.
Qed.

Lemma pretty_head n : 0 <= n -> exists c s v, pretty n = String.String c s /\ decimal_value c = Some v.
Proof.
  intros Hn. assert (Hgo : forall x s, (0 < x)%N -> exists c t v, pretty_N_go x s = String.String c t /\ decimal_value c = Some v).
  { intros x. induction (N.lt_wf_0 x) as [x _ IH]; intros s Hx. rewrite pretty_N_go_step by done.
    destruct (decide (x / 10 = 0)%N) as [->|]; [|apply IH; [by apply N.div_lt|by apply N.neq_0_lt_0]].
    rewrite pretty_N_go_0. eexists _, _, _. split; [done|]. apply digit_char, N.mod_lt. lia. }
  destruct n as [|x|x]; [by eexists _, _, _| |lia]. unfold pretty, pretty_Z, pretty, pretty_positive, pretty, pretty_N.
  rewrite decide_False by lia. by apply Hgo.
Qed.

Lemma read_pretty n rest : 0 <= n -> no_digit rest -> decimal (pretty n +:+ rest) = Some (n, rest).
Proof.
  intros Hn Hrest. assert (E : read_digits 0 (pretty n +:+ rest) = (n, rest)).
  { destruct n as [|x|x]; [change (read_digits 0 rest = (0, rest)); by rewrite read_digits_stop| |lia].
    unfold pretty, pretty_Z, pretty, pretty_positive, pretty, pretty_N. rewrite decide_False by lia.
    destruct (read_pretty_go (N.pos x) EmptyString 0 rest) as [p ->]. change (EmptyString +:+ rest) with rest. by rewrite read_digits_stop. }
  destruct (pretty_head n Hn) as (c & s & v & Hs & Hc). unfold decimal. rewrite Hs in *. rewrite append_cons in *. by rewrite Hc, E.
Qed.

Lemma number_read bound n suffix : 0 <= n < bound -> (forall rest, no_digit (suffix +:+ rest)) ->
  prints (number_to bound suffix) (pretty n +:+ suffix) n.
Proof.
  intros Hn Hs rest. unfold number_to, mbind, Reader_bind. cbn beta. rewrite (app_assoc_s (pretty n)), read_pretty by (done || lia).
  unfold guarded. rewrite (proj2 (Z.ltb_lt _ _)) by lia. cbn. unfold mret, Reader_ret. by rewrite expect_self.
Qed.

(** ** Hexadecimal digits *)

Lemma lower_hex_digit n : 0 <= n < 16 -> lower_hex (hex_digit n) = Some n.
Proof.
  intros Hn. assert (F : Forall (fun n => lower_hex (hex_digit n) = Some n) (seqZ 0 16)) by by repeat constructor.
  by apply (proj1 (Forall_forall _ _) F), elem_of_seqZ.
Qed.

Lemma hex_read l : Bytes l -> prints (hex_bytes (length l)) (hex_digits l) l.
Proof.
  intros Hl rest. induction Hl as [|b l Hb _ IH]; [done|]. cbn [length hex_bytes hex_digits]. rewrite !append_cons.
  unfold is_byte in Hb. rewrite !lower_hex_digit by dlia. rewrite IH. by rewrite <- Z.div_mod by lia.
Qed.

(** ** Bytes *)

Lemma number_then bound n rest : 0 <= n < bound -> no_digit rest -> number_to bound EmptyString (pretty n +:+ rest) = Some (n, rest).
Proof.
  intros Hn Hs. unfold number_to, mbind, Reader_bind. cbn beta. rewrite read_pretty by (done || lia).
  unfold guarded. rewrite (proj2 (Z.ltb_lt _ _)) by lia. by destruct rest.
Qed.

Lemma byte_list_read l : Bytes l -> l <> [] -> forall fuel, (length l <= fuel)%nat -> prints (byte_list fuel) (fmt_byte_list l +:+ "]") l.
Proof.
  induction 1 as [|b l Hb Hl IH]; intros Hne fuel Hf rest; [done|]. destruct fuel as [|fuel]; [cbn in Hf; lia|].
  cbn [byte_list]. unfold mbind at 1, Reader_bind at 1. destruct l as [|b' l].
  - change (fmt_byte_list [b]) with (pretty b : string). rewrite app_assoc_s, number_then; [done|done|]. done.
  - change (fmt_byte_list (b :: b' :: l)) with (pretty b +:+ "," +:+ fmt_byte_list (b' :: l)).
    rewrite !app_assoc_s, number_then; [|done|done]. specialize (IH ltac:(done) fuel ltac:(cbn in *; lia) rest).
    rewrite app_assoc_s in IH.
    change (match byte_list fuel (fmt_byte_list (b' :: l) +:+ "]" +:+ rest) with Some (l, s) => Some (b :: l, s) | None => None end
      = Some (b :: b' :: l, rest)). by rewrite IH.
Qed.

Lemma array_read n l : Bytes l -> length l = n -> (0 < n)%nat -> prints (array n) (fmt_byte_list l +:+ "]") l.
Proof.
  intros Hl <- Hn rest. unfold array. unfold mbind, Reader_bind. cbn beta.
  rewrite byte_list_read; [|done|destruct l; [cbn in Hn; lia|done]|done].
  unfold guarded. by rewrite Nat.eqb_refl.
Qed.

Lemma fmt_byte_list_length l : Bytes l -> (length l <= String.length (fmt_byte_list l))%nat.
Proof.
  induction 1 as [|b l Hb _ IH]; [done|]. destruct (pretty_head b ltac:(unfold is_byte in Hb; lia)) as (c & s & v & Hs & _).
  destruct l as [|b' l]; [change (fmt_byte_list [b]) with (pretty b : string); rewrite Hs; cbn; lia|].
  change (fmt_byte_list (b :: b' :: l)) with (pretty b +:+ "," +:+ fmt_byte_list (b' :: l)). rewrite Hs.
  rewrite append_cons. cbn [String.length length] in *. rewrite length_app_s. cbn [String.length]. 
  change (String.length ("," +:+ fmt_byte_list (b' :: l))) with (S (String.length (fmt_byte_list (b' :: l)))). lia.
Qed.

(** ** Literals *)

Lemma opt_some {A} (r : Reader A) s x : prints r s x -> prints (opt r) ("Some(" +:+ s +:+ ")") (Some x).
Proof.
  intros Hr. apply prints_right; [done|]. eapply prints_bind; [apply expect_self|]. eapply prints_bind; [exact Hr|].
  apply prints_end.
Qed.

Lemma opt_none {A} (r : Reader A) : prints (opt r) "None" None.
Proof. by apply prints_left. Qed.

Lemma u64_read n : is_u64 n -> prints u64_lit (fmt_u64 n) n.
Proof. unfold is_u64, u64_max. intros Hn. by apply number_read; [lia|]. Qed.

Definition opt_all {A} (P : A -> Prop) (o : option A) : Prop := match o with Some x => P x | None => True end.

Lemma opt_u64_read o : opt_all is_u64 o -> prints (opt u64_lit) (fmt_opt_u64 o) o.
Proof.
  destruct o as [n|]; intros Hn; [|apply opt_none].
  change (fmt_opt_u64 (Some n)) with ("Some(" +:+ pretty n +:+ "u64" +:+ ")"). rewrite <- (app_assoc_s (pretty n)). by apply opt_some, u64_read.
Qed.

Lemma bool_read b : prints bool_lit (fmt_bool b) b.
Proof. by destruct b. Qed.

Definition width (n : nat) (l : list Z) : Prop := length l = n /\ Bytes l.

(** Digits between two fixed pieces of text. *)
Lemma hex_between n l pre post : width n l ->
  prints (_ ← expect pre; l ← hex_bytes n; _ ← expect post; mret l) (pre +:+ hex_digits l +:+ post) l.
Proof.
  intros [<- Hl]. eapply prints_bind; [apply expect_self|]. eapply prints_bind; [by apply hex_read|].
  apply prints_end.
Qed.

Lemma b256_read l : width 32 l -> prints b256_lit (fmt_b256 l) l.
Proof. intros Hl. unfold fmt_b256. rewrite <- app_assoc_s. by apply hex_between. Qed.

Lemma address_read l : width 20 l -> prints address_lit (fmt_address l) l.
Proof. intros Hl. unfold fmt_address. rewrite <- app_assoc_s. by apply hex_between. Qed.

Lemma opt_b256_read o : opt_all (width 32) o -> prints (opt b256_lit) (fmt_opt_b256 o) o.
Proof. destruct o as [l|]; intros Hl; [|apply opt_none]. by apply opt_some, b256_read. Qed.

(** Bytes in brackets, read by [r] up to the bracket. *)
Lemma bracketed (r : Reader (list Z)) l pre : prints r (fmt_byte_list l +:+ "]") l ->
  prints (_ ← expect pre; l ← r; _ ← expect ")"; mret l) (pre +:+ fmt_byte_list l +:+ "])") l.
Proof.
  intros Hr. eapply prints_bind; [apply expect_self|]. change "])"%string with ("]" +:+ ")").
  eapply prints_two; [exact Hr|]. apply prints_end.
Qed.

Lemma u256_read n : 0 <= n < 2 ^ 256 -> prints u256_lit (fmt_u256 n) n.
Proof.
  intros Hn. unfold fmt_u256. destruct (Z.eqb_spec n 0) as [->|]; [by apply prints_left|].
  apply prints_right; [done|]. eapply prints_bind; [apply expect_self|]. change "])"%string with ("]" +:+ ")").
  eapply prints_two; [apply (array_read 32); [apply be_encode_bytes|apply length_be_encode|lia]|].
  assert (E := prints_end ")" (be_decode (be_encode 32 n))).
  by rewrite be_round_trip in E |- * by (change (8 * Z.of_nat 32) with 256; lia).
Qed.

Lemma bloom_read l : width 256 l -> prints bloom_lit (fmt_bloom l) l.
Proof.
  intros [Hn Hl]. unfold fmt_bloom. destruct (forallb (Z.eqb 0) l) eqn:E.
  - assert (l = repeat 0 256) as ->; [|by apply prints_left].
    rewrite <- Hn. clear Hn Hl. induction l as [|b l IH]; [done|]. apply andb_prop in E as [<-%Z.eqb_eq E].
    cbn. by rewrite <- IH.
  - apply prints_right; [done|]. by apply bracketed, array_read; [| |lia].
Qed.

Lemma bytes_read l : Bytes l -> prints bytes_lit (fmt_bytes l) l.
Proof.
  intros Hl. destruct l as [|b l]; [by apply prints_left|]. apply prints_right; [done|].
  apply bracketed. intros rest. apply byte_list_read; [done|done|]. rewrite !length_app_s.
  assert (Hlen := fmt_byte_list_length _ Hl). lia.
Qed.

Lemma nonce_read l : width 8 l -> prints nonce_lit ("0x" +:+ fmt_016x (be_decode l) +:+ "u64.into()") l.
Proof.
  intros Hl. unfold fmt_016x. replace (be_encode 8 (be_decode l)) with l; [by apply hex_between|].
  destruct Hl as [<- Hl]. symmetry. by apply be_encode_decode.
Qed.

Lemma field_read {A} name (r : Reader A) s x : prints r s x -> prints (read_field name r) (field name s) x.
Proof.
  intros Hr. assert (field name s = ("            " +:+ name +:+ ": ") +:+ s +:+ "," +:+ NL) as -> by (unfold field; by rewrite !app_assoc_s).
  eapply prints_bind; [apply expect_self|]. eapply prints_bind; [exact Hr|].
  apply prints_end.
Qed.

(** ** The parts of a module *)

Lemma prints_expect {A} (k : unit -> Reader A) lit t y : prints (k tt) t y -> prints (expect lit ≫= k) (lit +:+ t) y.
Proof. apply prints_bind, expect_self. Qed.

Lemma prints_expect_app {A} (k : unit -> Reader A) a b t y :
  prints (expect b ≫= k) t y -> prints (expect (a +:+ b) ≫= k) (a +:+ t) y.
Proof.
  intros Hk rest. rewrite app_assoc_s, <- (Hk rest). unfold mbind, Reader_bind.
  assert (expect (a +:+ b) (a +:+ (t +:+ rest)) = expect b (t +:+ rest)) as ->; [|done].
  clear. induction a as [|c a IH]; [done|]. rewrite !append_cons. cbn. by rewrite Ascii.eqb_refl.
Qed.

Lemma field_bind {A B} name (r : Reader A) (k : A -> Reader B) s t x y :
  prints r s x -> prints (k x) t y -> prints (read_field name r ≫= k) (field name s +:+ t) y.
Proof. intros Hr. by apply prints_bind, field_read. Qed.

Create HintDb prints discriminated.
#[local] Hint Constants Opaque : prints.
#[local] Hint Resolve u64_read opt_u64_read bool_read b256_read address_read opt_b256_read u256_read bloom_read bytes_read nonce_read : prints.

(** Goes through a reader and what it reads side by side. *)
Ltac parts := repeat (cbv beta; lazymatch goal with
  | |- prints (read_field _ _ ≫= _) (field _ _ +:+ _) _ => eapply field_bind; [solve [eauto with prints]|]
  | |- prints (expect ?l ≫= _) (?m +:+ _) _ => first [constr_eq l m; apply prints_expect | apply prints_expect_app]
  end).

Record config_ok (c : ChainConfig) : Prop := {
  ok_chain_id : is_u64 (chain_id c);
  ok_blocks : Forall (opt_all is_u64) [homestead_block c; dao_fork_block c; eip150_block c; eip155_block c; eip158_block c;
    byzantium_block c; constantinople_block c; petersburg_block c; istanbul_block c; muir_glacier_block c; berlin_block c;
    london_block c; arrow_glacier_block c; gray_glacier_block c; merge_netsplit_block c; shanghai_time c; cancun_time c;
    prague_time c; osaka_time c] }.

Lemma chain_config_read c : config_ok c -> prints read_chain_config (emit_chain_config c) c.
Proof.
  intros [Hid Hb]. rewrite !Forall_cons in Hb. destruct_and! Hb. unfold read_chain_config, emit_chain_config. parts. destruct c. apply prints_end.
Qed.

Record genesis_ok (g : Genesis) : Prop := {
  ok_config : config_ok (config g);
  ok_numbers : is_u64 (nonce g) /\ is_u64 (timestamp g) /\ is_u64 (gas_limit g) /\ opt_all is_u64 (number g);
  ok_difficulty : 0 <= difficulty g < 2 ^ 256;
  ok_mix_hash : width 32 (mix_hash g);
  ok_coinbase : width 20 (coinbase g);
  ok_extra_data : Bytes (extra_data g) }.

Lemma genesis_struct_read g : genesis_ok g -> prints (read_genesis_struct (config g) (alloc g)) (emit_genesis_struct g) g.
Proof.
  intros [_ (? & ? & ? & ?) ? ? ? ?]. unfold read_genesis_struct, emit_genesis_struct. parts. destruct g. apply prints_end.
Qed.

(** reth's header of a genesis. *)
Record header_ok (h : Header) : Prop := {
  ok_hashes : Forall (width 32) [parent_hash h; ommers_hash h; state_root h; transactions_root h; receipts_root h; h_mix_hash h];
  ok_roots : Forall (opt_all (width 32)) [withdrawals_root h; parent_beacon_block_root h; requests_hash h];
  ok_beneficiary : width 20 (beneficiary h);
  ok_bloom : width 256 (logs_bloom h);
  ok_h_difficulty : 0 <= h_difficulty h < 2 ^ 256;
  ok_h_numbers : Forall is_u64 [h_number h; h_gas_limit h; gas_used h; h_timestamp h];
  ok_h_options : Forall (opt_all is_u64) [base_fee_per_gas h; blob_gas_used h; excess_blob_gas h];
  ok_h_extra_data : Bytes (h_extra_data h);
  ok_h_nonce : width 8 (h_nonce h);
  ok_amsterdam : block_access_list_hash h = None /\ slot_number h = None }.

Lemma header_fields_read h : header_ok h -> prints read_header_fields (emit_header_fields h) h.
Proof.
  intros [H1 H2 ? ? ? H3 H4 ? ? [H5 H6]]. 
  rewrite !Forall_cons in H1; rewrite !Forall_cons in H2; rewrite !Forall_cons in H3; rewrite !Forall_cons in H4. destruct_and!.
  unfold read_header_fields, emit_header_fields. parts.
  eapply field_bind; [apply opt_none|]. cbv beta.
  destruct h as [????????????????????? ahash slot]; cbn [block_access_list_hash slot_number] in H5, H6; subst ahash slot.
  apply (prints_last (read_field "slot_number" (opt u64_lit)) (fun slot => _) _ None), field_read, opt_none.
Qed.

Lemma hardforks_read : prints read_hardforks emit_hardforks
  (map (fun '(name, c) => (name, if String.eqb name "Osaka" then None else Some c)) (fluent_default_chain_hardforks Never)).
Proof. intros rest. reflexivity. Qed.

Lemma until_read c s rest : Forall (fun x => x <> c) (String.list_ascii_of_string s) -> until c (s +:+ String.String c rest) = Some (s, String.String c rest).
Proof.
  induction s as [|x s IH]; intros Hs.
  - change (EmptyString +:+ String.String c rest) with (String.String c rest). cbn. by rewrite Ascii.eqb_refl.
  - inversion_clear Hs as [|? ? Hx Hs']. rewrite append_cons. cbn [until]. destruct (Ascii.eqb_spec x c) as [|_]; [done|]. by rewrite IH.
Qed.

(** A condition with a block or a time can be an argument. *)
Definition fork_ok (c : ForkCondition) : Prop := match c with Block n | Timestamp n => is_u64 n | _ => False end.

Lemma fork_read c : fork_ok c -> prints fork_condition (fmt_osaka c) c.
Proof.
  unfold fork_ok, is_u64, u64_max. destruct c as [n| |n|]; intros Hn; [|done| |done]; unfold fork_condition, fmt_osaka.
  - apply prints_left, prints_expect. cbv beta. apply (prints_last _ Block), number_read; [lia|done].
  - apply prints_right; [done|]. apply prints_expect. cbv beta. apply (prints_last _ Timestamp), number_read; [lia|done].
Qed.

Lemma chainspec_read body osaka_fork id : fork_ok osaka_fork -> is_u64 id ->
  prints (read_chainspec body) (emit_chainspec osaka_fork id) (id, call_hardforks body osaka_fork).
Proof.
  intros Ho Hid. unfold read_chainspec, emit_chainspec. parts. eapply prints_bind; [by apply fork_read|].
  parts. change "u64),"%string with ("u64" +:+ "),"). rewrite (app_assoc_s "u64"). eapply prints_two; [by apply u64_read|].
  parts. apply prints_end.
Qed.

(** ** Files of codes *)

Lemma write_inserts {C} `{EqDecision C} path (content : C) files : write_if_changed path content files = <[path := content]> files.
Proof. unfold write_if_changed. case_decide; [by rewrite insert_id|done]. Qed.

Definition no_quote (s : string) : Prop := Forall (fun x => x <> ascii_of_nat 34) (String.list_ascii_of_string s).

Lemma no_quote_app s t : no_quote s -> no_quote t -> no_quote (s +:+ t).
Proof.
  intros Hs Ht. induction s as [|c s IH]; [done|]. rewrite append_cons. inversion_clear Hs as [|? ? Hc Hs']. constructor; [done|]. by apply IH.
Qed.

Lemma no_quote_hex l : Bytes l -> no_quote (hex_digits l).
Proof.
  assert (F : forall n, 0 <= n < 16 -> hex_digit n <> ascii_of_nat 34) by (apply (hex_digit_all (fun c => c <> ascii_of_nat 34)); by repeat constructor).
  induction 1 as [|b l Hb _ IH]; [constructor|]. unfold is_byte in Hb. constructor; [apply F; dlia|]. constructor; [apply F; dlia|exact IH].
Qed.

Lemma code_fname_inj net s t : code_fname net s = code_fname net t -> s = t.
Proof. unfold code_fname. intros E. do 3 apply append_inj_l in E. by apply append_inj_r in E. Qed.

Lemma hex_digits_inj n a b : width n a -> width n b -> hex_digits a = hex_digits b -> a = b.
Proof.
  intros [<- Ha] [Hn Hb] E. assert (Ra := hex_read a Ha EmptyString). assert (Rb := hex_read b Hb EmptyString).
  rewrite Hn, <- E in Rb. congruence.
Qed.

(** The bytes that forty digits are. *)
Definition unhex (s : string) : list Z := match hex_bytes 20 s with Some (a, _) => a | None => [] end.

Lemma unhex_digits a : width 20 a -> unhex (hex_digits a) = a.
Proof. intros [Hn Ha]. assert (R := hex_read a Ha EmptyString). rewrite append_nil_r, Hn in R. unfold unhex. by rewrite R. Qed.

(** alloy's literals, serde_json's numbers and reth's header. *)
Class GenesisLaws `{GenesisLibs} : Prop := {
  as_u64_range v n : as_u64 v = Some n -> is_u64 n;
  as_object_len v l : as_object v = Some l -> Z.of_nat (length l) < 2 ^ 64;
  u256_range s n : u256_from_str s = Some n -> 0 <= n < 2 ^ 256;
  bytes_range s l : bytes_from_str s = Some l -> Bytes l;
  b256_range s l : b256_from_str s = Some l -> width 32 l;
  address_range s l : address_from_str s = Some l -> width 20 l;
  (** without the optional prefix, lower-case text is the digits *)
  address_digits s l : address_from_str s = Some l -> to_ascii_lowercase s = s -> String.prefix "0x" s = false -> s = hex_digits l;
  header_range g osaka_fork : genesis_ok g -> header_ok (make_genesis_header g (fluent_default_chain_hardforks osaka_fork)) }.

Section Generated.
Context `{GenesisLibs, !GenesisLaws}.

Lemma hex_value_range c v : hex_value c = Some v -> 0 <= v < 16.
Proof. unfold hex_value. intros E. repeat case_match; inversion E; lia. Qed.

Lemma hex_number_range s : forall acc n, is_u64 acc -> hex_number acc s = Some n -> is_u64 n.
Proof.
  induction s as [|c s IH]; intros acc n Hacc; cbn [hex_number]; [by intros [= <-]|].
  destruct (hex_value c) as [v|] eqn:Ev; [|done]. apply hex_value_range in Ev. cbn.
  destruct (Z.ltb_spec u64_max (16 * acc + v)); [done|]. apply IH. unfold is_u64 in *. lia.
Qed.

Lemma parse_json_range v : is_u64 (parse_json_u64 v).
Proof.
  assert (Hz : is_u64 0) by (unfold is_u64, u64_max; lia).
  unfold parse_json_u64. destruct (as_u64 v) as [n|] eqn:E; [by eapply as_u64_range|]. destruct (as_str v) as [s|]; [|done].
  destruct (u64_from_hex _) as [n|] eqn:Eh; [|done]. cbn. unfold u64_from_hex in Eh. repeat case_match; try discriminate; by eapply hex_number_range.
Qed.

Lemma opt_as_u64 v : opt_all is_u64 (as_u64 v).
Proof. destruct (as_u64 v) eqn:E; [|done]. by eapply as_u64_range. Qed.

Lemma build_config_ok cfg id : is_u64 id -> config_ok (build_config cfg id).
Proof.
  intros Hid. split; [done|]. repeat constructor; try apply opt_as_u64. cbn. destruct (as_u64 _) eqn:E; [by eapply as_u64_range|].
  unfold opt_all, is_u64, u64_max. lia.
Qed.

Lemma width_zeros n : width n (repeat 0 n).
Proof. split; [apply repeat_length|]. apply Forall_forall. intros x Hx. apply list_elem_of_In, repeat_spec in Hx as ->. unfold is_byte. lia. Qed.

Lemma build_genesis_ok json id g : is_u64 id -> build_genesis_object json id = Ok g ->
  genesis_ok g /\ chain_id (config g) = id /\ build_alloc (default [] (as_object (index json "alloc"))) ∅ = Ok (alloc g).
Proof.
  intros Hid E. unfold build_genesis_object in E. inv_ok. apply Ok_inj in E as <-. split; [|by cbn].
  split; cbn.
  - by apply build_config_ok.
  - repeat split; apply parse_json_range.
  - destruct (u256_from_str _) eqn:E; cbn; [by eapply u256_range|lia].
  - destruct (b256_from_str _) eqn:E; cbn; [by eapply b256_range|apply width_zeros].
  - destruct (address_from_str _) eqn:E; cbn; [by eapply address_range|apply width_zeros].
  - destruct (bytes_from_str _) eqn:E; cbn; [by eapply bytes_range|constructor].
Qed.

(** ** Accounts *)

Lemma balance_range v : 0 <= balance_of v < 2 ^ 256.
Proof. unfold balance_of. destruct (u256_from_str _) eqn:E; cbn; [by eapply u256_range|lia]. Qed.

Lemma nonce_range v : opt_all is_u64 (nonce_of v).
Proof. unfold nonce_of. destruct (0 <? _); [apply parse_json_range|done]. Qed.

Definition code_text (fname : string) : string :=
  ("Bytes::from_static(include_bytes!(concat!(env!(" +:+ QUOTE +:+ "OUT_DIR" +:+ QUOTE +:+ "), " +:+ QUOTE +:+ "/fluent_genesis_bin/")
    +:+ fname +:+ QUOTE +:+ ")))".

Definition fmt_code (fname : string) (code : option (list Z)) : string :=
  match code with Some _ => "Some(" +:+ code_text fname +:+ ")" | None => "None" end.

Definition put_code (net s : string) (v : Value) (bins : gmap string (list Z)) : gmap string (list Z) :=
  match code_of v with Some b => <[code_fname net s := b]> bins | None => bins end.

Lemma emit_account_text net a v bins :
  emit_account net (hex_digits a) v bins =
  ("(" +:+ fmt_address a +:+ ", GenesisAccount { balance: " +:+ fmt_u256 (balance_of v) +:+ ", code: "
     +:+ fmt_code (code_fname net (hex_digits a)) (code_of v) +:+ ", nonce: " +:+ fmt_opt_u64 (nonce_of v)
     +:+ ", storage: None, private_key: None })", put_code net (hex_digits a) v bins).
Proof.
  unfold emit_account, put_code, code_of, nonce_of, balance_of, fmt_address, fmt_code, code_text.
  destruct (0 <? _); destruct (as_str (index v "code")) as [c|]; cbn [mbind option_bind].
  all: try (destruct (default [] (bytes_from_str c)) as [|b l]).
  all: rewrite ?write_inserts; apply (f_equal2 pair); [|done]; cbn [fmt_opt_u64]; rewrite !app_assoc_s; reflexivity.
Qed.

Lemma code_read bins fname b : no_quote fname -> bins !! fname = Some b -> prints (code_lit bins) (code_text fname) b.
Proof.
  intros Hq Hb. unfold code_lit, code_text. apply prints_expect. cbv beta. intros rest. unfold mbind at 1, Reader_bind at 1.
  rewrite !app_assoc_s. change (QUOTE +:+ ")))" +:+ rest) with (String.String (ascii_of_nat 34) (")))" +:+ rest)).
  rewrite until_read by done. change (String.String (ascii_of_nat 34) (")))" +:+ rest)) with ((QUOTE +:+ ")))") +:+ rest).
  unfold mbind, Reader_bind. rewrite expect_self. by rewrite Hb.
Qed.

Lemma account_read bins net a v : no_quote net -> width 20 a ->
  (forall b, code_of v = Some b -> bins !! code_fname net (hex_digits a) = Some b) ->
  prints (read_account bins) ("            " +:+ (emit_account net (hex_digits a) v bins).1 +:+ "," +:+ NL) (a, genesis_account v).
Proof.
  intros Hn Ha Hb. rewrite emit_account_text. cbn [fst]. rewrite !app_assoc_s. unfold read_account.
  change "            ("%string with ("            " +:+ "("). parts.
  eapply prints_bind; [by apply address_read|]. parts.
  eapply prints_bind; [apply u256_read, balance_range|]. parts.
  apply (prints_bind _ _ _ _ (code_of v)).
  { destruct (code_of v) as [b|] eqn:E; [|apply opt_none]. apply opt_some, code_read; [|by apply Hb].
    unfold code_fname. repeat apply no_quote_app; try done; [by repeat constructor..|apply no_quote_hex, Ha|by repeat constructor]. }
  parts. eapply prints_bind; [apply opt_u64_read, nonce_range|]. apply prints_end.
Qed.

(** ** Lists of accounts *)

(** The accounts of a module by their digits. *)
Definition digits_ok (m : gmap string Value) : Prop := forall s v, m !! s = Some v -> exists a, width 20 a /\ s = hex_digits a.

Lemma emit_account_put net s v bins : (emit_account net s v bins).2 = put_code net s v bins.
Proof.
  unfold emit_account, put_code, code_of. destruct (as_str (index v "code")) as [c|]; [|done]. cbn [mbind option_bind].
  destruct (default [] (bytes_from_str c)) as [|b l]; [done|]. apply write_inserts.
Qed.

Lemma emit_alloc_put net l : forall bins, (emit_alloc net l bins).2 = foldl (fun b '(s, v) => put_code net s v b) bins l.
Proof.
  induction l as [|[s v] l IH]; intros bins; [done|]. cbn [emit_alloc foldl]. rewrite <- emit_account_put, <- IH.
  destruct (emit_account net s v bins) as [t bins']. cbn [snd]. by destruct (emit_alloc net l bins').
Qed.

Lemma put_codes_other net f l : (forall s, f <> code_fname net s) -> forall bins,
  foldl (fun b '(s, v) => put_code net s v b) bins l !! f = bins !! f.
Proof.
  intros Hf. induction l as [|[s v] l IH]; intros bins; [done|]. cbn [foldl]. rewrite IH. unfold put_code.
  destruct (code_of v); [by rewrite lookup_insert_ne|done].
Qed.

Lemma put_codes_keep net l f b : (forall s v, (s, v) ∈ l -> f <> code_fname net s) -> forall bins,
  bins !! f = Some b -> foldl (fun b '(s, v) => put_code net s v b) bins l !! f = Some b.
Proof.
  induction l as [|[s v] l IH]; intros Hl bins Hb; [done|]. apply IH; [intros; eapply Hl; by right|].
  unfold put_code. destruct (code_of v); [|done]. rewrite lookup_insert_ne; [done|]. intros E. eapply Hl; [by left|done].
Qed.

Lemma put_codes_there net l s v b : NoDup l.*1 -> (s, v) ∈ l -> code_of v = Some b -> forall bins,
  foldl (fun b '(s, v) => put_code net s v b) bins l !! code_fname net s = Some b.
Proof.
  intros Hd Hin Hb. induction l as [|[s' v'] l IH]; intros bins; [by apply elem_of_nil in Hin|].
  cbn [fmap list_fmap fst] in Hd. apply NoDup_cons in Hd as [Hs Hd]. apply elem_of_cons in Hin as [[= -> ->]|Hin]; [|by apply IH].
  cbn [foldl]. apply put_codes_keep; [|unfold put_code; rewrite Hb; apply lookup_insert_eq].
  intros s2 v2 Hin E. apply code_fname_inj in E as <-. apply Hs. by apply (list_elem_of_fmap_2 fst) in Hin.
Qed.

Definition read_entry (p : string * Value) : list Z * GenesisAccount := (unhex p.1, genesis_account p.2).

Lemma alloc_read final net l : no_quote net -> forall bins,
  Forall (fun p => (exists a, width 20 a /\ p.1 = hex_digits a) /\ forall b, code_of p.2 = Some b -> final !! code_fname net p.1 = Some b) l ->
  prints (times (length l) (read_account final)) (emit_alloc net l bins).1 (map read_entry l).
Proof.
  intros Hn. induction l as [|[s v] l IH]; intros bins Hl; [done|].
  inversion_clear Hl as [|? ? [(a & Ha & Hs) Hc] Hl']. cbn in Hs, Hc. subst s. cbn [emit_alloc length times map].
  destruct (emit_account net (hex_digits a) v bins) as [t bins'] eqn:E. specialize (IH bins' Hl').
  destruct (emit_alloc net l bins') as [ts bins'']. cbn [fst] in *.
  assert (t = (emit_account net (hex_digits a) v final).1) as -> by (rewrite emit_account_text in *; by injection E).
  eapply prints_bind; [by apply account_read|]. cbv beta. unfold read_entry at 1. cbn [fst snd]. rewrite unhex_digits by done.
  by apply (prints_last _ (fun l => _ :: l)).
Qed.

Lemma collect_lookup l : NoDup l.*1 -> forall a x, collect l !! a = Some x <-> (a, x) ∈ l.
Proof.
  induction l as [|[a' x'] l IH] using rev_ind; intros Hd a x; [split; [done|by intros ?%elem_of_nil]|].
  rewrite fmap_app in Hd. apply NoDup_app in Hd as (Hd & Hs & _). unfold collect. rewrite foldl_app. cbn [foldl].
  fold (collect l). rewrite elem_of_app, list_elem_of_singleton, lookup_insert_Some, IH by done. split; [naive_solver|].
  intros [Hin|[= -> ->]]; [|by left]. right. split; [|done]. intros <-. apply (Hs a'); [by apply (list_elem_of_fmap_2 fst) in Hin|by left].
Qed.

(** The same accounts by address and by digits. *)
Definition same_accounts (M : gmap (list Z) GenesisAccount) (m : gmap string Value) : Prop :=
  digits_ok m /\ forall a x, M !! a = Some x <-> width 20 a /\ exists v, m !! hex_digits a = Some v /\ x = genesis_account v.

Definition plain (obj : list (string * Value)) : Prop := Forall (fun p => String.prefix "0x" (canonical_addr p.1) = false) obj.

Lemma ascii_lower_idem c : ascii_lower (ascii_lower c) = ascii_lower c.
Proof. destruct c as [[] [] [] [] [] [] [] []]; reflexivity. Qed.

Lemma to_lower_idem s : to_ascii_lowercase (to_ascii_lowercase s) = to_ascii_lowercase s.
Proof. induction s as [|c s IH]; [done|]. cbn. by rewrite ascii_lower_idem, IH. Qed.

Lemma zeros_lower n : to_ascii_lowercase (String.concat "" (repeat "0"%string n)) = String.concat "" (repeat "0"%string n).
Proof.
  induction n as [|n IH]; [done|]. cbn [repeat]. destruct n as [|n]; [done|].
  change (String.concat "" ("0"%string :: repeat "0"%string (S n))) with ("0" +:+ "" +:+ String.concat "" (repeat "0"%string (S n))).
  rewrite !to_ascii_lowercase_app, IH. done.
Qed.

Lemma canonical_lower raw : to_ascii_lowercase (canonical_addr raw) = canonical_addr raw.
Proof. unfold canonical_addr, pad_zeros. by rewrite to_ascii_lowercase_app, zeros_lower, to_lower_idem. Qed.

Lemma build_alloc_same obj : plain obj -> forall M m M', same_accounts M m -> build_alloc obj M = Ok M' ->
  same_accounts M' (foldl (fun m '(a, v) => <[canonical_addr a := v]> m) m obj).
Proof.
  induction 1 as [|[raw v] obj Hp _ IH]; intros M m M' [Hm HM] E; cbn [build_alloc foldl] in *; [inv_ok; by subst|].
  inv_ok. assert (Hw := address_range _ _ Ha). apply (address_digits _ _ Ha (canonical_lower raw)) in Hp. cbn in Hp.
  eapply IH; [|exact E]. rewrite Hp. split.
  - intros s v'. rewrite lookup_insert_Some. intros [[<- _]|[_ Hs]]; [by exists a|by eapply Hm].
  - intros b x. rewrite lookup_insert_Some, HM. split.
    + intros [[<- <-]|[Hne (Hb & v' & Hv & ->)]]; [split; [done|]; exists v; by rewrite lookup_insert_eq|].
      split; [done|]. exists v'. rewrite lookup_insert_ne; [done|]. intros E'. apply Hne. by eapply hex_digits_inj.
    + intros (Hb & v' & Hv & ->). apply lookup_insert_Some in Hv as [[E' <-]|[Hne Hv]].
      * left. split; [by eapply hex_digits_inj|done].
      * right. split; [by intros ->|]. split; [done|]. by exists v'.
Qed.

Lemma sorted_alloc_elem m p : p ∈ sorted_alloc m <-> m !! p.1 = Some p.2.
Proof. unfold sorted_alloc. rewrite merge_sort_Permutation. destruct p. apply elem_of_map_to_list. Qed.

Lemma sorted_alloc_NoDup m : NoDup (sorted_alloc m).*1.
Proof. unfold sorted_alloc. rewrite merge_sort_Permutation. apply NoDup_fst_map_to_list. Qed.

Lemma sorted_alloc_length m : length (sorted_alloc m) = size m.
Proof. unfold sorted_alloc. by rewrite merge_sort_Permutation, length_map_to_list. Qed.

Lemma collect_same M m : same_accounts M m -> collect (map read_entry (sorted_alloc m)) = M.
Proof.
  intros [Hm HM]. assert (Hd : NoDup (map read_entry (sorted_alloc m)).*1).
  { apply NoDup_fmap_fst.
    - intros a x y [[s v] [[= -> ->] Hs]]%list_elem_of_fmap [[s' v'] [[= E ->] Hs']]%list_elem_of_fmap.
      apply sorted_alloc_elem in Hs, Hs'. cbn in Hs, Hs'. destruct (Hm _ _ Hs) as (a & Ha & ->), (Hm _ _ Hs') as (a' & Ha' & ->).
      rewrite !unhex_digits in E by done. subst a'. congruence.
    - apply NoDup_fmap_2_strong; [|eapply NoDup_fmap_1, sorted_alloc_NoDup]. 
      intros [s v] [s' v'] Hs Hs' [= E Ev]. apply sorted_alloc_elem in Hs, Hs'. cbn in Hs, Hs'.
      destruct (Hm _ _ Hs) as (a & Ha & ->), (Hm _ _ Hs') as (a' & Ha' & ->).
      rewrite !unhex_digits in E by done. subst a'. congruence. }
  apply map_eq. intros a. apply option_eq. intros x. rewrite collect_lookup, HM by done. split.
  - intros [[s v] [[= -> ->] Hs]]%list_elem_of_fmap. apply sorted_alloc_elem in Hs. cbn in Hs. destruct (Hm _ _ Hs) as (a & Ha & ->).
    rewrite unhex_digits by done. split; [done|]. by exists v.
  - intros (Ha & v & Hv & ->). apply list_elem_of_fmap. exists (hex_digits a, v). unfold read_entry. cbn [fst snd].
    rewrite unhex_digits by done. split; [done|]. by apply sorted_alloc_elem.
Qed.

(** ** Code files that stay *)

Lemma collect_alloc_origin obj : forall (m : gmap string Value) s v, foldl (fun m '(a, v) => <[canonical_addr a := v]> m) m obj !! s = Some v ->
  m !! s = Some v \/ exists raw, (raw, v) ∈ obj /\ s = canonical_addr raw.
Proof.
  induction obj as [|[raw v'] obj IH]; intros m s v E; [by left|]. cbn [foldl] in E.
  apply IH in E as [[[<- <-]|[_ ?]]%lookup_insert_Some|(raw' & Hin & ->)]; [right; exists raw; split; [by left|done]|by left|].
  right. exists raw'. split; [by right|done].
Qed.

Lemma add_referenced_mono net obj : forall refs, refs ⊆ add_referenced net obj refs.
Proof.
  unfold add_referenced. induction obj as [|[raw v] obj IH]; intros refs; [done|]. cbn [foldl].
  etrans; [|apply IH]. destruct (code_of v); set_solver.
Qed.

Lemma add_referenced_in net obj raw v b : (raw, v) ∈ obj -> code_of v = Some b -> forall refs,
  code_fname (feature net) (canonical_addr raw) ∈ add_referenced net obj refs.
Proof.
  intros Hin Hb. induction obj as [|[raw' v'] obj IH]; intros refs; [by apply elem_of_nil in Hin|].
  apply elem_of_cons in Hin as [[= -> ->]|Hin]; [|by apply IH].
  change (code_fname (feature net) (canonical_addr raw') ∈ add_referenced net obj
    (match code_of v' with Some _ => {[ code_fname (feature net) (canonical_addr raw') ]} ∪ refs | None => refs end)).
  rewrite Hb. apply add_referenced_mono. set_solver.
Qed.

(** ** One network *)

(** What a network's part of the file must mean. *)
Definition built_from (gz_files : gmap string (list Z)) (net : NetworkDef) (m : Generated) : Prop :=
  exists bytes json g, gz_files !! (genesis_urls (tag net) (channel net)).2 = Some bytes /\ gunzip_json bytes = Some json /\
    build_genesis_object json (def_chain_id net) = Ok g /\
    gen_genesis m = g /\ gen_header m = make_genesis_header g (fluent_default_chain_hardforks (osaka_fork net)) /\
    gen_chain m = def_chain_id net /\ gen_hardforks m = fluent_default_chain_hardforks (osaka_fork net).

(** No key of an allocation keeps a prefix. *)
Definition plain_files (gz_files : gmap string (list Z)) : Prop := forall name bytes json,
  gz_files !! name = Some bytes -> gunzip_json bytes = Some json -> plain (default [] (as_object (index json "alloc"))).

Definition hardforks_body : list (string * option ForkCondition) :=
  map (fun '(name, c) => (name, if String.eqb name "Osaka" then None else Some c)) (fluent_default_chain_hardforks Never).

Definition net_ok (net : NetworkDef) : Prop := no_quote (feature net) /\ fork_ok (osaka_fork net) /\ is_u64 (def_chain_id net).

Lemma collect_alloc_size obj : (size (collect_alloc obj) <= length obj)%nat.
Proof.
  unfold collect_alloc. enough (forall m : gmap string Value, (size (foldl (fun m '(a, v) => <[canonical_addr a := v]> m) m obj) <= size m + length obj)%nat) as Hs.
  { etrans; [apply Hs|]. by rewrite map_size_empty. }
  induction obj as [|[a v] obj IH]; intros m; cbn [foldl length]; [lia|]. etrans; [apply IH|].
  rewrite map_size_insert. case_match; unfold id; lia.
Qed.

Lemma entries_len v : Z.of_nat (length (default [] (as_object v))) < 2 ^ 64.
Proof. destruct (as_object v) as [l|] eqn:E; [by apply as_object_len in E|done]. Qed.

Lemma chain_text_read bins bins0 net json g : net_ok net -> genesis_ok g -> chain_id (config g) = def_chain_id net ->
  same_accounts (alloc g) (collect_alloc (default [] (as_object (index json "alloc")))) ->
  (forall s v b, collect_alloc (default [] (as_object (index json "alloc"))) !! s = Some v -> code_of v = Some b ->
     bins !! code_fname (feature net) s = Some b) ->
  prints (read_module bins hardforks_body (feature net))
    (emit_network bins0 json g (fluent_default_chain_hardforks (osaka_fork net)) net).1
    {| gen_genesis := g; gen_header := make_genesis_header g (fluent_default_chain_hardforks (osaka_fork net));
       gen_chain := def_chain_id net; gen_hardforks := fluent_default_chain_hardforks (osaka_fork net) |}.
Proof.
  intros (Hq & Ho & Hid) Hg Hc Hsame Hbins. unfold emit_network, read_module.
  assert (Hsize : 0 <= Z.of_nat (size (collect_alloc (default [] (as_object (index json "alloc"))))) < 2 ^ 64).
  { assert (Hle := collect_alloc_size (default [] (as_object (index json "alloc")))).
    assert (Hlen := entries_len (index json "alloc")). lia. }
  assert (Hread := alloc_read bins (feature net) (sorted_alloc (collect_alloc (default [] (as_object (index json "alloc"))))) Hq bins0).
  set (m := collect_alloc _) in *. destruct (emit_alloc (feature net) (sorted_alloc m) bins0) as [accounts bins1]. cbn [fst] in *.
  parts. eapply prints_two; [apply number_read; [exact Hsize|done]|]. parts.
  rewrite Nat2Z.id, <- sorted_alloc_length. eapply prints_bind.
  { apply Hread, Forall_forall. intros [s v] Hin. apply sorted_alloc_elem in Hin. cbn [fst snd] in *. split; [by apply Hsame in Hin|].
    intros b Hb. by eapply Hbins. }
  parts. eapply prints_bind; [by apply chain_config_read, Hg|]. rewrite (collect_same _ _ Hsame).
  eapply prints_bind; [by apply genesis_struct_read|]. parts.
  eapply prints_bind; [by apply header_fields_read, header_range|]. parts.
  eapply prints_bind; [rewrite Hc; by apply chainspec_read|]. cbv beta iota.
  change (call_hardforks hardforks_body (osaka_fork net)) with (fluent_default_chain_hardforks (osaka_fork net)). apply prints_end.
Qed.

Lemma emit_network_bins bins0 json g hardforks net :
  (emit_network bins0 json g hardforks net).2 =
  foldl (fun b '(s, v) => put_code (feature net) s v b) bins0 (sorted_alloc (collect_alloc (default [] (as_object (index json "alloc"))))).
Proof. unfold emit_network. rewrite <- emit_alloc_put. by destruct (emit_alloc _ _ _). Qed.

Lemma download_spec fetch tag channel gz_files json gz_files' :
  download_and_cache_genesis fetch tag channel gz_files = Ok (json, gz_files') ->
  (forall k x, gz_files !! k = Some x -> gz_files' !! k = Some x) /\
  exists bytes, gz_files' !! (genesis_urls tag channel).2 = Some bytes /\ gunzip_json bytes = Some json.
Proof.
  unfold download_and_cache_genesis. destruct (genesis_urls tag channel) as [url name]. intros E. inv_ok.
  apply Ok_inj in E. injection E as -> ->. cbn [snd]. split; [|by eexists].
  destruct (gz_files !! name) eqn:Ename; [by apply Ok_inj in Ha as <-|]. inv_ok. apply Ok_inj in Ha as <-.
  intros k x Hk. rewrite lookup_insert_ne; [done|]. congruence.
Qed.

Definition mainnet_checked (net : NetworkDef) (m : Generated) : Prop :=
  feature net = "mainnet"%string -> h_timestamp (gen_header m) = MAINNET_TIMESTAMP /\ seal_hash (gen_header m) = MAINNET_HASH.

(** The text of a network is read as [m] wherever its code files stay. *)
Definition reads_as (b' : Build) (net : NetworkDef) (text : string) (m : Generated) : Prop := forall final,
  (forall s c, bins b' !! code_fname (feature net) s = Some c -> code_fname (feature net) s ∈ referenced_bins b' ->
     final !! code_fname (feature net) s = Some c) ->
  prints (read_module final hardforks_body (feature net)) text m.

Lemma process_network_spec fetch b net b' : net_ok net -> process_network fetch b net = Ok b' -> plain_files (cache b') ->
  (forall k x, cache b !! k = Some x -> cache b' !! k = Some x) /\ referenced_bins b ⊆ referenced_bins b' /\
  (forall f, (forall s, f <> code_fname (feature net) s) -> bins b' !! f = bins b !! f) /\
  exists text m, out b' = out b +:+ text /\ built_from (cache b') net m /\ mainnet_checked net m /\ reads_as b' net text m.
Proof.
  intros Hnet E Hplain. unfold process_network in E. apply bind_Ok in E as ([json gz] & Hd & E).
  apply bind_Ok in E as (g & Hg & E). apply bind_Ok in E as ([] & Hcheck & E).
  destruct (download_spec _ _ _ _ _ _ Hd) as (Hgz & bytes & Hname & Hjson).
  assert (Hb := emit_network_bins (bins b) json g (fluent_default_chain_hardforks (osaka_fork net)) net).
  assert (Ht := fun final => chain_text_read final (bins b) net json g Hnet).
  destruct (emit_network _ _ _ _ _) as [text bins1] eqn:Etext. cbn [fst snd] in Hb, Ht. apply Ok_inj in E. subst b'. cbn [cache bins referenced_bins out] in *.
  destruct (build_genesis_ok _ _ _ (proj2 (proj2 Hnet)) Hg) as (Hok & Hid & Halloc).
  assert (Hsame : same_accounts (alloc g) (collect_alloc (default [] (as_object (index json "alloc"))))).
  { eapply build_alloc_same; [by eapply Hplain| |exact Halloc]. split; [done|]. intros a x. rewrite lookup_empty. split; [done|].
    by intros (_ & v & Hv & _). }
  split; [done|]. split; [apply add_referenced_mono|]. split; [intros f Hf; subst bins1; by apply put_codes_other|].
  exists text, {| gen_genesis := g; gen_header := make_genesis_header g (fluent_default_chain_hardforks (osaka_fork net));
                  gen_chain := def_chain_id net; gen_hardforks := fluent_default_chain_hardforks (osaka_fork net) |}.
  split; [done|]. split; [by exists bytes, json, g|]. split.
  - intros Hm. unfold check_mainnet in Hcheck. rewrite Hm in Hcheck. cbn [String.eqb] in Hcheck. cbn in Hcheck. inv_ok.
    split; [by apply Z.eqb_eq|]. by apply bool_decide_eq_true in Hcheck.
  - intros final Hfinal. apply Ht; [done..|]. intros s v c Hs Hc. cbn in Hfinal. apply Hfinal.
    + subst bins1. apply (put_codes_there (feature net) _ s v); [apply sorted_alloc_NoDup|by apply sorted_alloc_elem|done].
    + unfold collect_alloc in Hs. apply collect_alloc_origin in Hs as [Hs|(raw & Hin & ->)]; [done|]. by eapply add_referenced_in.
Qed.

Lemma built_from_mono gz gz' net m : (forall k x, gz !! k = Some x -> gz' !! k = Some x) -> built_from gz net m -> built_from gz' net m.
Proof. intros Hk (bytes & json & g & Hb & ?). exists bytes, json, g. split; [by apply Hk|done]. Qed.

Lemma plain_files_mono gz gz' : (forall k x, gz !! k = Some x -> gz' !! k = Some x) -> plain_files gz' -> plain_files gz.
Proof. intros Hk Hp name bytes json Hb. by eapply Hp, Hk. Qed.

Lemma codes_apart s t : code_fname "mainnet" s <> code_fname "testnet" t.
Proof. done. Qed.

Lemma orphans_keep removable refs bins0 f c : bins0 !! f = Some c -> f ∈ refs -> drop_orphans removable refs bins0 !! f = Some c.
Proof. intros Hc Hf. unfold drop_orphans. apply map_lookup_filter_Some. split; [done|]. tauto. Qed.

(** C30: Whatever earlier builds left in the cache and the output directory, when
    the build script ends, the generated file, compiled with the code files it
    includes, means exactly what the script built from the genesis files of the
    cache: each network's allocation, configuration, header, chain id and
    hardforks, and mainnet's header is the one whose hash and time were checked.
    Nothing else is in the file. *)
Theorem generated_is_built fetch removable gz_files bin_dir out_dir gz_files' bin_dir' out_dir' :
  main fetch removable gz_files bin_dir out_dir = Ok (gz_files', bin_dir', out_dir') -> plain_files gz_files' ->
  exists text ms, out_dir' !! "fluent_genesis.rs"%string = Some text /\
    read_file bin_dir' (map feature network_defs) text = Some ms /\
    Forall2 (built_from gz_files') network_defs ms /\ Forall2 mainnet_checked network_defs ms.
Proof.
  intros E Hplain. unfold main in E. apply bind_Ok in E as (b & Eb & E). apply Ok_inj in E. injection E as Egz <- <-. subst gz_files'.
  unfold network_defs in Eb. cbn [process_networks] in Eb.
  set (net1 := {| feature := "mainnet" |}) in Eb. set (net2 := {| feature := "testnet" |}) in Eb.
  apply bind_Ok in Eb as (b1 & E1 & Eb). apply bind_Ok in Eb as (b2 & E2 & Eb). apply Ok_inj in Eb as ->.
  assert (Hq : net_ok net1 /\ net_ok net2) by (split; (split; [by repeat constructor|]); by vm_compute).
  destruct (process_network_spec _ _ _ _ (proj2 Hq) E2 Hplain) as (Hgz & Hrefs & Hbins & t2 & m2 & Hout2 & Hb2 & Hc2 & Hr2).
  assert (Hplain1 := plain_files_mono _ _ Hgz Hplain).
  destruct (process_network_spec _ _ _ _ (proj1 Hq) E1 Hplain1) as (_ & _ & _ & t1 & m1 & Hout1 & Hb1 & Hc1 & Hr1).
  exists (out b), [m1; m2]. split; [rewrite write_inserts; apply lookup_insert_eq|]. split.
  - unfold read_file. change (map feature network_defs) with ["mainnet"; "testnet"]%string. rewrite Hout2, Hout1. cbn [out]. rewrite !app_assoc_s.
    assert (Hp : prints (_ ← expect emit_uses; body ← read_hardforks; read_modules (drop_orphans removable (referenced_bins b) (bins b)) body ["mainnet"; "testnet"]%string)
      (emit_uses +:+ emit_hardforks +:+ t1 +:+ t2 +:+ EmptyString) [m1; m2]).
    { apply prints_expect. eapply prints_bind; [apply hardforks_read|]. eapply prints_bind.
      { apply Hr1. intros s c Hc Hin. apply orphans_keep; [|by apply Hrefs]. rewrite Hbins; [done|]. intros t. apply codes_apart. }
      apply (prints_bind _ _ t2 EmptyString [m2]); [|done]. apply (prints_last _ (fun m => [m]) t2 m2).
      apply Hr2. intros s c Hc Hin. by apply orphans_keep. }
    specialize (Hp EmptyString). rewrite !append_nil_r in Hp. by rewrite Hp.
  - split; (constructor; [|by repeat constructor]); [by eapply built_from_mono|done].
Qed.
End Generated.
(** ** A build *)

Lemma lower_hex_inv c v : lower_hex c = Some v -> 0 <= v < 16 /\ c = hex_digit v.
Proof.
  unfold lower_hex. destruct (hex_value c) as [x|] eqn:E; [|done]. cbn. destruct (Ascii.eqb_spec c (hex_digit x)) as [->|]; [|done].
  intros [= <-]. split; [by eapply hex_value_range|done].
Qed.

Lemma hex_bytes_inv n : forall s l r, hex_bytes n s = Some (l, r) -> width n l /\ s = hex_digits l +:+ r.
Proof.
  induction n as [|n IH]; intros s l r E; [injection E as <- <-; by repeat split|]. cbn [hex_bytes] in E.
  destruct s as [|a [|b s]]; [done..|]. destruct (lower_hex a) as [x|] eqn:Ea; [|done]. destruct (lower_hex b) as [y|] eqn:Eb; [|done].
  destruct (hex_bytes n s) as [[l' r']|] eqn:El; [|done]. injection E as <- <-. apply IH in El as [[Hn Hl] ->].
  apply lower_hex_inv in Ea as [Hx ->], Eb as [Hy ->]. split; [split; [cbn; lia|]|].
  - constructor; [unfold is_byte; lia|done].
  - cbn [hex_digits]. rewrite !append_cons. do 2 f_equal; [f_equal; dlia|]. f_equal. f_equal. dlia.
Qed.

Definition whole (n : nat) (s : string) : option (list Z) :=
  match hex_bytes n s with Some (l, EmptyString) => Some l | _ => None end.

Lemma whole_inv n s l : whole n s = Some l -> width n l /\ s = hex_digits l.
Proof.
  unfold whole. destruct (hex_bytes n s) as [[k [|]]|] eqn:E; [|done..]. intros [= <-]. apply hex_bytes_inv in E as [Hw ->].
  by rewrite append_nil_r.
Qed.

Inductive json : Type :=
  | JNull
  | JNumber (n : Z)
  | JText (s : string)
  | JObject (l : list (string * json)).

Fixpoint find_key (k : string) (l : list (string * json)) : json :=
  match l with
  | [] => JNull
  | (k', v) :: l => if String.eqb k k' then v else find_key k l
  end.

Definition sample_account (key : string) : string * json :=
  (key, JObject [("balance", JText "0x5"); ("code", JText "6001"); ("nonce", JNumber 1)])%string.

(** Two keys of one address, the second of which counts. *)
Definition sample_json : json := JObject [
  ("alloc", JObject [("0xAB", JObject []); sample_account "0xab"; ("0xc0", JObject [("balance", JText "7")])]);
  ("config", JObject [("londonBlock", JNumber 3)]);
  ("timestamp", JText "0x69b8194c")]%string.

Definition sample_header (g : Genesis) (hardforks : Hardforks) : Header := {|
  parent_hash := repeat 0 32; ommers_hash := repeat 1 32; beneficiary := coinbase g; state_root := repeat 2 32;
  transactions_root := repeat 3 32; receipts_root := repeat 4 32; logs_bloom := repeat 0 256; h_difficulty := difficulty g;
  h_number := default 0 (number g); h_gas_limit := gas_limit g; gas_used := 0; h_timestamp := timestamp g;
  h_extra_data := extra_data g; h_mix_hash := mix_hash g; h_nonce := be_encode 8 (nonce g); base_fee_per_gas := Some 7;
  withdrawals_root := Some (repeat 5 32); blob_gas_used := Some 0; excess_blob_gas := Some 0; parent_beacon_block_root := None;
  requests_hash := None; block_access_list_hash := None; slot_number := None |}.

#[local] Instance sample_libs : GenesisLibs := {|
  Value := json;
  gunzip_json := fun bytes => if decide (bytes = [31; 139]) then Some sample_json else None;
  index := fun v k => match v with JObject l => find_key k l | _ => JNull end;
  as_str := fun v => match v with JText s => Some s | _ => None end;
  as_u64 := fun v => match v with JNumber n => if decide (is_u64 n) then Some n else None | _ => None end;
  as_bool := fun _ => None;
  as_object := fun v => match v with
                        | JObject l => if decide (Z.of_nat (length l) < 2 ^ 64) then Some l else None
                        | _ => None
                        end;
  u256_from_str := fun s => u64_from_hex (trim_0x s);
  bytes_from_str := fun s => whole (Nat.div (String.length s) 2) s;
  address_from_str := whole 20;
  b256_from_str := whole 32;
  make_genesis_header := sample_header;
  seal_hash := fun h => if h_timestamp h =? MAINNET_TIMESTAMP then MAINNET_HASH else [] |}.

Lemma width_repeat n b : is_byte b -> width n (repeat b n).
Proof. intros Hb. split; [apply repeat_length|]. apply Forall_forall. intros x Hx. by apply list_elem_of_In, repeat_spec in Hx as ->. Qed.

#[local] Instance sample_laws : GenesisLaws.
Proof.
  assert (Hz : is_u64 0) by (unfold is_u64, u64_max; lia).
  split; cbn.
  - intros v n E. destruct v as [|m| |]; try done. case_decide; [|done]. by injection E as <-.
  - intros v l E. destruct v as [| | |k]; try done. case_decide; [|done]. by injection E as <-.
  - intros s n E. unfold u64_from_hex in E. assert (is_u64 n) as Hn by (repeat case_match; try discriminate; by eapply hex_number_range).
    unfold is_u64, u64_max in Hn. lia.
  - intros s l E. by apply whole_inv in E as [[_ ?] _].
  - intros s l E. by apply whole_inv in E as [? _].
  - intros s l E. by apply whole_inv in E as [? _].
  - intros s l E _ _. by apply whole_inv in E as [_ ?].
  - intros g o [_ (Hn & Ht & Hg & Hnum) Hd Hm Hc He]. assert (forall b, 0 <= b < 6 -> width 32 (repeat b 32)) as Hw by (intros; apply width_repeat; unfold is_byte; lia).
    split; cbn -[repeat be_encode]; try done.
    + repeat apply Forall_cons_2; first [done|apply Hw; lia].
    + repeat apply Forall_cons_2; first [done|apply Hw; lia].
    + by apply width_repeat.
    + repeat apply Forall_cons_2; try done. by destruct (number g).
    + repeat apply Forall_cons_2; try done; unfold is_u64, u64_max; cbn; lia.
    + split; [apply length_be_encode|apply be_encode_bytes].
Qed.

(** The downloads of the sample, over a directory with a stale code file. *)
Definition sample_main := main (fun _ => Some [31; 139]) (fun _ => true) ∅ {["code_mainnet_old.bin"%string := [1]]} ∅.

Lemma generated_is_built_witness :
  match sample_main with
  | Ok (gz_files, bin_dir, out_dir) =>
      bin_dir !! "code_mainnet_old.bin"%string = None /\
      exists text ms, out_dir !! "fluent_genesis.rs"%string = Some text /\
        read_file bin_dir (map feature network_defs) text = Some ms /\
        Forall2 (built_from gz_files) network_defs ms /\ Forall2 mainnet_checked network_defs ms
  | _ => False
  end.
Proof.
  assert (Hok : match sample_main with Ok (_, b, _) => b !! "code_mainnet_old.bin"%string = None | _ => False end) by by vm_compute.
  destruct sample_main as [[[gz_files bin_dir] out_dir]|e|] eqn:E; [|done..]. split; [exact Hok|].
  apply (generated_is_built _ _ _ _ _ _ _ _ E). intros name bytes v _ Hv. cbn in Hv. case_decide; [|done]. injection Hv as <-.
  by repeat constructor.
Defined.
